(* ===== verification/_CoqProject ===== *)
-Q . S2P
Prelude.v
Arch.v
Codec.v
Insn.v
Memory.v
Exec.v
Threads.v
Multithreaded.v
Singlethreaded.v
Program.v
Rollup.v
Frames.v
Channels.v
L1Info.v
DepositLog.v
Batches.v
SpanBatch.v
BatchStages.v
Attributes.v
Interop.v
Cross.v
Position.v
Claims.v
Trace.v
Solver.v
Rules.v
Resolution.v
GameProps.v
Honest.v
SolverProps.v
ResolutionProps.v
Extend.v
TraceProps.v
CycleProps.v
HazardProps.v
AccessProps.v
EntryDB.v
FromDA.v
ChainsDB.v
LogDB.v
FromDAProps.v
ChainsProps.v
LogProps.v
LogQueries.v
LogWrites.v
Locks.v
L1InfoProps.v
DepositProps.v
BatchProps.v
StageProps.v
SpanProps.v
ChannelProps.v
AssemblerProps.v
MerkleSpec.v
MemoryProps.v
MerkleProps.v
MemoryRange.v
InsnProps.v
ExecProps.v
SyscallProps.v
SyscallSpec.v
MTProps.v
MTStep.v
Sched.v
Commit.v
Toy.v
ToyGame.v
ToyDerive.v
ToyInterop.v
GameTheorems.v
InteropTheorems.v
SupervisorTheorems.v
LogTheorems.v
DeriveTheorems.v
BlockTheorems.v
MemoryTheorems.v
InsnTheorems.v
VMTheorems.v
