(* ===== verification/Prelude.v ===== *)
(** Verification of the derivation, fault-proof and interop core of the OP Stack.

    A rollup node derives its chain from L1: the pipeline of op-node turns the
    transactions of L1 blocks into frames, channels, batches and the attributes
    of L2 blocks. A fault proof settles disputes about the result. A virtual
    machine, cannon, runs a MIPS program step by step and commits to its state
    with Merkle roots, so that a contract can check a single step; a dispute
    game bisects the run of the machine, with the challenger on the honest side.
    Chains that exchange messages are watched by a supervisor, op-supervisor,
    which promotes a block when the messages it executes exist, are in order and
    do not form a cycle. This library models the pipeline, the machine, the game
    and the supervisor and proves what makes them correct.

    * Conventions

    Fixed-width integers are [Z] with their wrap-around written out ([wrap],
    [signed], [uadd], [ushl], ...); bytes are [Z] and hashes are lists of bytes.
    A fallible operation returns an [outcome] ([Ok], [Err] with the message of
    the sentinel error, [Panic]); a stateful one is a function of the [ST]
    monad, or of the [stage] monad where the state survives an error. Keccak-256,
    the pre-image oracle, symbol metadata, the LRU cache and the functions of
    op-geth are class parameters; the classes of laws ([KeccakLaws], [TraceLaws],
    [GethLaws], ...) hold only documented behaviour, and Toy.v, ToyGame.v,
    ToyDerive.v and ToyInterop.v instantiate them. Loops over lists are structural. The other
    loops take fuel that covers every run: the height of the tree for Merkle
    nodes, the number of claims for walks to the root of a game (parents come
    before their children), the length of the buffer for readers, hints and
    frames (a frame is not empty), twice the queue for its pruning (a step
    removes a frame or advances the cursor), the frames that are left for the
    channel assembler, ten bytes for a varint, the number of nodes for the
    rounds of the cycle check, one more than the chains for the rounds of the
    hazard search, the length of the range for [sort.Search], the entries of the
    store for iterators over a database; "out of fuel" is a [Panic] or an
    error of its own, and the theorems that say that an operation returns
    exclude it. Where Go visits a map, the order is a stream of choices and the
    theorems hold for every stream; a write to a file may fail at any time.

    * The virtual machine (src/cannon/mipsevm, src/op-service/serialize)

    - Arch.v: arch/*.go, register/*.go, the 32- and the 64-bit machine as the
      two instances of a class.
    - Codec.v: the readers and writers of op-service/serialize.
    - Insn.v: exec/mips_instructions.go.
    - Memory.v: memory/*.go. Pages live in a store and are referred to by
      index, because the page cache aliases the page table.
    - Exec.v: exec/mips_syscalls.go, exec/memory.go, exec/preimage.go,
      exec/stack.go.
    - Threads.v and Multithreaded.v (Modules MT and MTVM): multithreaded/*.go,
      the state, its witness, the scheduler and every system call.
    - Singlethreaded.v, Program.v: singlethreaded/*.go, versions/*.go,
      program/*.go.

    MerkleSpec.v is the abstract memory: a function from addresses to bytes with
    the Merkle root of its leaves. MemoryProps.v, MerkleProps.v, MemoryRange.v
    and MemoryTheorems.v show that the paged memory with its caches refines it;
    InsnProps.v, ExecProps.v, SyscallProps.v and SyscallSpec.v are about
    instructions, loads and stores, and system calls; MTProps.v, MTStep.v,
    Sched.v and Commit.v about the threads, one step and the witness, the
    scheduler, the binary format and what the roots commit to. The properties
    are in MemoryTheorems.v (refinement, proofs, round trip, ranges),
    InsnTheorems.v (loads, stores, products, counts) and VMTheorems.v (the
    invariant of reachable states, the witness, reservations, fairness, system
    calls, round trips).

    * The dispute game (src/op-challenger/game/fault, src/op-dispute-mon/mon)

    - Position.v: types/position.go.
    - Claims.v: types/types.go, types/actions.go and, in Module Game,
      types/game.go.
    - Trace.v: trace/access.go, trace/translate.go, trace/split/*.go and, in
      Module Alphabet, trace/alphabet/*.go.
    - Solver.v: solver/honest_claims.go, solver/solver.go,
      solver/game_solver.go. Rules.v: solver/rules.go.
    - Resolution.v: mon/transform/tree.go and mon/resolve.go, the resolution of
      a game as the contract performs it.

    GameProps.v is about the structure of a game ([game_ok]), ids of claims and
    the claims a claim lies between; Honest.v characterises the claims the
    solver makes and answers; SolverProps.v runs the solver and shows that its
    actions obey the rules; ResolutionProps.v follows the resolution; Extend.v
    performs the actions of the solver; TraceProps.v is about the alphabet trace
    and split games. The properties are in
    GameTheorems.v: honest play wins, honest claims keep their bonds, actions
    obey the rules, ids identify claims in small games and fail to in a large
    one, and the facts on positions and split games. The solver is proved
    against [TraceLaws], for games played on one trace; a split game is covered
    up to the choice of its providers.

    * Derivation (src/op-node/rollup, src/op-node/rollup/derive)

    - Rollup.v: types.go, chain_spec.go and the references and system
      configuration of op-service/eth.
    - Frames.v: frame.go, frame_queue.go. Channels.v: channel.go,
      channel_bank.go, channel_assembler.go, channel_mux.go.
    - L1Info.v: l1_block_info.go, deposit_source.go, payload_util.go,
      l2block_util.go and op-service/solabi (Module Solabi).
    - DepositLog.v: deposit_log.go, deposits.go, system_config.go.
    - Batches.v: singular_batch.go, the derived form of span_batch.go, and
      batches.go. SpanBatch.v: the encoding of span_batch.go,
      span_batch_util.go, batch.go.
    - BatchStages.v: base_batch_stage.go, batch_queue.go, batch_stage.go,
      batch_mux.go.
    - Attributes.v: attributes.go, attributes_queue.go, l1_traversal.go,
      l1_retrieval.go.

    A stage is proved against a class for the stage before it
    ([NextDataProvider], [NextFrameProvider], [NextBatchProvider],
    [SingularProvider]), and the model of that stage is an instance. ChannelProps.v
    and AssemblerProps.v are about frames, their queue, one channel, the
    assembler as a refinement of a machine with one open channel, and the bank.
    L1InfoProps.v defines canonical codecs and applies them to the L1
    information and the configuration; DepositProps.v is about deposit events,
    source hashes and configuration updates; BatchProps.v about the rules;
    StageProps.v about runs of the batch stage on a canonical L1 chain and the
    attributes; SpanProps.v about the encoding of span batches, for an interface
    of their transactions ([SpanTxsLaws]). The properties are in DeriveTheorems.v (frames, channels) and
    BlockTheorems.v (L1 information, deposits, batches, stages, attributes):
    round trips of every format, delivery of channels, derived blocks extend the
    safe chain, a silent sequencer does not stop it, deposits are included, and
    two defects of the code.

    * The supervisor (src/op-supervisor/supervisor)

    - Interop.v: types/types.go, types/error.go and depset/*.go: messages, access
      lists, chain indices, dependency sets, block seals.
    - Cross.v: cross/*.go, the graph of messages of a timestamp and its cycle
      check, the hazards of a block, promotion to cross-unsafe and cross-safe.
    - EntryDB.v: db/entrydb/*.go, the store of entries as a file with faults and
      in memory, behind the classes [EntryStore] and [EntryStoreLaws].
    - FromDA.v: db/fromda/*.go, which L2 block is derived from which L1 block;
      Locks.v: its read and write locks as a transition system.
    - LogDB.v: db/logs/*.go, the logs of a chain as entries with search
      checkpoints.
    - ChainsDB.v: db/db.go, db/query.go, db/update.go, db/anchor.go: the
      databases of all chains, against classes for the two kinds of database.

    CycleProps.v and HazardProps.v relate the cycle check and the hazard search
    to the graph and the reachable blocks; AccessProps.v is about access lists
    and message validity; FromDAProps.v about reachable derivation databases and
    their bisection; ChainsProps.v about updates, invalidation and replacement;
    LogProps.v defines the chunks of entries a log database consists of, how
    iterators read them and the history they stand for, LogQueries.v the
    bisection, the walks and the queries, LogWrites.v the writes, rewinding and
    recovery. The properties are in InteropTheorems.v (cycles, hazards,
    promotion, access lists), SupervisorTheorems.v (stores, order of the
    databases, bisection, invalidation, a deadlock of read locks) and
    LogTheorems.v (the log database as a refinement of histories, its recovery,
    its defects, and that executed messages of cross-safe blocks were logged).

    * Not modelled

    JSON and compressed forms of states, debug output and logging, command
    lines, files and processes; of derivation, the loop that drives the stages
    (pipeline.go), decompression and RLP (channel_in_reader.go, BatchReader), the
    encoder (channel_out.go), the data sources, the columns of span batch
    transactions and the constant upgrade transactions; the contract bindings,
    schedulers and workers of op-challenger and the polling of op-dispute-mon;
    the backend, the sync nodes and the processors of op-supervisor; the network
    services (op-node's driver and p2p, op-batcher, op-proposer, op-conductor),
    op-program, whose block execution is a third-party library, operator
    tooling, tests and contracts. Their work is I/O around the modelled parts or
    code of other libraries. *)
From Stdlib Require Import ZArith Lia.
From stdpp Require Import base gmap list strings numbers.

Open Scope Z_scope.

(** ** Outcomes of Go calls: a value, a returned [error], or a [panic]. *)

Inductive outcome (A : Type) : Type :=
| Ok (a : A)
| Err (e : string)
| Panic (e : string).

Arguments Ok {A} a.
Arguments Err {A} e.
Arguments Panic {A} e.

#[export] Instance outcome_ret : MRet outcome := fun A a => Ok a.

#[export] Instance outcome_bind : MBind outcome := fun A B f m =>
  match m with
  | Ok a => f a
  | Err e => Err e
  | Panic e => Panic e
  end.

Definition is_ok {A} (m : outcome A) : Prop := exists a, m = Ok a.

(** Postconditions of a successful run (errors and panics satisfy it
    vacuously; totality is always stated separately with [is_ok]). *)
Definition post {A} (m : outcome A) (Q : A -> Prop) : Prop :=
  forall a, m = Ok a -> Q a.

Lemma bind_ok {A B} (m : outcome A) (f : A -> outcome B) (b : B) :
  m ≫= f = Ok b -> exists a, m = Ok a /\ f a = Ok b.
Proof. destruct m as [a | e | e]; cbn; intros H; [eauto | discriminate | discriminate]. Qed.

Lemma bind_ok_intro {A B} (m : outcome A) (f : A -> outcome B) a b :
  m = Ok a -> f a = Ok b -> m ≫= f = Ok b.
Proof. intros -> H. exact H. Qed.

Lemma post_bind {A B} (m : outcome A) (f : A -> outcome B) P Q :
  post m P -> (forall a, P a -> post (f a) Q) -> post (m ≫= f) Q.
Proof. intros HP HQ b (a & Ha & Hb)%bind_ok. exact (HQ a (HP a Ha) b Hb). Qed.

(** Invert every bind of a successful run. *)
Ltac inv_ok :=
  repeat match goal with
  | H : Ok _ = Ok _ |- _ => injection H as H; subst
  | H : Err _ = Ok _ |- _ => discriminate H
  | H : Panic _ = Ok _ |- _ => discriminate H
  | H : Ok _ = Panic _ |- _ => discriminate H
  | H : Ok _ = Err _ |- _ => discriminate H
  | H : mret _ = Ok _ |- _ => unfold mret, outcome_ret in H
  | H : (_ ≫= _) = Ok _ |- _ =>
      let a := fresh "a" in let Ha := fresh "Ha" in
      apply bind_ok in H as (a & Ha & H)
  end.

(** ** Stateful code: a state and outcome monad *)

Definition ST (S A : Type) : Type := S -> outcome (A * S).

#[export] Instance ST_ret S : MRet (ST S) := fun A a s => Ok (a, s).

#[export] Instance ST_bind S : MBind (ST S) := fun A B f m s =>
  match m s with
  | Ok (a, s') => f a s'
  | Err e => Err e
  | Panic e => Panic e
  end.

Definition get {S} : ST S S := fun s => Ok (s, s).
Definition gets {S A} (f : S -> A) : ST S A := fun s => Ok (f s, s).
Definition put {S} (s : S) : ST S unit := fun _ => Ok (tt, s).
Definition modify {S} (f : S -> S) : ST S unit := fun s => Ok (tt, f s).
Definition panic {S A} (e : string) : ST S A := fun _ => Panic e.
Definition throw {S A} (e : string) : ST S A := fun _ => Err e.
Definition lift {S A} (m : outcome A) : ST S A := fun s => a ← m; Ok (a, s).

(** Run a computation on a component of the state. *)
Definition zoom {S T A} (get_ : S -> T) (set_ : T -> S -> S) (m : ST T A) : ST S A :=
  fun s => '(a, t) ← m (get_ s); Ok (a, set_ t s).

(** [for _, x := range l { body }]. *)
Fixpoint forM {S X} (l : list X) (body : X -> ST S unit) : ST S unit :=
  match l with
  | [] => mret ()
  | x :: l' => body x ;; forM l' body
  end.

(** Hoare triples for total correctness: from a state satisfying [P] the
    computation succeeds and establishes [Q]. *)
Definition triple {S A} (P : S -> Prop) (m : ST S A) (Q : A -> S -> Prop) : Prop :=
  forall s, P s -> exists a s', m s = Ok (a, s') /\ Q a s'.

(** Partial correctness: a successful run establishes [Q]. *)
Definition hoare {S A} (P : S -> Prop) (m : ST S A) (Q : A -> S -> Prop) : Prop :=
  forall s a s', P s -> m s = Ok (a, s') -> Q a s'.

Lemma ST_bind_ok {S A B} (m : ST S A) (f : A -> ST S B) s b s' :
  (m ≫= f) s = Ok (b, s') -> exists a s1, m s = Ok (a, s1) /\ f a s1 = Ok (b, s').
Proof.
  unfold mbind, ST_bind. destruct (m s) as [[a s1] | e | e]; intros H; [eauto | done | done].
Qed.

Lemma ST_bind_run {S A B} (m : ST S A) (f : A -> ST S B) s a s1 :
  m s = Ok (a, s1) -> (m ≫= f) s = f a s1.
Proof. unfold mbind, ST_bind. by intros ->. Qed.

Lemma lift_ok {S A} (m : outcome A) (s : S) a s' :
  lift m s = Ok (a, s') -> m = Ok a /\ s' = s.
Proof. unfold lift. destruct m; cbn; [by intros [= <- <-] | done | done]. Qed.

Lemma zoom_ok {S T A} (g : S -> T) (st : T -> S -> S) (op : ST T A) s a s' :
  zoom g st op s = Ok (a, s') -> exists t, op (g s) = Ok (a, t) /\ s' = st t s.
Proof.
  unfold zoom. destruct (op (g s)) as [[a' t] | |]; cbn; [| done | done].
  intros [= <- <-]. eauto.
Qed.

Lemma zoom_run {S T A} (g : S -> T) (st : T -> S -> S) (op : ST T A) s a t :
  op (g s) = Ok (a, t) -> zoom g st op s = Ok (a, st t s).
Proof. unfold zoom. by intros ->. Qed.

(** Invert the runs of the context: one equation per primitive operation. *)
Ltac st_inv1 :=
  match goal with
  | H : (_ ≫= _) _ = Ok (_, _) |- _ =>
      let a := fresh "a" in let s := fresh "s" in let Ha := fresh "R" in
      apply ST_bind_ok in H as (a & s & Ha & H)
  | H : mret _ _ = Ok (_, _) |- _ => injection H; clear H; intros; subst
  | H : gets _ _ = Ok (_, _) |- _ => injection H as <- <-
  | H : get _ = Ok (_, _) |- _ => injection H as <- <-
  | H : put _ _ = Ok (_, _) |- _ => injection H as <- <-
  | H : modify _ _ = Ok (_, _) |- _ => injection H as <- <-
  | H : panic _ _ = Ok _ |- _ => discriminate H
  | H : throw _ _ = Ok _ |- _ => discriminate H
  | H : lift _ _ = Ok (_, _) |- _ => apply lift_ok in H as [H ->]
  | H : Ok (_, _) = Ok (_, _) |- _ => injection H as <- <-
  | H : (let '(_, _) := ?x in _) _ = Ok (_, _) |- _ => is_var x; destruct x; cbn [fst snd] in H
  | H : (if ?b then _ else _) _ = Ok (_, _) |- _ => let E := fresh "E" in destruct b eqn:E
  end.
Ltac st_inv := repeat st_inv1.

Lemma triple_bind {S A B} (P : S -> Prop) (m : ST S A) Q (f : A -> ST S B) R :
  triple P m Q -> (forall a, triple (Q a) (f a) R) -> triple P (m ≫= f) R.
Proof.
  intros Hm Hf s Hs. destruct (Hm s Hs) as (a & s1 & Ha & HQ).
  destruct (Hf a s1 HQ) as (b & s2 & Hb & HR).
  exists b, s2. split; [by rewrite (ST_bind_run m f s a s1 Ha) | done].
Qed.

Lemma hoare_bind {S A B} (P : S -> Prop) (m : ST S A) Q (f : A -> ST S B) R :
  hoare P m Q -> (forall a, hoare (Q a) (f a) R) -> hoare P (m ≫= f) R.
Proof. intros Hm Hf s b s' Hs (a & s1 & Ha & Hb)%ST_bind_ok. eapply Hf; eauto. Qed.

Lemma hoare_forM {S X} (I : S -> Prop) (l : list X) (body : X -> ST S unit) :
  (forall x, x ∈ l -> hoare I (body x) (fun _ => I)) -> hoare I (forM l body) (fun _ => I).
Proof.
  intros Hb. induction l as [|x l IH]; cbn [forM].
  - intros s [] s' Hs [= <-]. done.
  - eapply hoare_bind; [apply Hb, list_elem_of_here |].
    intros []. apply IH. intros y Hy. by apply Hb, list_elem_of_further.
Qed.

(** ** Unsigned machine integers

    A [w]-bit Go integer is a [Z] in [0, 2^w); the wrap-around of the
    language is written out. *)

Definition wrap (w x : Z) : Z := x mod 2 ^ w.

Definition uadd (w x y : Z) : Z := wrap w (x + y).
Definition usub (w x y : Z) : Z := wrap w (x - y).
Definition umul (w x y : Z) : Z := wrap w (x * y).
Definition ushl (w x k : Z) : Z := wrap w (Z.shiftl x k).
Definition ushr (x k : Z) : Z := Z.shiftr x k.
Definition unot (w x : Z) : Z := wrap w (Z.lnot x).

(** Reading the low [w] bits as a two's complement integer: Go's
    conversions [int32(x)], [int64(x)]. *)
Definition signed (w x : Z) : Z :=
  let y := wrap w x in if y <? 2 ^ (w - 1) then y else y - 2 ^ w.

Definition in_range (w x : Z) : Prop := 0 <= x < 2 ^ w.

Declare Scope go_scope.
Delimit Scope go_scope with go.
Infix ".&" := Z.land (at level 40, left associativity) : go_scope.
Infix ".|" := Z.lor (at level 50, left associativity) : go_scope.
Infix ".^" := Z.lxor (at level 50, left associativity) : go_scope.
Open Scope go_scope.

Create HintDb range.

Lemma pow2_pos w : 0 <= w -> 0 < 2 ^ w.
Proof. intros. apply Z.pow_pos_nonneg; lia. Qed.

Lemma wrap_range w x : 0 <= w -> in_range w (wrap w x).
Proof. intros. apply Z.mod_pos_bound, pow2_pos; lia. Qed.

Lemma wrap_small w x : in_range w x -> wrap w x = x.
Proof. apply Z.mod_small. Qed.

Lemma wrap_wrap w x : wrap w (wrap w x) = wrap w x.
Proof. apply Zmod_mod. Qed.

Lemma wrap_ones w x : 0 <= w -> wrap w x = x .& Z.ones w.
Proof. intros. unfold wrap. by rewrite Z.land_ones. Qed.

Lemma in_range_testbit w x i :
  0 <= w -> in_range w x -> w <= i -> Z.testbit x i = false.
Proof.
  intros Hw Hx Hi. rewrite <- (wrap_small w x Hx). apply Z.mod_pow2_bits_high. lia.
Qed.

(** A nonnegative integer whose bits stop at [w] is in range. *)
Lemma in_range_bits w x :
  0 <= w -> 0 <= x -> (forall i, w <= i -> Z.testbit x i = false) -> in_range w x.
Proof.
  intros Hw Hx Hbits. enough (x = wrap w x) as -> by (by apply wrap_range).
  apply Z.bits_inj'. intros i Hi. unfold wrap.
  destruct (decide (i < w)).
  - rewrite Z.mod_pow2_bits_low by lia. done.
  - rewrite Z.mod_pow2_bits_high by lia. apply Hbits. lia.
Qed.

Lemma land_range w x y : 0 <= w -> in_range w x -> 0 <= y -> in_range w (x .& y).
Proof.
  intros Hw Hx Hy. apply in_range_bits; [done | apply Z.land_nonneg; lia |].
  intros i Hi. rewrite Z.land_spec, (in_range_testbit w x i) by done. done.
Qed.

Lemma land_range_r w x y : 0 <= w -> in_range w y -> 0 <= x -> in_range w (x .& y).
Proof. intros. rewrite Z.land_comm. by apply land_range. Qed.

Lemma lor_range w x y : 0 <= w -> in_range w x -> in_range w y -> in_range w (x .| y).
Proof.
  intros Hw Hx Hy. apply in_range_bits; [done | apply Z.lor_nonneg; unfold in_range in *; lia |].
  intros i Hi. by rewrite Z.lor_spec, (in_range_testbit w x i), (in_range_testbit w y i).
Qed.

Lemma lxor_range w x y : 0 <= w -> in_range w x -> in_range w y -> in_range w (x .^ y).
Proof.
  intros Hw Hx Hy. apply in_range_bits; [done | apply Z.lxor_nonneg; unfold in_range in *; lia |].
  intros i Hi. by rewrite Z.lxor_spec, (in_range_testbit w x i), (in_range_testbit w y i).
Qed.

Lemma ushr_range w x k : 0 <= w -> 0 <= k -> in_range w x -> in_range w (ushr x k).
Proof.
  intros Hw Hk Hx. unfold ushr. rewrite Z.shiftr_div_pow2 by done.
  pose proof (pow2_pos k Hk). unfold in_range in *. split.
  - apply Z.div_pos; lia.
  - apply Z.div_lt_upper_bound; nia.
Qed.

Lemma in_range_weaken w w' x : 0 <= w <= w' -> in_range w x -> in_range w' x.
Proof.
  intros Hw [H1 H2]. split; [done |].
  apply Z.lt_le_trans with (2 ^ w); [done | apply Z.pow_le_mono_r; lia].
Qed.

Lemma uadd_range w x y : 0 <= w -> in_range w (uadd w x y).
Proof. apply wrap_range. Qed.
Lemma usub_range w x y : 0 <= w -> in_range w (usub w x y).
Proof. apply wrap_range. Qed.
Lemma umul_range w x y : 0 <= w -> in_range w (umul w x y).
Proof. apply wrap_range. Qed.
Lemma ushl_range w x k : 0 <= w -> in_range w (ushl w x k).
Proof. apply wrap_range. Qed.
Lemma unot_range w x : 0 <= w -> in_range w (unot w x).
Proof. apply wrap_range. Qed.

Lemma signed_range w x : 0 < w -> - 2 ^ (w - 1) <= signed w x < 2 ^ (w - 1).
Proof.
  intros Hw. unfold signed. pose proof (wrap_range w x ltac:(lia)) as [H1 H2].
  assert (2 ^ w = 2 * 2 ^ (w - 1)) by (rewrite <- Z.pow_succ_r by lia; f_equal; lia).
  destruct (Z.ltb_spec (wrap w x) (2 ^ (w - 1))); lia.
Qed.

Lemma signed_wrap_eq w x : wrap w (signed w x) = wrap w x.
Proof.
  unfold signed. destruct (wrap w x <? _); [apply wrap_wrap |].
  unfold wrap. replace (x mod 2 ^ w - 2 ^ w) with (x mod 2 ^ w + (-1) * 2 ^ w) by lia.
  rewrite Z_mod_plus_full. apply Zmod_mod.
Qed.

Lemma signed_small w x : 0 < w -> - 2 ^ (w - 1) <= x < 2 ^ (w - 1) -> signed w x = x.
Proof.
  intros Hw Hx. unfold signed, wrap.
  assert (2 ^ w = 2 * 2 ^ (w - 1)) by (rewrite <- Z.pow_succ_r by lia; f_equal; lia).
  pose proof (pow2_pos (w - 1) ltac:(lia)).
  destruct (decide (0 <= x)).
  - rewrite Z.mod_small by lia. destruct (Z.ltb_spec x (2 ^ (w - 1))); lia.
  - replace (x mod 2 ^ w) with (x + 2 ^ w).
    + destruct (Z.ltb_spec (x + 2 ^ w) (2 ^ (w - 1))); lia.
    + apply (Z.mod_unique _ _ (-1)); lia.
Qed.

(** [x<<k | y] is [x*2^k + y] when [y] fits below. *)
Lemma lor_shiftl_add x y k : 0 <= k -> in_range k y -> Z.shiftl x k .| y = x * 2 ^ k + y.
Proof.
  intros Hk Hy. rewrite <- Z.shiftl_mul_pow2 by done.
  assert (Z.land (Z.shiftl x k) y = 0) as Hz.
  { apply Z.bits_inj'. intros i Hi. rewrite Z.land_spec, Z.bits_0.
    destruct (decide (i < k)).
    - by rewrite Z.shiftl_spec_low.
    - by rewrite (in_range_testbit k y i), andb_false_r by (done || lia). }
  rewrite Z.add_nocarry_lxor by done. symmetry. apply Z.lxor_lor. done.
Qed.

Lemma ushr_div x k : 0 <= k -> ushr x k = x / 2 ^ k.
Proof. apply Z.shiftr_div_pow2. Qed.

Lemma land_ones_mod x k : 0 <= k -> x .& Z.ones k = x mod 2 ^ k.
Proof. apply Z.land_ones. Qed.

#[export] Hint Resolve wrap_range land_range lor_range lxor_range ushr_range
  uadd_range usub_range umul_range ushl_range unot_range : range.

(** Turn every [<?], [=?], [&&] ... test of the context into arithmetic. *)
Ltac bool_lia :=
  repeat match goal with
  | H : (_ <? _) = true |- _ => apply Z.ltb_lt in H
  | H : (_ <? _) = false |- _ => apply Z.ltb_ge in H
  | H : (_ <=? _) = true |- _ => apply Z.leb_le in H
  | H : (_ <=? _) = false |- _ => apply Z.leb_gt in H
  | H : (_ =? _) = true |- _ => apply Z.eqb_eq in H
  | H : (_ =? _) = false |- _ => apply Z.eqb_neq in H
  | H : (_ && _) = true |- _ => apply andb_true_iff in H as [? ?]
  | H : (_ || _) = false |- _ => apply orb_false_iff in H as [? ?]
  | H : negb _ = true |- _ => apply negb_true_iff in H
  | H : negb _ = false |- _ => apply negb_false_iff in H
  end; try lia.

(** ** Bytes and big-endian codecs ([encoding/binary.BigEndian]) *)

Definition is_byte (b : Z) : Prop := in_range 8 b.
Definition bytes_ok (l : list Z) : Prop := Forall is_byte l.

Fixpoint be_encode (n : nat) (x : Z) : list Z :=
  match n with
  | O => []
  | S k => wrap 8 (ushr x (8 * Z.of_nat k)) :: be_encode k x
  end.

Definition be_decode (bs : list Z) : Z := fold_left (fun acc b => acc * 256 + b) bs 0.

Lemma length_be_encode n x : length (be_encode n x) = n.
Proof. induction n; cbn; congruence. Qed.

Lemma be_encode_bytes n x : bytes_ok (be_encode n x).
Proof. induction n; constructor; [by apply wrap_range | done]. Qed.

Lemma be_fold_acc bs acc :
  fold_left (fun a b => a * 256 + b) bs acc
  = acc * 2 ^ (8 * Z.of_nat (length bs)) + be_decode bs.
Proof.
  unfold be_decode. revert acc. induction bs as [|b bs IH]; intros acc; cbn [fold_left length].
  - lia.
  - rewrite (IH (acc * 256 + b)), (IH (0 * 256 + b)).
    replace (8 * Z.of_nat (S (length bs))) with (8 + 8 * Z.of_nat (length bs)) by lia.
    rewrite Z.pow_add_r by lia. change (2 ^ 8) with 256. ring.
Qed.

Lemma be_decode_cons b bs :
  be_decode (b :: bs) = b * 2 ^ (8 * Z.of_nat (length bs)) + be_decode bs.
Proof. unfold be_decode at 1. cbn [fold_left]. rewrite be_fold_acc. lia. Qed.

Lemma be_decode_app l1 l2 :
  be_decode (l1 ++ l2) = be_decode l1 * 2 ^ (8 * Z.of_nat (length l2)) + be_decode l2.
Proof. unfold be_decode at 1. rewrite fold_left_app. apply be_fold_acc. Qed.

Lemma be_decode_encode n x : be_decode (be_encode n x) = wrap (8 * Z.of_nat n) x.
Proof.
  induction n as [|n IH]; cbn [be_encode].
  - cbn. unfold wrap. by rewrite Z.mod_1_r.
  - rewrite be_decode_cons, length_be_encode, IH.
    replace (8 * Z.of_nat (S n)) with (8 * Z.of_nat n + 8) by lia.
    unfold wrap, ushr. rewrite Z.shiftr_div_pow2, Z.pow_add_r by lia.
    pose proof (pow2_pos (8 * Z.of_nat n) ltac:(lia)).
    rewrite Z.rem_mul_r by lia. ring.
Qed.

Lemma be_decode_range bs : bytes_ok bs -> in_range (8 * Z.of_nat (length bs)) (be_decode bs).
Proof.
  induction 1 as [|b bs Hb Hbs IH]; [done |].
  rewrite be_decode_cons. cbn [length].
  replace (8 * Z.of_nat (S (length bs))) with (8 * Z.of_nat (length bs) + 8) by lia.
  unfold is_byte, in_range in *. rewrite Z.pow_add_r by lia.
  change (2 ^ 8) with 256 in *. nia.
Qed.

Lemma be_encode_shift n k x :
  0 <= k -> be_encode n (x + k * 2 ^ (8 * Z.of_nat n)) = be_encode n x.
Proof.
  intros Hk. enough (forall m, (m <= n)%nat ->
    be_encode m (x + k * 2 ^ (8 * Z.of_nat n)) = be_encode m x) by auto.
  induction m as [|m IH]; intros Hm; [done |]. cbn [be_encode].
  rewrite IH by lia. f_equal. unfold wrap, ushr. rewrite !Z.shiftr_div_pow2 by lia.
  replace (8 * Z.of_nat n) with ((8 * Z.of_nat (n - S m) + 8) + 8 * Z.of_nat m) by lia.
  rewrite Z.pow_add_r, Z.mul_assoc by lia.
  rewrite Z.div_add by (apply Z.pow_nonzero; lia).
  rewrite Z.pow_add_r, Z.mul_assoc by lia. apply Z_mod_plus_full.
Qed.

Lemma be_encode_decode bs : bytes_ok bs -> be_encode (length bs) (be_decode bs) = bs.
Proof.
  induction 1 as [|b bs Hb Hbs IH]; [done |]. cbn [length be_encode].
  rewrite be_decode_cons, Z.add_comm, be_encode_shift by (unfold is_byte, in_range in Hb; lia).
  rewrite IH. f_equal. unfold ushr. rewrite Z.shiftr_div_pow2 by lia.
  rewrite Z.div_add, Z.div_small by (apply be_decode_range || apply Z.pow_nonzero; done || lia).
  by apply wrap_small.
Qed.

Lemma be_encode_inj n x y :
  in_range (8 * Z.of_nat n) x -> in_range (8 * Z.of_nat n) y ->
  be_encode n x = be_encode n y -> x = y.
Proof.
  intros Hx Hy H. rewrite <- (wrap_small _ x Hx), <- (wrap_small _ y Hy).
  by rewrite <- !be_decode_encode, H.
Qed.

(** ** Slices and fixed-size arrays *)

Definition zlen {A} (l : list A) : Z := Z.of_nat (length l).

(** [l[lo:hi]] for [0 <= lo <= hi <= len l]. *)
Definition slice {A} (lo hi : Z) (l : list A) : list A :=
  take (Z.to_nat (hi - lo)) (drop (Z.to_nat lo) l).

(** [copy(l[off:], src)], where the destination is long enough. *)
Definition splice {A} (off : Z) (src l : list A) : list A :=
  take (Z.to_nat off) l ++ src ++ drop (Z.to_nat off + length src) l.

(** A stack that grows at its end: [s[len(s)-1]], [s[:len(s)-1]]. *)
Definition top {A} (l : list A) : option A := l !! pred (length l).
Definition pop {A} (l : list A) : list A := take (pred (length l)) l.

Lemma top_snoc {A} (l : list A) x : top (l ++ [x]) = Some x.
Proof.
  unfold top. rewrite length_app, Nat.add_1_r. cbn [pred].
  rewrite lookup_app_r, Nat.sub_diag by lia. done.
Qed.

Lemma pop_snoc {A} (l : list A) x : pop (l ++ [x]) = l.
Proof. unfold pop. rewrite length_app, Nat.add_1_r. cbn [pred]. apply take_app_length. Qed.

Lemma top_pop {A} (l : list A) x : top l = Some x -> l = pop l ++ [x].
Proof.
  intros Hx. induction l as [|y l _] using rev_ind; [done |].
  rewrite top_snoc in Hx. injection Hx as ->. by rewrite pop_snoc.
Qed.

Lemma zlen_0 {A} (l : list A) : zlen l = 0 -> l = [].
Proof. destruct l; [done |]. unfold zlen. cbn. lia. Qed.

Lemma snoc_nonnil {A} (l : list A) x : l ++ [x] <> [].
Proof. by destruct l. Qed.

Lemma top_is_Some {A} (l : list A) : l <> [] -> is_Some (top l).
Proof. induction l as [|x l _] using rev_ind; [done |]. rewrite top_snoc. eauto. Qed.

Lemma top_None {A} (l : list A) : top l = None <-> l = [].
Proof.
  split; [| by intros ->]. intros H. destruct (decide (l = [])); [done |].
  destruct (top_is_Some l) as [x Hx]; [done | congruence].
Qed.

Lemma length_slice {A} lo hi (l : list A) :
  0 <= lo <= hi -> hi <= zlen l -> length (slice lo hi l) = Z.to_nat (hi - lo).
Proof. intros. unfold slice, zlen in *. rewrite length_take, length_drop. lia. Qed.

Lemma length_splice {A} off (src l : list A) :
  0 <= off -> off + zlen src <= zlen l -> length (splice off src l) = length l.
Proof.
  intros. unfold splice, zlen in *. rewrite !length_app, length_take, length_drop. lia.
Qed.

Lemma lookup_splice {A} off (src l : list A) (i : nat) :
  0 <= off -> off + zlen src <= zlen l ->
  splice off src l !! i =
    if decide (off <= Z.of_nat i < off + zlen src)
    then src !! (i - Z.to_nat off)%nat else l !! i.
Proof.
  intros Ho Hl. unfold splice, zlen in *. case_decide as Hi.
  - rewrite lookup_app_r, lookup_app_l by (rewrite length_take; lia).
    rewrite length_take. f_equal. lia.
  - destruct (decide (Z.of_nat i < off)).
    + rewrite lookup_app_l by (rewrite length_take; lia). apply lookup_take_lt. lia.
    + rewrite lookup_app_r by (rewrite length_take; lia).
      rewrite lookup_app_r by (rewrite length_take; lia).
      rewrite lookup_drop, length_take. f_equal. lia.
Qed.

Lemma lookup_slice {A} lo hi (l : list A) (i : nat) :
  0 <= lo -> (i < Z.to_nat (hi - lo))%nat ->
  slice lo hi l !! i = l !! (Z.to_nat lo + i)%nat.
Proof. intros. unfold slice. rewrite lookup_take_lt, lookup_drop by lia. done. Qed.

Lemma slice_splice_same {A} off (src l : list A) :
  0 <= off -> off + zlen src <= zlen l -> slice off (off + zlen src) (splice off src l) = src.
Proof.
  intros Ho Hl. apply list_eq_same_length with (length src); [done | |].
  - rewrite length_slice; unfold zlen in *; [lia | lia |]. rewrite length_splice; unfold zlen; lia.
  - intros i x y Hi. rewrite lookup_slice, lookup_splice by (unfold zlen in *; lia).
    rewrite decide_True by (unfold zlen in *; lia).
    replace (Z.to_nat off + i - Z.to_nat off)%nat with i by lia. congruence.
Qed.

Lemma slice_splice_disjoint {A} lo hi off (src l : list A) :
  0 <= off -> off + zlen src <= zlen l -> 0 <= lo <= hi -> hi <= zlen l ->
  hi <= off \/ off + zlen src <= lo ->
  slice lo hi (splice off src l) = slice lo hi l.
Proof.
  intros Ho Hl Hlo Hhi Hd. apply list_eq_same_length with (Z.to_nat (hi - lo)).
  - by apply length_slice.
  - rewrite length_slice; [lia | lia |]. unfold zlen. by rewrite length_splice.
  - intros i x y Hi. rewrite !lookup_slice, lookup_splice by lia.
    rewrite decide_False by lia. congruence.
Qed.

(** Slices of concatenations. *)
Lemma slice_app {A} lo hi (a b c : list A) : zlen a = lo -> zlen b = hi - lo -> slice lo hi (a ++ b ++ c) = b.
Proof.
  intros Ha Hb. unfold slice, zlen in *. rewrite drop_app_length' by lia.
  by rewrite take_app_length' by lia.
Qed.

Lemma slice_all {A} hi (b c : list A) : zlen b = hi -> slice 0 hi (b ++ c) = b.
Proof. intros Hb. apply (slice_app 0 hi []); [done | lia]. Qed.

Lemma slice_skip {A} lo hi (a c : list A) :
  zlen a <= lo -> slice lo hi (a ++ c) = slice (lo - zlen a) (hi - zlen a) c.
Proof.
  intros Ha. unfold slice, zlen in *. rewrite drop_app_ge by lia. f_equal; [lia |]. f_equal. lia.
Qed.

Lemma bytes_ok_splice off src l :
  bytes_ok src -> bytes_ok l -> bytes_ok (splice off src l).
Proof.
  intros. unfold bytes_ok, splice. rewrite !Forall_app.
  eauto using Forall_take, Forall_drop.
Qed.

Lemma bytes_ok_slice lo hi l : bytes_ok l -> bytes_ok (slice lo hi l).
Proof. intros. unfold bytes_ok, slice. eauto using Forall_take, Forall_drop. Qed.

#[export] Hint Resolve be_encode_bytes bytes_ok_splice bytes_ok_slice : range.

(** ** Counting loops *)

(** The [n] values [lo], [lo + step], ... of a loop variable. *)
Definition zrange (lo step : Z) (n : nat) : list Z :=
  (fun k => lo + step * Z.of_nat k) <$> seq 0 n.

(** The values of [k] in [for k > 0 { ...; k >>= 1 }]. *)
Fixpoint pos_halvings (p : positive) : list Z :=
  Zpos p :: match p with
            | xH => []
            | xO q | xI q => pos_halvings q
            end.

Definition halvings (k : Z) : list Z :=
  match k with Zpos p => pos_halvings p | _ => [] end.

(** [halvings k] lists [k >> 0], [k >> 1], ... down to 1. *)
Lemma elem_of_halvings k x :
  x ∈ halvings k <-> exists s, 0 <= s /\ x = Z.shiftr k s /\ 0 < x.
Proof.
  assert (Hp : forall p, x ∈ pos_halvings p <-> exists s, 0 <= s /\ x = Z.shiftr (Zpos p) s /\ 0 < x).
  { induction p as [q IH | q IH |]; cbn [pos_halvings]; rewrite elem_of_cons.
    1, 2: rewrite IH; split.
    1, 3: intros [-> | (s & Hs & -> & Hx)];
      [exists 0; split; [lia | split; [done | lia]]
      | exists (s + 1); rewrite (Z.add_comm s 1), <- Z.shiftr_shiftr by lia; cbn [Z.shiftr Z.shiftl];
        split; [lia | done]].
    1, 2: intros (s & Hs & -> & Hx); destruct (decide (s = 0)) as [-> | Hne]; [by left |];
      right; exists (s - 1); split; [lia |]; split; [| done];
      replace s with (1 + (s - 1)) at 1 by lia; by rewrite <- Z.shiftr_shiftr by lia.
    rewrite elem_of_nil. split.
    - intros [-> | []]. exists 0. split; [lia | done].
    - intros (s & Hs & -> & Hx). left. destruct (decide (s = 0)) as [-> | Hne]; [done |].
      exfalso. rewrite Z.shiftr_div_pow2 in Hx by lia.
      rewrite Z.div_small in Hx; [lia |]. split; [lia |].
      apply (Z.pow_gt_1 2 s); lia. }
  destruct k as [| p | p]; cbn [halvings]; [| apply Hp |].
  all: rewrite elem_of_nil; split; [done |].
  - intros (s & Hs & -> & Hx). rewrite Z.shiftr_0_l in Hx. lia.
  - intros (s & Hs & -> & Hx). pose proof (proj2 (Z.shiftr_neg (Zneg p) s)). lia.
Qed.

Lemma elem_of_zrange lo step n x :
  x ∈ zrange lo step n <-> exists k, 0 <= k < Z.of_nat n /\ x = lo + step * k.
Proof.
  unfold zrange. rewrite list_elem_of_fmap. split.
  - intros (k & -> & Hk%elem_of_seq). exists (Z.of_nat k). split; [lia | done].
  - intros (k & Hk & ->). exists (Z.to_nat k). split; [by rewrite Z2Nat.id by lia |].
    apply elem_of_seq. lia.
Qed.

Lemma zrange_S lo step n : zrange lo step (S n) = zrange lo step n ++ [lo + step * Z.of_nat n].
Proof. unfold zrange. by rewrite seq_S, fmap_app. Qed.

(** Induction over a counting loop. *)
Lemma fold_zrange {X} (P : Z -> X -> Prop) (f : X -> Z -> X) lo step n x :
  P 0 x ->
  (forall k x, 0 <= k < Z.of_nat n -> P k x -> P (k + 1) (f x (lo + step * k))) ->
  P (Z.of_nat n) (fold_left f (zrange lo step n) x).
Proof.
  intros H0 HS. induction n as [|n IH]; [done |].
  rewrite zrange_S, fold_left_app, Nat2Z.inj_succ. cbn [fold_left].
  apply HS; [lia |]. apply IH. intros k y Hk. apply HS. lia.
Qed.

(** ** The [switch] statement *)

(** The first case that lists the value is taken; there is no fall-through. *)
Fixpoint switch {X} (x : Z) (cases : list (list Z * X)) (dflt : X) : X :=
  match cases with
  | [] => dflt
  | (ks, v) :: rest => if existsb (Z.eqb x) ks then v else switch x rest dflt
  end.

(** A property of every case is a property of the statement. *)
Lemma switch_all {X} (P : X -> Prop) x cases dflt :
  Forall (fun c => P c.2) cases -> P dflt -> P (switch x cases dflt).
Proof.
  intros Hc Hd. induction Hc as [|[ks v] cases Hv Hc IH]; cbn [switch]; [done |].
  by destruct (existsb _ ks).
Qed.

(** The same, knowing which case is taken. *)
Lemma switch_cases {X} (P : X -> Prop) x cases dflt :
  Forall (fun c => x ∈ c.1 -> P c.2) cases ->
  (Forall (fun c => x ∉ c.1) cases -> P dflt) -> P (switch x cases dflt).
Proof.
  intros Hc Hd. induction Hc as [|[ks v] cases Hv Hc IH]; cbn [switch]; [by apply Hd |].
  destruct (existsb _ ks) eqn:E.
  - apply Hv. apply existsb_exists in E as (k & Hk & ->%Z.eqb_eq). by apply list_elem_of_In.
  - apply IH. intros Hr. apply Hd. constructor; [| done]. cbn. intros Hin%list_elem_of_In.
    assert (existsb (Z.eqb x) ks = true) by (apply existsb_exists; exists x; by rewrite Z.eqb_refl).
    congruence.
Qed.

(** ** The hash function *)

(** [crypto.Keccak256Hash] of go-ethereum: a parameter of the model. *)
Class Keccak : Type := keccak256 : list Z -> list Z.

(** What the VM relies on: a digest is a [32]byte. *)
Class KeccakLaws (K : Keccak) : Prop := {
  keccak_length : forall bs, length (keccak256 bs) = 32%nat;
  keccak_bytes : forall bs, bytes_ok (keccak256 bs);
}.

Abbreviation hash := (list Z) (only parsing).

(** [big.Int.Bytes]: the big-endian bytes of the absolute value, without
    leading zeros. *)
Definition big_Bytes (x : Z) : list Z :=
  be_encode (Z.to_nat ((Z.log2 (Z.abs x) + 8) / 8 * Z.sgn (Z.abs x))) (Z.abs x).
