(* ===== verification/Arch.v ===== *)
(** The two builds of the Cannon VM (cannon/mipsevm/arch): the constants that
    the [cannon64] build tag selects, the [Word] byte order, and the register
    numbers of the calling convention (cannon/mipsevm/register). *)
From Stdlib Require Import ZArith Lia.
From stdpp Require Import base gmap list strings numbers.
From S2P Require Import Prelude.

(** The build tag: every definition of the VM is indexed by it. *)
Inductive Arch : Set := Mips32 | Mips64.

Existing Class Arch.

Class ArchConsts : Set := {
  WordSize : Z;
  AddressMask : Z;
  ExtMask : Z;
  HeapStart : Z;
  HeapEnd : Z;
  ProgramBreak : Z;
  HighMemoryStart : Z;

  SysMmap : Z;
  SysBrk : Z;
  SysClone : Z;
  SysExitGroup : Z;
  SysRead : Z;
  SysWrite : Z;
  SysFcntl : Z;
  SysExit : Z;
  SysSchedYield : Z;
  SysGetTID : Z;
  SysFutex : Z;
  SysOpen : Z;
  SysNanosleep : Z;
  SysClockGetTime : Z;
  SysGetpid : Z;

  SysMunmap : Z;
  SysGetAffinity : Z;
  SysMadvise : Z;
  SysRtSigprocmask : Z;
  SysSigaltstack : Z;
  SysRtSigaction : Z;
  SysPrlimit64 : Z;
  SysClose : Z;
  SysPread64 : Z;
  SysStat : Z;
  SysFstat : Z;
  SysFstat64 : Z;
  SysOpenAt : Z;
  SysReadlink : Z;
  SysReadlinkAt : Z;
  SysIoctl : Z;
  SysEpollCreate1 : Z;
  SysPipe2 : Z;
  SysEpollCtl : Z;
  SysEpollPwait : Z;
  SysGetRandom : Z;
  SysUname : Z;
  SysStat64 : Z;
  SysGetuid : Z;
  SysGetgid : Z;
  SysLlseek : Z;
  SysMinCore : Z;
  SysTgkill : Z;
  SysGetRLimit : Z;
  SysLseek : Z;
  SysSetITimer : Z;
  SysTimerCreate : Z;
  SysTimerSetTime : Z;
  SysTimerDelete : Z;
}.

Definition arch32 : ArchConsts := {|
  AddressMask := 0xFFFFFFFC;
  WordSize := 32;
  ExtMask := 0x3;
  HeapStart := 0x05000000;
  HeapEnd := 0x60000000;
  ProgramBreak := 0x40000000;
  HighMemoryStart := 0x7fffd000;

  SysMmap := 4090;
  SysBrk := 4045;
  SysClone := 4120;
  SysExitGroup := 4246;
  SysRead := 4003;
  SysWrite := 4004;
  SysFcntl := 4055;
  SysExit := 4001;
  SysSchedYield := 4162;
  SysGetTID := 4222;
  SysFutex := 4238;
  SysOpen := 4005;
  SysNanosleep := 4166;
  SysClockGetTime := 4263;
  SysGetpid := 4020;

  SysMunmap := 4091;
  SysGetAffinity := 4240;
  SysMadvise := 4218;
  SysRtSigprocmask := 4195;
  SysSigaltstack := 4206;
  SysRtSigaction := 4194;
  SysPrlimit64 := 4338;
  SysClose := 4006;
  SysPread64 := 4200;
  SysStat := 4106;
  SysFstat := 4108;
  SysFstat64 := 4215;
  SysOpenAt := 4288;
  SysReadlink := 4085;
  SysReadlinkAt := 4298;
  SysIoctl := 4054;
  SysEpollCreate1 := 4326;
  SysPipe2 := 4328;
  SysEpollCtl := 4249;
  SysEpollPwait := 4313;
  SysGetRandom := 4353;
  SysUname := 4122;
  SysStat64 := 4213;
  SysGetuid := 4024;
  SysGetgid := 4047;
  SysLlseek := 4140;
  SysMinCore := 4217;
  SysTgkill := 4266;
  SysGetRLimit := 4076;
  SysLseek := 4019;
  SysSetITimer := 4104;
  SysTimerCreate := 4257;
  SysTimerSetTime := 4258;
  SysTimerDelete := 4261;
|}.

Definition arch64 : ArchConsts :=
  let UndefinedSysNr := unot 64 0 in {|
  AddressMask := 0xFFFFFFFFFFFFFFF8;
  WordSize := 64;
  ExtMask := 0x7;
  HeapStart := 0x0000100000000000;
  HeapEnd := 0x0000600000000000;
  ProgramBreak := 0x0000400000000000;
  HighMemoryStart := 0x00007FFFFFFFF000;

  SysMmap := 5009;
  SysBrk := 5012;
  SysClone := 5055;
  SysExitGroup := 5205;
  SysRead := 5000;
  SysWrite := 5001;
  SysFcntl := 5070;
  SysExit := 5058;
  SysSchedYield := 5023;
  SysGetTID := 5178;
  SysFutex := 5194;
  SysOpen := 5002;
  SysNanosleep := 5034;
  SysClockGetTime := 5222;
  SysGetpid := 5038;

  SysMunmap := 5011;
  SysGetAffinity := 5196;
  SysMadvise := 5027;
  SysRtSigprocmask := 5014;
  SysSigaltstack := 5129;
  SysRtSigaction := 5013;
  SysPrlimit64 := 5297;
  SysClose := 5003;
  SysPread64 := 5016;
  SysStat := 5004;
  SysFstat := 5005;
  SysFstat64 := UndefinedSysNr;
  SysOpenAt := 5247;
  SysReadlink := 5087;
  SysReadlinkAt := 5257;
  SysIoctl := 5015;
  SysEpollCreate1 := 5285;
  SysPipe2 := 5287;
  SysEpollCtl := 5208;
  SysEpollPwait := 5272;
  SysGetRandom := 5313;
  SysUname := 5061;
  SysStat64 := UndefinedSysNr;
  SysGetuid := 5100;
  SysGetgid := 5102;
  SysLlseek := UndefinedSysNr;
  SysMinCore := 5026;
  SysTgkill := 5225;
  SysGetRLimit := 5095;
  SysLseek := 5008;
  SysSetITimer := 5036;
  SysTimerCreate := 5216;
  SysTimerSetTime := 5217;
  SysTimerDelete := 5220;
|}.

#[export] Instance arch_consts {A : Arch} : ArchConsts :=
  match A with Mips32 => arch32 | Mips64 => arch64 end.

Section Common.
Context {A : Arch}.

Definition IsMips32 : bool := WordSize =? 32.
Definition WordSizeBytes : Z := ushr WordSize 3.
Definition PageAddrSize : Z := 12.
Definition PageKeySize : Z := WordSize - PageAddrSize.
Definition MemProofLeafCount : Z := WordSize - 4.
Definition MemProofSize : Z := MemProofLeafCount * 32.

(** [Word] arithmetic. *)
Definition wadd (x y : Z) : Z := uadd WordSize x y.
Definition wsub (x y : Z) : Z := usub WordSize x y.
Definition wshl (x k : Z) : Z := ushl WordSize x k.
Definition wnot (x : Z) : Z := unot WordSize x.
Definition maxWord : Z := wnot 0.

(** [arch.SignedInteger(x)]. *)
Definition SignedInteger (x : Z) : Z := signed WordSize x.

(** A conversion [Word(x)] of a possibly wider or signed integer. *)
Definition Word (x : Z) : Z := wrap WordSize x.

Definition is_word (x : Z) : Prop := in_range WordSize x.

(** [arch.ByteOrderWord]: [Word], [PutWord] and [AppendWord]. *)
Definition ByteOrder_Word (b : list Z) : Z := be_decode b.
Definition ByteOrder_PutWord (v : Z) : list Z := be_encode (Z.to_nat WordSizeBytes) v.
Definition ByteOrder_AppendWord (b : list Z) (v : Z) : list Z :=
  b ++ be_encode (Z.to_nat WordSizeBytes) v.

End Common.

Section CommonLemmas.
Context {A : Arch}.

Lemma WordSize_cases : WordSize = 32 \/ WordSize = 64.
Proof. destruct A; auto. Qed.

Lemma WordSize_nonneg : 0 <= WordSize.
Proof. destruct WordSize_cases; lia. Qed.

Lemma WordSizeBytes_eq : WordSize = 8 * WordSizeBytes.
Proof. destruct A; reflexivity. Qed.

Lemma PageKeySize_eq : PageKeySize = WordSize - 12.
Proof. done. Qed.

Lemma maxWord_eq : maxWord = 2 ^ WordSize - 1.
Proof. destruct A; reflexivity. Qed.

Lemma is_word_iff x : is_word x <-> 0 <= x < 2 ^ WordSize.
Proof. done. Qed.

Lemma wadd_word x y : is_word (wadd x y).
Proof. apply wrap_range, WordSize_nonneg. Qed.
Lemma wsub_word x y : is_word (wsub x y).
Proof. apply wrap_range, WordSize_nonneg. Qed.
Lemma wshl_word x y : is_word (wshl x y).
Proof. apply wrap_range, WordSize_nonneg. Qed.
Lemma wnot_word x : is_word (wnot x).
Proof. apply wrap_range, WordSize_nonneg. Qed.
Lemma Word_word x : is_word (Word x).
Proof. apply wrap_range, WordSize_nonneg. Qed.
Lemma Word_id x : is_word x -> Word x = x.
Proof. apply wrap_small. Qed.
Lemma land_word x y : is_word x -> 0 <= y -> is_word (x .& y).
Proof. apply land_range, WordSize_nonneg. Qed.
Lemma lor_word x y : is_word x -> is_word y -> is_word (x .| y).
Proof. apply lor_range, WordSize_nonneg. Qed.
Lemma lxor_word x y : is_word x -> is_word y -> is_word (x .^ y).
Proof. apply lxor_range, WordSize_nonneg. Qed.
Lemma ushr_word x k : is_word x -> 0 <= k -> is_word (ushr x k).
Proof. intros. apply ushr_range; auto using WordSize_nonneg. Qed.

Lemma length_PutWord v : zlen (ByteOrder_PutWord v) = WordSizeBytes.
Proof. unfold zlen, ByteOrder_PutWord. rewrite length_be_encode. destruct A; reflexivity. Qed.

Lemma PutWord_Word v : is_word v -> ByteOrder_Word (ByteOrder_PutWord v) = v.
Proof.
  intros Hv. unfold ByteOrder_Word, ByteOrder_PutWord. rewrite be_decode_encode.
  apply wrap_small. destruct A; exact Hv.
Qed.

Lemma Word_PutWord bs :
  bytes_ok bs -> zlen bs = WordSizeBytes -> ByteOrder_PutWord (ByteOrder_Word bs) = bs.
Proof.
  intros Hb Hl. unfold ByteOrder_PutWord, ByteOrder_Word.
  rewrite <- Hl. unfold zlen. rewrite Nat2Z.id. by apply be_encode_decode.
Qed.

Lemma ByteOrder_Word_word bs :
  bytes_ok bs -> zlen bs = WordSizeBytes -> is_word (ByteOrder_Word bs).
Proof.
  intros Hb Hl. unfold is_word. rewrite WordSizeBytes_eq, <- Hl. by apply be_decode_range.
Qed.

End CommonLemmas.

#[export] Hint Resolve wadd_word wsub_word wshl_word wnot_word Word_word land_word
  lor_word lxor_word ushr_word WordSize_nonneg : range.

(** ** Calling convention (cannon/mipsevm/register/calling_convention.go) *)

Definition RegV0 : Z := 2.
Definition RegA0 : Z := 4.
Definition RegA1 : Z := 5.
Definition RegA2 : Z := 6.
Definition RegA3 : Z := 7.
Definition RegSP : Z := 29.

Definition RegSyscallNum : Z := RegV0.
Definition RegSyscallErrno : Z := RegA3.
Definition RegSyscallRet1 : Z := RegV0.
Definition RegSyscallParam1 : Z := RegA0.
Definition RegSyscallParam2 : Z := RegA1.
Definition RegSyscallParam3 : Z := RegA2.
