(* ===== verification/Codec.v ===== *)
(** The binary format of op-service/serialize: [BinaryReader] over an
    [io.Reader], [BinaryWriter] over an in-memory [io.Writer], and the round
    trip law the serializable states of the VM satisfy. *)
From Stdlib Require Import ZArith Lia.
From stdpp Require Import base gmap list strings numbers.
From S2P Require Import Prelude Arch.

(** ** Reader (reader.go)

    The state of a reader is the input that is left. *)

(** [io.ReadFull], which [binary.Read] also uses. *)
Definition ReadFull (n : Z) : ST (list Z) (list Z) := fun inp =>
  if n =? 0 then Ok ([], inp)
  else if zlen inp =? 0 then Err "EOF"
  else if zlen inp <? n then Err "unexpected EOF"
  else Ok (take (Z.to_nat n) inp, drop (Z.to_nat n) inp).

(** [ReadUInt] of a [8*n]-bit target. *)
Definition ReadUInt (n : Z) : ST (list Z) Z :=
  b ← ReadFull n;
  mret (be_decode b).

Definition ReadHash : ST (list Z) (list Z) := ReadFull 32.

Definition ReadBool : ST (list Z) bool :=
  v ← ReadUInt 1;
  if v =? 0 then mret false
  else if v =? 1 then mret true
  else throw "invalid boolean value".

Definition ReadBytes : ST (list Z) (list Z) :=
  size ← ReadUInt 4;
  if size =? 0 then mret []
  else ReadFull size.

(** ** Writer (writer.go) *)

Definition WriteUInt (n : Z) (v : Z) : list Z := be_encode (Z.to_nat n) v.

Definition WriteHash (v : list Z) : list Z := v.

Definition WriteBool (v : bool) : list Z :=
  if v then WriteUInt 1 1 else WriteUInt 1 0.

Definition WriteBytes (v : list Z) : list Z :=
  WriteUInt 4 (wrap 32 (zlen v)) ++ v.

(** ** The round trip law

    [decodes d e P]: reading back what [e] wrote for a value that satisfies
    [P] returns it and leaves the rest of the input. *)
Definition decodes {A} (d : ST (list Z) A) (e : A -> list Z) (P : A -> Prop) : Prop :=
  forall a rest, P a -> d (e a ++ rest) = Ok (a, rest).

(** What a type promises to the code that serializes it. *)
Class Serializable (A : Type) : Type := {
  Serialize : A -> list Z;
  Deserialize : ST (list Z) A;
  serializable : A -> Prop;
  Deserialize_Serialize : decodes Deserialize Serialize serializable;
}.

Lemma ReadFull_app n (l rest : list Z) :
  zlen l = n -> ReadFull n (l ++ rest) = Ok (l, rest).
Proof.
  intros <-. unfold ReadFull, zlen. rewrite length_app, Nat2Z.inj_add.
  destruct (Z.eqb_spec (Z.of_nat (length l)) 0) as [H0 | H0].
  - by destruct l.
  - destruct (Z.eqb_spec (Z.of_nat (length l) + Z.of_nat (length rest)) 0); [lia |].
    destruct (Z.ltb_spec (Z.of_nat (length l) + Z.of_nat (length rest)) (Z.of_nat (length l))); [lia |].
    by rewrite Nat2Z.id, take_app_length, drop_app_length.
Qed.

Lemma ReadFull_too_short n (l : list Z) :
  zlen l < n -> exists e, ReadFull n l = Err e.
Proof.
  intros Hn. unfold ReadFull. pose proof (Zle_0_nat (length l)). unfold zlen in *.
  destruct (Z.eqb_spec n 0); [lia |].
  destruct (Z.eqb_spec (Z.of_nat (length l)) 0); [eauto |].
  destruct (Z.ltb_spec (Z.of_nat (length l)) n); [eauto | lia].
Qed.

(** What was read is what the writer would have written. *)
Lemma ReadFull_inv n inp l rest : 0 <= n -> ReadFull n inp = Ok (l, rest) -> inp = l ++ rest /\ zlen l = n.
Proof.
  intros Hn. unfold ReadFull. destruct (Z.eqb_spec n 0) as [-> | H0]; [intros [= <- <-]; done |].
  destruct (Z.eqb_spec (zlen inp) 0); [done |]. destruct (Z.ltb_spec (zlen inp) n); [done |]. intros [= <- <-].
  rewrite take_drop. split; [done |]. unfold zlen in *. rewrite length_take. lia.
Qed.

Lemma ReadUInt_inv n inp v rest :
  0 <= n -> bytes_ok inp -> ReadUInt n inp = Ok (v, rest) ->
  inp = be_encode (Z.to_nat n) v ++ rest /\ in_range (8 * n) v /\ bytes_ok rest.
Proof.
  intros Hn Hb R. unfold ReadUInt in R. apply ST_bind_ok in R as (l & s & R & E). injection E as <- <-.
  apply ReadFull_inv in R as [-> Hl]; [| done]. apply Forall_app in Hb as [Hb Hr].
  unfold zlen in Hl. replace (Z.to_nat n) with (length l) by lia. rewrite be_encode_decode by done.
  split; [done |]. split; [| done]. pose proof (be_decode_range l Hb). by replace (8 * n) with (8 * Z.of_nat (length l)) by lia.
Qed.

Lemma uint_decodes n : 0 <= n -> decodes (ReadUInt n) (WriteUInt n) (in_range (8 * n)).
Proof.
  intros Hn v rest Hv. unfold ReadUInt, WriteUInt.
  rewrite (ST_bind_run _ _ _ (be_encode (Z.to_nat n) v) rest).
  - unfold mret, ST_ret. rewrite be_decode_encode, Z2Nat.id, wrap_small by done. done.
  - apply ReadFull_app. unfold zlen. rewrite length_be_encode. lia.
Qed.

Lemma hash_decodes : decodes ReadHash WriteHash (fun h => length h = 32%nat).
Proof. intros h rest Hh. apply ReadFull_app. unfold zlen. lia. Qed.

Lemma bool_decodes : decodes ReadBool WriteBool (fun _ => True).
Proof.
  intros b rest _. unfold ReadBool, WriteBool.
  destruct b; (erewrite ST_bind_run; [| apply uint_decodes; done]); done.
Qed.

Lemma bytes_decodes : decodes ReadBytes WriteBytes (fun v => zlen v < 2 ^ 32).
Proof.
  intros v rest Hv. unfold ReadBytes, WriteBytes. rewrite <- app_assoc.
  assert (in_range 32 (zlen v)) as Hr by (unfold zlen, in_range in *; lia).
  rewrite (wrap_small 32) by done.
  erewrite ST_bind_run; [| apply uint_decodes; done].
  destruct (Z.eqb_spec (zlen v) 0) as [H0 | H0].
  - by destruct v.
  - by apply ReadFull_app.
Qed.

(** Sequencing: one decoder step of a compound round trip. *)
Lemma decodes_bind {A B} (d : ST (list Z) A) e P (a : A) (k : A -> ST (list Z) B) rest res :
  decodes d e P -> P a -> k a rest = res -> (d ≫= k) (e a ++ rest) = res.
Proof. intros Hd Ha <-. by apply ST_bind_run, Hd. Qed.

(** Reading a counted sequence. *)
Fixpoint read_list {A} (n : nat) (d : ST (list Z) A) : ST (list Z) (list A) :=
  match n with
  | O => mret []
  | S n => x ← d; xs ← read_list n d; mret (x :: xs)
  end.

Lemma list_decodes {A} (d : ST (list Z) A) e P (l : list A) rest :
  decodes d e P -> Forall P l ->
  read_list (length l) d (concat (e <$> l) ++ rest) = Ok (l, rest).
Proof.
  intros Hd. induction 1 as [|x l Hx Hl IH]; cbn [length read_list fmap list_fmap concat]; [done |].
  rewrite <- app_assoc. eapply decodes_bind; [done .. |].
  by rewrite (ST_bind_run _ _ _ _ _ IH).
Qed.
