(* ===== verification/Insn.v ===== *)
(** The pure part of the MIPS instruction semantics
    (cannon/mipsevm/exec/mips_instructions.go): sign extension, sub-word
    selection and update, and the ALU [ExecuteMipsInstruction]. *)
From Stdlib Require Import ZArith Lia.
From stdpp Require Import base gmap list strings numbers.
From S2P Require Import Prelude Arch.

Definition OpLoadLinked : Z := 0x30.
Definition OpStoreConditional : Z := 0x38.
Definition OpLoadLinked64 : Z := 0x34.
Definition OpStoreConditional64 : Z := 0x3c.
Definition OpLoadDoubleLeft : Z := 0x1A.
Definition OpLoadDoubleRight : Z := 0x1B.
Definition RegRA : Z := 31.
Definition U32Mask : Z := 0xFFffFFff.

(** [uint32(x)], [int32(x)], [int64(x)]. *)
Definition uint32 (x : Z) : Z := wrap 32 x.
Definition int32 (x : Z) : Z := signed 32 x.
Definition int64 (x : Z) : Z := signed 64 x.

Section Insn.
Context {A : Arch}.

Definition SignExtend (dat idx : Z) : Z :=
  let isSigned := negb (ushr dat (wsub idx 1) .& 1 =? 0) in
  let signed := wshl (wsub (wshl 1 (wsub WordSize idx)) 1) idx in
  let mask := wsub (wshl 1 idx) 1 in
  if isSigned then (dat .& mask) .| signed else dat .& mask.

Definition SignExtendImmediate (insn : Z) : Z := SignExtend (insn .& 0xFFFF) 16.

Definition assertMips64 (insn : Z) : outcome unit :=
  if IsMips32 then Panic "invalid instruction" else Ok ().

Definition assertMips64Fun (fun_ : Z) : outcome unit :=
  if IsMips32 then Panic "invalid instruction func" else Ok ().

(** [(dataMask, bitOffset, bitLength)]. *)
Definition calculateSubWordMaskAndOffset (vaddr byteLength : Z) : Z * Z * Z :=
  let bitLength := wshl byteLength 3 in
  let dataMask := ushr (wnot 0) (wsub WordSize bitLength) in
  (* Figure out sub-word index based on the low-order bits in vaddr *)
  let byteIndexMask := (vaddr .& ExtMask) .& wnot (wsub byteLength 1) in
  let maxByteShift := wsub WordSizeBytes byteLength in
  let byteIndex := vaddr .& byteIndexMask in
  let bitOffset := wshl (wsub maxByteShift byteIndex) 3 in
  (dataMask, bitOffset, bitLength).

Definition SelectSubWord (vaddr memWord byteLength : Z) (signExtend : bool) : Z :=
  let '(dataMask, bitOffset, bitLength) := calculateSubWordMaskAndOffset vaddr byteLength in
  let retVal := ushr memWord bitOffset .& dataMask in
  if signExtend then SignExtend retVal bitLength else retVal.

Definition UpdateSubWord (vaddr memWord byteLength value : Z) : Z :=
  let '(dataMask, bitOffset, _) := calculateSubWordMaskAndOffset vaddr byteLength in
  let subWordValue := dataMask .& value in
  let memUpdateMask := wshl dataMask bitOffset in
  wshl subWordValue bitOffset .| (wnot memUpdateMask .& memWord).

(** The loop of clz and clo: count the leading ones of the low 32 bits. Bit 31
    is clear after 32 left shifts, so 33 rounds are enough. *)
Fixpoint count_ones (fuel : nat) (rs i : Z) : Z :=
  match fuel with
  | O => i
  | S fuel =>
      if negb (rs .& 0x80000000 =? 0) then count_ones fuel (wshl rs 1) (uadd 32 i 1) else i
  end.

(** [abs64]: [-x] overflows to itself for the most negative value. *)
Definition abs64 (x : Z) : Z := if x <? 0 then int64 (- x) else x.

(** [bits.Mul64]: the high and the low half of the product. *)
Definition Mul64 (x y : Z) : Z * Z := (ushr (x * y) 64, wrap 64 (x * y)).

(** The transformation of ArithLogI opcodes to SPECIAL functs. *)
Definition special_fun (opcode fun_ : Z) : Z :=
  switch opcode [
    ([8], 0x20);    (* addi *)
    ([9], 0x21);    (* addiu *)
    ([0xA], 0x2A);  (* slti *)
    ([0xB], 0x2B);  (* sltiu *)
    ([0xC], 0x24);  (* andi *)
    ([0xD], 0x25);  (* ori *)
    ([0xE], 0x26);  (* xori *)
    ([0x18], 0x2c); (* daddi *)
    ([0x19], 0x2d)  (* daddiu *)
  ] fun_.

Definition execute_special (insn fun_ rs rt : Z) : outcome Z :=
  switch fun_ [
    ([0x00], let shiftAmt := ushr insn 6 .& 0x1F in
             Ok (SignExtend (wshl rt shiftAmt .& U32Mask) 32)); (* sll *)
    ([0x02], Ok (SignExtend (ushr (rt .& U32Mask) (ushr insn 6 .& 0x1F)) 32)); (* srl *)
    ([0x03], let shamt := ushr insn 6 .& 0x1F in
             Ok (SignExtend (ushr (rt .& U32Mask) shamt) (wsub 32 shamt))); (* sra *)
    ([0x04], let shiftAmt := rs .& 0x1F in
             Ok (SignExtend (wshl rt shiftAmt .& U32Mask) 32)); (* sllv *)
    ([0x06], Ok (SignExtend (ushr (rt .& U32Mask) (rs .& 0x1F)) 32)); (* srlv *)
    ([0x07], let shamt := rs .& 0x1F in
             Ok (SignExtend (ushr (rt .& U32Mask) shamt) (wsub 32 shamt))); (* srav *)
    (* functs in range [0x8, 0x1b] for 32-bit and [0x8, 0x1f] for 64-bit are
       handled specially by other functions *)
    ([0x08], Ok rs); (* jr *)
    ([0x09], Ok rs); (* jalr *)
    ([0x0a], Ok rs); (* movz *)
    ([0x0b], Ok rs); (* movn *)
    ([0x0c], Ok rs); (* syscall *)
    ([0x0f], Ok rs); (* sync *)
    ([0x10], Ok rs); (* mfhi *)
    ([0x11], Ok rs); (* mthi *)
    ([0x12], Ok rs); (* mflo *)
    ([0x13], Ok rs); (* mtlo *)
    ([0x14], assertMips64 insn ;; Ok rt); (* dsllv *)
    ([0x16], assertMips64 insn ;; Ok rt); (* dsrlv *)
    ([0x17], assertMips64 insn ;; Ok rt); (* dsrav *)
    ([0x18], Ok rs); (* mult *)
    ([0x19], Ok rs); (* multu *)
    ([0x1a], Ok rs); (* div *)
    ([0x1b], Ok rs); (* divu *)
    ([0x1C], assertMips64 insn ;; Ok rs); (* dmult *)
    ([0x1D], assertMips64 insn ;; Ok rs); (* dmultu *)
    ([0x1E], assertMips64 insn ;; Ok rs); (* ddiv *)
    ([0x1F], assertMips64 insn ;; Ok rs); (* ddivu *)
    (* The rest includes transformed R-type arith imm instructions *)
    ([0x20], Ok (SignExtend (Word (int32 (int32 rs + int32 rt))) 32)); (* add *)
    ([0x21], Ok (SignExtend (Word (uadd 32 (uint32 rs) (uint32 rt))) 32)); (* addu *)
    ([0x22], Ok (SignExtend (Word (int32 (int32 rs - int32 rt))) 32)); (* sub *)
    ([0x23], Ok (SignExtend (Word (usub 32 (uint32 rs) (uint32 rt))) 32)); (* subu *)
    ([0x24], Ok (rs .& rt)); (* and *)
    ([0x25], Ok (rs .| rt)); (* or *)
    ([0x26], Ok (rs .^ rt)); (* xor *)
    ([0x27], Ok (wnot (rs .| rt))); (* nor *)
    ([0x2a], Ok (if SignedInteger rs <? SignedInteger rt then 1 else 0)); (* slti *)
    ([0x2b], Ok (if rs <? rt then 1 else 0)); (* sltiu *)
    ([0x2c], assertMips64 insn ;; Ok (wadd rs rt)); (* dadd *)
    ([0x2d], assertMips64 insn ;; Ok (wadd rs rt)); (* daddu *)
    ([0x2e], assertMips64 insn ;; Ok (wsub rs rt)); (* dsub *)
    ([0x2f], assertMips64 insn ;; Ok (wsub rs rt)); (* dsubu *)
    ([0x38], assertMips64 insn ;; Ok (wshl rt (ushr insn 6 .& 0x1f))); (* dsll *)
    ([0x3A], assertMips64 insn ;; Ok (ushr rt (ushr insn 6 .& 0x1f))); (* dsrl *)
    ([0x3B], assertMips64 insn ;; Ok (Word (Z.shiftr (int64 rt) (ushr insn 6 .& 0x1f)))); (* dsra *)
    ([0x3C], assertMips64 insn ;; Ok (wshl rt ((ushr insn 6 .& 0x1f) + 32))); (* dsll32 *)
    ([0x3E], assertMips64 insn ;; Ok (ushr rt ((ushr insn 6 .& 0x1f) + 32))); (* dsrl32 *)
    ([0x3F], assertMips64 insn ;; Ok (Word (Z.shiftr (int64 rt) ((ushr insn 6 .& 0x1f) + 32)))) (* dsra32 *)
  ] (Panic "invalid instruction").

Definition execute_special2 (fun_ rs rt : Z) : outcome Z :=
  switch fun_ [
    ([0x2], Ok (SignExtend (Word (int32 (int32 rs * int32 rt))) 32)); (* mul *)
    ([0x20; 0x21], (* clz, clo *)
      let rs := if fun_ =? 0x20 then wnot rs else rs in
      Ok (Word (count_ones 33 rs 0)))
  ] (Panic "invalid instruction").

Definition load_word_left (rs rt mem : Z) : Z :=
  if IsMips32 then
    let val := wshl mem ((rs .& 3) * 8) in
    let mask := Word (ushl 32 U32Mask ((rs .& 3) * 8)) in
    SignExtend (((rt .& wnot mask) .| val) .& U32Mask) 32
  else
    (* similar to the above mips32 implementation but loads are constrained to
       the nearest 4-byte memory word *)
    let w := uint32 (SelectSubWord rs mem 4 false) in
    let val := ushl 32 w ((rs .& 3) * 8) in
    let mask := Word (ushl 32 U32Mask ((rs .& 3) * 8)) in
    SignExtend (((rt .& wnot mask) .| Word val) .& U32Mask) 32.

Definition load_word_right (rs rt mem : Z) : Z :=
  if IsMips32 then
    let val := ushr mem (wsub 24 ((rs .& 3) * 8)) in
    let mask := Word (ushr U32Mask (wsub 24 ((rs .& 3) * 8))) in
    SignExtend (((rt .& wnot mask) .| val) .& U32Mask) 32
  else
    (* similar to the above mips32 implementation but constrained to the
       nearest 4-byte memory word *)
    let w := uint32 (SelectSubWord rs mem 4 false) in
    let val := ushr w (wsub 24 ((rs .& 3) * 8)) in
    let mask := ushr U32Mask (wsub 24 ((rs .& 3) * 8)) in
    let lwrResult := (uint32 rt .& unot 32 mask) .| val in
    if rs .& 3 =? 3 (* loaded bit 31 *)
    then SignExtend (Word lwrResult) 32
    else
      (* cannon64 leaves the upper word untouched *)
      let rtMask := 0xFFFFFFFF00000000 in
      (rt .& Word rtMask) .| Word lwrResult.

Definition store_word_left (rs rt mem : Z) : Z :=
  if IsMips32 then
    let val := ushr rt ((rs .& 3) * 8) in
    let mask := ushr U32Mask ((rs .& 3) * 8) in
    (mem .& Word (unot 32 mask)) .| val
  else
    let sr := wshl (rs .& 3) 3 in
    let val := wshl (ushr (rt .& U32Mask) sr) (wsub 32 (wshl (rs .& 0x4) 3)) in
    let mask := ushl 64 (ushr U32Mask sr) (wsub 32 (wshl (rs .& 0x4) 3)) in
    (mem .& Word (unot 64 mask)) .| val.

Definition store_word_right (rs rt mem : Z) : Z :=
  if IsMips32 then
    let val := wshl rt (wsub 24 ((rs .& 3) * 8)) in
    let mask := ushl 32 U32Mask (wsub 24 ((rs .& 3) * 8)) in
    (mem .& Word (unot 32 mask)) .| val
  else
    (* similar to the above mips32 implementation but constrained to the
       nearest 4-byte memory word *)
    let w := uint32 (SelectSubWord rs mem 4 false) in
    let val := wshl rt (wsub 24 ((rs .& 3) * 8)) in
    let mask := ushl 32 U32Mask (wsub 24 ((rs .& 3) * 8)) in
    let swrResult := (w .& unot 32 mask) .| uint32 val in
    UpdateSubWord rs mem 4 (Word swrResult).

Definition load_double_left (rs rt mem : Z) : Z :=
  let sl := wshl (rs .& 0x7) 3 in
  let val := wshl mem sl in
  let mask := wshl (wnot 0) sl in
  val .| (rt .& wnot mask).

Definition load_double_right (rs rt mem : Z) : Z :=
  let sr := wsub 56 (wshl (rs .& 0x7) 3) in
  let val := ushr mem sr in
  let mask := wshl (wnot 0) (wsub 64 sr) in
  val .| (rt .& mask).

Definition store_double_left (rs rt mem : Z) : Z :=
  let sr := wshl (rs .& 0x7) 3 in
  let val := ushr rt sr in
  let mask := ushr (wnot 0) sr in
  val .| (mem .& wnot mask).

Definition store_double_right (rs rt mem : Z) : Z :=
  let sl := wsub 56 (wshl (rs .& 0x7) 3) in
  let val := wshl rt sl in
  let mask := wshl (wnot 0) sl in
  val .| (mem .& wnot mask).

Definition ExecuteMipsInstruction (insn opcode fun_ rs rt mem : Z) : outcome Z :=
  if (opcode =? 0) || ((8 <=? opcode) && (opcode <? 0xF))
     || (negb IsMips32 && ((opcode =? 0x18) || (opcode =? 0x19)))
  then
    (* transform ArithLogI to SPECIAL *)
    execute_special insn (special_fun opcode fun_) rs rt
  else
    switch opcode [
      ([0x1C], execute_special2 fun_ rs rt);
      ([0x0F], Ok (SignExtend (wshl rt 16) 32)); (* lui *)
      ([0x20], Ok (SelectSubWord rs mem 1 true)); (* lb *)
      ([0x21], Ok (SelectSubWord rs mem 2 true)); (* lh *)
      ([0x22], Ok (load_word_left rs rt mem)); (* lwl *)
      ([0x23], Ok (SelectSubWord rs mem 4 true)); (* lw *)
      ([0x24], Ok (SelectSubWord rs mem 1 false)); (* lbu *)
      ([0x25], Ok (SelectSubWord rs mem 2 false)); (* lhu *)
      ([0x26], Ok (load_word_right rs rt mem)); (* lwr *)
      ([0x28], Ok (UpdateSubWord rs mem 1 rt)); (* sb *)
      ([0x29], Ok (UpdateSubWord rs mem 2 rt)); (* sh *)
      ([0x2a], Ok (store_word_left rs rt mem)); (* swl *)
      ([0x2b], Ok (UpdateSubWord rs mem 4 rt)); (* sw *)
      ([0x2e], Ok (store_word_right rs rt mem)); (* swr *)
      (* MIPS64 *)
      ([0x1A], assertMips64 insn ;; Ok (load_double_left rs rt mem)); (* ldl *)
      ([0x1B], assertMips64 insn ;; Ok (load_double_right rs rt mem)); (* ldr *)
      ([0x27], assertMips64 insn ;; Ok (ushr mem (wsub 32 (wshl (rs .& 0x4) 3)) .& U32Mask)); (* lwu *)
      ([0x2C], assertMips64 insn ;; Ok (store_double_left rs rt mem)); (* sdl *)
      ([0x2D], assertMips64 insn ;; Ok (store_double_right rs rt mem)); (* sdr *)
      ([0x37], assertMips64 insn ;; Ok mem); (* ld *)
      ([0x3F], assertMips64 insn ;; Ok rt) (* sd *)
    ] (Panic "invalid instruction").

End Insn.
