(* ===== verification/Memory.v ===== *)
(** The paged, Merkleized memory of the VM (cannon/mipsevm/memory): pages with
    a cache of their inner Merkle nodes, the binary-tree index above the pages,
    and the word and range accesses. *)
From Stdlib Require Import ZArith Lia.
From stdpp Require Import base gmap list strings numbers sorting.
From S2P Require Import Prelude Arch Codec.

Definition PageSize : Z := Z.shiftl 1 PageAddrSize.
Definition PageAddrMask : Z := PageSize - 1.
Definition MaxPageCount {A : Arch} : Z := Z.shiftl 1 PageKeySize.
Definition PageKeyMask {A : Arch} : Z := MaxPageCount - 1.

Section Hashing.
Context {K : Keccak}.

Definition HashPair (left right : hash) : hash := keccak256 (left ++ right).

Fixpoint zeroHashes (i : nat) : hash :=
  match i with
  | O => replicate 32 0
  | S k => let h := zeroHashes k in HashPair h h
  end.

End Hashing.

(** ** Pages (page.go) *)

(** [Cache] and [Valid] (the field [Ok]) are indexed by the inner node's
    generalized index inside the page, 1 to 127. *)
Record CachedPage : Type := mkPage {
  Data : list Z;
  Cache : list hash;
  Valid : list bool;
}.

Definition new_page : CachedPage := {|
  Data := replicate (Z.to_nat PageSize) 0;
  Cache := replicate (Z.to_nat (PageSize / 32)) (replicate 32 0);
  Valid := replicate (Z.to_nat (PageSize / 32)) false;
|}.

Definition set_Data (d : list Z) (p : CachedPage) : CachedPage :=
  mkPage d (Cache p) (Valid p).

Definition valid_at (p : CachedPage) (k : Z) : bool :=
  default false (Valid p !! Z.to_nat k).

Definition cache_at (p : CachedPage) (k : Z) : hash :=
  default [] (Cache p !! Z.to_nat k).

Module Page.
Section Page.
Context {K : Keccak}.

Definition clear_valid (p : CachedPage) (k : Z) : CachedPage :=
  mkPage (Data p) (Cache p) (<[Z.to_nat k := false]> (Valid p)).

Definition fill (p : CachedPage) (j : Z) (h : hash) : CachedPage :=
  mkPage (Data p) (<[Z.to_nat j := h]> (Cache p)) (<[Z.to_nat j := true]> (Valid p)).

Definition invalidate (pageAddr : Z) (p : CachedPage) : outcome CachedPage :=
  if PageSize <=? pageAddr then Panic "invalid page addr"
  else
    let k := Z.shiftl 1 PageAddrSize .| pageAddr in
    (* first cache layer caches nodes that has two 32 byte leaf nodes. *)
    let k := ushr k (5 + 1) in
    Ok (fold_left clear_valid (halvings k) p).

Definition InvalidateFull (p : CachedPage) : CachedPage :=
  mkPage (Data p) (Cache p) (replicate (Z.to_nat (PageSize / 32)) false).

(** One iteration of the loop that hashes the bottom layer. *)
Definition hash_bottom (p : CachedPage) (i : Z) : CachedPage :=
  let j := PageSize / 32 / 2 + i / 64 in
  if valid_at p j then p else fill p j (keccak256 (slice i (i + 64) (Data p))).

(** One iteration of the loop that hashes the cache layers. *)
Definition hash_layer (p : CachedPage) (i : Z) : CachedPage :=
  let j := ushr i 1 in
  if valid_at p j then p else fill p j (HashPair (cache_at p i) (cache_at p (i + 1))).

Definition MerkleRoot (p : CachedPage) : hash * CachedPage :=
  let p := fold_left hash_bottom (zrange 0 64 (Z.to_nat (PageSize / 64))) p in
  let p := fold_left hash_layer
             (zrange (PageSize / 32 - 2) (-2) (Z.to_nat (PageSize / 64 - 1))) p in
  (cache_at p 1, p).

Definition MerkleizeSubtree (gindex : Z) (p : CachedPage) : outcome (hash * CachedPage) :=
  let '(_, p) := MerkleRoot p in (* fill cache *)
  if PageSize / 32 <=? gindex then
    if PageSize / 32 * 2 <=? gindex then Panic "gindex too deep"
    else
      (* it's pointing to a bottom node *)
      let nodeIndex := gindex .& ushr PageAddrMask 5 in
      Ok (slice (nodeIndex * 32) (nodeIndex * 32 + 32) (Data p), p)
  else Ok (cache_at p gindex, p).

End Page.
End Page.

(** ** The memory (memory.go) and its index (binary_tree.go)

    [pages] is the store of the [CachedPage] objects the memory has
    allocated; a [*CachedPage] is a position in it. The page table and the two
    last-page slots hold such pointers, so they alias the same objects. *)
Record Memory : Type := mkMemory {
  nodes : gmap Z (option hash);
  pages : list CachedPage;
  pageTable : gmap Z nat;
  lastPageKeys : Z * Z;
  lastPage : option nat * option nat;
}.

Definition set_nodes (n : gmap Z (option hash)) (m : Memory) : Memory :=
  mkMemory n (pages m) (pageTable m) (lastPageKeys m) (lastPage m).
Definition set_page (r : nat) (p : CachedPage) (m : Memory) : Memory :=
  mkMemory (nodes m) (<[r := p]> (pages m)) (pageTable m) (lastPageKeys m) (lastPage m).

Section Memory.
Context {A : Arch} {K : Keccak}.

Definition NewBinaryTreeMemory : Memory := {|
  nodes := ∅;
  pages := [];
  pageTable := ∅;
  lastPageKeys := (maxWord, maxWord); (* default to invalid keys, to not match any pages *)
  lastPage := (None, None);
|}.

Definition NewMemory : Memory := NewBinaryTreeMemory.

(** Dereferencing a [*CachedPage]. *)
Definition deref (r : option nat) : ST Memory (nat * CachedPage) := fun m =>
  match r with
  | None => Panic "nil pointer dereference"
  | Some i =>
      match pages m !! i with
      | Some p => Ok ((i, p), m)
      | None => Panic "nil pointer dereference"
      end
  end.

(** *** Index operations *)

Definition clear_nodes (ks : list Z) (n : gmap Z (option hash)) : gmap Z (option hash) :=
  fold_left (fun n k => <[k := None]> n) ks n.

Definition Invalidate (addr : Z) : ST Memory unit :=
  let gindex := Z.shiftl 1 (WordSize - PageAddrSize) .| ushr addr PageAddrSize in
  modify (fun m => set_nodes (clear_nodes (halvings gindex) (nodes m)) m).

Definition AddPage (pageIndex : Z) : ST Memory unit :=
  let k := Z.shiftl 1 PageKeySize .| pageIndex in
  modify (fun m => set_nodes (clear_nodes (halvings k) (nodes m)) m).

(** [bits.Len64]. *)
Definition Len64 (x : Z) : Z := if x =? 0 then 0 else Z.log2 x + 1.

(** The recursion goes down one level per call and stops at the page level;
    [fuel] bounds the levels left. *)
Fixpoint MerkleizeSubtree_fuel (fuel : nat) (gindex : Z) : ST Memory hash :=
  let l := Len64 gindex in
  if MemProofLeafCount <? l then panic "gindex too deep"
  else if PageKeySize <? l then
    let depthIntoPage := l - 1 - PageKeySize in
    let pageIndex := ushr gindex depthIntoPage .& PageKeyMask in
    m ← get;
    match pageTable m !! pageIndex with
    | Some r =>
        let pageGindex := Z.shiftl 1 depthIntoPage .| (gindex .& (Z.shiftl 1 depthIntoPage - 1)) in
        '(r, p) ← deref (Some r);
        '(h, p') ← lift (Page.MerkleizeSubtree pageGindex p);
        modify (set_page r p') ;;
        mret h
    | None => mret (zeroHashes (Z.to_nat (MemProofLeafCount - l))) (* page does not exist *)
    end
  else
    m ← get;
    match nodes m !! gindex with
    | None => mret (zeroHashes (Z.to_nat (MemProofLeafCount - l)))
    | Some (Some n) => mret n
    | Some None =>
        match fuel with
        | O => panic "out of fuel"
        | S fuel =>
            left ← MerkleizeSubtree_fuel fuel (ushl 64 gindex 1);
            right ← MerkleizeSubtree_fuel fuel (ushl 64 gindex 1 .| 1);
            let r := HashPair left right in
            modify (fun m => set_nodes (<[gindex := Some r]> (nodes m)) m) ;;
            mret r
        end
    end.

Definition MerkleizeSubtree (gindex : Z) : ST Memory hash :=
  MerkleizeSubtree_fuel (Z.to_nat PageKeySize) gindex.

Definition MerkleRoot : ST Memory hash := MerkleizeSubtree 1.

(** [fuel] is the number of levels left before the leaves, [WordSize-5-depth]. *)
Fixpoint traverseBranch (fuel : nat) (parent addr depth : Z) : ST Memory (list hash) :=
  if depth =? WordSize - 5 then
    h ← MerkleizeSubtree parent;
    mret [h]
  else if WordSize - 5 <? depth then panic "traversed too deep"
  else
    match fuel with
    | O => panic "out of fuel"
    | S fuel =>
        let self := ushl 64 parent 1 in
        let sibling := self .| 1 in
        let '(self, sibling) :=
          if negb (addr .& ushl WordSize 1 ((WordSize - 1) - depth) =? 0)
          then (sibling, self) else (self, sibling) in
        proof ← traverseBranch fuel self addr (depth + 1);
        siblingNode ← MerkleizeSubtree sibling;
        mret (proof ++ [siblingNode])
    end.

Definition MerkleProof (addr : Z) : ST Memory (list Z) :=
  proof ← traverseBranch (Z.to_nat (WordSize - 5)) 1 addr 0;
  (* encode the proof *)
  mret (concat proof).

(** *** Page table operations *)

Definition PageLookup (pageIndex : Z) : ST Memory (option nat * bool) := fun m =>
  if pageIndex =? fst (lastPageKeys m) then Ok ((fst (lastPage m), true), m)
  else if pageIndex =? snd (lastPageKeys m) then Ok ((snd (lastPage m), true), m)
  else
    match pageTable m !! pageIndex with
    | Some p =>
        (* only cache existing pages. *)
        Ok ((Some p, true),
            mkMemory (nodes m) (pages m) (pageTable m)
              (pageIndex, fst (lastPageKeys m)) (Some p, fst (lastPage m)))
    | None => Ok ((None, false), m)
    end.

Definition AllocPage (pageIndex : Z) : ST Memory (option nat) :=
  r ← gets (fun m => length (pages m));
  modify (fun m => mkMemory (nodes m) (pages m ++ [new_page]) (<[pageIndex := r]> (pageTable m))
                     (lastPageKeys m) (lastPage m)) ;;
  AddPage pageIndex ;;
  mret (Some r).

Definition SetWord (addr v : Z) : ST Memory unit :=
  (* addr must be aligned to WordSizeBytes bytes *)
  if negb (addr .& ExtMask =? 0) then panic "unaligned memory access"
  else
    let pageIndex := ushr addr PageAddrSize in
    let pageAddr := addr .& PageAddrMask in
    '(p, ok) ← PageLookup pageIndex;
    (if negb ok
     then
       p ← AllocPage pageIndex;
       '(r, pg) ← deref p;
       modify (set_page r (set_Data (splice pageAddr (ByteOrder_PutWord v) (Data pg)) pg))
     else
       '(r, pg) ← deref p;
       let prevValid := valid_at pg 1 in
       pg ← lift (Page.invalidate pageAddr pg);
       modify (set_page r pg) ;;
       (if prevValid
        then Invalidate addr (* invalidate this branch of memory, now that the value changed *)
        else mret ()) ;;
       modify (set_page r (set_Data (splice pageAddr (ByteOrder_PutWord v) (Data pg)) pg))).

Definition GetWord (addr : Z) : ST Memory Z :=
  (* addr must be word aligned *)
  if negb (addr .& ExtMask =? 0) then panic "unaligned memory access"
  else
    let pageIndex := ushr addr PageAddrSize in
    '(p, ok) ← PageLookup pageIndex;
    if negb ok then mret 0
    else
      let pageAddr := addr .& PageAddrMask in
      '(_, pg) ← deref p;
      mret (ByteOrder_Word (slice pageAddr (pageAddr + WordSizeBytes) (Data pg))).

(** *** Range accesses *)

(** An [io.Reader]: the bytes still to deliver, an upper bound for the size of
    each of the next reads (a reader may deliver less than was asked for), how
    it ends ([None] is [io.EOF]), and whether it reports the end together with
    its last bytes, as the interface allows. *)
Record Reader : Type := mkReader {
  rd_data : list Z;
  rd_sched : list nat;
  rd_end : option string;
  rd_joint : bool;
}.

(** [bytes.NewReader]. *)
Definition bytes_NewReader (b : list Z) : Reader := mkReader b [] None false.

(** [r.Read(chunk)] with [len(chunk) = n]: the bytes, the end if it is
    reported, and the reader afterwards. *)
Definition Reader_Read (n : Z) (r : Reader) : list Z * option (option string) * Reader :=
  match rd_data r with
  | [] => ([], Some (rd_end r), r)
  | _ =>
      let k := Nat.min (Z.to_nat n)
                 match rd_sched r with [] => length (rd_data r) | c :: _ => S c end in
      let rest := drop k (rd_data r) in
      (take k (rd_data r),
       if rd_joint r && (zlen rest =? 0) then Some (rd_end r) else None,
       mkReader rest (tail (rd_sched r)) (rd_end r) (rd_joint r))
  end.

Fixpoint SetMemoryRange_loop (fuel : nat) (addr : Z) (r : Reader) : ST Memory unit :=
  match fuel with
  | O => panic "out of fuel"
  | S fuel =>
      let pageIndex := ushr addr PageAddrSize in
      let pageAddr := addr .& PageAddrMask in
      let readLen := PageSize - pageAddr in
      let '(chunk, err, r) := Reader_Read readLen r in
      match err with
      | Some None => mret () (* io.EOF *)
      | Some (Some e) => throw e
      | None =>
          '(p, ok) ← PageLookup pageIndex;
          p ← (if negb ok then AllocPage pageIndex else mret p);
          '(i, pg) ← deref p;
          let pg := Page.InvalidateFull pg in
          modify (set_page i (set_Data (splice pageAddr chunk (Data pg)) pg)) ;;
          SetMemoryRange_loop fuel (wadd addr (zlen chunk)) r
      end
  end.

(** Every read delivers at least one byte, so one round per byte and one for
    the end are enough. *)
Definition SetMemoryRange (addr : Z) (r : Reader) : ST Memory unit :=
  SetMemoryRange_loop (S (length (rd_data r))) addr r.

Record memReader : Type := mkMemReader { mr_addr : Z; mr_count : Z }.

Definition ReadMemoryRange (addr count : Z) : memReader := mkMemReader addr count.

(** [r.Read(dest)] with [len(dest) = destLen]; [None] is [io.EOF]. *)
Definition memReader_Read (destLen : Z) (r : memReader) : ST Memory (option (list Z * memReader)) :=
  if mr_count r =? 0 then mret None
  else
    let endAddr := wadd (mr_addr r) (mr_count r) in
    let pageIndex := ushr (mr_addr r) PageAddrSize in
    let start := mr_addr r .& PageAddrMask in
    let end_ := if pageIndex =? ushr endAddr PageAddrSize then endAddr .& PageAddrMask else PageSize in
    '(p, ok) ← PageLookup pageIndex;
    src ← (if (ok : bool)
           then
             '(_, pg) ← deref p;
             if end_ <? start then panic "slice bounds out of range"
             else mret (slice start end_ (Data pg))
           else
             let size := wsub end_ start in
             if 2 ^ 63 <=? size then panic "makeslice: len out of range"
             else mret (replicate (Z.to_nat size) 0)); (* default to zeroes *)
    let out := take (Z.to_nat destLen) src in
    let n := zlen out in
    mret (Some (out, mkMemReader (wadd (mr_addr r) n) (wsub (mr_count r) n))).

(** [io.ReadAll] and [io.Copy]: read until [io.EOF]. The buffer they pass has
    [bufLen] bytes. *)
Fixpoint ReadAll_loop (fuel : nat) (bufLen : Z) (r : memReader) (acc : list Z) : ST Memory (list Z) :=
  match fuel with
  | O => panic "out of fuel"
  | S fuel =>
      res ← memReader_Read bufLen r;
      match res with
      | None => mret acc
      | Some (out, r) => ReadAll_loop fuel bufLen r (acc ++ out)
      end
  end.

(** A non-empty buffer receives at least one byte per call. *)
Definition ReadAll (bufLen : Z) (r : memReader) : ST Memory (list Z) :=
  ReadAll_loop (S (Z.to_nat (mr_count r))) bufLen r [].

(** *** Whole-memory operations *)

Definition PageCount (m : Memory) : Z := Z.of_nat (size (pageTable m)).

Definition UsageRaw (m : Memory) : Z := umul 64 (PageCount m) PageSize.

(** [AllocPage(k).Data = data]. *)
Definition alloc_with_data (k : Z) (data : list Z) : ST Memory unit :=
  p ← AllocPage k;
  '(r, pg) ← deref p;
  modify (set_page r (set_Data data pg)).

(** The copy is built in a fresh memory. *)
Definition Copy (m : Memory) : outcome Memory :=
  '(_, out) ←
    forM (map_to_list (pageTable m))
      (fun '(k, r) =>
         match pages m !! r with
         | Some page => alloc_with_data k (Data page)
         | None => panic "nil pointer dereference"
         end) NewMemory;
  mret out.

Definition page_indexes (m : Memory) : list Z :=
  merge_sort Z.le ((map_to_list (pageTable m)).*1).

Definition serialize_page (m : Memory) (pageIndex : Z) : list Z :=
  WriteUInt WordSizeBytes pageIndex ++
  match pageTable m !! pageIndex ≫= (fun r => pages m !! r) with
  | Some page => Data page
  | None => []
  end.

Definition Memory_Serialize (m : Memory) : list Z :=
  WriteUInt WordSizeBytes (Word (PageCount m)) ++ concat (serialize_page m <$> page_indexes m).

(** The receiver [m] of [Deserialize] and the input that is left. *)
Fixpoint deserialize_pages (n : nat) (m : Memory) : ST (list Z) Memory :=
  match n with
  | O => mret m
  | S n =>
      pageIndex ← ReadUInt WordSizeBytes;
      '(p, m) ← lift (AllocPage pageIndex m);
      data ← ReadFull PageSize;
      '(r, pg, m) ← lift (deref p m);
      deserialize_pages n (set_page r (set_Data data pg) m)
  end.

Definition Memory_Deserialize (m : Memory) : ST (list Z) Memory :=
  pageCount ← ReadUInt WordSizeBytes;
  deserialize_pages (Z.to_nat pageCount) m.

End Memory.
