(* ===== verification/Exec.v ===== *)
(** The stateful part of cannon/mipsevm/exec, shared by the single-threaded and
    the multithreaded VM: trackers, the pre-image oracle reader, instruction
    fetch and the core step, and the handlers of the common syscalls. *)
From Stdlib Require Import ZArith Lia.
From stdpp Require Import base gmap list strings numbers.
From S2P Require Import Prelude Arch Codec Insn Memory.

(** ** CPU scalars and registers (cannon/mipsevm/state.go) *)

Record CpuScalars : Type := mkCpu { PC : Z; NextPC : Z; LO : Z; HI : Z }.

Definition set_pcs (pc next : Z) (c : CpuScalars) : CpuScalars := mkCpu pc next (LO c) (HI c).
Definition set_LO (v : Z) (c : CpuScalars) : CpuScalars := mkCpu (PC c) (NextPC c) v (HI c).
Definition set_HI (v : Z) (c : CpuScalars) : CpuScalars := mkCpu (PC c) (NextPC c) (LO c) v.

Definition VMStatusValid : Z := 0.
Definition VMStatusInvalid : Z := 1.
Definition VMStatusPanic : Z := 2.
Definition VMStatusUnfinished : Z := 3.

Definition VmStatus (exited : bool) (exitCode : Z) : Z :=
  if negb exited then VMStatusUnfinished
  else switch exitCode [([0], VMStatusValid); ([1], VMStatusInvalid)] VMStatusPanic.

(** A [[32]Word] register file. Indices come from 5-bit fields. *)
Definition reg (rs : list Z) (i : Z) : Z := default 0 (rs !! Z.to_nat i).
Definition set_reg (i v : Z) (rs : list Z) : list Z := <[Z.to_nat i := v]> rs.

(** ** Program metadata ([mipsevm.Metadata]): only symbol lookup is used here *)
Class Metadata : Type := LookupSymbol : Z -> string.

(** ** Stack trackers (stack.go)

    The interface [StackTracker]. An implementation holds a pointer to the VM
    state and reads the current program counter through it: the operations
    take it as their first argument. *)
Class StackTracker (T : Type) : Type := {
  PushStack : Z -> Z -> Z -> T -> T;
  PopStack : Z -> T -> T;
}.

Record StackTrackerImpl : Type := mkStack { st_stack : list Z; st_caller : list Z }.

(** [NoopStackTracker] or [StackTrackerImpl]. *)
Inductive TraceableStackTracker : Type :=
| NoopStackTracker
| TrackingStack (s : StackTrackerImpl).

Module Stack.
Section Stack.
Context {MD : Metadata}.

Definition PushStack (caller target : Z) (s : StackTrackerImpl) : StackTrackerImpl :=
  mkStack (st_stack s ++ [target]) (st_caller s ++ [caller]).

(** The loop that snaps back to the last frame of function [fn]: the greatest
    index below [i] whose symbol is [fn]. *)
Fixpoint snap_back (fn : string) (stack : list Z) (i : nat) : option nat :=
  match i with
  | O => None
  | S i =>
      if bool_decide (LookupSymbol (default 0 (stack !! i)) = fn) then Some i
      else snap_back fn stack i
  end.

Definition PopStack (pc : Z) (s : StackTrackerImpl) : StackTrackerImpl :=
  if negb (zlen (st_stack s) =? 0) then
    let fn := LookupSymbol pc in
    let topFn := LookupSymbol (default 0 (st_stack s !! (length (st_stack s) - 1)%nat)) in
    if negb (bool_decide (fn = topFn)) then
      (* most likely the function was inlined. Snap back to the last return. *)
      match snap_back fn (st_stack s) (length (st_stack s)) with
      | Some i => mkStack (take i (st_stack s)) (take i (st_caller s))
      | None => s
      end
    else mkStack (take (length (st_stack s) - 1) (st_stack s))
           (take (length (st_caller s) - 1) (st_caller s))
  else s. (* prints a stack underflow message *)

End Stack.
End Stack.

#[export] Instance traceable_tracker {MD : Metadata} : StackTracker TraceableStackTracker := {
  PushStack _ caller target t :=
    match t with
    | NoopStackTracker => t
    | TrackingStack s => TrackingStack (Stack.PushStack caller target s)
    end;
  PopStack pc t :=
    match t with
    | NoopStackTracker => t
    | TrackingStack s => TrackingStack (Stack.PopStack pc s)
    end;
}.

(** ** Memory access tracker (memory.go)

    The tracker shares the VM's memory; its operations run on both. *)
Record MemoryTrackerImpl : Type := mkMemTracker {
  lastMemAccess : Z;
  memProofEnabled : bool;
  memProof : list Z;
  memProof2 : list Z;
}.

Section Trackers.
Context {A : Arch} {K : Keccak}.

Definition NewMemoryTracker : MemoryTrackerImpl :=
  mkMemTracker 0 false (replicate (Z.to_nat MemProofSize) 0) (replicate (Z.to_nat MemProofSize) 0).

Definition TrackMemAccess (effAddr : Z) : ST (Memory * MemoryTrackerImpl) unit := fun '(mem, t) =>
  if memProofEnabled t && negb (lastMemAccess t =? effAddr) then
    if negb (lastMemAccess t =? wnot 0) then Panic "unexpected different mem access"
    else
      '(proof, mem) ← MerkleProof effAddr mem;
      Ok ((), (mem, mkMemTracker effAddr (memProofEnabled t) proof (memProof2 t)))
  else Ok ((), (mem, t)).

Definition TrackMemAccess2 (effAddr : Z) : ST (Memory * MemoryTrackerImpl) unit := fun '(mem, t) =>
  if memProofEnabled t && negb (wadd (lastMemAccess t) WordSizeBytes =? effAddr)
  then Panic "unexpected disjointed mem access"
  else
    '(proof, mem) ← MerkleProof effAddr mem;
    Ok ((), (mem, mkMemTracker effAddr (memProofEnabled t) (memProof t) proof)).

Definition MemTracker_Reset (enableProof : bool) (t : MemoryTrackerImpl) : MemoryTrackerImpl :=
  mkMemTracker (wnot 0) enableProof (memProof t) (memProof2 t).

End Trackers.

(** ** Pre-image oracle (preimage.go)

    The oracle behind the [mipsevm.PreimageOracle] interface is a service: a
    parameter. Hints have no result; the reader records the ones it passed
    on. *)
Class PreimageOracle : Type := po_GetPreimage : list Z -> list Z.

Record TrackingPreimageOracleReader : Type := mkOracle {
  totalPreimageSize : Z;
  numPreimageRequests : Z;
  lastPreimage : list Z;
  lastPreimageKey : list Z;
  lastPreimageOffset : Z;
  hints : list (list Z);
}.

Section Oracle.
Context {A : Arch} {PO : PreimageOracle}.

Definition NewTrackingPreimageOracleReader : TrackingPreimageOracleReader :=
  mkOracle 0 0 [] (replicate 32 0) 0 [].

Definition Oracle_Reset (p : TrackingPreimageOracleReader) : TrackingPreimageOracleReader :=
  mkOracle (totalPreimageSize p) (numPreimageRequests p) (lastPreimage p) (lastPreimageKey p)
    (wnot 0) (hints p).

Definition Hint (v : list Z) (p : TrackingPreimageOracleReader) : TrackingPreimageOracleReader :=
  mkOracle (totalPreimageSize p) (numPreimageRequests p) (lastPreimage p) (lastPreimageKey p)
    (lastPreimageOffset p) (hints p ++ [v]).

Definition GetPreimage (k : list Z) : ST TrackingPreimageOracleReader (list Z) := fun p =>
  let preimage := po_GetPreimage k in
  Ok (preimage,
      mkOracle (totalPreimageSize p + zlen preimage) (numPreimageRequests p + 1) (lastPreimage p)
        (lastPreimageKey p) (lastPreimageOffset p) (hints p)).

(** [(dat, datLen)]. *)
Definition ReadPreimage (key : list Z) (offset : Z) : ST TrackingPreimageOracleReader (list Z * Z) :=
  p ← get;
  preimage ←
    (if negb (bool_decide (key = lastPreimageKey p)) then
       modify (fun p => mkOracle (totalPreimageSize p) (numPreimageRequests p) (lastPreimage p) key
                          (lastPreimageOffset p) (hints p)) ;;
       data ← GetPreimage key;
       (* add the length prefix *)
       let preimage := be_encode 8 (wrap 64 (zlen data)) ++ data in
       modify (fun p => mkOracle (totalPreimageSize p) (numPreimageRequests p) preimage
                          (lastPreimageKey p) (lastPreimageOffset p) (hints p)) ;;
       mret preimage
     else mret (lastPreimage p));
  modify (fun p => mkOracle (totalPreimageSize p) (numPreimageRequests p) (lastPreimage p)
                     (lastPreimageKey p) offset (hints p)) ;;
  if Word (zlen preimage) <=? offset then panic "Preimage offset out-of-bounds"
  else
    let chunk := take 32 (drop (Z.to_nat offset) preimage) in
    mret (chunk ++ replicate (32 - length chunk) 0, zlen chunk).

End Oracle.

(** ** The core step (mips_instructions.go) *)

(** What [ExecMipsCoreStepLogic] works on: the pointers it is passed. *)
Record Core (T : Type) : Type := mkCore {
  cpu : CpuScalars;
  registers : list Z;
  memory : Memory;
  memTracker : MemoryTrackerImpl;
  stackTracker : T;
}.
Arguments mkCore {T}. Arguments cpu {T}. Arguments registers {T}. Arguments memory {T}.
Arguments memTracker {T}. Arguments stackTracker {T}.

Section CoreStep.
Context {A : Arch} {K : Keccak} {T : Type} {TR : StackTracker T}.

Definition set_cpu (c : CpuScalars) (s : Core T) : Core T :=
  mkCore c (registers s) (memory s) (memTracker s) (stackTracker s).
Definition set_registers (r : list Z) (s : Core T) : Core T :=
  mkCore (cpu s) r (memory s) (memTracker s) (stackTracker s).
Definition set_stackTracker (t : T) (s : Core T) : Core T :=
  mkCore (cpu s) (registers s) (memory s) (memTracker s) t.

(** Run a memory operation, or an operation of the memory tracker. *)
Definition on_memory {X} (op : ST Memory X) : ST (Core T) X :=
  zoom memory (fun m s => mkCore (cpu s) (registers s) m (memTracker s) (stackTracker s)) op.
Definition on_tracker {X} (op : ST (Memory * MemoryTrackerImpl) X) : ST (Core T) X :=
  zoom (fun s => (memory s, memTracker s))
    (fun mt s => mkCore (cpu s) (registers s) mt.1 mt.2 (stackTracker s)) op.

Definition push_stack (caller target : Z) : ST (Core T) unit :=
  modify (fun s => set_stackTracker (PushStack (PC (cpu s)) caller target (stackTracker s)) s).
Definition pop_stack : ST (Core T) unit :=
  modify (fun s => set_stackTracker (PopStack (PC (cpu s)) (stackTracker s)) s).

(** [registers[i] = v] and the assignments to the program counters. *)
Definition write_reg (i v : Z) : ST (Core T) unit :=
  modify (fun s => set_registers (set_reg i v (registers s)) s).
Definition write_pcs (pc next : Z) : ST (Core T) unit :=
  modify (fun s => set_cpu (set_pcs pc next (cpu s)) s).

(** [cpu.PC = cpu.NextPC; cpu.NextPC = cpu.NextPC + 4]. *)
Definition advance : ST (Core T) unit :=
  c ← gets cpu; write_pcs (NextPC c) (wadd (NextPC c) 4).

Definition GetInstructionDetails (pc : Z) : ST Memory (Z * Z * Z) :=
  if negb (pc .& 0x3 =? 0) then panic "invalid pc"
  else
    word ← GetWord (pc .& AddressMask);
    let insn := uint32 (SelectSubWord pc word 4 false) in
    let opcode := ushr insn 26 in (* First 6-bits *)
    let fun_ := insn .& 0x3f in   (* Last 6-bits *)
    mret (insn, opcode, fun_).

(** Whether the branch is taken, and whether it links: [(shouldBranch,
    linked)]. The linking branches set the return address register. *)
Definition branch_condition (opcode insn rtReg rs : Z) : ST (Core T) (bool * bool) :=
  c ← gets cpu;
  regs ← gets registers;
  if (opcode =? 4) || (opcode =? 5) then (* beq/bne *)
    let rt := reg regs rtReg in
    mret (((rs =? rt) && (opcode =? 4)) || (negb (rs =? rt) && (opcode =? 5)), false)
  else if opcode =? 6 then mret (SignedInteger rs <=? 0, false) (* blez *)
  else if opcode =? 7 then mret (0 <? SignedInteger rs, false) (* bgtz *)
  else if opcode =? 1 then
    (* regimm *)
    let rtv := ushr insn 16 .& 0x1F in
    if rtv =? 0 then mret (SignedInteger rs <? 0, false) (* bltz *)
    else if rtv =? 0x10 then (* bltzal *)
      write_reg 31 (wadd (PC c) 8) ;; (* always set regardless of branch taken *)
      mret (SignedInteger rs <? 0, true)
    else if rtv =? 1 then mret (0 <=? SignedInteger rs, false) (* bgez *)
    else if rtv =? 0x11 then (* bgezal (i.e. bal mnemonic) *)
      write_reg RegRA (wadd (PC c) 8) ;; (* always set regardless of branch taken *)
      mret (0 <=? SignedInteger rs, true)
    else mret (false, false)
  else mret (false, false).

Definition HandleBranch (opcode insn rtReg rs : Z) : ST (Core T) unit :=
  c ← gets cpu;
  if negb (NextPC c =? wadd (PC c) 4) then panic "branch in delay slot"
  else
    '(shouldBranch, linked) ← branch_condition opcode insn rtReg rs;
    let prevPC := PC c in
    if (shouldBranch : bool) then
      let target := wadd (wadd prevPC 4) (wshl (SignExtend (insn .& 0xFFFF) 16) 2) in
      write_pcs (NextPC c) target ;; (* execute the delay slot first *)
      if (linked : bool) then push_stack prevPC target else mret ()
    else write_pcs (NextPC c) (wadd (NextPC c) 4). (* branch not taken *)

(** The new value for the store register, LO and HI. *)
Definition hilo (fun_ rs rt : Z) (c : CpuScalars) : outcome (Z * CpuScalars) :=
  switch fun_ [
    ([0x10], Ok (HI c, c)); (* mfhi *)
    ([0x11], Ok (0, set_HI rs c)); (* mthi *)
    ([0x12], Ok (LO c, c)); (* mflo *)
    ([0x13], Ok (0, set_LO rs c)); (* mtlo *)
    ([0x18], (* mult *)
      let acc := wrap 64 (int64 (int32 rs * int32 rt)) in
      Ok (0, set_LO (SignExtend (Word (uint32 acc)) 32) (set_HI (SignExtend (Word (ushr acc 32)) 32) c)));
    ([0x19], (* multu *)
      let acc := umul 64 (uint32 rs) (uint32 rt) in
      Ok (0, set_LO (SignExtend (Word (uint32 acc)) 32) (set_HI (SignExtend (Word (ushr acc 32)) 32) c)));
    ([0x1a], (* div *)
      if uint32 rt =? 0 then Panic "instruction divide by zero"
      else
        Ok (0, set_LO (SignExtend (Word (int32 (Z.quot (int32 rs) (int32 rt)))) 32)
                 (set_HI (SignExtend (Word (int32 (Z.rem (int32 rs) (int32 rt)))) 32) c)));
    ([0x1b], (* divu *)
      if uint32 rt =? 0 then Panic "instruction divide by zero"
      else
        Ok (0, set_LO (SignExtend (Word (uint32 rs / uint32 rt)) 32)
                 (set_HI (SignExtend (Word (uint32 rs mod uint32 rt)) 32) c)));
    ([0x14], assertMips64Fun fun_ ;; Ok (wshl rt (rs .& 0x3F), c)); (* dsllv *)
    ([0x16], assertMips64Fun fun_ ;; Ok (ushr rt (rs .& 0x3F), c)); (* dsrlv *)
    ([0x17], assertMips64Fun fun_ ;; Ok (Word (Z.shiftr (int64 rt) (rs .& 0x3F)), c)); (* dsrav *)
    ([0x1c], (* dmult *)
      assertMips64Fun fun_ ;;
      let a := int64 rs in
      let b := int64 rt in
      let negative := xorb (a <? 0) (b <? 0) in (* set if operands have different signs *)
      let absA := wrap 64 (abs64 a) in
      let absB := wrap 64 (abs64 b) in
      let '(hi, lo) := Mul64 absA absB in
      let '(hi, lo) :=
        if negative then
          (* Two's complement negation: flip all bits and add 1 *)
          let hi := unot 64 hi in
          let lo := unot 64 lo in
          (if lo =? 0xFFFFFFFFFFFFFFFF then uadd 64 hi 1 else hi, uadd 64 lo 1)
        else (hi, lo) in
      Ok (0, set_LO (Word lo) (set_HI (Word hi) c)));
    ([0x1d], (* dmultu *)
      assertMips64Fun fun_ ;;
      let '(hi, lo) := Mul64 rs rt in
      Ok (0, set_LO (Word lo) (set_HI (Word hi) c)));
    ([0x1e], (* ddiv *)
      assertMips64Fun fun_ ;;
      if rt =? 0 then Panic "instruction divide by zero"
      else
        Ok (0, set_LO (Word (int64 (Z.quot (int64 rs) (int64 rt))))
                 (set_HI (Word (int64 (Z.rem (int64 rs) (int64 rt)))) c)));
    ([0x1f], (* ddivu *)
      assertMips64Fun fun_ ;;
      if rt =? 0 then Panic "instruction divide by zero"
      else Ok (0, set_LO (rs / rt) (set_HI (rs mod rt) c)))
  ] (Ok (0, c)).

Definition HandleHiLo (fun_ rs rt storeReg : Z) : ST (Core T) unit :=
  c ← gets cpu;
  '(val, c) ← lift (hilo fun_ rs rt c);
  modify (set_cpu c) ;;
  (if negb (storeReg =? 0) then write_reg storeReg val else mret ()) ;;
  advance.

Definition HandleJump (linkReg dest : Z) : ST (Core T) unit :=
  c ← gets cpu;
  if negb (NextPC c =? wadd (PC c) 4) then panic "jump in delay slot"
  else
    let prevPC := PC c in
    write_pcs (NextPC c) dest ;;
    (* set the link-register to the instr after the delay slot instruction. *)
    if negb (linkReg =? 0) then write_reg linkReg (wadd prevPC 8) else mret ().

Definition HandleRd (storeReg val : Z) (conditional : bool) : ST (Core T) unit :=
  if 32 <=? storeReg then panic "invalid register"
  else
    (* Register 0 is a special register that always holds a value of 0 *)
    (if negb (storeReg =? 0) && conditional then write_reg storeReg val else mret ()) ;;
    advance.

Definition LoadSubWord (vaddr byteLength : Z) (signExtend : bool) : ST (Core T) Z :=
  (* Pull data from memory *)
  let effAddr := vaddr .& AddressMask in
  on_tracker (TrackMemAccess effAddr) ;;
  mem ← on_memory (GetWord effAddr);
  mret (SelectSubWord vaddr mem byteLength signExtend).

Definition StoreSubWord (vaddr byteLength value : Z) : ST (Core T) unit :=
  (* Pull data from memory *)
  let effAddr := vaddr .& AddressMask in
  on_tracker (TrackMemAccess effAddr) ;;
  mem ← on_memory (GetWord effAddr);
  (* Modify isolated sub-word within mem *)
  let newMemVal := UpdateSubWord vaddr mem byteLength value in
  on_memory (SetWord effAddr newMemVal).

(** Register fetch: the values of [rt] and [rdReg]. *)
Definition fetch_operands (opcode insn : Z) (regs : list Z) : outcome (Z * Z) :=
  let rtReg := ushr insn 16 .& 0x1F in
  if (opcode =? 0x27) || (opcode =? 0x1A) || (opcode =? 0x1B) then (* 64-bit opcodes lwu, ldl, ldr *)
    assertMips64 insn ;;
    Ok (reg regs rtReg, rtReg)
  else if (opcode =? 0) || (opcode =? 0x1c) then
    (* R-type (stores rd) *)
    Ok (reg regs rtReg, ushr insn 11 .& 0x1F)
  else if opcode <? 0x20 then
    (* rt is SignExtImm; don't sign extend for andi, ori, xori *)
    if (opcode =? 0xC) || (opcode =? 0xD) || (opcode =? 0xe)
    then Ok (insn .& 0xFFFF, rtReg)
    else Ok (SignExtendImmediate insn, rtReg)
  else if (0x28 <=? opcode) || (opcode =? 0x22) || (opcode =? 0x26) then
    (* store rt value with store; actual rt with lwl, ldl, and lwr *)
    Ok (reg regs rtReg, rtReg)
  else Ok (0, rtReg).

(** The functs from 8 up that are not plain ALU operations; [None] when the
    step goes on with the write-back. *)
Definition special_op (fun_ rs rt rdReg : Z) : option (ST (Core T) unit) :=
  let funSel := if negb IsMips32 then 0x20 else 0x1c in
  if (8 <=? fun_) && (fun_ <? funSel) then
    if (fun_ =? 8) || (fun_ =? 9) then (* jr/jalr *)
      Some (c ← gets cpu;
            linkReg ← (if fun_ =? 9 then push_stack (PC c) rs ;; mret rdReg
                       else pop_stack ;; mret 0);
            HandleJump linkReg rs)
    else if fun_ =? 0xa then Some (HandleRd rdReg rs (rt =? 0)) (* movz *)
    else if fun_ =? 0xb then Some (HandleRd rdReg rs (negb (rt =? 0))) (* movn *)
    else if (0x10 <=? fun_) && (fun_ <? funSel) then Some (HandleHiLo fun_ rs rt rdReg)
    else None
  else None.

(** Memory fetch (all I-type): the address and word loaded, and whether the
    instruction is a store. *)
Definition fetch_memory (opcode insn rs : Z) : ST (Core T) (Z * Z * Z * bool) :=
  if (0x20 <=? opcode) || (opcode =? OpLoadDoubleLeft) || (opcode =? OpLoadDoubleRight) then
    (* M[R[rs]+SignExtImm] *)
    let rs := wadd rs (SignExtendImmediate insn) in
    let addr := rs .& AddressMask in
    on_tracker (TrackMemAccess addr) ;;
    mem ← on_memory (GetWord addr);
    (* for 64-bit: ld (0x37) is the only non-store opcode >= 0x28 *)
    mret (rs, mem, addr, (0x28 <=? opcode) && (IsMips32 || negb (opcode =? 0x37)))
  else mret (rs, 0, wnot 0, false).

(** Returns [(memUpdated, effMemAddr)]. *)
Definition ExecMipsCoreStepLogic (insn opcode fun_ : Z) : ST (Core T) (bool * Z) :=
  (* j-type j/jal *)
  if (opcode =? 2) || (opcode =? 3) then
    let linkReg := if opcode =? 3 then RegRA else 0 in
    c ← gets cpu;
    (* Take the top bits of the next PC (its 256 MB region), and concatenate
       with the 26-bit offset *)
    let target := (NextPC c .& SignExtend 0xF0000000 32) .| Word (ushl 32 (insn .& 0x03FFFFFF) 2) in
    push_stack (PC c) target ;;
    HandleJump linkReg target ;;
    mret (false, 0)
  else
    (* register fetch *)
    regs ← gets registers;
    let rtReg := ushr insn 16 .& 0x1F in
    let rs := reg regs (ushr insn 21 .& 0x1F) in
    '(rt, rdReg) ← lift (fetch_operands opcode insn regs);
    if ((4 <=? opcode) && (opcode <? 8)) || (opcode =? 1) then
      HandleBranch opcode insn rtReg rs ;;
      mret (false, 0)
    else
      '(rs, mem, addr, isStore) ← fetch_memory opcode insn rs;
      (* store opcodes don't write back to a register *)
      let storeAddr := if (isStore : bool) then addr else wnot 0 in
      let rdReg := if (isStore : bool) then 0 else rdReg in
      (* ALU *)
      val ← lift (ExecuteMipsInstruction insn opcode fun_ rs rt mem);
      match (if opcode =? 0 then special_op fun_ rs rt rdReg else None) with
      | Some op => op ;; mret (false, 0)
      | None =>
          (* write memory *)
          upd ← (if negb (storeAddr =? wnot 0) then
                   on_tracker (TrackMemAccess storeAddr) ;;
                   on_memory (SetWord storeAddr val) ;;
                   mret (true, storeAddr)
                 else mret (false, 0));
          (* write back the value to destination register *)
          HandleRd rdReg val true ;;
          mret upd
      end.

End CoreStep.

(** ** Syscalls (mips_syscalls.go) *)

Definition FdStdin : Z := 0.
Definition FdStdout : Z := 1.
Definition FdStderr : Z := 2.
Definition FdHintRead : Z := 3.
Definition FdHintWrite : Z := 4.
Definition FdPreimageRead : Z := 5.
Definition FdPreimageWrite : Z := 6.

Definition SysErrorSignal {A : Arch} : Z := wnot 0.
Definition MipsEBADF : Z := 0x9.
Definition MipsEINVAL : Z := 0x16.
Definition MipsEAGAIN : Z := 0xb.
Definition MipsETIMEDOUT : Z := 0x91.

Definition FutexWaitPrivate : Z := 128.
Definition FutexWakePrivate : Z := 129.

Definition CloneVm : Z := 0x100.
Definition CloneFs : Z := 0x200.
Definition CloneFiles : Z := 0x400.
Definition CloneSighand : Z := 0x800.
Definition CloneSysvsem : Z := 0x40000.
Definition CloneThread : Z := 0x10000.

Definition ValidCloneFlags : Z :=
  CloneVm .| CloneFs .| CloneFiles .| CloneSighand .| CloneSysvsem .| CloneThread.

Definition SchedQuantum : Z := 100000.
Definition HZ : Z := 10000000.
Definition ClockGettimeRealtimeFlag : Z := 0.
Definition ClockGettimeMonotonicFlag : Z := 1.

(** What the I/O syscalls work on. The writers collect what they are given. *)
Record IO : Type := mkIO {
  io_memory : Memory;
  io_memTracker : MemoryTrackerImpl;
  io_oracle : TrackingPreimageOracleReader;
  io_stdOut : list Z;
  io_stdErr : list Z;
}.

Section Syscalls.
Context {A : Arch} {K : Keccak} {PO : PreimageOracle}.

Definition GetSyscallArgs (regs : list Z) : Z * Z * Z * Z :=
  (reg regs RegSyscallNum, reg regs RegSyscallParam1, reg regs RegSyscallParam2,
   reg regs RegSyscallParam3).

(** [(v0, v1, newHeap)]. *)
Definition HandleSysMmap (a0 a1 heap : Z) : Z * Z * Z :=
  let sz := a1 in
  let sz := if negb (sz .& PageAddrMask =? 0) (* adjust size to align with page size *)
            then wadd sz (wsub PageSize (sz .& PageAddrMask)) else sz in
  if a0 =? 0 then
    let newHeap := wadd heap sz in
    (* Fail if new heap exceeds memory limit, newHeap overflows around to low
       memory, or sz overflows *)
    if (HeapEnd <? newHeap) || (newHeap <? heap) || (sz <? a1)
    then (SysErrorSignal, MipsEINVAL, heap)
    else (heap, 0, newHeap)
  else (a0, 0, heap).

Definition io_mem {X} (op : ST Memory X) : ST IO X :=
  zoom io_memory (fun m s => mkIO m (io_memTracker s) (io_oracle s) (io_stdOut s) (io_stdErr s)) op.
Definition io_tracker {X} (op : ST (Memory * MemoryTrackerImpl) X) : ST IO X :=
  zoom (fun s => (io_memory s, io_memTracker s))
    (fun mt s => mkIO mt.1 mt.2 (io_oracle s) (io_stdOut s) (io_stdErr s)) op.
Definition io_orc {X} (op : ST TrackingPreimageOracleReader X) : ST IO X :=
  zoom io_oracle (fun o s => mkIO (io_memory s) (io_memTracker s) o (io_stdOut s) (io_stdErr s)) op.
Definition write_stdOut (b : list Z) : ST IO unit :=
  modify (fun s => mkIO (io_memory s) (io_memTracker s) (io_oracle s) (io_stdOut s ++ b) (io_stdErr s)).
Definition write_stdErr (b : list Z) : ST IO unit :=
  modify (fun s => mkIO (io_memory s) (io_memTracker s) (io_oracle s) (io_stdOut s) (io_stdErr s ++ b)).

(** [(v0, v1, newPreimageOffset, memUpdated, memAddr)]. *)
Definition HandleSysRead (a0 a1 a2 : Z) (preimageKey : list Z) (preimageOffset : Z)
    : ST IO (Z * Z * Z * bool * Z) :=
  switch a0 [
    ([FdStdin], mret (0, 0, preimageOffset, false, 0)); (* read nothing, no error *)
    ([FdPreimageRead], (* pre-image oracle *)
      let effAddr := a1 .& AddressMask in
      io_tracker (TrackMemAccess effAddr) ;;
      mem ← io_mem (GetWord effAddr);
      '(dat, datLen) ← io_orc (ReadPreimage preimageKey preimageOffset);
      let alignment := a1 .& ExtMask in
      let space := wsub WordSizeBytes alignment in
      let datLen := if space <? datLen then space else datLen in
      let datLen := if a2 <? datLen then a2 else datLen in
      let outMem := ByteOrder_PutWord mem in
      let outMem := splice alignment (take (Z.to_nat datLen) dat) outMem in
      io_mem (SetWord effAddr (ByteOrder_Word outMem)) ;;
      mret (datLen, 0, wadd preimageOffset datLen, true, effAddr));
    ([FdHintRead], (* hint response *)
      (* don't actually read into memory, just say we read it all *)
      mret (a2, 0, preimageOffset, false, 0))
  ] (mret (wnot 0, MipsEBADF, preimageOffset, false, 0)).

(** Process while there is enough data to check if there are any hints; each
    round consumes at least the 4-byte prefix. *)
Fixpoint process_hints (fuel : nat) (lastHint : list Z) : ST IO (list Z) :=
  if 4 <=? zlen lastHint then
    let hintLen := be_decode (take 4 lastHint) in
    if hintLen <=? wrap 32 (zlen (drop 4 lastHint)) then
      let end_ := uadd 32 4 hintLen in
      if end_ <? 4 then panic "slice bounds out of range"
      else
        let hint := slice 4 end_ lastHint in (* without the length prefix *)
        io_orc (modify (Hint hint)) ;;
        match fuel with
        | O => panic "out of fuel"
        | S fuel => process_hints fuel (drop (Z.to_nat end_) lastHint)
        end
    else mret lastHint (* stop processing hints if there is incomplete data buffered *)
  else mret lastHint.

(** [(v0, v1, newLastHint, newPreimageKey, newPreimageOffset)]. *)
Definition HandleSysWrite (a0 a1 a2 : Z) (lastHint preimageKey : list Z) (preimageOffset : Z)
    : ST IO (Z * Z * list Z * list Z * Z) :=
  switch a0 [
    ([FdStdout],
      out ← io_mem (ReadAll 32768 (ReadMemoryRange a1 a2));
      write_stdOut out ;;
      mret (a2, 0, lastHint, preimageKey, preimageOffset));
    ([FdStderr],
      out ← io_mem (ReadAll 32768 (ReadMemoryRange a1 a2));
      write_stdErr out ;;
      mret (a2, 0, lastHint, preimageKey, preimageOffset));
    ([FdHintWrite],
      hintData ← io_mem (ReadAll 512 (ReadMemoryRange a1 a2));
      let lastHint := lastHint ++ hintData in
      lastHint ← process_hints (length lastHint) lastHint;
      mret (a2, 0, lastHint, preimageKey, preimageOffset));
    ([FdPreimageWrite],
      let effAddr := a1 .& AddressMask in
      io_tracker (TrackMemAccess effAddr) ;;
      mem ← io_mem (GetWord effAddr);
      let key := preimageKey in
      let alignment := a1 .& ExtMask in
      let space := wsub WordSizeBytes alignment in
      let a2 := if space <? a2 then space else a2 in
      let key := splice 0 (drop (Z.to_nat a2) key) key in
      let tmp := ByteOrder_PutWord mem in
      let key := splice (32 - a2) (take (Z.to_nat a2) (drop (Z.to_nat alignment) tmp)) key in
      mret (a2, 0, lastHint, key, 0))
  ] (mret (wnot 0, MipsEBADF, lastHint, preimageKey, preimageOffset)).

(** [(v0, v1)]. *)
Definition HandleSysFcntl (a0 a1 : Z) : Z * Z :=
  if a1 =? 1 then (* F_GETFD: get file descriptor flags *)
    switch a0 [
      ([FdStdin; FdStdout; FdStderr; FdPreimageRead; FdHintRead; FdPreimageWrite; FdHintWrite],
        (0, 0)) (* No flags set *)
    ] (wnot 0, MipsEBADF)
  else if a1 =? 3 then (* F_GETFL: get file status flags *)
    switch a0 [
      ([FdStdin; FdPreimageRead; FdHintRead], (0, 0)); (* O_RDONLY *)
      ([FdStdout; FdStderr; FdPreimageWrite; FdHintWrite], (1, 0)) (* O_WRONLY *)
    ] (wnot 0, MipsEBADF)
  else (wnot 0, MipsEINVAL). (* cmd not recognized by this kernel *)

Definition HandleSyscallUpdates (v0 v1 : Z) (c : CpuScalars) (regs : list Z) : CpuScalars * list Z :=
  let regs := set_reg RegSyscallRet1 v0 regs in
  let regs := set_reg RegSyscallErrno v1 regs in
  (set_pcs (NextPC c) (wadd (NextPC c) 4) c, regs).

End Syscalls.
