(* ===== verification/Threads.v ===== *)
(** Threads and the state of the multithreaded VM
    (cannon/mipsevm/multithreaded/thread.go and state.go): data, witness
    encoding, thread-stack roots and the binary format. *)
From Stdlib Require Import ZArith Lia.
From stdpp Require Import base gmap list strings numbers.
From S2P Require Import Prelude Arch Codec Insn Memory Exec.

(** [mipsevm.AppendBoolToWitness] (cannon/mipsevm/witness.go). *)
Definition AppendBoolToWitness (witnessData : list Z) (boolVal : bool) : list Z :=
  if boolVal then witnessData ++ [1] else witnessData ++ [0].

(** ** Threads (thread.go) *)

Record ThreadState : Type := mkThread {
  ThreadId : Z;
  ThreadExitCode : Z;
  ThreadExited : bool;
  Cpu : CpuScalars;
  Registers : list Z;
}.

Definition CreateEmptyThread : ThreadState :=
  mkThread 0 0 false (mkCpu 0 4 0 0) (replicate 32 0).

(** The empty thread root - keccak256(bytes32(0) ++ bytes32(0)). *)
Definition EmptyThreadsRoot : hash :=
  be_encode 32 0xad3228b676f7d3cd4284a5443f17f1962b36e491b30a40b2405849e597ba5fb5.

Section Thread.
Context {A : Arch} {K : Keccak}.

Definition SERIALIZED_THREAD_SIZE : Z :=
  WordSizeBytes + 1 + 1 + 4 * WordSizeBytes + 32 * WordSizeBytes.
Definition THREAD_WITNESS_SIZE : Z := SERIALIZED_THREAD_SIZE + 32.

Definition serializeThread (t : ThreadState) : list Z :=
  let out := ByteOrder_AppendWord [] (ThreadId t) in
  let out := out ++ [ThreadExitCode t] in
  let out := AppendBoolToWitness out (ThreadExited t) in
  let out := ByteOrder_AppendWord out (PC (Cpu t)) in
  let out := ByteOrder_AppendWord out (NextPC (Cpu t)) in
  let out := ByteOrder_AppendWord out (LO (Cpu t)) in
  let out := ByteOrder_AppendWord out (HI (Cpu t)) in
  fold_left ByteOrder_AppendWord (Registers t) out.

Definition Thread_Serialize (t : ThreadState) : list Z := serializeThread t.

Definition Thread_Deserialize : ST (list Z) ThreadState :=
  threadId ← ReadUInt WordSizeBytes;
  exitCode ← ReadUInt 1;
  exited ← ReadUInt 1;
  pc ← ReadUInt WordSizeBytes;
  nextPC ← ReadUInt WordSizeBytes;
  lo ← ReadUInt WordSizeBytes;
  hi ← ReadUInt WordSizeBytes;
  (* Read the registers as big endian Words *)
  regs ← read_list 32 (ReadUInt WordSizeBytes);
  mret (mkThread threadId exitCode (negb (exited =? 0)) (mkCpu pc nextPC lo hi) regs).

Definition computeThreadRoot (prevStackRoot : hash) (threadToPush : ThreadState) : hash :=
  let hashedThread := keccak256 (serializeThread threadToPush) in
  keccak256 (prevStackRoot ++ hashedThread).

End Thread.

(** ** The state (state.go) *)

Definition LLStatusNone : Z := 0x0.
Definition LLStatusActive32bit : Z := 0x1.
Definition LLStatusActive64bit : Z := 0x2.

Module MT.

Record State : Type := mkState {
  Mem : Memory;
  PreimageKey : list Z;
  PreimageOffset : Z;
  Heap : Z;
  LLReservationStatus : Z;
  LLAddress : Z;
  LLOwnerThread : Z;
  ExitCode : Z;
  Exited : bool;
  Step : Z;
  StepsSinceLastContextSwitch : Z;
  TraverseRight : bool;
  LeftThreadStack : list ThreadState;
  RightThreadStack : list ThreadState;
  NextThreadId : Z;
  LastHint : list Z;
}.

(** *** Field updates *)

Definition set_Mem (v : Memory) (s : State) : State :=
  mkState v (PreimageKey s) (PreimageOffset s) (Heap s) (LLReservationStatus s) (LLAddress s)
    (LLOwnerThread s) (ExitCode s) (Exited s) (Step s) (StepsSinceLastContextSwitch s)
    (TraverseRight s) (LeftThreadStack s) (RightThreadStack s) (NextThreadId s) (LastHint s).
Definition set_Preimage (key : list Z) (off : Z) (s : State) : State :=
  mkState (Mem s) key off (Heap s) (LLReservationStatus s) (LLAddress s)
    (LLOwnerThread s) (ExitCode s) (Exited s) (Step s) (StepsSinceLastContextSwitch s)
    (TraverseRight s) (LeftThreadStack s) (RightThreadStack s) (NextThreadId s) (LastHint s).
Definition set_Heap (v : Z) (s : State) : State :=
  mkState (Mem s) (PreimageKey s) (PreimageOffset s) v (LLReservationStatus s) (LLAddress s)
    (LLOwnerThread s) (ExitCode s) (Exited s) (Step s) (StepsSinceLastContextSwitch s)
    (TraverseRight s) (LeftThreadStack s) (RightThreadStack s) (NextThreadId s) (LastHint s).
Definition set_LL (status addr owner : Z) (s : State) : State :=
  mkState (Mem s) (PreimageKey s) (PreimageOffset s) (Heap s) status addr
    owner (ExitCode s) (Exited s) (Step s) (StepsSinceLastContextSwitch s)
    (TraverseRight s) (LeftThreadStack s) (RightThreadStack s) (NextThreadId s) (LastHint s).
Definition set_Exit (code : Z) (exited : bool) (s : State) : State :=
  mkState (Mem s) (PreimageKey s) (PreimageOffset s) (Heap s) (LLReservationStatus s) (LLAddress s)
    (LLOwnerThread s) code exited (Step s) (StepsSinceLastContextSwitch s)
    (TraverseRight s) (LeftThreadStack s) (RightThreadStack s) (NextThreadId s) (LastHint s).
Definition set_Step (v : Z) (s : State) : State :=
  mkState (Mem s) (PreimageKey s) (PreimageOffset s) (Heap s) (LLReservationStatus s) (LLAddress s)
    (LLOwnerThread s) (ExitCode s) (Exited s) v (StepsSinceLastContextSwitch s)
    (TraverseRight s) (LeftThreadStack s) (RightThreadStack s) (NextThreadId s) (LastHint s).
Definition set_StepsSince (v : Z) (s : State) : State :=
  mkState (Mem s) (PreimageKey s) (PreimageOffset s) (Heap s) (LLReservationStatus s) (LLAddress s)
    (LLOwnerThread s) (ExitCode s) (Exited s) (Step s) v
    (TraverseRight s) (LeftThreadStack s) (RightThreadStack s) (NextThreadId s) (LastHint s).
Definition set_TraverseRight (v : bool) (s : State) : State :=
  mkState (Mem s) (PreimageKey s) (PreimageOffset s) (Heap s) (LLReservationStatus s) (LLAddress s)
    (LLOwnerThread s) (ExitCode s) (Exited s) (Step s) (StepsSinceLastContextSwitch s)
    v (LeftThreadStack s) (RightThreadStack s) (NextThreadId s) (LastHint s).
Definition set_Stacks (l r : list ThreadState) (s : State) : State :=
  mkState (Mem s) (PreimageKey s) (PreimageOffset s) (Heap s) (LLReservationStatus s) (LLAddress s)
    (LLOwnerThread s) (ExitCode s) (Exited s) (Step s) (StepsSinceLastContextSwitch s)
    (TraverseRight s) l r (NextThreadId s) (LastHint s).
Definition set_NextThreadId (v : Z) (s : State) : State :=
  mkState (Mem s) (PreimageKey s) (PreimageOffset s) (Heap s) (LLReservationStatus s) (LLAddress s)
    (LLOwnerThread s) (ExitCode s) (Exited s) (Step s) (StepsSinceLastContextSwitch s)
    (TraverseRight s) (LeftThreadStack s) (RightThreadStack s) v (LastHint s).
Definition set_LastHint (v : list Z) (s : State) : State :=
  mkState (Mem s) (PreimageKey s) (PreimageOffset s) (Heap s) (LLReservationStatus s) (LLAddress s)
    (LLOwnerThread s) (ExitCode s) (Exited s) (Step s) (StepsSinceLastContextSwitch s)
    (TraverseRight s) (LeftThreadStack s) (RightThreadStack s) (NextThreadId s) v.

Section State.
Context {A : Arch} {K : Keccak}.

Definition CreateEmptyState : State :=
  let initThread := CreateEmptyThread in
  mkState NewMemory (replicate 32 0) 0 0 LLStatusNone 0 0 0 false 0 0 false
    [initThread] [] (wadd (ThreadId initThread) 1) [].

Definition getActiveThreadStack (s : State) : list ThreadState :=
  if TraverseRight s then RightThreadStack s else LeftThreadStack s.

(** Assign the active stack. *)
Definition set_active (l : list ThreadState) (s : State) : State :=
  if TraverseRight s then set_Stacks (LeftThreadStack s) l s else set_Stacks l (RightThreadStack s) s.

Definition GetCurrentThread (s : State) : outcome ThreadState :=
  match top (getActiveThreadStack s) with
  | Some t => Ok t
  | None => Panic "Active thread stack is empty"
  end.

(** Assign the thread that [GetCurrentThread] points to. *)
Definition set_current (t : ThreadState) (s : State) : State :=
  set_active (pop (getActiveThreadStack s) ++ [t]) s.

Definition CreateInitialState (pc heapStart : Z) : outcome State :=
  let state := CreateEmptyState in
  currentThread ← GetCurrentThread state;
  let currentThread :=
    mkThread (ThreadId currentThread) (ThreadExitCode currentThread) (ThreadExited currentThread)
      (set_pcs pc (wadd pc 4) (Cpu currentThread)) (Registers currentThread) in
  Ok (set_Heap heapStart (set_current currentThread state)).

Definition calculateThreadStackRoot (stack : list ThreadState) : hash :=
  fold_left computeThreadRoot stack EmptyThreadsRoot.

Definition getRightThreadStackRoot (s : State) : hash := calculateThreadStackRoot (RightThreadStack s).
Definition getLeftThreadStackRoot (s : State) : hash := calculateThreadStackRoot (LeftThreadStack s).

Definition GetPC (s : State) : outcome Z :=
  activeThread ← GetCurrentThread s; Ok (PC (Cpu activeThread)).

Definition VMStatus (s : State) : Z := VmStatus (Exited s) (ExitCode s).

Definition ThreadCount (s : State) : Z := zlen (LeftThreadStack s) + zlen (RightThreadStack s).

Definition MEMROOT_WITNESS_OFFSET : Z := 0.
Definition PREIMAGE_KEY_WITNESS_OFFSET : Z := MEMROOT_WITNESS_OFFSET + 32.
Definition PREIMAGE_OFFSET_WITNESS_OFFSET : Z := PREIMAGE_KEY_WITNESS_OFFSET + 32.
Definition HEAP_WITNESS_OFFSET : Z := PREIMAGE_OFFSET_WITNESS_OFFSET + WordSizeBytes.
Definition LL_RESERVATION_ACTIVE_OFFSET : Z := HEAP_WITNESS_OFFSET + WordSizeBytes.
Definition LL_ADDRESS_OFFSET : Z := LL_RESERVATION_ACTIVE_OFFSET + 1.
Definition LL_OWNER_THREAD_OFFSET : Z := LL_ADDRESS_OFFSET + WordSizeBytes.
Definition EXITCODE_WITNESS_OFFSET : Z := LL_OWNER_THREAD_OFFSET + WordSizeBytes.
Definition EXITED_WITNESS_OFFSET : Z := EXITCODE_WITNESS_OFFSET + 1.
Definition STEP_WITNESS_OFFSET : Z := EXITED_WITNESS_OFFSET + 1.
Definition STEPS_SINCE_CONTEXT_SWITCH_WITNESS_OFFSET : Z := STEP_WITNESS_OFFSET + 8.
Definition TRAVERSE_RIGHT_WITNESS_OFFSET : Z := STEPS_SINCE_CONTEXT_SWITCH_WITNESS_OFFSET + 8.
Definition LEFT_THREADS_ROOT_WITNESS_OFFSET : Z := TRAVERSE_RIGHT_WITNESS_OFFSET + 1.
Definition RIGHT_THREADS_ROOT_WITNESS_OFFSET : Z := LEFT_THREADS_ROOT_WITNESS_OFFSET + 32.
Definition THREAD_ID_WITNESS_OFFSET : Z := RIGHT_THREADS_ROOT_WITNESS_OFFSET + 32.
Definition STATE_WITNESS_SIZE : Z := THREAD_ID_WITNESS_OFFSET + WordSizeBytes.

Definition stateHashFromWitness (sw : list Z) : outcome hash :=
  if negb (zlen sw =? STATE_WITNESS_SIZE) then Panic "Invalid witness length"
  else
    let hash := keccak256 sw in
    let exitCode := default 0 (sw !! Z.to_nat EXITCODE_WITNESS_OFFSET) in
    let exited := default 0 (sw !! Z.to_nat EXITED_WITNESS_OFFSET) in
    let status := VmStatus (exited =? 1) exitCode in
    Ok (<[0%nat := status]> hash).

(** [StateWitness.StateHash]. *)
Definition StateHash (sw : list Z) : outcome hash :=
  if negb (zlen sw =? STATE_WITNESS_SIZE) then Err "Invalid witness length"
  else stateHashFromWitness sw.

(** The witness of state [s] whose memory has root [memRoot]. *)
Definition encode_state (memRoot : hash) (s : State) : list Z :=
  let out := memRoot in
  let out := out ++ PreimageKey s in
  let out := ByteOrder_AppendWord out (PreimageOffset s) in
  let out := ByteOrder_AppendWord out (Heap s) in
  let out := out ++ [LLReservationStatus s] in
  let out := ByteOrder_AppendWord out (LLAddress s) in
  let out := ByteOrder_AppendWord out (LLOwnerThread s) in
  let out := out ++ [ExitCode s] in
  let out := AppendBoolToWitness out (Exited s) in
  let out := out ++ be_encode 8 (Step s) in
  let out := out ++ be_encode 8 (StepsSinceLastContextSwitch s) in
  let leftStackRoot := getLeftThreadStackRoot s in
  let rightStackRoot := getRightThreadStackRoot s in
  let out := AppendBoolToWitness out (TraverseRight s) in
  let out := out ++ leftStackRoot in
  let out := out ++ rightStackRoot in
  ByteOrder_AppendWord out (NextThreadId s).

(** Computing the memory root may fill in the caches of the memory. *)
Definition EncodeWitness : ST State (list Z * hash) :=
  memRoot ← zoom Mem set_Mem MerkleRoot;
  s ← get;
  let out := encode_state memRoot s in
  h ← lift (stateHashFromWitness out);
  mret (out, h).

Definition EncodeThreadProof (s : State) : outcome (list Z) :=
  let activeStack := getActiveThreadStack s in
  match top activeStack with
  | None => Panic "Invalid empty thread stack"
  | Some activeThread =>
      let otherThreads := pop activeStack in
      let threadBytes := serializeThread activeThread in
      let otherThreadsWitness := calculateThreadStackRoot otherThreads in
      Ok (threadBytes ++ otherThreadsWitness)
  end.

Definition State_Serialize (s : State) : list Z :=
  Memory_Serialize (Mem s) ++
  WriteHash (PreimageKey s) ++
  WriteUInt WordSizeBytes (PreimageOffset s) ++
  WriteUInt WordSizeBytes (Heap s) ++
  WriteUInt 1 (LLReservationStatus s) ++
  WriteUInt WordSizeBytes (LLAddress s) ++
  WriteUInt WordSizeBytes (LLOwnerThread s) ++
  WriteUInt 1 (ExitCode s) ++
  WriteBool (Exited s) ++
  WriteUInt 8 (Step s) ++
  WriteUInt 8 (StepsSinceLastContextSwitch s) ++
  WriteBool (TraverseRight s) ++
  WriteUInt WordSizeBytes (NextThreadId s) ++
  WriteUInt WordSizeBytes (Word (zlen (LeftThreadStack s))) ++
  concat (Thread_Serialize <$> LeftThreadStack s) ++
  WriteUInt WordSizeBytes (Word (zlen (RightThreadStack s))) ++
  concat (Thread_Serialize <$> RightThreadStack s) ++
  WriteBytes (LastHint s).

Definition State_Deserialize : ST (list Z) State :=
  mem ← Memory_Deserialize NewMemory;
  key ← ReadHash;
  off ← ReadUInt WordSizeBytes;
  heap ← ReadUInt WordSizeBytes;
  status ← ReadUInt 1;
  llAddr ← ReadUInt WordSizeBytes;
  llOwner ← ReadUInt WordSizeBytes;
  exitCode ← ReadUInt 1;
  exited ← ReadBool;
  step ← ReadUInt 8;
  stepsSince ← ReadUInt 8;
  traverseRight ← ReadBool;
  nextThreadId ← ReadUInt WordSizeBytes;
  leftThreadStackSize ← ReadUInt WordSizeBytes;
  left ← read_list (Z.to_nat leftThreadStackSize) Thread_Deserialize;
  rightThreadStackSize ← ReadUInt WordSizeBytes;
  right ← read_list (Z.to_nat rightThreadStackSize) Thread_Deserialize;
  lastHint ← ReadBytes;
  mret (mkState mem key off heap status llAddr llOwner exitCode exited step stepsSince traverseRight
          left right nextThreadId lastHint).

End State.
End MT.
