(* ===== verification/Multithreaded.v ===== *)
(** The multithreaded VM (cannon/mipsevm/multithreaded): stack and statistics
    trackers, the step function of mips.go and the witness-producing [Step] of
    instrumented.go. *)
From Stdlib Require Import ZArith Lia.
From stdpp Require Import base gmap list strings numbers.
From S2P Require Import Prelude Arch Codec Insn Memory Exec Threads.

(** ** Threaded stack tracker (stack.go) *)

Inductive ThreadedStackTracker : Type :=
| NoopThreadedStackTracker
| ThreadedStackTrackerImpl (trackersByThreadId : gmap Z StackTrackerImpl).

Module ThreadedStack.
Section ThreadedStack.
Context {MD : Metadata}.

(** The tracker of the current thread [tid], created on first use. *)
Definition getCurrentTracker (tid : Z) (m : gmap Z StackTrackerImpl) : StackTrackerImpl :=
  match m !! tid with
  | Some tracker => tracker
  | None => mkStack [] []
  end.

Definition PushStack (tid caller target : Z) (t : ThreadedStackTracker) : ThreadedStackTracker :=
  match t with
  | NoopThreadedStackTracker => t
  | ThreadedStackTrackerImpl m =>
      ThreadedStackTrackerImpl (<[tid := Stack.PushStack caller target (getCurrentTracker tid m)]> m)
  end.

Definition PopStack (tid pc : Z) (t : ThreadedStackTracker) : ThreadedStackTracker :=
  match t with
  | NoopThreadedStackTracker => t
  | ThreadedStackTrackerImpl m =>
      ThreadedStackTrackerImpl (<[tid := Stack.PopStack pc (getCurrentTracker tid m)]> m)
  end.

Definition DropThread (threadId : Z) (t : ThreadedStackTracker) : ThreadedStackTracker :=
  match t with
  | NoopThreadedStackTracker => t
  | ThreadedStackTrackerImpl m => ThreadedStackTrackerImpl (delete threadId m)
  end.

End ThreadedStack.
End ThreadedStack.

(** As the [StackTracker] of the core step, with the current thread id the
    tracker reads from the state. *)
#[export] Instance threaded_tracker {MD : Metadata} : StackTracker (Z * ThreadedStackTracker) := {
  PushStack _ caller target t := (t.1, ThreadedStack.PushStack t.1 caller target t.2);
  PopStack pc t := (t.1, ThreadedStack.PopStack t.1 pc t.2);
}.

(** ** Statistics (stats.go) *)

(** [simplelru.LRU[Word, uint64]] of hashicorp/golang-lru: a parameter. *)
Class LRU : Type := {
  lru : Type;
  lru_New : Z -> lru;
  lru_Add : Z -> Z -> lru -> lru;
  lru_Get : Z -> lru -> option Z * lru;
  lru_Remove : Z -> lru -> lru;
}.

Record statsTrackerImpl {L : LRU} : Type := mkStats {
  lastLLStepByThread : lru;
  activeThreadId : Z;
  lastActiveStepThread0 : Z;
  rmwSuccessCount : Z;
  rmwFailCount : Z;
  maxStepsBetweenLLAndSC : Z;
  reservationInvalidationCount : Z;
  forcedPreemptionCount : Z;
  idleStepCountThread0 : Z;
}.
Arguments statsTrackerImpl : clear implicits.

Module Stats.
Section Stats.
Context {L : LRU}.

Definition newStatsTracker (cacheSize : Z) : statsTrackerImpl L :=
  mkStats L (lru_New cacheSize) 0 0 0 0 0 0 0 0.

Definition set_rmw (ok fail : Z) (s : statsTrackerImpl L) : statsTrackerImpl L :=
  mkStats L (lastLLStepByThread s) (activeThreadId s) (lastActiveStepThread0 s) ok fail
    (maxStepsBetweenLLAndSC s) (reservationInvalidationCount s) (forcedPreemptionCount s)
    (idleStepCountThread0 s).

Definition trackLL (threadId step : Z) (s : statsTrackerImpl L) : statsTrackerImpl L :=
  mkStats L (lru_Add threadId step (lastLLStepByThread s)) (activeThreadId s)
    (lastActiveStepThread0 s) (rmwSuccessCount s) (rmwFailCount s) (maxStepsBetweenLLAndSC s)
    (reservationInvalidationCount s) (forcedPreemptionCount s) (idleStepCountThread0 s).

Definition recordStepsBetweenLLAndSC (threadId scStep : Z) (s : statsTrackerImpl L) : statsTrackerImpl L :=
  (* Track rmw steps if we have the last ll step in our cache *)
  let '(llStep, c) := lru_Get threadId (lastLLStepByThread s) in
  let '(c, mx) :=
    match llStep with
    | Some llStep =>
        let diff := usub 64 scStep llStep in
        (* Purge ll step since the RMW seq is now complete *)
        (lru_Remove threadId c,
         if maxStepsBetweenLLAndSC s <? diff then diff else maxStepsBetweenLLAndSC s)
    | None => (c, maxStepsBetweenLLAndSC s)
    end in
  mkStats L c (activeThreadId s) (lastActiveStepThread0 s) (rmwSuccessCount s) (rmwFailCount s) mx
    (reservationInvalidationCount s) (forcedPreemptionCount s) (idleStepCountThread0 s).

Definition trackSCSuccess (threadId step : Z) (s : statsTrackerImpl L) : statsTrackerImpl L :=
  recordStepsBetweenLLAndSC threadId step
    (set_rmw (uadd 64 (rmwSuccessCount s) 1) (rmwFailCount s) s).

Definition trackSCFailure (threadId step : Z) (s : statsTrackerImpl L) : statsTrackerImpl L :=
  recordStepsBetweenLLAndSC threadId step
    (set_rmw (rmwSuccessCount s) (uadd 64 (rmwFailCount s) 1) s).

Definition trackReservationInvalidation (s : statsTrackerImpl L) : statsTrackerImpl L :=
  mkStats L (lastLLStepByThread s) (activeThreadId s) (lastActiveStepThread0 s) (rmwSuccessCount s)
    (rmwFailCount s) (maxStepsBetweenLLAndSC s) (uadd 64 (reservationInvalidationCount s) 1)
    (forcedPreemptionCount s) (idleStepCountThread0 s).

Definition trackForcedPreemption (s : statsTrackerImpl L) : statsTrackerImpl L :=
  mkStats L (lastLLStepByThread s) (activeThreadId s) (lastActiveStepThread0 s) (rmwSuccessCount s)
    (rmwFailCount s) (maxStepsBetweenLLAndSC s) (reservationInvalidationCount s)
    (uadd 64 (forcedPreemptionCount s) 1) (idleStepCountThread0 s).

Definition trackThreadActivated (tid step : Z) (s : statsTrackerImpl L) : statsTrackerImpl L :=
  let '(lastActive, idle) :=
    if (activeThreadId s =? 0) && negb (tid =? 0) then
      (* Thread 0 has been deactivated, start tracking to capture idle steps *)
      (step, idleStepCountThread0 s)
    else if negb (activeThreadId s =? 0) && (tid =? 0) then
      (* Thread 0 has been activated, record idle steps *)
      let idleSteps := usub 64 step (lastActiveStepThread0 s) in
      (lastActiveStepThread0 s, uadd 64 (idleStepCountThread0 s) idleSteps)
    else (lastActiveStepThread0 s, idleStepCountThread0 s) in
  mkStats L (lastLLStepByThread s) tid lastActive (rmwSuccessCount s)
    (rmwFailCount s) (maxStepsBetweenLLAndSC s) (reservationInvalidationCount s)
    (forcedPreemptionCount s) idle.

End Stats.
End Stats.

(** ** The VM (instrumented.go, mips.go) *)

(** [statsTracker] is [None] for [noopStatsTracker]. *)
Record InstrumentedState {L : LRU} : Type := mkVM {
  state : MT.State;
  stdOut : list Z;
  stdErr : list Z;
  memoryTracker : MemoryTrackerImpl;
  vmStackTracker : ThreadedStackTracker;
  statsTracker : option (statsTrackerImpl L);
  preimageOracle : TrackingPreimageOracleReader;
}.
Arguments InstrumentedState : clear implicits.

(** [mipsevm.StepWitness] (witness.go). *)
Record StepWitness : Type := mkStepWitness {
  wit_State : list Z;
  wit_StateHash : hash;
  wit_ProofData : list Z;
  wit_PreimageKey : list Z;
  wit_PreimageValue : list Z;
  wit_PreimageOffset : Z;
}.

Definition HasPreimage (wit : StepWitness) : bool :=
  negb (bool_decide (wit_PreimageKey wit = replicate 32 0)).

Module MTVM.
Import MT.
Section VM.
Context {A : Arch} {K : Keccak} {PO : PreimageOracle} {MD : Metadata} {L : LRU}.

Abbreviation VM := (InstrumentedState L).

Definition NewInstrumentedState (s : State) : VM :=
  mkVM L s [] [] NewMemoryTracker NoopThreadedStackTracker None NewTrackingPreimageOracleReader.

Definition EnableStats (m : VM) : VM :=
  mkVM L (state m) (stdOut m) (stdErr m) (memoryTracker m) (vmStackTracker m)
    (Some (Stats.newStatsTracker 5)) (preimageOracle m).

Definition InitDebug (m : VM) : VM :=
  mkVM L (state m) (stdOut m) (stdErr m) (memoryTracker m) (ThreadedStackTrackerImpl ∅)
    (statsTracker m) (preimageOracle m).

Definition set_state (s : State) (m : VM) : VM :=
  mkVM L s (stdOut m) (stdErr m) (memoryTracker m) (vmStackTracker m) (statsTracker m) (preimageOracle m).

Definition upd (f : State -> State) : ST VM unit := modify (fun m => set_state (f (state m)) m).

Definition current : ST VM ThreadState := m ← get; lift (GetCurrentThread (state m)).

Definition stats (f : statsTrackerImpl L -> statsTrackerImpl L) : ST VM unit :=
  modify (fun m => mkVM L (state m) (stdOut m) (stdErr m) (memoryTracker m) (vmStackTracker m)
                     (f <$> statsTracker m) (preimageOracle m)).

Definition stack (f : ThreadedStackTracker -> ThreadedStackTracker) : ST VM unit :=
  modify (fun m => mkVM L (state m) (stdOut m) (stdErr m) (memoryTracker m) (f (vmStackTracker m))
                     (statsTracker m) (preimageOracle m)).

(** Run code of package exec on the current thread, the memory and the
    trackers: what the call passes pointers to. *)
Definition on_core {X} (op : ST (Core (Z * ThreadedStackTracker)) X) : ST VM X := fun m =>
  t ← GetCurrentThread (state m);
  '(x, c) ← op (mkCore (Cpu t) (Registers t) (Mem (state m)) (memoryTracker m)
                  (ThreadId t, vmStackTracker m));
  let t' := mkThread (ThreadId t) (ThreadExitCode t) (ThreadExited t) (cpu c) (registers c) in
  Ok (x, mkVM L (set_current t' (set_Mem (memory c) (state m))) (stdOut m) (stdErr m) (memTracker c)
           (stackTracker c).2 (statsTracker m) (preimageOracle m)).

(** Run an I/O syscall of package exec. *)
Definition on_io {X} (op : ST IO X) : ST VM X :=
  zoom (fun m => mkIO (Mem (state m)) (memoryTracker m) (preimageOracle m) (stdOut m) (stdErr m))
    (fun i m => mkVM L (set_Mem (io_memory i) (state m)) (io_stdOut i) (io_stdErr i) (io_memTracker i)
                  (vmStackTracker m) (statsTracker m) (io_oracle i)) op.

(** [exec.HandleSyscallUpdates(&thread.Cpu, &thread.Registers, v0, v1)]. *)
Definition syscall_updates (v0 v1 : Z) : ST VM unit :=
  thread ← current;
  let '(c, regs) := HandleSyscallUpdates v0 v1 (Cpu thread) (Registers thread) in
  upd (set_current (mkThread (ThreadId thread) (ThreadExitCode thread) (ThreadExited thread) c regs)).

(** *** Scheduling *)

Definition preemptThread (thread : ThreadState) : ST VM bool :=
  m ← get;
  let s := state m in
  (* Pop thread from the current stack and push to the other stack *)
  (if TraverseRight s then
     if zlen (RightThreadStack s) =? 0 then panic "empty right thread stack"
     else upd (set_Stacks (LeftThreadStack s ++ [thread]) (pop (RightThreadStack s)))
   else
     if zlen (LeftThreadStack s) =? 0 then panic "empty left thread stack"
     else upd (set_Stacks (pop (LeftThreadStack s)) (RightThreadStack s ++ [thread]))) ;;
  m ← get;
  let changeDirections := zlen (getActiveThreadStack (state m)) =? 0 in
  (if changeDirections then upd (fun s => set_TraverseRight (negb (TraverseRight s)) s) else mret ()) ;;
  upd (set_StepsSince 0) ;;
  t ← current;
  m ← get;
  stats (Stats.trackThreadActivated (ThreadId t) (MT.Step (state m))) ;;
  mret changeDirections.

Definition pushThread (thread : ThreadState) : ST VM unit :=
  upd (fun s => set_active (getActiveThreadStack s ++ [thread]) s) ;;
  upd (set_StepsSince 0).

Definition popThread : ST VM unit :=
  m ← get;
  (if zlen (getActiveThreadStack (state m)) =? 0 then panic "slice bounds out of range"
   else upd (fun s => set_active (pop (getActiveThreadStack s)) s)) ;;
  m ← get;
  (if zlen (getActiveThreadStack (state m)) =? 0
   then upd (fun s => set_TraverseRight (negb (TraverseRight s)) s) else mret ()) ;;
  upd (set_StepsSince 0).

Definition lastThreadRemaining (s : State) : bool := ThreadCount s =? 1.

Definition syscallYield : ST VM unit :=
  syscall_updates 0 0 ;;
  thread ← current;
  preemptThread thread ;;
  mret ().

(** *** Load-linked / store-conditional *)

Definition clearLLMemoryReservation : ST VM unit := upd (set_LL LLStatusNone 0 0).

Definition handleMemoryUpdate (effMemAddr : Z) : ST VM unit :=
  m ← get;
  if effMemAddr =? AddressMask .& LLAddress (state m) then
    (* Reserved address was modified, clear the reservation *)
    clearLLMemoryReservation ;;
    stats Stats.trackReservationInvalidation
  else mret ().

Definition handleRMWOps (insn opcode : Z) : ST VM unit :=
  thread ← current;
  let baseReg := ushr insn 21 .& 0x1F in
  let base := reg (Registers thread) baseReg in
  let rtReg := ushr insn 16 .& 0x1F in
  let offset := SignExtendImmediate insn in
  let addr := wadd base offset in
  (* Determine some opcode-specific parameters *)
  let is64 := (opcode =? OpLoadLinked64) || (opcode =? OpStoreConditional64) in
  let targetStatus := if is64 then LLStatusActive64bit else LLStatusActive32bit in
  let byteLength := if is64 then 8 else 4 in
  let threadId := ThreadId thread in
  retVal ←
    switch opcode [
      ([OpLoadLinked; OpLoadLinked64],
        retVal ← on_core (LoadSubWord addr byteLength true);
        upd (set_LL targetStatus addr threadId) ;;
        m ← get;
        stats (Stats.trackLL threadId (MT.Step (state m))) ;;
        mret retVal);
      ([OpStoreConditional; OpStoreConditional64],
        m ← get;
        if (LLReservationStatus (state m) =? targetStatus) && (LLOwnerThread (state m) =? threadId)
           && (LLAddress (state m) =? addr)
        then
          (* Complete atomic update: set memory and return 1 for success *)
          clearLLMemoryReservation ;;
          let val := reg (Registers thread) rtReg in
          on_core (StoreSubWord addr byteLength val) ;;
          stats (Stats.trackSCSuccess threadId (MT.Step (state m))) ;;
          mret 1
        else
          (* Atomic update failed, return 0 for failure *)
          stats (Stats.trackSCFailure threadId (MT.Step (state m))) ;;
          mret 0)
    ] (panic "Invalid instruction passed to handleRMWOps");
  on_core (HandleRd rtReg retVal true).

Definition getFutexValue (vAddr : Z) : ST VM Z :=
  subword ← on_core (LoadSubWord vAddr 4 false);
  mret (uint32 subword).

(** *** Syscalls

    A case returns [Some (v0, v1)] to go on with the common register update,
    [None] when it has returned. *)

Definition sys_clone (a0 a1 : Z) : ST VM (option (Z * Z)) :=
  (* a0 = flag bitmask, a1 = stack pointer *)
  if negb (ValidCloneFlags =? a0) then
    upd (set_Exit VMStatusPanic true) ;;
    mret None
  else
    thread ← current;
    m ← get;
    let tid := NextThreadId (state m) in
    let regs := set_reg RegSP a1 (Registers thread) in
    (* the child will perceive a 0 value as returned value instead, and no error *)
    let regs := set_reg RegSyscallRet1 0 regs in
    let regs := set_reg RegSyscallErrno 0 regs in
    let c := Cpu thread in
    let newThread := mkThread tid 0 false (mkCpu (NextPC c) (wadd (NextPC c) 4) (LO c) (HI c)) regs in
    upd (set_NextThreadId (wadd tid 1)) ;;
    (* Preempt this thread for the new one. But not before updating PCs *)
    syscall_updates tid 0 ;;
    pushThread newThread ;;
    (* after pushThread, to track in the context of the new thread *)
    stack (ThreadedStack.PushStack tid (PC c) (NextPC c)) ;;
    mret None.

Definition sys_read (a0 a1 a2 : Z) : ST VM (option (Z * Z)) :=
  m ← get;
  '(v0, v1, newPreimageOffset, memUpdated, memAddr) ←
    on_io (HandleSysRead a0 a1 a2 (PreimageKey (state m)) (PreimageOffset (state m)));
  upd (fun s => set_Preimage (PreimageKey s) newPreimageOffset s) ;;
  (if (memUpdated : bool) then handleMemoryUpdate memAddr else mret ()) ;;
  mret (Some (v0, v1)).

Definition sys_write (a0 a1 a2 : Z) : ST VM (option (Z * Z)) :=
  m ← get;
  '(v0, v1, newLastHint, newPreimageKey, newPreimageOffset) ←
    on_io (HandleSysWrite a0 a1 a2 (LastHint (state m)) (PreimageKey (state m)) (PreimageOffset (state m)));
  upd (fun s => set_Preimage newPreimageKey newPreimageOffset (set_LastHint newLastHint s)) ;;
  mret (Some (v0, v1)).

Definition sys_exit (a0 : Z) : ST VM (option (Z * Z)) :=
  thread ← current;
  upd (set_current (mkThread (ThreadId thread) (wrap 8 a0) true (Cpu thread) (Registers thread))) ;;
  m ← get;
  (if lastThreadRemaining (state m) then upd (set_Exit (wrap 8 a0) true) else mret ()) ;;
  mret None.

Definition sys_futex (a0 a1 a2 : Z) : ST VM (option (Z * Z)) :=
  (* args: a0 = addr, a1 = op, a2 = val, a3 = timeout *)
  let effFutexAddr := a0 .& wnot 0x3 in
  switch a1 [
    ([FutexWaitPrivate],
      futexVal ← getFutexValue effFutexAddr;
      let targetVal := uint32 a2 in
      if negb (futexVal =? targetVal) then mret (Some (SysErrorSignal, MipsEAGAIN))
      else syscallYield ;; mret None);
    ([FutexWakePrivate], syscallYield ;; mret None)
  ] (mret (Some (SysErrorSignal, MipsEINVAL))).

Definition sys_clock_gettime (a0 a1 : Z) : ST VM (option (Z * Z)) :=
  switch a0 [
    ([ClockGettimeRealtimeFlag; ClockGettimeMonotonicFlag],
      m ← get;
      let step := MT.Step (state m) in
      let '(secs, nsecs) :=
        if a0 =? ClockGettimeMonotonicFlag
        then (Word (step / HZ), Word (umul 64 (step mod HZ) (1000000000 / HZ)))
        else (0, 0) in (* realtime set to Unix Epoch *)
      let effAddr := a1 .& AddressMask in
      on_io (io_tracker (TrackMemAccess effAddr)) ;;
      on_io (io_mem (SetWord effAddr secs)) ;;
      handleMemoryUpdate effAddr ;;
      on_io (io_tracker (TrackMemAccess2 (wadd effAddr WordSizeBytes))) ;;
      on_io (io_mem (SetWord (wadd effAddr WordSizeBytes) nsecs)) ;;
      handleMemoryUpdate (wadd effAddr WordSizeBytes) ;;
      mret (Some (0, 0)))
  ] (mret (Some (SysErrorSignal, MipsEINVAL))).

(** The syscalls that do nothing and return 0. *)
Definition noop_syscalls : list Z :=
  [SysMunmap; SysGetAffinity; SysMadvise; SysRtSigprocmask; SysSigaltstack; SysRtSigaction;
   SysPrlimit64; SysClose; SysPread64; SysStat; SysFstat; SysOpenAt; SysReadlink; SysReadlinkAt;
   SysIoctl; SysEpollCreate1; SysPipe2; SysEpollCtl; SysEpollPwait; SysGetRandom; SysUname;
   SysGetuid; SysGetgid; SysMinCore; SysTgkill; SysSetITimer; SysTimerCreate; SysTimerSetTime;
   SysTimerDelete; SysGetRLimit; SysLseek].

Definition handleSyscall : ST VM unit :=
  thread ← current;
  let '(syscallNum, a0, a1, a2) := GetSyscallArgs (Registers thread) in
  res ←
    switch syscallNum [
      ([SysMmap],
        m ← get;
        let '(v0, v1, newHeap) := HandleSysMmap a0 a1 (Heap (state m)) in
        upd (set_Heap newHeap) ;;
        mret (Some (v0, v1)));
      ([SysBrk], mret (Some (ProgramBreak, 0)));
      ([SysClone], sys_clone a0 a1);
      ([SysExitGroup], upd (set_Exit (wrap 8 a0) true) ;; mret None);
      ([SysRead], sys_read a0 a1 a2);
      ([SysWrite], sys_write a0 a1 a2);
      ([SysFcntl], mret (Some (HandleSysFcntl a0 a1)));
      ([SysGetTID], mret (Some (ThreadId thread, 0)));
      ([SysExit], sys_exit a0);
      ([SysFutex], sys_futex a0 a1 a2);
      ([SysSchedYield; SysNanosleep], syscallYield ;; mret None);
      ([SysOpen], mret (Some (SysErrorSignal, MipsEBADF)));
      ([SysClockGetTime], sys_clock_gettime a0 a1);
      ([SysGetpid], mret (Some (0, 0)));
      (noop_syscalls, mret (Some (0, 0)))
    ] (* These syscalls have the same values on 64-bit. *)
      (if IsMips32 && ((syscallNum =? SysFstat64) || (syscallNum =? SysStat64) || (syscallNum =? SysLlseek))
       then mret (Some (0, 0))
       else panic "unrecognized syscall");
  match res with
  | Some (v0, v1) => syscall_updates v0 v1
  | None => mret ()
  end.

(** *** The step *)

Definition doMipsStep : ST VM unit :=
  m ← get;
  if Exited (state m) then mret ()
  else
    upd (fun s => set_Step (uadd 64 (MT.Step s) 1) s) ;;
    thread ← current;
    if ThreadExited thread then
      popThread ;;
      stack (ThreadedStack.DropThread (ThreadId thread))
    else if SchedQuantum <=? StepsSinceLastContextSwitch (state m) then
      (* Force a context switch as this thread has been active too long *)
      preemptThread thread ;;
      stats Stats.trackForcedPreemption
    else
      upd (fun s => set_StepsSince (uadd 64 (StepsSinceLastContextSwitch s) 1) s) ;;
      (* instruction fetch *)
      '(insn, opcode, fun_) ← on_io (io_mem (GetInstructionDetails (PC (Cpu thread))));
      (* Handle syscall separately *)
      if (opcode =? 0) && (fun_ =? 0xC) then handleSyscall
      (* Handle RMW (read-modify-write) ops *)
      else if (opcode =? OpLoadLinked) || (opcode =? OpStoreConditional) then handleRMWOps insn opcode
      else if (opcode =? OpLoadLinked64) || (opcode =? OpStoreConditional64) then
        if IsMips32 then panic "invalid instruction" else handleRMWOps insn opcode
      else
        (* Exec the rest of the step logic *)
        '(memUpdated, effMemAddr) ← on_core (ExecMipsCoreStepLogic insn opcode fun_);
        if (memUpdated : bool) then handleMemoryUpdate effMemAddr else mret ().

Definition assertPostStateChecks : ST VM unit :=
  m ← get;
  if zlen (getActiveThreadStack (state m)) =? 0 then panic "post-state active thread stack is empty"
  else mret ().

Definition mipsStep : ST VM unit :=
  doMipsStep ;;
  assertPostStateChecks.

(** The part of the witness that is taken before the step. *)
Definition pre_witness : ST VM (list Z * hash * list Z) :=
  m ← get;
  threadProof ← lift (EncodeThreadProof (state m));
  pc ← lift (GetPC (state m));
  insnProof ← on_io (io_mem (MerkleProof pc));
  '(encodedWitness, stateHash) ← zoom state set_state EncodeWitness;
  mret (encodedWitness, stateHash, threadProof ++ insnProof).

Definition Step (proof : bool) : ST VM (option StepWitness) :=
  modify (fun m => mkVM L (state m) (stdOut m) (stdErr m) (MemTracker_Reset proof (memoryTracker m))
                     (vmStackTracker m) (statsTracker m) (Oracle_Reset (preimageOracle m))) ;;
  wit ← (if proof then w ← pre_witness; mret (Some w) else mret None);
  mipsStep ;;
  match wit with
  | None => mret None
  | Some (encodedWitness, stateHash, proofData) =>
      m ← get;
      let proofData := proofData ++ memProof (memoryTracker m) ++ memProof2 (memoryTracker m) in
      let o := preimageOracle m in
      if negb (lastPreimageOffset o =? wnot 0)
      then mret (Some (mkStepWitness encodedWitness stateHash proofData
                         (lastPreimageKey o) (lastPreimage o) (lastPreimageOffset o)))
      else mret (Some (mkStepWitness encodedWitness stateHash proofData (replicate 32 0) [] 0))
  end.

End VM.
End MTVM.
