(* ===== verification/Singlethreaded.v ===== *)
(** The single-threaded VM (cannon/mipsevm/singlethreaded): state, witness,
    binary format and step. *)
From Stdlib Require Import ZArith Lia.
From stdpp Require Import base gmap list strings numbers.
From S2P Require Import Prelude Arch Codec Insn Memory Exec Threads Multithreaded.

Module Single.

Record State : Type := mkState {
  Mem : Memory;
  PreimageKey : list Z;
  PreimageOffset : Z;
  SCpu : CpuScalars;
  Heap : Z;
  ExitCode : Z;
  Exited : bool;
  Step : Z;
  SRegisters : list Z;
  LastHint : list Z;
}.

Definition set_Mem (v : Memory) (s : State) : State :=
  mkState v (PreimageKey s) (PreimageOffset s) (SCpu s) (Heap s) (ExitCode s) (Exited s) (Step s)
    (SRegisters s) (LastHint s).
Definition set_Preimage (key : list Z) (off : Z) (s : State) : State :=
  mkState (Mem s) key off (SCpu s) (Heap s) (ExitCode s) (Exited s) (Step s) (SRegisters s) (LastHint s).
Definition set_Cpu (c : CpuScalars) (regs : list Z) (s : State) : State :=
  mkState (Mem s) (PreimageKey s) (PreimageOffset s) c (Heap s) (ExitCode s) (Exited s) (Step s)
    regs (LastHint s).
Definition set_Heap (v : Z) (s : State) : State :=
  mkState (Mem s) (PreimageKey s) (PreimageOffset s) (SCpu s) v (ExitCode s) (Exited s) (Step s)
    (SRegisters s) (LastHint s).
Definition set_Exit (code : Z) (exited : bool) (s : State) : State :=
  mkState (Mem s) (PreimageKey s) (PreimageOffset s) (SCpu s) (Heap s) code exited (Step s)
    (SRegisters s) (LastHint s).
Definition set_Step (v : Z) (s : State) : State :=
  mkState (Mem s) (PreimageKey s) (PreimageOffset s) (SCpu s) (Heap s) (ExitCode s) (Exited s) v
    (SRegisters s) (LastHint s).
Definition set_LastHint (v : list Z) (s : State) : State :=
  mkState (Mem s) (PreimageKey s) (PreimageOffset s) (SCpu s) (Heap s) (ExitCode s) (Exited s) (Step s)
    (SRegisters s) v.

(** ignoring 64-bit STATE_WITNESS_SIZE as it's not supported *)
Definition STATE_WITNESS_SIZE : Z := 226.

Section State.
Context {A : Arch} {K : Keccak}.

Definition CreateEmptyState : State :=
  mkState NewMemory (replicate 32 0) 0 (mkCpu 0 4 0 0) 0 0 false 0 (replicate 32 0) [].

Definition CreateInitialState (pc heapStart : Z) : State :=
  let state := CreateEmptyState in
  set_Heap heapStart (set_Cpu (set_pcs pc (wadd pc 4) (SCpu state)) (SRegisters state) state).

Definition VMStatus (s : State) : Z := VmStatus (Exited s) (ExitCode s).

Definition encode_state (memRoot : hash) (s : State) : list Z :=
  let out := memRoot in
  let out := out ++ PreimageKey s in
  let out := ByteOrder_AppendWord out (PreimageOffset s) in
  let out := ByteOrder_AppendWord out (PC (SCpu s)) in
  let out := ByteOrder_AppendWord out (NextPC (SCpu s)) in
  let out := ByteOrder_AppendWord out (LO (SCpu s)) in
  let out := ByteOrder_AppendWord out (HI (SCpu s)) in
  let out := ByteOrder_AppendWord out (Heap s) in
  let out := out ++ [ExitCode s] in
  let out := AppendBoolToWitness out (Exited s) in
  let out := out ++ be_encode 8 (Step s) in
  fold_left ByteOrder_AppendWord (SRegisters s) out.

Definition stateHashFromWitness (sw : list Z) : outcome hash :=
  if negb (zlen sw =? STATE_WITNESS_SIZE) then Panic "Invalid witness length"
  else
    let hash := keccak256 sw in
    let offset := 32 * 2 + 4 * 6 in
    let exitCode := default 0 (sw !! Z.to_nat offset) in
    let exited := default 0 (sw !! Z.to_nat (offset + 1)) in
    let status := VmStatus (exited =? 1) exitCode in
    Ok (<[0%nat := status]> hash).

(** [StateWitness.StateHash]. *)
Definition StateHash (sw : list Z) : outcome hash :=
  if negb (zlen sw =? STATE_WITNESS_SIZE) then Err "Invalid witness length"
  else stateHashFromWitness sw.

Definition EncodeWitness : ST State (list Z * hash) :=
  memRoot ← zoom Mem set_Mem MerkleRoot;
  s ← get;
  let out := encode_state memRoot s in
  h ← lift (stateHashFromWitness out);
  mret (out, h).

Definition State_Serialize (s : State) : list Z :=
  Memory_Serialize (Mem s) ++
  WriteHash (PreimageKey s) ++
  WriteUInt WordSizeBytes (PreimageOffset s) ++
  WriteUInt WordSizeBytes (PC (SCpu s)) ++
  WriteUInt WordSizeBytes (NextPC (SCpu s)) ++
  WriteUInt WordSizeBytes (LO (SCpu s)) ++
  WriteUInt WordSizeBytes (HI (SCpu s)) ++
  WriteUInt WordSizeBytes (Heap s) ++
  WriteUInt 1 (ExitCode s) ++
  WriteBool (Exited s) ++
  WriteUInt 8 (Step s) ++
  concat (WriteUInt WordSizeBytes <$> SRegisters s) ++
  WriteBytes (LastHint s).

Definition State_Deserialize : ST (list Z) State :=
  mem ← Memory_Deserialize NewMemory;
  key ← ReadHash;
  off ← ReadUInt WordSizeBytes;
  pc ← ReadUInt WordSizeBytes;
  nextPC ← ReadUInt WordSizeBytes;
  lo ← ReadUInt WordSizeBytes;
  hi ← ReadUInt WordSizeBytes;
  heap ← ReadUInt WordSizeBytes;
  exitCode ← ReadUInt 1;
  exited ← ReadBool;
  step ← ReadUInt 8;
  regs ← read_list 32 (ReadUInt WordSizeBytes);
  lastHint ← ReadBytes;
  mret (mkState mem key off (mkCpu pc nextPC lo hi) heap exitCode exited step regs lastHint).

End State.

(** ** The VM (instrumented.go, mips.go) *)

Record InstrumentedState : Type := mkVM {
  state : State;
  stdOut : list Z;
  stdErr : list Z;
  memoryTracker : MemoryTrackerImpl;
  vmStackTracker : TraceableStackTracker;
  preimageOracle : TrackingPreimageOracleReader;
}.

Section VM.
Context {A : Arch} {K : Keccak} {PO : PreimageOracle} {MD : Metadata}.

Abbreviation VM := InstrumentedState.

Definition NewInstrumentedState (s : State) : VM :=
  mkVM s [] [] NewMemoryTracker NoopStackTracker NewTrackingPreimageOracleReader.

Definition InitDebug (m : VM) : VM :=
  mkVM (state m) (stdOut m) (stdErr m) (memoryTracker m) (TrackingStack (mkStack [] [])) (preimageOracle m).

Definition set_state (s : State) (m : VM) : VM :=
  mkVM s (stdOut m) (stdErr m) (memoryTracker m) (vmStackTracker m) (preimageOracle m).

Definition upd (f : State -> State) : ST VM unit := modify (fun m => set_state (f (state m)) m).

Definition on_core {X} (op : ST (Core TraceableStackTracker) X) : ST VM X :=
  zoom (fun m => mkCore (SCpu (state m)) (SRegisters (state m)) (Mem (state m)) (memoryTracker m)
                   (vmStackTracker m))
    (fun c m => mkVM (set_Cpu (cpu c) (registers c) (set_Mem (memory c) (state m))) (stdOut m) (stdErr m)
                  (memTracker c) (stackTracker c) (preimageOracle m)) op.

Definition on_io {X} (op : ST IO X) : ST VM X :=
  zoom (fun m => mkIO (Mem (state m)) (memoryTracker m) (preimageOracle m) (stdOut m) (stdErr m))
    (fun i m => mkVM (set_Mem (io_memory i) (state m)) (io_stdOut i) (io_stdErr i) (io_memTracker i)
                  (vmStackTracker m) (io_oracle i)) op.

Definition syscall_updates (v0 v1 : Z) : ST VM unit :=
  upd (fun s =>
    let '(c, regs) := HandleSyscallUpdates v0 v1 (SCpu s) (SRegisters s) in set_Cpu c regs s).

(** A case returns [Some (v0, v1)] to go on with the register update, [None]
    when it has returned. *)
Definition handleSyscall : ST VM unit :=
  m ← get;
  let '(syscallNum, a0, a1, a2) := GetSyscallArgs (SRegisters (state m)) in
  res ←
    switch syscallNum [
      ([SysMmap],
        let '(v0, v1, newHeap) := HandleSysMmap a0 a1 (Heap (state m)) in
        upd (set_Heap newHeap) ;;
        mret (Some (v0, v1)));
      ([SysBrk], mret (Some (ProgramBreak, 0)));
      ([SysClone], mret (Some (1, 0))); (* clone (not supported) *)
      ([SysExitGroup], upd (set_Exit (wrap 8 a0) true) ;; mret None);
      ([SysRead],
        '(v0, v1, newPreimageOffset, _, _) ←
          on_io (HandleSysRead a0 a1 a2 (PreimageKey (state m)) (PreimageOffset (state m)));
        upd (fun s => set_Preimage (PreimageKey s) newPreimageOffset s) ;;
        mret (Some (v0, v1)));
      ([SysWrite],
        '(v0, v1, newLastHint, newPreimageKey, newPreimageOffset) ←
          on_io (HandleSysWrite a0 a1 a2 (LastHint (state m)) (PreimageKey (state m))
                   (PreimageOffset (state m)));
        upd (fun s => set_Preimage newPreimageKey newPreimageOffset (set_LastHint newLastHint s)) ;;
        mret (Some (v0, v1)));
      ([SysFcntl], mret (Some (HandleSysFcntl a0 a1)))
    ] (mret (Some (0, 0)));
  match res with
  | Some (v0, v1) => syscall_updates v0 v1
  | None => mret ()
  end.

Definition handleRMWOps (insn opcode : Z) : ST VM unit :=
  m ← get;
  let baseReg := ushr insn 21 .& 0x1F in
  let base := reg (SRegisters (state m)) baseReg in
  let rtReg := ushr insn 16 .& 0x1F in
  let offset := SignExtendImmediate insn in
  let effAddr := wadd base offset .& AddressMask in
  on_io (io_tracker (TrackMemAccess effAddr)) ;;
  mem ← on_io (io_mem (GetWord effAddr));
  retVal ←
    (if opcode =? OpLoadLinked then mret mem
     else if opcode =? OpStoreConditional then
       let rt := reg (SRegisters (state m)) rtReg in
       on_io (io_mem (SetWord effAddr rt)) ;;
       mret 1 (* 1 for success *)
     else panic "Invalid instruction passed to handleRMWOps");
  on_core (HandleRd rtReg retVal true).

Definition mipsStep : ST VM unit :=
  m ← get;
  if Exited (state m) then mret ()
  else
    upd (fun s => set_Step (uadd 64 (Step s) 1) s) ;;
    (* instruction fetch *)
    '(insn, opcode, fun_) ← on_io (io_mem (GetInstructionDetails (PC (SCpu (state m)))));
    (* Handle syscall separately *)
    if (opcode =? 0) && (fun_ =? 0xC) then handleSyscall
    (* Handle RMW (read-modify-write) ops *)
    else if (opcode =? OpLoadLinked) || (opcode =? OpStoreConditional) then handleRMWOps insn opcode
    else
      (* Exec the rest of the step logic *)
      on_core (ExecMipsCoreStepLogic insn opcode fun_) ;;
      mret ().

Definition VM_Step (proof : bool) : ST VM (option StepWitness) :=
  modify (fun m => mkVM (state m) (stdOut m) (stdErr m) (MemTracker_Reset proof (memoryTracker m))
                     (vmStackTracker m) (Oracle_Reset (preimageOracle m))) ;;
  wit ←
    (if proof then
       m ← get;
       insnProof ← on_io (io_mem (MerkleProof (PC (SCpu (state m)))));
       '(encodedWitness, stateHash) ← zoom state set_state EncodeWitness;
       mret (Some (encodedWitness, stateHash, insnProof))
     else mret None);
  mipsStep ;;
  match wit with
  | None => mret None
  | Some (encodedWitness, stateHash, proofData) =>
      m ← get;
      let proofData := proofData ++ memProof (memoryTracker m) in
      let o := preimageOracle m in
      if negb (lastPreimageOffset o =? wnot 0)
      then mret (Some (mkStepWitness encodedWitness stateHash proofData
                         (lastPreimageKey o) (lastPreimage o) (lastPreimageOffset o)))
      else mret (Some (mkStepWitness encodedWitness stateHash proofData (replicate 32 0) [] 0))
  end.

End VM.
End Single.
