(* ===== verification/Program.v ===== *)
(** State versions (cannon/mipsevm/versions): the version byte in front of a
    serialized state selects the VM that can run it. *)
From Stdlib Require Import ZArith Lia.
From stdpp Require Import base gmap list strings numbers.
From S2P Require Import Prelude Arch Codec Memory Exec Threads Multithreaded Singlethreaded.

(** ** version.go *)

(** [type StateVersion uint8]: any byte can be read from a file. *)
Definition StateVersion : Type := Z.

Definition VersionSingleThreaded : StateVersion := 0.
Definition VersionMultiThreaded : StateVersion := 1.
Definition VersionSingleThreaded2 : StateVersion := 2.
Definition VersionMultiThreaded64 : StateVersion := 3.
Definition VersionMultiThreaded64_v2 : StateVersion := 4.
Definition VersionMultiThreaded_v2 : StateVersion := 5.
Definition VersionMultiThreaded64_v3 : StateVersion := 6.

Definition StateVersionTypes : list StateVersion :=
  [VersionSingleThreaded; VersionMultiThreaded; VersionSingleThreaded2; VersionMultiThreaded64;
   VersionMultiThreaded64_v2; VersionMultiThreaded_v2; VersionMultiThreaded64_v3].

Definition StateVersion_String (s : StateVersion) : string :=
  switch s [
    ([VersionSingleThreaded], "singlethreaded"%string);
    ([VersionMultiThreaded], "multithreaded"%string);
    ([VersionSingleThreaded2], "singlethreaded-2"%string);
    ([VersionMultiThreaded64], "multithreaded64"%string);
    ([VersionMultiThreaded64_v2], "multithreaded64-2"%string);
    ([VersionMultiThreaded_v2], "multithreaded-2"%string);
    ([VersionMultiThreaded64_v3], "multithreaded64-3"%string)
  ] "unknown"%string.

Definition ParseStateVersion (ver : string) : outcome StateVersion :=
  if String.eqb ver "singlethreaded" then Ok VersionSingleThreaded
  else if String.eqb ver "multithreaded" then Ok VersionMultiThreaded
  else if String.eqb ver "singlethreaded-2" then Ok VersionSingleThreaded2
  else if String.eqb ver "multithreaded64" then Ok VersionMultiThreaded64
  else if String.eqb ver "multithreaded64-2" then Ok VersionMultiThreaded64_v2
  else if String.eqb ver "multithreaded-2" then Ok VersionMultiThreaded_v2
  else if String.eqb ver "multithreaded64-3" then Ok VersionMultiThreaded64_v3
  else Err "unknown state version".

Definition IsValidStateVersion (ver : StateVersion) : bool :=
  existsb (Z.eqb ver) StateVersionTypes.

Definition GetStateVersionStrings : list string := StateVersion_String <$> StateVersionTypes.

Definition GetCurrentMultiThreaded64 : StateVersion := VersionMultiThreaded64_v3.
Definition GetCurrentMultiThreaded : StateVersion := VersionMultiThreaded_v2.
Definition GetCurrentSingleThreaded : StateVersion := VersionSingleThreaded2.

(** ** state.go *)

(** The implementations of the interface [mipsevm.FPVMState]. *)
Inductive FPVMState : Type :=
| Singlethreaded_State (s : Single.State)
| Multithreaded_State (s : MT.State).

Record VersionedState : Type := mkVersioned { Version : StateVersion; VState : FPVMState }.

Definition ErrUnknownVersion : string := "unknown version".
Definition ErrJsonNotSupported : string := "json not supported".
Definition ErrUnsupportedMipsArch : string := "mips architecture is not supported".

Section Versions.
Context {A : Arch} {K : Keccak}.

Definition NewFromState (s : FPVMState) : outcome VersionedState :=
  match s with
  | Singlethreaded_State _ =>
      if negb IsMips32 then Err ErrUnsupportedMipsArch
      else Ok (mkVersioned GetCurrentSingleThreaded s)
  | Multithreaded_State _ =>
      if IsMips32 then Ok (mkVersioned GetCurrentMultiThreaded s)
      else Ok (mkVersioned GetCurrentMultiThreaded64 s)
  end.

Definition FPVMState_Serialize (s : FPVMState) : list Z :=
  match s with
  | Singlethreaded_State s => Single.State_Serialize s
  | Multithreaded_State s => MT.State_Serialize s
  end.

Definition VersionedState_Serialize (s : VersionedState) : list Z :=
  WriteUInt 1 (Version s) ++ FPVMState_Serialize (VState s).

Definition VersionedState_Deserialize : ST (list Z) VersionedState :=
  version ← ReadUInt 1;
  switch version [
    ([GetCurrentSingleThreaded],
      if negb IsMips32 then throw ErrUnsupportedMipsArch
      else state ← Single.State_Deserialize; mret (mkVersioned version (Singlethreaded_State state)));
    ([GetCurrentMultiThreaded],
      if negb IsMips32 then throw ErrUnsupportedMipsArch
      else state ← MT.State_Deserialize; mret (mkVersioned version (Multithreaded_State state)));
    ([GetCurrentMultiThreaded64],
      if IsMips32 then throw ErrUnsupportedMipsArch
      else state ← MT.State_Deserialize; mret (mkVersioned version (Multithreaded_State state)))
  ] (throw ErrUnknownVersion).

(** The guard of [MarshalJSON]; the JSON text itself is not modelled. *)
Definition MarshalJSON_guard (s : VersionedState) : outcome unit :=
  if negb (Version s =? VersionSingleThreaded) then Err ErrJsonNotSupported
  else if negb IsMips32 then Err ErrUnsupportedMipsArch
  else Ok ().

(** ** detect.go *)

(** On the decompressed contents of the file; [isBinary] is the test on its
    name. *)
Definition DetectVersion (isBinary : bool) (contents : list Z) : outcome StateVersion :=
  if negb isBinary then Ok VersionSingleThreaded
  else
    '(ver, _) ← ReadUInt 1 contents;
    if negb (IsValidStateVersion ver) then Err ErrUnknownVersion
    else Ok ver.

End Versions.

(** Program loading (cannon/mipsevm/program): ELF segments, the initial stack,
    the Go runtime patches and the symbol table. *)

(** ** The parts of [debug/elf] and [io] the loader uses *)

Inductive ProgType : Type := PT_LOAD | PT_MIPS_ABIFLAGS | PT_OTHER.

Record Prog : Type := mkProg {
  p_type : ProgType;
  p_Filesz : Z;
  p_Vaddr : Z;
  p_Memsz : Z;
  p_section : Reader; (* io.NewSectionReader(prog, 0, Filesz) *)
}.

Record ElfSymbol : Type := mkElfSymbol { es_Name : string; es_Value : Z; es_Size : Z }.

Record ElfFile : Type := mkElf {
  Entry : Z;
  Progs : list Prog;
  ElfSymbols : outcome (list ElfSymbol); (* f.Symbols() *)
}.

(** [io.MultiReader(r1, r2)]. *)
Definition MultiReader (r1 r2 : Reader) : Reader :=
  match rd_end r1 with
  | Some e => r1
  | None => mkReader (rd_data r1 ++ rd_data r2) (rd_sched r1 ++ rd_sched r2) (rd_end r2) (rd_joint r2)
  end.

(** What the loader needs of a [mipsevm.FPVMState]. *)
Class LoadableState (S : Type) : Type := {
  state_memory : S -> Memory;
  state_set_memory : Memory -> S -> S;
  state_set_register : Z -> Z -> S -> outcome S;
}.

#[export] Instance single_loadable : LoadableState Single.State := {
  state_memory := Single.Mem;
  state_set_memory := Single.set_Mem;
  state_set_register i v s :=
    Ok (Single.set_Cpu (Single.SCpu s) (set_reg i v (Single.SRegisters s)) s);
}.

#[export] Instance mt_loadable {A : Arch} : LoadableState MT.State := {
  state_memory := MT.Mem;
  state_set_memory := MT.set_Mem;
  state_set_register i v s :=
    t ← MT.GetCurrentThread s;
    Ok (MT.set_current (mkThread (ThreadId t) (ThreadExitCode t) (ThreadExited t) (Cpu t)
                          (set_reg i v (Registers t))) s);
}.

(** ** load.go *)

Section Load.
Context {A : Arch} {K : Keccak} {S : Type} {LS : LoadableState S}.

Definition on_mem {X} (op : ST Memory X) : ST S X := zoom state_memory state_set_memory op.

(** The reader of a segment, zero-filled up to its memory size. *)
Definition segment_reader (prog : Prog) : outcome Reader :=
  let r := p_section prog in
  if negb (p_Filesz prog =? p_Memsz prog) then
    match p_type prog with
    | PT_LOAD =>
        if p_Filesz prog <? p_Memsz prog
        then Ok (MultiReader r (bytes_NewReader (replicate (Z.to_nat (p_Memsz prog - p_Filesz prog)) 0)))
        else Err "invalid PT_LOAD program segment"
    | _ => Err "filling for non PT_LOAD segments is not supported"
    end
  else Ok r.

(** One iteration of the loop over the segments. *)
Definition load_segment (prog : Prog) : ST S unit :=
  match p_type prog with
  | PT_MIPS_ABIFLAGS => mret ()
  | _ =>
      r ← lift (segment_reader prog);
      if p_Memsz prog =? 0 then mret () (* Nothing to do *)
      else
        (* Calculate the architecture-specific last valid memory address *)
        let lastMemoryAddr := if IsMips32 then 2 ^ 32 - 1 else 2 ^ 48 - 1 in
        let lastByteToWrite := usub 64 (uadd 64 (p_Vaddr prog) (p_Memsz prog)) 1 in
        if (lastMemoryAddr <? lastByteToWrite) || (lastByteToWrite <? p_Vaddr prog)
        then throw "program out of memory range"
        else if HeapStart <=? lastByteToWrite then throw "program overlaps with heap"
        else on_mem (SetMemoryRange (Word (p_Vaddr prog)) r)
  end.

Definition LoadELF (f : ElfFile) (initState : Z -> Z -> outcome S) : outcome S :=
  s ← initState (Word (Entry f)) HeapStart;
  '(_, s) ← forM (Progs f) load_segment s;
  Ok s.

(** ** patch.go *)

Definition patched_symbols : list string :=
  ["runtime.gcenable"; "runtime.init.5"; "runtime.main.func1"; "runtime.deductSweepCredit";
   "runtime.(*gcControllerState).commit";
   "github.com/prometheus/client_golang/prometheus.init";
   "github.com/prometheus/client_golang/prometheus.init.0";
   "github.com/prometheus/procfs.init";
   "github.com/prometheus/common/model.init";
   "github.com/prometheus/client_model/go.init";
   "github.com/prometheus/client_model/go.init.0";
   "github.com/prometheus/client_model/go.init.1";
   "flag.init";
   "runtime.check"]%string.

Definition PatchGoGC (f : ElfFile) : ST S unit :=
  symbols ← lift (ElfSymbols f);
  forM symbols (fun s =>
    if existsb (String.eqb (es_Name s)) patched_symbols then
      (* 03e00008 = jr $ra = ret (pseudo instruction)
         00000000 = nop (executes with delay-slot, but does nothing) *)
      on_mem (SetMemoryRange (Word (es_Value s)) (bytes_NewReader [0x03; 0xe0; 0x00; 0x08; 0; 0; 0; 0]))
    else mret ()).

(** Adds padding to end at Word alignment. *)
Definition pad (buf : list Z) : list Z :=
  if zlen buf mod WordSizeBytes =? 0 then buf
  else
    let bytesToAlignment := WordSizeBytes - zlen buf mod WordSizeBytes in
    buf ++ replicate (Z.to_nat bytesToAlignment) 0.

(** The bytes of an ASCII string. *)
Fixpoint str_bytes (s : string) : list Z :=
  match s with
  | EmptyString => []
  | String c s => Z.of_N (Ascii.N_of_ascii c) :: str_bytes s
  end.

Definition store_bytes (addr : Z) (bs : list Z) : ST S unit :=
  on_mem (SetMemoryRange addr (bytes_NewReader bs)).

Definition storeMem (addr v : Z) : ST S unit := store_bytes addr (ByteOrder_PutWord v).

Definition randomness : list Z := pad (str_bytes "4;byfairdiceroll").
Definition envar : list Z := pad (str_bytes "GODEBUG=memprofilerate=0" ++ [0]).
Definition programName : list Z := pad (str_bytes "op-program" ++ [0]).

Definition PatchStack : ST S unit :=
  (* setup stack pointer *)
  let sp := HighMemoryStart in
  (* allocate 1 page for the initial stack data, and 16KB = 4 pages for the
     stack to grow *)
  store_bytes (wsub sp (4 * PageSize)) (replicate (Z.to_nat (5 * PageSize)) 0) ;;
  (s ← get; s ← lift (state_set_register RegSP sp s); put s) ;;
  let auxv3Offset := wadd sp (WordSizeBytes * 10) in
  store_bytes auxv3Offset randomness ;;
  let envp0Offset := wadd auxv3Offset (zlen randomness) in
  store_bytes envp0Offset envar ;;
  let argv0Offset := wadd envp0Offset (zlen envar) in
  store_bytes argv0Offset programName ;;
  (* init argc, argv, aux on stack *)
  storeMem (wadd sp (WordSizeBytes * 0)) 1 ;;           (* argc = 1 (argument count) *)
  storeMem (wadd sp (WordSizeBytes * 1)) argv0Offset ;; (* argv[0] *)
  storeMem (wadd sp (WordSizeBytes * 2)) 0 ;;           (* argv[1] = terminating *)
  storeMem (wadd sp (WordSizeBytes * 3)) envp0Offset ;; (* envp[0] = x (offset to first env var) *)
  storeMem (wadd sp (WordSizeBytes * 4)) 0 ;;           (* envp[1] = terminating *)
  storeMem (wadd sp (WordSizeBytes * 5)) 6 ;;           (* auxv[0] = _AT_PAGESZ = 6 (key) *)
  storeMem (wadd sp (WordSizeBytes * 6)) 4096 ;;        (* auxv[1] = page size of 4 KiB (value) *)
  storeMem (wadd sp (WordSizeBytes * 7)) 25 ;;          (* auxv[2] = AT_RANDOM *)
  storeMem (wadd sp (WordSizeBytes * 8)) auxv3Offset ;; (* auxv[3] = address of the random bytes *)
  storeMem (wadd sp (WordSizeBytes * 9)) 0.             (* auxv[term] = 0 *)

End Load.

(** ** metadata.go *)

Record Symbol : Type := mkSymbol { Name : string; Start : Z; Size : Z }.

Module Meta.
Section Meta.
Context {A : Arch}.

(** [sort.Slice] by value, as an insertion sort (the order of symbols with the
    same value is unspecified). *)
Fixpoint insert_sym (s : ElfSymbol) (l : list ElfSymbol) : list ElfSymbol :=
  match l with
  | [] => [s]
  | x :: l' => if es_Value s <? es_Value x then s :: l else x :: insert_sym s l'
  end.

Definition sort_syms (l : list ElfSymbol) : list ElfSymbol := fold_left (fun acc s => insert_sym s acc) l [].

Definition MakeMetadata (f : ElfFile) : outcome (list Symbol) :=
  syms ← ElfSymbols f;
  Ok ((fun s => mkSymbol (es_Name s) (Word (es_Value s)) (Word (es_Size s))) <$> sort_syms syms).

(** [sort.Search(n, f)]: binary search for the smallest index at which [f]
    holds, in [lo, hi); the interval is halved in every round. *)
Fixpoint search (fuel : nat) (f : Z -> bool) (i j : Z) : Z :=
  match fuel with
  | O => i
  | S fuel =>
      if i <? j then
        let h := (i + j) / 2 in
        if negb (f h) then search fuel f (h + 1) j else search fuel f i h
      else i
  end.

Definition sort_Search (n : Z) (f : Z -> bool) : Z := search (S (Z.to_nat n)) f 0 n.

Definition start_at (syms : list Symbol) (i : Z) : Z := from_option Start 0 (syms !! Z.to_nat i).

Definition LookupSymbol (syms : list Symbol) (addr : Z) : string :=
  if zlen syms =? 0 then "!unknown"
  else
    (* find first symbol with higher start. Or n if no such symbol exists *)
    let i := sort_Search (zlen syms) (fun i => addr <? start_at syms i) in
    if i =? 0 then "!start"
    else
      match syms !! Z.to_nat (i - 1) with
      | Some out =>
          if wadd (Start out) (Size out) <? addr (* addr may be pointing to a gap between symbols *)
          then "!gap"
          else Name out
      | None => ""
      end.

Fixpoint CreateSymbolMatcher (syms : list Symbol) (name : string) : Z -> bool :=
  match syms with
  | [] => fun _ => false
  | s :: rest =>
      if String.eqb (Name s) name then
        let start := Start s in
        let end_ := wadd (Start s) (Size s) in
        fun addr => (start <=? addr) && (addr <? end_)
      else CreateSymbolMatcher rest name
  end.

End Meta.
End Meta.
