(* ===== verification/Rollup.v ===== *)
(** The rollup configuration (op-node/rollup/types.go), the network upgrades and
    the constants that change with them (op-node/rollup/chain_spec.go), and the
    block references and system configuration of op-service/eth. Timestamps and
    block numbers are [uint64], chain ids big integers behind a pointer. The
    execution-layer configuration of go-ethereum in a [Config] is left out. *)
From Stdlib Require Import ZArith Lia.
From stdpp Require Import base gmap list strings numbers.
From S2P Require Import Prelude.

(** ** Blocks (op-service/eth/id.go) *)

Record BlockID : Type := mkBlockID {
  b_Hash : hash;
  b_Number : Z;
}.

Record L1BlockRef : Type := mkL1BlockRef {
  l1_Hash : hash;
  l1_Number : Z;
  l1_ParentHash : hash;
  l1_Time : Z;
}.

Record L2BlockRef : Type := mkL2BlockRef {
  l2_Hash : hash;
  l2_Number : Z;
  l2_ParentHash : hash;
  l2_Time : Z;
  L1Origin : BlockID;
  SequenceNumber : Z;
}.

#[export] Instance BlockID_eq_dec : EqDecision BlockID.
Proof. solve_decision. Defined.
#[export] Instance L1BlockRef_eq_dec : EqDecision L1BlockRef.
Proof. solve_decision. Defined.
#[export] Instance L2BlockRef_eq_dec : EqDecision L2BlockRef.
Proof. solve_decision. Defined.

Definition L1BlockRef_ID (id : L1BlockRef) : BlockID := mkBlockID (l1_Hash id) (l1_Number id).
Definition L2BlockRef_ID (id : L2BlockRef) : BlockID := mkBlockID (l2_Hash id) (l2_Number id).

(** Saturates at 0. *)
Definition parent_number (n : Z) : Z := if 0 <? n then usub 64 n 1 else n.

Definition L1BlockRef_ParentID (id : L1BlockRef) : BlockID :=
  mkBlockID (l1_ParentHash id) (parent_number (l1_Number id)).
Definition L2BlockRef_ParentID (id : L2BlockRef) : BlockID :=
  mkBlockID (l2_ParentHash id) (parent_number (l2_Number id)).

(** ** The system configuration (op-service/eth/types.go) *)

Record SystemConfig : Type := mkSystemConfig {
  BatcherAddr : list Z;
  Overhead : list Z;
  Scalar : list Z;
  GasLimit : Z;
  EIP1559Params : list Z;
  OperatorFeeParams_ : list Z;
  MarshalPreHolocene : bool;
}.

Definition L1ScalarBedrock : Z := 0.
Definition L1ScalarEcotone : Z := 1.
Definition ErrBedrockScalarPaddingNotEmpty : string := "version 0 scalar value has non-empty padding".

Record EcotoneScalars : Type := mkEcotoneScalars {
  BlobBaseFeeScalar : Z;
  BaseFeeScalar : Z;
}.

(** Byte [i] of a fixed-size array. *)
Definition byte_at (i : nat) (l : list Z) : Z := default 0 (l !! i).

Definition DecodeScalar (scalar : list Z) : outcome EcotoneScalars :=
  if byte_at 0 scalar =? L1ScalarBedrock
  then Ok (mkEcotoneScalars 0 (be_decode (slice 28 32 scalar)))
  else if byte_at 0 scalar =? L1ScalarEcotone
  then Ok (mkEcotoneScalars (be_decode (slice 24 28 scalar)) (be_decode (slice 28 32 scalar)))
  else Err "unexpected system config scalar".

Definition EncodeScalar (scalars : EcotoneScalars) : list Z :=
  [L1ScalarEcotone] ++ replicate 23 0 ++ be_encode 4 (BlobBaseFeeScalar scalars) ++ be_encode 4 (BaseFeeScalar scalars).

Definition CheckEcotoneL1SystemConfigScalar (scalar : list Z) : outcome unit :=
  if byte_at 0 scalar =? L1ScalarBedrock
  then if bool_decide (slice 1 28 scalar = replicate 27 0) then Ok () else Err ErrBedrockScalarPaddingNotEmpty
  else if byte_at 0 scalar =? L1ScalarEcotone
  then if bool_decide (slice 1 24 scalar = replicate 23 0) then Ok () else Err "invalid version 1 scalar padding"
  else Err "unrecognized scalar version".

Definition SystemConfig_EcotoneScalars (sysCfg : SystemConfig) : outcome EcotoneScalars :=
  match CheckEcotoneL1SystemConfigScalar (Scalar sysCfg) with
  | Ok _ => DecodeScalar (Scalar sysCfg)
  | Err e =>
      if String.eqb e ErrBedrockScalarPaddingNotEmpty
      then Ok (mkEcotoneScalars 0 (2 ^ 32 - 1))
      else Err e
  | Panic e => Panic e
  end.

Record OperatorFeeParams : Type := mkOperatorFeeParams {
  ofp_Scalar : Z;
  ofp_Constant : Z;
}.

Definition DecodeOperatorFeeParams (scalar : list Z) : OperatorFeeParams :=
  mkOperatorFeeParams (be_decode (slice 20 24 scalar)) (be_decode (slice 24 32 scalar)).

Definition OperatorFee (sysCfg : SystemConfig) : OperatorFeeParams :=
  DecodeOperatorFeeParams (OperatorFeeParams_ sysCfg).

Definition EncodeOperatorFeeParams (params : OperatorFeeParams) : list Z :=
  replicate 20 0 ++ be_encode 4 (ofp_Scalar params) ++ be_encode 8 (ofp_Constant params).

(** ** The configuration (types.go) *)

Record Genesis : Type := mkGenesis {
  g_L1 : BlockID;
  g_L2 : BlockID;
  L2Time : Z;
  g_SystemConfig : SystemConfig;
}.

Record AltDAConfig : Type := mkAltDAConfig {
  DAChallengeAddress : list Z;
  CommitmentType : string;
  DAChallengeWindow : Z;
  DAResolveWindow : Z;
}.

(** The zero value of a 32-byte hash and of an address. *)
Definition zero_hash : hash := replicate 32 0.
Definition zero_address : list Z := replicate 20 0.

Record Config : Type := mkConfig {
  Genesis_ : Genesis;
  BlockTime : Z;
  cfg_MaxSequencerDrift : Z;
  SeqWindowSize : Z;
  ChannelTimeoutBedrock : Z;
  L1ChainID : option Z;
  L2ChainID : option Z;
  RegolithTime : option Z;
  CanyonTime : option Z;
  DeltaTime : option Z;
  EcotoneTime : option Z;
  FjordTime : option Z;
  GraniteTime : option Z;
  HoloceneTime : option Z;
  IsthmusTime : option Z;
  JovianTime : option Z;
  InteropTime : option Z;
  BatchInboxAddress : list Z;
  DepositContractAddress : list Z;
  L1SystemConfigAddress : list Z;
  ProtocolVersionsAddress : list Z;
  AltDAConfig_ : option AltDAConfig;
  PectraBlobScheduleTime : option Z;
}.

Implicit Types cfg : Config.

Definition TimestampForBlock cfg (blockNumber : Z) : Z :=
  uadd 64 (L2Time (Genesis_ cfg)) (umul 64 (usub 64 blockNumber (b_Number (g_L2 (Genesis_ cfg)))) (BlockTime cfg)).

(** The division panics if the block time is 0. *)
Definition TargetBlockNumber cfg (timestamp : Z) : outcome Z :=
  let genesisTimestamp := L2Time (Genesis_ cfg) in
  if timestamp <? genesisTimestamp then Err "did not reach genesis time yet"
  else
    let wallClockGenesisDiff := usub 64 timestamp genesisTimestamp in
    if BlockTime cfg =? 0 then Panic "integer divide by zero"
    else
      let blocksSinceGenesis := wallClockGenesisDiff / BlockTime cfg in
      Ok (uadd 64 (b_Number (g_L2 (Genesis_ cfg))) blocksSinceGenesis).

(** *** Network upgrades *)

Inductive ForkName : Set :=
| Bedrock | Regolith | Canyon | Delta | Ecotone | Fjord | Granite | Holocene | Isthmus | Jovian | Interop
| None_
| NoForkName.

#[export] Instance ForkName_eq_dec : EqDecision ForkName.
Proof. solve_decision. Defined.

Definition AllForks : list ForkName :=
  [Bedrock; Regolith; Canyon; Delta; Ecotone; Fjord; Granite; Holocene; Isthmus; Jovian; Interop].

Fixpoint forks_from (fork : ForkName) (forks : list ForkName) : outcome (list ForkName) :=
  match forks with
  | [] => Panic "invalid fork"
  | f :: rest => if decide (f = fork) then Ok forks else forks_from fork rest
  end.

Definition ForksFrom (fork : ForkName) : outcome (list ForkName) := forks_from fork AllForks.

(** The map [nextFork]. *)
Fixpoint next_of (fork : ForkName) (forks : list ForkName) : option ForkName :=
  match forks with
  | [] => None
  | [f] => if decide (f = fork) then Some None_ else None
  | f :: ((g :: _) as rest) => if decide (f = fork) then Some g else next_of fork rest
  end.

Definition nextFork (fork : ForkName) : option ForkName := next_of fork AllForks.

Definition IsValidFork (fork : ForkName) : bool := match nextFork fork with Some _ => true | None => false end.

(** Active if the time is set and reached. *)
Definition active (t : option Z) (timestamp : Z) : bool :=
  match t with Some a => a <=? timestamp | None => false end.

Definition IsRegolith cfg := active (RegolithTime cfg).
Definition IsCanyon cfg := active (CanyonTime cfg).
Definition IsDelta cfg := active (DeltaTime cfg).
Definition IsEcotone cfg := active (EcotoneTime cfg).
Definition IsFjord cfg := active (FjordTime cfg).
Definition IsGranite cfg := active (GraniteTime cfg).
Definition IsHolocene cfg := active (HoloceneTime cfg).
Definition IsIsthmus cfg := active (IsthmusTime cfg).
Definition IsJovian cfg := active (JovianTime cfg).
Definition IsInterop cfg := active (InteropTime cfg).

Definition activation_block cfg (is_fork : Z -> bool) (l2BlockTime : Z) : bool :=
  is_fork l2BlockTime && (BlockTime cfg <=? l2BlockTime) && negb (is_fork (usub 64 l2BlockTime (BlockTime cfg))).

Definition IsRegolithActivationBlock cfg := activation_block cfg (IsRegolith cfg).
Definition IsCanyonActivationBlock cfg := activation_block cfg (IsCanyon cfg).
Definition IsDeltaActivationBlock cfg := activation_block cfg (IsDelta cfg).
Definition IsEcotoneActivationBlock cfg := activation_block cfg (IsEcotone cfg).
Definition IsFjordActivationBlock cfg := activation_block cfg (IsFjord cfg).
Definition IsGraniteActivationBlock cfg := activation_block cfg (IsGranite cfg).
Definition IsHoloceneActivationBlock cfg := activation_block cfg (IsHolocene cfg).
Definition IsIsthmusActivationBlock cfg := activation_block cfg (IsIsthmus cfg).
Definition IsJovianActivationBlock cfg := activation_block cfg (IsJovian cfg).
Definition IsInteropActivationBlock cfg := activation_block cfg (IsInterop cfg).

Definition IsActivationBlock cfg (oldTime newTime : Z) : ForkName :=
  if IsHolocene cfg newTime && negb (IsHolocene cfg oldTime) then Holocene else NoForkName.

(** *** Checks *)

Definition checkFork (a b : option Z) (aName bName : ForkName) : outcome unit :=
  match a, b with
  | None, None => Ok ()
  | None, Some _ => Err "fork set, but prior fork missing"
  | Some _, None => Ok ()
  | Some a, Some b => if b <? a then Err "prior fork has higher offset" else Ok ()
  end.

(** [altda.KeccakCommitmentString] and [altda.GenericCommitmentString]. *)
Definition KeccakCommitmentString : string := "KeccakCommitment".
Definition GenericCommitmentString : string := "GenericCommitment".

Definition validateAltDAConfig cfg : outcome unit :=
  match AltDAConfig_ cfg with
  | None => Ok ()
  | Some a =>
      if negb (String.eqb (CommitmentType a) KeccakCommitmentString || String.eqb (CommitmentType a) GenericCommitmentString)
      then Err "invalid commitment type"
      else if String.eqb (CommitmentType a) KeccakCommitmentString && bool_decide (DAChallengeAddress a = zero_address)
      then Err "Must set da_challenge_contract_address for keccak commitments"
      else if String.eqb (CommitmentType a) GenericCommitmentString && bool_decide (DAChallengeAddress a <> zero_address)
      then Err "Must set empty da_challenge_contract_address for generic commitments"
      else Ok ()
  end.

Definition require (b : bool) (e : string) : outcome unit := if b then Ok () else Err e.

(** The ids are compared after the checks that they are not nil. *)
Definition check_chain_ids cfg : outcome unit :=
  match L1ChainID cfg, L2ChainID cfg with
  | None, _ => Err "L1 chain ID must not be nil"
  | _, None => Err "L2 chain ID must not be nil"
  | Some l1, Some l2 =>
      _ ← require (negb (l1 =? l2)) "L1 and L2 chain IDs must be different";
      _ ← require (1 <=? Z.sgn l1) "L1 chain ID must be non-zero and positive";
      require (1 <=? Z.sgn l2) "L2 chain ID must be non-zero and positive"
  end.

Definition check_forks cfg : outcome unit :=
  _ ← checkFork (RegolithTime cfg) (CanyonTime cfg) Regolith Canyon;
  _ ← checkFork (CanyonTime cfg) (DeltaTime cfg) Canyon Delta;
  _ ← checkFork (DeltaTime cfg) (EcotoneTime cfg) Delta Ecotone;
  _ ← checkFork (EcotoneTime cfg) (FjordTime cfg) Ecotone Fjord;
  _ ← checkFork (FjordTime cfg) (GraniteTime cfg) Fjord Granite;
  _ ← checkFork (GraniteTime cfg) (HoloceneTime cfg) Granite Holocene;
  checkFork (HoloceneTime cfg) (IsthmusTime cfg) Holocene Isthmus.

Definition Check cfg : outcome unit :=
  let g := Genesis_ cfg in
  _ ← require (negb (BlockTime cfg =? 0)) "block time cannot be 0";
  _ ← require (negb (ChannelTimeoutBedrock cfg =? 0)) "channel timeout must be set, this should cover at least a L1 block time";
  _ ← require (2 <=? SeqWindowSize cfg) "sequencing window size must at least be 2";
  _ ← require (negb (cfg_MaxSequencerDrift cfg =? 0)) "maximum sequencer drift must be greater than 0";
  _ ← require (bool_decide (b_Hash (g_L1 g) <> zero_hash)) "genesis L1 hash cannot be empty";
  _ ← require (bool_decide (b_Hash (g_L2 g) <> zero_hash)) "genesis L2 hash cannot be empty";
  _ ← require (bool_decide (b_Hash (g_L2 g) <> b_Hash (g_L1 g))) "achievement get! rollup inception: L1 and L2 genesis cannot be the same";
  _ ← require (negb (L2Time g =? 0)) "missing L2 genesis time";
  _ ← require (bool_decide (BatcherAddr (g_SystemConfig g) <> zero_address)) "missing genesis system config batcher address";
  _ ← require (bool_decide (Scalar (g_SystemConfig g) <> zero_hash)) "missing genesis system config scalar";
  _ ← require (negb (GasLimit (g_SystemConfig g) =? 0)) "missing genesis system config gas limit";
  _ ← require (bool_decide (BatchInboxAddress cfg <> zero_address)) "missing batch inbox address";
  _ ← require (bool_decide (DepositContractAddress cfg <> zero_address)) "missing deposit contract address";
  _ ← check_chain_ids cfg;
  _ ← validateAltDAConfig cfg;
  check_forks cfg.

(** *** Activation at genesis *)

(** [c.RegolithTime = new(uint64)] up to [c.InteropTime = new(uint64)]. *)
Definition set_forks (r c d e f g h i j o : option Z -> option Z) cfg : Config :=
  mkConfig (Genesis_ cfg) (BlockTime cfg) (cfg_MaxSequencerDrift cfg) (SeqWindowSize cfg) (ChannelTimeoutBedrock cfg)
    (L1ChainID cfg) (L2ChainID cfg) (r (RegolithTime cfg)) (c (CanyonTime cfg)) (d (DeltaTime cfg))
    (e (EcotoneTime cfg)) (f (FjordTime cfg)) (g (GraniteTime cfg)) (h (HoloceneTime cfg)) (i (IsthmusTime cfg))
    (j (JovianTime cfg)) (o (InteropTime cfg)) (BatchInboxAddress cfg) (DepositContractAddress cfg)
    (L1SystemConfigAddress cfg) (ProtocolVersionsAddress cfg) (AltDAConfig_ cfg) (PectraBlobScheduleTime cfg).

(** The switch falls through from the newest fork to the oldest one. *)
Definition ActivateAtGenesis (hardfork : ForkName) cfg : Config :=
  let now (_ : option Z) := Some 0 in
  match hardfork with
  | Interop => set_forks now now now now now now now now now now cfg
  | Jovian => set_forks now now now now now now now now now id cfg
  | Isthmus => set_forks now now now now now now now now id id cfg
  | Holocene => set_forks now now now now now now now id id id cfg
  | Granite => set_forks now now now now now now id id id id cfg
  | Fjord => set_forks now now now now now id id id id id cfg
  | Ecotone => set_forks now now now now id id id id id id cfg
  | Delta => set_forks now now now id id id id id id id cfg
  | Canyon => set_forks now now id id id id id id id id cfg
  | Regolith => set_forks now id id id id id id id id id cfg
  | Bedrock | None_ | NoForkName => cfg
  end.

(** *** Engine API methods *)

Inductive EngineAPIMethod : Set :=
| FCUV1 | FCUV2 | FCUV3
| NewPayloadV2 | NewPayloadV3 | NewPayloadV4
| GetPayloadV2 | GetPayloadV3 | GetPayloadV4.

(** The argument is the timestamp of the attributes, if there are any. *)
Definition ForkchoiceUpdatedVersion cfg (attr : option Z) : EngineAPIMethod :=
  match attr with
  | None => FCUV3
  | Some ts => if IsEcotone cfg ts then FCUV3 else if IsCanyon cfg ts then FCUV2 else FCUV1
  end.

Definition NewPayloadVersion cfg (timestamp : Z) : EngineAPIMethod :=
  if IsIsthmus cfg timestamp then NewPayloadV4 else if IsEcotone cfg timestamp then NewPayloadV3 else NewPayloadV2.

Definition GetPayloadVersion cfg (timestamp : Z) : EngineAPIMethod :=
  if IsIsthmus cfg timestamp then GetPayloadV4 else if IsEcotone cfg timestamp then GetPayloadV3 else GetPayloadV2.

Definition HasOptimismWithdrawalsRoot cfg (timestamp : Z) : bool := IsIsthmus cfg timestamp.

Definition AltDAEnabled cfg : bool := match AltDAConfig_ cfg with Some _ => true | None => false end.

Definition SyncLookback cfg : Z :=
  match AltDAConfig_ cfg with
  | Some a =>
      let win := uadd 64 (DAChallengeWindow a) (DAResolveWindow a) in
      if SeqWindowSize cfg <? win then win else SeqWindowSize cfg
  | None => SeqWindowSize cfg
  end.

(** ** The chain specification (chain_spec.go) *)

Definition maxChannelBankSizeBedrock : Z := 100000000.
Definition maxChannelBankSizeFjord : Z := 1000000000.
Definition maxRLPBytesPerChannelBedrock : Z := 10000000.
Definition maxRLPBytesPerChannelFjord : Z := 100000000.
Definition maxSequencerDriftFjord : Z := 1800.
Definition ChannelTimeoutGranite : Z := 50.

(** A [ChainSpec] is its configuration, and the fork it has seen last, which only
    [CheckForkActivation] uses. *)
Record ChainSpec : Type := mkChainSpec {
  spec_config : Config;
  currentFork : ForkName;
}.

Implicit Types s : ChainSpec.

Definition NewChainSpec cfg : ChainSpec := mkChainSpec cfg NoForkName.

Definition MaxChannelBankSize s (t : Z) : Z :=
  if IsFjord (spec_config s) t then maxChannelBankSizeFjord else maxChannelBankSizeBedrock.

Definition ChannelTimeout s (t : Z) : Z :=
  if IsGranite (spec_config s) t then ChannelTimeoutGranite else ChannelTimeoutBedrock (spec_config s).

Definition MaxRLPBytesPerChannel s (t : Z) : Z :=
  if IsFjord (spec_config s) t then maxRLPBytesPerChannelFjord else maxRLPBytesPerChannelBedrock.

Definition IsFeatMaxSequencerDriftConstant s (t : Z) : bool := IsFjord (spec_config s) t.

Definition MaxSequencerDrift s (t : Z) : Z :=
  if IsFeatMaxSequencerDriftConstant s t then maxSequencerDriftFjord else cfg_MaxSequencerDrift (spec_config s).

(** The first call finds the newest active fork, later ones look for the
    activation block of the next fork. *)
Definition latest_fork cfg (t : Z) : ForkName :=
  let step (is_fork : Config -> Z -> bool) (f cur : ForkName) := if is_fork cfg t then f else cur in
  step IsInterop Interop (step IsJovian Jovian (step IsIsthmus Isthmus (step IsHolocene Holocene
    (step IsGranite Granite (step IsFjord Fjord (step IsEcotone Ecotone (step IsDelta Delta
    (step IsCanyon Canyon (step IsRegolith Regolith Bedrock))))))))).

Definition fork_activation cfg (f : option ForkName) (t : Z) : bool :=
  match f with
  | Some Regolith => IsRegolithActivationBlock cfg t
  | Some Canyon => IsCanyonActivationBlock cfg t
  | Some Delta => IsDeltaActivationBlock cfg t
  | Some Ecotone => IsEcotoneActivationBlock cfg t
  | Some Fjord => IsFjordActivationBlock cfg t
  | Some Granite => IsGraniteActivationBlock cfg t
  | Some Holocene => IsHoloceneActivationBlock cfg t
  | Some Isthmus => IsIsthmusActivationBlock cfg t
  | Some Jovian => IsJovianActivationBlock cfg t
  | Some Interop => IsInteropActivationBlock cfg t
  | _ => false
  end.

Definition CheckForkActivation (block : L2BlockRef) s : ChainSpec :=
  if decide (currentFork s = Interop) then s
  else if decide (currentFork s = NoForkName)
  then mkChainSpec (spec_config s) (latest_fork (spec_config s) (l2_Time block))
  else if fork_activation (spec_config s) (nextFork (currentFork s)) (l2_Time block)
  then mkChainSpec (spec_config s) (default NoForkName (nextFork (currentFork s)))
  else s.
