(* ===== verification/Frames.v ===== *)
(** Frames (op-node/rollup/derive/frame.go, params.go) and the frame queue
    (frame_queue.go), the first stages of the derivation pipeline. A stage keeps
    its state when it returns an error, and an error is the text of the
    sentinel error it wraps. *)
From Stdlib Require Import ZArith Lia.
From stdpp Require Import base gmap list strings numbers.
From S2P Require Import Prelude Codec Rollup.

(** ** Stages *)

Definition stage (S A : Type) : Type := S -> outcome A * S.

#[export] Instance stage_ret S : MRet (stage S) := fun A a s => (Ok a, s).

#[export] Instance stage_bind S : MBind (stage S) := fun A B f m s =>
  match m s with
  | (Ok a, s) => f a s
  | (Err e, s) => (Err e, s)
  | (Panic e, s) => (Panic e, s)
  end.

(** The text of [io.EOF], [io.ErrUnexpectedEOF] and of the errors of error.go. *)
Definition EOF : string := "EOF".
Definition UnexpectedEOF : string := "unexpected EOF".
Definition NotEnoughData : string := "not enough data".
Definition NewTemporaryError (e : string) : string := "temp: " +:+ e.
Definition NewResetError (e : string) : string := "reset: " +:+ e.
Definition NewCriticalError (e : string) : string := "crit: " +:+ e.

(** ** Frames (frame.go) *)

Definition MaxFrameLen : Z := 1000000.
Definition ChannelIDLength : Z := 16.
Definition DerivationVersion0 : Z := 0.

(** A channel id is its 16 bytes. *)
Abbreviation ChannelID := (list Z).

Record Frame : Type := mkFrame {
  f_ID : ChannelID;
  FrameNumber : Z;
  f_Data : list Z;
  IsLast : bool;
}.

#[export] Instance Frame_eq_dec : EqDecision Frame.
Proof. solve_decision. Defined.

(** The bytes written to a writer that does not fail. *)
Definition MarshalBinary (f : Frame) : list Z :=
  f_ID f ++ be_encode 2 (FrameNumber f) ++ be_encode 4 (wrap 32 (zlen (f_Data f))) ++ f_Data f ++
  (if IsLast f then [1] else [0]).

(** [eofAsUnexpectedMissing] applied to the error of a read. *)
Definition eofAsUnexpectedMissing {A} (m : ST (list Z) A) : ST (list Z) A := fun s =>
  match m s with
  | Err e => Err (if String.eqb e EOF then UnexpectedEOF else e)
  | r => r
  end.

(** [ReadByte] of a buffer. *)
Definition ReadByte : ST (list Z) Z := fun inp =>
  match inp with
  | [] => Err EOF
  | b :: inp => Ok (b, inp)
  end.

Definition UnmarshalBinary : ST (list Z) Frame :=
  id ← ReadFull ChannelIDLength;
  frameNumber ← eofAsUnexpectedMissing (ReadUInt 2);
  frameLength ← eofAsUnexpectedMissing (ReadUInt 4);
  if MaxFrameLen <? frameLength then throw "frame_data_length is too large"
  else
    data ← eofAsUnexpectedMissing (ReadFull frameLength);
    isLastByte ← eofAsUnexpectedMissing ReadByte;
    if isLastByte =? 0 then mret (mkFrame id frameNumber data false)
    else if isLastByte =? 1 then mret (mkFrame id frameNumber data true)
    else throw "invalid byte as is_last".

(** Every frame takes at least 23 bytes, so the length of the buffer bounds the loop. *)
Fixpoint parse_frames (fuel : nat) (frames : list Frame) : ST (list Z) (list Frame) := fun buf =>
  match buf with
  | [] => Ok (frames, buf)
  | _ =>
      match fuel with
      | O => Panic "out of fuel"
      | S fuel =>
          match UnmarshalBinary buf with
          | Ok (f, buf) => parse_frames fuel (frames ++ [f]) buf
          | Err e => Err e
          | Panic e => Panic e
          end
      end
  end.

Definition ParseFrames (data : list Z) : outcome (list Frame) :=
  match data with
  | [] => Err "data array must not be empty"
  | version :: rest =>
      if negb (version =? DerivationVersion0) then Err "invalid derivation format byte"
      else
        '(frames, buf) ← parse_frames (length rest) [] rest;
        if negb (zlen buf =? 0) then Err "did not fully consume data"
        else if zlen frames =? 0 then Err "was not able to find any frames"
        else Ok frames
  end.

(** ** The frame queue (frame_queue.go) *)

(** One round of the loop of [pruneFrameQueue] at the cursor [i], with the
    current and the next frame: the queue and the cursor after it. *)
Definition discard (frames : list Frame) (i d : nat) : list Frame :=
  take (i + d) frames ++ drop (i + 1 + d) frames.

Definition prune_step (frames : list Frame) (i : nat) (current next : Frame) : list Frame * nat :=
  if decide (f_ID current = f_ID next) then
    if IsLast current then (discard frames i 1, i)
    else if negb (FrameNumber next =? uadd 16 (FrameNumber current) 1) then (discard frames i 1, i)
    else (frames, (i + 1)%nat)
  else if (FrameNumber next =? 0) && negb (IsLast current) then (discard frames i 0, if (0 <? i)%nat then (i - 1)%nat else i)
  else if negb (FrameNumber next =? 0) then (discard frames i 1, i)
  else (frames, (i + 1)%nat).

(** A round removes a frame and moves the cursor back by at most one, or moves
    it forward, so twice the length of the queue bounds the loop. *)
Fixpoint prune_loop (fuel : nat) (frames : list Frame) (i : nat) : list Frame :=
  match frames !! i, frames !! (i + 1)%nat with
  | Some current, Some next =>
      match fuel with
      | O => []
      | S fuel => let '(frames, i) := prune_step frames i current next in prune_loop fuel frames i
      end
  | _, _ => frames
  end.

Definition pruneFrameQueue (frames : list Frame) : list Frame := prune_loop (2 * length frames) frames 0.

(** What the stage before promises: data of the transactions of the current L1
    block, and that block. *)
Class NextDataProvider (P : Type) : Type := {
  NextData : stage P (list Z);
  data_Origin : P -> L1BlockRef;
}.

(** What the frame queue promises to the channel stages. *)
Class NextFrameProvider (P : Type) : Type := {
  NextFrame : stage P Frame;
  frame_Origin : P -> L1BlockRef;
}.

Section FrameQueue.
Context {P : Type} {DP : NextDataProvider P}.

Record FrameQueue : Type := mkFrameQueue {
  frames : list Frame;
  fq_prev : P;
  fq_cfg : Config;
}.

Implicit Types fq : FrameQueue.

Definition NewFrameQueue (cfg : Config) (prev : P) : FrameQueue := mkFrameQueue [] prev cfg.

Definition set_frames (l : list Frame) fq : FrameQueue := mkFrameQueue l (fq_prev fq) (fq_cfg fq).

Definition fq_reset fq : FrameQueue := set_frames [] fq.

Definition fq_Transform (f : ForkName) fq : FrameQueue :=
  match f with
  | Holocene => fq_reset fq
  | _ => fq
  end.

Definition fq_Origin fq : L1BlockRef := data_Origin (fq_prev fq).

Definition loadNextFrames : stage FrameQueue unit := fun fq =>
  match NextData (fq_prev fq) with
  | (Ok data, prev) =>
      let fq := mkFrameQueue (frames fq) prev (fq_cfg fq) in
      match ParseFrames data with
      | Ok new =>
          let fq := set_frames (frames fq ++ new) fq in
          if IsHolocene (fq_cfg fq) (l1_Time (fq_Origin fq))
          then (Ok (), set_frames (pruneFrameQueue (frames fq)) fq)
          else (Ok (), fq)
      | Err _ => (Ok (), fq)
      | Panic e => (Panic e, fq)
      end
  | (Err e, prev) => (Err e, mkFrameQueue (frames fq) prev (fq_cfg fq))
  | (Panic e, prev) => (Panic e, mkFrameQueue (frames fq) prev (fq_cfg fq))
  end.

Definition fq_NextFrame : stage FrameQueue Frame := fun fq =>
  let load := if zlen (frames fq) =? 0 then loadNextFrames fq else (Ok (), fq) in
  match load with
  | (Ok _, fq) =>
      match frames fq with
      | [] => (Err NotEnoughData, fq)
      | ret :: rest => (Ok ret, set_frames rest fq)
      end
  | (Err e, fq) => (Err e, fq)
  | (Panic e, fq) => (Panic e, fq)
  end.

Definition fq_Reset : stage FrameQueue unit := fun fq => (Err EOF, fq_reset fq).

#[export] Instance FrameQueue_provider : NextFrameProvider FrameQueue := {|
  NextFrame := fq_NextFrame;
  frame_Origin := fq_Origin;
|}.

End FrameQueue.

Arguments FrameQueue P : clear implicits.
