(* ===== verification/Channels.v ===== *)
(** Channels (op-node/rollup/derive/channel.go), the channel bank that holds
    them before Holocene (channel_bank.go), the channel assembler that replaces
    it (channel_assembler.go), and the stage that selects one (channel_mux.go).
    Metrics and logging are dropped. *)
From Stdlib Require Import ZArith Lia.
From stdpp Require Import base gmap list strings numbers.
From S2P Require Import Prelude Rollup Frames.

(** ** Channels *)

Definition frameOverhead : Z := 200.

Definition frameSize (frame : Frame) : Z := uadd 64 (zlen (f_Data frame)) frameOverhead.

Definition DuplicateErr : string := "duplicate frame".

Record Channel : Type := mkChannel {
  ch_id : ChannelID;
  openBlock : L1BlockRef;
  requireInOrder : bool;
  ch_size : Z;
  closed : bool;
  highestFrameNumber : Z;
  endFrameNumber : Z;
  inputs : gmap Z Frame;
  highestL1InclusionBlock : L1BlockRef;
}.

(** The zero value of a block reference. *)
Definition L1BlockRef0 : L1BlockRef := mkL1BlockRef zero_hash 0 zero_hash 0.

Definition NewChannel (id : ChannelID) (openBlock : L1BlockRef) (requireInOrder : bool) : Channel :=
  mkChannel id openBlock requireInOrder 0 false 0 0 ∅ L1BlockRef0.

Implicit Types ch : Channel.

(** The scan over the saved frames when the closing frame arrives: frames from
    its number on are deleted, and the size of every saved frame is subtracted. *)
Definition prune_inputs (endNumber : Z) (ins : gmap Z Frame) (sz : Z) : gmap Z Frame * Z :=
  (filter (fun p => p.1 < endNumber) ins, map_fold (fun _ f sz => usub 64 sz (frameSize f)) sz ins).

Definition AddFrame (frame : Frame) (l1InclusionBlock : L1BlockRef) ch : outcome Channel :=
  if decide (f_ID frame <> ch_id ch) then Err "frame id does not match channel id"
  else if IsLast frame && closed ch then Err "cannot add ending frame to a closed channel"
  else if decide (is_Some (inputs ch !! FrameNumber frame)) then Err DuplicateErr
  else if closed ch && (endFrameNumber ch <=? FrameNumber frame)
  then Err "frame number is greater than or equal to end frame number of a closed channel"
  else if requireInOrder ch && negb (FrameNumber frame =? Z.of_nat (size (inputs ch))) then Err "frame out of order"
  else
    let endNumber := if IsLast frame then FrameNumber frame else endFrameNumber ch in
    let closed := if IsLast frame then true else closed ch in
    let '(ins, sz, highest) :=
      if IsLast frame && (endNumber <? highestFrameNumber ch)
      then let '(ins, sz) := prune_inputs endNumber (inputs ch) (ch_size ch) in (ins, sz, endNumber)
      else (inputs ch, ch_size ch, highestFrameNumber ch) in
    let highest := if highest <? FrameNumber frame then FrameNumber frame else highest in
    let block := if l1_Number (highestL1InclusionBlock ch) <? l1_Number l1InclusionBlock
                 then l1InclusionBlock else highestL1InclusionBlock ch in
    Ok (mkChannel (ch_id ch) (openBlock ch) (requireInOrder ch) (uadd 64 sz (frameSize frame)) closed highest endNumber
          (<[FrameNumber frame := frame]> ins) block).

Definition OpenBlockNumber ch : Z := l1_Number (openBlock ch).
Definition HighestBlock ch : L1BlockRef := highestL1InclusionBlock ch.
Definition Size ch : Z := ch_size ch.
Definition ch_ID ch : ChannelID := ch_id ch.

(** The frame numbers the loops of [IsReady] and [Reader] go through. *)
Definition frame_numbers ch : list Z := Z.of_nat <$> seq 0 (Z.to_nat (endFrameNumber ch) + 1).

Definition IsReady ch : bool :=
  closed ch && (Z.of_nat (size (inputs ch)) =? endFrameNumber ch + 1) &&
  forallb (fun i => bool_decide (is_Some (inputs ch !! i))) (frame_numbers ch).

(** All bytes of the multi-reader, as [io.ReadAll] reads them. *)
Fixpoint read_frames ch (l : list Z) : outcome (list Z) :=
  match l with
  | [] => Ok []
  | i :: l =>
      match inputs ch !! i with
      | None => Panic "dev error in channel.Reader. Must be called after the channel is ready."
      | Some frame => rest ← read_frames ch l; Ok (f_Data frame ++ rest)
      end
  end.

Definition Reader ch : outcome (list Z) := read_frames ch (frame_numbers ch).

(** ** The channel bank *)

Section ChannelBank.
Context {P : Type} {FP : NextFrameProvider P}.

Record ChannelBank : Type := mkChannelBank {
  cb_spec : ChainSpec;
  channels : gmap ChannelID Channel;
  channelQueue : list ChannelID;
  cb_prev : P;
}.

Implicit Types cb : ChannelBank.

Definition NewChannelBank (spec : ChainSpec) (prev : P) : ChannelBank := mkChannelBank spec ∅ [] prev.

Definition cb_Origin cb : L1BlockRef := frame_Origin (cb_prev cb).

Definition set_channels (cs : gmap ChannelID Channel) (q : list ChannelID) cb : ChannelBank :=
  mkChannelBank (cb_spec cb) cs q (cb_prev cb).

(** The channel has been open for too long at [origin]. *)
Definition timed_out (spec : ChainSpec) (origin : L1BlockRef) ch : bool :=
  uadd 64 (OpenBlockNumber ch) (ChannelTimeout spec (l1_Time origin)) <? l1_Number origin.

Definition total_size (cs : gmap ChannelID Channel) : Z := map_fold (fun _ ch sz => uadd 64 sz (ch_size ch)) 0 cs.

(** The loop takes a channel from the queue in every round. *)
Fixpoint prune_channels (limit : Z) (queue : list ChannelID) (cs : gmap ChannelID Channel) (totalSize : Z)
    : outcome (list ChannelID * gmap ChannelID Channel) :=
  if limit <? totalSize then
    match queue with
    | [] => Panic "index out of range"
    | id :: queue =>
        match cs !! id with
        | None => Panic "nil pointer dereference"
        | Some ch => prune_channels limit queue (delete id cs) (usub 64 totalSize (ch_size ch))
        end
    end
  else Ok (queue, cs).

Definition cb_prune cb : outcome ChannelBank :=
  '(q, cs) ← prune_channels (MaxChannelBankSize (cb_spec cb) (l1_Time (cb_Origin cb))) (channelQueue cb)
    (channels cb) (total_size (channels cb));
  Ok (set_channels cs q cb).

Definition IngestFrame (f : Frame) cb : outcome ChannelBank :=
  let origin := cb_Origin cb in
  let '(currentCh, cb) :=
    match channels cb !! f_ID f with
    | Some ch => (ch, cb)
    | None =>
        let ch := NewChannel (f_ID f) origin false in
        (ch, set_channels (<[f_ID f := ch]> (channels cb)) (channelQueue cb ++ [f_ID f]) cb)
    end in
  if timed_out (cb_spec cb) origin currentCh then Ok cb
  else
    match AddFrame f origin currentCh with
    | Ok ch => cb_prune (set_channels (<[f_ID f := ch]> (channels cb)) (channelQueue cb) cb)
    | _ => Ok cb
    end.

Definition tryReadChannelAtIndex (i : nat) : stage ChannelBank (list Z) := fun cb =>
  match channelQueue cb !! i with
  | None => (Panic "index out of range", cb)
  | Some chanID =>
      match channels cb !! chanID with
      | None => (Panic "nil pointer dereference", cb)
      | Some ch =>
          if timed_out (cb_spec cb) (cb_Origin cb) ch || negb (IsReady ch) then (Err EOF, cb)
          else
            let q := take i (channelQueue cb) ++ drop (i + 1) (channelQueue cb) in
            (Reader ch, set_channels (delete chanID (channels cb)) q cb)
      end
  end.

(** The queue from [i] on, for the first channel that can be read. *)
Fixpoint try_read_from (n : nat) (i : nat) : stage ChannelBank (list Z) := fun cb =>
  match n with
  | O => (Err EOF, cb)
  | S n =>
      match tryReadChannelAtIndex i cb with
      | (Ok data, cb) => (Ok data, cb)
      | (Panic e, cb) => (Panic e, cb)
      | (Err _, cb) => try_read_from n (i + 1) cb
      end
  end.

Definition cb_Read : stage ChannelBank (list Z) := fun cb =>
  match channelQueue cb with
  | [] => (Err EOF, cb)
  | first :: rest =>
      match channels cb !! first with
      | None => (Panic "nil pointer dereference", cb)
      | Some ch =>
          if timed_out (cb_spec cb) (cb_Origin cb) ch
          then (Ok [], set_channels (delete first (channels cb)) rest cb)
          else if negb (IsCanyon (spec_config (cb_spec cb)) (l1_Time (cb_Origin cb))) then tryReadChannelAtIndex 0 cb
          else try_read_from (length (channelQueue cb)) 0 cb
      end
  end.

Definition cb_NextRawChannel : stage ChannelBank (list Z) := fun cb =>
  match cb_Read cb with
  | (Ok data, cb) => (Ok data, cb)
  | (Panic e, cb) => (Panic e, cb)
  | (Err e, cb) =>
      if negb (String.eqb e EOF) then (Err e, cb)
      else
        match NextFrame (cb_prev cb) with
        | (Ok frame, prev) =>
            let cb := mkChannelBank (cb_spec cb) (channels cb) (channelQueue cb) prev in
            match IngestFrame frame cb with
            | Ok cb => (Err NotEnoughData, cb)
            | Err e => (Err e, cb)
            | Panic e => (Panic e, cb)
            end
        | (Err e, prev) => (Err e, mkChannelBank (cb_spec cb) (channels cb) (channelQueue cb) prev)
        | (Panic e, prev) => (Panic e, mkChannelBank (cb_spec cb) (channels cb) (channelQueue cb) prev)
        end
  end.

Definition cb_Reset : stage ChannelBank unit := fun cb => (Err EOF, set_channels ∅ [] cb).

Definition cb_FlushChannel : stage ChannelBank unit := fun cb => (Panic "ChannelBank: invalid FlushChannel call", cb).

(** ** The channel assembler *)

Record ChannelAssembler : Type := mkChannelAssembler {
  ca_spec : ChainSpec;
  channel : option Channel;
  ca_prev : P;
}.

Implicit Types ca : ChannelAssembler.

Definition NewChannelAssembler (spec : ChainSpec) (prev : P) : ChannelAssembler := mkChannelAssembler spec None prev.

Definition ca_Origin ca : L1BlockRef := frame_Origin (ca_prev ca).

Definition set_channel (c : option Channel) ca : ChannelAssembler := mkChannelAssembler (ca_spec ca) c (ca_prev ca).

Definition resetChannel ca : ChannelAssembler := set_channel None ca.

Definition ca_Reset : stage ChannelAssembler unit := fun ca => (Err EOF, resetChannel ca).

Definition ca_FlushChannel : stage ChannelAssembler unit := fun ca => (Ok (), resetChannel ca).

Definition channelTimedOut ca : bool :=
  match channel ca with
  | Some ch => timed_out (ca_spec ca) (ca_Origin ca) ch
  | None => false
  end.

(** One frame of the loop: whether a channel was completed. [origin] is the
    origin when the call began. *)
Definition ingest_frame (origin : L1BlockRef) (frame : Frame) ca : bool * ChannelAssembler :=
  let ca := if FrameNumber frame =? 0 then set_channel (Some (NewChannel (f_ID frame) origin true)) ca else ca in
  match channel ca with
  | None => (false, ca)
  | Some ch =>
      match AddFrame frame origin ch with
      | Ok ch =>
          let ca := set_channel (Some ch) ca in
          if MaxRLPBytesPerChannel (ca_spec ca) (l1_Time (ca_Origin ca)) <? Size ch then (false, resetChannel ca)
          else (IsLast frame, ca)
      | _ => (false, ca)
      end
  end.

(** The loop ends when a channel is complete or the frame queue returns an
    error. [fuel] bounds the number of frames that are read. *)
Fixpoint ingest_frames (fuel : nat) (origin : L1BlockRef) : stage ChannelAssembler unit := fun ca =>
  match fuel with
  | O => (Panic "out of fuel", ca)
  | S fuel =>
      match NextFrame (ca_prev ca) with
      | (Ok frame, prev) =>
          let '(complete, ca) := ingest_frame origin frame (mkChannelAssembler (ca_spec ca) (channel ca) prev) in
          if complete : bool then (Ok (), ca) else ingest_frames fuel origin ca
      | (Err e, prev) => (Err e, mkChannelAssembler (ca_spec ca) (channel ca) prev)
      | (Panic e, prev) => (Panic e, mkChannelAssembler (ca_spec ca) (channel ca) prev)
      end
  end.

Definition ca_NextRawChannel (fuel : nat) : stage ChannelAssembler (list Z) := fun ca =>
  let ca := if channelTimedOut ca then resetChannel ca else ca in
  let origin := ca_Origin ca in
  if match channel ca with Some ch => IsReady ch | None => false end
  then (Err (NewCriticalError "unexpected ready channel"), ca)
  else
    match ingest_frames fuel origin ca with
    | (Ok _, ca) =>
        match channel ca with
        | Some ch =>
            if IsReady ch then (Reader ch, resetChannel ca)
            else (Err (NewCriticalError "unexpected non-ready channel"), ca)
        | None => (Err (NewCriticalError "unexpected non-ready channel"), ca)
        end
    | (Err e, ca) => (Err e, ca)
    | (Panic e, ca) => (Panic e, ca)
    end.

(** ** The channel stage *)

Inductive RawChannelProvider : Type :=
| NoProvider
| Bank (cb : ChannelBank)
| Assembler (ca : ChannelAssembler).

Record ChannelMux : Type := mkChannelMux {
  mux_spec : ChainSpec;
  provider_ : RawChannelProvider;
}.

Definition NewChannelMux (spec : ChainSpec) : ChannelMux := mkChannelMux spec NoProvider.

(** The active stage after [Reset] for the L1 block [base]; [prev] is the frame
    queue, which the stages share. *)
Definition mux_Reset (prev : P) (base : L1BlockRef) : stage ChannelMux unit := fun c =>
  if IsHolocene (spec_config (mux_spec c)) (l1_Time base) then
    let ca := match provider_ c with Assembler ca => ca | _ => NewChannelAssembler (mux_spec c) prev end in
    let '(r, ca) := ca_Reset ca in (r, mkChannelMux (mux_spec c) (Assembler ca))
  else
    let cb := match provider_ c with Bank cb => cb | _ => NewChannelBank (mux_spec c) prev end in
    let '(r, cb) := cb_Reset cb in (r, mkChannelMux (mux_spec c) (Bank cb)).

Definition TransformHolocene : stage ChannelMux unit := fun c =>
  match provider_ c with
  | Bank cb => (Ok (), mkChannelMux (mux_spec c) (Assembler (NewChannelAssembler (mux_spec c) (cb_prev cb))))
  | Assembler _ => (Panic "Holocene ChannelAssembler already active", c)
  | NoProvider => (Panic "unknown channel stage type", c)
  end.

Definition mux_Transform (f : ForkName) : stage ChannelMux unit := fun c =>
  match f with
  | Holocene => TransformHolocene c
  | _ => (Ok (), c)
  end.

End ChannelBank.

Arguments ChannelBank P : clear implicits.
Arguments ChannelAssembler P : clear implicits.
