(* ===== verification/L1Info.v ===== *)
(** The first transaction of every L2 block (op-node/rollup/derive/l1_block_info.go)
    tells the chain about its L1 origin: the information, its three binary
    formats in the ABI words of op-service/solabi, the deposit that carries it,
    and reading it back from a block (payload_util.go, l2block_util.go). *)
From Stdlib Require Import ZArith Lia.
From stdpp Require Import base gmap list strings numbers.
From S2P Require Import Prelude Codec Rollup Frames.

(** ** ABI words (op-service/solabi/util.go) *)

Module Solabi.

Definition addressEmptyPadding : list Z := replicate 12 0.
Definition uint64EmptyPadding : list Z := replicate 24 0.

Definition ReadAndValidateSignature (expectedSignature : list Z) : ST (list Z) (list Z) :=
  sig ← ReadFull 4;
  if decide (sig = expectedSignature) then mret sig else throw "invalid function signature".

Definition ReadHash : ST (list Z) hash := ReadFull 32.
Definition ReadEthBytes32 : ST (list Z) (list Z) := ReadFull 32.

Definition ReadAddress : ST (list Z) (list Z) :=
  readPadding ← ReadFull 12;
  if decide (readPadding = addressEmptyPadding) then ReadFull 20 else throw "address padding was not empty".

(** The error of the second read is replaced. *)
Definition replace_error {A} (e : string) (m : ST (list Z) A) : ST (list Z) A := fun s =>
  match m s with
  | Err _ => Err e
  | r => r
  end.

Definition ReadUint64 : ST (list Z) Z :=
  readPadding ← ReadFull 24;
  if decide (readPadding = uint64EmptyPadding)
  then replace_error "expected number length to be 8 bytes" (ReadUInt 8)
  else throw "number padding was not empty".

Definition ReadUint256 : ST (list Z) Z := ReadUInt 32.

Definition EmptyReader (r : list Z) : bool := match r with [] => true | _ => false end.

(** The bytes written. The big integer is behind a pointer, [FillBytes] writes its
    absolute value. *)
Definition WriteSignature (sig : list Z) : list Z := sig.
Definition WriteHash (h : hash) : list Z := h.
Definition WriteEthBytes32 (b : list Z) : list Z := b.
Definition WriteAddress (a : list Z) : list Z := addressEmptyPadding ++ a.

Definition WriteUint256 (n : option Z) : outcome (list Z) :=
  match n with
  | None => Panic "nil pointer dereference"
  | Some n => if 2 ^ 256 <=? Z.abs n then Err "big int exceeds 256 bits" else Ok (be_encode 32 (Z.abs n))
  end.

Definition WriteUint64 (n : Z) : list Z := uint64EmptyPadding ++ be_encode 8 n.

End Solabi.

(** ** Information about the L1 origin *)

(** The bytes of an ASCII string. *)
Fixpoint string_bytes (s : string) : list Z :=
  match s with
  | EmptyString => []
  | String c s => Z.of_N (Ascii.N_of_ascii c) :: string_bytes s
  end.

Definition L1InfoFuncBedrockSignature : string :=
  "setL1BlockValues(uint64,uint64,uint256,bytes32,uint64,bytes32,uint256,uint256)".
Definition L1InfoFuncEcotoneSignature : string := "setL1BlockValuesEcotone()".
Definition L1InfoFuncIsthmusSignature : string := "setL1BlockValuesIsthmus()".
Definition L1InfoArguments : Z := 8.
Definition L1InfoBedrockLen : Z := 4 + 32 * L1InfoArguments.
Definition L1InfoEcotoneLen : Z := 4 + 32 * 5.
Definition L1InfoIsthmusLen : Z := 4 + 32 * 5 + 4 + 8.
Definition ErrInvalidFormat : string := "invalid ecotone l1 block info format".
Definition ErrInvalidIsthmusFormat : string := "invalid isthmus l1 block info format".
Definition RegolithSystemTxGas : Z := 1000000.

Record L1BlockInfo : Type := mkL1BlockInfo {
  info_Number : Z;
  info_Time : Z;
  info_BaseFee : option Z;
  info_BlockHash : hash;
  info_SequenceNumber : Z;
  info_BatcherAddr : list Z;
  info_L1FeeOverhead : list Z;
  info_L1FeeScalar : list Z;
  info_BlobBaseFee : option Z;
  info_BaseFeeScalar : Z;
  info_BlobBaseFeeScalar : Z;
  info_OperatorFeeScalar : Z;
  info_OperatorFeeConstant : Z;
}.

(** What is used of [eth.BlockInfo]. *)
Record BlockInfo : Type := mkBlockInfo {
  bi_Hash : hash;
  bi_ParentHash : hash;
  bi_NumberU64 : Z;
  bi_Time : Z;
  bi_MixDigest : hash;
  bi_BaseFee : option Z;
  bi_BlobBaseFee : option Z;
  bi_ExcessBlobGas : option Z;
  bi_ParentBeaconRoot : option hash;
}.

(** [types.DepositTx]. *)
Record DepositTx : Type := mkDepositTx {
  dt_SourceHash : hash;
  dt_From : list Z;
  dt_To : option (list Z);
  dt_Mint : option Z;
  dt_Value : Z;
  dt_Gas : Z;
  dt_IsSystemTransaction : bool;
  dt_Data : list Z;
}.

Definition DepositTxType : Z := 126.
Definition SetCodeTxType : Z := 4.

(** What the code uses of go-ethereum: the blob base fee for an excess of blob gas
    before Prague, transactions in their binary form (a transaction is read as
    its type and data) and the extra data of Holocene. *)
Class Geth : Type := {
  CalcBlobFee : Z -> Z;
  tx_MarshalBinary : DepositTx -> outcome (list Z);
  tx_UnmarshalBinary : list Z -> outcome (Z * list Z);
  ValidateHoloceneExtraData : list Z -> outcome unit;
  DecodeHoloceneExtraData : list Z -> Z * Z;
  EncodeHolocene1559Params : Z * Z -> list Z;
}.

(** What it relies on: a deposit that is written is read back with its type and
    data, and its first byte is its type (EIP-2718). *)
Class GethLaws (G : Geth) : Prop := {
  deposit_read : forall dep bs, tx_MarshalBinary dep = Ok bs -> tx_UnmarshalBinary bs = Ok (DepositTxType, dt_Data dep);
  deposit_type : forall dep bs, tx_MarshalBinary dep = Ok bs -> exists payload, bs = DepositTxType :: payload;
}.

Section L1Info.
Context {K : Keccak} {G : Geth}.

Definition selector (sig : string) : list Z := take 4 (keccak256 (string_bytes sig)).

Definition L1InfoFuncBedrockBytes4 : list Z := selector L1InfoFuncBedrockSignature.
Definition L1InfoFuncEcotoneBytes4 : list Z := selector L1InfoFuncEcotoneSignature.
Definition L1InfoFuncIsthmusBytes4 : list Z := selector L1InfoFuncIsthmusSignature.

(** [common.HexToAddress] of the constants. *)
Definition L1InfoDepositerAddress : list Z := be_encode 20 0xdeaddeaddeaddeaddeaddeaddeaddeaddead0001.
Definition L1BlockAddress : list Z := be_encode 20 0x4200000000000000000000000000000000000015.

Implicit Types info : L1BlockInfo.

Definition marshalBinaryBedrock info : outcome (list Z) :=
  baseFee ← Solabi.WriteUint256 (info_BaseFee info);
  Ok (Solabi.WriteSignature L1InfoFuncBedrockBytes4 ++ Solabi.WriteUint64 (info_Number info) ++
      Solabi.WriteUint64 (info_Time info) ++ baseFee ++ Solabi.WriteHash (info_BlockHash info) ++
      Solabi.WriteUint64 (info_SequenceNumber info) ++ Solabi.WriteAddress (info_BatcherAddr info) ++
      Solabi.WriteEthBytes32 (info_L1FeeOverhead info) ++ Solabi.WriteEthBytes32 (info_L1FeeScalar info)).

(** [!solabi.EmptyReader(r)] after the last field. *)
Definition expect_end {A} (m : ST (list Z) A) (data : list Z) : outcome A :=
  '(a, rest) ← m data;
  if Solabi.EmptyReader rest then Ok a else Err "too many bytes".

Definition read_bedrock : ST (list Z) L1BlockInfo :=
  _ ← Solabi.ReadAndValidateSignature L1InfoFuncBedrockBytes4;
  number ← Solabi.ReadUint64;
  time ← Solabi.ReadUint64;
  baseFee ← Solabi.ReadUint256;
  blockHash ← Solabi.ReadHash;
  sequenceNumber ← Solabi.ReadUint64;
  batcherAddr ← Solabi.ReadAddress;
  overhead ← Solabi.ReadEthBytes32;
  scalar ← Solabi.ReadEthBytes32;
  mret (mkL1BlockInfo number time (Some baseFee) blockHash sequenceNumber batcherAddr overhead scalar None 0 0 0 0).

Definition unmarshalBinaryBedrock (data : list Z) : outcome L1BlockInfo :=
  if negb (zlen data =? L1InfoBedrockLen) then Err "data is unexpected length" else expect_end read_bedrock data.

(** The fields the two later formats share, behind the signature. *)
Definition marshal_packed info : outcome (list Z) :=
  baseFee ← Solabi.WriteUint256 (info_BaseFee info);
  blobBaseFee ← Solabi.WriteUint256 (Some (default 1 (info_BlobBaseFee info)));
  Ok (be_encode 4 (info_BaseFeeScalar info) ++ be_encode 4 (info_BlobBaseFeeScalar info) ++
      be_encode 8 (info_SequenceNumber info) ++ be_encode 8 (info_Time info) ++ be_encode 8 (info_Number info) ++
      baseFee ++ blobBaseFee ++ Solabi.WriteHash (info_BlockHash info) ++ Solabi.WriteAddress (info_BatcherAddr info)).

Definition marshalBinaryEcotone info : outcome (list Z) :=
  fields ← marshal_packed info;
  Ok (Solabi.WriteSignature L1InfoFuncEcotoneBytes4 ++ fields).

Definition read_packed (signature : list Z) (format : string) : ST (list Z) L1BlockInfo :=
  _ ← Solabi.ReadAndValidateSignature signature;
  baseFeeScalar ← Solabi.replace_error format (ReadUInt 4);
  blobBaseFeeScalar ← Solabi.replace_error format (ReadUInt 4);
  sequenceNumber ← Solabi.replace_error format (ReadUInt 8);
  time ← Solabi.replace_error format (ReadUInt 8);
  number ← Solabi.replace_error format (ReadUInt 8);
  baseFee ← Solabi.ReadUint256;
  blobBaseFee ← Solabi.ReadUint256;
  blockHash ← Solabi.ReadHash;
  batcherAddr ← Solabi.ReadAddress;
  mret (mkL1BlockInfo number time (Some baseFee) blockHash sequenceNumber batcherAddr zero_hash zero_hash
          (Some blobBaseFee) baseFeeScalar blobBaseFeeScalar 0 0).

Definition unmarshalBinaryEcotone (data : list Z) : outcome L1BlockInfo :=
  if negb (zlen data =? L1InfoEcotoneLen) then Err "data is unexpected length"
  else expect_end (read_packed L1InfoFuncEcotoneBytes4 ErrInvalidFormat) data.

Definition marshalBinaryWithSignature info (signature : list Z) : outcome (list Z) :=
  fields ← marshal_packed info;
  Ok (Solabi.WriteSignature signature ++ fields ++ be_encode 4 (info_OperatorFeeScalar info) ++
      be_encode 8 (info_OperatorFeeConstant info)).

Definition marshalBinaryIsthmus info : outcome (list Z) := marshalBinaryWithSignature info L1InfoFuncIsthmusBytes4.

Definition set_operator_fee (scalar constant : Z) info : L1BlockInfo :=
  mkL1BlockInfo (info_Number info) (info_Time info) (info_BaseFee info) (info_BlockHash info) (info_SequenceNumber info)
    (info_BatcherAddr info) (info_L1FeeOverhead info) (info_L1FeeScalar info) (info_BlobBaseFee info)
    (info_BaseFeeScalar info) (info_BlobBaseFeeScalar info) scalar constant.

Definition read_isthmus (signature : list Z) : ST (list Z) L1BlockInfo :=
  info ← read_packed signature ErrInvalidIsthmusFormat;
  scalar ← Solabi.replace_error ErrInvalidIsthmusFormat (ReadUInt 4);
  constant ← Solabi.replace_error ErrInvalidIsthmusFormat (ReadUInt 8);
  mret (set_operator_fee scalar constant info).

Definition unmarshalBinaryWithSignatureAndData (signature data : list Z) : outcome L1BlockInfo :=
  if negb (zlen data =? L1InfoIsthmusLen) then Err "data is unexpected length"
  else expect_end (read_isthmus signature) data.

Definition unmarshalBinaryIsthmus (data : list Z) : outcome L1BlockInfo :=
  unmarshalBinaryWithSignatureAndData L1InfoFuncIsthmusBytes4 data.

Definition isEcotoneButNotFirstBlock (cfg : Config) (l2Timestamp : Z) : bool :=
  IsEcotone cfg l2Timestamp && negb (IsEcotoneActivationBlock cfg l2Timestamp).
Definition isIsthmusButNotFirstBlock (cfg : Config) (l2Timestamp : Z) : bool :=
  IsIsthmus cfg l2Timestamp && negb (IsIsthmusActivationBlock cfg l2Timestamp).

Definition L1BlockInfoFromBytes (cfg : Config) (l2BlockTime : Z) (data : list Z) : outcome L1BlockInfo :=
  if isIsthmusButNotFirstBlock cfg l2BlockTime then unmarshalBinaryIsthmus data
  else if isEcotoneButNotFirstBlock cfg l2BlockTime then unmarshalBinaryEcotone data
  else unmarshalBinaryBedrock data.

(** ** The deposit *)

(** Two words: a hash or zeros, and a number in the last 8 bytes. *)
Definition source_input (first : list Z) (second : list Z) : list Z := first ++ second.
Definition uint64_word (n : Z) : list Z := replicate 24 0 ++ be_encode 8 n.

Definition UserDepositSourceDomain : Z := 0.
Definition L1InfoDepositSourceDomain : Z := 1.
Definition UpgradeDepositSourceDomain : Z := 2.
Definition AfterForceIncludeSourceDomain : Z := 3.
Definition InvalidatedBlockSourceDomain : Z := 4.

Definition UserDepositSource_SourceHash (l1BlockHash : hash) (logIndex : Z) : hash :=
  let depositIDHash := keccak256 (source_input l1BlockHash (uint64_word logIndex)) in
  keccak256 (source_input (uint64_word UserDepositSourceDomain) depositIDHash).

Definition L1InfoDepositSource_SourceHash (l1BlockHash : hash) (seqNumber : Z) : hash :=
  let depositIDHash := keccak256 (source_input l1BlockHash (uint64_word seqNumber)) in
  keccak256 (source_input (uint64_word L1InfoDepositSourceDomain) depositIDHash).

Definition UpgradeDepositSource_SourceHash (intent : string) : hash :=
  let intentHash := keccak256 (string_bytes intent) in
  keccak256 (source_input (uint64_word UpgradeDepositSourceDomain) intentHash).

Definition AfterForceIncludeSource_SourceHash (l1BlockHash : hash) (seqNumber : Z) : hash :=
  let depositIDHash := keccak256 (source_input l1BlockHash (uint64_word seqNumber)) in
  keccak256 (source_input (uint64_word AfterForceIncludeSourceDomain) depositIDHash).

Definition InvalidatedBlockSource_SourceHash (outputRoot : hash) : hash :=
  keccak256 (source_input (uint64_word InvalidatedBlockSourceDomain) outputRoot).

(** The blob base fee that goes into the deposit: that of the block, of Cancun
    before the Pectra schedule, or the minimum. *)
Definition CalcBlobFeeCancun (excessBlobGas : Z) : Z := CalcBlobFee excessBlobGas.

Definition blob_base_fee (cfg : Config) (block : BlockInfo) : Z :=
  let fee :=
    match PectraBlobScheduleTime cfg with
    | Some t =>
        if bi_Time block <? t
        then match bi_ExcessBlobGas block with Some ebg => Some (CalcBlobFeeCancun ebg) | None => None end
        else bi_BlobBaseFee block
    | None => bi_BlobBaseFee block
    end in
  default 1 fee.

(** The information of a block and its bytes. *)
Definition l1_info (cfg : Config) (sysCfg : SystemConfig) (seqNumber : Z) (block : BlockInfo) (l2Timestamp : Z)
    : outcome L1BlockInfo :=
  let info overhead scalar blobBaseFee baseFeeScalar blobBaseFeeScalar :=
    mkL1BlockInfo (bi_NumberU64 block) (bi_Time block) (bi_BaseFee block) (bi_Hash block) seqNumber (BatcherAddr sysCfg)
      overhead scalar blobBaseFee baseFeeScalar blobBaseFeeScalar 0 0 in
  if isEcotoneButNotFirstBlock cfg l2Timestamp then
    scalars ← SystemConfig_EcotoneScalars sysCfg;
    let i := info zero_hash zero_hash (Some (blob_base_fee cfg block)) (BaseFeeScalar scalars) (BlobBaseFeeScalar scalars) in
    if isIsthmusButNotFirstBlock cfg l2Timestamp
    then Ok (set_operator_fee (ofp_Scalar (OperatorFee sysCfg)) (ofp_Constant (OperatorFee sysCfg)) i)
    else Ok i
  else Ok (info (Overhead sysCfg) (Scalar sysCfg) None 0 0).

Definition marshal_info (cfg : Config) (l2Timestamp : Z) info : outcome (list Z) :=
  if isEcotoneButNotFirstBlock cfg l2Timestamp then
    if isIsthmusButNotFirstBlock cfg l2Timestamp then marshalBinaryIsthmus info else marshalBinaryEcotone info
  else marshalBinaryBedrock info.

Definition L1InfoDeposit (cfg : Config) (sysCfg : SystemConfig) (seqNumber : Z) (block : BlockInfo) (l2Timestamp : Z)
    : outcome DepositTx :=
  info ← l1_info cfg sysCfg seqNumber block l2Timestamp;
  data ← marshal_info cfg l2Timestamp info;
  let regolith := IsRegolith cfg l2Timestamp in
  Ok (mkDepositTx (L1InfoDepositSource_SourceHash (bi_Hash block) seqNumber) L1InfoDepositerAddress (Some L1BlockAddress)
        None 0 (if regolith then RegolithSystemTxGas else 150000000) (negb regolith) data).

Definition L1InfoDepositBytes (cfg : Config) (sysCfg : SystemConfig) (seqNumber : Z) (l1Info : BlockInfo) (l2Timestamp : Z)
    : outcome (list Z) :=
  dep ← L1InfoDeposit cfg sysCfg seqNumber l1Info l2Timestamp;
  tx_MarshalBinary dep.

(** ** Reading it back *)

(** What is used of [eth.ExecutionPayload]. *)
Record ExecutionPayload : Type := mkExecutionPayload {
  ep_ParentHash : hash;
  ep_BlockNumber : Z;
  ep_GasLimit : Z;
  ep_Timestamp : Z;
  ep_ExtraData : list Z;
  ep_BlockHash : hash;
  ep_Transactions : list (list Z);
}.

(** The information in the first transaction of a block. *)
Definition payload_info (cfg : Config) (payload : ExecutionPayload) : outcome L1BlockInfo :=
  match ep_Transactions payload with
  | [] => Err "l2 block is missing L1 info deposit tx"
  | tx :: _ =>
      '(typ, data) ← tx_UnmarshalBinary tx;
      if negb (typ =? DepositTxType) then Err "first payload tx has unexpected tx type"
      else L1BlockInfoFromBytes cfg (ep_Timestamp payload) data
  end.

Definition PayloadToBlockRef (cfg : Config) (payload : ExecutionPayload) : outcome L2BlockRef :=
  let genesis := Genesis_ cfg in
  '(l1Origin, sequenceNumber) ←
    (if ep_BlockNumber payload =? b_Number (g_L2 genesis)
     then if decide (ep_BlockHash payload <> b_Hash (g_L2 genesis))
          then Err "expected L2 genesis hash to match L2 block at genesis block number"
          else Ok (g_L1 genesis, 0)
     else info ← payload_info cfg payload;
          Ok (mkBlockID (info_BlockHash info) (info_Number info), info_SequenceNumber info));
  Ok (mkL2BlockRef (ep_BlockHash payload) (ep_BlockNumber payload) (ep_ParentHash payload) (ep_Timestamp payload)
        l1Origin sequenceNumber).

Definition PayloadToSystemConfig (cfg : Config) (payload : ExecutionPayload) : outcome SystemConfig :=
  if ep_BlockNumber payload =? b_Number (g_L2 (Genesis_ cfg)) then
    if decide (ep_BlockHash payload <> b_Hash (g_L2 (Genesis_ cfg)))
    then Err "expected L2 genesis hash to match L2 block at genesis block number"
    else Ok (g_SystemConfig (Genesis_ cfg))
  else
    info ← payload_info cfg payload;
    let scalar :=
      if isEcotoneButNotFirstBlock cfg (ep_Timestamp payload)
      then splice 28 (be_encode 4 (info_BaseFeeScalar info))
             (splice 24 (be_encode 4 (info_BlobBaseFeeScalar info)) (splice 0 [1] (info_L1FeeScalar info)))
      else info_L1FeeScalar info in
    eip1559 ←
      (if IsHolocene cfg (ep_Timestamp payload)
       then _ ← ValidateHoloceneExtraData (ep_ExtraData payload);
            Ok (splice 0 (take 8 (EncodeHolocene1559Params (DecodeHoloceneExtraData (ep_ExtraData payload)))) (replicate 8 0))
       else Ok (replicate 8 0));
    let operator :=
      if IsIsthmus cfg (ep_Timestamp payload)
      then EncodeOperatorFeeParams (mkOperatorFeeParams (info_OperatorFeeScalar info) (info_OperatorFeeConstant info))
      else zero_hash in
    Ok (mkSystemConfig (info_BatcherAddr info) (info_L1FeeOverhead info) scalar (ep_GasLimit payload) eip1559 operator false).

(** What is used of [L2BlockRefSource]: the transactions are types and data. *)
Record BlockSource : Type := mkBlockSource {
  bs_Hash : hash;
  bs_ParentHash : hash;
  bs_NumberU64 : Z;
  bs_Time : Z;
  bs_Transactions : list (Z * list Z);
}.

Definition L2BlockToBlockRef (cfg : Config) (block : BlockSource) : outcome L2BlockRef :=
  let genesis := Genesis_ cfg in
  '(l1Origin, sequenceNumber) ←
    (if bs_NumberU64 block =? b_Number (g_L2 genesis)
     then if decide (bs_Hash block <> b_Hash (g_L2 genesis))
          then Err "expected L2 genesis hash to match L2 block at genesis block number"
          else Ok (g_L1 genesis, 0)
     else
       match bs_Transactions block with
       | [] => Err "l2 block is missing L1 info deposit tx"
       | (typ, data) :: _ =>
           if negb (typ =? DepositTxType) then Err "first payload tx has unexpected tx type"
           else
             info ← L1BlockInfoFromBytes cfg (bs_Time block) data;
             Ok (mkBlockID (info_BlockHash info) (info_Number info), info_SequenceNumber info)
       end);
  Ok (mkL2BlockRef (bs_Hash block) (bs_NumberU64 block) (bs_ParentHash block) (bs_Time block) l1Origin sequenceNumber).

End L1Info.
