(* ===== verification/DepositLog.v ===== *)
(** What L1 receipts tell the L2 chain: user deposits
    (op-node/rollup/derive/deposit_log.go, deposits.go) and changes of the system
    configuration (system_config.go). *)
From Stdlib Require Import ZArith Lia.
From stdpp Require Import base gmap list strings numbers.
From S2P Require Import Prelude Codec Rollup Frames L1Info.

(** What is used of [types.Log] and [types.Receipt]. *)
Record Log : Type := mkLog {
  log_Address : list Z;
  Topics : list hash;
  log_Data : list Z;
  log_BlockHash : hash;
  log_Index : Z;
}.

Record Receipt : Type := mkReceipt {
  Status : Z;
  Logs : list Log;
}.

Definition ReceiptStatusSuccessful : Z := 1.

Section Deposits.
Context {K : Keccak} {G : Geth}.

(** ** Deposit events *)

Definition DepositEventABI : string := "TransactionDeposited(address,address,uint256,bytes)".
Definition DepositEventABIHash : hash := keccak256 (string_bytes DepositEventABI).
Definition DepositEventVersion0 : hash := zero_hash.

(** The fields behind the header of the event; the rest of the deposit is known. *)
Definition unmarshalDepositVersion0 (sourceHash : hash) (from to : list Z) (opaqueData : list Z) : outcome DepositTx :=
  if zlen opaqueData <? 32 + 32 + 8 + 1 then Err "unexpected opaqueData length"
  else
    let mint := be_decode (slice 0 32 opaqueData) in
    let value := be_decode (slice 32 64 opaqueData) in
    let gas := be_decode (slice 64 72 opaqueData) in
    if 2 ^ 64 <=? gas then Err "bad gas value"
    else
      Ok (mkDepositTx sourceHash from (if byte_at 72 opaqueData =? 0 then Some to else None)
            (if mint =? 0 then None else Some mint) value gas false (slice 73 (zlen opaqueData) opaqueData)).

(** [common.BytesToAddress(topic[12:])]. *)
Definition topic_address (topic : hash) : list Z := slice 12 32 topic.

Definition UnmarshalDepositLogEvent (ev : Log) : outcome DepositTx :=
  match Topics ev with
  | [selector; t1; t2; version] =>
      if decide (selector <> DepositEventABIHash) then Err "invalid deposit event selector"
      else if zlen (log_Data ev) <? 64 then Err "incomplate opaqueData slice header"
      else if negb (zlen (log_Data ev) mod 32 =? 0) then Err "expected log data to be multiple of 32 bytes"
      else
        let opaqueContentOffset := be_decode (slice 0 32 (log_Data ev)) in
        if negb (opaqueContentOffset <? 2 ^ 64) || negb (opaqueContentOffset =? 32)
        then Err "invalid opaqueData slice header offset"
        else
          let opaqueContentLength := be_decode (slice 32 64 (log_Data ev)) in
          let room := wrap 64 (zlen (log_Data ev) - 64) in
          if negb (opaqueContentLength <? 2 ^ 64) || (room <? opaqueContentLength) || (uadd 64 opaqueContentLength 32 <=? room)
          then Err "invalid opaqueData slice header length"
          else
            let opaqueData := slice 64 (64 + opaqueContentLength) (log_Data ev) in
            let sourceHash := UserDepositSource_SourceHash (log_BlockHash ev) (log_Index ev) in
            if decide (version = DepositEventVersion0)
            then unmarshalDepositVersion0 sourceHash (topic_address t1) (topic_address t2) opaqueData
            else Err "invalid deposit version"
  | _ => Err "expected 4 event topics (event identity, indexed from, indexed to, indexed version)"
  end.

(** A big integer that must fit into 256 bits, as its 32 bytes. *)
Definition fill_word (e : string) (v : Z) : outcome (list Z) :=
  if 2 ^ 256 <=? Z.abs v then Err e else Ok (be_encode 32 (Z.abs v)).

Definition marshalDepositVersion0 (deposit : DepositTx) : outcome (list Z) :=
  mint ← match dt_Mint deposit with
         | Some m => fill_word "mint value exceeds 256 bits" m
         | None => Ok (replicate 32 0)
         end;
  value ← fill_word "value value exceeds 256 bits" (dt_Value deposit);
  Ok (mint ++ value ++ be_encode 8 (dt_Gas deposit) ++ [match dt_To deposit with None => 1 | Some _ => 0 end] ++ dt_Data deposit).

(** [eth.AddressAsLeftPaddedHash]. *)
Definition AddressAsLeftPaddedHash (addr : list Z) : hash := replicate 12 0 ++ addr.

(** Zeros up to a multiple of 32. *)
Definition pad32 (data : list Z) : list Z :=
  if negb (zlen data mod 32 =? 0) then data ++ replicate (Z.to_nat (32 - zlen data mod 32)) 0 else data.

Definition MarshalDepositLogEvent (depositContractAddr : list Z) (deposit : DepositTx) : outcome Log :=
  let toBytes := match dt_To deposit with Some to => AddressAsLeftPaddedHash to | None => zero_hash end in
  let topics := [DepositEventABIHash; AddressAsLeftPaddedHash (dt_From deposit); toBytes; DepositEventVersion0] in
  opaqueData ← marshalDepositVersion0 deposit;
  let data := uint64_word 32 ++ uint64_word (zlen opaqueData) ++ opaqueData in
  Ok (mkLog depositContractAddr topics (pad32 data) zero_hash 0).

(** ** User deposits *)

(** The logs of a receipt that [addr] emitted for [event]. *)
Definition is_event (addr : list Z) (event : hash) (log : Log) : bool :=
  bool_decide (log_Address log = addr) && match Topics log with t :: _ => bool_decide (t = event) | [] => false end.

(** Deposits, and the errors that were collected. *)
Definition deposit_log (acc : list DepositTx * list string) (log : Log) : list DepositTx * list string :=
  match UnmarshalDepositLogEvent log with
  | Ok dep => (acc.1 ++ [dep], acc.2)
  | Err e => (acc.1, acc.2 ++ [e])
  | Panic e => (acc.1, acc.2 ++ [e])
  end.

Definition UserDeposits (receipts : list Receipt) (depositContractAddr : list Z) : list DepositTx * list string :=
  foldl (fun acc rec =>
    if negb (Status rec =? ReceiptStatusSuccessful) then acc
    else foldl (fun acc log => if is_event depositContractAddr DepositEventABIHash log then deposit_log acc log else acc)
           acc (Logs rec)) ([], []) receipts.

Definition DeriveDeposits (receipts : list Receipt) (depositContractAddr : list Z) : list (list Z) * list string :=
  let '(userDeposits, errs) := UserDeposits receipts depositContractAddr in
  foldl (fun acc tx =>
    match tx_MarshalBinary tx with
    | Ok opaqueTx => (acc.1 ++ [opaqueTx], acc.2)
    | _ => (acc.1, acc.2 ++ ["failed to encode user tx"])
    end) ([], errs) userDeposits.

(** ** System configuration updates *)

Definition update_type (n : Z) : hash := replicate 31 0 ++ [n].

Definition SystemConfigUpdateBatcher : hash := update_type 0.
Definition SystemConfigUpdateFeeScalars : hash := update_type 1.
Definition SystemConfigUpdateGasLimit : hash := update_type 2.
Definition SystemConfigUpdateUnsafeBlockSigner : hash := update_type 3.
Definition SystemConfigUpdateEIP1559Params : hash := update_type 4.
Definition SystemConfigUpdateOperatorFeeParams : hash := update_type 5.

Definition ConfigUpdateEventABI : string := "ConfigUpdate(uint256,uint8,bytes)".
Definition ConfigUpdateEventABIHash : hash := keccak256 (string_bytes ConfigUpdateEventABI).
Definition ConfigUpdateEventVersion0 : hash := zero_hash.

Definition set_batcher (a : list Z) (c : SystemConfig) : SystemConfig :=
  mkSystemConfig a (Overhead c) (Scalar c) (GasLimit c) (EIP1559Params c) (OperatorFeeParams_ c) (MarshalPreHolocene c).
Definition set_scalars (o s : list Z) (c : SystemConfig) : SystemConfig :=
  mkSystemConfig (BatcherAddr c) o s (GasLimit c) (EIP1559Params c) (OperatorFeeParams_ c) (MarshalPreHolocene c).
Definition set_gas_limit (g : Z) (c : SystemConfig) : SystemConfig :=
  mkSystemConfig (BatcherAddr c) (Overhead c) (Scalar c) g (EIP1559Params c) (OperatorFeeParams_ c) (MarshalPreHolocene c).
Definition set_eip1559 (p : list Z) (c : SystemConfig) : SystemConfig :=
  mkSystemConfig (BatcherAddr c) (Overhead c) (Scalar c) (GasLimit c) p (OperatorFeeParams_ c) (MarshalPreHolocene c).
Definition set_operator (p : list Z) (c : SystemConfig) : SystemConfig :=
  mkSystemConfig (BatcherAddr c) (Overhead c) (Scalar c) (GasLimit c) (EIP1559Params c) p (MarshalPreHolocene c).

(** The pointer and length fields in front of the value, then the value and the end. *)
Definition expect_uint64 (n : Z) (e : string) : ST (list Z) unit :=
  v ← Solabi.replace_error (NewCriticalError e) Solabi.ReadUint64;
  if v =? n then mret () else throw (NewCriticalError e).

Definition read_update {A} (len : Z) (value : ST (list Z) A) (data : list Z) : outcome A :=
  '(a, rest) ← (_ ← expect_uint64 32 "invalid pointer field";
                _ ← expect_uint64 len "invalid length field";
                value) data;
  if Solabi.EmptyReader rest then Ok a else Err (NewCriticalError "too many bytes").

Definition ProcessSystemConfigUpdateLogEvent (c : SystemConfig) (ev : Log) (cfg : Config) (l1Time : Z)
    : outcome SystemConfig :=
  match Topics ev with
  | [event; version; updateType] =>
      if decide (event <> ConfigUpdateEventABIHash) then Err "invalid SystemConfig update event"
      else if decide (version <> ConfigUpdateEventVersion0) then Err "unrecognized SystemConfig update event version"
      else
        let crit {A} e (m : ST (list Z) A) := Solabi.replace_error (NewCriticalError e) m in
        if decide (updateType = SystemConfigUpdateBatcher) then
          address ← read_update 32 (crit "could not read address" Solabi.ReadAddress) (log_Data ev);
          Ok (set_batcher address c)
        else if decide (updateType = SystemConfigUpdateFeeScalars) then
          '(overhead, scalar) ← read_update 64 (o ← crit "could not read overhead" Solabi.ReadEthBytes32;
                                                s ← crit "could not read scalar" Solabi.ReadEthBytes32;
                                                mret (o, s)) (log_Data ev);
          if IsEcotone cfg l1Time
          then match CheckEcotoneL1SystemConfigScalar scalar with
               | Ok _ => Ok (set_scalars zero_hash scalar c)
               | _ => Ok c
               end
          else Ok (set_scalars overhead scalar c)
        else if decide (updateType = SystemConfigUpdateGasLimit) then
          gasLimit ← read_update 32 (crit "could not read gas limit" Solabi.ReadUint64) (log_Data ev);
          Ok (set_gas_limit gasLimit c)
        else if decide (updateType = SystemConfigUpdateEIP1559Params) then
          params ← read_update 32 (crit "could not read eip-1559 params" Solabi.ReadEthBytes32) (log_Data ev);
          Ok (set_eip1559 (slice 24 32 params) c)
        else if decide (updateType = SystemConfigUpdateOperatorFeeParams) then
          params ← read_update 32 (crit "could not read operator fee params" Solabi.ReadEthBytes32) (log_Data ev);
          Ok (set_operator params c)
        else if decide (updateType = SystemConfigUpdateUnsafeBlockSigner) then Ok c
        else Err "unrecognized L1 sysCfg update type"
  | _ => Err "expected 3 event topics (event identity, indexed version, indexed updateType)"
  end.

(** The configuration after all updates, and the errors that were collected; an
    update that fails leaves the configuration. *)
Definition update_log (cfg : Config) (l1Time : Z) (acc : SystemConfig * list string) (log : Log) : SystemConfig * list string :=
  match ProcessSystemConfigUpdateLogEvent acc.1 log cfg l1Time with
  | Ok c => (c, acc.2)
  | Err e => (acc.1, acc.2 ++ [e])
  | Panic e => (acc.1, acc.2 ++ [e])
  end.

Definition UpdateSystemConfigWithL1Receipts (sysCfg : SystemConfig) (receipts : list Receipt) (cfg : Config) (l1Time : Z)
    : SystemConfig * list string :=
  foldl (fun acc rec =>
    if negb (Status rec =? ReceiptStatusSuccessful) then acc
    else foldl (fun acc log =>
           if is_event (L1SystemConfigAddress cfg) ConfigUpdateEventABIHash log then update_log cfg l1Time acc log else acc)
           acc (Logs rec)) (sysCfg, []) receipts.

End Deposits.
