(* ===== verification/Batches.v ===== *)
(** Batches in their derived form (op-node/rollup/derive/singular_batch.go,
    span_batch.go) and the rules that decide whether a batch may be applied on
    top of the safe head (batches.go). *)
From Stdlib Require Import ZArith Lia.
From stdpp Require Import base gmap list strings numbers.
From S2P Require Import Prelude Codec Rollup Frames L1Info.

(** ** Batches *)

Record SingularBatch : Type := mkSingularBatch {
  ParentHash : hash;
  EpochNum : Z;
  EpochHash : hash;
  Timestamp : Z;
  Transactions : list (list Z);
}.

#[export] Instance SingularBatch_eq_dec : EqDecision SingularBatch.
Proof. solve_decision. Defined.

Definition Epoch (b : SingularBatch) : BlockID := mkBlockID (EpochHash b) (EpochNum b).

Record SpanBatchElement : Type := mkSpanBatchElement {
  el_EpochNum : Z;
  el_Timestamp : Z;
  el_Transactions : list (list Z);
}.

(** The fields of a derived span batch; the others are caches of the encoder. *)
Record SpanBatch : Type := mkSpanBatch {
  ParentCheck : list Z;
  L1OriginCheck : list Z;
  Batches : list SpanBatchElement;
}.

Definition singularBatchToElement (b : SingularBatch) : SpanBatchElement :=
  mkSpanBatchElement (EpochNum b) (Timestamp b) (Transactions b).

Definition CheckOriginHash (b : SpanBatch) (h : hash) : bool := bool_decide (L1OriginCheck b = take 20 h).
Definition CheckParentHash (b : SpanBatch) (h : hash) : bool := bool_decide (ParentCheck b = take 20 h).
Definition GetBlockCount (b : SpanBatch) : Z := zlen (Batches b).

(** The L1 block with a number, at or behind an index. *)
Fixpoint find_from (idx : nat) (number : Z) (blocks : list L1BlockRef) : option (nat * L1BlockRef) :=
  match blocks with
  | [] => None
  | b :: blocks => if l1_Number b =? number then Some (idx, b) else find_from (S idx) number blocks
  end.

Definition find_origin (l1Blocks : list L1BlockRef) (originIdx : nat) (number : Z) : option (nat * L1BlockRef) :=
  find_from originIdx number (drop originIdx l1Blocks).

(** The parent hash of a batch is set when it is used. *)
Fixpoint singular_batches (l1Origins : list L1BlockRef) (l2SafeHead : L2BlockRef) (originIdx : nat)
    (elements : list SpanBatchElement) : outcome (list SingularBatch) :=
  match elements with
  | [] => Ok []
  | batch :: elements =>
      if el_Timestamp batch <=? l2_Time l2SafeHead then singular_batches l1Origins l2SafeHead originIdx elements
      else
        match find_origin l1Origins originIdx (el_EpochNum batch) with
        | None => Err "unable to find L1 origin for the epoch number"
        | Some (i, origin) =>
            rest ← singular_batches l1Origins l2SafeHead i elements;
            Ok (mkSingularBatch zero_hash (el_EpochNum batch) (l1_Hash origin) (el_Timestamp batch) (el_Transactions batch) :: rest)
        end
  end.

Definition GetSingularBatches (b : SpanBatch) (l1Origins : list L1BlockRef) (l2SafeHead : L2BlockRef)
    : outcome (list SingularBatch) :=
  singular_batches l1Origins l2SafeHead 0 (Batches b).

Inductive Batch : Type :=
| Singular (b : SingularBatch)
| Span (b : SpanBatch).

Record BatchWithL1InclusionBlock : Type := mkBatchWithL1 {
  bw_Batch : Batch;
  L1InclusionBlock : L1BlockRef;
}.

(** ** Validity *)

Inductive BatchValidity : Set := BatchDrop | BatchAccept | BatchUndecided | BatchFuture | BatchPast.

#[export] Instance BatchValidity_eq_dec : EqDecision BatchValidity.
Proof. solve_decision. Defined.

(** The safe chain, as the engine reports it; an answer may be an error. *)
Record SafeBlockFetcher : Type := mkSafeBlockFetcher {
  L2BlockRefByNumber : Z -> outcome L2BlockRef;
  PayloadByNumber : Z -> outcome ExecutionPayload;
}.

(** The rules for the transactions of one block. *)
Fixpoint check_transactions (isIsthmus : bool) (txs : list (list Z)) : bool :=
  match txs with
  | [] => true
  | txBytes :: txs =>
      match txBytes with
      | [] => false
      | t :: _ =>
          if t =? DepositTxType then false
          else if negb isIsthmus && (t =? SetCodeTxType) then false
          else check_transactions isIsthmus txs
      end
  end.

(** The rule against drifting away from the origin: a block that is too late for
    its origin must be empty and must not be able to adopt the next one.
    [advanced] says that the block is the first of its epoch. *)
Definition check_drift (cfg : Config) (timestamp : Z) (origin : L1BlockRef) (empty advanced : bool)
    (next : option L1BlockRef) : BatchValidity :=
  let max := uadd 64 (l1_Time origin) (MaxSequencerDrift (NewChainSpec cfg) (l1_Time origin)) in
  if max <? timestamp then
    if empty then
      if negb advanced then
        match next with
        | None => BatchUndecided
        | Some nextOrigin => if l1_Time nextOrigin <=? timestamp then BatchDrop else BatchAccept
        end
      else BatchAccept
    else BatchDrop
  else BatchAccept.

Definition is_empty {A} (l : list A) : bool := match l with [] => true | _ => false end.

Definition checkSingularBatch (cfg : Config) (l1Blocks : list L1BlockRef) (l2SafeHead : L2BlockRef)
    (batch : SingularBatch) (l1InclusionBlock : L1BlockRef) : BatchValidity :=
  match l1Blocks with
  | [] => BatchUndecided
  | epoch :: more =>
      let nextTimestamp := uadd 64 (l2_Time l2SafeHead) (BlockTime cfg) in
      if nextTimestamp <? Timestamp batch then
        if IsHolocene cfg (l1_Time l1InclusionBlock) then BatchDrop else BatchFuture
      else if Timestamp batch <? nextTimestamp then
        if IsHolocene cfg (l1_Time l1InclusionBlock) then BatchPast else BatchDrop
      else if decide (ParentHash batch <> l2_Hash l2SafeHead) then BatchDrop
      else if uadd 64 (EpochNum batch) (SeqWindowSize cfg) <? l1_Number l1InclusionBlock then BatchDrop
      else
        let check_origin (batchOrigin : L1BlockRef) :=
          if decide (EpochHash batch <> l1_Hash batchOrigin) then BatchDrop
          else if Timestamp batch <? l1_Time batchOrigin then BatchDrop
          else
            match check_drift cfg (Timestamp batch) batchOrigin (is_empty (Transactions batch))
                    (negb (l1_Number epoch =? l1_Number batchOrigin)) (head more) with
            | BatchAccept =>
                if check_transactions (IsIsthmus cfg (Timestamp batch)) (Transactions batch) then BatchAccept else BatchDrop
            | v => v
            end in
        if EpochNum batch <? l1_Number epoch then BatchDrop
        else if EpochNum batch =? l1_Number epoch then check_origin epoch
        else if EpochNum batch =? uadd 64 (l1_Number epoch) 1 then
          match more with
          | [] => BatchUndecided
          | next :: _ => check_origin next
          end
        else BatchDrop
  end.

(** *** Span batches *)

(** The zero value of a block reference. *)
Definition L2BlockRef0 : L2BlockRef := mkL2BlockRef zero_hash 0 zero_hash 0 (mkBlockID zero_hash 0) 0.

(** The first L1 block with the number decides. *)
Fixpoint check_end_origin (batch : SpanBatch) (endEpochNum : Z) (l1Blocks : list L1BlockRef) : BatchValidity :=
  match l1Blocks with
  | [] => BatchUndecided
  | l1Block :: l1Blocks =>
      if l1_Number l1Block =? endEpochNum
      then if CheckOriginHash batch (l1_Hash l1Block) then BatchAccept else BatchDrop
      else check_end_origin batch endEpochNum l1Blocks
  end.

(** The rules once the parent is known. *)
Definition check_span_parent (cfg : Config) (l1Blocks : list L1BlockRef) (batch : SpanBatch) (startEpochNum endEpochNum : Z)
    (l1InclusionBlock : L1BlockRef) (parentBlock : L2BlockRef) : BatchValidity :=
  if negb (CheckParentHash batch (l2_Hash parentBlock)) then BatchDrop
  else if uadd 64 startEpochNum (SeqWindowSize cfg) <? l1_Number l1InclusionBlock then BatchDrop
  else if uadd 64 (b_Number (L1Origin parentBlock)) 1 <? startEpochNum then BatchDrop
  else
    match check_end_origin batch endEpochNum l1Blocks with
    | BatchAccept => if startEpochNum <? b_Number (L1Origin parentBlock) then BatchDrop else BatchAccept
    | v => v
    end.

(** Reading the first block of an empty span panics. *)
Definition checkSpanBatchPrefix (cfg : Config) (l1Blocks : list L1BlockRef) (l2SafeHead : L2BlockRef) (batch : SpanBatch)
    (l1InclusionBlock : L1BlockRef) (l2Fetcher : SafeBlockFetcher) : outcome (BatchValidity * L2BlockRef) :=
  match l1Blocks, head (Batches batch), list.last (Batches batch) with
  | [], _, _ => Ok (BatchUndecided, L2BlockRef0)
  | _, None, _ | _, _, None => Panic "index out of range"
  | epoch :: more, Some first, Some final =>
      let startEpochNum := el_EpochNum first in
      match (if startEpochNum =? uadd 64 (l1_Number epoch) 1 then head more else Some epoch) with
      | None => Ok (BatchUndecided, L2BlockRef0)
      | Some batchOrigin =>
          if negb (IsDelta cfg (l1_Time batchOrigin)) then Ok (BatchDrop, L2BlockRef0)
          else
            let nextTimestamp := uadd 64 (l2_Time l2SafeHead) (BlockTime cfg) in
            let rest parentBlock :=
              Ok (check_span_parent cfg l1Blocks batch startEpochNum (el_EpochNum final) l1InclusionBlock parentBlock, parentBlock) in
            if nextTimestamp <? el_Timestamp first
            then Ok (if IsHolocene cfg (l1_Time l1InclusionBlock) then BatchDrop else BatchFuture, L2BlockRef0)
            else if el_Timestamp final <? nextTimestamp
            then Ok (if IsHolocene cfg (l1_Time l1InclusionBlock) then BatchPast else BatchDrop, L2BlockRef0)
            else if el_Timestamp first <? nextTimestamp then
              if l2_Time l2SafeHead <? el_Timestamp first then Ok (BatchDrop, L2BlockRef0)
              else if BlockTime cfg =? 0 then Panic "integer divide by zero"
              else if negb (usub 64 (l2_Time l2SafeHead) (el_Timestamp first) mod BlockTime cfg =? 0) then Ok (BatchDrop, L2BlockRef0)
              else
                let parentNum := usub 64 (usub 64 (l2_Number l2SafeHead)
                                   (usub 64 (l2_Time l2SafeHead) (el_Timestamp first) / BlockTime cfg)) 1 in
                match L2BlockRefByNumber l2Fetcher parentNum with
                | Ok parentBlock => rest parentBlock
                | Err _ => Ok (BatchUndecided, L2BlockRef0)
                | Panic e => Panic e
                end
            else rest l2SafeHead
      end
  end.

(** The blocks of the span behind the safe head, in order. [prevEpoch] is the
    epoch of the block before, if there is one; an origin that is not known is
    the zero block. *)
Fixpoint check_span_blocks (cfg : Config) (l1Blocks : list L1BlockRef) (l2SafeHead : L2BlockRef) (prevEpoch : option Z)
    (originIdx : nat) (originAdvanced : bool) (elements : list SpanBatchElement) : BatchValidity :=
  match elements with
  | [] => BatchAccept
  | block :: elements =>
      if el_Timestamp block <=? l2_Time l2SafeHead
      then check_span_blocks cfg l1Blocks l2SafeHead (Some (el_EpochNum block)) originIdx originAdvanced elements
      else
        let '(originIdx, l1Origin) :=
          match find_origin l1Blocks originIdx (el_EpochNum block) with
          | Some (j, origin) => (j, origin)
          | None => (originIdx, mkL1BlockRef zero_hash 0 zero_hash 0)
          end in
        let originAdvanced :=
          match prevEpoch with
          | Some p => p <? el_EpochNum block
          | None => originAdvanced
          end in
        if el_Timestamp block <? l1_Time l1Origin then BatchDrop
        else
          match check_drift cfg (el_Timestamp block) l1Origin (is_empty (el_Transactions block)) originAdvanced
                  (l1Blocks !! S originIdx) with
          | BatchAccept =>
              if check_transactions true (el_Transactions block)
              then check_span_blocks cfg l1Blocks l2SafeHead (Some (el_EpochNum block)) originIdx originAdvanced elements
              else BatchDrop
          | v => v
          end
  end.

Section Overlap.
Context {K : Keccak} {G : Geth}.

(** [tx[0] == types.DepositTxType] for every transaction: their number. *)
Fixpoint count_deposits (txs : list (list Z)) : outcome nat :=
  match txs with
  | [] => Ok 0%nat
  | [] :: _ => Panic "index out of range"
  | (t :: _) :: txs => n ← count_deposits txs; Ok (if t =? DepositTxType then S n else n)
  end.

(** One block of the span that the safe chain already has. *)
Definition check_overlapped (cfg : Config) (payload : ExecutionPayload) (block : SpanBatchElement) : outcome BatchValidity :=
  depositCount ← count_deposits (ep_Transactions payload);
  if negb (zlen (ep_Transactions payload) - Z.of_nat depositCount =? zlen (el_Transactions block)) then Ok BatchDrop
  else if decide (drop depositCount (ep_Transactions payload) <> el_Transactions block) then Ok BatchDrop
  else
    match PayloadToBlockRef cfg payload with
    | Ok safeBlockRef =>
        Ok (if negb (b_Number (L1Origin safeBlockRef) =? el_EpochNum block) then BatchDrop else BatchAccept)
    | Err _ => Ok BatchDrop
    | Panic e => Panic e
    end.

(** The blocks [i] up to [count] of the span. *)
Fixpoint check_overlap (cfg : Config) (l2Fetcher : SafeBlockFetcher) (parentNum i count : Z)
    (elements : list SpanBatchElement) : outcome BatchValidity :=
  if i <? count then
    match PayloadByNumber l2Fetcher (uadd 64 (uadd 64 parentNum i) 1) with
    | Ok payload =>
        match elements with
        | [] => Panic "index out of range"
        | block :: elements =>
            v ← check_overlapped cfg payload block;
            match v with
            | BatchAccept => check_overlap cfg l2Fetcher parentNum (i + 1) count elements
            | v => Ok v
            end
        end
    | Err _ => Ok BatchUndecided
    | Panic e => Panic e
    end
  else Ok BatchAccept.

Definition checkSpanBatch (cfg : Config) (l1Blocks : list L1BlockRef) (l2SafeHead : L2BlockRef) (batch : SpanBatch)
    (l1InclusionBlock : L1BlockRef) (l2Fetcher : SafeBlockFetcher) : outcome BatchValidity :=
  '(prefixValidity, parentBlock) ← checkSpanBatchPrefix cfg l1Blocks l2SafeHead batch l1InclusionBlock l2Fetcher;
  match prefixValidity, head (Batches batch) with
  | BatchAccept, Some first =>
      let originAdvanced := el_EpochNum first =? uadd 64 (b_Number (L1Origin parentBlock)) 1 in
      match check_span_blocks cfg l1Blocks l2SafeHead None 0 originAdvanced (Batches batch) with
      | BatchAccept =>
          let nextTimestamp := uadd 64 (l2_Time l2SafeHead) (BlockTime cfg) in
          if el_Timestamp first <? nextTimestamp
          then check_overlap cfg l2Fetcher (l2_Number parentBlock) 0
                 (usub 64 (l2_Number l2SafeHead) (l2_Number parentBlock)) (Batches batch)
          else Ok BatchAccept
      | v => Ok v
      end
  | v, _ => Ok v
  end.

Definition CheckBatch (cfg : Config) (l1Blocks : list L1BlockRef) (l2SafeHead : L2BlockRef)
    (batch : BatchWithL1InclusionBlock) (l2Fetcher : SafeBlockFetcher) : outcome BatchValidity :=
  match bw_Batch batch with
  | Singular b => Ok (checkSingularBatch cfg l1Blocks l2SafeHead b (L1InclusionBlock batch))
  | Span b => checkSpanBatch cfg l1Blocks l2SafeHead b (L1InclusionBlock batch) l2Fetcher
  end.

End Overlap.
