(* ===== verification/SpanBatch.v ===== *)
(** The encoding of span batches (op-node/rollup/derive/span_batch.go,
    span_batch_util.go) and of batches in general (batch.go): the raw form with its
    bits and counts, the derived form, and how a batcher builds a span. The
    encoding of the transactions (span_batch_txs.go) is a parameter. *)
From Stdlib Require Import ZArith Lia.
From stdpp Require Import base gmap list strings numbers.
From S2P Require Import Prelude Codec Rollup Frames L1Info Batches.

(** ** Variable-length integers ([encoding/binary]) *)

Definition MaxVarintLen64 : nat := 10.

(** [n] bytes may still be read; [first] says that none was. *)
Fixpoint read_uvarint (n : nat) (first : bool) (x s : Z) : ST (list Z) Z := fun inp =>
  match n with
  | O => Err "binary: varint overflows a 64-bit integer"
  | S n =>
      match inp with
      | [] => Err (if first then EOF else UnexpectedEOF)
      | b :: inp =>
          if b <? 0x80 then
            if (n =? 0)%nat && (1 <? b) then Err "binary: varint overflows a 64-bit integer"
            else Ok (Z.lor x (ushl 64 b s), inp)
          else read_uvarint n false (Z.lor x (ushl 64 (Z.land b 0x7f) s)) (s + 7) inp
      end
  end.

Definition ReadUvarint : ST (list Z) Z := read_uvarint MaxVarintLen64 true 0 0.

Fixpoint put_uvarint (n : nat) (x : Z) : list Z :=
  match n with
  | O => []
  | S n => if x <? 0x80 then [x] else Z.lor (wrap 8 x) 0x80 :: put_uvarint n (ushr x 7)
  end.

Definition PutUvarint (x : Z) : list Z := put_uvarint MaxVarintLen64 x.

(** ** Bit lists (span_batch_util.go) *)

Definition bits_length (bitLength : Z) : Z := if negb (bitLength mod 8 =? 0) then bitLength / 8 + 1 else bitLength / 8.

Definition decodeSpanBatchBits (bitLength : Z) : ST (list Z) Z :=
  buf ← ReadFull (bits_length bitLength);
  let out := be_decode buf in
  if 2 ^ bitLength <=? out then throw "bitfield has more bits than expected" else mret out.

Definition encodeSpanBatchBits (bitLength : Z) (bits : Z) : outcome (list Z) :=
  if 2 ^ bitLength <=? Z.abs bits then Err "bitfield is larger than bitLength"
  else Ok (be_encode (Z.to_nat (bits_length bitLength)) (Z.abs bits)).

(** ** Raw span batches *)

Definition MaxSpanBatchElementCount : Z := 10000000.
Definition ErrTooBigSpanBatchSize : string := "span batch size limit reached".
Definition ErrEmptySpanBatch : string := "span-batch must not be empty".
Definition SingularBatchType : Z := 0.
Definition SpanBatchType : Z := 1.

(** The transactions of a span: they are added in order, encoded, decoded given
    their number, and recovered in full for a chain. *)
Class SpanBatchTxs : Type := {
  spanBatchTxs : Type;
  newSpanBatchTxs : spanBatchTxs;
  AddTxs : list (list Z) -> option Z -> spanBatchTxs -> outcome spanBatchTxs;
  txs_encode : spanBatchTxs -> outcome (list Z);
  txs_decode : Z -> ST (list Z) spanBatchTxs;
  txs_fullTxs : option Z -> spanBatchTxs -> outcome (list (list Z));
}.

Section Span.
Context {T : SpanBatchTxs}.

Record spanBatchPrefix : Type := mkSpanBatchPrefix {
  relTimestamp : Z;
  l1OriginNum : Z;
  parentCheck : list Z;
  l1OriginCheck : list Z;
}.

Record spanBatchPayload : Type := mkSpanBatchPayload {
  blockCount : Z;
  originBits : Z;
  blockTxCounts : list Z;
  raw_txs : spanBatchTxs;
}.

Record RawSpanBatch : Type := mkRawSpanBatch {
  raw_prefix : spanBatchPrefix;
  raw_payload : spanBatchPayload;
}.

(** *** Decoding *)

Definition decodePrefix : ST (list Z) spanBatchPrefix :=
  relTimestamp ← ReadUvarint;
  l1OriginNum ← ReadUvarint;
  parentCheck ← ReadFull 20;
  l1OriginCheck ← ReadFull 20;
  mret (mkSpanBatchPrefix relTimestamp l1OriginNum parentCheck l1OriginCheck).

Definition decodeBlockCount : ST (list Z) Z :=
  blockCount ← ReadUvarint;
  if MaxSpanBatchElementCount <? blockCount then throw ErrTooBigSpanBatchSize
  else if blockCount =? 0 then throw ErrEmptySpanBatch
  else mret blockCount.

Definition decodeOriginBits (blockCount : Z) : ST (list Z) Z :=
  if MaxSpanBatchElementCount <? blockCount then throw ErrTooBigSpanBatchSize else decodeSpanBatchBits blockCount.

Definition decodeBlockTxCount : ST (list Z) Z :=
  blockTxCount ← ReadUvarint;
  if MaxSpanBatchElementCount <? blockTxCount then throw ErrTooBigSpanBatchSize else mret blockTxCount.

Definition decodeBlockTxCounts (blockCount : Z) : ST (list Z) (list Z) := read_list (Z.to_nat blockCount) decodeBlockTxCount.

(** [math.SafeAdd] over the counts. *)
Fixpoint total_count (total : Z) (counts : list Z) : outcome Z :=
  match counts with
  | [] => Ok total
  | c :: counts => if 2 ^ 64 <=? total + c then Err ErrTooBigSpanBatchSize else total_count (total + c) counts
  end.

(** A span without blocks has no counts. *)
Definition decodeTxs (blockTxCounts : list Z) : ST (list Z) spanBatchTxs :=
  match blockTxCounts with
  | [] => throw "failed to read txs: blockTxCounts not set"
  | _ =>
      totalBlockTxCount ← lift (total_count 0 blockTxCounts);
      if MaxSpanBatchElementCount <? totalBlockTxCount then throw ErrTooBigSpanBatchSize
      else txs_decode totalBlockTxCount
  end.

Definition decodePayload : ST (list Z) spanBatchPayload :=
  blockCount ← decodeBlockCount;
  originBits ← decodeOriginBits blockCount;
  blockTxCounts ← decodeBlockTxCounts blockCount;
  txs ← decodeTxs blockTxCounts;
  mret (mkSpanBatchPayload blockCount originBits blockTxCounts txs).

Definition raw_decode : ST (list Z) RawSpanBatch :=
  prefix ← decodePrefix;
  payload ← decodePayload;
  mret (mkRawSpanBatch prefix payload).

(** *** Encoding *)

Definition encodePrefix (bp : spanBatchPrefix) : list Z :=
  PutUvarint (relTimestamp bp) ++ PutUvarint (l1OriginNum bp) ++ parentCheck bp ++ l1OriginCheck bp.

Definition encodePayload (bp : spanBatchPayload) : outcome (list Z) :=
  bits ← encodeSpanBatchBits (blockCount bp) (originBits bp);
  txs ← txs_encode (raw_txs bp);
  Ok (PutUvarint (blockCount bp) ++ bits ++ concat (PutUvarint <$> blockTxCounts bp) ++ txs).

Definition raw_encode (b : RawSpanBatch) : outcome (list Z) :=
  payload ← encodePayload (raw_payload b);
  Ok (encodePrefix (raw_prefix b) ++ payload).

(** *** Deriving *)

(** The origins of the blocks [0] to [i - 1] from the origin of the last one, down:
    the number decreases behind a block with its bit set, but not behind the first. *)
Fixpoint origin_nums (bits : Z) (i : nat) (number : Z) (acc : list Z) : list Z :=
  match i with
  | O => acc
  | S i => origin_nums bits i (if Z.testbit bits (Z.of_nat i) && (0 <? i)%nat then usub 64 number 1 else number) (number :: acc)
  end.

(** The blocks from [i] on, taking their transactions off the list. *)
Fixpoint derive_blocks (first blockTime : Z) (i : Z) (origins counts : list Z) (fullTxs : list (list Z))
    : outcome (list SpanBatchElement) :=
  match origins, counts with
  | [], _ => Ok []
  | _ :: _, [] => Panic "index out of range"
  | o :: origins, c :: counts =>
      if zlen fullTxs <? c then Panic "index out of range"
      else
        rest ← derive_blocks first blockTime (i + 1) origins counts (drop (Z.to_nat c) fullTxs);
        Ok (mkSpanBatchElement o (uadd 64 first (umul 64 blockTime i)) (take (Z.to_nat c) fullTxs) :: rest)
  end.

Definition derive (b : RawSpanBatch) (blockTime genesisTimestamp : Z) (chainID : option Z) : outcome SpanBatch :=
  let bp := raw_payload b in
  if blockCount bp =? 0 then Err ErrEmptySpanBatch
  else
    let blockOriginNums := origin_nums (originBits bp) (Z.to_nat (blockCount bp)) (l1OriginNum (raw_prefix b)) [] in
    fullTxs ← txs_fullTxs chainID (raw_txs bp);
    blocks ← derive_blocks (uadd 64 genesisTimestamp (relTimestamp (raw_prefix b))) blockTime 0 blockOriginNums (blockTxCounts bp) fullTxs;
    Ok (mkSpanBatch (parentCheck (raw_prefix b)) (l1OriginCheck (raw_prefix b)) blocks).

Definition ToSpanBatch := derive.

(** *** Building *)

(** A span that is being built: the batch and the caches of its encoding. *)
Record SpanBatchBuilder : Type := mkSpanBatchBuilder {
  sb_batch : SpanBatch;
  GenesisTimestamp : Z;
  ChainID : option Z;
  sb_originBits : Z;
  sb_blockTxCounts : list Z;
  sbtxs : spanBatchTxs;
}.

Definition NewSpanBatch (genesisTimestamp : Z) (chainID : option Z) : SpanBatchBuilder :=
  mkSpanBatchBuilder (mkSpanBatch (replicate 20 0) (replicate 20 0) []) genesisTimestamp chainID 0 [] newSpanBatchTxs.

(** [SetBit] of a big integer. *)
Definition set_bit (x : Z) (i : Z) (b : bool) : Z := if b then Z.setbit x i else Z.clearbit x i.

Definition AppendSingularBatch (singularBatch : SingularBatch) (seqNum : Z) : stage SpanBatchBuilder unit := fun b =>
  let old := Batches (sb_batch b) in
  if match list.last old with Some l => Timestamp singularBatch <? el_Timestamp l | None => false end
  then (Panic "span batch is not ordered", b)
  else
    let element := singularBatchToElement singularBatch in
    let '(epochBit, parent) :=
      match list.last old with
      | None => (seqNum =? 0, take 20 (ParentHash singularBatch))
      | Some l => (el_EpochNum l <? EpochNum singularBatch, ParentCheck (sb_batch b))
      end in
    let batch := mkSpanBatch parent (take 20 (EpochHash singularBatch)) (old ++ [element]) in
    let bits := set_bit (sb_originBits b) (zlen old) epochBit in
    let counts := sb_blockTxCounts b ++ [zlen (Transactions singularBatch)] in
    match AddTxs (Transactions singularBatch) (ChainID b) (sbtxs b) with
    | Ok txs => (Ok (), mkSpanBatchBuilder batch (GenesisTimestamp b) (ChainID b) bits counts txs)
    | Err e => (Err e, mkSpanBatchBuilder batch (GenesisTimestamp b) (ChainID b) bits counts (sbtxs b))
    | Panic e => (Panic e, mkSpanBatchBuilder batch (GenesisTimestamp b) (ChainID b) bits counts (sbtxs b))
    end.

Definition ToRawSpanBatch (b : SpanBatchBuilder) : outcome RawSpanBatch :=
  match head (Batches (sb_batch b)), list.last (Batches (sb_batch b)) with
  | Some span_start, Some span_end =>
      Ok (mkRawSpanBatch
        (mkSpanBatchPrefix (usub 64 (el_Timestamp span_start) (GenesisTimestamp b)) (el_EpochNum span_end)
           (ParentCheck (sb_batch b)) (L1OriginCheck (sb_batch b)))
        (mkSpanBatchPayload (zlen (Batches (sb_batch b))) (sb_originBits b) (sb_blockTxCounts b) (sbtxs b)))
  | _, _ => Err "cannot merge empty singularBatch list"
  end.

(** ** Typed batches (batch.go) *)

(** The RLP encoding of a singular batch is that of go-ethereum. *)
Context (rlp_Encode : SingularBatch -> outcome (list Z)) (rlp_Decode : list Z -> outcome SingularBatch).

Inductive BatchData : Type :=
| SingularData (b : SingularBatch)
| SpanData (b : RawSpanBatch).

Definition GetBatchType (b : BatchData) : Z :=
  match b with SingularData _ => SingularBatchType | SpanData _ => SpanBatchType end.

Definition encodeTyped (b : BatchData) : outcome (list Z) :=
  inner ← match b with SingularData s => rlp_Encode s | SpanData s => raw_encode s end;
  Ok (GetBatchType b :: inner).

(** What is behind a span batch is not looked at. *)
Definition decodeTyped (data : list Z) : outcome BatchData :=
  match data with
  | [] => Err "batch too short"
  | t :: rest =>
      if t =? SingularBatchType then b ← rlp_Decode rest; Ok (SingularData b)
      else if t =? SpanBatchType then '(b, _) ← raw_decode rest; Ok (SpanData b)
      else Err "unrecognized batch type"
  end.

End Span.
