(* ===== verification/BatchStages.v ===== *)
(** The batch stages: what the queue before Holocene and the stage after it share
    (op-node/rollup/derive/base_batch_stage.go), the queue (batch_queue.go), the
    stage (batch_stage.go) and the choice between them (batch_mux.go). The source
    of safe blocks is an argument of every call, since its answers can change. *)
From Stdlib Require Import ZArith Lia.
From stdpp Require Import base gmap list strings numbers.
From S2P Require Import Prelude Codec Rollup Frames L1Info Batches.

(** What the channel reader promises to the batch stages. *)
Class NextBatchProvider (P : Type) : Type := {
  NextBatch : stage P Batch;
  batch_Origin : P -> L1BlockRef;
  FlushChannel : stage P unit;
}.

Section Stages.
Context {K : Keccak} {G : Geth} {P : Type} {BP : NextBatchProvider P}.

(** ** What the stages share *)

Record baseBatchStage : Type := mkBase {
  bs_config : Config;
  bs_prev : P;
  origin : L1BlockRef;
  l1Blocks : list L1BlockRef;
  nextSpan : list SingularBatch;
}.

Implicit Types bs : baseBatchStage.

Definition newBaseBatchStage (cfg : Config) (prev : P) : baseBatchStage :=
  mkBase cfg prev (mkL1BlockRef zero_hash 0 zero_hash 0) [] [].

Definition set_prev (p : P) bs : baseBatchStage := mkBase (bs_config bs) p (origin bs) (l1Blocks bs) (nextSpan bs).
Definition set_l1Blocks (l : list L1BlockRef) bs : baseBatchStage := mkBase (bs_config bs) (bs_prev bs) (origin bs) l (nextSpan bs).
Definition set_nextSpan (l : list SingularBatch) bs : baseBatchStage := mkBase (bs_config bs) (bs_prev bs) (origin bs) (l1Blocks bs) l.
Definition set_origin (o : L1BlockRef) bs : baseBatchStage := mkBase (bs_config bs) (bs_prev bs) o (l1Blocks bs) (nextSpan bs).

Definition base_Origin bs : L1BlockRef := batch_Origin (bs_prev bs).

Definition set_parent (h : hash) (b : SingularBatch) : SingularBatch :=
  mkSingularBatch h (EpochNum b) (EpochHash b) (Timestamp b) (Transactions b).

Definition popNextBatch (parent : L2BlockRef) : stage baseBatchStage SingularBatch := fun bs =>
  match nextSpan bs with
  | [] => (Panic "popping non-existent span-batch, invalid state", bs)
  | nextBatch :: rest => (Ok (set_parent (l2_Hash parent) nextBatch), set_nextSpan rest bs)
  end.

(** The batch, if there is one, and whether it is the last of its span. *)
Definition nextFromSpanBatch (parent : L2BlockRef) : stage baseBatchStage (option SingularBatch * bool) := fun bs =>
  match nextSpan bs with
  | [] => (Ok (None, false), bs)
  | next :: rest =>
      if Timestamp next =? uadd 64 (l2_Time parent) (BlockTime (bs_config bs)) then
        match popNextBatch parent bs with
        | (Ok nextBatch, bs) => (Ok (Some nextBatch, is_empty (nextSpan bs)), bs)
        | (Err e, bs) => (Err e, bs)
        | (Panic e, bs) => (Panic e, bs)
        end
      else (Ok (None, false), set_nextSpan [] bs)
  end.

Definition originBehind (parent : L2BlockRef) bs : bool := l1_Number (base_Origin bs) <? b_Number (L1Origin parent).

(** The blocks from the first one with the number on; all of them if there is none. *)
Definition advance_to (number : Z) (blocks : list L1BlockRef) : list L1BlockRef :=
  match find_from 0 number blocks with
  | Some (i, _) => drop i blocks
  | None => blocks
  end.

Definition updateOrigins (parent : L2BlockRef) bs : baseBatchStage :=
  let behind := originBehind parent bs in
  let bs :=
    if decide (origin bs <> base_Origin bs) then
      let bs := set_origin (base_Origin bs) bs in
      if negb behind then set_l1Blocks (l1Blocks bs ++ [origin bs]) bs else set_l1Blocks [] bs
    else bs in
  match l1Blocks bs with
  | first :: _ =>
      if l1_Number first <? b_Number (L1Origin parent)
      then set_l1Blocks (advance_to (b_Number (L1Origin parent)) (l1Blocks bs)) bs
      else bs
  | [] => bs
  end.

Definition base_reset (base : L1BlockRef) bs : baseBatchStage := mkBase (bs_config bs) (bs_prev bs) base [base] [].

Definition deriveNextEmptyBatch (outOfData : bool) (parent : L2BlockRef) : stage baseBatchStage SingularBatch := fun bs =>
  match l1Blocks bs with
  | [] => (Panic "index out of range", bs)
  | epoch :: rest =>
      let expiryEpoch := uadd 64 (l1_Number epoch) (SeqWindowSize (bs_config bs)) in
      let forceEmptyBatches :=
        ((expiryEpoch =? l1_Number (origin bs)) && outOfData) || (expiryEpoch <? l1_Number (origin bs)) in
      let firstOfEpoch := l1_Number epoch =? uadd 64 (b_Number (L1Origin parent)) 1 in
      let nextTimestamp := uadd 64 (l2_Time parent) (BlockTime (bs_config bs)) in
      if negb forceEmptyBatches then (Err EOF, bs)
      else
        match rest with
        | [] => (Err EOF, bs)
        | nextEpoch :: _ =>
            if (nextTimestamp <? l1_Time nextEpoch) || firstOfEpoch
            then (Ok (mkSingularBatch (l2_Hash parent) (l1_Number epoch) (l1_Hash epoch) nextTimestamp []), bs)
            else (Err EOF, set_l1Blocks rest bs)
        end
  end.

(** The epoch is the origin of the parent, or the block behind it. *)
Definition epoch_matches (parent : L2BlockRef) (epoch : L1BlockRef) : bool :=
  bool_decide (L1Origin parent = L1BlockRef_ID epoch) || (b_Number (L1Origin parent) =? usub 64 (l1_Number epoch) 1).

(** ** The queue before Holocene *)

Record BatchQueue : Type := mkBatchQueue {
  bq_base : baseBatchStage;
  batches : list BatchWithL1InclusionBlock;
}.

Implicit Types bq : BatchQueue.

Definition NewBatchQueue (cfg : Config) (prev : P) : BatchQueue := mkBatchQueue (newBaseBatchStage cfg prev) [].

(** A step of the base of the queue. *)
Definition on_base {A} (m : stage baseBatchStage A) : stage BatchQueue A := fun bq =>
  let '(r, bs) := m (bq_base bq) in (r, mkBatchQueue bs (batches bq)).

Definition AddBatch (l2 : SafeBlockFetcher) (batch : Batch) (parent : L2BlockRef) : stage BatchQueue unit := fun bq =>
  match l1Blocks (bq_base bq) with
  | [] => (Panic "cannot add batch, no origin was prepared", bq)
  | _ =>
      let data := mkBatchWithL1 batch (origin (bq_base bq)) in
      match CheckBatch (bs_config (bq_base bq)) (l1Blocks (bq_base bq)) parent data l2 with
      | Ok BatchDrop => (Ok (), bq)
      | Ok _ => (Ok (), mkBatchQueue (bq_base bq) (batches bq ++ [data]))
      | Err e => (Err e, bq)
      | Panic e => (Panic e, bq)
      end
  end.

(** The outcome of going over the batches: an accepted batch and the batches that
    remain, no batch, or a batch that cannot be decided yet. *)
Inductive selection : Type :=
| Selected (b : BatchWithL1InclusionBlock) (remaining : list BatchWithL1InclusionBlock)
| NoneSelected (remaining : list BatchWithL1InclusionBlock)
| Blocked (remaining : list BatchWithL1InclusionBlock).

Fixpoint select_batch (cfg : Config) (l1Blocks : list L1BlockRef) (parent : L2BlockRef) (l2 : SafeBlockFetcher)
    (remaining todo : list BatchWithL1InclusionBlock) : outcome selection :=
  match todo with
  | [] => Ok (NoneSelected remaining)
  | batch :: todo' =>
      v ← CheckBatch cfg l1Blocks parent batch l2;
      match v with
      | BatchFuture => select_batch cfg l1Blocks parent l2 (remaining ++ [batch]) todo'
      | BatchDrop => select_batch cfg l1Blocks parent l2 remaining todo'
      | BatchAccept => Ok (Selected batch (remaining ++ todo'))
      | BatchUndecided => Ok (Blocked (remaining ++ todo))
      | BatchPast => Err (NewCriticalError "unknown batch validity type")
      end
  end.

Definition deriveNextBatch (l2 : SafeBlockFetcher) (outOfData : bool) (parent : L2BlockRef) : stage BatchQueue Batch := fun bq =>
  match l1Blocks (bq_base bq) with
  | [] => (Err (NewCriticalError "cannot derive next batch, no origin was prepared"), bq)
  | epoch :: _ =>
      if negb (epoch_matches parent epoch)
      then (Err (NewResetError "buffered L1 chain epoch in batch queue does not match safe head origin"), bq)
      else
        match select_batch (bs_config (bq_base bq)) (l1Blocks (bq_base bq)) parent l2 [] (batches bq) with
        | Ok (Selected b remaining) => (Ok (bw_Batch b), mkBatchQueue (bq_base bq) remaining)
        | Ok (Blocked remaining) => (Err EOF, mkBatchQueue (bq_base bq) remaining)
        | Ok (NoneSelected remaining) =>
            (b ← on_base (deriveNextEmptyBatch outOfData parent); mret (Singular b)) (mkBatchQueue (bq_base bq) remaining)
        | Err e => (Err e, bq)
        | Panic e => (Panic e, bq)
        end
  end.

(** The batch that is returned, and whether it ends its span. *)
Definition singular_of (batch : Batch) (parent : L2BlockRef) : stage BatchQueue (SingularBatch * bool) := fun bq =>
  match batch with
  | Singular b => (Ok (b, is_empty (nextSpan (bq_base bq))), bq)
  | Span b =>
      match GetSingularBatches b (l1Blocks (bq_base bq)) parent with
      | Ok singularBatches =>
          match on_base (popNextBatch parent) (mkBatchQueue (set_nextSpan singularBatches (bq_base bq)) (batches bq)) with
          | (Ok nextBatch, bq) => (Ok (nextBatch, is_empty (nextSpan (bq_base bq))), bq)
          | (Err e, bq) => (Err e, bq)
          | (Panic e, bq) => (Panic e, bq)
          end
      | Err e => (Err (NewCriticalError e), bq)
      | Panic e => (Panic e, bq)
      end
  end.

Definition bq_load (l2 : SafeBlockFetcher) (parent : L2BlockRef) (behind : bool) : stage BatchQueue bool := fun bq =>
  match NextBatch (bs_prev (bq_base bq)) with
  | (Ok batch, prev) =>
      let bq := mkBatchQueue (set_prev prev (bq_base bq)) (batches bq) in
      if negb behind then (_ ← AddBatch l2 batch parent; mret false) bq else (Ok false, bq)
  | (Err e, prev) =>
      let bq := mkBatchQueue (set_prev prev (bq_base bq)) (batches bq) in
      if String.eqb e EOF then (Ok true, bq) else (Err e, bq)
  | (Panic e, prev) => (Panic e, mkBatchQueue (set_prev prev (bq_base bq)) (batches bq))
  end.

Definition bq_NextBatch (l2 : SafeBlockFetcher) (parent : L2BlockRef) : stage BatchQueue (SingularBatch * bool) := fun bq =>
  match on_base (nextFromSpanBatch parent) bq with
  | (Ok (Some batch, last), bq) => (Ok (batch, last), bq)
  | (Ok (None, _), bq) =>
      let bq := mkBatchQueue (updateOrigins parent (bq_base bq)) (batches bq) in
      let behind := originBehind parent (bq_base bq) in
      match bq_load l2 parent behind bq with
      | (Ok outOfData, bq) =>
          if behind then (Err (if outOfData then EOF else NotEnoughData), bq)
          else
            match deriveNextBatch l2 outOfData parent bq with
            | (Ok batch, bq) => singular_of batch parent bq
            | (Err e, bq) => (Err (if String.eqb e EOF then if outOfData then EOF else NotEnoughData else e), bq)
            | (Panic e, bq) => (Panic e, bq)
            end
      | (Err e, bq) => (Err e, bq)
      | (Panic e, bq) => (Panic e, bq)
      end
  | (Err e, bq) => (Err e, bq)
  | (Panic e, bq) => (Panic e, bq)
  end.

Definition bq_Reset (base : L1BlockRef) : stage BatchQueue unit := fun bq =>
  (Err EOF, mkBatchQueue (base_reset base (bq_base bq)) []).

Definition bq_FlushChannel : stage BatchQueue unit := fun bq => (Panic "BatchQueue: invalid FlushChannel call", bq).

(** ** The stage after Holocene *)

Abbreviation BatchStage := baseBatchStage.

Definition NewBatchStage (cfg : Config) (prev : P) : BatchStage := newBaseBatchStage cfg prev.

Definition bs_Reset (base : L1BlockRef) : stage BatchStage unit := fun bs => (Err EOF, base_reset base bs).

Definition bs_FlushChannel : stage BatchStage unit := fun bs =>
  let bs := set_nextSpan [] bs in
  let '(r, prev) := FlushChannel (bs_prev bs) in (r, set_prev prev bs).

(** [FlushChannel], then the error that asks for more data. *)
Definition flush_and_retry {A} : stage BatchStage A := fun bs =>
  match bs_FlushChannel bs with
  | (Ok _, bs) => (Err NotEnoughData, bs)
  | (Err e, bs) => (Err e, bs)
  | (Panic e, bs) => (Panic e, bs)
  end.

Definition span_candidate (l2 : SafeBlockFetcher) (parent : L2BlockRef) (spanBatch : SpanBatch) : stage BatchStage SingularBatch := fun bs =>
  match checkSpanBatchPrefix (bs_config bs) (l1Blocks bs) parent spanBatch (origin bs) l2 with
  | Ok (BatchAccept, _) =>
      match GetSingularBatches spanBatch (l1Blocks bs) parent with
      | Ok singularBatches => popNextBatch parent (set_nextSpan singularBatches bs)
      | Err e => (Err (NewCriticalError e), bs)
      | Panic e => (Panic e, bs)
      end
  | Ok (BatchPast, _) => (Err NotEnoughData, bs)
  | Ok (BatchDrop, _) => flush_and_retry bs
  | Ok (BatchUndecided, _) => (Err NotEnoughData, bs)
  | Ok (BatchFuture, _) => (Err (NewCriticalError "impossible future batch validity"), bs)
  | Err e => (Err e, bs)
  | Panic e => (Panic e, bs)
  end.

Definition nextSingularBatchCandidate (l2 : SafeBlockFetcher) (parent : L2BlockRef) : stage BatchStage SingularBatch := fun bs =>
  match nextFromSpanBatch parent bs with
  | (Ok (Some nextBatch, _), bs) => (Ok nextBatch, bs)
  | (Ok (None, _), bs) =>
      match NextBatch (bs_prev bs) with
      | (Ok (Singular b), prev) => (Ok b, set_prev prev bs)
      | (Ok (Span b), prev) => span_candidate l2 parent b (set_prev prev bs)
      | (Err e, prev) => (Err e, set_prev prev bs)
      | (Panic e, prev) => (Panic e, set_prev prev bs)
      end
  | (Err e, bs) => (Err e, bs)
  | (Panic e, bs) => (Panic e, bs)
  end.

Definition bs_NextBatch (l2 : SafeBlockFetcher) (parent : L2BlockRef) : stage BatchStage (SingularBatch * bool) := fun bs =>
  let bs := updateOrigins parent bs in
  if originBehind parent bs || (b_Number (L1Origin parent) =? l1_Number (origin bs)) then
    match NextBatch (bs_prev bs) with
    | (Ok _, prev) => (Err NotEnoughData, set_prev prev bs)
    | (Err e, prev) => (Err e, set_prev prev bs)
    | (Panic e, prev) => (Panic e, set_prev prev bs)
    end
  else
    match l1Blocks bs with
    | [] | [_] => (Err (NewCriticalError "unexpected low buffered origin count"), bs)
    | epoch :: _ =>
        if negb (epoch_matches parent epoch)
        then (Err (NewResetError "buffered L1 chain epoch in batch queue does not match safe head origin"), bs)
        else
          match nextSingularBatchCandidate l2 parent bs with
          | (Ok batch, bs) =>
              match checkSingularBatch (bs_config bs) (l1Blocks bs) parent batch (origin bs) with
              | BatchAccept => (Ok (batch, true), bs)
              | BatchPast => (Err NotEnoughData, bs)
              | BatchDrop => flush_and_retry bs
              | BatchUndecided => (Err NotEnoughData, bs)
              | BatchFuture => (Err (NewCriticalError "impossible batch validity"), bs)
              end
          | (Err e, bs) =>
              if String.eqb e EOF
              then (empty ← deriveNextEmptyBatch true parent; mret (empty, true)) bs
              else (Err e, bs)
          | (Panic e, bs) => (Panic e, bs)
          end
    end.

(** ** The choice between them *)

Inductive SingularBatchProvider : Type :=
| NoBatchStage
| Queue (bq : BatchQueue)
| Stage (bs : BatchStage).

Record BatchMux : Type := mkBatchMux {
  bm_cfg : Config;
  bm_provider : SingularBatchProvider;
}.

Definition NewBatchMux (cfg : Config) : BatchMux := mkBatchMux cfg NoBatchStage.

Definition bm_Reset (prev : P) (base : L1BlockRef) : stage BatchMux unit := fun b =>
  if IsHolocene (bm_cfg b) (l1_Time base) then
    let bs := match bm_provider b with Stage bs => bs | _ => NewBatchStage (bm_cfg b) prev end in
    let '(r, bs) := bs_Reset base bs in (r, mkBatchMux (bm_cfg b) (Stage bs))
  else
    let bq := match bm_provider b with Queue bq => bq | _ => NewBatchQueue (bm_cfg b) prev end in
    let '(r, bq) := bq_Reset base bq in (r, mkBatchMux (bm_cfg b) (Queue bq)).

(** The new stage keeps the L1 blocks and the origin, and drops all batches. *)
Definition bm_TransformHolocene : stage BatchMux unit := fun b =>
  match bm_provider b with
  | Queue bp =>
      let bs := NewBatchStage (bm_cfg b) (bs_prev (bq_base bp)) in
      (Ok (), mkBatchMux (bm_cfg b) (Stage (set_origin (origin (bq_base bp)) (set_l1Blocks (l1Blocks (bq_base bp)) bs))))
  | Stage _ => (Panic "Holocene BatchStage already active", b)
  | NoBatchStage => (Panic "unknown batch stage type", b)
  end.

Definition bm_Transform (f : ForkName) : stage BatchMux unit := fun b =>
  match f with
  | Holocene => bm_TransformHolocene b
  | _ => (Ok (), b)
  end.

End Stages.

Arguments baseBatchStage P : clear implicits.
Arguments BatchQueue P : clear implicits.
Arguments BatchMux P : clear implicits.
