(* ===== verification/Attributes.v ===== *)
(** Payload attributes: building them for the next L2 block
    (op-node/rollup/derive/attributes.go), the queue that turns batches into them
    (attributes_queue.go), and the L1 end of the pipeline (l1_traversal.go,
    l1_retrieval.go). *)
From Stdlib Require Import ZArith Lia.
From stdpp Require Import base gmap list strings numbers.
From S2P Require Import Prelude Codec Rollup Frames L1Info DepositLog Batches.

(** ** Building attributes *)

(** [eth.PayloadAttributes]; withdrawals are absent or empty. *)
Record PayloadAttributes : Type := mkPayloadAttributes {
  pa_Timestamp : Z;
  pa_PrevRandao : hash;
  SuggestedFeeRecipient : list Z;
  Withdrawals : option (list unit);
  ParentBeaconBlockRoot : option hash;
  pa_Transactions : list (list Z);
  NoTxPool : bool;
  pa_GasLimit : option Z;
  pa_EIP1559Params : option (list Z);
}.

Definition is_deposit (tx : list Z) : bool := match tx with t :: _ => t =? DepositTxType | [] => false end.

Definition IsDepositsOnly (a : PayloadAttributes) : bool := forallb is_deposit (pa_Transactions a).

Definition set_Transactions (txs : list (list Z)) (a : PayloadAttributes) : PayloadAttributes :=
  mkPayloadAttributes (pa_Timestamp a) (pa_PrevRandao a) (SuggestedFeeRecipient a) (Withdrawals a) (ParentBeaconBlockRoot a)
    txs (NoTxPool a) (pa_GasLimit a) (pa_EIP1559Params a).

Definition WithDepositsOnly (a : PayloadAttributes) : PayloadAttributes :=
  set_Transactions (filter (fun tx => is_deposit tx = true) (pa_Transactions a)) a.

(** The L1 and L2 chains, as the node sees them; an answer may be an error. *)
Record L1ReceiptsFetcher : Type := mkL1ReceiptsFetcher {
  InfoByHash : hash -> outcome BlockInfo;
  FetchReceipts : hash -> outcome (BlockInfo * list Receipt);
}.

(** The constant lists of transactions of the network upgrades, with their contract
    code (ecotone_, fjord_ and isthmus_upgrade_transactions.go). *)
Class UpgradeTransactions : Type := {
  EcotoneNetworkUpgradeTransactions : outcome (list (list Z));
  FjordNetworkUpgradeTransactions : outcome (list (list Z));
  IsthmusNetworkUpgradeTransactions : outcome (list (list Z));
}.

Definition SequencerFeeVaultAddr : list Z := be_encode 20 0x4200000000000000000000000000000000000011.

(** An error of [m], wrapped. *)
Definition wrap_error {A} (f : string -> string) (m : outcome A) : outcome A :=
  match m with Err e => Err (f e) | r => r end.

Section Builder.
Context {K : Keccak} {G : Geth} {U : UpgradeTransactions}.
Context (cfg : Config) (l1 : L1ReceiptsFetcher) (SystemConfigByL2Hash : hash -> outcome SystemConfig).

(** The L1 information, the user deposits, the sequence number and the
    configuration for a block with the origin [epoch]. *)
Definition epoch_inputs (l2Parent : L2BlockRef) (epoch : BlockID) (sysConfig : SystemConfig)
    : outcome (BlockInfo * list (list Z) * Z * SystemConfig) :=
  if negb (b_Number (L1Origin l2Parent) =? b_Number epoch) then
    '(info, receipts) ← wrap_error NewTemporaryError (FetchReceipts l1 (b_Hash epoch));
    if decide (b_Hash (L1Origin l2Parent) <> bi_ParentHash info)
    then Err (NewResetError "cannot create new block with L1 origin on top of L1 origin")
    else
      match DeriveDeposits receipts (DepositContractAddress cfg) with
      | (deposits, []) =>
          match UpdateSystemConfigWithL1Receipts sysConfig receipts cfg (bi_Time info) with
          | (sysConfig, []) => Ok (info, deposits, 0, sysConfig)
          | (_, _) => Err (NewCriticalError "failed to apply derived L1 sysCfg updates")
          end
      | (_, _) => Err (NewCriticalError "failed to derive some deposits")
      end
  else if decide (b_Hash (L1Origin l2Parent) <> b_Hash epoch)
  then Err (NewResetError "cannot create new block with L1 origin in conflict with L1 origin")
  else
    info ← wrap_error NewTemporaryError (InfoByHash l1 (b_Hash epoch));
    Ok (info, [], uadd 64 (SequenceNumber l2Parent) 1, sysConfig).

(** The upgrade transactions of the block at a time. *)
Definition upgrade_transactions (nextL2Time : Z) : outcome (list (list Z)) :=
  let crit m := wrap_error NewCriticalError m in
  ecotone ← (if IsEcotoneActivationBlock cfg nextL2Time then crit EcotoneNetworkUpgradeTransactions else Ok []);
  fjord ← (if IsFjordActivationBlock cfg nextL2Time then crit FjordNetworkUpgradeTransactions else Ok []);
  isthmus ← (if IsIsthmusActivationBlock cfg nextL2Time then crit IsthmusNetworkUpgradeTransactions else Ok []);
  Ok (ecotone ++ fjord ++ isthmus).

Definition PreparePayloadAttributes (l2Parent : L2BlockRef) (epoch : BlockID) : outcome PayloadAttributes :=
  sysConfig ← wrap_error NewTemporaryError (SystemConfigByL2Hash (l2_Hash l2Parent));
  '(l1Info, depositTxs, seqNumber, sysConfig) ← epoch_inputs l2Parent epoch sysConfig;
  let nextL2Time := uadd 64 (l2_Time l2Parent) (BlockTime cfg) in
  if nextL2Time <? bi_Time l1Info then Err (NewResetError "cannot build L2 block for time before L1 origin")
  else
    upgradeTxs ← upgrade_transactions nextL2Time;
    l1InfoTx ← wrap_error NewCriticalError (L1InfoDepositBytes cfg sysConfig seqNumber l1Info nextL2Time);
    Ok (mkPayloadAttributes nextL2Time (bi_MixDigest l1Info) SequencerFeeVaultAddr
          (if IsCanyon cfg nextL2Time then Some [] else None)
          (if IsEcotone cfg nextL2Time then Some (default zero_hash (bi_ParentBeaconRoot l1Info)) else None)
          (l1InfoTx :: depositTxs ++ upgradeTxs) true (Some (GasLimit sysConfig))
          (if IsHolocene cfg nextL2Time then Some (EIP1559Params sysConfig) else None)).

End Builder.

(** ** The attributes queue *)

(** What the batch stages promise to the queue: the next batch on top of a block,
    and whether it ends its span. *)
Class SingularProvider (P : Type) : Type := {
  NextSingularBatch : L2BlockRef -> stage P (SingularBatch * bool);
  singular_Origin : P -> L1BlockRef;
  singular_Flush : stage P unit;
}.

Record AttributesWithParent : Type := mkAttributesWithParent {
  aw_Attributes : PayloadAttributes;
  aw_Parent : L2BlockRef;
  Concluding : bool;
  DerivedFrom : L1BlockRef;
}.

Definition aw_WithDepositsOnly (a : AttributesWithParent) : AttributesWithParent :=
  mkAttributesWithParent (WithDepositsOnly (aw_Attributes a)) (aw_Parent a) (Concluding a) (DerivedFrom a).

Definition IsDerived (a : AttributesWithParent) : bool :=
  negb (bool_decide (DerivedFrom a = mkL1BlockRef zero_hash 0 zero_hash 0)).

Section Queue.
Context {P : Type} {SP : SingularProvider P}.
Context (builder : L2BlockRef -> BlockID -> outcome PayloadAttributes).

Record AttributesQueue : Type := mkAttributesQueue {
  aq_config : Config;
  aq_prev : P;
  aq_batch : option SingularBatch;
  concluding : bool;
  lastAttribs : option AttributesWithParent;
}.

Implicit Types aq : AttributesQueue.

Definition NewAttributesQueue (cfg : Config) (prev : P) : AttributesQueue := mkAttributesQueue cfg prev None false None.

Definition aq_Origin aq : L1BlockRef := singular_Origin (aq_prev aq).

Definition set_NoTxPool (b : bool) (a : PayloadAttributes) : PayloadAttributes :=
  mkPayloadAttributes (pa_Timestamp a) (pa_PrevRandao a) (SuggestedFeeRecipient a) (Withdrawals a) (ParentBeaconBlockRoot a)
    (pa_Transactions a) b (pa_GasLimit a) (pa_EIP1559Params a).

Definition createNextAttributes (cfg : Config) (batch : SingularBatch) (l2SafeHead : L2BlockRef) : outcome PayloadAttributes :=
  if decide (ParentHash batch <> l2_Hash l2SafeHead) then Err (NewResetError "valid batch has bad parent hash")
  else if negb (uadd 64 (l2_Time l2SafeHead) (BlockTime cfg) =? Timestamp batch)
  then Err (NewResetError "valid batch has bad timestamp")
  else
    attrs ← builder l2SafeHead (Epoch batch);
    Ok (set_Transactions (pa_Transactions attrs ++ Transactions batch) (set_NoTxPool true attrs)).

(** The buffered batch, or the next one. *)
Definition fetch_batch (parent : L2BlockRef) : stage AttributesQueue SingularBatch := fun aq =>
  match aq_batch aq with
  | Some b => (Ok b, aq)
  | None =>
      match NextSingularBatch parent (aq_prev aq) with
      | (Ok (b, c), prev) => (Ok b, mkAttributesQueue (aq_config aq) prev (Some b) c (lastAttribs aq))
      | (Err e, prev) => (Err e, mkAttributesQueue (aq_config aq) prev None (concluding aq) (lastAttribs aq))
      | (Panic e, prev) => (Panic e, mkAttributesQueue (aq_config aq) prev None (concluding aq) (lastAttribs aq))
      end
  end.

Definition NextAttributes (parent : L2BlockRef) : stage AttributesQueue AttributesWithParent := fun aq =>
  match fetch_batch parent aq with
  | (Ok batch, aq) =>
      match createNextAttributes (aq_config aq) batch parent with
      | Ok attrs =>
          let attr := mkAttributesWithParent attrs parent (concluding aq) (aq_Origin aq) in
          (Ok attr, mkAttributesQueue (aq_config aq) (aq_prev aq) None false (Some attr))
      | Err e => (Err e, aq)
      | Panic e => (Panic e, aq)
      end
  | (Err e, aq) => (Err e, aq)
  | (Panic e, aq) => (Panic e, aq)
  end.

Definition aq_reset aq : AttributesQueue := mkAttributesQueue (aq_config aq) (aq_prev aq) None false None.

Definition aq_Reset : stage AttributesQueue unit := fun aq => (Err EOF, aq_reset aq).

Definition DepositsOnlyAttributes (parent : BlockID) (derivedFrom : L1BlockRef) : stage AttributesQueue AttributesWithParent := fun aq =>
  match aq_batch aq, lastAttribs aq with
  | Some _, _ => (Err "unexpected buffered batch", aq)
  | None, None => (Err "no attributes generated yet", aq)
  | None, Some last =>
      if decide (derivedFrom <> DerivedFrom last) then (Err "unexpected derivation origin", aq)
      else if decide (parent <> L2BlockRef_ID (aw_Parent last)) then (Err "unexpected parent", aq)
      else
        match singular_Flush (aq_prev aq) with
        | (Ok _, prev) =>
            let attrs := aw_WithDepositsOnly last in
            (Ok attrs, mkAttributesQueue (aq_config aq) prev (aq_batch aq) (concluding aq) (Some attrs))
        | (Err e, prev) => (Err e, mkAttributesQueue (aq_config aq) prev (aq_batch aq) (concluding aq) (lastAttribs aq))
        | (Panic e, prev) => (Panic e, mkAttributesQueue (aq_config aq) prev (aq_batch aq) (concluding aq) (lastAttribs aq))
        end
  end.

End Queue.

(** ** L1 traversal *)

Record L1Traversal : Type := mkL1Traversal {
  block : L1BlockRef;
  done_ : bool;
  tr_sysCfg : SystemConfig;
  tr_cfg : Config;
}.

Definition NotFound : string := "not found".

Section Traversal.
Context {K : Keccak}.
Context (L1BlockRefByNumber : Z -> outcome L1BlockRef) (l1 : L1ReceiptsFetcher).

(** The next block, once. *)
Definition NextL1Block : stage L1Traversal L1BlockRef := fun l1t =>
  if negb (done_ l1t) then (Ok (block l1t), mkL1Traversal (block l1t) true (tr_sysCfg l1t) (tr_cfg l1t))
  else (Err EOF, l1t).

(** Updates before one that fails are kept: they were made in place. *)
Definition AdvanceL1Block : stage L1Traversal unit := fun l1t =>
  match L1BlockRefByNumber (uadd 64 (l1_Number (block l1t)) 1) with
  | Ok nextL1Origin =>
      if decide (l1_Hash (block l1t) <> l1_ParentHash nextL1Origin) then (Err (NewResetError "detected L1 reorg"), l1t)
      else
        match FetchReceipts l1 (l1_Hash nextL1Origin) with
        | Ok (_, receipts) =>
            match UpdateSystemConfigWithL1Receipts (tr_sysCfg l1t) receipts (tr_cfg l1t) (l1_Time nextL1Origin) with
            | (sysCfg, []) => (Ok (), mkL1Traversal nextL1Origin false sysCfg (tr_cfg l1t))
            | (sysCfg, _) =>
                (Err (NewCriticalError "failed to update L1 sysCfg with receipts from block"),
                 mkL1Traversal (block l1t) (done_ l1t) sysCfg (tr_cfg l1t))
            end
        | Err e => (Err (NewTemporaryError e), l1t)
        | Panic e => (Panic e, l1t)
        end
  | Err e => (Err (if String.eqb e NotFound then EOF else NewTemporaryError e), l1t)
  | Panic e => (Panic e, l1t)
  end.

Definition tr_Reset (base : L1BlockRef) (sysCfg : SystemConfig) : stage L1Traversal unit := fun l1t =>
  (Err EOF, mkL1Traversal base false sysCfg (tr_cfg l1t)).

(** ** L1 retrieval *)

(** The data of a block: an iterator, that may fail on the way. *)
Record L1Retrieval (D : Type) : Type := mkL1Retrieval {
  lr_prev : L1Traversal;
  datas : option D;
}.
Arguments mkL1Retrieval {D} _ _.
Arguments lr_prev {D} _.
Arguments datas {D} _.

Context {D : Type} (OpenData : L1BlockRef -> list Z -> outcome D) (DataNext : stage D (list Z)).

Definition open_data : stage (L1Retrieval D) D := fun l1r =>
  match datas l1r with
  | Some d => (Ok d, l1r)
  | None =>
      match NextL1Block (lr_prev l1r) with
      | (Ok next, prev) =>
          match OpenData next (BatcherAddr (tr_sysCfg prev)) with
          | Ok d => (Ok d, mkL1Retrieval prev (Some d))
          | Err e => (Err e, mkL1Retrieval prev None)
          | Panic e => (Panic e, mkL1Retrieval prev None)
          end
      | (Err e, prev) => (Err e, mkL1Retrieval prev None)
      | (Panic e, prev) => (Panic e, mkL1Retrieval prev None)
      end
  end.

Definition lr_NextData : stage (L1Retrieval D) (list Z) := fun l1r =>
  match open_data l1r with
  | (Ok d, l1r) =>
      match DataNext d with
      | (Ok data, d) => (Ok data, mkL1Retrieval (lr_prev l1r) (Some d))
      | (Err e, d) => (Err e, mkL1Retrieval (lr_prev l1r) (if String.eqb e EOF then None else Some d))
      | (Panic e, d) => (Panic e, mkL1Retrieval (lr_prev l1r) (Some d))
      end
  | (Err e, l1r) => (Err e, l1r)
  | (Panic e, l1r) => (Panic e, l1r)
  end.

Definition lr_Reset (base : L1BlockRef) (sysCfg : SystemConfig) : stage (L1Retrieval D) unit := fun l1r =>
  match OpenData base (BatcherAddr sysCfg) with
  | Ok d => (Err EOF, mkL1Retrieval (lr_prev l1r) (Some d))
  | Err e => (Err e, mkL1Retrieval (lr_prev l1r) None)
  | Panic e => (Panic e, l1r)
  end.

Definition L1Retrieval_provider : NextDataProvider (L1Retrieval D) := {|
  NextData := lr_NextData;
  data_Origin := fun l1r => block (lr_prev l1r);
|}.

End Traversal.

Arguments AttributesQueue P : clear implicits.
