(* ===== verification/Interop.v ===== *)
(** The data of op-supervisor (supervisor/types/types.go and error.go), the chain
    ids of op-service/eth/chain_id.go and the static dependency set
    (supervisor/backend/depset/static.go). A chain id is a 256-bit integer, a
    chain index a 32-bit one, an entry of an access list a 32-byte hash. Go does
    not fix the order in which it visits a map: a loop over a map takes a stream
    of choices, and every order is the order of some stream. *)
From Stdlib Require Import ZArith Lia.
From stdpp Require Import base gmap list strings numbers sorting.
From S2P Require Import Prelude Codec Rollup.

(** ** Errors (types/error.go) *)

Definition ErrOutOfOrder : string := "data out of order".
Definition ErrDataCorruption : string := "data corruption".
Definition ErrNotExact : string := "missed data".
Definition ErrSkipped : string := "skipped data".
Definition ErrFuture : string := "future data".
Definition ErrIneffective : string := "ineffective data".
Definition ErrConflict : string := "conflicting data".
Definition ErrAwaitReplacementBlock : string := "awaiting replacement block".
Definition ErrStop : string := "iter stop".
Definition ErrOutOfScope : string := "out of scope".
Definition ErrPreviousToFirst : string := "cannot get parent of first block in the database".
Definition ErrUnknownChain : string := "unknown chain".
Definition ErrUninitialized : string := "uninitialized chain database".

(** An error that a caller does not tell from another one keeps its own text. *)
Definition is_err (e target : string) : bool := bool_decide (e = target).

(** ** The order in which a Go map is visited *)

Definition choices : Type := nat -> nat.

(** The stream after its first choice. *)
Definition later (ch : choices) : choices := fun n => ch (S n).

(** The element that the next choice selects, and the others. *)
Definition pick {A} (n : nat) (l : list A) : option (A * list A) :=
  let i := (n mod length l)%nat in
  match l !! i with
  | Some x => Some (x, delete i l)
  | None => None
  end.

Fixpoint shuffle_ {A} (fuel : nat) (ch : choices) (l : list A) : list A :=
  match fuel with
  | O => []
  | S fuel =>
      match pick (ch 0%nat) l with
      | None => []
      | Some (x, l) => x :: shuffle_ fuel (later ch) l
      end
  end.

(** [for k, v := range m]. *)
Definition shuffle {A} (ch : choices) (l : list A) : list A := shuffle_ (length l) ch l.
Definition range_map {V} (ch : choices) (m : gmap Z V) : list (Z * V) := shuffle ch (map_to_list m).

(** ** Chain ids (op-service/eth/chain_id.go) *)

Abbreviation ChainID := Z (only parsing).
Abbreviation ChainIndex := Z (only parsing).

Definition ChainIDFromUInt64 (i : Z) : ChainID := i.
Definition ChainIDFromBytes32 (b : list Z) : ChainID := be_decode b.
Definition Bytes32 (id : ChainID) : list Z := be_encode 32 id.
Definition IsUint64 (id : ChainID) : bool := id <? 2 ^ 64.
(** [uint256.Int.Uint64]: the lower 64 bits. *)
Definition lower_Uint64 (id : ChainID) : Z := wrap 64 id.
Definition ChainID_Uint64 (id : ChainID) : Z * bool := (lower_Uint64 id, IsUint64 id).
Definition EvilChainIDToUInt64 (id : ChainID) : outcome Z :=
  if negb (IsUint64 id) then Panic "ChainID too large for uint64" else Ok (lower_Uint64 id).
Definition ChainID_Cmp (id other : ChainID) : Z :=
  if id <? other then -1 else if id =? other then 0 else 1.
Definition SortChainID (ids : list ChainID) : list ChainID := merge_sort Z.le ids.

(** ** Revisions (types.go) *)

Abbreviation Revision := Z (only parsing).
Definition RevisionAny : Revision := unot 64 0.
Definition rev_Any (r : Revision) : bool := r =? RevisionAny.
(** [&^] clears the reserved upper bit. *)
Definition rev_Number (r : Revision) : Z := Z.ldiff r (2 ^ 63).
Definition rev_Cmp (r : Revision) (blockNum : Z) : Z :=
  if rev_Any r then 0
  else if blockNum <? rev_Number r then 1
  else if rev_Number r =? blockNum then 0
  else -1.

(** ** Block seals *)

Record BlockSeal : Type := mkBlockSeal {
  s_Hash : hash;
  s_Number : Z;
  s_Timestamp : Z;
}.

#[export] Instance BlockSeal_eq_dec : EqDecision BlockSeal.
Proof. solve_decision. Defined.

Abbreviation BlockRef := L1BlockRef.

Definition zero_id : BlockID := mkBlockID zero_hash 0.
Definition zero_seal : BlockSeal := mkBlockSeal zero_hash 0 0.
Definition zero_ref : BlockRef := mkL1BlockRef zero_hash 0 zero_hash 0.

Definition seal_ID (s : BlockSeal) : BlockID := mkBlockID (s_Hash s) (s_Number s).

Definition ForceWithParent (s : BlockSeal) (parent : BlockID) : BlockRef :=
  mkL1BlockRef (s_Hash s) (s_Number s) (b_Hash parent) (s_Timestamp s).

Definition WithParent (s : BlockSeal) (parent : BlockID) : outcome BlockRef :=
  if negb (s_Number s =? uadd 64 (b_Number parent) 1) && negb (s_Number s =? 0)
  then Err "invalid parent block to combine with"
  else Ok (mkL1BlockRef (s_Hash s) (s_Number s) (b_Hash parent) (s_Timestamp s)).

Definition MustWithParent (s : BlockSeal) (parent : BlockID) : outcome BlockRef :=
  match WithParent s parent with
  | Err e => Panic e
  | r => r
  end.

Definition BlockSealFromRef (ref : BlockRef) : BlockSeal :=
  mkBlockSeal (l1_Hash ref) (l1_Number ref) (l1_Time ref).

Record DerivedBlockRefPair : Type := mkRefPair {
  rp_Source : BlockRef;
  rp_Derived : BlockRef;
}.
Record DerivedBlockSealPair : Type := mkSealPair {
  sp_Source : BlockSeal;
  sp_Derived : BlockSeal;
}.
Record DerivedIDPair : Type := mkIDPair {
  ip_Source : BlockID;
  ip_Derived : BlockID;
}.

#[export] Instance DerivedBlockRefPair_eq_dec : EqDecision DerivedBlockRefPair.
Proof. solve_decision. Defined.
#[export] Instance DerivedBlockSealPair_eq_dec : EqDecision DerivedBlockSealPair.
Proof. solve_decision. Defined.

Definition zero_ref_pair : DerivedBlockRefPair := mkRefPair zero_ref zero_ref.
Definition zero_seal_pair : DerivedBlockSealPair := mkSealPair zero_seal zero_seal.

Definition refs_IDs (refs : DerivedBlockRefPair) : DerivedIDPair :=
  mkIDPair (L1BlockRef_ID (rp_Source refs)) (L1BlockRef_ID (rp_Derived refs)).
Definition refs_Seals (refs : DerivedBlockRefPair) : DerivedBlockSealPair :=
  mkSealPair (BlockSealFromRef (rp_Source refs)) (BlockSealFromRef (rp_Derived refs)).
Definition seals_IDs (seals : DerivedBlockSealPair) : DerivedIDPair :=
  mkIDPair (seal_ID (sp_Source seals)) (seal_ID (sp_Derived seals)).

(** ** Messages *)

Record ContainsQuery : Type := mkContainsQuery {
  q_Timestamp : Z;
  q_BlockNum : Z;
  q_LogIdx : Z;
  q_Checksum : hash;
}.

Record ExecutingMessage : Type := mkExecutingMessage {
  m_Chain : ChainIndex;
  m_BlockNum : Z;
  m_LogIdx : Z;
  m_Timestamp : Z;
  m_Hash : hash;
}.

#[export] Instance ExecutingMessage_eq_dec : EqDecision ExecutingMessage.
Proof. solve_decision. Defined.

Record Identifier : Type := mkIdentifier {
  i_Origin : list Z;
  i_BlockNumber : Z;
  i_LogIndex : Z;
  i_Timestamp : Z;
  i_ChainID : ChainID;
}.

Record Message : Type := mkMessage {
  msg_Identifier : Identifier;
  msg_PayloadHash : hash;
}.

Record ChecksumArgs : Type := mkChecksumArgs {
  c_BlockNumber : Z;
  c_LogIndex : Z;
  c_Timestamp : Z;
  c_ChainID : ChainID;
  c_LogHash : hash;
}.

(** Access to a message, parsed from an access list. *)
Record Access : Type := mkAccess {
  a_BlockNumber : Z;
  a_Timestamp : Z;
  a_LogIndex : Z;
  a_ChainID : ChainID;
  a_Checksum : hash;
}.

(** The topics and the data of a log of go-ethereum. *)
Record EventLog : Type := mkLog {
  log_Topics : list hash;
  log_Data : list Z;
}.

Definition PrefixLookup : Z := 1.
Definition PrefixChainIDExtension : Z := 2.
Definition PrefixChecksum : Z := 3.

Section Checksums.
Context {K : Keccak}.

Definition PayloadHashToLogHash (payloadHash : hash) (addr : list Z) : hash :=
  keccak256 (addr ++ payloadHash).

Definition LogToMessagePayload (l : EventLog) : list Z := concat (log_Topics l) ++ log_Data l.

(** The version byte replaces the first byte of the digest. *)
Definition Checksum (args : ChecksumArgs) : hash :=
  let idPacked := replicate 12 0 ++ be_encode 8 (c_BlockNumber args)
                  ++ be_encode 8 (c_Timestamp args) ++ be_encode 4 (c_LogIndex args) in
  let idLogHash := keccak256 (c_LogHash args ++ idPacked) in
  <[0%nat := PrefixChecksum]> (keccak256 (idLogHash ++ Bytes32 (c_ChainID args))).

Definition args_Access (args : ChecksumArgs) : Access :=
  mkAccess (c_BlockNumber args) (c_Timestamp args) (c_LogIndex args) (c_ChainID args) (Checksum args).

Definition Query (args : ChecksumArgs) : ContainsQuery :=
  mkContainsQuery (c_Timestamp args) (c_BlockNumber args) (c_LogIndex args) (Checksum args).

Definition id_ChecksumArgs (id : Identifier) (msgHash : hash) : ChecksumArgs :=
  mkChecksumArgs (i_BlockNumber id) (i_LogIndex id) (i_Timestamp id) (i_ChainID id)
                 (PayloadHashToLogHash msgHash (i_Origin id)).

Definition ToCheckSumArgs (m : Message) : ChecksumArgs :=
  let id := msg_Identifier m in
  mkChecksumArgs (i_BlockNumber id) (i_LogIndex id) (i_Timestamp id) (i_ChainID id)
                 (PayloadHashToLogHash (msg_PayloadHash m) (i_Origin id)).

Definition msg_Checksum (m : Message) : hash := Checksum (ToCheckSumArgs m).
Definition msg_Access (m : Message) : Access := args_Access (ToCheckSumArgs m).

End Checksums.

(** ** Access lists *)

Definition lookupEntry (acc : Access) : hash :=
  [PrefixLookup; 0; 0; 0] ++ be_encode 8 (lower_Uint64 (a_ChainID acc))
  ++ be_encode 8 (a_BlockNumber acc) ++ be_encode 8 (a_Timestamp acc) ++ be_encode 4 (a_LogIndex acc).

Definition chainIDExtensionEntry (acc : Access) : hash :=
  [PrefixChainIDExtension; 0; 0; 0; 0; 0; 0; 0] ++ slice 0 24 (Bytes32 (a_ChainID acc)).

Definition errExpectedEntry : string := "expected entry".
Definition errMalformedEntry : string := "malformed entry".
Definition errUnexpectedEntryType : string := "unexpected entry type".

Definition set_chain_id (id : ChainID) (acc : Access) : Access :=
  mkAccess (a_BlockNumber acc) (a_Timestamp acc) (a_LogIndex acc) id (a_Checksum acc).
Definition set_checksum (c : hash) (acc : Access) : Access :=
  mkAccess (a_BlockNumber acc) (a_Timestamp acc) (a_LogIndex acc) (a_ChainID acc) c.

Definition next_entry (entries : list hash) : outcome (hash * list hash) :=
  match entries with
  | [] => Err errExpectedEntry
  | e :: es => Ok (e, es)
  end.

Definition ParseAccess (entries : list hash) : outcome (list hash * Access) :=
  '(entry, entries) ← next_entry entries;
  _ ← require (byte_at 0 entry =? PrefixLookup) errUnexpectedEntryType;
  _ ← require (bool_decide (slice 1 4 entry = replicate 3 0)) errMalformedEntry;
  let access := mkAccess (be_decode (slice 12 20 entry)) (be_decode (slice 20 28 entry))
                         (be_decode (slice 28 32 entry))
                         (ChainIDFromUInt64 (be_decode (slice 4 12 entry))) zero_hash in
  '(entry, entries) ← next_entry entries;
  '(access, entry, entries) ←
    (if byte_at 0 entry =? PrefixChainIDExtension then
       _ ← require (bool_decide (slice 1 8 entry = replicate 7 0)) "expected zero bytes";
       let chIDBytes32 := splice 0 (slice 8 32 entry) (Bytes32 (a_ChainID access)) in
       let access := set_chain_id (ChainIDFromBytes32 chIDBytes32) access in
       '(entry, entries) ← next_entry entries;
       Ok (access, entry, entries)
     else Ok (access, entry, entries));
  _ ← require (byte_at 0 entry =? PrefixChecksum) errUnexpectedEntryType;
  Ok (entries, set_checksum entry access).

Definition encode_access (acc : Access) : outcome (list hash) :=
  let ext := if IsUint64 (a_ChainID acc) then [] else [chainIDExtensionEntry acc] in
  if negb (byte_at 0 (a_Checksum acc) =? PrefixChecksum) then Panic "invalid checksum entry"
  else Ok (lookupEntry acc :: ext ++ [a_Checksum acc]).

Fixpoint EncodeAccessList (accesses : list Access) : outcome (list hash) :=
  match accesses with
  | [] => Ok []
  | acc :: accesses =>
      es ← encode_access acc;
      out ← EncodeAccessList accesses;
      Ok (es ++ out)
  end.

(** "This process can be repeated until no entries are left"; an access takes
    two entries or more. *)
Fixpoint parse_access_list (fuel : nat) (entries : list hash) : outcome (list Access) :=
  match entries, fuel with
  | [], _ => Ok []
  | _, O => Panic "out of fuel"
  | _, S fuel =>
      '(rest, acc) ← ParseAccess entries;
      accs ← parse_access_list fuel rest;
      Ok (acc :: accs)
  end.

(** ** Executing descriptors *)

Record ExecutingDescriptor : Type := mkExecutingDescriptor {
  ed_Timestamp : Z;
  ed_Timeout : Z;
}.

Definition AccessCheck (ed : ExecutingDescriptor) (expiryWindow initMsgTimestamp : Z) : outcome unit :=
  if ed_Timestamp ed <? initMsgTimestamp then Err ErrConflict
  else if ed_Timestamp ed =? initMsgTimestamp then Err ErrConflict
  else
    let expiryAt := uadd 64 initMsgTimestamp expiryWindow in
    if expiryAt <? initMsgTimestamp then Err ErrConflict
    else if expiryAt <? ed_Timestamp ed then Err ErrConflict
    else if ed_Timeout ed =? 0 then Ok ()
    else if uadd 64 (ed_Timestamp ed) (ed_Timeout ed) <? ed_Timestamp ed then Err ErrConflict
    else if expiryAt <? uadd 64 (ed_Timestamp ed) (ed_Timeout ed) then Err ErrConflict
    else Ok ().

(** ** Safety levels *)

Definition Finalized_lvl : string := "finalized".
Definition CrossSafe_lvl : string := "safe".
Definition LocalSafe_lvl : string := "local-safe".
Definition CrossUnsafe_lvl : string := "cross-unsafe".
Definition LocalUnsafe_lvl : string := "unsafe".
Definition Invalid_lvl : string := "invalid".

Definition lvl_Validate (lvl : string) : bool :=
  bool_decide (lvl ∈ [Invalid_lvl; Finalized_lvl; CrossSafe_lvl; LocalSafe_lvl; CrossUnsafe_lvl; LocalUnsafe_lvl]).

(** ** Dependency sets (depset/depset.go) *)

(** What the checks ask of a dependency set. *)
Class DependencySet (D : Type) : Type := {
  CanExecuteAt : D -> ChainID -> Z -> outcome bool;
  CanInitiateAt : D -> ChainID -> Z -> outcome bool;
  Chains : D -> list ChainID;
  HasChain : D -> ChainID -> bool;
  ChainIndexFromID : D -> ChainID -> outcome ChainIndex;
  ChainIDFromIndex : D -> ChainIndex -> outcome ChainID;
  MessageExpiryWindow : D -> Z;
}.

(** What they rely on: an index names at most one chain and a chain has one
    index; it does not panic. *)
Class DependencySetLaws (D : Type) `{DependencySet D} (good : D -> Prop) : Prop := {
  index_chain : forall ds i c, good ds -> ChainIDFromIndex ds i = Ok c -> c ∈ Chains ds;
  index_inj : forall ds i j c, good ds -> ChainIDFromIndex ds i = Ok c -> ChainIDFromIndex ds j = Ok c -> i = j;
  index_total : forall ds i e, ChainIDFromIndex ds i <> Panic e;
  execute_total : forall ds c t e, CanExecuteAt ds c t <> Panic e;
  initiate_total : forall ds c t e, CanInitiateAt ds c t <> Panic e;
}.

(** ** The static dependency set (depset/static.go) *)

Record StaticConfigDependency : Type := mkDependency {
  dep_ChainIndex : ChainIndex;
  ActivationTime : Z;
  HistoryMinTime : Z;
}.

Record StaticConfigDependencySet : Type := mkDependencySet {
  ds_dependencies : gmap Z StaticConfigDependency;
  ds_indexToID : gmap Z ChainID;
  ds_chainIDs : list ChainID;
  ds_overrideMessageExpiryWindow : Z;
}.

Definition MessageExpiryTimeSecondsInterop : Z := 15552000.

Fixpoint hydrate_ (deps : list (ChainID * StaticConfigDependency)) (indexToID : gmap Z ChainID)
    (chainIDs : list ChainID) : outcome (gmap Z ChainID * list ChainID) :=
  match deps with
  | [] => Ok (indexToID, chainIDs)
  | (id, dep) :: deps =>
      match indexToID !! dep_ChainIndex dep with
      | Some _ => Err "two chains cannot have the same index"
      | None => hydrate_ deps (<[dep_ChainIndex dep := id]> indexToID) (chainIDs ++ [id])
      end
  end.

Definition hydrate (ch : choices) (ds : StaticConfigDependencySet) : outcome StaticConfigDependencySet :=
  '(indexToID, chainIDs) ← hydrate_ (range_map ch (ds_dependencies ds)) ∅ [];
  Ok (mkDependencySet (ds_dependencies ds) indexToID (SortChainID chainIDs)
                      (ds_overrideMessageExpiryWindow ds)).

Definition NewStaticConfigDependencySetWithMessageExpiryOverride (ch : choices)
    (dependencies : gmap Z StaticConfigDependency) (window : Z) : outcome StaticConfigDependencySet :=
  hydrate ch (mkDependencySet dependencies ∅ [] window).

Definition NewStaticConfigDependencySet (ch : choices) (dependencies : gmap Z StaticConfigDependency) :
    outcome StaticConfigDependencySet :=
  hydrate ch (mkDependencySet dependencies ∅ [] 0).

Definition ds_CanExecuteAt (ds : StaticConfigDependencySet) (chainID : ChainID) (execTimestamp : Z) : outcome bool :=
  match ds_dependencies ds !! chainID with
  | None => Ok false
  | Some dep => Ok (ActivationTime dep <=? execTimestamp)
  end.

Definition ds_CanInitiateAt (ds : StaticConfigDependencySet) (chainID : ChainID) (initTimestamp : Z) : outcome bool :=
  match ds_dependencies ds !! chainID with
  | None => Ok false
  | Some dep => Ok (HistoryMinTime dep <=? initTimestamp)
  end.

Definition ds_HasChain (ds : StaticConfigDependencySet) (chainID : ChainID) : bool :=
  match ds_dependencies ds !! chainID with Some _ => true | None => false end.

Definition ds_ChainIndexFromID (ds : StaticConfigDependencySet) (id : ChainID) : outcome ChainIndex :=
  match ds_dependencies ds !! id with
  | None => Err ErrUnknownChain
  | Some dep => Ok (dep_ChainIndex dep)
  end.

Definition ds_ChainIDFromIndex (ds : StaticConfigDependencySet) (index : ChainIndex) : outcome ChainID :=
  match ds_indexToID ds !! index with
  | None => Err ErrUnknownChain
  | Some id => Ok id
  end.

Definition ds_MessageExpiryWindow (ds : StaticConfigDependencySet) : Z :=
  if ds_overrideMessageExpiryWindow ds =? 0 then MessageExpiryTimeSecondsInterop
  else ds_overrideMessageExpiryWindow ds.

#[export] Instance StaticDependencySet : DependencySet StaticConfigDependencySet := {|
  CanExecuteAt := ds_CanExecuteAt;
  CanInitiateAt := ds_CanInitiateAt;
  Chains := ds_chainIDs;
  HasChain := ds_HasChain;
  ChainIndexFromID := ds_ChainIndexFromID;
  ChainIDFromIndex := ds_ChainIDFromIndex;
  MessageExpiryWindow := ds_MessageExpiryWindow;
|}.
