(* ===== verification/Cross.v ===== *)
(** The check for message cycles between the blocks of a timestamp
    (supervisor/backend/cross/cycle.go): the logs of the hazard blocks form a
    graph, which Kahn's algorithm takes apart. Every loop over a map has its own
    stream of choices, [sch n] for the n-th loop of the code. A nil hazard set is
    the empty one. *)
From Stdlib Require Import ZArith Lia.
From stdpp Require Import base gmap list strings numbers.
From S2P Require Import Prelude Rollup Interop Frames.

Definition ErrCycle : string := "cycle detected".
Definition ErrExecMsgHasInvalidIndex : string := "executing message has invalid log index".
Definition ErrExecMsgUnknownChain : string := "executing message references unknown chain".

(** The blocks that have to be checked with a candidate (hazard_set.go). *)
Record HazardSet : Type := mkHazardSet {
  h_entries : gmap Z BlockSeal;
}.

Definition NewHazardSetFromEntries (entries : gmap Z BlockSeal) : HazardSet := mkHazardSet entries.
Definition Entries (h : HazardSet) : gmap Z BlockSeal := h_entries h.

(** ** The graph *)

Record node : Type := mkNode {
  chainIndex : ChainIndex;
  logIndex : Z;
}.

#[export] Instance node_eq_dec : EqDecision node.
Proof. solve_decision. Defined.
#[export] Program Instance node_countable : Countable node :=
  inj_countable' (fun n => (chainIndex n, logIndex n)) (fun p => mkNode p.1 p.2) _.
Next Obligation. by intros []. Qed.

Record graph : Type := mkGraph {
  inDegree0 : gset node;
  inDegreeNon0 : gmap node Z;
  outgoingEdges : gmap node (list node);
}.

Definition new_graph : graph := mkGraph ∅ ∅ ∅.

Definition addEdge (from to : node) (g : graph) : graph :=
  mkGraph (inDegree0 g ∖ {[to]})
          (<[to := uadd 32 (default 0 (inDegreeNon0 g !! to)) 1]> (inDegreeNon0 g))
          (<[from := default [] (outgoingEdges g !! from) ++ [to]]> (outgoingEdges g)).

Definition add_root (k : node) (g : graph) : graph :=
  mkGraph ({[k]} ∪ inDegree0 g) (inDegreeNon0 g) (outgoingEdges g).

Definition blockSealMatchesRef (seal : BlockSeal) (ref : BlockRef) : bool :=
  (s_Number seal =? l1_Number ref) && bool_decide (s_Hash seal = l1_Hash ref).

(** ** Building it *)

(** The logs of the hazard blocks: their number, and the executing messages of
    the timestamp. *)
Record logs : Type := mkLogs {
  logCounts : gmap Z Z;
  execMsgs : gmap Z (gmap Z ExecutingMessage);
}.

Section Build.
Context {D : Type} `{DependencySet D}.
Variable depSet : D.
(** [CycleCheckDeps.OpenBlock]: the block, the number of its logs, and its
    executing messages by log index. *)
Variable OpenBlock : ChainID -> Z -> outcome (BlockRef * Z * gmap Z ExecutingMessage).
Variable inTimestamp : Z.

Definition gather_block (hazardChainIndex : ChainIndex) (hazardBlock : BlockSeal) (l : logs) : outcome logs :=
  hazardChainID ← ChainIDFromIndex depSet hazardChainIndex;
  '(bl, logCount, msgs) ← OpenBlock hazardChainID (s_Number hazardBlock);
  _ ← require (blockSealMatchesRef hazardBlock bl) "tried to open block, but got different block than expected";
  _ ← require (forallb (fun kv => kv.1 <? logCount) (map_to_list msgs)) ErrExecMsgHasInvalidIndex;
  let inTime := filter (fun kv => m_Timestamp kv.2 = inTimestamp) msgs in
  let execMsgs' :=
    if decide (msgs = ∅) then execMsgs l
    else <[hazardChainIndex := inTime ∪ default ∅ (execMsgs l !! hazardChainIndex)]> (execMsgs l) in
  Ok (mkLogs (<[hazardChainIndex := logCount]> (logCounts l)) execMsgs').

Fixpoint gather_blocks (blocks : list (Z * BlockSeal)) (l : logs) : outcome logs :=
  match blocks with
  | [] => Ok l
  | (i, b) :: blocks => l ← gather_block i b l; gather_blocks blocks l
  end.

Definition gatherLogs (ch : choices) (hazards : HazardSet) : outcome logs :=
  gather_blocks (range_map ch (Entries hazards)) (mkLogs ∅ ∅).

(** The node of a log, after the previous log of its block. *)
Definition add_log (c : ChainIndex) (g : graph) (i : Z) : graph :=
  if i =? 0 then add_root (mkNode c i) g
  else addEdge (mkNode c (i - 1)) (mkNode c i) g.

Definition add_block (g : graph) (cl : Z * Z) : graph :=
  fold_left (add_log cl.1) (zrange 0 1 (Z.to_nat cl.2)) g.

(** The edge of an executing message. *)
Definition add_message (hazardEntries : gmap Z BlockSeal) (l : logs) (hazardChainIndex : ChainIndex)
    (execLogIdx : Z) (m : ExecutingMessage) (g : graph) : outcome graph :=
  match hazardEntries !! m_Chain m with
  | None => Err ErrExecMsgUnknownChain
  | Some _ =>
      match execMsgs l !! m_Chain m ≫= (fun initChainMsgs => initChainMsgs !! m_LogIdx m) with
      | None => Ok g
      | Some _ =>
          if match logCounts l !! m_Chain m with Some logCount => logCount <=? m_LogIdx m | None => true end
          then Err ErrConflict
          else
            let initKey := mkNode (m_Chain m) (m_LogIdx m) in
            let execKey := mkNode hazardChainIndex execLogIdx in
            if bool_decide (initKey = execKey) then Err ErrConflict
            else Ok (addEdge initKey execKey g)
      end
  end.

Fixpoint add_messages (hazardEntries : gmap Z BlockSeal) (l : logs) (c : ChainIndex)
    (msgs : list (Z * ExecutingMessage)) (g : graph) : outcome graph :=
  match msgs with
  | [] => Ok g
  | (i, m) :: msgs =>
      g ← add_message hazardEntries l c i m g;
      add_messages hazardEntries l c msgs g
  end.

Fixpoint add_chains (sch : Z -> choices) (hazardEntries : gmap Z BlockSeal) (l : logs)
    (chains : list (Z * gmap Z ExecutingMessage)) (g : graph) : outcome graph :=
  match chains with
  | [] => Ok g
  | (c, msgs) :: chains =>
      g ← add_messages hazardEntries l c (range_map (sch c) msgs) g;
      add_chains sch hazardEntries l chains g
  end.

Definition buildGraph (sch : Z -> choices) (hazards : HazardSet) : outcome graph :=
  l ← gatherLogs (sch 0) hazards;
  let g := fold_left add_block (range_map (sch 1) (logCounts l)) new_graph in
  add_chains (fun c => sch (3 + c)) (Entries hazards) l (range_map (sch 2) (execMsgs l)) g.

End Build.

(** ** Taking it apart *)

(** An edge to [out] is gone. *)
Definition drop_edge (g : graph) (out : node) : graph :=
  let d := usub 32 (default 0 (inDegreeNon0 g !! out)) 1 in
  if d =? 0
  then mkGraph ({[out]} ∪ inDegree0 g) (delete out (inDegreeNon0 g)) (outgoingEdges g)
  else mkGraph (inDegree0 g) (<[out := d]> (inDegreeNon0 g)) (outgoingEdges g).

Definition remove_node (k : node) (g : graph) : graph :=
  let g := fold_left drop_edge (default [] (outgoingEdges g !! k)) g in
  mkGraph (inDegree0 g ∖ {[k]}) (inDegreeNon0 g) (delete k (outgoingEdges g)).

(** The outer loop repeats the inner one while [inDegree0] has nodes, and the
    inner one visits them in any order, the new ones now or in the next round:
    both together take one node after the other until none is left. *)
Fixpoint checkGraph_ (fuel : nat) (ch : choices) (g : graph) : outcome unit :=
  match pick (ch 0%nat) (elements (inDegree0 g)) with
  | Some (k, _) =>
      match fuel with
      | O => Panic "out of fuel"
      | S fuel => checkGraph_ fuel (later ch) (remove_node k g)
      end
  | None => if decide (inDegreeNon0 g = ∅) then Ok () else Err ErrCycle
  end.

(** A round removes a node. *)
Definition checkGraph (ch : choices) (g : graph) : outcome unit :=
  checkGraph_ (size (inDegree0 g) + size (inDegreeNon0 g)) ch g.

Definition HazardCycleChecks {D} `{DependencySet D} (depSet : D)
    (OpenBlock : ChainID -> Z -> outcome (BlockRef * Z * gmap Z ExecutingMessage))
    (inTimestamp : Z) (sch : Z -> choices) (ch : choices) (hazards : HazardSet) : outcome unit :=
  g ← buildGraph depSet OpenBlock inTimestamp sch hazards;
  checkGraph ch g.

(** Promotion of blocks across chains (supervisor/backend/cross): the blocks that
    a candidate depends on within its timestamp (hazard_set.go, safe_start.go,
    unsafe_start.go), the frontier they must be in (safe_frontier.go,
    unsafe_frontier.go) and the update of the cross-safe and the cross-unsafe head
    (safe_update.go, unsafe_update.go). The database behind the checks is a class
    per interface of the code; ChainsDB.v is an instance. *)

(** ** Hazard sets (hazard_set.go) *)

Section HazardSets.
Context {K : Keccak}.
Context {D : Type} `{DependencySet D}.

Record HazardDeps : Type := mkHazardDeps {
  hd_Contains : ChainID -> ContainsQuery -> outcome BlockSeal;
  hd_DependencySet : D;
  hd_IsCrossValidBlock : ChainID -> BlockID -> outcome unit;
  hd_OpenBlock : ChainID -> Z -> outcome (BlockRef * Z * gmap Z ExecutingMessage);
}.

Record potentialHazard : Type := mkPotentialHazard {
  ph_chainID : ChainID;
  ph_block : BlockSeal;
}.

Definition checkChainCanExecute (depSet : D) (chainID : ChainID) (block : BlockSeal)
    (execMsgs : gmap Z ExecutingMessage) : outcome unit :=
  if decide (execMsgs = ∅) then Ok ()
  else ok ← CanExecuteAt depSet chainID (s_Timestamp block);
       if ok : bool then Ok () else Err ErrConflict.

Definition checkChainCanInitiate (depSet : D) (initChainID : ChainID) (msg : ExecutingMessage) : outcome unit :=
  ok ← CanInitiateAt depSet initChainID (m_Timestamp msg);
  if ok : bool then Ok () else Err ErrConflict.

Definition checkMessageWithOlderTimestamp (deps : HazardDeps) (msg : ExecutingMessage) (initChainID : ChainID)
    (includedIn : BlockSeal) (candidateTimestamp : Z) : outcome unit :=
  _ ← hd_IsCrossValidBlock deps initChainID (seal_ID includedIn);
  let expiresAt := uadd 64 (m_Timestamp msg) (MessageExpiryWindow (hd_DependencySet deps)) in
  if expiresAt <? candidateTimestamp then Err ErrConflict else Ok ().

(** Whether the chain of the message has its block in the set already. *)
Definition checkMessageWithCurrentTimestamp (h : HazardSet) (msg : ExecutingMessage) (includedIn : BlockSeal) :
    outcome bool :=
  match h_entries h !! m_Chain msg with
  | Some existing =>
      if bool_decide (seal_ID existing = seal_ID includedIn) then Ok true
      else Err "found dependency, but already depend on another block"
  | None => Ok false
  end.

(** [types.ErrUnknownChain] of a lookup becomes a conflict. *)
Definition chain_of_message (depSet : D) (i : ChainIndex) : outcome ChainID :=
  match ChainIDFromIndex depSet i with
  | Err e => if is_err e ErrUnknownChain then Err ErrConflict else Err e
  | r => r
  end.

Definition message_query (srcChainID : ChainID) (msg : ExecutingMessage) : ContainsQuery :=
  Query (mkChecksumArgs (m_BlockNum msg) (m_LogIdx msg) (m_Timestamp msg) srcChainID (m_Hash msg)).

(** The body of the loop over the messages of [candidate]. *)
Definition process_message (deps : HazardDeps) (candidate : BlockSeal) (msg : ExecutingMessage)
    (h : HazardSet) (stack : list potentialHazard) : outcome (HazardSet * list potentialHazard) :=
  let depSet := hd_DependencySet deps in
  srcChainID ← chain_of_message depSet (m_Chain msg);
  _ ← checkChainCanInitiate depSet srcChainID msg;
  includedIn ← hd_Contains deps srcChainID (message_query srcChainID msg);
  if m_Timestamp msg <? s_Timestamp candidate then
    _ ← checkMessageWithOlderTimestamp deps msg srcChainID includedIn (s_Timestamp candidate);
    Ok (h, stack)
  else if m_Timestamp msg =? s_Timestamp candidate then
    exists_ ← checkMessageWithCurrentTimestamp h msg includedIn;
    if exists_ : bool then Ok (h, stack)
    else Ok (mkHazardSet (<[m_Chain msg := includedIn]> (h_entries h)),
             stack ++ [mkPotentialHazard srcChainID includedIn])
  else Err ErrConflict.

Fixpoint process_messages (deps : HazardDeps) (candidate : BlockSeal) (msgs : list (Z * ExecutingMessage))
    (h : HazardSet) (stack : list potentialHazard) : outcome (HazardSet * list potentialHazard) :=
  match msgs with
  | [] => Ok (h, stack)
  | (_, msg) :: msgs =>
      '(h, stack) ← process_message deps candidate msg h stack;
      process_messages deps candidate msgs h stack
  end.

Definition process_block (ch : choices) (deps : HazardDeps) (next : potentialHazard) (h : HazardSet)
    (stack : list potentialHazard) : outcome (HazardSet * list potentialHazard) :=
  let candidate := ph_block next in
  let destChainID := ph_chainID next in
  '(opened, _, execMsgs) ← hd_OpenBlock deps destChainID (s_Number candidate);
  _ ← require (bool_decide (L1BlockRef_ID opened = seal_ID candidate)) ErrConflict;
  _ ← checkChainCanExecute (hd_DependencySet deps) destChainID candidate execMsgs;
  process_messages deps candidate (range_map ch execMsgs) h stack.

(** [sch n] is the order of the messages of the block that is taken with [n]
    rounds left. *)
Fixpoint build (fuel : nat) (sch : nat -> choices) (deps : HazardDeps) (h : HazardSet)
    (stack : list potentialHazard) : outcome HazardSet :=
  match top stack with
  | None => Ok h
  | Some next =>
      match fuel with
      | O => Panic "out of fuel"
      | S fuel =>
          '(h, stack) ← process_block (sch fuel) deps next h (pop stack);
          build fuel sch deps h stack
      end
  end.

(** A block is pushed with a chain that is new in the set: there is a round per
    chain, and one for the candidate. *)
Definition NewHazardSet (sch : nat -> choices) (deps : HazardDeps) (chainID : ChainID) (block : BlockSeal) :
    outcome HazardSet :=
  build (S (length (Chains (hd_DependencySet deps)))) sch deps (mkHazardSet ∅)
        [mkPotentialHazard chainID block].

End HazardSets.

Arguments HazardDeps : clear implicits.

(** ** The databases behind the checks *)

(** What both heads need: the logs of every chain and the dependency set. *)
Class LogDeps (D S : Type) : Type := {
  Contains : S -> ChainID -> ContainsQuery -> outcome BlockSeal;
  OpenBlock : S -> ChainID -> Z -> outcome (BlockRef * Z * gmap Z ExecutingMessage);
  DependencySet_ : S -> D;
}.

(** [SafeFrontierCheckDeps], [SafeStartDeps] and [CrossSafeDeps]. The candidate
    comes with an error or without. *)
Class CrossSafeDeps (D S : Type) `{LogDeps D S} : Type := {
  CrossSafe : S -> ChainID -> outcome DerivedBlockSealPair;
  CandidateCrossSafe : S -> ChainID -> DerivedBlockRefPair * outcome unit;
  CrossDerivedToSource : S -> ChainID -> BlockID -> outcome BlockSeal;
  NextSource : S -> ChainID -> BlockID -> outcome BlockRef;
  PreviousCrossDerived : S -> ChainID -> BlockID -> outcome BlockSeal;
  UpdateCrossSafe : ChainID -> BlockRef -> BlockRef -> stage S unit;
  InvalidateLocalSafe : ChainID -> DerivedBlockRefPair -> stage S unit;
}.

(** [UnsafeFrontierCheckDeps], [UnsafeStartDeps] and [CrossUnsafeDeps]. *)
Class CrossUnsafeDeps (D S : Type) `{LogDeps D S} : Type := {
  CrossUnsafe : S -> ChainID -> outcome BlockSeal;
  FindBlockID : S -> ChainID -> Z -> outcome BlockID;
  IsCrossUnsafe : S -> ChainID -> BlockID -> outcome unit;
  IsLocalUnsafe : S -> ChainID -> BlockID -> outcome unit;
  UpdateCrossUnsafe : ChainID -> BlockSeal -> stage S unit;
}.

(** The orders of the loops of an update. *)
Record orders : Type := mkOrders {
  o_hazards : nat -> choices;
  o_frontier : choices;
  o_build : Z -> choices;
  o_check : choices;
}.

(** ** Cross-safe *)

Section Safe.
Context {K : Keccak}.
Context {D S : Type} `{DependencySet D} `{LD : !LogDeps D S} `{CD : !CrossSafeDeps D S}.

(** safe_start.go *)

Definition SafeHazardDeps_IsCrossValidBlock (s : S) (inL1Source : BlockID) (chainID : ChainID) (derived : BlockID) :
    outcome unit :=
  initSource ← CrossDerivedToSource s chainID derived;
  if b_Number inL1Source <? s_Number initSource then Err ErrOutOfScope else Ok ().

Definition SafeHazardDeps (s : S) (inL1Source : BlockID) : HazardDeps D :=
  mkHazardDeps (Contains s) (DependencySet_ s) (SafeHazardDeps_IsCrossValidBlock s inL1Source) (OpenBlock s).

Definition CrossSafeHazards (sch : nat -> choices) (s : S) (chainID : ChainID) (inL1Source : BlockID)
    (candidate : BlockSeal) : outcome HazardSet :=
  NewHazardSet sch (SafeHazardDeps s inL1Source) chainID candidate.

(** safe_frontier.go *)

Definition safe_frontier_check (s : S) (inL1Source : BlockID) (hazardChainIndex : ChainIndex)
    (hazardBlock : BlockSeal) : outcome unit :=
  hazardChainID ← chain_of_message (DependencySet_ s) hazardChainIndex;
  match CrossDerivedToSource s hazardChainID (seal_ID hazardBlock) with
  | Ok initSource => if b_Number inL1Source <? s_Number initSource then Err ErrOutOfScope else Ok ()
  | Panic e => Panic e
  | Err e =>
      if is_err e ErrFuture then
        let '(candidate, err) := CandidateCrossSafe s hazardChainID in
        _ ← err;
        if (l1_Number (rp_Derived candidate) =? s_Number hazardBlock)
           && negb (bool_decide (L1BlockRef_ID (rp_Derived candidate) = seal_ID hazardBlock))
        then Err ErrConflict
        else if b_Number inL1Source <? l1_Number (rp_Source candidate) then Err ErrOutOfScope
        else Ok ()
      else Err e
  end.

Fixpoint frontier_checks (check : ChainIndex -> BlockSeal -> outcome unit) (entries : list (Z * BlockSeal)) :
    outcome unit :=
  match entries with
  | [] => Ok ()
  | (i, b) :: entries => _ ← check i b; frontier_checks check entries
  end.

Definition HazardSafeFrontierChecks (ch : choices) (s : S) (inL1Source : BlockID) (hazards : HazardSet) :
    outcome unit :=
  frontier_checks (safe_frontier_check s inL1Source) (range_map ch (Entries hazards)).

(** safe_update.go *)

(** The checks of a candidate, without a change of the database. *)
Definition safe_checks (o : orders) (chainID : ChainID) (s : S) (candidate : DerivedBlockRefPair) : outcome unit :=
  let scope := L1BlockRef_ID (rp_Source candidate) in
  hazards ← CrossSafeHazards (o_hazards o) s chainID scope (BlockSealFromRef (rp_Derived candidate));
  _ ← HazardSafeFrontierChecks (o_frontier o) s scope hazards;
  HazardCycleChecks (DependencySet_ s) (OpenBlock s) (l1_Time (rp_Derived candidate)) (o_build o) (o_check o) hazards.

Definition scopedCrossSafeUpdate (o : orders) (chainID : ChainID) (s : S) :
    DerivedBlockRefPair * outcome unit * S :=
  let '(candidate, err) := CandidateCrossSafe s chainID in
  match _ ← err; safe_checks o chainID s candidate with
  | Ok _ =>
      let '(r, s) := UpdateCrossSafe chainID (rp_Source candidate) (rp_Derived candidate) s in
      (candidate, r, s)
  | e => (candidate, e, s)
  end.

(** The scope grows by an L1 block, with the same cross-safe block. *)
Definition bump_scope (chainID : ChainID) (candidate : DerivedBlockRefPair) : stage S unit := fun s =>
  match (newScope ← NextSource s chainID (L1BlockRef_ID (rp_Source candidate));
         currentCrossSafe ← CrossSafe s chainID;
         parent ← PreviousCrossDerived s chainID (seal_ID (sp_Derived currentCrossSafe));
         crossSafeRef ← MustWithParent (sp_Derived currentCrossSafe) (seal_ID parent);
         Ok (newScope, crossSafeRef)) with
  | Ok (newScope, crossSafeRef) => UpdateCrossSafe chainID newScope crossSafeRef s
  | Err e => (Err e, s)
  | Panic e => (Panic e, s)
  end.

Definition CrossSafeUpdate (o : orders) (chainID : ChainID) : stage S unit := fun s =>
  match scopedCrossSafeUpdate o chainID s with
  | (_, Ok _, s) => (Ok (), s)
  | (_, Panic e, s) => (Panic e, s)
  | (candidate, Err e, s) =>
      if is_err e ErrAwaitReplacementBlock then (Err e, s)
      else if is_err e ErrConflict then InvalidateLocalSafe chainID candidate s
      else if negb (is_err e ErrOutOfScope) then (Err e, s)
      else if bool_decide (rp_Source candidate = zero_ref) then (Err e, s)
      else bump_scope chainID candidate s
  end.

End Safe.

(** ** Cross-unsafe *)

Section Unsafe.
Context {K : Keccak}.
Context {D S : Type} `{DependencySet D} `{LD : !LogDeps D S} `{CD : !CrossUnsafeDeps D S}.

(** unsafe_start.go *)

Definition UnsafeHazardDeps (s : S) : HazardDeps D :=
  mkHazardDeps (Contains s) (DependencySet_ s) (IsCrossUnsafe s) (OpenBlock s).

Definition CrossUnsafeHazards (sch : nat -> choices) (s : S) (chainID : ChainID) (candidate : BlockSeal) :
    outcome HazardSet :=
  NewHazardSet sch (UnsafeHazardDeps s) chainID candidate.

(** unsafe_frontier.go *)

Definition unsafe_frontier_check (s : S) (hazardChainIndex : ChainIndex) (hazardBlock : BlockSeal) : outcome unit :=
  hazardChainID ← chain_of_message (DependencySet_ s) hazardChainIndex;
  match IsCrossUnsafe s hazardChainID (seal_ID hazardBlock) with
  | Err e =>
      if is_err e ErrFuture then
        _ ← IsLocalUnsafe s hazardChainID (seal_ID hazardBlock);
        if 0 <? s_Number hazardBlock then
          parent ← FindBlockID s hazardChainID (s_Number hazardBlock - 1);
          IsCrossUnsafe s hazardChainID parent
        else Ok ()
      else Err e
  | r => r
  end.

Definition HazardUnsafeFrontierChecks (ch : choices) (s : S) (hazards : HazardSet) : outcome unit :=
  frontier_checks (unsafe_frontier_check s) (range_map ch (Entries hazards)).

(** unsafe_update.go *)

(** The block after the cross-unsafe head. *)
Definition unsafe_candidate (chainID : ChainID) (crossUnsafe : BlockSeal) (s : S) : outcome BlockSeal :=
  '(bl, _, _) ← OpenBlock s chainID (uadd 64 (s_Number crossUnsafe) 1);
  if negb (bool_decide (l1_ParentHash bl = s_Hash crossUnsafe)) then Err ErrConflict
  else Ok (BlockSealFromRef bl).

Definition unsafe_checks (o : orders) (chainID : ChainID) (s : S) (candidate : BlockSeal) : outcome unit :=
  hazards ← CrossUnsafeHazards (o_hazards o) s chainID candidate;
  _ ← HazardUnsafeFrontierChecks (o_frontier o) s hazards;
  HazardCycleChecks (DependencySet_ s) (OpenBlock s) (s_Timestamp candidate) (o_build o) (o_check o) hazards.

Definition CrossUnsafeUpdate (o : orders) (chainID : ChainID) : stage S unit := fun s =>
  match CrossUnsafe s chainID with
  | Err e => if is_err e ErrFuture then (Ok (), s) else (Err e, s)
  | Panic e => (Panic e, s)
  | Ok crossUnsafe =>
      match candidate ← unsafe_candidate chainID crossUnsafe s;
            _ ← unsafe_checks o chainID s candidate;
            Ok candidate with
      | Ok candidate => UpdateCrossUnsafe chainID candidate s
      | Err e => (Err e, s)
      | Panic e => (Panic e, s)
      end
  end.

End Unsafe.

(** ** The workers *)

Inductive worker_event : Set :=
| UpdateCrossSafeRequestEvent
| UpdateCrossUnsafeRequestEvent
| OtherEvent.

(** An error is logged and dropped. *)
Definition CrossSafeWorker_OnEvent {K : Keccak} {D S} `{DependencySet D} `{LD : !LogDeps D S} `{!CrossSafeDeps D S}
    (o : orders) (chainID : ChainID) (ev : worker_event) : stage S bool := fun s =>
  match ev with
  | UpdateCrossSafeRequestEvent =>
      match CrossSafeUpdate o chainID s with
      | (Panic e, s) => (Panic e, s)
      | (_, s) => (Ok true, s)
      end
  | _ => (Ok false, s)
  end.

Definition CrossUnsafeWorker_OnEvent {K : Keccak} {D S} `{DependencySet D} `{LD : !LogDeps D S} `{!CrossUnsafeDeps D S}
    (o : orders) (chainID : ChainID) (ev : worker_event) : stage S bool := fun s =>
  match ev with
  | UpdateCrossUnsafeRequestEvent =>
      match CrossUnsafeUpdate o chainID s with
      | (Panic e, s) => (Panic e, s)
      | (_, s) => (Ok true, s)
      end
  | _ => (Ok false, s)
  end.
