(* ===== verification/Position.v ===== *)
(** Positions in the tree of a dispute game
    (op-challenger/game/fault/types/position.go): a depth and the index of a
    node at that depth. *)
From Stdlib Require Import ZArith Lia.
From stdpp Require Import base list strings numbers.
From S2P Require Import Prelude.

Definition ErrPositionDepthTooSmall : string := "position depth is too small".

(** [indexAtDepth] is a [*big.Int]: [None] is the nil pointer of the zero value. *)
Record Position : Type := mkPosition {
  depth : Z;
  indexAtDepth : option Z;
}.

#[export] Instance Position_eq_dec : EqDecision Position.
Proof. solve_decision. Defined.

Definition NewPosition (depth indexAtDepth : Z) : Position := mkPosition depth (Some indexAtDepth).

(** The index of the most significant bit. *)
Definition bigMSB (x : Z) : Z := if x =? 0 then 0 else (Z.log2 (Z.abs x) + 1) - 1.

Definition NewPositionFromGIndex (x : Z) : Position :=
  let depth := bigMSB x in
  let withoutMSB := Z.lnot (Z.shiftl 1 depth) in
  let indexAtDepth := x .& withoutMSB in
  NewPosition depth indexAtDepth.

Definition RootPosition : Position := NewPositionFromGIndex 1.

Definition Depth (p : Position) : Z := depth p.

Definition IndexAtDepth (p : Position) : Z :=
  match indexAtDepth p with
  | None => 0
  | Some i => i
  end.

Definition MoveRight (p : Position) : Position := NewPosition (depth p) (IndexAtDepth p + 1).

(** [nodesAtDepth] is a Go [int]: the shift of 1 wraps around at 64 bits, and
    [big.Int.Mod] panics on zero. *)
Definition RelativeToAncestorAtDepth (ancestor : Z) (p : Position) : outcome Position :=
  if depth p <? ancestor then Err ErrPositionDepthTooSmall
  else
    let newPosDepth := usub 64 (depth p) ancestor in
    let nodesAtDepth := signed 64 (Z.shiftl 1 newPosDepth) in
    if nodesAtDepth =? 0 then Panic "division by zero"
    else
      let newIndexAtDepth := IndexAtDepth p mod Z.abs nodesAtDepth in
      Ok (NewPosition newPosDepth newIndexAtDepth).

Definition IsRootPosition (p : Position) : bool := (depth p =? 0) && (0 =? IndexAtDepth p).

Definition lshIndex (amount : Z) (p : Position) : Z := Z.shiftl (IndexAtDepth p) amount.

(** The index in the trace of the claim at this position: going right until the
    final depth has been reached. *)
Definition TraceIndex (maxDepth : Z) (p : Position) : outcome Z :=
  if maxDepth <? depth p then Panic "maxDepth < p.depth"
  else
    let rd := usub 64 maxDepth (depth p) in
    let rhs := Z.shiftl 1 rd - 1 in
    Ok (lshIndex rd p .| rhs).

Definition boolToInt (b : bool) : Z := if b then 1 else 0.

Definition move (right : bool) (p : Position) : Position :=
  NewPosition (uadd 64 (depth p) 1) (lshIndex 1 p .| boolToInt right).

Definition parentIndexAtDepth (p : Position) : Z := IndexAtDepth p / 2.

Definition RightOf (parent p : Position) : bool := negb (parentIndexAtDepth p =? IndexAtDepth parent).

Definition parent (p : Position) : Position := NewPosition (usub 64 (depth p) 1) (parentIndexAtDepth p).

Definition Attack (p : Position) : Position := move false p.

Definition Defend (p : Position) : Position := move false (move true (parent p)).

Definition ToGIndex (p : Position) : Z := Z.shiftl 1 (depth p) .| IndexAtDepth p.

(** Arithmetic of positions: the trace index, attacking and defending, the
    generalized index and relative positions. *)

(** A node of the tree, at a depth for which uint64 arithmetic does not wrap. *)
Record pos_ok (p : Position) : Prop := {
  po_depth : 0 <= depth p < 2 ^ 63;
  po_index : 0 <= IndexAtDepth p < 2 ^ depth p;
  po_some : indexAtDepth p = Some (IndexAtDepth p);
}.

(** The trace index, without the check. *)
Definition ti (D : Z) (p : Position) : Z := (IndexAtDepth p + 1) * 2 ^ (D - depth p) - 1.

Lemma pos_eq p : indexAtDepth p = Some (IndexAtDepth p) -> p = NewPosition (depth p) (IndexAtDepth p).
Proof. destruct p as [d [i |]]; [done |]. cbn. discriminate. Qed.

Lemma shiftl_lor_low a k x : 0 <= k -> 0 <= x < 2 ^ k -> Z.lor (Z.shiftl a k) x = a * 2 ^ k + x.
Proof.
  intros Hk Hx. rewrite lor_shiftl_add by done. lia.
Qed.

Lemma pow2_S d : 0 <= d -> 2 ^ (d + 1) = 2 * 2 ^ d.
Proof. intros Hd. rewrite Z.add_1_r, Z.pow_succ_r by done. done. Qed.

Lemma TraceIndex_ok D p :
  pos_ok p -> depth p <= D < 2 ^ 64 -> TraceIndex D p = Ok (ti D p).
Proof.
  intros Hp HD. destruct (po_depth p Hp). unfold TraceIndex. destruct (Z.ltb_spec D (depth p)); [lia |].
  unfold usub, wrap. rewrite Z.mod_small by lia. unfold lshIndex, ti. f_equal.
  pose proof (pow2_pos (D - depth p) ltac:(lia)).
  rewrite shiftl_lor_low; rewrite ?Z.shiftl_mul_pow2 by lia; lia.
Qed.

Lemma TraceIndex_inv D p i : TraceIndex D p = Ok i -> depth p <= D.
Proof. unfold TraceIndex. destruct (Z.ltb_spec D (depth p)); [done | lia]. Qed.

Lemma move_eq r p : 0 <= depth p < 2 ^ 64 - 1 -> move r p = NewPosition (depth p + 1) (2 * IndexAtDepth p + boolToInt r).
Proof.
  intros Hd. unfold move, uadd, wrap, lshIndex. rewrite Z.mod_small by lia. f_equal.
  rewrite shiftl_lor_low by (try lia; destruct r; cbn; lia). change (2 ^ 1) with 2. lia.
Qed.

Lemma Attack_eq p : pos_ok p -> Attack p = NewPosition (depth p + 1) (2 * IndexAtDepth p).
Proof. intros Hp. destruct (po_depth p Hp). unfold Attack. rewrite move_eq by lia. f_equal. cbn. lia. Qed.

Lemma Defend_eq p :
  pos_ok p -> depth p <> 0 -> Z.even (IndexAtDepth p) = true ->
  Defend p = NewPosition (depth p + 1) (2 * (IndexAtDepth p + 1)).
Proof.
  intros Hp Hd He. destruct (po_depth p Hp). unfold Defend, parent.
  rewrite (move_eq true) by (cbn; unfold usub, wrap; rewrite Z.mod_small by lia; lia).
  apply Zeven_bool_iff in He. apply Zeven_ex in He as [k Hk].
  cbn [depth IndexAtDepth NewPosition indexAtDepth]. unfold parentIndexAtDepth, usub, wrap.
  rewrite Z.mod_small by lia. rewrite move_eq by (cbn; lia). cbn. f_equal; [lia |].
  rewrite Hk. replace (2 * k / 2) with k by (rewrite Z.mul_comm, Z.div_mul; lia). lia.
Qed.

Lemma NewPosition_ok d i : 0 <= d < 2 ^ 63 -> 0 <= i < 2 ^ d -> pos_ok (NewPosition d i).
Proof. intros Hd Hi. by split. Qed.

Lemma Attack_ok p : pos_ok p -> depth p < 2 ^ 63 - 1 -> pos_ok (Attack p).
Proof.
  intros Hp Hd. rewrite Attack_eq by done. destruct (po_depth p Hp), (po_index p Hp).
  apply NewPosition_ok; [lia |]. rewrite pow2_S by lia. lia.
Qed.

(** An even index below the root leaves room for a sibling on the right. *)
Lemma even_room p :
  pos_ok p -> depth p <> 0 -> Z.even (IndexAtDepth p) = true -> IndexAtDepth p + 1 < 2 ^ depth p.
Proof.
  intros Hp Hd He. destruct (po_depth p Hp), (po_index p Hp).
  assert (2 ^ depth p = 2 * 2 ^ (depth p - 1)) as E by (rewrite <- Z.pow_succ_r by lia; f_equal; lia).
  apply Zeven_bool_iff in He. apply Zeven_ex in He as [k Hk]. lia.
Qed.

Lemma Defend_ok p :
  pos_ok p -> depth p <> 0 -> Z.even (IndexAtDepth p) = true -> depth p < 2 ^ 63 - 1 -> pos_ok (Defend p).
Proof.
  intros Hp H0 He Hd. rewrite Defend_eq by done. pose proof (even_room p Hp H0 He).
  destruct (po_depth p Hp), (po_index p Hp). apply NewPosition_ok; [lia |]. rewrite pow2_S by lia. lia.
Qed.

Lemma ti_Attack D p : pos_ok p -> depth p < D -> ti D (Attack p) = ti D p - 2 ^ (D - depth p - 1).
Proof.
  intros Hp Hd. rewrite Attack_eq by done. unfold ti. cbn [depth NewPosition IndexAtDepth indexAtDepth].
  assert (2 ^ (D - depth p) = 2 * 2 ^ (D - depth p - 1)) as -> by (rewrite <- pow2_S by lia; f_equal; lia).
  replace (D - (depth p + 1)) with (D - depth p - 1) by lia. lia.
Qed.

Lemma ti_Defend D p :
  pos_ok p -> depth p <> 0 -> Z.even (IndexAtDepth p) = true -> depth p < D ->
  ti D (Defend p) = ti D p + 2 ^ (D - depth p - 1).
Proof.
  intros Hp H0 He Hd. rewrite Defend_eq by done. unfold ti. cbn [depth NewPosition IndexAtDepth indexAtDepth].
  assert (2 ^ (D - depth p) = 2 * 2 ^ (D - depth p - 1)) as -> by (rewrite <- pow2_S by lia; f_equal; lia).
  replace (D - (depth p + 1)) with (D - depth p - 1) by lia. lia.
Qed.

Lemma ti_bounds D p : pos_ok p -> depth p <= D -> 0 <= ti D p < 2 ^ D.
Proof.
  intros Hp Hd. destruct (po_depth p Hp), (po_index p Hp). unfold ti.
  pose proof (pow2_pos (D - depth p) ltac:(lia)).
  replace D with (depth p + (D - depth p)) at 3 by lia. rewrite Z.pow_add_r by lia. nia.
Qed.

Lemma RightOf_Attack p : pos_ok p -> RightOf p (Attack p) = false.
Proof.
  intros Hp. rewrite Attack_eq by done. unfold RightOf, parentIndexAtDepth. cbn.
  rewrite Z.mul_comm, Z.div_mul, Z.eqb_refl by lia. done.
Qed.

Lemma RightOf_Defend p :
  pos_ok p -> depth p <> 0 -> Z.even (IndexAtDepth p) = true -> RightOf p (Defend p) = true.
Proof.
  intros Hp H0 He. rewrite Defend_eq by done. unfold RightOf, parentIndexAtDepth. cbn [IndexAtDepth NewPosition indexAtDepth].
  rewrite (Z.mul_comm 2), Z.div_mul by lia. destruct (Z.eqb_spec (IndexAtDepth p + 1) (IndexAtDepth p)); [lia | done].
Qed.

Lemma Attack_even p : pos_ok p -> Z.even (IndexAtDepth (Attack p)) = true.
Proof. intros Hp. rewrite Attack_eq by done. cbn. by rewrite Z.even_mul. Qed.

Lemma Defend_even p :
  pos_ok p -> depth p <> 0 -> Z.even (IndexAtDepth p) = true -> Z.even (IndexAtDepth (Defend p)) = true.
Proof. intros Hp H0 He. rewrite Defend_eq by done. cbn. by rewrite Z.even_mul. Qed.

(** ** Generalized indexes *)

Lemma ToGIndex_eq p : pos_ok p -> ToGIndex p = 2 ^ depth p + IndexAtDepth p.
Proof.
  intros Hp. unfold ToGIndex. pose proof (po_index p Hp). pose proof (po_depth p Hp).
  rewrite shiftl_lor_low by lia. lia.
Qed.

Lemma ToGIndex_pos p : pos_ok p -> 0 < ToGIndex p.
Proof.
  intros Hp. rewrite ToGIndex_eq by done. pose proof (po_index p Hp). pose proof (pow2_pos (depth p)).
  pose proof (po_depth p Hp). lia.
Qed.

Lemma gindex_log2 p : pos_ok p -> Z.log2 (ToGIndex p) = depth p.
Proof.
  intros Hp. rewrite ToGIndex_eq by done. pose proof (po_index p Hp). pose proof (po_depth p Hp).
  apply Z.log2_unique; [lia |]. rewrite Z.pow_succ_r by lia. lia.
Qed.

Lemma bigMSB_log2 x : 0 < x -> bigMSB x = Z.log2 x.
Proof. intros Hx. unfold bigMSB. destruct (Z.eqb_spec x 0); [lia |]. rewrite Z.abs_eq by lia. lia. Qed.

Lemma clear_msb x : 0 < x -> x .& Z.lnot (Z.shiftl 1 (Z.log2 x)) = x - 2 ^ Z.log2 x.
Proof.
  intros Hx. pose proof (Z.log2_nonneg x). rewrite <- Z.ldiff_land, Z.shiftl_mul_pow2, Z.mul_1_l by done.
  symmetry. apply Z.sub_nocarry_ldiff. apply Z.bits_inj'. intros n Hn.
  rewrite Z.ldiff_spec, Z.pow2_bits_eqb, Z.bits_0 by done.
  destruct (Z.eqb_spec (Z.log2 x) n) as [<- |]; [| done]. by rewrite Z.bit_log2.
Qed.

Lemma FromGIndex_eq x : 0 < x -> NewPositionFromGIndex x = NewPosition (Z.log2 x) (x - 2 ^ Z.log2 x).
Proof. intros Hx. unfold NewPositionFromGIndex. cbv zeta. by rewrite bigMSB_log2, clear_msb. Qed.

Lemma FromGIndex_ToGIndex p : pos_ok p -> NewPositionFromGIndex (ToGIndex p) = p.
Proof.
  intros Hp. rewrite FromGIndex_eq by (by apply ToGIndex_pos). rewrite gindex_log2 by done.
  rewrite ToGIndex_eq by done. etransitivity; [| symmetry; apply pos_eq, Hp]. f_equal. lia.
Qed.

Lemma FromGIndex_ok x : 0 < x -> Z.log2 x < 2 ^ 63 -> pos_ok (NewPositionFromGIndex x).
Proof.
  intros Hx Hl. rewrite FromGIndex_eq by done. pose proof (Z.log2_spec x Hx) as [H1 H2].
  pose proof (Z.log2_nonneg x). rewrite Z.pow_succ_r in H2 by done. apply NewPosition_ok; lia.
Qed.

Lemma ToGIndex_FromGIndex x : 0 < x -> Z.log2 x < 2 ^ 63 -> ToGIndex (NewPositionFromGIndex x) = x.
Proof.
  intros Hx Hl. rewrite ToGIndex_eq by (by apply FromGIndex_ok). rewrite FromGIndex_eq by done. cbn. lia.
Qed.

Lemma ToGIndex_inj p q : pos_ok p -> pos_ok q -> ToGIndex p = ToGIndex q -> p = q.
Proof.
  intros Hp Hq E. rewrite <- (FromGIndex_ToGIndex p), <- (FromGIndex_ToGIndex q) by done. by rewrite E.
Qed.

Lemma RootPosition_eq : RootPosition = NewPosition 0 0.
Proof. reflexivity. Qed.

Lemma RootPosition_ok : pos_ok RootPosition.
Proof. rewrite RootPosition_eq. by apply NewPosition_ok. Qed.

Lemma IsRoot_iff p : pos_ok p -> IsRootPosition p = true <-> depth p = 0.
Proof.
  intros Hp. unfold IsRootPosition. rewrite andb_true_iff, !Z.eqb_eq. split; [by intros [? _] |].
  intros Hd. split; [done |]. pose proof (po_index p Hp) as H. rewrite Hd in H. change (2 ^ 0) with 1 in H. lia.
Qed.

(** ** Relative positions *)

Lemma Relative_eq anc p :
  pos_ok p -> 0 <= anc <= depth p -> depth p - anc < 64 ->
  RelativeToAncestorAtDepth anc p = Ok (NewPosition (depth p - anc) (IndexAtDepth p mod 2 ^ (depth p - anc))).
Proof.
  intros Hp Ha Hs. pose proof (po_depth p Hp). unfold RelativeToAncestorAtDepth.
  destruct (Z.ltb_spec (depth p) anc); [lia |]. cbv zeta.
  unfold usub at 1 2 3. unfold wrap at 1 2 3. rewrite Z.mod_small by lia.
  set (k := depth p - anc) in *. rewrite Z.shiftl_mul_pow2, Z.mul_1_l by lia.
  assert (Z.abs (signed 64 (2 ^ k)) = 2 ^ k) as E.
  { unfold signed, wrap. pose proof (pow2_pos k ltac:(lia)).
    assert (2 ^ k < 2 ^ 64) by (apply Z.pow_lt_mono_r; lia). rewrite Z.mod_small by lia.
    destruct (Z.ltb_spec (2 ^ k) (2 ^ (64 - 1))) as [| Hk]; [lia |].
    assert (k = 63) as -> by (destruct (decide (k < 63)); [| lia]; assert (2 ^ k < 2 ^ (64 - 1)) by (apply Z.pow_lt_mono_r; lia); lia).
    reflexivity. }
  pose proof (pow2_pos k ltac:(lia)). destruct (Z.eqb_spec (signed 64 (2 ^ k)) 0) as [E0 |]; [rewrite E0 in E; cbn in E; lia |].
  by rewrite E.
Qed.
