(* ===== verification/Claims.v ===== *)
(** Claims, actions and the state of a dispute game
    (op-challenger/game/fault/types): types.go, actions.go and game.go. Times
    are nanoseconds since Go's zero time and durations are [int64]
    nanoseconds. An error is identified by the sentinel error it wraps. *)
From Stdlib Require Import ZArith Lia.
From stdpp Require Import base gmap list strings pretty numbers.
From S2P Require Import Prelude Position.

(** ** Game types and trace types *)

Definition CannonGameType : Z := 0.
Definition PermissionedGameType : Z := 1.
Definition AsteriscGameType : Z := 2.
Definition AsteriscKonaGameType : Z := 3.
Definition SuperCannonGameType : Z := 4.
Definition SuperPermissionedGameType : Z := 5.
Definition OPSuccinctGameType : Z := 6.
Definition FastGameType : Z := 254.
Definition AlphabetGameType : Z := 255.
Definition KailuaGameType : Z := 1337.
Definition UnknownGameType : Z := 2 ^ 32 - 1.

Definition GameType_String (t : Z) : string :=
  switch t [
    ([CannonGameType], "cannon");
    ([PermissionedGameType], "permissioned");
    ([AsteriscGameType], "asterisc");
    ([AsteriscKonaGameType], "asterisc-kona");
    ([SuperCannonGameType], "super-cannon");
    ([SuperPermissionedGameType], "super-permissioned");
    ([OPSuccinctGameType], "op-succinct");
    ([FastGameType], "fast");
    ([AlphabetGameType], "alphabet");
    ([KailuaGameType], "kailua")
  ]%string ("<invalid: " +:+ pretty t +:+ ">")%string.

Definition TraceTypeAlphabet : string := "alphabet".
Definition TraceTypeFast : string := "fast".
Definition TraceTypeCannon : string := "cannon".
Definition TraceTypeAsterisc : string := "asterisc".
Definition TraceTypeAsteriscKona : string := "asterisc-kona".
Definition TraceTypePermissioned : string := "permissioned".
Definition TraceTypeSuperCannon : string := "super-cannon".
Definition TraceTypeSuperPermissioned : string := "super-permissioned".

Definition TraceTypes : list string :=
  [TraceTypeAlphabet; TraceTypeCannon; TraceTypePermissioned; TraceTypeAsterisc; TraceTypeAsteriscKona;
   TraceTypeFast; TraceTypeSuperCannon; TraceTypeSuperPermissioned].

Definition ValidTraceType (value : string) : bool := existsb (String.eqb value) TraceTypes.

(** [TraceType.Set]: the new value of the receiver. *)
Definition TraceType_Set (value : string) : outcome string :=
  if negb (ValidTraceType value) then Err "unknown trace type" else Ok value.

Definition TraceType_GameType (t : string) : Z :=
  if String.eqb t TraceTypeCannon then CannonGameType
  else if String.eqb t TraceTypePermissioned then PermissionedGameType
  else if String.eqb t TraceTypeAsterisc then AsteriscGameType
  else if String.eqb t TraceTypeAsteriscKona then AsteriscKonaGameType
  else if String.eqb t TraceTypeFast then FastGameType
  else if String.eqb t TraceTypeAlphabet then AlphabetGameType
  else if String.eqb t TraceTypeSuperCannon then SuperCannonGameType
  else if String.eqb t TraceTypeSuperPermissioned then SuperPermissionedGameType
  else UnknownGameType.

(** ** Pre-image data for the oracle contract *)

Record PreimageOracleData : Type := mkOracleData {
  IsLocal : bool;
  OracleKey : list Z;
  oracleData : list Z;
  OracleOffset : Z;
  ZPoint : list Z;
  BlobCommitment : list Z;
  BlobProof : list Z;
}.

(** [key.LocalKeyType] of op-preimage. *)
Definition LocalKeyType : Z := 1.

Definition sliced {X} (lo hi : Z) (l : list X) : outcome (list X) :=
  if (lo <=? hi) && (hi <=? zlen l) then Ok (slice lo hi l) else Panic "slice bounds out of range".

Definition GetIdent (p : PreimageOracleData) : outcome Z :=
  k ← sliced 1 (zlen (OracleKey p)) (OracleKey p); Ok (be_decode k).

Definition GetPreimageWithoutSize (p : PreimageOracleData) : outcome (list Z) :=
  sliced 8 (zlen (oracleData p)) (oracleData p).

Definition GetPreimageWithSize (p : PreimageOracleData) : list Z := oracleData p.

Definition GetPrecompileAddress (p : PreimageOracleData) : outcome (list Z) := sliced 8 28 (oracleData p).

Definition GetPrecompileRequiredGas (p : PreimageOracleData) : outcome Z :=
  b ← sliced 28 36 (oracleData p); Ok (be_decode b).

Definition GetPrecompileInput (p : PreimageOracleData) : outcome (list Z) :=
  sliced 36 (zlen (oracleData p)) (oracleData p).

Definition NewPreimageOracleData (key data : list Z) (offset : Z) : PreimageOracleData :=
  mkOracleData (match key with [] => false | k :: _ => k =? LocalKeyType end) key data offset (replicate 32 0) [] [].

Definition NewPreimageOracleBlobData (key data : list Z) (offset : Z) (zPoint commitment proof : list Z)
    : PreimageOracleData :=
  mkOracleData false key data offset zPoint commitment proof.

(** ** Claims *)

(** Hashes and addresses are their 32 and 20 bytes. *)
Definition Hash0 : hash := replicate 32 0.
Definition Address0 : list Z := replicate 20 0.

Record Clock : Type := mkClock {
  Duration : Z;
  Timestamp : Z;
}.

Definition NewClock (duration timestamp : Z) : Clock := mkClock duration timestamp.

(** The core of a claim; [Bond] is a pointer. *)
Record ClaimData : Type := mkClaimData {
  Value : hash;
  Bond : option Z;
  Pos : Position;
}.

Record Claim : Type := mkClaim {
  Data_ : ClaimData;
  CounteredBy : list Z;
  Claimant : list Z;
  Clock_ : Clock;
  ContractIndex : Z;
  ParentContractIndex : Z;
}.

#[export] Instance Clock_eq_dec : EqDecision Clock.
Proof. solve_decision. Defined.
#[export] Instance ClaimData_eq_dec : EqDecision ClaimData.
Proof. solve_decision. Defined.
#[export] Instance Claim_eq_dec : EqDecision Claim.
Proof. solve_decision. Defined.

Abbreviation value c := (Value (Data_ c)).
Abbreviation position c := (Pos (Data_ c)).

(** The zero value [Claim{}]. A claim is equal to it only if its pointers are
    nil, so comparing the structures is comparing with [==]. *)
Definition Claim0 : Claim :=
  mkClaim (mkClaimData Hash0 None (mkPosition 0 None)) Address0 Address0 (mkClock 0 0) 0 0.

(** [ClaimData.ValueBytes]. *)
Definition ValueBytes (c : ClaimData) : list Z := take 32 (Value c).

(** What the id of a claim is the hash of. *)
Definition id_bytes (c : Claim) : list Z :=
  big_Bytes (ToGIndex (position c)) ++ value c ++ big_Bytes (ParentContractIndex c).

Definition ID {K : Keccak} (c : Claim) : hash := keccak256 (id_bytes c).

Definition IsRoot (c : Claim) : bool := IsRootPosition (position c).

(** ** Actions *)

Inductive ActionType : Set :=
| ActionTypeMove
| ActionTypeStep
| ActionTypeChallengeL2BlockNumber.

#[export] Instance ActionType_eq_dec : EqDecision ActionType.
Proof. solve_decision. Defined.

(** The output response of the rollup node and the block header of go-ethereum
    are only passed on. *)
Class L2Types : Type := {
  OutputResponse : Type;
  Header : Type;
}.

Record InvalidL2BlockNumberChallenge {L2 : L2Types} : Type := NewInvalidL2BlockNumberProof {
  Output : OutputResponse;
  Header_ : Header;
}.

Record Action {L2 : L2Types} : Type := mkAction {
  Type_ : ActionType;
  ParentClaim : Claim;
  IsAttack : bool;
  ActionValue : hash;
  PreState : list Z;
  ProofData : list Z;
  OracleData : option PreimageOracleData;
  Challenge : option InvalidL2BlockNumberChallenge;
}.

(** ** The state of a game *)

Definition ErrClaimNotFound : string := "claim not found in game state".
Definition ErrGameDepthReached : string := "game depth reached".
Definition ErrL2BlockNumberValid : string := "l2 block number is valid".
Definition ErrNotInSync : string := "local node too far behind".

Record gameState : Type := mkGameState {
  claims : list Claim;
  claimIDs : gmap (list Z) bool;
  gs_depth : Z;
}.

Definition NewGameState {K : Keccak} (claims : list Claim) (depth : Z) : gameState :=
  mkGameState claims (foldl (fun ids claim => <[ID claim := true]> ids) ∅ claims) depth.

(** [time.Time.Sub] saturates. *)
Definition time_Sub (t u : Z) : Z := Z.max (- 2 ^ 63) (Z.min (2 ^ 63 - 1) (t - u)).

Definition ChessClock (now : Z) (claim parent : Claim) : Z :=
  let duration := time_Sub now (Timestamp (Clock_ claim)) in
  if bool_decide (parent <> Claim0)
  then signed 64 (Duration (Clock_ parent) + duration)
  else duration.

Module Game.
Section Game.
Context {K : Keccak}.
Implicit Types g : gameState.

Definition AgreeWithClaimLevel (claim : Claim) (agreeWithRootClaim : bool) : bool :=
  let isOddLevel := Depth (position claim) mod 2 =? 1 in
  if agreeWithRootClaim then negb isOddLevel else isOddLevel.

Definition IsDuplicate g (claim : Claim) : bool :=
  match claimIDs g !! ID claim with
  | Some b => b
  | None => false
  end.

Definition Claims g : list Claim := claims g.

Definition MaxDepth g : Z := gs_depth g.

Definition getParent g (claim : Claim) : option Claim :=
  if IsRoot claim then None
  else if (zlen (claims g) <=? ParentContractIndex claim) || (ParentContractIndex claim <? 0) then None
  else claims g !! Z.to_nat (ParentContractIndex claim).

Definition GetParent g (claim : Claim) : outcome Claim :=
  match getParent g claim with
  | None => Err ErrClaimNotFound
  | Some parent => Ok parent
  end.

Definition DefendsParent g (claim : Claim) : bool :=
  match getParent g claim with
  | None => false
  | Some parent => RightOf (position parent) (position claim)
  end.

Definition game_ChessClock g (now : Z) (claim : Claim) : Z :=
  let parent := match getParent g claim with Some p => p | None => Claim0 end in
  ChessClock now claim parent.

(** The walk to the root: in a game whose parents come before their children it
    visits a claim at most once, so the number of claims bounds it. *)
Fixpoint ancestor_loop (fuel : nat) g (claim : Claim) (idx : Z) : outcome (option Claim) :=
  ti ← TraceIndex (gs_depth g) (position claim);
  if ti =? idx then Ok (Some claim)
  else if IsRoot claim then Ok None
  else
    match getParent g claim with
    | None => Ok None
    | Some next =>
        match fuel with
        | O => Panic "out of fuel"
        | S fuel => ancestor_loop fuel g next idx
        end
    end.

Definition AncestorWithTraceIndex g (claim : Claim) (idx : Z) : outcome (option Claim) :=
  ancestor_loop (length (claims g)) g claim idx.

(** [game.Claims()[i]], which panics out of range. *)
Definition claim_at g (i : Z) : outcome Claim :=
  if i <? 0 then Panic "index out of range"
  else match Claims g !! Z.to_nat i with
       | Some c => Ok c
       | None => Panic "index out of range"
       end.

End Game.
End Game.
