(* ===== verification/Trace.v ===== *)
(** Traces (op-challenger/game/fault/trace): the interface of a trace provider,
    the accessor that selects a provider, position translation, split games,
    and the alphabet provider. Contexts are dropped and a provider is a pure
    function of its arguments. *)
From Stdlib Require Import ZArith Lia.
From stdpp Require Import base gmap list strings numbers.
From S2P Require Import Prelude Exec Position Claims.

Import Game.

(** ** The interfaces *)

Record TraceProvider {L2 : L2Types} : Type := mkProvider {
  AbsolutePreStateCommitment : outcome hash;
  Get : Position -> outcome hash;
  GetStepData : Position -> outcome (list Z * list Z * option PreimageOracleData);
  GetL2BlockNumberChallenge : outcome InvalidL2BlockNumberChallenge;
}.

Record TraceAccessor {L2 : L2Types} : Type := mkAccessor {
  accessor_Get : gameState -> Claim -> Position -> outcome hash;
  accessor_GetStepData : gameState -> Claim -> Position -> outcome (list Z * list Z * option PreimageOracleData);
  accessor_GetL2BlockNumberChallenge : gameState -> outcome InvalidL2BlockNumberChallenge;
}.

Section Trace.
Context {K : Keccak} {L2 : L2Types}.

(** ** The accessor *)

Definition ProviderSelector : Type := gameState -> Claim -> Position -> outcome TraceProvider.

Definition NewAccessor (selector : ProviderSelector) : TraceAccessor := {|
  accessor_Get game ref pos := provider ← selector game ref pos; Get provider pos;
  accessor_GetStepData game ref pos := provider ← selector game ref pos; GetStepData provider pos;
  accessor_GetL2BlockNumberChallenge game :=
    root ← claim_at game 0;
    provider ← selector game root RootPosition;
    GetL2BlockNumberChallenge provider;
|}.

Definition NewSimpleTraceAccessor (trace : TraceProvider) : TraceAccessor :=
  NewAccessor (fun _ _ _ => Ok trace).

(** ** Translation of positions *)

Definition Translate (provider : TraceProvider) (rootDepth : Z) : TraceProvider := {|
  AbsolutePreStateCommitment := AbsolutePreStateCommitment provider;
  Get pos :=
    relativePos ← RelativeToAncestorAtDepth rootDepth pos;
    Get provider relativePos;
  GetStepData pos :=
    relativePos ← RelativeToAncestorAtDepth rootDepth pos;
    GetStepData provider relativePos;
  GetL2BlockNumberChallenge := GetL2BlockNumberChallenge provider;
|}.

(** ** Split games *)

Definition errRefClaimNotDeepEnough : string := "reference claim is not deep enough".

(** The loops end at the root, whose parent is not found; in a game whose
    parents come before their children the number of claims bounds them. *)
Fixpoint findAncestorAtDepth_loop (fuel : nat) (game : gameState) (claim : Claim) (depth : Z) : outcome Claim :=
  if depth <? Depth (position claim) then
    parent ← GetParent game claim;
    match fuel with
    | O => Panic "out of fuel"
    | S fuel => findAncestorAtDepth_loop fuel game parent depth
    end
  else Ok claim.

Definition findAncestorAtDepth (game : gameState) (claim : Claim) (depth : Z) : outcome Claim :=
  findAncestorAtDepth_loop (length (claims game)) game claim depth.

Fixpoint findAncestorWithTraceIndex_loop (fuel : nat) (game : gameState) (candidate : Claim) (depth traceIdx : Z)
    : outcome Claim :=
  ti ← TraceIndex depth (position candidate);
  if negb (ti =? traceIdx) then
    parent ← GetParent game candidate;
    match fuel with
    | O => Panic "out of fuel"
    | S fuel => findAncestorWithTraceIndex_loop fuel game parent depth traceIdx
    end
  else Ok candidate.

Definition findAncestorWithTraceIndex (game : gameState) (ref : Claim) (depth traceIdx : Z) : outcome Claim :=
  findAncestorWithTraceIndex_loop (length (claims game)) game ref depth traceIdx.

Definition ProviderCreator : Type := Z -> Claim -> Claim -> outcome TraceProvider.

(** The claims of the top game that a position of the bottom game lies between. *)
Definition split_claims (game : gameState) (topDepth : Z) (topLeaf : Claim) (pos : Position)
    : outcome (Claim * Claim) :=
  i ← TraceIndex (Depth pos) pos;
  j ← TraceIndex (Depth pos) (position topLeaf);
  if j <? i then
    (* Defending the top leaf claim, so use it as the pre-claim and find the post *)
    let pre := topLeaf in
    preIdx ← TraceIndex topDepth (position pre);
    let postTraceIdx := preIdx + 1 in
    post ← findAncestorWithTraceIndex game topLeaf topDepth postTraceIdx;
    Ok (pre, post)
  else
    (* Attacking the top leaf claim, so use it as the post-claim and find the pre *)
    let post := topLeaf in
    postTraceIdx ← TraceIndex topDepth (position post);
    if postTraceIdx =? 0 then Ok (Claim0, post)
    else
      let preTraceIdx := postTraceIdx - 1 in
      pre ← findAncestorWithTraceIndex game topLeaf topDepth preTraceIdx;
      Ok (pre, post).

Definition NewSplitProviderSelector (topProvider : TraceProvider) (topDepth : Z)
    (bottomProviderCreator : ProviderCreator) : ProviderSelector :=
  fun game ref pos =>
    if Depth pos <=? topDepth then Ok topProvider
    else if Depth (position ref) <? topDepth then Err errRefClaimNotDeepEnough
    else
      (* Find the ancestor claim at the leaf level for the top game. *)
      topLeaf ← findAncestorAtDepth game ref topDepth;
      '(pre, post) ← split_claims game topDepth topLeaf pos;
      (* The top game runs from depth 0 to split depth inclusive. *)
      let bottomDepth := usub 64 (usub 64 (MaxDepth game) topDepth) 1 in
      provider ← bottomProviderCreator bottomDepth pre post;
      (* The root of the bottom game is the level below the top game leaf *)
      Ok (Translate provider (uadd 64 topDepth 1)).

(** [big.Int.FillBytes] panics if the number does not fit. *)
Definition FillBytes (n : nat) (x : Z) : outcome (list Z) :=
  if 2 ^ (8 * Z.of_nat n) <=? Z.abs x then Panic "math/big: buffer too small to fit value"
  else Ok (be_encode n (Z.abs x)).

Definition encodeClaim (c : Claim) : outcome (list Z) :=
  g ← FillBytes 32 (ToGIndex (position c)); Ok (value c ++ g).

Definition LocalContextPreimage (pre post : Claim) : outcome (list Z) :=
  data ← (if bool_decide (pre <> Claim0) then encodeClaim pre else Ok []);
  p ← encodeClaim post;
  Ok (data ++ p).

Definition CreateLocalContext (pre post : Claim) : outcome hash :=
  p ← LocalContextPreimage pre post; Ok (keccak256 p).

End Trace.

(** ** The alphabet provider *)

Module Alphabet.
Section Alphabet.
Context {K : Keccak} {L2 : L2Types}.

Definition L2ClaimBlockNumberLocalIndex : Z := 4.
Definition ErrIndexTooLarge : string := "index is larger than the maximum index".

Definition absolutePrestate : list Z := replicate 31 0 ++ [0x60].
Definition absolutePrestateInt : Z := be_decode absolutePrestate.

(** [preimage.LocalIndexKey.PreimageKey]. *)
Definition LocalIndexKey_PreimageKey (k : Z) : list Z :=
  [LocalKeyType] ++ replicate 23 0 ++ be_encode 8 k.

Definition BuildAlphabetPreimage (traceIndex claim : Z) : outcome (list Z) :=
  t ← FillBytes 32 traceIndex;
  c ← FillBytes 32 claim;
  Ok (t ++ c).

Definition alphabetStateHash (state : list Z) : hash := <[0%nat := VMStatusInvalid]> (keccak256 state).

Record AlphabetTraceProvider : Type := mkAlphabet {
  startingBlockNumber : Z;
  ap_depth : Z;
  maxLen : Z;
}.

Definition NewTraceProvider (startingBlockNumber depth : Z) : AlphabetTraceProvider :=
  mkAlphabet startingBlockNumber depth (ushl 64 1 depth).

Definition alphabet_GetStepData (ap : AlphabetTraceProvider) (pos : Position)
    : outcome (list Z * list Z * option PreimageOracleData) :=
  traceIndex ← TraceIndex (ap_depth ap) pos;
  let key := LocalIndexKey_PreimageKey L2ClaimBlockNumberLocalIndex in
  let preimageData := NewPreimageOracleData key (big_Bytes (startingBlockNumber ap)) 0 in
  if traceIndex =? 0 then Ok (absolutePrestate, [], Some preimageData)
  else if maxLen ap <? traceIndex then Err ErrIndexTooLarge
  else
    let initialTraceIndex := Z.shiftl (startingBlockNumber ap) 4 in
    let initialClaim := absolutePrestateInt + initialTraceIndex in
    let newTraceIndex := initialTraceIndex + traceIndex in
    let newClaim := initialClaim + traceIndex in
    p ← BuildAlphabetPreimage newTraceIndex newClaim;
    Ok (p, [], Some preimageData).

Definition alphabet_Get (ap : AlphabetTraceProvider) (i : Position) : outcome hash :=
  if ap_depth ap <? Depth i then Err ErrIndexTooLarge
  else
    (* Step data returns the pre-state, so add 1 to get the state for index i *)
    ti ← TraceIndex (ap_depth ap) i;
    let postPosition := NewPosition (ap_depth ap) (ti + 1) in
    '(claimBytes, _, _) ← alphabet_GetStepData ap postPosition;
    Ok (alphabetStateHash claimBytes).

Definition provider (ap : AlphabetTraceProvider) : TraceProvider := {|
  AbsolutePreStateCommitment := Ok (<[0%nat := VMStatusUnfinished]> (keccak256 absolutePrestate));
  Get := alphabet_Get ap;
  GetStepData := alphabet_GetStepData ap;
  GetL2BlockNumberChallenge := Err ErrL2BlockNumberValid;
|}.

End Alphabet.
End Alphabet.
