(* ===== verification/Solver.v ===== *)
(** The honest strategy (op-challenger/game/fault/solver): the tracker of
    honest claims, the response to a single claim, and the actions for a whole
    game. *)
From Stdlib Require Import ZArith Lia.
From stdpp Require Import base gmap list strings numbers.
From S2P Require Import Prelude Position Claims Trace.

Import Game.

(** ** Honest claims (honest_claims.go) *)

Record honestClaimTracker : Type := mkTracker {
  agreed : gmap (list Z) bool;
  counters : gmap (list Z) Claim;
}.

Definition newHonestClaimTracker : honestClaimTracker := mkTracker ∅ ∅.

Section Tracker.
Context {K : Keccak}.
Implicit Types a : honestClaimTracker.

Definition AddHonestClaim (parent claim : Claim) a : honestClaimTracker :=
  let agreed' := <[ID claim := true]> (agreed a) in
  if bool_decide (parent <> Claim0)
  then mkTracker agreed' (<[ID parent := claim]> (counters a))
  else mkTracker agreed' (counters a).

Definition IsHonest a (claim : Claim) : bool :=
  match agreed a !! ID claim with
  | Some b => b
  | None => false
  end.

Definition HonestCounter a (parent : Claim) : option Claim := counters a !! ID parent.

End Tracker.

(** ** The response to a claim (solver.go) *)

Definition ErrStepNonLeafNode : string := "cannot step on non-leaf claims".

Record claimSolver {L2 : L2Types} : Type := newClaimSolver {
  gameDepth : Z;
  trace : TraceAccessor;
}.

Record StepData : Type := mkStepData {
  LeafClaim : Claim;
  sd_IsAttack : bool;
  sd_PreState : list Z;
  sd_ProofData : list Z;
  sd_OracleData : option PreimageOracleData;
}.

Section Solver.
Context {K : Keccak} {L2 : L2Types}.
Implicit Types s : claimSolver.

Definition shouldCounter (game : gameState) (claim : Claim) (honestClaims : honestClaimTracker) : outcome bool :=
  (* Do not counter honest claims *)
  if IsHonest honestClaims claim then Ok false
  (* Always counter the root claim if it is not honest *)
  else if IsRoot claim then Ok true
  else
    parent ← GetParent game claim;
    (* Counter all claims that are countering an honest claim *)
    if IsHonest honestClaims parent then Ok true
    else
      match HonestCounter honestClaims parent with
      (* Do not respond to any claim countering a claim the honest actor ignored *)
      | None => Ok false
      | Some counter =>
          (* Do not counter sibling to an honest claim that are right of the honest claim. *)
          honestIdx ← TraceIndex (MaxDepth game) (position counter);
          claimIdx ← TraceIndex (MaxDepth game) (position claim);
          Ok (claimIdx <=? honestIdx)
      end.

Definition response (value : hash) (position : Position) (claim : Claim) : Claim :=
  mkClaim (mkClaimData value None position) Address0 Address0 (mkClock 0 0) 0 (ContractIndex claim).

Definition attack s (game : gameState) (claim : Claim) : outcome (option Claim) :=
  let position := Attack (position claim) in
  value ← accessor_Get (trace s) game claim position;
  Ok (Some (response value position claim)).

Definition defend s (game : gameState) (claim : Claim) : outcome (option Claim) :=
  if IsRoot claim then Ok None
  else
    let position := Defend (position claim) in
    value ← accessor_Get (trace s) game claim position;
    Ok (Some (response value position claim)).

Definition agreeWithClaim s (game : gameState) (claim : Claim) : outcome bool :=
  ourValue ← accessor_Get (trace s) game claim (position claim);
  Ok (bool_decide (ourValue = value claim)).

Definition NextMove s (claim : Claim) (game : gameState) (honestClaims : honestClaimTracker)
    : outcome (option Claim) :=
  if Depth (position claim) =? gameDepth s then Err ErrGameDepthReached
  else
    counter ← shouldCounter game claim honestClaims;
    if negb counter then Ok None
    else
      agree ← agreeWithClaim s game claim;
      if agree : bool then defend s game claim else attack s game claim.

Definition AttemptStep s (game : gameState) (claim : Claim) (honestClaims : honestClaimTracker)
    : outcome (option StepData) :=
  if negb (Depth (position claim) =? gameDepth s) then Err ErrStepNonLeafNode
  else
    counter ← shouldCounter game claim honestClaims;
    if negb counter then Ok None
    else
      claimCorrect ← agreeWithClaim s game claim;
      let pos :=
        if negb claimCorrect
        (* Attack the claim by executing step index, so we need to get the pre-state of that index *)
        then position claim
        (* Defend and use this claim as the starting point to execute the step after. *)
        else MoveRight (position claim) in
      '(preState, proofData, oracleData) ← accessor_GetStepData (trace s) game claim pos;
      Ok (Some (mkStepData claim (negb claimCorrect) preState proofData oracleData)).

(** ** The actions for a game (game_solver.go) *)

Definition NewGameSolver (gameDepth : Z) (trace : TraceAccessor) : claimSolver := newClaimSolver _ gameDepth trace.

Definition AgreeWithRootClaim s (game : gameState) : outcome bool :=
  root ← claim_at game 0;
  agreeWithClaim s game root.

Definition calculateStep s (game : gameState) (claim : Claim) : ST honestClaimTracker (option Action) :=
  if bool_decide (CounteredBy claim <> Address0) then mret None
  else
    agreedClaims ← get;
    step ← lift (AttemptStep s game claim agreedClaims);
    match step with
    | None => mret None
    | Some step =>
        mret (Some (mkAction _ ActionTypeStep (LeafClaim step) (sd_IsAttack step) Hash0
          (sd_PreState step) (sd_ProofData step) (sd_OracleData step) None))
    end.

Definition calculateMove s (game : gameState) (claim : Claim) : ST honestClaimTracker (option Action) :=
  honestClaims ← get;
  move ← lift (NextMove s claim game honestClaims);
  match move with
  | None => mret None
  | Some move =>
      modify (AddHonestClaim claim move) ;;
      if IsDuplicate game move then mret None
      else
        parentClaim ← lift (claim_at game (ParentContractIndex move));
        mret (Some (mkAction _ ActionTypeMove parentClaim (negb (DefendsParent game move)) (value move)
          [] [] None None))
  end.

(** The loop over the claims returns the actions found so far together with the
    error that stopped it. *)
Fixpoint next_actions s (game : gameState) (cs : list Claim) (agreedClaims : honestClaimTracker)
    : outcome (list Action * option string) :=
  match cs with
  | [] => Ok ([], None)
  | claim :: cs =>
      match (if Depth (position claim) =? MaxDepth game
             then calculateStep s game claim
             else calculateMove s game claim) agreedClaims with
      | Panic e => Panic e
      | Err e => Ok ([], Some e)
      | Ok (None, agreedClaims) => next_actions s game cs agreedClaims
      | Ok (Some action, agreedClaims) =>
          '(actions, err) ← next_actions s game cs agreedClaims;
          Ok (action :: actions, err)
      end
  end.

Definition process_claims s (game : gameState) (agreeWithRootClaim : bool) : outcome (list Action * option string) :=
  root ← claim_at game 0;
  let agreedClaims :=
    if agreeWithRootClaim
    then AddHonestClaim Claim0 root newHonestClaimTracker
    else newHonestClaimTracker in
  next_actions s game (Claims game) agreedClaims.

Definition CalculateNextActions s (game : gameState) : outcome (list Action * option string) :=
  match AgreeWithRootClaim s game with
  | Panic e => Panic e
  | Err e => Ok ([], Some e)
  | Ok false => process_claims s game false
  | Ok true =>
      match accessor_GetL2BlockNumberChallenge (trace s) game with
      | Panic e => Panic e
      | Err e =>
          (* We agree with the L2 block number, proceed to processing claims *)
          if String.eqb e ErrL2BlockNumberValid then process_claims s game true
          else Ok ([], Some e)
      | Ok challenge =>
          Ok ([mkAction _ ActionTypeChallengeL2BlockNumber Claim0 false Hash0 [] [] None (Some challenge)], None)
      end
  end.

End Solver.
