(* ===== verification/Rules.v ===== *)
(** The rules every honest action obeys (op-challenger/game/fault/solver/rules.go). *)
From Stdlib Require Import ZArith Lia.
From stdpp Require Import base gmap list strings numbers.
From S2P Require Import Prelude Position Claims Trace.

Import Game.

Definition challengerAddr : list Z := replicate 20 0xaa.

Section Rules.
Context {K : Keccak} {L2 : L2Types}.

Definition actionRule : Type := gameState -> Action -> TraceProvider -> outcome unit.

(** The parent claim of an action, as it is in the game. *)
Definition parent_in (game : gameState) (action : Action) : outcome Claim :=
  claim_at game (ContractIndex (ParentClaim action)).

Definition resultingPosition (game : gameState) (action : Action) : outcome Position :=
  parent ← parent_in game action;
  let parentPos := position parent in
  Ok (if bool_decide (Type_ action = ActionTypeStep) then parentPos
      else if IsAttack action then Attack parentPos
      else Defend parentPos).

Definition parentMustExist : actionRule := fun game action _ =>
  if (zlen (Claims game) <=? ContractIndex (ParentClaim action)) || (ContractIndex (ParentClaim action) <? 0)
  then Err "parent claim does not exist in game"
  else Ok ().

Definition onlyStepAtMaxDepth : actionRule := fun game action _ =>
  if bool_decide (Type_ action = ActionTypeStep) then Ok ()
  else
    parent ← parent_in game action;
    let parentDepth := Depth (position parent) in
    if MaxDepth game <=? parentDepth
    then Err "parent at max depth but attempting to perform action instead of step"
    else Ok ().

Definition onlyMoveBeforeMaxDepth : actionRule := fun game action _ =>
  if bool_decide (Type_ action = ActionTypeMove) then Ok ()
  else
    parent ← parent_in game action;
    let parentDepth := Depth (position parent) in
    if parentDepth <? MaxDepth game
    then Err "parent not at max depth but attempting to perform action instead of move"
    else Ok ().

Definition doNotDuplicateExistingMoves : actionRule := fun game action _ =>
  pos ← resultingPosition game action;
  let newClaimData := mkClaimData (ActionValue action) None pos in
  if IsDuplicate game (mkClaim newClaimData Address0 Address0 (mkClock 0 0) 0 (ContractIndex (ParentClaim action)))
  then Err "creating duplicate claim"
  else Ok ().

Definition doNotStepAlreadyCounteredClaims : actionRule := fun game action _ =>
  claim ← parent_in game action;
  if bool_decide (CounteredBy claim <> Address0)
  then Err "attempting to step already countered claim"
  else Ok ().

Definition doNotDefendRootClaim : actionRule := fun game action _ =>
  parent ← parent_in game action;
  if IsRootPosition (position parent) && negb (IsAttack action)
  then Err "defending the root claim"
  else Ok ().

Definition doNotCounterSelf : actionRule := fun game action _ =>
  claim ← parent_in game action;
  if bool_decide (Claimant claim = challengerAddr)
  then Err "countering own claim"
  else Ok ().

(** The candidate for the pre-state after looking at one more claim: the claim
    with the highest trace index below that of the move. *)
Definition closer_prestate (game : gameState) (honestTraceIndex : Z) (claim preStateClaim : Claim) : outcome Claim :=
  claimTraceIdx ← TraceIndex (MaxDepth game) (position claim);
  if claimTraceIdx <? honestTraceIndex then (* Check it's left of the honest claim *)
    if bool_decide (preStateClaim = Claim0) then Ok claim
    else
      preIdx ← TraceIndex (MaxDepth game) (position preStateClaim);
      Ok (if preIdx <? claimTraceIdx then claim else preStateClaim)
  else Ok preStateClaim.

(** The walk of [avoidPoisonedPrestate] up the claims. *)
Fixpoint prestate_loop (fuel : nat) (game : gameState) (claim : Claim) (honestTraceIndex : Z) (preStateClaim : Claim)
    : outcome Claim :=
  preStateClaim ← closer_prestate game honestTraceIndex claim preStateClaim;
  if IsRoot claim then Ok preStateClaim
  else
    parent ← GetParent game claim;
    match fuel with
    | O => Panic "out of fuel"
    | S fuel => prestate_loop fuel game parent honestTraceIndex preStateClaim
    end.

Definition avoidPoisonedPrestate : actionRule := fun game action correctTrace =>
  if bool_decide (Type_ action = ActionTypeStep) then Ok ()
  else
    movePosition ← resultingPosition game action;
    honestTraceIndex ← TraceIndex (MaxDepth game) movePosition;
    (* Walk back up the claims and find the claim with highest trace index < honestTraceIndex *)
    claim ← parent_in game action;
    preStateClaim ← prestate_loop (length (claims game)) game claim honestTraceIndex Claim0;
    (* No claim to the left of the honest claim, so can't have been poisoned *)
    if bool_decide (preStateClaim = Claim0) then Ok ()
    else
      correctValue ← Get correctTrace (position preStateClaim);
      if bool_decide (correctValue <> value preStateClaim) then Err "prestate poisoned" else Ok ().

Definition detectFailedStep : actionRule := fun game action correctTrace =>
  if bool_decide (Type_ action <> ActionTypeStep) then Ok ()
  else
    position_ ← resultingPosition game action;
    if negb (Depth position_ =? MaxDepth game) then Ok () (* Not at max depth yet *)
    else
      honestTraceIndex ← TraceIndex (MaxDepth game) position_;
      let poststateIndex := if negb (IsAttack action) then honestTraceIndex + 1 else honestTraceIndex in
      (* Walk back up the claims and find the claim required post state index *)
      claim ← parent_in game action;
      found ← AncestorWithTraceIndex game claim poststateIndex;
      match found with
      | None => Err "did not find required poststate"
      | Some poststateClaim =>
          correctValue ← Get correctTrace (position poststateClaim);
          let validStep := bool_decide (correctValue = value poststateClaim) in
          let parentPostAgree :=
            usub 64 (Depth (position claim)) (Depth (position poststateClaim)) mod 2 =? 0 in
          if eqb parentPostAgree validStep then Err "failed step against claim" else Ok ()
      end.

Definition detectPoisonedStepPrestate : actionRule := fun game action correctTrace =>
  position_ ← resultingPosition game action;
  if negb (Depth position_ =? MaxDepth game) then Ok () (* Not at max depth yet *)
  else
    honestTraceIndex ← TraceIndex (MaxDepth game) position_;
    let prestateIndex := honestTraceIndex in
    (* If we're performing a move to post a leaf claim, assume the attacker will try to attack it from their
       poisoned prestate *)
    let prestateIndex :=
      if IsAttack action || bool_decide (Type_ action = ActionTypeMove) then prestateIndex - 1 else prestateIndex in
    if prestateIndex <? 0 then Ok () (* Absolute prestate is not poisoned *)
    else
      claim ← parent_in game action;
      found ← AncestorWithTraceIndex game claim prestateIndex;
      match found with
      | None => Err "performing step against claim with no prestate available"
      | Some preStateClaim =>
          correctValue ← Get correctTrace (position preStateClaim);
          if bool_decide (correctValue <> value preStateClaim) then
            if bool_decide (Type_ action = ActionTypeStep)
            then Err "stepping from poisoned prestate"
            else Err "posting leaf claim with poisoned prestate"
          else if bool_decide (Type_ action = ActionTypeStep) then
            let prestateHash := keccak256 (PreState action) in
            if bool_decide (drop 1 prestateHash <> drop 1 (value preStateClaim))
            then Err "prestate hash does not match expected prestate claim"
            else Ok ()
          else Ok ()
      end.

Definition rules : list actionRule :=
  [parentMustExist; onlyStepAtMaxDepth; onlyMoveBeforeMaxDepth; doNotDuplicateExistingMoves;
   doNotStepAlreadyCounteredClaims; doNotDefendRootClaim; avoidPoisonedPrestate; detectPoisonedStepPrestate;
   detectFailedStep; doNotCounterSelf].

(** Every rule runs; the errors are joined into one, which is nil if they all are. *)
Fixpoint run_rules (rs : list actionRule) (game : gameState) (action : Action) (correctTrace : TraceProvider)
    : outcome (list string) :=
  match rs with
  | [] => Ok []
  | rule :: rs =>
      match rule game action correctTrace with
      | Panic e => Panic e
      | Err e => errs ← run_rules rs game action correctTrace; Ok (e :: errs)
      | Ok _ => run_rules rs game action correctTrace
      end
  end.

Definition checkRules (game : gameState) (action : Action) (correctTrace : TraceProvider) : outcome unit :=
  errs ← run_rules rules game action correctTrace;
  match errs with
  | [] => Ok ()
  | e :: _ => Err e
  end.

End Rules.
