(* ===== verification/Resolution.v ===== *)
(** Resolution of a game (op-dispute-mon/mon/transform/tree.go and
    op-dispute-mon/mon/resolve.go). A pointer to a claim of the tree is its
    index in the list of claims, so that a child sees the updates of its claim. *)
From Stdlib Require Import ZArith Lia.
From stdpp Require Import base gmap list strings numbers.
From S2P Require Import Prelude Position Claims.

(** [types.GameStatus] of op-challenger. *)
Inductive GameStatus : Set :=
| GameStatusInProgress
| GameStatusChallengerWon
| GameStatusDefenderWon.

Definition GameStatus_String (s : GameStatus) : string :=
  match s with
  | GameStatusInProgress => "In Progress"
  | GameStatusChallengerWon => "Challenger Won"
  | GameStatusDefenderWon => "Defender Won"
  end.

Definition GameStatusFromUint8 (i : Z) : outcome GameStatus :=
  if 2 <? i then Err "invalid game status"
  else Ok (if i =? 0 then GameStatusInProgress
           else if i =? 1 then GameStatusChallengerWon else GameStatusDefenderWon).

Record BidirectionalClaim : Type := mkBidirectional {
  bc_Claim : Claim;
  Children : list nat;
}.

Abbreviation BidirectionalTree := (list BidirectionalClaim).

Definition add_child (child : nat) (b : BidirectionalClaim) : BidirectionalClaim :=
  mkBidirectional (bc_Claim b) (Children b ++ [child]).

(** One claim of the loop: [claimMap] maps contract indexes to claims of [res]. *)
Definition add_claim (claim : Claim) (st : gmap Z nat * BidirectionalTree) : outcome (gmap Z nat * BidirectionalTree) :=
  let '(claimMap, res) := st in
  let me := length res in
  let claimMap := <[ContractIndex claim := me]> claimMap in
  let res := res ++ [mkBidirectional claim []] in
  if IsRoot claim then Ok (claimMap, res)
  else
    match claimMap !! ParentContractIndex claim with
    | None => Panic "nil pointer dereference"
    | Some parent => Ok (claimMap, alter (add_child me) parent res)
    end.

Fixpoint add_claims (claims : list Claim) (st : gmap Z nat * BidirectionalTree)
    : outcome (gmap Z nat * BidirectionalTree) :=
  match claims with
  | [] => Ok st
  | claim :: claims => st ← add_claim claim st; add_claims claims st
  end.

Definition CreateBidirectionalTree (claims : list Claim) : outcome BidirectionalTree :=
  '(_, res) ← add_claims claims (∅, []);
  Ok res.

Definition with_CounteredBy (a : list Z) (c : Claim) : Claim :=
  mkClaim (Data_ c) a (Claimant c) (Clock_ c) (ContractIndex c) (ParentContractIndex c).

(** The leftmost counter of a claim that is not countered itself. *)
Fixpoint leftmost (tree : BidirectionalTree) (children : list nat) (counterClaimant : list Z)
    (leftmostCounter : option Z) : list Z :=
  match children with
  | [] => counterClaimant
  | child :: children =>
      match tree !! child with
      | None => counterClaimant
      | Some b =>
          if bool_decide (CounteredBy (bc_Claim b) <> Address0)
          then leftmost tree children counterClaimant leftmostCounter (* Ignore countered claims *)
          else
            let i := IndexAtDepth (position (bc_Claim b)) in
            if match leftmostCounter with None => true | Some l => i <? l end
            then leftmost tree children (Claimant (bc_Claim b)) (Some i)
            else leftmost tree children counterClaimant leftmostCounter
      end
  end.

Definition resolve_claim (tree : BidirectionalTree) (i : nat) : BidirectionalTree :=
  match tree !! i with
  | None => tree
  | Some claim =>
      let counterClaimant := leftmost tree (Children claim) (CounteredBy (bc_Claim claim)) None in
      <[i := mkBidirectional (with_CounteredBy counterClaimant (bc_Claim claim)) (Children claim)]> tree
  end.

(** The loop from the last claim to the first; the tree is updated in place. *)
Fixpoint resolve_loop (n : nat) (tree : BidirectionalTree) : BidirectionalTree :=
  match n with
  | O => tree
  | S i => resolve_loop i (resolve_claim tree i)
  end.

Definition Resolve (tree : BidirectionalTree) : GameStatus * BidirectionalTree :=
  let tree := resolve_loop (length tree) tree in
  match tree with
  | [] => (GameStatusDefenderWon, tree)
  | root :: _ =>
      if bool_decide (CounteredBy (bc_Claim root) = Address0)
      then (GameStatusDefenderWon, tree)
      else (GameStatusChallengerWon, tree)
  end.
