(* ===== verification/GameProps.v ===== *)
(** What the game contract guarantees of the claims of a game, the ids of
    claims, and the claims that bound a claim in the trace. *)
From Stdlib Require Import ZArith Lia.
From stdpp Require Import base gmap list strings numbers.
From S2P Require Import Prelude Position Claims Trace Rules.

Import Game.

(** [c] attacks or defends [p]; the root can only be attacked. *)
Definition replies (p c : Claim) : Prop :=
  position c = Attack (position p) \/ (position c = Defend (position p) /\ depth (position p) <> 0).

(** What identifies a claim. *)
Definition key (c : Claim) : Position * hash * Z := (position c, value c, ParentContractIndex c).

(** The structure of a game of depth [D]: claims are numbered in the order they
    were made, the first is the root, every other one replies to an earlier
    claim that is not a leaf, and no claim is made twice. *)
Record game_ok (D : Z) (cs : list Claim) : Prop := {
  go_depth : 1 <= D < 2 ^ 63 - 1;
  go_root : exists r, cs !! 0%nat = Some r /\ position r = RootPosition;
  go_index : forall i c, cs !! i = Some c -> ContractIndex c = Z.of_nat i;
  go_parent : forall i c, cs !! S i = Some c -> exists j p,
    (j <= i)%nat /\ cs !! j = Some p /\ ParentContractIndex c = Z.of_nat j /\ depth (position p) < D /\ replies p c;
  go_once : forall i j a b, cs !! i = Some a -> cs !! j = Some b -> key a = key b -> i = j;
}.

(** A claim of the game or one that could be made next: [child cs p c] if [c]
    replies to the claim [p] of the game. *)
Definition child (D : Z) (cs : list Claim) (p c : Claim) : Prop :=
  exists j, cs !! j = Some p /\ ParentContractIndex c = Z.of_nat j /\ depth (position p) < D /\ replies p c.

(** Nodes that claims can occupy: all but the root have an even index. *)
Record node_ok (D : Z) (p : Position) : Prop := {
  no_pos : pos_ok p;
  no_depth : depth p <= D;
  no_even : Z.even (IndexAtDepth p) = true;
}.

Lemma node_root D : 0 <= D -> node_ok D RootPosition.
Proof. intros HD. split; [apply RootPosition_ok | done | done]. Qed.

Lemma node_Attack D p : node_ok D p -> depth p < D < 2 ^ 63 -> node_ok D (Attack p).
Proof.
  intros [Hp Hd He] HD. split; [apply Attack_ok; [done | lia] | rewrite Attack_eq by done; cbn; lia | by apply Attack_even].
Qed.

Lemma node_Defend D p : node_ok D p -> depth p <> 0 -> depth p < D < 2 ^ 63 -> node_ok D (Defend p).
Proof.
  intros [Hp Hd He] H0 HD. split; [apply Defend_ok; [done .. | lia] | rewrite Defend_eq by done; cbn; lia | by apply Defend_even].
Qed.

Lemma node_replies D p c : node_ok D (position p) -> depth (position p) < D < 2 ^ 63 -> replies p c -> node_ok D (position c).
Proof. intros Hn Hd [-> | [-> H0]]; [by apply node_Attack | by apply node_Defend]. Qed.

Lemma replies_depth p c : pos_ok (position p) -> Z.even (IndexAtDepth (position p)) = true ->
  replies p c -> depth (position c) = depth (position p) + 1.
Proof. intros Hp He [-> | [-> H0]]; [by rewrite Attack_eq | by rewrite Defend_eq]. Qed.

Section Structure.
Context {K : Keccak} (D : Z) (cs : list Claim) (G : game_ok D cs).
Let g := NewGameState cs D.

Lemma claim_node i c : cs !! i = Some c -> node_ok D (position c).
Proof.
  revert c. induction i as [i IH] using lt_wf_ind. intros c Hc. destruct i as [|i].
  - destruct (go_root _ _ G) as (r & Hr & E). rewrite Hr in Hc. injection Hc as <-. rewrite E.
    apply node_root. pose proof (go_depth _ _ G). lia.
  - destruct (go_parent _ _ G i c Hc) as (j & p & Hj & Hp & _ & Hd & Hr).
    apply (node_replies D p c); [apply (IH j); [lia | done] | | done]. pose proof (go_depth _ _ G). lia.
Qed.

Lemma child_node p c : child D cs p c -> node_ok D (position c).
Proof.
  intros (j & Hp & _ & Hd & Hr). apply (node_replies D p c); [by apply (claim_node j) | | done].
  pose proof (go_depth _ _ G). lia.
Qed.

Lemma child_depth p c : child D cs p c -> depth (position c) = depth (position p) + 1.
Proof. intros (j & Hp & _ & Hd & Hr). destruct (claim_node j p Hp). by apply replies_depth. Qed.

Lemma claim_ti i c : cs !! i = Some c -> TraceIndex D (position c) = Ok (ti D (position c)).
Proof.
  intros Hc. destruct (claim_node i c Hc). pose proof (go_depth _ _ G). apply TraceIndex_ok; [done | lia].
Qed.

Lemma child_ti p c : child D cs p c -> TraceIndex D (position c) = Ok (ti D (position c)).
Proof.
  intros Hc. destruct (child_node p c Hc). pose proof (go_depth _ _ G). apply TraceIndex_ok; [done | lia].
Qed.

Lemma claim_child i c : cs !! S i = Some c -> exists j p,
  (j <= i)%nat /\ cs !! j = Some p /\ ParentContractIndex c = Z.of_nat j /\ child D cs p c.
Proof.
  intros Hc. destruct (go_parent _ _ G i c Hc) as (j & p & Hj & Hp & Ep & Hd & Hr).
  exists j, p. split; [done |]. split; [done |]. split; [done |]. by exists j.
Qed.

Lemma child_not_root p c : child D cs p c -> IsRoot c = false.
Proof.
  intros Hc. pose proof (child_depth p c Hc) as E. destruct Hc as (j & Hp & Hrest).
  pose proof (po_depth _ (no_pos _ _ (claim_node j p Hp))). unfold IsRoot, IsRootPosition.
  destruct (Z.eqb_spec (depth (position c)) 0); [lia | done].
Qed.

Lemma root_at r : cs !! 0%nat = Some r -> position r = RootPosition /\ IsRoot r = true.
Proof.
  intros Hr. destruct (go_root _ _ G) as (r' & Hr' & E). rewrite Hr' in Hr. injection Hr as <-.
  split; [done |]. unfold IsRoot. by rewrite E.
Qed.

Lemma child_getParent p c : child D cs p c -> getParent g c = Some p.
Proof.
  intros Hc. unfold getParent. rewrite (child_not_root p c Hc). destruct Hc as (j & Hp & Ep & _).
  rewrite Ep. pose proof (lookup_lt_Some _ _ _ Hp). cbn [claims g NewGameState].
  unfold zlen. rewrite (proj2 (Z.leb_gt _ _)), (proj2 (Z.ltb_ge _ _)), Nat2Z.id by lia. done.
Qed.

Lemma child_GetParent p c : child D cs p c -> GetParent g c = Ok p.
Proof. intros Hc. unfold GetParent. by rewrite (child_getParent p c Hc). Qed.

Lemma claim_at_ok i c : cs !! i = Some c -> claim_at g (Z.of_nat i) = Ok c.
Proof.
  intros Hc. unfold claim_at. rewrite (proj2 (Z.ltb_ge _ _)), Nat2Z.id by lia. cbn [Claims claims g NewGameState].
  by rewrite Hc.
Qed.

Lemma claim_not_zero i c : cs !! i = Some c -> c <> Claim0.
Proof. intros Hc ->. pose proof (po_some _ (no_pos _ _ (claim_node i _ Hc))). done. Qed.

End Structure.

(** ** Ids *)

Lemma length_big_Bytes x : 0 < x -> length (big_Bytes x) = Z.to_nat (Z.log2 x / 8 + 1).
Proof.
  intros Hx. unfold big_Bytes. rewrite length_be_encode. f_equal. rewrite Z.abs_eq, Z.sgn_pos by lia.
  replace (Z.log2 x + 8) with (Z.log2 x + 1 * 8) by lia. rewrite Z.div_add by lia. lia.
Qed.

Lemma be_decode_big_Bytes x : 0 <= x -> be_decode (big_Bytes x) = x.
Proof.
  intros Hx. destruct (Z.eq_dec x 0) as [-> | Hn]; [done |]. unfold big_Bytes. rewrite be_decode_encode.
  rewrite Z.abs_eq, Z.sgn_pos by lia. replace (Z.log2 x + 8) with (Z.log2 x + 1 * 8) by lia. rewrite Z.div_add by lia.
  pose proof (Z.log2_nonneg x). rewrite Z.mul_1_r, Z2Nat.id by (pose proof (Z.div_pos (Z.log2 x) 8); lia).
  apply wrap_small. split; [done |]. pose proof (Z.log2_spec x ltac:(lia)) as [_ H1].
  eapply Z.lt_le_trans; [exact H1 |]. apply Z.pow_le_mono_r; [lia |].
  pose proof (Z.div_mod (Z.log2 x) 8 ltac:(lia)). pose proof (Z.mod_pos_bound (Z.log2 x) 8). lia.
Qed.

Lemma big_Bytes_inj x y : 0 <= x -> 0 <= y -> big_Bytes x = big_Bytes y -> x = y.
Proof. intros Hx Hy E. by rewrite <- (be_decode_big_Bytes x), <- (be_decode_big_Bytes y), E. Qed.

(** Different claims of the list have different ids. *)
Definition ids_distinct {K : Keccak} (l : list Claim) : Prop :=
  forall a b, a ∈ l -> b ∈ l -> ID a = ID b -> key a = key b.

(** The parent index the contract gives to the root claim. *)
Definition root_parent : Z := 2 ^ 32 - 1.

(** Claims whose id does not depend on where its three parts are cut: the parent
    index of a reply takes at most one byte. *)
Record short_ids (c : Claim) : Prop := {
  si_value : length (value c) = 32%nat;
  si_pos : pos_ok (position c);
  si_parent : (position c = RootPosition /\ ParentContractIndex c = root_parent) \/
    (0 <= ParentContractIndex c < 255 /\ (ParentContractIndex c = 0 -> depth (position c) = 1));
}.

Lemma parent_bytes p : 0 <= p < 255 -> big_Bytes p = if p =? 0 then [] else [p].
Proof.
  intros Hp. destruct (Z.eqb_spec p 0) as [-> | Hn]; [done |].
  assert (length (big_Bytes p) = 1%nat) as Hl.
  { rewrite length_big_Bytes by lia. pose proof (Z.log2_nonneg p).
    assert (Z.log2 p < 8) by (apply Z.log2_lt_pow2; lia). by rewrite Z.div_small. }
  pose proof (be_decode_big_Bytes p ltac:(lia)) as E. destruct (big_Bytes p) as [|x [|y l]] eqn:El; try done.
  rewrite be_decode_cons in E. cbn in E. f_equal. lia.
Qed.

Lemma gindex_bytes p : pos_ok p -> (1 <= length (big_Bytes (ToGIndex p)))%nat.
Proof.
  intros Hp. rewrite length_big_Bytes by (by apply ToGIndex_pos). pose proof (Z.log2_nonneg (ToGIndex p)).
  pose proof (Z.div_pos (Z.log2 (ToGIndex p)) 8). lia.
Qed.

Lemma gindex_bytes_1 p : pos_ok p -> depth p = 1 -> length (big_Bytes (ToGIndex p)) = 1%nat.
Proof. intros Hp Hd. rewrite length_big_Bytes by (by apply ToGIndex_pos). by rewrite gindex_log2, Hd. Qed.

(** Ids with parts of the same lengths. *)
Lemma id_bytes_split a b :
  short_ids a -> short_ids b -> 0 <= ParentContractIndex a -> 0 <= ParentContractIndex b ->
  length (big_Bytes (ParentContractIndex a)) = length (big_Bytes (ParentContractIndex b)) ->
  id_bytes a = id_bytes b -> key a = key b.
Proof.
  intros Ha Hb Pa Pb Hl E. unfold id_bytes in E. pose proof (si_value _ Ha). pose proof (si_value _ Hb).
  pose proof (f_equal length E) as El. rewrite !length_app in El.
  apply app_inj_1 in E as [E1 [E2 E3]%app_inj_1]; [| congruence | lia].
  unfold key. rewrite E2. apply big_Bytes_inj in E3 as ->; [| done ..].
  apply big_Bytes_inj in E1; [| apply Z.lt_le_incl, ToGIndex_pos, si_pos; done ..].
  apply ToGIndex_inj in E1 as ->; [done | by apply si_pos ..].
Qed.

(** A reply to the root and another reply. *)
Lemma id_bytes_first a b :
  short_ids a -> short_ids b -> ParentContractIndex a = 0 -> 0 < ParentContractIndex b < 255 ->
  depth (position a) = 1 -> id_bytes a <> id_bytes b.
Proof.
  intros Ha Hb Pa Pb Hd E%(f_equal length). unfold id_bytes in E. rewrite !length_app in E.
  rewrite gindex_bytes_1 in E by (by try apply si_pos). rewrite Pa, (si_value _ Ha), (si_value _ Hb) in E.
  rewrite (parent_bytes (ParentContractIndex b)) in E by lia.
  destruct (Z.eqb_spec (ParentContractIndex b) 0); [lia |]. change (length (big_Bytes 0)) with 0%nat in E.
  cbn [length] in E. pose proof (gindex_bytes _ (si_pos _ Hb)). lia.
Qed.

(** The root and a reply. *)
Lemma id_bytes_root a b :
  short_ids a -> short_ids b -> position a = RootPosition -> ParentContractIndex a = root_parent ->
  0 <= ParentContractIndex b < 255 -> (ParentContractIndex b = 0 -> depth (position b) = 1) ->
  id_bytes a <> id_bytes b.
Proof.
  intros Ha Hb Ra Pa Pb Db E. unfold id_bytes in E. rewrite Ra, Pa in E.
  rewrite (parent_bytes (ParentContractIndex b)) in E by done.
  destruct (Z.eqb_spec (ParentContractIndex b) 0) as [E0 | Hn].
  - apply (f_equal length) in E. rewrite !length_app in E.
    rewrite (gindex_bytes_1 (position b)), (si_value _ Ha), (si_value _ Hb) in E by (try apply si_pos; auto). done.
  - apply (f_equal (fun l => last l 0)) in E.
    change (big_Bytes root_parent) with ([255; 255; 255] ++ [255]) in E. rewrite !app_assoc in E.
    rewrite !last_last in E. lia.
Qed.

Lemma id_bytes_inj a b : short_ids a -> short_ids b -> id_bytes a = id_bytes b -> key a = key b.
Proof.
  intros Ha Hb E. destruct (si_parent _ Ha) as [[Ra Pa] | [Pa Da]], (si_parent _ Hb) as [[Rb Pb] | [Pb Db]].
  - apply id_bytes_split; rewrite ?Pa, ?Pb; done.
  - by destruct (id_bytes_root a b Ha Hb).
  - by destruct (id_bytes_root b a Hb Ha).
  - destruct (Z.eq_dec (ParentContractIndex a) 0) as [Ea | Na], (Z.eq_dec (ParentContractIndex b) 0) as [Eb | Nb].
    + apply id_bytes_split; rewrite ?Ea, ?Eb; done.
    + destruct (id_bytes_first a b Ha Hb); try done; [lia | auto].
    + destruct (id_bytes_first b a Hb Ha); try done; [lia | auto].
    + apply id_bytes_split; try done; [lia .. |]. rewrite !parent_bytes by lia.
      destruct (Z.eqb_spec (ParentContractIndex a) 0), (Z.eqb_spec (ParentContractIndex b) 0); [lia .. | done].
Qed.

(** The claims that bound a claim in the trace: of the ancestors of a claim, the
    nearest one on the left, whose state is the pre-state of the disputed
    steps, and the nearest one on the right. *)

Import Game.

Inductive bounded (D : Z) (cs : list Claim) : Claim -> option Claim -> option Claim -> Prop :=
| bounded_root r : cs !! 0%nat = Some r -> bounded D cs r None None
| bounded_attack p c lo hi :
    bounded D cs p lo hi -> child D cs p c -> position c = Attack (position p) -> bounded D cs c lo (Some p)
| bounded_defend p c lo hi :
    bounded D cs p lo hi -> child D cs p c -> position c = Defend (position p) -> depth (position p) <> 0 ->
    bounded D cs c (Some p) hi.

(** The bounds of [c] in a trace of [2 ^ M] states. *)
Definition left_of (M : Z) (lo : option Claim) (c : Claim) : Prop :=
  match lo with
  | None => IndexAtDepth (position c) = 0
  | Some l => ti M (position l) = ti M (position c) - 2 ^ (M - depth (position c))
  end.

Definition right_of (M : Z) (hi : option Claim) (c : Claim) : Prop :=
  match hi with
  | None => depth (position c) = 0
  | Some h => ti M (position h) = ti M (position c) + 2 ^ (M - depth (position c))
  end.

Section Bounds.
Context {K : Keccak} {L2 : L2Types} (D : Z) (cs : list Claim) (G : game_ok D cs).
Let g := NewGameState cs D.

Lemma bounded_claim i c : cs !! i = Some c -> exists lo hi, bounded D cs c lo hi.
Proof.
  revert c. induction i as [i IH] using lt_wf_ind. intros c Hc. destruct i as [|i].
  - exists None, None. by constructor.
  - destruct (claim_child D cs G i c Hc) as (j & p & Hj & Hp & _ & Hch).
    destruct (IH j ltac:(lia) p Hp) as (lo & hi & Hb). pose proof Hch as (_ & _ & _ & _ & [E | [E H0]]).
    + exists lo, (Some p). by eapply bounded_attack.
    + exists (Some p), hi. by eapply bounded_defend.
Qed.

Lemma bounded_child p c : child D cs p c -> exists lo hi, bounded D cs c lo hi.
Proof.
  intros Hch. pose proof Hch as (j & Hp & _ & _ & [E | [E H0]]); destruct (bounded_claim j p Hp) as (lo & hi & Hb).
  - exists lo, (Some p). by eapply bounded_attack.
  - exists (Some p), hi. by eapply bounded_defend.
Qed.

Lemma bounded_node c lo hi : bounded D cs c lo hi -> node_ok D (position c).
Proof.
  destruct 1 as [r Hr | p c lo hi _ Hc _ | p c lo hi _ Hc _ _]; [by apply (claim_node D cs G 0) | by apply (child_node D cs G p) ..].
Qed.

(** The sizes of the two halves of the range of a claim. *)
Lemma half M d : d < M -> 2 ^ (M - d) = 2 * 2 ^ (M - d - 1).
Proof. intros Hd. rewrite <- pow2_S by lia. f_equal. lia. Qed.

Lemma bounded_ti M c lo hi :
  bounded D cs c lo hi -> depth (position c) <= M -> left_of M lo c /\ right_of M hi c.
Proof.
  induction 1 as [r Hr | p c lo hi Hb IH Hc E | p c lo hi Hb IH Hc E H0]; intros HM.
  - destruct (root_at D cs G r Hr) as [E _]. cbn. by rewrite E.
  - pose proof (child_depth D cs G p c Hc) as Ed. destruct (bounded_node _ _ _ Hb) as [Hp Hd He].
    destruct IH as [IHl IHr]; [lia |]. pose proof (ti_Attack M (position p) Hp ltac:(lia)) as Et.
    rewrite <- E in Et. pose proof (half M (depth (position p)) ltac:(lia)).
    replace (M - depth (position p) - 1) with (M - depth (position c)) in * by lia. unfold left_of, right_of in *.
    split; [| lia]. destruct lo as [l |]; [lia |]. rewrite E, Attack_eq by done. cbn. lia.
  - pose proof (child_depth D cs G p c Hc) as Ed. destruct (bounded_node _ _ _ Hb) as [Hp Hd He].
    destruct IH as [IHl IHr]; [lia |]. pose proof (ti_Defend M (position p) Hp H0 He ltac:(lia)) as Et.
    rewrite <- E in Et. pose proof (half M (depth (position p)) ltac:(lia)).
    replace (M - depth (position p) - 1) with (M - depth (position c)) in * by lia. unfold left_of, right_of in *.
    split; [lia |]. destruct hi as [h |]; [lia | done].
Qed.

Lemma range_pos M c lo hi : bounded D cs c lo hi -> depth (position c) <= M -> 0 < 2 ^ (M - depth (position c)).
Proof. intros Hb HM. apply pow2_pos. lia. Qed.

(** A reply to a claim lies inside the range of the claim, in the half its
    direction says. *)
Lemma bounded_inside M p c lo hi :
  bounded D cs p lo hi -> child D cs p c -> depth (position c) <= M ->
  (forall l, lo = Some l -> ti M (position l) < ti M (position c)) /\
  (forall h, hi = Some h -> ti M (position c) < ti M (position h)) /\
  ti M (position c) <> ti M (position p).
Proof.
  intros Hb Hc HM. pose proof (child_depth D cs G p c Hc) as Ed. destruct (bounded_node _ _ _ Hb) as [Hp Hd He].
  destruct (bounded_ti M p lo hi Hb ltac:(lia)) as [Hl Hr]. pose proof (half M (depth (position p)) ltac:(lia)) as Hh.
  pose proof (pow2_pos (M - depth (position p) - 1) ltac:(lia)).
  assert (ti M (position c) = ti M (position p) - 2 ^ (M - depth (position p) - 1) \/
          ti M (position c) = ti M (position p) + 2 ^ (M - depth (position p) - 1)) as Ht.
  { pose proof Hc as (_ & _ & _ & _ & [-> | [-> H0]]); [left; apply ti_Attack | right; apply ti_Defend]; done || lia. }
  split; [intros l -> | split; [intros h -> |]]; unfold left_of, right_of in *; lia.
Qed.

(** The bounds are claims of the game. *)
Lemma bounded_in p lo hi x : bounded D cs p lo hi -> lo = Some x \/ hi = Some x -> exists k, cs !! k = Some x.
Proof.
  induction 1 as [r Hr | p q lo hi Hb IH Hch E | p q lo hi Hb IH Hch E H0]; intros Hx; [by destruct Hx | |];
    destruct Hch as (j & Hj & _); destruct Hx as [Hx | Hx]; try (injection Hx as <-; eauto); eauto.
Qed.

(** ** Walking to the root *)

Lemma ancestor_step fuel i c (idx : Z) :
  cs !! S i = Some c -> (S i <= fuel)%nat -> ti D (position c) <> idx ->
  exists j p, (j <= i)%nat /\ cs !! j = Some p /\ child D cs p c /\
    ancestor_loop fuel g c idx = ancestor_loop (pred fuel) g p idx.
Proof.
  intros Hc Hf Hne. destruct (claim_child D cs G i c Hc) as (j & p & Hj & Hp & _ & Hch). exists j, p. do 3 (split; [done |]).
  destruct fuel as [|f]; [lia |]. cbn [ancestor_loop pred]. rewrite (claim_ti D cs G (S i) c Hc : TraceIndex (gs_depth g) _ = _).
  cbn [mbind outcome_bind]. rewrite (proj2 (Z.eqb_neq _ _) Hne), (child_not_root D cs G p c Hch).
  by rewrite (child_getParent D cs G p c Hch).
Qed.

Lemma ancestor_here fuel i c :
  cs !! i = Some c -> ancestor_loop fuel g c (ti D (position c)) = Ok (Some c).
Proof.
  intros Hc. pose proof (claim_ti D cs G i c Hc) as E. destruct fuel; cbn [ancestor_loop];
    rewrite (E : TraceIndex (gs_depth g) _ = _); cbn [mbind outcome_bind]; by rewrite Z.eqb_refl.
Qed.

Lemma child_unique p q c : child D cs p c -> child D cs q c -> p = q.
Proof.
  intros H1 H2. apply (child_getParent D cs G) in H1. apply (child_getParent D cs G) in H2.
  rewrite H1 in H2. by injection H2.
Qed.

Lemma child_index p c i : child D cs p c -> cs !! i = Some c -> exists k, i = S k.
Proof.
  intros Hc Hi. destruct i as [|k]; [| eauto]. destruct (root_at D cs G c Hi) as [_ E].
  by rewrite (child_not_root D cs G p c Hc) in E.
Qed.

(** The bounds of a claim are on its two sides. *)
Lemma bounds_order c lo hi :
  bounded D cs c lo hi ->
  (forall x, lo = Some x -> ti D (position x) < ti D (position c)) /\
  (forall x, hi = Some x -> ti D (position c) < ti D (position x)).
Proof.
  intros Hb. pose proof (no_depth _ _ (bounded_node _ _ _ Hb)) as Hd.
  destruct (bounded_ti D c lo hi Hb Hd) as [Hl Hr]. pose proof (range_pos D c lo hi Hb Hd).
  split; intros x ->; unfold left_of, right_of in *; lia.
Qed.

Lemma bounds_apart c lo hi x :
  bounded D cs c lo hi -> lo = Some x \/ hi = Some x -> ti D (position c) <> ti D (position x).
Proof. intros Hb Hx. destruct (bounds_order c lo hi Hb) as [H1 H2]. destruct Hx as [Hx | Hx]; [specialize (H1 x Hx) | specialize (H2 x Hx)]; lia. Qed.

(** A claim and its bounds are found by their trace index. *)
Lemma ancestor_found fuel i c lo hi x :
  bounded D cs c lo hi -> cs !! i = Some c -> (i <= fuel)%nat -> x = c \/ lo = Some x \/ hi = Some x ->
  ancestor_loop fuel g c (ti D (position x)) = Ok (Some x).
Proof.
  intros Hb. revert fuel i. induction Hb as [r Hr | p c lo hi Hb IH Hc E | p c lo hi Hb IH Hc E H0]; intros fuel i Hi Hf Hx.
  - destruct Hx as [-> | [? | ?]]; [by apply (ancestor_here _ i) | done | done].
  - destruct Hx as [-> | Hx]; [by apply (ancestor_here _ i) |].
    destruct (child_index p c i Hc Hi) as [k ->].
    destruct (ancestor_step fuel k c (ti D (position x)) Hi Hf) as (j & p' & Hj & Hp & Hc' & ->).
    { apply (bounds_apart c lo (Some p)); [by eapply bounded_attack | done]. }
    rewrite (child_unique p' p c) in Hp |- * by done. apply (IH _ j); [done | lia |]. destruct Hx as [Hx | [= <-]]; auto.
  - destruct Hx as [-> | Hx]; [by apply (ancestor_here _ i) |].
    destruct (child_index p c i Hc Hi) as [k ->].
    destruct (ancestor_step fuel k c (ti D (position x)) Hi Hf) as (j & p' & Hj & Hp & Hc' & ->).
    { apply (bounds_apart c (Some p) hi); [by eapply bounded_defend | done]. }
    rewrite (child_unique p' p c) in Hp |- * by done. apply (IH _ j); [done | lia |]. destruct Hx as [[= <-] | Hx]; auto.
Qed.

Lemma Ancestor_found i c lo hi x :
  bounded D cs c lo hi -> cs !! i = Some c -> x = c \/ lo = Some x \/ hi = Some x ->
  AncestorWithTraceIndex g c (ti D (position x)) = Ok (Some x).
Proof.
  intros Hb Hi Hx. apply (ancestor_found _ i c lo hi); try done. pose proof (lookup_lt_Some _ _ _ Hi). cbn. lia.
Qed.

(** ** The nearest claim on the left *)

Lemma prestate_step fuel i c X acc acc' :
  cs !! S i = Some c -> (S i <= fuel)%nat ->
  closer_prestate g X c acc = Ok acc' ->
  exists j p, (j <= i)%nat /\ cs !! j = Some p /\ child D cs p c /\
    prestate_loop fuel g c X acc = prestate_loop (pred fuel) g p X acc'.
Proof.
  intros Hc Hf Ha. destruct (claim_child D cs G i c Hc) as (j & p & Hj & Hp & _ & Hch). exists j, p. do 3 (split; [done |]).
  destruct fuel as [|f]; [lia |]. cbn [prestate_loop pred]. rewrite Ha. cbn [mbind outcome_bind].
  rewrite (child_not_root D cs G p c Hch), (child_GetParent D cs G p c Hch). done.
Qed.

Lemma prestate_root fuel c X acc acc' :
  cs !! 0%nat = Some c ->
  closer_prestate g X c acc = Ok acc' -> prestate_loop fuel g c X acc = Ok acc'.
Proof.
  intros Hc Ha. destruct (root_at D cs G c Hc) as [_ E].
  destruct fuel as [|f]; cbn [prestate_loop]; rewrite Ha; cbn [mbind outcome_bind]; by rewrite E.
Qed.

Lemma closer_first i c X :
  cs !! i = Some c -> closer_prestate g X c Claim0 = Ok (if ti D (position c) <? X then c else Claim0).
Proof.
  intros Hc. unfold closer_prestate. rewrite (claim_ti D cs G i c Hc : TraceIndex (MaxDepth g) _ = _).
  cbn [mbind outcome_bind]. by destruct (_ <? X).
Qed.

Lemma closer_keep i c k l X :
  cs !! i = Some c -> cs !! k = Some l -> ti D (position c) <= ti D (position l) \/ X <= ti D (position c) ->
  closer_prestate g X c l = Ok l.
Proof.
  intros Hc Hk Hx. unfold closer_prestate. rewrite (claim_ti D cs G i c Hc : TraceIndex (MaxDepth g) _ = _).
  cbn [mbind outcome_bind]. destruct (Z.ltb_spec (ti D (position c)) X); [| done].
  rewrite bool_decide_eq_false_2 by (by apply (claim_not_zero D cs G k)).
  rewrite (claim_ti D cs G k l Hk : TraceIndex (MaxDepth g) _ = _). cbn [mbind outcome_bind].
  rewrite (proj2 (Z.ltb_ge _ _)) by lia. done.
Qed.

(** Once the left bound is found, the claims above do not replace it. *)
Lemma prestate_keep fuel i c lo hi X l k :
  bounded D cs c lo hi -> cs !! i = Some c -> (i <= fuel)%nat -> cs !! k = Some l ->
  ti D (position c) <= ti D (position l) \/ X <= ti D (position c) ->
  (forall x, lo = Some x -> ti D (position x) <= ti D (position l)) ->
  (forall x, hi = Some x -> X <= ti D (position x)) ->
  prestate_loop fuel g c X l = Ok l.
Proof.
  intros Hb. revert fuel i.
  induction Hb as [r Hr | p c lo hi Hb IH Hc E | p c lo hi Hb IH Hc E H0]; intros fuel i Hi Hf Hk Hct Hlo Hhi.
  - apply prestate_root; [done | by apply (closer_keep 0 r k)].
  - destruct (child_index p c i Hc Hi) as [n ->].
    destruct (prestate_step fuel n c X l l Hi Hf (closer_keep _ c k l X Hi Hk Hct)) as (j & p' & Hj & Hp & Hc' & ->).
    rewrite (child_unique p' p c) in Hp |- * by done. apply (IH _ j); try done; [lia | right; by apply Hhi |].
    intros x Hx. pose proof (proj2 (bounds_order p lo hi Hb) x Hx). pose proof (Hhi p eq_refl). lia.
  - destruct (child_index p c i Hc Hi) as [n ->].
    destruct (prestate_step fuel n c X l l Hi Hf (closer_keep _ c k l X Hi Hk Hct)) as (j & p' & Hj & Hp & Hc' & ->).
    rewrite (child_unique p' p c) in Hp |- * by done. apply (IH _ j); try done; [lia | left; by apply Hlo |].
    intros x Hx. pose proof (proj1 (bounds_order p lo hi Hb) x Hx). pose proof (Hlo p eq_refl). lia.
Qed.

(** The walk finds the left bound of a reply to the claim it starts from. *)
Lemma prestate_found fuel i c lo hi X :
  bounded D cs c lo hi -> cs !! i = Some c -> (i <= fuel)%nat -> X <> ti D (position c) ->
  (forall x, lo = Some x -> ti D (position x) < X) -> (forall x, hi = Some x -> X < ti D (position x)) ->
  prestate_loop fuel g c X Claim0 = Ok (if ti D (position c) <? X then c else default Claim0 lo).
Proof.
  intros Hb. revert fuel i. induction Hb as [r Hr | p c lo hi Hb IH Hc E | p c lo hi Hb IH Hc E H0]; intros fuel i Hi Hf Hne Hlo Hhi.
  - by rewrite (prestate_root fuel r X Claim0 _ Hr (closer_first 0 r X Hr)).
  - destruct (child_index p c i Hc Hi) as [n ->].
    destruct (prestate_step fuel n c X Claim0 _ Hi Hf (closer_first _ c X Hi)) as (j & p' & Hj & Hp & Hc' & ->).
    rewrite (child_unique p' p c) in Hp |- * by done.
    destruct (bounds_order p lo hi Hb) as [_ Hup]. destruct (bounds_order c lo (Some p)) as [Hlc Hrc]; [by eapply bounded_attack |].
    specialize (Hrc p eq_refl). pose proof (Hhi p eq_refl).
    destruct (Z.ltb_spec (ti D (position c)) X) as [Hlt | Hge].
    + apply (prestate_keep _ j p lo hi X c (S n)); try done; [lia | right; lia | |]; intros x Hx;
        [specialize (Hlc x Hx) | specialize (Hup x Hx)]; lia.
    + rewrite (IH _ j); try done; [| lia | lia | intros x Hx; specialize (Hup x Hx); lia].
      rewrite (proj2 (Z.ltb_ge _ _)) by lia. done.
  - destruct (child_index p c i Hc Hi) as [n ->].
    destruct (prestate_step fuel n c X Claim0 _ Hi Hf (closer_first _ c X Hi)) as (j & p' & Hj & Hp & Hc' & ->).
    rewrite (child_unique p' p c) in Hp |- * by done.
    destruct (bounds_order p lo hi Hb) as [Hdown _]. destruct (bounds_order c (Some p) hi) as [Hlc Hrc]; [by eapply bounded_defend |].
    specialize (Hlc p eq_refl). pose proof (Hlo p eq_refl).
    destruct (Z.ltb_spec (ti D (position c)) X) as [Hlt | Hge].
    + apply (prestate_keep _ j p lo hi X c (S n)); try done; [lia | left; lia | |]; intros x Hx;
        [specialize (Hdown x Hx) | specialize (Hhi x Hx)]; lia.
    + rewrite (IH _ j); try done; [| lia | lia | intros x Hx; specialize (Hdown x Hx); lia].
      rewrite (proj2 (Z.ltb_lt _ _)) by lia. done.
Qed.

End Bounds.
