(* ===== verification/Honest.v ===== *)
(** The claims the honest strategy makes and counters, as the solver tracks
    them while it goes through the claims of a game. *)
From Stdlib Require Import ZArith Lia.
From stdpp Require Import base gmap list strings numbers.
From S2P Require Import Prelude Position Claims Trace Solver GameProps.

Import Game.

(** What the solver relies on of its trace: the value of a position is that of
    its trace index, the step data of an index hold the pre-image of the state
    before it, and the L2 block number is not disputed. *)
Class TraceLaws {K : Keccak} {L2 : L2Types} (D : Z) (T : Z -> hash) (p : TraceProvider) : Prop := {
  tl_get : forall pos, pos_ok pos -> depth pos <= D -> Get p pos = Ok (T (ti D pos));
  tl_step : forall i, 0 <= i < 2 ^ D -> exists s proof data,
    GetStepData p (NewPosition D i) = Ok (s, proof, data) /\ (0 < i -> drop 1 (keccak256 s) = drop 1 (T (i - 1)));
  tl_l2 : GetL2BlockNumberChallenge p = Err ErrL2BlockNumberValid;
}.

(** The solver of a game that is played on one trace. *)
Definition solver_of {K : Keccak} {L2 : L2Types} (D : Z) (p : TraceProvider) : claimSolver :=
  NewGameSolver D (NewSimpleTraceAccessor p).

(** A claim has the value of the trace. *)
Definition correct (D : Z) (T : Z -> hash) (c : Claim) : bool := bool_decide (T (ti D (position c)) = value c).

(** The honest answer to a claim. *)
Definition hmove (D : Z) (T : Z -> hash) (c : Claim) : Claim :=
  let pos := if correct D T c then Defend (position c) else Attack (position c) in
  response (T (ti D pos)) pos c.

(** The claims that may need an answer. *)
Definition open_claims (D : Z) (T : Z -> hash) (cs : list Claim) : list Claim :=
  filter (fun c => depth (position c) < D /\ (IsRoot c = true -> correct D T c = false)) cs.

(** The claims of a game and their honest answers. *)
Definition played (D : Z) (T : Z -> hash) (cs : list Claim) : list Claim :=
  cs ++ (hmove D T <$> open_claims D T cs).

Section Honest.
Context {K : Keccak} {L2 : L2Types} (D : Z) (cs : list Claim) (G : game_ok D cs).
Context (T : Z -> hash) (prov : TraceProvider) {TL : TraceLaws D T prov}.
Context (I : ids_distinct (played D T cs)).
Let g := NewGameState cs D.
Let S_ := solver_of D prov.

Lemma hmove_child c i :
  cs !! i = Some c -> c ∈ open_claims D T cs -> child D cs c (hmove D T c).
Proof.
  intros Hi (Ho & _)%list_elem_of_filter. destruct Ho as [Hd Hr]. exists i. split; [done |].
  split; [by apply (go_index D cs G) |]. split; [done |]. unfold replies, hmove.
  destruct (correct D T c) eqn:E; [right | by left]. cbn. split; [done |]. intros H0.
  assert (IsRoot c = true) as R by (apply IsRoot_iff; [apply (claim_node D cs G i c Hi) | done]).
  specialize (Hr R). congruence.
Qed.

Lemma played_claim i c : cs !! i = Some c -> c ∈ played D T cs.
Proof. intros Hc. apply elem_of_app. left. by eapply list_elem_of_lookup_2. Qed.

Lemma played_move c : c ∈ open_claims D T cs -> hmove D T c ∈ played D T cs.
Proof. intros Hc. apply elem_of_app. right. apply list_elem_of_fmap. eauto. Qed.

Lemma ids_claims i j a b : cs !! i = Some a -> cs !! j = Some b -> ID a = ID b -> i = j /\ a = b.
Proof.
  intros Ha Hb E. assert (i = j) as <-.
  { apply (go_once D cs G i j a b); [done .. |]. apply I; [by eapply played_claim .. | done]. }
  split; [done | congruence].
Qed.

(** *** The tracker *)

Definition sc (t : honestClaimTracker) (c : Claim) : bool :=
  match shouldCounter g c t with Ok b => b | _ => false end.

Definition track (t : honestClaimTracker) (c : Claim) : honestClaimTracker :=
  if depth (position c) =? D then t
  else if sc t c then AddHonestClaim c (hmove D T c) t else t.

Definition t0 : honestClaimTracker :=
  match cs !! 0%nat with
  | Some r => if correct D T r then AddHonestClaim Claim0 r newHonestClaimTracker else newHonestClaimTracker
  | None => newHonestClaimTracker
  end.

(** The tracker before claim [k]. *)
Definition tr (k : nat) : honestClaimTracker := foldl track t0 (take k cs).

Lemma tr_S k c : cs !! k = Some c -> tr (S k) = track (tr k) c.
Proof. intros Hc. unfold tr. rewrite (take_S_r _ _ _ Hc), foldl_app. done. Qed.

Lemma tr_end k : (length cs <= k)%nat -> tr k = tr (length cs).
Proof. intros Hk. unfold tr. rewrite !take_ge by lia. done. Qed.

(** [c] is answered when the solver comes to it. *)
Definition countered (c : Claim) : Prop := exists i, cs !! i = Some c /\ sc (tr i) c = true.

Definition answered (k : nat) (c : Claim) : Prop :=
  exists i, (i < k)%nat /\ cs !! i = Some c /\ depth (position c) <> D /\ sc (tr i) c = true.

Lemma IsHonest_add p m t x : IsHonest (AddHonestClaim p m t) x = bool_decide (ID x = ID m) || IsHonest t x.
Proof.
  unfold IsHonest, AddHonestClaim. assert (agreed (if bool_decide (p <> Claim0)
    then mkTracker (<[ID m := true]> (agreed t)) (<[ID p := m]> (counters t))
    else mkTracker (<[ID m := true]> (agreed t)) (counters t)) = <[ID m := true]> (agreed t)) as -> by (by case_bool_decide).
  case_bool_decide as E; [by rewrite E, lookup_insert_eq | by rewrite lookup_insert_ne].
Qed.

Lemma answered_S k c x : cs !! k = Some c ->
  answered (S k) x <-> answered k x \/ (x = c /\ depth (position c) <> D /\ sc (tr k) c = true).
Proof.
  intros Hc. split.
  - intros (i & Hi & Hx & Hd & Hs). destruct (decide (i = k)) as [-> | Hne].
    + right. rewrite Hc in Hx. injection Hx as <-. done.
    + left. exists i. split; [lia | done].
  - intros [(i & Hi & Hrest) | (-> & Hd & Hs)]; [exists i; split; [lia | done] | exists k; split; [lia | done]].
Qed.

Lemma honest_tr k x : (k <= length cs)%nat ->
  IsHonest (tr k) x = true <->
    (exists r, cs !! 0%nat = Some r /\ correct D T r = true /\ ID x = ID r) \/
    (exists c, answered k c /\ ID x = ID (hmove D T c)).
Proof.
  induction k as [|k IH]; intros Hk.
  - unfold tr. rewrite take_0. cbn [foldl]. unfold t0. destruct (go_root D cs G) as (r & Hr & _). rewrite Hr.
    destruct (correct D T r) eqn:E.
    + rewrite IsHonest_add. change (IsHonest newHonestClaimTracker x) with false. rewrite orb_false_r, bool_decide_eq_true.
      split; [intros ?; left; by exists r |]. intros [(r' & Hr' & _ & Hx) | (c & (i & Hi & _) & _)]; [congruence | lia].
    + change (IsHonest newHonestClaimTracker x) with false. split; [done |].
      intros [(r' & Hr' & E' & Hx) | (c & (i & Hi & _) & _)]; [congruence | lia].
  - destruct (lookup_lt_is_Some_2 cs k ltac:(lia)) as [c Hc]. rewrite (tr_S k c Hc). unfold track.
    destruct (Z.eqb_spec (depth (position c)) D) as [Ed | Hd].
    + rewrite IH by lia. split; (intros [H | (y & Hy & E)]; [by left | right; exists y; split; [| done]]).
      * apply (answered_S k c); [done | by left].
      * by apply (answered_S k c) in Hy as [Hy | (_ & Hd & _)].
    + destruct (sc (tr k) c) eqn:Es.
      * rewrite IsHonest_add, orb_true_iff, bool_decide_eq_true, IH by lia. split.
        -- intros [E | [H | (y & Hy & E)]]; [| by left |]; right; [exists c | exists y]; (split; [| done]); apply (answered_S k c); auto.
        -- intros [H | (y & Hy & E)]; [right; by left |]. apply (answered_S k c) in Hy as [Hy | (-> & _)]; [| by left | done].
           right; right. eauto.
      * rewrite IH by lia. split; (intros [H | (y & Hy & E)]; [by left | right; exists y; split; [| done]]).
        -- apply (answered_S k c); [done | by left].
        -- apply (answered_S k c) in Hy as [Hy | (_ & _ & Hs)]; [done | congruence | done].
Qed.

Lemma answered_open k c : answered k c -> c ∈ open_claims D T cs.
Proof.
  intros (i & Hi & Hc & Hd & Hs). apply list_elem_of_filter. split; [| by eapply list_elem_of_lookup_2].
  split; [pose proof (no_depth _ _ (claim_node D cs G i c Hc)); lia |]. intros Hr.
  destruct (correct D T c) eqn:E; [| done]. exfalso. assert (i = 0)%nat as ->.
  { destruct i as [|i]; [done |]. destruct (claim_child D cs G i c Hc) as (j & p & _ & _ & _ & Hch).
    rewrite (child_not_root D cs G p c Hch) in Hr. done. }
  unfold sc, shouldCounter in Hs. replace (IsHonest (tr 0) c) with true in Hs; [done |].
  symmetry. apply honest_tr; [lia |]. left. eauto.
Qed.

Lemma answered_mono i k c : (i <= k)%nat -> answered i c -> answered k c.
Proof. intros Hk (j & Hj & H). exists j. split; [lia | done]. Qed.

(** Whether a claim of the game is honest is settled before the solver comes to it. *)
Lemma honest_stable i k c :
  cs !! i = Some c -> (i <= k <= length cs)%nat -> IsHonest (tr k) c = IsHonest (tr i) c.
Proof.
  intros Hc Hk. apply eq_true_iff_eq. rewrite !honest_tr by lia.
  split; (intros [H | (y & Hy & E)]; [by left | right; exists y; split; [| done]]); [| by apply (answered_mono i); [lia |]].
  pose proof (answered_open k y Hy) as Ho. assert (key c = key (hmove D T y)) as Ek.
  { apply I; [by eapply played_claim | by apply played_move | done]. }
  destruct Hy as (j & Hj & Hy & Hrest). exists j. split; [| done].
  pose proof (hmove_child y j Hy Ho) as Hch. pose proof (f_equal (fun x => x.2) Ek) as Ep. cbn in Ep.
  rewrite (go_index D cs G j y Hy) in Ep. destruct i as [|i].
  - pose proof (child_depth D cs G _ _ Hch) as Ed. pose proof (f_equal (fun x => x.1.1) Ek) as Ex. cbn [key fst] in Ex.
    rewrite <- Ex in Ed. destruct (root_at D cs G c Hc) as [Er _]. rewrite Er, RootPosition_eq in Ed. cbn in Ed.
    pose proof (po_depth _ (no_pos _ _ (claim_node D cs G j y Hy))). lia.
  - destruct (claim_child D cs G i c Hc) as (j' & p & Hj' & _ & Ep' & _). lia.
Qed.

Lemma counters_add p m t x :
  p <> Claim0 -> counters (AddHonestClaim p m t) !! ID x = if bool_decide (ID x = ID p) then Some m else counters t !! ID x.
Proof.
  intros Hp. unfold AddHonestClaim. rewrite bool_decide_eq_true_2 by done. cbn [counters].
  case_bool_decide as E; [by rewrite E, lookup_insert_eq | by rewrite lookup_insert_ne].
Qed.

Lemma counters_t0 x : counters t0 !! x = None.
Proof. unfold t0. destruct (cs !! 0%nat) as [r |]; [destruct (correct D T r) |]; apply lookup_empty. Qed.

Lemma counters_tr k j p : cs !! j = Some p -> (k <= length cs)%nat ->
  counters (tr k) !! ID p =
    if bool_decide (j < k)%nat && negb (depth (position p) =? D) && sc (tr j) p then Some (hmove D T p) else None.
Proof.
  intros Hp. induction k as [|k IH]; intros Hk.
  - rewrite bool_decide_eq_false_2 by lia. cbn [andb]. unfold tr. rewrite take_0. cbn [foldl]. apply counters_t0.
  - destruct (lookup_lt_is_Some_2 cs k ltac:(lia)) as [c Hc]. rewrite (tr_S k c Hc). unfold track.
    specialize (IH ltac:(lia)). destruct (decide (j = k)) as [-> | Hne].
    + rewrite Hc in Hp. injection Hp as <-. rewrite bool_decide_eq_false_2 in IH by lia. cbn [andb] in IH.
      rewrite bool_decide_eq_true_2 by lia. cbn [andb]. destruct (_ =? D); [exact IH |]. cbn [negb andb].
      destruct (sc (tr k) c); [| exact IH].
      rewrite counters_add by (by apply (claim_not_zero D cs G k)). by rewrite bool_decide_eq_true_2.
    + rewrite (bool_decide_ext (j < S k)%nat (j < k)%nat) by lia. rewrite <- IH.
      destruct (depth (position c) =? D); [done |]. destruct (sc (tr k) c); [| done].
      rewrite counters_add by (by apply (claim_not_zero D cs G k)). rewrite bool_decide_eq_false_2; [done |].
      intros E. by destruct (ids_claims j k p c Hp Hc E).
Qed.

(** *** What is answered *)

(** [x] is a claim of the honest strategy. *)
Definition honest (x : Claim) : Prop := IsHonest (tr (length cs)) x = true.

Lemma index_lt i c : cs !! i = Some c -> (i < length cs)%nat.
Proof. apply lookup_lt_Some. Qed.

Lemma honest_at i k c : cs !! i = Some c -> (i <= k <= length cs)%nat -> IsHonest (tr k) c = true <-> honest c.
Proof.
  intros Hc Hk. unfold honest. rewrite (honest_stable i k c), (honest_stable i (length cs) c); try done; lia.
Qed.

Lemma shouldCounter_root r : cs !! 0%nat = Some r -> shouldCounter g r (tr 0) = Ok (negb (correct D T r)).
Proof.
  intros Hr. unfold shouldCounter. destruct (root_at D cs G r Hr) as [_ ->].
  assert (IsHonest (tr 0) r = true <-> correct D T r = true) as E.
  { rewrite honest_tr by lia. split; [| intros; left; eauto].
    intros [(r' & Hr' & H & _) | (c & (i & Hi & _) & _)]; [congruence | lia]. }
  destruct (IsHonest (tr 0) r), (correct D T r); try done; by destruct E as [E1 E2]; (discriminate (E1 eq_refl) || discriminate (E2 eq_refl)).
Qed.

Lemma shouldCounter_child i j c p :
  cs !! i = Some c -> cs !! j = Some p -> (j < i)%nat -> child D cs p c ->
  shouldCounter g c (tr i) = Ok (negb (IsHonest (tr i) c) &&
    (IsHonest (tr i) p || (sc (tr j) p && (ti D (position c) <=? ti D (position (hmove D T p)))))).
Proof.
  intros Hc Hp Hj Hch. unfold shouldCounter. destruct (IsHonest (tr i) c); [done |].
  rewrite (child_not_root D cs G p c Hch), (child_GetParent D cs G p c Hch). cbn [mbind outcome_bind negb andb].
  destruct (IsHonest (tr i) p); [done |]. cbn [orb]. unfold HonestCounter.
  pose proof (index_lt i c Hc). rewrite (counters_tr i j p Hp) by lia.
  rewrite bool_decide_eq_true_2 by done. pose proof Hch as (_ & _ & _ & Hd & _).
  rewrite (proj2 (Z.eqb_neq _ _)) by lia. cbn [negb andb]. destruct (sc (tr j) p) eqn:Es; [| done].
  assert (p ∈ open_claims D T cs) as Ho by (apply (answered_open i); exists j; repeat split; (done || lia)).
  rewrite (child_ti D cs G p _ (hmove_child p j Hp Ho) : TraceIndex (MaxDepth g) _ = _). cbn [mbind outcome_bind].
  by rewrite (child_ti D cs G p c Hch : TraceIndex (MaxDepth g) _ = _).
Qed.

Lemma shouldCounter_run i c : cs !! i = Some c -> shouldCounter g c (tr i) = Ok (sc (tr i) c).
Proof.
  intros Hc. unfold sc. destruct i as [|i]; [by rewrite (shouldCounter_root c Hc) |].
  destruct (claim_child D cs G i c Hc) as (j & p & Hj & Hp & _ & Hch).
  by rewrite (shouldCounter_child (S i) j c p Hc Hp ltac:(lia) Hch).
Qed.

Lemma countered_at i c : cs !! i = Some c -> countered c <-> sc (tr i) c = true.
Proof.
  intros Hc. split; [| intros; by exists i]. intros (k & Hk & Hs).
  pose proof (go_index D cs G i c Hc). pose proof (go_index D cs G k c Hk). by replace i with k by lia.
Qed.

Lemma countered_root r : cs !! 0%nat = Some r -> countered r <-> correct D T r = false.
Proof.
  intros Hr. rewrite (countered_at 0 r Hr). unfold sc. rewrite (shouldCounter_root r Hr). by destruct (correct D T r).
Qed.

Lemma countered_child i c p :
  cs !! i = Some c -> child D cs p c ->
  countered c <-> ~ honest c /\ (honest p \/ (countered p /\ ti D (position c) <= ti D (position (hmove D T p)))).
Proof.
  intros Hc Hch. pose proof (child_index D cs G p c i Hch Hc) as [k ->].
  destruct (claim_child D cs G k c Hc) as (j & q & Hj & Hq & _ & Hch').
  rewrite (child_unique D cs G q p c Hch' Hch) in Hq. clear q Hch'. pose proof (index_lt _ _ Hc).
  rewrite (countered_at _ c Hc), (countered_at _ p Hq).
  pose proof (shouldCounter_child (S k) j c p Hc Hq ltac:(lia) Hch) as E. rewrite (shouldCounter_run _ c Hc) in E.
  injection E as ->. rewrite andb_true_iff, orb_true_iff, andb_true_iff, negb_true_iff, Z.leb_le.
  rewrite (honest_at j) by (done || lia). rewrite <- not_true_iff_false, (honest_at (S k)) by (done || lia). done.
Qed.

Lemma honest_iff x : x ∈ played D T cs ->
  honest x <-> (exists r, cs !! 0%nat = Some r /\ correct D T r = true /\ key x = key r) \/
    (exists p, countered p /\ depth (position p) < D /\ key x = key (hmove D T p)).
Proof.
  intros Hx. unfold honest. rewrite honest_tr by lia. split.
  - intros [(r & Hr & Hcor & E) | (p & Hp & E)]; [left | right].
    + exists r. split; [done |]. split; [done |]. apply I; [done | by eapply played_claim | done].
    + pose proof (answered_open _ _ Hp) as Ho. exists p. destruct Hp as (i & Hi & Hp & Hd & Hs).
      split; [by exists i |]. split; [by apply list_elem_of_filter in Ho as [[? _] _] |].
      apply I; [done | by apply played_move | done].
  - intros [(r & Hr & Hcor & E) | (p & (i & Hi & Hs) & Hd & E)]; [left | right].
    + exists r. do 2 (split; [done |]). unfold ID, id_bytes. unfold key in E. by injection E as -> -> ->.
    + exists p. split; [exists i; pose proof (index_lt _ _ Hi); repeat split; (done || lia) |].
      unfold ID, id_bytes. unfold key in E. by injection E as -> -> ->.
Qed.

Lemma countered_open c : countered c -> depth (position c) < D -> c ∈ open_claims D T cs.
Proof.
  intros (i & Hi & Hs) Hd. apply (answered_open (length cs)). exists i. pose proof (index_lt _ _ Hi).
  repeat split; (done || lia).
Qed.

Lemma hmove_honest c : countered c -> depth (position c) < D -> honest (hmove D T c).
Proof. intros Hc Hd. apply honest_iff; [by apply played_move, countered_open | right; eauto]. Qed.

End Honest.

(** Why the honest strategy is sound: the claims that bound an honest claim, or
    one it answers, carry the values a step at the bottom of the game needs. *)

Import Game.

Section Strategy.
Context {K : Keccak} {L2 : L2Types} (D : Z) (cs : list Claim) (G : game_ok D cs).
Context (T : Z -> hash) (I : ids_distinct (played D T cs)).

Abbreviation correct := (correct D T).
Abbreviation hmove := (hmove D T).

(** Two claims of the same team. *)
Definition same_team (x y : Claim) : bool := Z.even (depth (position x) - depth (position y)).

(** An honest claim is right, the claim on its left is right, and the claim on
    its right is right exactly if it is on the same team. *)
Definition honest_inv (c : Claim) : Prop :=
  exists lo hi, bounded D cs c lo hi /\ correct c = true /\
    (forall l, lo = Some l -> correct l = true) /\
    (forall h, hi = Some h -> correct h = same_team c h).

(** A claim to be answered has a right claim on its left; if it is right itself,
    the claim on its right is right exactly if it is on the other team. *)
Definition answer_inv (c : Claim) : Prop :=
  exists lo hi, bounded D cs c lo hi /\
    (forall l, lo = Some l -> correct l = true) /\
    (correct c = true -> forall h, hi = Some h -> correct h = negb (same_team c h)).

Lemma same_team_child p c : child D cs p c -> same_team c p = false.
Proof.
  intros Hc. unfold same_team. rewrite (child_depth D cs G p c Hc).
  by replace (depth (position p) + 1 - depth (position p)) with 1 by lia.
Qed.

Lemma same_team_step p c h : child D cs p c -> same_team c h = negb (same_team p h).
Proof.
  intros Hc. unfold same_team. rewrite (child_depth D cs G p c Hc).
  replace (depth (position p) + 1 - depth (position h)) with (Z.succ (depth (position p) - depth (position h))) by lia.
  by rewrite Z.even_succ, <- Z.negb_even.
Qed.

Lemma child_key p c c' : key c = key c' -> child D cs p c -> child D cs p c'.
Proof.
  intros E (j & Hp & Ep & Hd & Hr). pose proof (f_equal snd E) as E1. pose proof (f_equal (fun k => k.1.1) E) as E2.
  cbn in E1, E2. exists j. unfold replies. by rewrite <- E1, <- E2.
Qed.

Lemma correct_key c c' : key c = key c' -> correct c = correct c'.
Proof. intros E. unfold Honest.correct. unfold key in E. by injection E as -> -> _. Qed.

Lemma correct_hmove c : correct (hmove c) = true.
Proof. by apply bool_decide_eq_true. Qed.

(** The answer to a claim. *)
Lemma answer_honest i p c :
  cs !! i = Some p -> p ∈ open_claims D T cs -> answer_inv p -> key c = key (hmove p) -> honest_inv c.
Proof.
  intros Hp Ho (lo & hi & Hb & Hl & Hr) E.
  assert (child D cs p c) as Hc by (apply (child_key p (hmove p)); [done | by apply (hmove_child D cs G T p i)]).
  assert (position c = position (hmove p)) as Epos by (by injection E).
  assert (correct c = true) as Ec by (rewrite (correct_key c (hmove p) E); apply correct_hmove).
  unfold Honest.hmove in Epos. destruct (correct p) eqn:Ecp; cbn in Epos.
  - pose proof Hc as (_ & _ & _ & _ & [Ea | [_ H0]]).
    { exfalso. pose proof (no_pos _ _ (claim_node D cs G i p Hp)) as Hpos. pose proof (no_even _ _ (claim_node D cs G i p Hp)) as He.
      assert (depth (position p) <> 0) as H0.
      { intros H0. apply list_elem_of_filter in Ho as [[_ Hroot] _]. rewrite Ecp in Hroot.
        assert (IsRoot p = true) by (by apply IsRoot_iff). by specialize (Hroot ltac:(done)). }
      pose proof (RightOf_Attack _ Hpos) as HA. pose proof (RightOf_Defend _ Hpos H0 He) as HD.
      rewrite <- Ea in HA. rewrite <- Epos in HD. congruence. }
    exists (Some p), hi. split; [by eapply bounded_defend |]. split; [done |]. split; [by intros l [= <-] |].
    intros h Hh. rewrite (Hr eq_refl h Hh), (same_team_step p c h Hc). done.
  - exists lo, (Some p). split; [by eapply bounded_attack |]. split; [done |]. split; [done |].
    intros h [= <-]. by rewrite (same_team_child p c Hc).
Qed.

(** A reply to an honest claim. *)
Lemma honest_reply p c : honest_inv p -> child D cs p c -> answer_inv c.
Proof.
  intros (lo & hi & Hb & Hp & Hl & Hr) Hc. pose proof Hc as (_ & _ & _ & _ & [E | [E H0]]).
  - exists lo, (Some p). split; [by eapply bounded_attack |]. split; [done |].
    intros _ h [= <-]. by rewrite (same_team_child p c Hc).
  - exists (Some p), hi. split; [by eapply bounded_defend |]. split; [by intros l [= <-] |].
    intros _ h Hh. by rewrite (same_team_step p c h Hc), negb_involutive, Hr.
Qed.

(** The half of the range a reply lies in. *)
Lemma reply_side p c : child D cs p c ->
  (position c = Attack (position p) /\ ti D (position c) < ti D (position p)) \/
  (position c = Defend (position p) /\ depth (position p) <> 0 /\ ti D (position p) < ti D (position c)).
Proof.
  intros (j & Hp & _ & Hd & Hr). destruct (claim_node D cs G j p Hp) as [Hpos _ He].
  pose proof (pow2_pos (D - depth (position p) - 1) ltac:(lia)).
  destruct Hr as [E | [E H0]]; [left | right]; rewrite E.
  - rewrite ti_Attack by (done || lia). split; [done | lia].
  - rewrite ti_Defend by (done || lia). split; [done |]. split; [done | lia].
Qed.

(** A reply to an answered claim, left of the answer or beside it. *)
Lemma answer_reply i p c :
  cs !! i = Some p -> p ∈ open_claims D T cs -> answer_inv p -> child D cs p c ->
  ti D (position c) <= ti D (position (hmove p)) -> key c <> key (hmove p) -> answer_inv c.
Proof.
  intros Hp Ho (lo & hi & Hb & Hl & Hr) Hc Hti Hk. pose proof (hmove_child D cs G T p i Hp Ho) as Hm.
  assert (position c = position (hmove p) -> correct c = false) as Hwrong.
  { intros E. apply bool_decide_eq_false. intros Ev. apply Hk. unfold key.
    assert (ParentContractIndex c = ParentContractIndex (hmove p)) as ->.
    { destruct Hc as (j & Hj & -> & _). destruct Hm as (j' & Hj' & -> & _).
      rewrite <- (go_index D cs G j p Hj), <- (go_index D cs G j' p Hj'). done. }
    rewrite <- Ev, E. done. }
  pose proof (reply_side p (hmove p) Hm) as Sm.
  destruct (reply_side p c Hc) as [[E Ht] | (E & H0 & Ht)].
  - exists lo, (Some p). split; [by eapply bounded_attack |]. split; [done |].
    intros Ec h [= <-]. rewrite (same_team_child p c Hc). cbn. destruct (correct p) eqn:Ecp; [done |]. exfalso.
    rewrite Hwrong in Ec; [done |]. rewrite E. unfold Honest.hmove. by rewrite Ecp.
  - destruct Sm as [[Em Hm'] | (Em & _ & _)]; [lia |].
    assert (correct p = true) as Ecp.
    { destruct (correct p) eqn:Ecp; [done |]. exfalso. unfold Honest.hmove in Em. rewrite Ecp in Em. cbn in Em.
      destruct (claim_node D cs G i p Hp) as [Hpos _ He].
      pose proof (RightOf_Attack _ Hpos) as HA. rewrite Em in HA. by rewrite RightOf_Defend in HA. }
    exists (Some p), hi. split; [by eapply bounded_defend |]. split; [by intros l [= <-] |].
    intros Ec. rewrite Hwrong in Ec; [done | congruence].
Qed.

Lemma strategy_inv i c :
  cs !! i = Some c -> (honest D cs T c -> honest_inv c) /\ (countered D cs T c -> answer_inv c).
Proof.
  revert c. induction i as [i IH] using lt_wf_ind. intros c Hc. split.
  - intros Hh. apply (honest_iff D cs G T I c) in Hh; [| by eapply played_claim].
    destruct Hh as [(r & Hr & Hcor & E) | (p & Hp & Hd & E)].
    + pose proof (go_once D cs G i 0 c r Hc Hr E) as ->. rewrite Hr in Hc. injection Hc as ->.
      exists None, None. split; [by constructor |]. split; [done |]. by split.
    + pose proof Hp as (j & Hj & _). pose proof (countered_open D cs G T p Hp Hd) as Ho.
      assert (child D cs p c) as Hch by (apply (child_key p (hmove p)); [done | by apply (hmove_child D cs G T p j)]).
      destruct (child_index D cs G p c i Hch Hc) as [k ->].
      destruct (claim_child D cs G k c Hc) as (j' & p' & Hj' & Hp' & _ & Hch').
      rewrite (child_unique D cs G p' p c Hch' Hch) in Hp'.
      apply (answer_honest j' p c Hp' Ho); [| done]. apply (IH j'); [lia | done | done].
  - intros Hcount. destruct i as [|k].
    + exists None, None. split; [by constructor |]. by split.
    + destruct (claim_child D cs G k c Hc) as (j & p & Hj & Hp & _ & Hch).
      apply (countered_child D cs G T I (S k) c p Hc Hch) in Hcount as [Hn [Hh | [Hcp Ht]]].
      * apply (honest_reply p); [| done]. apply (IH j); [lia | done | done].
      * pose proof Hch as (_ & _ & _ & Hd & _). pose proof (countered_open D cs G T p Hcp Hd) as Ho.
        apply (answer_reply j p c Hp Ho); try done; [apply (IH j); [lia | done | done] |].
        intros E. apply Hn. apply (honest_iff D cs G T I c); [by eapply played_claim |]. right. eauto.
Qed.

Lemma countered_dishonest i c : cs !! i = Some c -> countered D cs T c -> ~ honest D cs T c.
Proof.
  intros Hc Hco Hh. destruct i as [|k].
  - apply (countered_root D cs G T c Hc) in Hco. apply (strategy_inv 0 c Hc) in Hh as (_ & _ & _ & Hcor & _). congruence.
  - destruct (claim_child D cs G k c Hc) as (j & p & _ & _ & _ & Hch).
    by apply (countered_child D cs G T I (S k) c p Hc Hch) in Hco as [? _].
Qed.

End Strategy.
