(* ===== verification/SolverProps.v ===== *)
(** The run of the solver on a game: which actions it returns. *)
From Stdlib Require Import ZArith Lia.
From stdpp Require Import base gmap list strings numbers.
From S2P Require Import Prelude Position Claims Trace Solver GameProps Honest Rules.

Import Game.

(** ** Duplicates *)

Lemma IsDuplicate_iff {K : Keccak} D cs m :
  IsDuplicate (NewGameState cs D) m = true <-> exists c, c ∈ cs /\ ID c = ID m.
Proof.
  unfold IsDuplicate, NewGameState. cbn [claimIDs].
  assert (forall ids : gmap (list Z) bool, (forall k b, ids !! k = Some b -> b = true) ->
    match foldl (fun ids claim => <[ID claim := true]> ids) ids cs !! ID m with Some b => b | None => false end = true
    <-> is_Some (ids !! ID m) \/ exists c, c ∈ cs /\ ID c = ID m) as H.
  { induction cs as [|c cs IH]; intros ids Hids; cbn [foldl].
    - split.
      + destruct (ids !! ID m); [eauto | done].
      + intros [[b Hb] | (c & Hc%list_elem_of_In & _)]; [| done]. rewrite Hb. by apply (Hids (ID m)).
    - rewrite IH.
      + destruct (decide (ID c = ID m)) as [E | Hne].
        * rewrite E, lookup_insert_eq. split; intros _; [right | left; eauto].
          exists c. split; [apply list_elem_of_here | done].
        * rewrite lookup_insert_ne by done. split; (intros [H | (x & Hx & E)]; [by left | right]).
          -- exists x. split; [by apply list_elem_of_further | done].
          -- apply elem_of_cons in Hx as [-> | Hx]; [done | eauto].
      + intros k b Hk. destruct (decide (k = ID c)) as [-> | Hne]; [rewrite lookup_insert_eq in Hk; congruence |].
        rewrite lookup_insert_ne in Hk by done. eauto. }
  rewrite H by (intros k b Hk; by rewrite lookup_empty in Hk). rewrite lookup_empty.
  split; [intros [[? ?] | ?]; [done | done] | by right].
Qed.

Section Run.
Context {K : Keccak} {L2 : L2Types} (D : Z) (cs : list Claim) (G : game_ok D cs).
Context (T : Z -> hash) (prov : TraceProvider) {TL : TraceLaws D T prov}.
Context (I : ids_distinct (played D T cs)).

Abbreviation g := (NewGameState cs D).
Abbreviation S_ := (solver_of D prov).
Abbreviation correct := (correct D T).
Abbreviation hmove := (hmove D T).
Abbreviation tr := (tr D cs T).
Abbreviation sc := (sc D cs).

Lemma agree_run i c : cs !! i = Some c -> agreeWithClaim S_ g c = Ok (correct c).
Proof.
  intros Hc. unfold agreeWithClaim. cbn [solver_of NewGameSolver trace NewSimpleTraceAccessor NewAccessor accessor_Get mbind outcome_bind].
  destruct (claim_node D cs G i c Hc) as [Hp Hd _]. by rewrite tl_get.
Qed.

Lemma NextMove_run i c : cs !! i = Some c -> depth (position c) < D ->
  NextMove S_ c g (tr i) = Ok (if sc (tr i) c then Some (hmove c) else None).
Proof.
  intros Hc Hd. unfold NextMove. rewrite (proj2 (Z.eqb_neq _ _)) by (unfold Depth; cbn; lia).
  rewrite (shouldCounter_run D cs G T I i c Hc). cbn [mbind outcome_bind].
  destruct (sc (tr i) c) eqn:Es; [| done]. cbn [negb]. rewrite (agree_run i c Hc). cbn [mbind outcome_bind].
  assert (c ∈ open_claims D T cs) as Ho.
  { apply (answered_open D cs G T (S i)). exists i. repeat split; (done || lia). }
  pose proof (hmove_child D cs G T c i Hc Ho) as Hm. destruct (child_node D cs G c _ Hm) as [Hp Hdm _].
  unfold Honest.hmove in *. destruct (correct c) eqn:Ec; unfold defend, attack;
    cbn [solver_of NewGameSolver trace NewSimpleTraceAccessor NewAccessor accessor_Get mbind outcome_bind].
  - destruct (IsRoot c) eqn:Er.
    { apply list_elem_of_filter in Ho as [[_ Hr] _]. rewrite Ec in Hr. by specialize (Hr Er). }
    rewrite tl_get by done. done.
  - rewrite tl_get by done. done.
Qed.

(** The index of the step that is executed against a leaf. *)
Definition step_index (c : Claim) : Z := IndexAtDepth (position c) + (if correct c then 1 else 0).

(** The action against a claim. *)
Definition acts (c : Claim) (a : Action) : Prop :=
  ParentClaim a = c /\ IsAttack a = negb (correct c) /\
  if depth (position c) =? D
  then Type_ a = ActionTypeStep /\ ActionValue a = Hash0 /\
    (0 < step_index c -> drop 1 (keccak256 (PreState a)) = drop 1 (T (step_index c - 1)))
  else Type_ a = ActionTypeMove /\ ActionValue a = value (hmove c).

(** The claim is not answered yet. *)
Definition needed (c : Claim) : Prop :=
  if depth (position c) =? D then CounteredBy c = Address0
  else forall x, x ∈ cs -> key x <> key (hmove c).

Lemma step_index_bounds i c : cs !! i = Some c -> depth (position c) = D -> 0 <= step_index c < 2 ^ D.
Proof.
  intros Hc Hd. destruct (claim_node D cs G i c Hc) as [Hp _ He]. pose proof (po_index _ Hp). rewrite Hd in *.
  pose proof (even_room _ Hp ltac:(pose proof (go_depth D cs G); lia) He). rewrite Hd in *.
  unfold step_index. destruct (correct c); lia.
Qed.

Lemma calculateStep_run i c : cs !! i = Some c -> depth (position c) = D ->
  exists o, calculateStep S_ g c (tr i) = Ok (o, tr i) /\
    match o with
    | None => ~ (countered D cs T c /\ needed c)
    | Some a => countered D cs T c /\ needed c /\ acts c a
    end.
Proof.
  intros Hc Hd. unfold calculateStep, needed. rewrite Hd, Z.eqb_refl. pose proof (countered_at D cs G T i c Hc) as Hct.
  destruct (bool_decide (CounteredBy c <> Address0)) eqn:Eb.
  { apply bool_decide_eq_true in Eb. exists None. split; [done |]. by intros [_ ?]. }
  apply bool_decide_eq_false in Eb. assert (CounteredBy c = Address0) as E0 by (by destruct (decide (CounteredBy c = Address0))).
  rewrite (ST_bind_run get _ _ _ _ eq_refl). unfold AttemptStep. unfold Depth. cbn [gameDepth solver_of NewGameSolver].
  rewrite Hd, Z.eqb_refl, (shouldCounter_run D cs G T I i c Hc). cbn [negb mbind outcome_bind].
  destruct (sc (tr i) c) eqn:Es; cbn [negb]; [| exists None; split; [done | intros [?%Hct _]; congruence]].
  rewrite (agree_run i c Hc). cbn [mbind outcome_bind].
  destruct (tl_step (step_index c) (step_index_bounds i c Hc Hd)) as (s & pr & dat & Hs & Hpre).
  assert ((if negb (correct c) then position c else MoveRight (position c)) = NewPosition D (step_index c)) as ->.
  { pose proof (po_some _ (no_pos _ _ (claim_node D cs G i c Hc))) as Hsome. unfold step_index, MoveRight.
    destruct (correct c); cbn [negb]; rewrite <- Hd; [done |]. rewrite Z.add_0_r. by apply pos_eq. }
  change (accessor_GetStepData (trace S_) g c (NewPosition D (step_index c)))
    with (GetStepData prov (NewPosition D (step_index c))).
  rewrite Hs. cbn [mbind outcome_bind]. eexists (Some _). split; [reflexivity |]. split; [by apply Hct |]. split; [done |].
  unfold acts. rewrite Hd, Z.eqb_refl. by split_and!.
Qed.

Lemma calculateMove_run i c : cs !! i = Some c -> depth (position c) < D ->
  exists o, calculateMove S_ g c (tr i) = Ok (o, tr (S i)) /\
    match o with
    | None => ~ (countered D cs T c /\ needed c)
    | Some a => countered D cs T c /\ needed c /\ acts c a
    end.
Proof.
  intros Hc Hd. unfold calculateMove, needed. rewrite (proj2 (Z.eqb_neq _ _)) by lia.
  pose proof (countered_at D cs G T i c Hc) as Hct. rewrite (ST_bind_run get _ _ _ _ eq_refl).
  rewrite (tr_S D cs T i c Hc). unfold track. rewrite (proj2 (Z.eqb_neq (depth (position c)) D)) by lia.
  rewrite (ST_bind_run _ _ (tr i) (if sc (tr i) c then Some (hmove c) else None) (tr i))
    by (unfold lift; by rewrite (NextMove_run i c Hc Hd)).
  destruct (sc (tr i) c) eqn:Es; [| exists None; split; [done | intros [?%Hct _]; congruence]].
  rewrite (ST_bind_run (modify _) _ _ tt _ eq_refl).
  assert (c ∈ open_claims D T cs) as Ho.
  { apply (answered_open D cs G T (S i)). exists i. repeat split; (done || lia). }
  pose proof (hmove_child D cs G T c i Hc Ho) as Hm.
  destruct (IsDuplicate g (hmove c)) eqn:Edup.
  - exists None. split; [done |]. intros [_ Hn]. apply IsDuplicate_iff in Edup as (x & Hx & E).
    apply (Hn x Hx). apply I; [apply elem_of_app; by left | by apply played_move | done].
  - pose proof (go_index D cs G i c Hc) as Ei.
    change (ParentContractIndex (hmove c)) with (ContractIndex c). rewrite Ei.
    rewrite (ST_bind_run _ _ _ c (AddHonestClaim c (hmove c) (tr i)))
      by (unfold lift; by rewrite (claim_at_ok D cs i c Hc)).
    eexists (Some _). split; [reflexivity |]. split; [by apply Hct |]. split.
    + intros x Hx E. assert (IsDuplicate g (hmove c) = true); [| congruence].
      apply IsDuplicate_iff. exists x. split; [done |]. unfold ID, id_bytes. unfold key in E. by injection E as -> -> ->.
    + unfold acts. rewrite (proj2 (Z.eqb_neq _ _)) by lia. cbn [ParentClaim IsAttack Type_ ActionValue].
      split_and!; try done. unfold DefendsParent. rewrite (child_getParent D cs G c _ Hm).
      destruct (claim_node D cs G i c Hc) as [Hp _ He]. unfold Honest.hmove in *. destruct (correct c) eqn:Ec; cbn.
      * rewrite RightOf_Defend; [done | done | | done]. intros H0. apply list_elem_of_filter in Ho as [[_ Hr] _].
        rewrite Ec in Hr. by specialize (Hr (proj2 (IsRoot_iff _ Hp) H0)).
      * by rewrite RightOf_Attack.
Qed.

Lemma next_actions_run k : (k <= length cs)%nat -> exists ps l,
  next_actions S_ g (drop k cs) (tr k) = Ok (l, None) /\ Forall2 acts ps l /\ sublist ps (drop k cs) /\
  (forall c, c ∈ ps <-> c ∈ drop k cs /\ countered D cs T c /\ needed c).
Proof.
  intros Hk. remember (length cs - k)%nat as n eqn:En. revert k Hk En. induction n as [|n IH]; intros k Hk En.
  - exists [], []. rewrite drop_ge by lia. split; [done |]. split; [constructor |]. split; [done |].
    intros c. split; [by intros ?%list_elem_of_In | by intros [?%list_elem_of_In _]].
  - destruct (lookup_lt_is_Some_2 cs k ltac:(lia)) as [c Hc]. rewrite (drop_S _ _ _ Hc). cbn [next_actions].
    destruct (IH (S k) ltac:(lia) ltac:(lia)) as (ps & l & R & F & Hsub & Hps).
    pose proof (no_depth _ _ (claim_node D cs G k c Hc)) as Hle.
    assert (exists o, (if Depth (position c) =? MaxDepth g then calculateStep S_ g c else calculateMove S_ g c) (tr k)
        = Ok (o, tr (S k)) /\
      match o with
      | None => ~ (countered D cs T c /\ needed c)
      | Some a => countered D cs T c /\ needed c /\ acts c a
      end) as (o & -> & Ho).
    { unfold Depth. destruct (Z.eqb_spec (depth (position c)) (MaxDepth g)) as [E | E]; cbn in E.
      - rewrite (tr_S D cs T k c Hc). unfold track. rewrite E, Z.eqb_refl. by apply calculateStep_run.
      - apply calculateMove_run; [done | lia]. }
    destruct o as [a |].
    + exists (c :: ps), (a :: l). rewrite R. split; [done |]. destruct Ho as (H1 & H2 & H3).
      split; [by constructor |]. split; [by apply sublist_skip |].
      intros x. rewrite !elem_of_cons, Hps. split; [intros [-> | (? & ? & ?)] | intros ([-> | ?] & ? & ?)]; auto.
    + exists ps, l. split; [done |]. split; [done |]. split; [by apply sublist_cons |].
      intros x. rewrite elem_of_cons, Hps. split; [intros (? & ? & ?); auto |]. intros ([-> | ?] & ? & ?); [by destruct Ho | auto].
Qed.

(** The solver answers exactly the claims that need it, in the order of the game. *)
Lemma actions_run : exists ps l,
  CalculateNextActions S_ g = Ok (l, None) /\ Forall2 acts ps l /\ sublist ps cs /\
  (forall c, c ∈ ps <-> c ∈ cs /\ countered D cs T c /\ needed c).
Proof.
  destruct (next_actions_run 0 ltac:(lia)) as (ps & l & R & H). exists ps, l. split; [| exact H].
  destruct (go_root D cs G) as (r & Hr & _). unfold CalculateNextActions, AgreeWithRootClaim.
  pose proof (claim_at_ok D cs 0 r Hr) as E0. change (Z.of_nat 0) with 0 in E0. rewrite E0. cbn [mbind outcome_bind].
  rewrite (agree_run 0 r Hr). unfold Honest.tr, t0 in R. rewrite take_0, drop_0 in R. cbn [foldl] in R. rewrite Hr in R.
  assert (accessor_GetL2BlockNumberChallenge (trace S_) g = Err ErrL2BlockNumberValid) as EL.
  { cbn [trace solver_of NewGameSolver NewSimpleTraceAccessor NewAccessor accessor_GetL2BlockNumberChallenge].
    rewrite E0. cbn [mbind outcome_bind]. apply tl_l2. }
  rewrite EL. cbn [String.eqb]. unfold process_claims. rewrite E0. cbn [mbind outcome_bind].
  destruct (correct r); [rewrite String.eqb_refl |]; exact R.
Qed.

End Run.

(** Every action of the solver obeys the rules of rules.go. *)

Import Game.

(** The claim the duplicate rule looks for when the action is a step. *)
Definition step_probe (c : Claim) : Claim :=
  mkClaim (mkClaimData Hash0 None (position c)) Address0 Address0 (mkClock 0 0) 0 (ContractIndex c).

(** The claims whose ids are compared while the game is played. *)
Definition compared (D : Z) (T : Z -> hash) (cs : list Claim) : list Claim :=
  played D T cs ++ (step_probe <$> filter (fun c => depth (position c) = D) cs).

Lemma compared_played {K : Keccak} D T cs : ids_distinct (compared D T cs) -> ids_distinct (played D T cs).
Proof. intros I a b Ha Hb. apply I; apply elem_of_app; by left. Qed.

Section Rules.
Context {K : Keccak} {L2 : L2Types} (D : Z) (cs : list Claim) (G : game_ok D cs).
Context (T : Z -> hash) (prov : TraceProvider) {TL : TraceLaws D T prov}.
Context (I : ids_distinct (compared D T cs)).
Let I' : ids_distinct (played D T cs) := compared_played D T cs I.

Abbreviation g := (NewGameState cs D).
Abbreviation correct := (correct D T).
Abbreviation hmove := (hmove D T).

(** An action against a claim that needs it. *)
Context (i : nat) (c : Claim) (a : Action) (Hc : cs !! i = Some c).
Context (Hcount : countered D cs T c) (Hneed : needed D cs T c) (Ha : acts D T c a).

Lemma rule_parent : parent_in g a = Ok c.
Proof. unfold parent_in. destruct Ha as (-> & _). rewrite (go_index D cs G i c Hc). by apply claim_at_ok. Qed.

Lemma rule_leaf : depth (position c) = D -> Type_ a = ActionTypeStep /\ ActionValue a = Hash0 /\
  (0 < step_index D T c -> drop 1 (keccak256 (PreState a)) = drop 1 (T (step_index D T c - 1))).
Proof. intros Hd. destruct Ha as (_ & _ & H). by rewrite (proj2 (Z.eqb_eq _ _) Hd) in H. Qed.

Lemma rule_inner : depth (position c) <> D -> Type_ a = ActionTypeMove /\ ActionValue a = value (hmove c).
Proof. intros Hd. destruct Ha as (_ & _ & H). by rewrite (proj2 (Z.eqb_neq _ _) Hd) in H. Qed.

Lemma rule_depth : depth (position c) <= D.
Proof. apply (claim_node D cs G i c Hc). Qed.

Lemma rule_child : depth (position c) <> D -> child D cs c (hmove c).
Proof.
  intros Hd. apply (hmove_child D cs G T c i Hc). apply (countered_open D cs G T c Hcount). pose proof rule_depth. lia.
Qed.

Lemma rule_position : resultingPosition g a =
  Ok (if depth (position c) =? D then position c else position (hmove c)).
Proof.
  unfold resultingPosition. rewrite rule_parent. cbn [mbind outcome_bind].
  destruct (Z.eqb_spec (depth (position c)) D) as [Hd | Hd].
  - destruct (rule_leaf Hd) as (-> & _). done.
  - destruct (rule_inner Hd) as (-> & _). rewrite bool_decide_eq_false_2 by done.
    destruct Ha as (_ & -> & _). unfold Honest.hmove. by destruct (correct c).
Qed.

Lemma rule1 : parentMustExist g a prov = Ok ().
Proof.
  unfold parentMustExist. destruct Ha as (-> & _). rewrite (go_index D cs G i c Hc).
  pose proof (lookup_lt_Some _ _ _ Hc). cbn [Claims claims NewGameState]. unfold zlen.
  rewrite (proj2 (Z.leb_gt _ _)), (proj2 (Z.ltb_ge _ _)) by lia. done.
Qed.

Lemma rule2 : onlyStepAtMaxDepth g a prov = Ok ().
Proof.
  unfold onlyStepAtMaxDepth. rewrite rule_parent. cbn [mbind outcome_bind]. pose proof rule_depth.
  destruct (decide (depth (position c) = D)) as [Hd | Hd]; [by destruct (rule_leaf Hd) as (-> & _) |].
  destruct (rule_inner Hd) as (-> & _). rewrite bool_decide_eq_false_2 by done. unfold Depth.
  rewrite (proj2 (Z.leb_gt (MaxDepth g) _)) by (cbn; lia). done.
Qed.

Lemma rule3 : onlyMoveBeforeMaxDepth g a prov = Ok ().
Proof.
  unfold onlyMoveBeforeMaxDepth. rewrite rule_parent. cbn [mbind outcome_bind].
  destruct (decide (depth (position c) = D)) as [Hd | Hd]; [| by destruct (rule_inner Hd) as (-> & _)].
  destruct (rule_leaf Hd) as (-> & _). rewrite bool_decide_eq_false_2 by done. unfold Depth.
  rewrite Hd. cbn [MaxDepth gs_depth NewGameState]. rewrite Z.ltb_irrefl. done.
Qed.

Lemma rule4 : doNotDuplicateExistingMoves g a prov = Ok ().
Proof.
  unfold doNotDuplicateExistingMoves. rewrite rule_position. cbn [mbind outcome_bind].
  destruct Ha as (Ep & _). rewrite Ep. set (x := mkClaim _ _ _ _ _ _).
  destruct (IsDuplicate g x) eqn:Edup; [| done]. exfalso. apply IsDuplicate_iff in Edup as (y & Hy & E). subst x.
  destruct (Z.eqb_spec (depth (position c)) D) as [Hd | Hd].
  - destruct (rule_leaf Hd) as (_ & Ev & _). rewrite Ev in E.
    assert (key y = key (step_probe c)) as Ek.
    { apply I; [apply elem_of_app; left; apply elem_of_app; by left | | done].
      apply elem_of_app. right. apply list_elem_of_fmap. exists c. split; [done |]. apply list_elem_of_filter.
      split; [done | by eapply list_elem_of_lookup_2]. }
    apply list_elem_of_lookup in Hy as [k Hk]. pose proof (f_equal snd Ek) as E1. pose proof (f_equal (fun k => k.1.1) Ek) as E2.
    cbn in E1, E2. destruct k as [|k].
    + destruct (root_at D cs G y Hk) as [Er _]. rewrite <- E2, Er, RootPosition_eq in Hd. cbn in Hd. pose proof (go_depth D cs G). lia.
    + destruct (claim_child D cs G k y Hk) as (j & p & _ & Hp & Epj & Hch).
      rewrite E1, (go_index D cs G i c Hc) in Epj. apply Nat2Z.inj in Epj as ->. rewrite Hc in Hp. injection Hp as <-.
      pose proof (child_depth D cs G c y Hch). rewrite E2 in *. lia.
  - destruct (rule_inner Hd) as (_ & Ev). rewrite Ev in E. unfold needed in Hneed.
    rewrite (proj2 (Z.eqb_neq _ _) Hd) in Hneed. apply (Hneed y Hy).
    apply I'; [apply elem_of_app; by left | | exact E]. apply played_move, (countered_open D cs G T c Hcount).
    pose proof rule_depth. lia.
Qed.

Lemma rule5 : (forall x, x ∈ cs -> depth (position x) < D -> CounteredBy x = Address0) ->
  doNotStepAlreadyCounteredClaims g a prov = Ok ().
Proof.
  intros Hu. unfold doNotStepAlreadyCounteredClaims. rewrite rule_parent. cbn [mbind outcome_bind].
  rewrite bool_decide_eq_false_2; [done |]. intros Hn. apply Hn. unfold needed in Hneed. pose proof rule_depth.
  destruct (Z.eqb_spec (depth (position c)) D); [done |]. apply Hu; [by eapply list_elem_of_lookup_2 | lia].
Qed.

Lemma rule6 : doNotDefendRootClaim g a prov = Ok ().
Proof.
  unfold doNotDefendRootClaim. rewrite rule_parent. cbn [mbind outcome_bind]. destruct Ha as (_ & -> & _).
  destruct (IsRootPosition (position c)) eqn:Er; [| done]. replace (correct c) with false; [done |].
  symmetry. destruct i as [|k]; [by apply (countered_root D cs G T c Hc) |].
  destruct (claim_child D cs G k c Hc) as (j & p & _ & _ & _ & Hch).
  pose proof (child_not_root D cs G p c Hch) as E. unfold IsRoot in E. congruence.
Qed.

Lemma rule10 : (forall x, x ∈ cs -> Claimant x = challengerAddr -> honest D cs T x) ->
  doNotCounterSelf g a prov = Ok ().
Proof.
  intros Hown. unfold doNotCounterSelf. rewrite rule_parent. cbn [mbind outcome_bind].
  rewrite bool_decide_eq_false_2; [done |]. intros E. apply (countered_dishonest D cs G T I' i c Hc Hcount), Hown; [by eapply list_elem_of_lookup_2 | done].
Qed.

(** The bounds of the claim, with the values the steps rely on. *)
Lemma rule_bounds : answer_inv D cs T c.
Proof. by apply (strategy_inv D cs G T I' i c Hc). Qed.

Lemma get_claim k x : cs !! k = Some x -> Get prov (position x) = Ok (T (ti D (position x))).
Proof. intros Hx. destruct (claim_node D cs G k x Hx) as [Hp Hd _]. by apply tl_get. Qed.

Lemma rule7 : avoidPoisonedPrestate g a prov = Ok ().
Proof.
  unfold avoidPoisonedPrestate. destruct (decide (depth (position c) = D)) as [Hd | Hd].
  { by destruct (rule_leaf Hd) as (-> & _). }
  destruct (rule_inner Hd) as (-> & _). rewrite bool_decide_eq_false_2 by done.
  rewrite rule_position, (proj2 (Z.eqb_neq _ _) Hd). cbn [mbind outcome_bind].
  pose proof (rule_child Hd) as Hch. rewrite (child_ti D cs G c _ Hch : TraceIndex (MaxDepth g) _ = _). cbn [mbind outcome_bind].
  rewrite rule_parent. cbn [mbind outcome_bind]. destruct rule_bounds as (lo & hi & Hb & Hl & Hr).
  destruct (bounded_inside D cs G D c (hmove c) lo hi Hb Hch) as (H1 & H2 & H3); [apply (child_node D cs G c _ Hch) |].
  rewrite (prestate_found D cs G _ i c lo hi _ Hb Hc) by (done || (pose proof (lookup_lt_Some _ _ _ Hc); cbn; lia)).
  cbn [mbind outcome_bind].
  assert (forall k x, cs !! k = Some x -> correct x = true ->
    (if bool_decide (x = Claim0) then Ok () else
       correctValue ← Get prov (position x);
       if bool_decide (correctValue <> value x) then Err "prestate poisoned" else Ok ()) = Ok ()) as Hok.
  { intros k x Hx Hcor. rewrite bool_decide_eq_false_2 by (by apply (claim_not_zero D cs G k)).
    rewrite (get_claim k x Hx). cbn [mbind outcome_bind]. apply bool_decide_eq_true in Hcor.
    by rewrite bool_decide_eq_false_2 by (by intros ?). }
  destruct (Z.ltb_spec (ti D (position c)) (ti D (position (hmove c)))) as [Hlt | Hge].
  - apply (Hok i c Hc). destruct (correct c) eqn:Ec; [done |]. exfalso.
    destruct (reply_side D cs G c (hmove c) Hch) as [[_ ?] | (E & H0 & _)]; [lia |].
    unfold Honest.hmove in E. rewrite Ec in E. cbn in E. destruct (claim_node D cs G i c Hc) as [Hp _ He].
    pose proof (RightOf_Attack _ Hp) as HA. rewrite E in HA. by rewrite RightOf_Defend in HA.
  - destruct lo as [l |]; cbn [default]; [| by rewrite bool_decide_eq_true_2].
    destruct (bounded_in D cs c (Some l) hi l Hb) as [k Hk]; [by left |]. apply (Hok k l Hk). by apply Hl.
Qed.

Lemma bound_depth p lo hi x :
  bounded D cs p lo hi -> lo = Some x \/ hi = Some x -> 0 <= depth (position x) < depth (position p).
Proof.
  induction 1 as [r Hr | p q lo hi Hb IH Hch E | p q lo hi Hb IH Hch E H0]; intros Hx; [by destruct Hx | |];
    pose proof (child_depth D cs G p q Hch); pose proof (po_depth _ (no_pos _ _ (bounded_node D cs G _ _ _ Hb)));
    destruct Hx as [Hx | Hx]; try (injection Hx as <-; lia); [assert (0 <= depth (position x) < depth (position p)) by auto | assert (0 <= depth (position x) < depth (position p)) by auto]; lia.
Qed.

Lemma leaf_ti p : depth (position p) = D -> ti D (position p) = IndexAtDepth (position p).
Proof. intros Hd. unfold ti. rewrite Hd, Z.sub_diag, Z.pow_0_r. lia. Qed.

(** The pre-state of the step, or of an attack on the move, is a right claim
    above the claim that is answered. *)
Lemma rule_prestate idx :
  idx = (if depth (position c) =? D then step_index D T c else ti D (position (hmove c))) - 1 ->
  depth (position c) = D \/ depth (position (hmove c)) = D -> 0 <= idx ->
  exists k l, cs !! k = Some l /\ correct l = true /\ ti D (position l) = idx /\
    AncestorWithTraceIndex g c idx = Ok (Some l).
Proof.
  intros Ei Hd Hi. destruct rule_bounds as (lo & hi & Hb & Hl & _). pose proof rule_depth as Hle.
  destruct (bounded_ti D cs G D c lo hi Hb Hle) as [Hlo _]. unfold left_of in Hlo.
  assert (forall k l, cs !! k = Some l -> correct l = true -> l = c \/ lo = Some l \/ hi = Some l -> ti D (position l) = idx ->
    exists k l, cs !! k = Some l /\ correct l = true /\ ti D (position l) = idx /\ AncestorWithTraceIndex g c idx = Ok (Some l)) as Hfin.
  { intros k l Hk Hcor Hx <-. exists k, l. do 3 (split; [done |]). by apply (Ancestor_found D cs G i c lo hi). }
  destruct (Z.eqb_spec (depth (position c)) D) as [E | E].
  - unfold step_index in Ei. pose proof (leaf_ti c E). destruct (correct c) eqn:Ec; [apply (Hfin i c); auto; lia |].
    rewrite E, Z.sub_diag in Hlo. destruct lo as [l |]; cbn in Hlo; [| lia].
    destruct (bounded_in D cs c (Some l) hi l Hb) as [k Hk]; [by left |]. apply (Hfin k l); auto. lia.
  - destruct Hd as [Hd | Hd]; [done |]. pose proof (rule_child E) as Hch. pose proof (child_depth D cs G c _ Hch) as Edc.
    destruct (claim_node D cs G i c Hc) as [Hp _ He]. assert (D - depth (position c) = 1) as E1 by lia.
    rewrite E1 in Hlo. change (2 ^ 1) with 2 in Hlo. destruct (correct c) eqn:Ec.
    + apply (Hfin i c); auto. destruct (reply_side D cs G c (hmove c) Hch) as [[Ea _] | (Ea & H0 & _)].
      { exfalso. unfold Honest.hmove in Ea. rewrite Ec in Ea. cbn in Ea. pose proof (RightOf_Attack _ Hp) as HA.
        rewrite <- Ea, RightOf_Defend in HA; [done | done | | done]. intros H0.
        pose proof (countered_open D cs G T c Hcount ltac:(lia)) as [[_ Hr] _]%list_elem_of_filter.
        rewrite Ec in Hr. by specialize (Hr (proj2 (IsRoot_iff _ Hp) H0)). }
      rewrite Ea, ti_Defend, E1 in Ei by (done || lia). cbn in Ei. lia.
    + assert (position (hmove c) = Attack (position c)) as Ea by (unfold Honest.hmove; by rewrite Ec).
      rewrite Ea, ti_Attack, E1 in Ei by (done || lia). cbn in Ei. destruct lo as [l |]; cbn in Hlo.
      * destruct (bounded_in D cs c (Some l) hi l Hb) as [k Hk]; [by left |]. apply (Hfin k l); auto. lia.
      * exfalso. unfold ti in Ei. rewrite Hlo, E1 in Ei. cbn in Ei. lia.
Qed.

Lemma rule8 : detectPoisonedStepPrestate g a prov = Ok ().
Proof.
  unfold detectPoisonedStepPrestate. rewrite rule_position. cbn [mbind outcome_bind].
  set (pos := if depth (position c) =? D then position c else position (hmove c)).
  destruct (Z.eqb_spec (Depth pos) (MaxDepth g)) as [Epos | Epos]; [| done]. cbn [negb]. cbn in Epos. unfold Depth in Epos.
  assert (TraceIndex (MaxDepth g) pos = Ok (ti D pos)) as ->.
  { apply (TraceIndex_ok D pos); [| pose proof (go_depth D cs G); lia]. subst pos.
    destruct (Z.eqb_spec (depth (position c)) D) as [E | E]; [apply (claim_node D cs G i c Hc) |].
    apply (child_node D cs G c _ (rule_child E)). }
  cbn [mbind outcome_bind].
  assert ((if IsAttack a || bool_decide (Type_ a = ActionTypeMove) then ti D pos - 1 else ti D pos)
    = (if depth (position c) =? D then step_index D T c else ti D (position (hmove c))) - 1) as ->.
  { subst pos. destruct Ha as (_ & -> & _). destruct (Z.eqb_spec (depth (position c)) D) as [E | E].
    - destruct (rule_leaf E) as (-> & _). rewrite bool_decide_eq_false_2, orb_false_r by done.
      unfold step_index. rewrite leaf_ti by done. destruct (correct c); cbn; lia.
    - destruct (rule_inner E) as (-> & _). rewrite bool_decide_eq_true_2, orb_true_r by done. done. }
  set (idx := _ - 1). destruct (Z.ltb_spec idx 0) as [Hneg | Hge]; [done |]. rewrite rule_parent. cbn [mbind outcome_bind].
  destruct (rule_prestate idx eq_refl) as (k & l & Hk & Hcor & Et & ->); [| done |].
  { subst pos. destruct (Z.eqb_spec (depth (position c)) D); auto. }
  cbn [mbind outcome_bind]. rewrite (get_claim k l Hk). cbn [mbind outcome_bind].
  apply bool_decide_eq_true in Hcor. rewrite bool_decide_eq_false_2 by (by intros ?).
  destruct (decide (depth (position c) = D)) as [E | E].
  - destruct (rule_leaf E) as (-> & _ & Hpre). rewrite bool_decide_eq_true_2 by done.
    rewrite bool_decide_eq_false_2; [done |]. intros Hne. apply Hne. subst idx. rewrite E, Z.eqb_refl in *.
    rewrite Hpre by lia. by rewrite <- Et, Hcor.
  - destruct (rule_inner E) as (-> & _). by rewrite bool_decide_eq_false_2.
Qed.

Lemma rule9 : detectFailedStep g a prov = Ok ().
Proof.
  unfold detectFailedStep. destruct (decide (depth (position c) = D)) as [E | E].
  2: { destruct (rule_inner E) as (-> & _). by rewrite bool_decide_eq_true_2. }
  destruct (rule_leaf E) as (-> & _). rewrite bool_decide_eq_false_2 by (intros H; by apply H).
  rewrite rule_position, (proj2 (Z.eqb_eq _ _) E). cbn [mbind outcome_bind]. unfold Depth. rewrite E.
  cbn [MaxDepth gs_depth NewGameState]. rewrite Z.eqb_refl. cbn [negb].
  rewrite (claim_ti D cs G i c Hc). cbn [mbind outcome_bind]. rewrite rule_parent. cbn [mbind outcome_bind].
  destruct rule_bounds as (lo & hi & Hb & _ & Hr). destruct Ha as (_ & -> & _). rewrite negb_involutive.
  destruct (correct c) eqn:Ec.
  - destruct (bounded_ti D cs G D c lo hi Hb rule_depth) as [_ Hhi]. unfold right_of in Hhi.
    rewrite E, Z.sub_diag, Z.pow_0_r in Hhi.
    destruct hi as [h |]; cbn in Hhi; [| pose proof (go_depth D cs G); lia]. rewrite <- Hhi.
    rewrite (Ancestor_found D cs G i c lo (Some h) h) by auto. cbn [mbind outcome_bind].
    destruct (bounded_in D cs c lo (Some h) h Hb) as [k Hk]; [by right |]. rewrite (get_claim k h Hk). cbn [mbind outcome_bind].
    specialize (Hr eq_refl h eq_refl). fold (correct h). rewrite Hr.
    pose proof (bound_depth c lo (Some h) h Hb (or_intror eq_refl)) as Hbd. pose proof (po_depth _ (no_pos _ _ (claim_node D cs G i c Hc))).
    unfold usub, wrap.
    rewrite (Z.mod_small (depth (position c) - depth (position h))) by lia. unfold same_team. rewrite Zmod_even.
    by destruct (Z.even _).
  - rewrite (Ancestor_found D cs G i c lo hi c) by auto. cbn [mbind outcome_bind].
    rewrite (get_claim i c Hc). cbn [mbind outcome_bind]. fold (correct c). rewrite Ec. unfold usub. by rewrite Z.sub_diag.
Qed.

Lemma rules_hold :
  (forall x, x ∈ cs -> depth (position x) < D -> CounteredBy x = Address0) ->
  (forall x, x ∈ cs -> Claimant x = challengerAddr -> honest D cs T x) ->
  checkRules g a prov = Ok ().
Proof.
  intros Hu Hown. unfold checkRules, rules. cbn [run_rules].
  by rewrite rule1, rule2, rule3, rule4, (rule5 Hu), rule6, rule7, rule8, rule9, (rule10 Hown).
Qed.

End Rules.
