(* ===== verification/ResolutionProps.v ===== *)
(** The tree of a game and its resolution: a claim ends up countered by the
    leftmost of its replies that is not countered itself. *)
From Stdlib Require Import ZArith Lia.
From stdpp Require Import base gmap list strings numbers.
From S2P Require Import Prelude Position Claims Resolution GameProps Trace Solver Honest SolverProps.

Section Tree.
Context (D : Z) (cs : list Claim) (G : game_ok D cs).

Definition is_child (i j : nat) : bool :=
  match cs !! j with
  | Some c => negb (IsRoot c) && (ParentContractIndex c =? Z.of_nat i)
  | None => false
  end.

(** The replies to claim [i] among the first [k] claims. *)
Definition kids (k i : nat) : list nat := filter (fun j => is_child i j = true) (seq 0 k).

Lemma kids_S k i : kids (S k) i = kids k i ++ (if is_child i k then [k] else []).
Proof.
  unfold kids. rewrite seq_S, list_basics.list.filter_app. f_equal. cbn [plus]. destruct (is_child i k) eqn:E.
  - by rewrite filter_cons_True.
  - rewrite filter_cons_False; [done | by rewrite E].
Qed.

Lemma child_later i j : is_child i j = true -> (i < j)%nat.
Proof.
  unfold is_child. destruct (cs !! j) as [c |] eqn:Hc; [| done]. rewrite andb_true_iff, negb_true_iff, Z.eqb_eq.
  intros [Hr Hp]. destruct j as [|j]; [by destruct (root_at D cs G c Hc); congruence |].
  destruct (go_parent D cs G j c Hc) as (j' & _ & Hj & _ & E & _). lia.
Qed.

Lemma elem_of_kids k i j : j ∈ kids k i <-> is_child i j = true /\ (j < k)%nat.
Proof. unfold kids. rewrite list_elem_of_filter, elem_of_seq. split; (intros [? ?]; split; [done | lia]). Qed.

Lemma kids_NoDup k i : NoDup (kids k i).
Proof. apply list_relations.list.NoDup_filter, NoDup_seq. Qed.

Lemma add_claims_app l1 l2 st : add_claims (l1 ++ l2) st = (st ← add_claims l1 st; add_claims l2 st).
Proof.
  revert st. induction l1 as [|c l1 IH]; intros st; cbn [app add_claims]; [done |].
  destruct (add_claim c st); cbn [mbind outcome_bind]; [apply IH | done | done].
Qed.

(** The map and the tree after [k] claims. *)
Record built (k : nat) (st : gmap Z nat * BidirectionalTree) : Prop := {
  bu_len : length st.2 = k;
  bu_map : forall j, (j < k)%nat -> st.1 !! Z.of_nat j = Some j;
  bu_tree : forall i c, (i < k)%nat -> cs !! i = Some c -> st.2 !! i = Some (mkBidirectional c (kids k i));
}.

Lemma built_step k c st : cs !! k = Some c -> built k st -> exists st', add_claim c st = Ok st' /\ built (S k) st'.
Proof.
  intros Hc [Hl Hm Ht]. destruct st as [m res]. cbn [fst snd] in *. unfold add_claim.
  rewrite (go_index D cs G k c Hc), Hl. set (m' := <[Z.of_nat k := k]> m).
  assert (forall j, (j < S k)%nat -> m' !! Z.of_nat j = Some j) as Hm'.
  { intros j Hj. subst m'. destruct (decide (j = k)) as [-> |]; [by rewrite lookup_insert_eq |].
    rewrite lookup_insert_ne by lia. apply Hm. lia. }
  assert (kids (S k) k = []) as Hk.
  { destruct (kids (S k) k) as [|j l] eqn:E; [done |]. assert (j ∈ kids (S k) k) as [Hj%child_later ?]%elem_of_kids; [| lia].
    rewrite E. apply list_elem_of_here. }
  assert (forall i x, (i < S k)%nat -> cs !! i = Some x -> is_child i k = false ->
    (res ++ [mkBidirectional c []]) !! i = Some (mkBidirectional x (kids (S k) i))) as Hother.
  { intros i x Hi Hx Hf. destruct (decide (i = k)) as [-> |].
    - rewrite Hc in Hx. injection Hx as <-. rewrite Hk, lookup_app_r by lia. by rewrite Hl, Nat.sub_diag.
    - rewrite lookup_app_l by lia. rewrite kids_S, Hf, app_nil_r. apply Ht; [lia | done]. }
  destruct k as [|k'].
  - destruct (root_at D cs G c Hc) as [_ Hr]. rewrite Hr. eexists. split; [done |]. split; cbn [fst snd]; [rewrite length_app; cbn; lia | done |].
    intros i x Hi Hx. apply Hother; [done | done |]. unfold is_child. rewrite Hc, Hr. done.
  - destruct (go_parent D cs G k' c Hc) as (j & p & Hj & Hp & Ep & Hd & Hrep).
    assert (child D cs p c) as Hch by (by exists j). rewrite (child_not_root D cs G p c Hch), Ep, Hm' by lia.
    assert (forall i, is_child i (S k') = bool_decide (i = j)) as Hisc.
    { intros i. unfold is_child. rewrite Hc, (child_not_root D cs G p c Hch), Ep. cbn [negb andb].
      case_bool_decide as E; [subst; apply Z.eqb_refl | apply Z.eqb_neq; lia]. }
    eexists. split; [done |]. split; cbn [fst snd]; [rewrite length_alter, length_app; cbn; lia | done |].
    intros i x Hi Hx. destruct (decide (i = j)) as [-> | Hne].
    + rewrite list_lookup_alter_eq, lookup_app_l by lia. rewrite (Ht j x) by (done || lia). cbn [fmap option_fmap option_map].
      unfold add_child. cbn [bc_Claim Children]. by rewrite (kids_S (S k') j), Hisc, bool_decide_eq_true_2.
    + rewrite list_lookup_alter_ne by done. apply Hother; [done | done |]. by rewrite Hisc, bool_decide_eq_false_2.
Qed.

Lemma built_all : exists m tree, add_claims cs (∅, []) = Ok (m, tree) /\ built (length cs) (m, tree).
Proof.
  assert (forall k, (k <= length cs)%nat -> exists st, add_claims (take k cs) (∅, []) = Ok st /\ built k st) as H.
  { induction k as [|k IH]; intros Hk.
    - exists (∅, []). split; [done |]. split; [done | lia | lia].
    - destruct (IH ltac:(lia)) as (st & R & B). destruct (lookup_lt_is_Some_2 cs k ltac:(lia)) as [c Hc].
      destruct (built_step k c st Hc B) as (st' & R' & B'). exists st'. split; [| done].
      rewrite (take_S_r _ _ _ Hc), add_claims_app, R. cbn [mbind outcome_bind add_claims]. by rewrite R'. }
  destruct (H (length cs) ltac:(lia)) as ([m tree] & R & B). rewrite take_ge in R by lia. eauto.
Qed.

(** ** The leftmost counter *)

Definition uncountered (t : BidirectionalTree) (j : nat) : Prop :=
  exists b, t !! j = Some b /\ CounteredBy (bc_Claim b) = Address0.

Lemma leftmost_agree t t' l a m :
  (forall j, j ∈ l -> t !! j = t' !! j) -> leftmost t l a m = leftmost t' l a m.
Proof.
  revert a m. induction l as [|j l IH]; intros a m H; cbn [leftmost]; [done |].
  rewrite <- (H j) by apply list_elem_of_here.
  assert (forall a m, leftmost t l a m = leftmost t' l a m) as IH'
    by (intros; apply IH; intros; apply H; by apply list_elem_of_further).
  destruct (t !! j) as [b |]; [| done]. rewrite !IH'. done.
Qed.

(** If every reply is countered the claim keeps its counter. *)
Lemma leftmost_none t l a m :
  (forall j, j ∈ l -> exists b, t !! j = Some b /\ CounteredBy (bc_Claim b) <> Address0) -> leftmost t l a m = a.
Proof.
  revert a m. induction l as [|j l IH]; intros a m H; cbn [leftmost]; [done |].
  destruct (H j (list_elem_of_here _ _)) as (b & -> & Hb). rewrite bool_decide_eq_true_2 by done.
  apply IH. intros; apply H; by apply list_elem_of_further.
Qed.

Definition index_of (t : BidirectionalTree) (j : nat) : Z :=
  match t !! j with Some b => IndexAtDepth (position (bc_Claim b)) | None => 0 end.

Definition claimant_of (t : BidirectionalTree) (j : nat) : list Z :=
  match t !! j with Some b => Claimant (bc_Claim b) | None => [] end.

Lemma leftmost_keep t l a v :
  (forall k, k ∈ l -> is_Some (t !! k)) -> (forall k, k ∈ l -> uncountered t k -> v <= index_of t k) ->
  leftmost t l a (Some v) = a.
Proof.
  induction l as [|k l IH]; intros Hs H; cbn [leftmost]; [done |].
  assert (leftmost t l a (Some v) = a) as E by (apply IH; intros; [apply Hs | apply H]; try done; by apply list_elem_of_further).
  destruct (Hs k (list_elem_of_here _ _)) as [b Hb]. rewrite Hb. case_bool_decide as Hc; [done |].
  assert (CounteredBy (bc_Claim b) = Address0) as Hz by (by destruct (decide (CounteredBy (bc_Claim b) = Address0))).
  specialize (H k (list_elem_of_here _ _) (ex_intro _ b (conj Hb Hz))). unfold index_of in H. rewrite Hb in H.
  rewrite (proj2 (Z.ltb_ge _ _)) by lia. done.
Qed.

(** A reply that is not countered and left of all others wins. *)
Lemma leftmost_pick t l a m j :
  NoDup l -> j ∈ l -> (forall k, k ∈ l -> is_Some (t !! k)) -> uncountered t j ->
  (forall k, k ∈ l -> k <> j -> uncountered t k -> index_of t j < index_of t k) ->
  (forall v, m = Some v -> index_of t j < v) -> leftmost t l a m = claimant_of t j.
Proof.
  revert a m. induction l as [|k l IH]; intros a m Hnd Hj Hs Hu Hmin Hm; cbn [leftmost]; [by apply list_elem_of_In in Hj |].
  inversion Hnd as [| ? ? Hnk Hnd']; subst.
  assert (forall k', k' ∈ l -> is_Some (t !! k')) as Hs' by (intros; apply Hs; by apply list_elem_of_further).
  destruct (decide (k = j)) as [-> | Hne].
  - destruct Hu as (b & Hb & Hz). rewrite Hb, bool_decide_eq_false_2 by (by intros ?).
    assert (match m with Some l => IndexAtDepth (position (bc_Claim b)) <? l | None => true end = true) as ->.
    { destruct m as [v |]; [| done]. specialize (Hm v eq_refl). unfold index_of in Hm. rewrite Hb in Hm. by apply Z.ltb_lt. }
    rewrite leftmost_keep; [unfold claimant_of; by rewrite Hb | done |]. intros k Hk Huk.
    assert (k <> j) as Hkj by (intros ->; done). pose proof (Hmin k (list_elem_of_further _ _ _ Hk) Hkj Huk) as Hlt.
    unfold index_of in Hlt at 1. rewrite Hb in Hlt. lia.
  - apply elem_of_cons in Hj as [-> | Hj]; [done |].
    assert (forall a m, (forall v, m = Some v -> index_of t j < v) -> leftmost t l a m = claimant_of t j) as IH'.
    { intros a' m' Hm'. apply IH; try done. intros; apply Hmin; try done; by apply list_elem_of_further. }
    destruct (Hs k (list_elem_of_here _ _)) as [b Hb]. rewrite Hb. case_bool_decide as Hc; [by apply IH' |].
    assert (CounteredBy (bc_Claim b) = Address0) as Hz by (by destruct (decide (CounteredBy (bc_Claim b) = Address0))).
    destruct (match m with Some l => _ | None => true end); [| by apply IH']. apply IH'. intros v [= <-].
    pose proof (Hmin k (list_elem_of_here _ _) Hne (ex_intro _ b (conj Hb Hz))) as H. unfold index_of in H at 2. by rewrite Hb in H.
Qed.

(** ** The loop *)

Definition n := length cs.

(** The entry of claim [i] is the one the resolution gives it. *)
Definition final_at (t : BidirectionalTree) (i : nat) : Prop :=
  forall c, cs !! i = Some c ->
    t !! i = Some (mkBidirectional (with_CounteredBy (leftmost t (kids n i) (CounteredBy c) None) c) (kids n i)).

Lemma resolve_claim_other t i j : i <> j -> resolve_claim t i !! j = t !! j.
Proof. intros Hne. unfold resolve_claim. destruct (t !! i); [by rewrite list_lookup_insert_ne | done]. Qed.

Lemma length_resolve_claim t i : length (resolve_claim t i) = length t.
Proof. unfold resolve_claim. destruct (t !! i); [by rewrite length_insert | done]. Qed.

Lemma resolve_loop_final k t :
  (k <= n)%nat -> length t = n ->
  (forall i c, (i < k)%nat -> cs !! i = Some c -> t !! i = Some (mkBidirectional c (kids n i))) ->
  (forall i, (k <= i)%nat -> final_at t i) ->
  length (resolve_loop k t) = n /\ forall i, final_at (resolve_loop k t) i.
Proof.
  revert t. induction k as [|k IH]; intros t Hk Hl Hu Hf; cbn [resolve_loop]; [split; [done | intros i; apply Hf; lia] |].
  assert (forall i a m, (k <= i)%nat -> leftmost (resolve_claim t k) (kids n i) a m = leftmost t (kids n i) a m) as Hag.
  { intros i a m Hi. apply leftmost_agree. intros j [Hj%child_later _]%elem_of_kids. apply resolve_claim_other. lia. }
  apply IH; [lia | by rewrite length_resolve_claim | |].
  - intros i c Hi Hc. rewrite resolve_claim_other by lia. apply Hu; [lia | done].
  - intros i Hi c Hc. rewrite Hag by done. destruct (decide (i = k)) as [-> | Hne].
    + unfold resolve_claim. rewrite (Hu k c) by (done || lia). rewrite list_lookup_insert_eq; [done |].
      pose proof (lookup_lt_Some _ _ _ Hc). unfold n in *. lia.
    + rewrite resolve_claim_other by done. apply Hf; [lia | done].
Qed.

(** The resolved tree: every claim keeps its place and its replies, and its
    counter is the leftmost reply that is not countered in the resolved tree. *)
Lemma Resolve_final : exists tree,
  CreateBidirectionalTree cs = Ok tree /\
  length (Resolve tree).2 = n /\ (forall i, final_at (Resolve tree).2 i) /\
  (uncountered (Resolve tree).2 0 -> (Resolve tree).1 = GameStatusDefenderWon) /\
  (~ uncountered (Resolve tree).2 0 -> (Resolve tree).1 = GameStatusChallengerWon).
Proof.
  destruct built_all as (m & tree & R & [Hl _ Ht]). cbn [fst snd] in *. exists tree.
  unfold CreateBidirectionalTree. rewrite R. split; [done |].
  destruct (resolve_loop_final (length tree) tree) as [Hlen Hfin].
  - unfold n. lia.
  - unfold n. lia.
  - intros i c Hi Hc. apply Ht; [lia | done].
  - intros i Hi c Hc. pose proof (lookup_lt_Some _ _ _ Hc). lia.
  - unfold Resolve. destruct (resolve_loop (length tree) tree) as [|b t] eqn:Et.
    { destruct (go_root D cs G) as (r & Hr & _). pose proof (lookup_lt_Some _ _ _ Hr). unfold n in Hlen. cbn in Hlen. lia. }
    case_bool_decide as Hb; cbn [fst snd]; (split; [done |]; split; [done |]); split; try done.
    + intros Hn. destruct Hn. by exists b.
    + intros (b' & [= <-] & Hb'). done.
Qed.

End Tree.

(** The outcome of a game in which the honest strategy has nothing left to do. *)

Import Game.

(** ** Steps the contract accepts

    [vm pre post]: some state with the commitment [pre] steps to one with the
    commitment [post]. The trace is a run of the VM from the absolute pre-state
    [abs]. *)
Record vm_runs (D : Z) (T : Z -> hash) (vm : hash -> hash -> Prop) (abs : hash) : Prop := {
  vr_first : forall h, vm abs h -> h = T 0;
  vr_next : forall i h, 0 <= i < 2 ^ D - 1 -> vm (T i) h -> h = T (i + 1);
}.

(** A step against the leaf [c] of the game: an attack executes the step that
    leads to [c], from the claim on its left or the absolute pre-state, and must
    not end in [c]; a defense executes the step after [c] and must end in the
    claim on its right exactly if that claim is of the other team. *)
Inductive step_accepted {K : Keccak} (vm : hash -> hash -> Prop) (abs : hash) (g : gameState) (c : Claim) : Prop :=
| step_attack_first h :
    ti (MaxDepth g) (position c) = 0 -> vm abs h -> h <> value c -> step_accepted vm abs g c
| step_attack l h :
    AncestorWithTraceIndex g c (ti (MaxDepth g) (position c) - 1) = Ok (Some l) ->
    vm (value l) h -> h <> value c -> step_accepted vm abs g c
| step_defend r h :
    AncestorWithTraceIndex g c (ti (MaxDepth g) (position c) + 1) = Ok (Some r) ->
    vm (value c) h -> same_team c r <> bool_decide (h = value r) -> step_accepted vm abs g c.

Section Result.
Context {K : Keccak} {L2 : L2Types} (D : Z) (cs : list Claim) (G : game_ok D cs).
Context (T : Z -> hash) (I : ids_distinct (played D T cs)).

Abbreviation g := (NewGameState cs D).
Abbreviation correct := (correct D T).
Abbreviation hmove := (hmove D T).
Abbreviation honest := (honest D cs T).
Abbreviation countered := (countered D cs T).

(** No step is accepted against an honest leaf. *)
Lemma honest_leaf_safe vm abs i c :
  vm_runs D T vm abs -> cs !! i = Some c -> honest c -> depth (position c) = D -> ~ step_accepted vm abs g c.
Proof.
  intros [Hfirst Hnext] Hc Hh Hd Hstep.
  destruct (strategy_inv D cs G T I i c Hc) as [Hinv _]. destruct (Hinv Hh) as (lo & hi & Hb & Hcor & Hl & Hr).
  apply bool_decide_eq_true in Hcor as Hv. destruct (bounded_ti D cs G D c lo hi Hb) as [Hlo Hhi]; [lia |].
  unfold left_of, right_of in Hlo, Hhi. rewrite Hd, Z.sub_diag, Z.pow_0_r in Hlo, Hhi.
  pose proof (ti_bounds D (position c) (no_pos _ _ (claim_node D cs G i c Hc)) ltac:(lia)) as Hti.
  inversion Hstep as [h E Hvm Hne | l h E Hvm Hne | r h E Hvm Hne]; cbn [MaxDepth gs_depth NewGameState] in *.
  - apply Hne. rewrite (Hfirst h Hvm), <- Hv. by rewrite E.
  - destruct lo as [l' |].
    + rewrite <- Hlo, (Ancestor_found D cs G i c (Some l') hi l') in E by auto. injection E as <-.
      specialize (Hl l' eq_refl). apply bool_decide_eq_true in Hl.
      destruct (bounded_in D cs c (Some l') hi l' Hb) as [k Hk]; [by left |].
      destruct (claim_node D cs G k l' Hk) as [Hp' Hd' _]. pose proof (ti_bounds D (position l') Hp' Hd').
      apply Hne. rewrite <- Hl in Hvm. rewrite (Hnext (ti D (position l')) h ltac:(lia) Hvm), <- Hv. f_equal. lia.
    + assert (ti D (position c) = 0) as E0 by (unfold ti; rewrite Hlo, Hd, Z.sub_diag; done).
      apply Hne. exfalso. clear -G E E0 Hc I. rewrite E0 in E.
      assert (forall fuel k x, cs !! k = Some x -> ancestor_loop fuel g x (0 - 1) = Ok (Some l) -> False) as H.
      { induction fuel as [|fuel IH]; intros k x Hx; cbn [ancestor_loop];
          rewrite (claim_ti D cs G k x Hx : TraceIndex (gs_depth g) _ = _); cbn [mbind outcome_bind];
          destruct (claim_node D cs G k x Hx) as [Hp' Hd' _]; pose proof (ti_bounds D (position x) Hp' Hd');
          (destruct (Z.eqb_spec (ti D (position x)) (0 - 1)); [lia |]); destruct (IsRoot x) eqn:Er; try done;
          destruct (getParent g x) as [p |] eqn:Ep; try done.
        intros Hrec. unfold getParent in Ep. rewrite Er in Ep. destruct (_ || _); [done |].
        by apply (IH _ p Ep). }
      unfold AncestorWithTraceIndex in E. by apply (H _ i c Hc) in E.
  - destruct hi as [h' |]; [| pose proof (go_depth D cs G); lia].
    rewrite <- Hhi, (Ancestor_found D cs G i c lo (Some h') h') in E by auto. injection E as <-.
    destruct (bounded_in D cs c lo (Some h') h' Hb) as [k Hk]; [by right |].
    destruct (claim_node D cs G k h' Hk) as [Hp' Hd' _]. pose proof (ti_bounds D (position h') Hp' Hd').
    apply Hne. rewrite <- (Hr h' eq_refl). rewrite <- Hv in Hvm.
    rewrite (Hnext (ti D (position c)) h ltac:(lia) Hvm), <- Hhi. done.
Qed.

(** ** Games in which no answer is missing *)

Context (Hsafe : forall c, c ∈ cs -> honest c -> CounteredBy c = Address0).
Context (Hquiet : forall c, c ∈ cs -> countered c -> ~ needed D cs T c).
Context (Hmen : forall c, c ∈ cs -> Claimant c <> Address0).

Lemma quiet_leaf c : c ∈ cs -> countered c -> depth (position c) = D -> CounteredBy c <> Address0.
Proof. intros Hc Hco Hd E. apply (Hquiet c Hc Hco). unfold needed. by rewrite (proj2 (Z.eqb_eq _ _) Hd). Qed.

Lemma quiet_inner c : c ∈ cs -> countered c -> depth (position c) < D -> exists j x, cs !! j = Some x /\ key x = key (hmove c).
Proof.
  intros Hc Hco Hd. destruct (decide (Exists (fun x => key x = key (hmove c)) cs)) as [He | Hn].
  - apply Exists_exists in He as (x & Hx%list_elem_of_In & E). apply list_elem_of_lookup in Hx as [j Hj]. eauto.
  - exfalso. apply (Hquiet c Hc Hco). unfold needed. rewrite (proj2 (Z.eqb_neq _ _)) by lia.
    intros x Hx%list_elem_of_In E. apply Hn. apply Exists_exists. eauto.
Qed.

Context (F : BidirectionalTree) (HF : forall i, final_at cs F i).

Lemma final_entry i c : cs !! i = Some c ->
  F !! i = Some (mkBidirectional (with_CounteredBy (leftmost F (kids cs (length cs) i) (CounteredBy c) None) c)
    (kids cs (length cs) i)).
Proof. apply HF. Qed.

Lemma kid_claim i j : is_child cs i j = true -> exists p x, cs !! i = Some p /\ cs !! j = Some x /\ child D cs p x.
Proof.
  unfold is_child. destruct (cs !! j) as [x |] eqn:Hx; [| done]. rewrite andb_true_iff, negb_true_iff, Z.eqb_eq. intros [Hr Hp].
  destruct j as [|j]; [destruct (root_at D cs G x Hx); congruence |].
  destruct (claim_child D cs G j x Hx) as (k & p & _ & Hk & Ek & Hch). exists p, x.
  rewrite Hp in Ek. apply Nat2Z.inj in Ek as ->. done.
Qed.

Lemma child_kid i j p x : cs !! i = Some p -> cs !! j = Some x -> child D cs p x -> j ∈ kids cs (length cs) i.
Proof.
  intros Hp Hx Hch. apply elem_of_kids. split; [| by eapply lookup_lt_Some]. unfold is_child.
  rewrite Hx, (child_not_root D cs G p x Hch). cbn [negb andb]. apply Z.eqb_eq.
  destruct Hch as (k & Hk & -> & _). rewrite <- (go_index D cs G k p Hk). by apply (go_index D cs G).
Qed.

Lemma key_child i p j x : cs !! i = Some p -> p ∈ open_claims D T cs -> cs !! j = Some x -> key x = key (hmove p) -> child D cs p x.
Proof.
  intros Hp Ho Hx E. apply (child_key D cs p (hmove p)); [done |]. by apply (hmove_child D cs G T p i).
Qed.

Lemma kids_lookup i k : k ∈ kids cs (length cs) i -> is_Some (F !! k).
Proof.
  intros [Hk Hlt]%elem_of_kids. destruct (lookup_lt_is_Some_2 cs k Hlt) as [x Hx]. rewrite (final_entry k x Hx). eauto.
Qed.

(** A reply that is honest has the key of the answer to its parent. *)
Lemma honest_reply_key i p j x :
  cs !! i = Some p -> cs !! j = Some x -> child D cs p x -> honest x -> countered p /\ key x = key (hmove p).
Proof.
  intros Hp Hx Hch Hh. apply (honest_iff D cs G T I x) in Hh; [| by eapply played_claim].
  destruct Hh as [(r & Hr & _ & E) | (q & Hq & Hd & E)].
  - exfalso. pose proof (go_once D cs G j 0 x r Hx Hr E) as ->. destruct (root_at D cs G x Hx) as [_ Ex].
    by rewrite (child_not_root D cs G p x Hch) in Ex.
  - pose proof Hq as (k & Hk & _). pose proof (countered_open D cs G T q Hq Hd) as Ho.
    pose proof (key_child k q j x Hk Ho Hx E) as Hch'. by pose proof (child_unique D cs G q p x Hch' Hch) as ->.
Qed.

(** Siblings are ordered by their trace index as by their index at their depth. *)
Lemma sibling_order p x y : child D cs p x -> child D cs p y ->
  ti D (position x) < ti D (position y) -> IndexAtDepth (position x) < IndexAtDepth (position y).
Proof.
  intros Hx Hy Hlt. pose proof (child_depth D cs G p x Hx) as Ex. pose proof (child_depth D cs G p y Hy) as Ey.
  pose proof (no_depth _ _ (child_node D cs G p x Hx)). unfold ti in Hlt. rewrite Ex, Ey in Hlt.
  pose proof (pow2_pos (D - (depth (position p) + 1)) ltac:(lia)). nia.
Qed.

(** The honest reply to a claim wins: every reply to its left is countered. *)
Lemma honest_reply_wins i c j x :
  cs !! i = Some c -> countered c -> depth (position c) < D -> cs !! j = Some x -> key x = key (hmove c) ->
  uncountered F j ->
  (forall k y, (i < k)%nat -> cs !! k = Some y -> countered y -> ~ uncountered F k) ->
  leftmost F (kids cs (length cs) i) (CounteredBy c) None = Claimant x.
Proof.
  intros Hc Hco Hd Hx E Hu Hcount. pose proof (key_child i c j x Hc (countered_open D cs G T c Hco Hd) Hx E) as Hch.
  rewrite (leftmost_pick F _ _ _ j).
  - unfold claimant_of. by rewrite (final_entry j x Hx).
  - apply kids_NoDup.
  - by apply (child_kid i j c x).
  - apply kids_lookup.
  - done.
  - intros k [Hk _]%elem_of_kids Hne Huk. destruct (kid_claim i k Hk) as (p & y & Hp & Hy & Hchy).
    rewrite Hc in Hp. injection Hp as <-. unfold index_of. rewrite (final_entry j x Hx), (final_entry k y Hy).
    cbn [bc_Claim with_CounteredBy Data_]. apply (sibling_order c x y Hch Hchy).
    destruct (Z.lt_ge_cases (ti D (position x)) (ti D (position y))) as [| Hge]; [done |]. exfalso.
    apply (Hcount k y); [by apply (child_later D cs G) | done | | done].
    apply (countered_child D cs G T I k y c Hy Hchy). split.
    + intros Hh. destruct (honest_reply_key i c k y Hc Hy Hchy Hh) as [_ Ey].
      apply Hne. apply (go_once D cs G k j y x Hy Hx). congruence.
    + right. split; [done |]. assert (position x = position (hmove c)) as <- by (by injection E). lia.
  - done.
Qed.

(** Honest claims survive and the claims they answer do not. *)
Lemma outcome_inv i c : cs !! i = Some c -> (honest c -> uncountered F i) /\ (countered c -> ~ uncountered F i).
Proof.
  remember (length cs - i)%nat as m eqn:Em. revert i c Em.
  induction m as [m IH] using lt_wf_ind. intros i c Em Hc. pose proof (lookup_lt_Some _ _ _ Hc) as Hlt.
  assert (c ∈ cs) as Hin by (by eapply list_elem_of_lookup_2).
  assert (forall k y, (i < k)%nat -> cs !! k = Some y ->
    (honest y -> uncountered F k) /\ (countered y -> ~ uncountered F k)) as IH'.
  { intros k y Hk Hy. pose proof (lookup_lt_Some _ _ _ Hy). apply (IH (length cs - k)%nat); [lia | done | done]. }
  split.
  - intros Hh. eexists. split; [by apply final_entry |]. cbn [bc_Claim with_CounteredBy CounteredBy].
    rewrite leftmost_none; [by apply Hsafe |]. intros j [Hj Hjn]%elem_of_kids.
    destruct (kid_claim i j Hj) as (p & x & Hp & Hx & Hch). rewrite Hc in Hp. injection Hp as <-.
    eexists. split; [by apply final_entry |]. intros E0.
    apply (IH' j x); [by apply (child_later D cs G) | done | | by eexists; split; [by apply final_entry |]].
    apply (countered_child D cs G T I j x c Hx Hch). split; [| by left]. intros Hxh.
    destruct (honest_reply_key i c j x Hc Hx Hch Hxh) as [Hco _]. by apply (countered_dishonest D cs G T I i c).
  - intros Hco (b & Hb & Hz). rewrite (final_entry i c Hc) in Hb. injection Hb as <-.
    cbn [bc_Claim with_CounteredBy CounteredBy] in Hz.
    destruct (decide (depth (position c) = D)) as [Hd | Hd].
    + assert (kids cs (length cs) i = []) as Ek.
      { destruct (kids cs (length cs) i) as [|j l] eqn:Ek; [done |]. exfalso.
        assert (j ∈ kids cs (length cs) i) as [Hj _]%elem_of_kids by (rewrite Ek; apply list_elem_of_here).
        destruct (kid_claim i j Hj) as (p & x & Hp & Hx & (? & ? & ? & Hlt' & _)). rewrite Hc in Hp. injection Hp as <-. lia. }
      rewrite Ek in Hz. by apply (quiet_leaf c).
    + assert (depth (position c) < D) as Hd' by (pose proof (no_depth _ _ (claim_node D cs G i c Hc)); lia).
      destruct (quiet_inner c Hin Hco Hd') as (j & x & Hx & E).
      pose proof (key_child i c j x Hc (countered_open D cs G T c Hco Hd') Hx E) as Hch.
      assert (i < j)%nat as Hij.
      { apply (child_later D cs G). by apply (elem_of_kids cs (length cs) i j), (child_kid i j c x). }
      rewrite (honest_reply_wins i c j x) in Hz; try done.
      * apply (Hmen x); [by eapply list_elem_of_lookup_2 | done].
      * apply (IH' j x Hij Hx). apply (honest_iff D cs G T I x); [by eapply played_claim | right; eauto].
      * intros k y Hk Hy. by apply IH'.
Qed.

(** An honest reply wins the bond of the claim it answers. *)
Lemma bond_inv i p j x :
  cs !! i = Some p -> cs !! j = Some x -> child D cs p x -> honest x ->
  exists b, F !! i = Some b /\ CounteredBy (bc_Claim b) = Claimant x.
Proof.
  intros Hp Hx Hch Hh. destruct (honest_reply_key i p j x Hp Hx Hch Hh) as [Hco E].
  eexists. split; [by apply final_entry |]. cbn [bc_Claim with_CounteredBy CounteredBy].
  pose proof Hch as (_ & _ & _ & Hd & _). apply (honest_reply_wins i p j x); try done.
  - by apply (outcome_inv j x Hx).
  - intros k y _ Hy. by apply outcome_inv.
Qed.

End Result.
