(* ===== verification/Extend.v ===== *)
(** Games that grow: later claims and steps do not change how the honest
    strategy judges the claims before them; and the game after the actions of
    the solver have been performed. *)
From Stdlib Require Import ZArith Lia.
From stdpp Require Import base gmap list strings numbers.
From S2P Require Import Prelude Position Claims Trace Solver Resolution GameProps Honest SolverProps.
From S2P Require Import ResolutionProps.

Import Game.

(** The parts of a claim that never change; being countered does. *)
Definition same_claim (c c' : Claim) : Prop :=
  Data_ c = Data_ c' /\ Claimant c = Claimant c' /\ ContractIndex c = ContractIndex c' /\
  ParentContractIndex c = ParentContractIndex c'.

Definition extends (cs cs' : list Claim) : Prop :=
  forall i c, cs !! i = Some c -> exists c', cs' !! i = Some c' /\ same_claim c c'.

Lemma same_claim_key c c' : same_claim c c' -> key c = key c'.
Proof. intros (E1 & _ & _ & E2). unfold key. by rewrite E1, E2. Qed.

Lemma same_claim_ID {K : Keccak} c c' : same_claim c c' -> ID c = ID c'.
Proof. intros (E1 & _ & _ & E2). unfold ID, id_bytes. by rewrite E1, E2. Qed.

Lemma same_claim_correct D T c c' : same_claim c c' -> correct D T c = correct D T c'.
Proof. intros (E1 & _). unfold correct. by rewrite E1. Qed.

Lemma same_claim_hmove D T c c' : same_claim c c' -> hmove D T c = hmove D T c'.
Proof.
  intros E. unfold hmove. rewrite (same_claim_correct D T c c' E). destruct E as (E1 & _ & E2 & _).
  unfold response. by rewrite E1, E2.
Qed.

Lemma key_ID {K : Keccak} a b : key a = key b -> ID a = ID b.
Proof. intros E. unfold ID, id_bytes. unfold key in E. by injection E as -> -> ->. Qed.

Section Extend.
Context {K : Keccak} {L2 : L2Types} (D : Z) (cs cs' : list Claim).
Context (G : game_ok D cs) (G' : game_ok D cs') (E : extends cs cs').
Context (T : Z -> hash) (I' : ids_distinct (played D T cs')).

Lemma extends_at i c c' : cs !! i = Some c -> cs' !! i = Some c' -> same_claim c c'.
Proof. intros Hc Hc'. destruct (E i c Hc) as (x & Hx & Hs). rewrite Hc' in Hx. by injection Hx as <-. Qed.

Lemma extends_length : (length cs <= length cs')%nat.
Proof.
  destruct (decide (length cs <= length cs')%nat) as [| Hn]; [done |].
  destruct (lookup_lt_is_Some_2 cs (length cs') ltac:(lia)) as [c Hc]. destruct (E _ c Hc) as (c' & Hc' & _).
  apply lookup_lt_Some in Hc'. lia.
Qed.

Lemma extends_open c c' i :
  cs !! i = Some c -> cs' !! i = Some c' -> c ∈ open_claims D T cs -> c' ∈ open_claims D T cs'.
Proof.
  intros Hc Hc' [[Hd Hr] _]%list_elem_of_filter. pose proof (extends_at i c c' Hc Hc') as Hs.
  apply list_elem_of_filter. split; [| by eapply list_elem_of_lookup_2].
  rewrite <- (same_claim_correct D T c c' Hs). destruct Hs as (E1 & _). unfold IsRoot in *. by rewrite <- E1.
Qed.

(** Ids that are distinct in the later game were distinct before. *)
Lemma extends_ids : ids_distinct (played D T cs).
Proof.
  assert (forall a, a ∈ played D T cs -> exists a', a' ∈ played D T cs' /\ ID a = ID a' /\ key a = key a') as H.
  { intros a [Ha | Ha]%elem_of_app.
    - apply list_elem_of_lookup in Ha as [i Hi]. destruct (E i a Hi) as (a' & Ha' & Hs). exists a'.
      split; [by eapply played_claim | split; [by apply same_claim_ID | by apply same_claim_key]].
    - apply list_elem_of_fmap in Ha as (c & -> & Hc). pose proof Hc as [_ [i Hi]%list_elem_of_lookup]%list_elem_of_filter.
      destruct (E i c Hi) as (c' & Hc' & Hs). exists (hmove D T c'). rewrite (same_claim_hmove D T c c' Hs).
      split; [| done]. by apply played_move, (extends_open c c' i). }
  intros a b Ha Hb Eab. destruct (H a Ha) as (a' & Ha' & EI & Ek), (H b Hb) as (b' & Hb' & EI' & Ek').
  rewrite Ek, Ek'. apply I'; [done | done | congruence].
Qed.

Lemma extends_shouldCounter i c c' t :
  cs !! i = Some c -> cs' !! i = Some c' -> shouldCounter (NewGameState cs D) c t = shouldCounter (NewGameState cs' D) c' t.
Proof.
  intros Hc Hc'. pose proof (extends_at i c c' Hc Hc') as Hs. unfold shouldCounter, IsHonest, HonestCounter.
  rewrite (same_claim_ID c c' Hs). destruct (match agreed t !! ID c' with Some b => b | None => false end); [done |].
  unfold IsRoot. replace (Data_ c) with (Data_ c') by (symmetry; apply Hs). destruct (IsRootPosition (position c')) eqn:Er; [done |].
  destruct i as [|i].
  { destruct (root_at D cs' G' c' Hc') as [_ R]. unfold IsRoot in R. congruence. }
  destruct (claim_child D cs G i c Hc) as (j & p & _ & Hp & Ep & Hch).
  destruct (claim_child D cs' G' i c' Hc') as (j' & p' & _ & Hp' & Ep' & Hch').
  assert (j' = j) as -> by (destruct Hs as (_ & _ & _ & Es); apply Nat2Z.inj; congruence).
  rewrite (child_GetParent D cs G p c Hch), (child_GetParent D cs' G' p' c' Hch'). cbn [mbind outcome_bind].
  by rewrite (same_claim_ID p p' (extends_at j p p' Hp Hp')).
Qed.

Lemma extends_sc i c c' t : cs !! i = Some c -> cs' !! i = Some c' -> sc D cs t c = sc D cs' t c'.
Proof. intros Hc Hc'. unfold sc. by rewrite (extends_shouldCounter i c c' t Hc Hc'). Qed.

Lemma extends_tr k : (k <= length cs)%nat -> tr D cs T k = tr D cs' T k.
Proof.
  induction k as [|k IH]; intros Hk.
  - unfold tr. rewrite !take_0. cbn [foldl]. unfold t0. destruct (go_root D cs G) as (r & Hr & _).
    destruct (E 0%nat r Hr) as (r' & Hr' & Hs). rewrite Hr, Hr', (same_claim_correct D T r r' Hs).
    destruct (correct D T r'); [| done]. unfold AddHonestClaim. by rewrite (same_claim_ID r r' Hs).
  - destruct (lookup_lt_is_Some_2 cs k ltac:(lia)) as [c Hc]. destruct (E k c Hc) as (c' & Hc' & Hs).
    rewrite (tr_S D cs T k c Hc), (tr_S D cs' T k c' Hc'), IH by lia. unfold track.
    rewrite (extends_sc k c c' _ Hc Hc'). replace (Data_ c) with (Data_ c') by (symmetry; apply Hs).
    destruct (_ =? D); [done |]. destruct (sc D cs' _ c'); [| done].
    rewrite (same_claim_hmove D T c c' Hs). unfold AddHonestClaim.
    rewrite !bool_decide_eq_true_2 by ((eapply claim_not_zero; [exact G | exact Hc]) || (eapply claim_not_zero; [exact G' | exact Hc'])).
    by rewrite (same_claim_ID c c' Hs).
Qed.

Lemma extends_countered i c c' : cs !! i = Some c -> cs' !! i = Some c' -> countered D cs T c <-> countered D cs' T c'.
Proof.
  intros Hc Hc'. rewrite (countered_at D cs G T i c Hc), (countered_at D cs' G' T i c' Hc').
  rewrite <- extends_tr by (apply Nat.lt_le_incl; by eapply lookup_lt_Some). by rewrite (extends_sc i c c' _ Hc Hc').
Qed.

Lemma extends_honest i c c' : cs !! i = Some c -> cs' !! i = Some c' -> honest D cs T c <-> honest D cs' T c'.
Proof.
  intros Hc Hc'. pose proof (lookup_lt_Some _ _ _ Hc). pose proof extends_length.
  rewrite <- (honest_at D cs G T extends_ids i i c Hc), <- (honest_at D cs' G' T I' i i c' Hc') by lia.
  rewrite extends_tr by lia. unfold IsHonest. by rewrite (same_claim_ID c c' (extends_at i c c' Hc Hc')).
Qed.

End Extend.

(** ** Performing the actions of the solver *)

(** The claim a move makes in the contract. *)
Definition made_by {L2 : L2Types} (a : Action) (c : Claim) : Prop :=
  position c = (if IsAttack a then Attack (position (ParentClaim a)) else Defend (position (ParentClaim a))) /\
  value c = ActionValue a /\ ParentContractIndex c = ContractIndex (ParentClaim a) /\ CounteredBy c = Address0.

Definition stepped {L2 : L2Types} (l : list Action) (c : Claim) : bool :=
  existsb (fun a => bool_decide (Type_ a = ActionTypeStep) && bool_decide (ParentClaim a = c)) l.

(** The game after [us] has performed the actions [l]: the leaves stepped on are
    countered, and the moves have been made, in any order. *)
Record performed {L2 : L2Types} (us : list Z) (cs : list Claim) (l : list Action) (cs' : list Claim) : Prop := {
  pf_old : forall i c, cs !! i = Some c -> cs' !! i = Some (if stepped l c then with_CounteredBy us c else c);
  pf_new : exists moves, moves ≡ₚ filter (fun a => Type_ a = ActionTypeMove) l /\
    Forall2 made_by moves (drop (length cs) cs');
  pf_index : forall i c, (length cs <= i)%nat -> cs' !! i = Some c -> ContractIndex c = Z.of_nat i /\ Claimant c = us;
}.

Section Perform.
Context {K : Keccak} {L2 : L2Types} (D : Z) (cs cs' : list Claim) (G : game_ok D cs).
Context (T : Z -> hash) (us : list Z) (ps : list Claim) (l : list Action).
Context (Hacts : Forall2 (acts D T) ps l) (Hsub : sublist ps cs).
Context (Hps : forall c, c ∈ ps <-> c ∈ cs /\ countered D cs T c /\ needed D cs T c).
Context (P : performed us cs l cs').

Lemma cs_NoDup : NoDup cs.
Proof.
  apply NoDup_alt. intros i j x Hi Hj. pose proof (go_index D cs G i x Hi). pose proof (go_index D cs G j x Hj). lia.
Qed.

Lemma parents_of : ParentClaim <$> l = ps.
Proof.
  clear -Hacts. revert Hacts. induction 1 as [|c a ps' l' Ha _ IH]; [done |]. cbn. f_equal; [apply Ha | exact IH].
Qed.

Lemma action_of a : a ∈ l -> exists i p, cs !! i = Some p /\ p ∈ ps /\ acts D T p a.
Proof.
  intros [k Hk]%list_elem_of_lookup. destruct (Forall2_lookup_r _ _ _ _ _ Hacts Hk) as (p & Hp & Ha).
  assert (p ∈ ps) as Hin by (by eapply list_elem_of_lookup_2). pose proof Hin as [[i Hi]%list_elem_of_lookup _]%Hps. eauto.
Qed.

Lemma action_for p : p ∈ ps -> exists a, a ∈ l /\ acts D T p a.
Proof.
  intros [k Hk]%list_elem_of_lookup. destruct (Forall2_lookup_l _ _ _ _ _ Hacts Hk) as (a & Ha & Hact).
  exists a. split; [by eapply list_elem_of_lookup_2 | done].
Qed.

Lemma stepped_iff i c : cs !! i = Some c -> stepped l c = true <-> c ∈ ps /\ depth (position c) = D.
Proof.
  intros Hc. unfold stepped. rewrite existsb_exists. split.
  - intros (a & Ha%list_elem_of_In & [Ht%bool_decide_eq_true Hp%bool_decide_eq_true]%andb_true_iff).
    destruct (action_of a Ha) as (j & p & Hj & Hin & (Ep & _ & Hrest)). rewrite Ep in Hp. subst p. split; [done |].
    destruct (Z.eqb_spec (depth (position c)) D); [done |]. destruct Hrest. congruence.
  - intros [Hin Hd]. destruct (action_for c Hin) as (a & Ha & (Ep & _ & Hrest)). exists a. split; [by apply list_elem_of_In |].
    rewrite (proj2 (Z.eqb_eq _ _) Hd) in Hrest. destruct Hrest as (Ht & _). rewrite Ht, Ep. by rewrite !bool_decide_eq_true_2.
Qed.

Lemma performed_extends : extends cs cs'.
Proof.
  intros i c Hc. eexists. split; [by apply (pf_old _ _ _ _ P) |]. destruct (stepped l c); by split_and!.
Qed.

(** A new claim is the answer to a claim that needed one. *)
Lemma new_claim i c : (length cs <= i)%nat -> cs' !! i = Some c ->
  exists j p, cs !! j = Some p /\ p ∈ ps /\ depth (position p) < D /\ key c = key (hmove D T p) /\
    CounteredBy c = Address0.
Proof.
  intros Hi Hc. destruct (pf_new _ _ _ _ P) as (moves & Hperm & Hmade).
  assert (drop (length cs) cs' !! (i - length cs)%nat = Some c) as Hd
    by (rewrite lookup_drop; by replace (length cs + (i - length cs))%nat with i by lia).
  destruct (Forall2_lookup_r _ _ _ _ _ Hmade Hd) as (a & Ha & (E1 & E2 & E3 & E4)).
  assert (a ∈ filter (fun a => Type_ a = ActionTypeMove) l) as [Ht Hal]%list_elem_of_filter
    by (rewrite <- Hperm; by eapply list_elem_of_lookup_2).
  destruct (action_of a Hal) as (j & p & Hj & Hin & (Ep & Eatt & Hrest)). exists j, p.
  destruct (Z.eqb_spec (depth (position p)) D) as [Hpd | Hpd]; [destruct Hrest; congruence |]. destruct Hrest as [_ Ev].
  split; [done |]. split; [done |]. split; [pose proof (no_depth _ _ (claim_node D cs G j p Hj)); lia |]. split; [| done].
  unfold key. rewrite E1, E2, E3, Ev, Ep, Eatt. unfold hmove. by destruct (correct D T p).
Qed.

Lemma new_unique i j c d :
  (length cs <= i)%nat -> (length cs <= j)%nat -> cs' !! i = Some c -> cs' !! j = Some d -> key c = key d -> i = j.
Proof.
  intros Hi Hj Hc Hd E. destruct (pf_new _ _ _ _ P) as (moves & Hperm & Hmade).
  assert (NoDup (ParentClaim <$> moves)) as Hnd.
  { rewrite Hperm. apply (sublist_NoDup _ (ParentClaim <$> l)); [| apply fmap_sublist, sublist_filter].
    rewrite parents_of. apply (sublist_NoDup _ cs); [apply cs_NoDup | done]. }
  assert (forall k x, (length cs <= k)%nat -> cs' !! k = Some x -> exists a m, moves !! (k - length cs)%nat = Some a /\
    cs !! m = Some (ParentClaim a) /\ ParentContractIndex x = Z.of_nat m) as Hm.
  { intros k x Hk Hx. assert (drop (length cs) cs' !! (k - length cs)%nat = Some x) as Hdr
      by (rewrite lookup_drop; by replace (length cs + (k - length cs))%nat with k by lia).
    destruct (Forall2_lookup_r _ _ _ _ _ Hmade Hdr) as (a & Ha & (_ & _ & E3 & _)).
    assert (a ∈ filter (fun a => Type_ a = ActionTypeMove) l) as [_ Hal]%list_elem_of_filter
      by (rewrite <- Hperm; by eapply list_elem_of_lookup_2).
    destruct (action_of a Hal) as (m & p & Hm & _ & (Ep & _)). exists a, m. rewrite Ep. split; [done |]. split; [done |].
    rewrite E3, Ep. by apply (go_index D cs G). }
  destruct (Hm i c Hi Hc) as (a & m & Ha & Hma & Ea), (Hm j d Hj Hd) as (b & m' & Hb & Hmb & Eb).
  pose proof (f_equal snd E) as Ep. cbn in Ep. rewrite Ea, Eb in Ep. apply Nat2Z.inj in Ep as <-.
  rewrite Hma in Hmb. injection Hmb as Hab.
  assert (i - length cs = j - length cs)%nat; [| lia].
  eapply NoDup_lookup; [exact Hnd | rewrite list_lookup_fmap, Ha; reflexivity | rewrite list_lookup_fmap, Hb; cbn; by rewrite Hab].
Qed.

(** Every claim that needed an answer has it. *)
Lemma answer_made p : p ∈ ps -> depth (position p) < D -> exists c, c ∈ cs' /\ key c = key (hmove D T p).
Proof.
  intros Hin Hd. destruct (action_for p Hin) as (a & Ha & (Ep & Eatt & Hrest)). rewrite (proj2 (Z.eqb_neq _ _)) in Hrest by lia.
  destruct Hrest as [Ht Ev]. destruct (pf_new _ _ _ _ P) as (moves & Hperm & Hmade).
  assert (a ∈ moves) as [k Hk]%list_elem_of_lookup by (rewrite Hperm; by apply list_elem_of_filter).
  destruct (Forall2_lookup_l _ _ _ _ _ Hmade Hk) as (c & Hc & (E1 & E2 & E3 & _)). rewrite lookup_drop in Hc.
  exists c. split; [by eapply list_elem_of_lookup_2 |].
  unfold key. rewrite E1, E2, E3, Ev, Ep, Eatt. unfold hmove. by destruct (correct D T p).
Qed.

Lemma old_claim i c : cs' !! i = Some c -> (i < length cs)%nat ->
  exists c0, cs !! i = Some c0 /\ c = (if stepped l c0 then with_CounteredBy us c0 else c0).
Proof.
  intros Hc Hi. destruct (lookup_lt_is_Some_2 cs i Hi) as [c0 Hc0]. exists c0. split; [done |].
  rewrite (pf_old _ _ _ _ P i c0 Hc0) in Hc. congruence.
Qed.

Lemma old_key i c c0 : cs' !! i = Some c -> cs !! i = Some c0 -> key c = key c0.
Proof.
  intros Hc Hc0. rewrite (pf_old _ _ _ _ P i c0 Hc0) in Hc. injection Hc as <-. by destruct (stepped l c0).
Qed.

Lemma performed_ok : game_ok D cs'.
Proof.
  split.
  - apply G.
  - destruct (go_root D cs G) as (r & Hr & E). eexists. split; [by apply (pf_old _ _ _ _ P) |]. by destruct (stepped l r).
  - intros i c Hc. destruct (decide (i < length cs)%nat) as [Hi | Hi]; [| by apply (pf_index _ _ _ _ P); [lia |]].
    destruct (old_claim i c Hc Hi) as (c0 & Hc0 & ->). rewrite <- (go_index D cs G i c0 Hc0). by destruct (stepped l c0).
  - intros i c Hc. destruct (decide (S i < length cs)%nat) as [Hi | Hi].
    + destruct (old_claim (S i) c Hc Hi) as (c0 & Hc0 & ->). destruct (go_parent D cs G i c0 Hc0) as (j & p & Hj & Hp & Ep & Hd & Hr).
      exists j. eexists. split; [done |]. split; [by apply (pf_old _ _ _ _ P) |].
      destruct (stepped l c0), (stepped l p); by split_and!.
    + destruct (new_claim (S i) c ltac:(lia) Hc) as (j & p & Hj & Hin & Hd & Ek & _).
      pose proof (lookup_lt_Some _ _ _ Hj). exists j. eexists. split; [lia |]. split; [by apply (pf_old _ _ _ _ P) |].
      apply Hps in Hin as (_ & Hco & _). pose proof (hmove_child D cs G T p j Hj (countered_open D cs G T p Hco Hd)) as (k & _ & _ & _ & Hr).
      pose proof (f_equal snd Ek) as E1. pose proof (f_equal (fun k => k.1.1) Ek) as E2. cbn in E1, E2.
      unfold replies in *. rewrite E1, E2, (go_index D cs G j p Hj). destruct (stepped l p); by split_and!.
  - intros i j a b Ha Hb Ek.
    destruct (decide (i < length cs)%nat) as [Hi | Hi], (decide (j < length cs)%nat) as [Hj | Hj].
    + destruct (old_claim i a Ha Hi) as (a0 & Ha0 & _), (old_claim j b Hb Hj) as (b0 & Hb0 & _).
      apply (go_once D cs G i j a0 b0 Ha0 Hb0). rewrite <- (old_key i a a0 Ha Ha0), <- (old_key j b b0 Hb Hb0). done.
    + exfalso. destruct (old_claim i a Ha Hi) as (a0 & Ha0 & _). destruct (new_claim j b ltac:(lia) Hb) as (k & p & _ & Hin & Hd & Ep & _).
      apply Hps in Hin as (_ & _ & Hn). unfold needed in Hn. rewrite (proj2 (Z.eqb_neq _ _)) in Hn by lia.
      apply (Hn a0); [by eapply list_elem_of_lookup_2 |]. rewrite <- (old_key i a a0 Ha Ha0). congruence.
    + exfalso. destruct (old_claim j b Hb Hj) as (b0 & Hb0 & _). destruct (new_claim i a ltac:(lia) Ha) as (k & p & _ & Hin & Hd & Ep & _).
      apply Hps in Hin as (_ & _ & Hn). unfold needed in Hn. rewrite (proj2 (Z.eqb_neq _ _)) in Hn by lia.
      apply (Hn b0); [by eapply list_elem_of_lookup_2 |]. rewrite <- (old_key j b b0 Hb Hb0). congruence.
    + apply (new_unique i j a b); (done || lia).
Qed.

Context (I' : ids_distinct (played D T cs')) (Hus : us <> Address0).

Lemma performed_ids : ids_distinct (played D T cs).
Proof. exact (extends_ids D cs cs' performed_extends T I'). Qed.

Lemma new_honest i c : (length cs <= i)%nat -> cs' !! i = Some c -> honest D cs' T c.
Proof.
  intros Hi Hc. destruct (new_claim i c Hi Hc) as (j & p & Hj & Hin & Hd & Ek & _). apply Hps in Hin as (_ & Hco & _).
  destruct (performed_extends j p Hj) as (p' & Hp' & Hs).
  apply (honest_iff D cs' performed_ok T I' c); [by eapply played_claim |]. right. exists p'.
  split; [by apply (extends_countered D cs cs' G performed_ok performed_extends T j p p') |].
  rewrite <- (same_claim_hmove D T p p' Hs). destruct Hs as (E1 & _). by rewrite <- E1.
Qed.

Lemma performed_quiet c : c ∈ cs' -> countered D cs' T c -> ~ needed D cs' T c.
Proof.
  intros [i Hi]%list_elem_of_lookup Hco Hn. destruct (decide (i < length cs)%nat) as [Hlt | Hge].
  2: { apply (countered_dishonest D cs' performed_ok T I' i c Hi Hco). apply (new_honest i c); [lia | done]. }
  destruct (old_claim i c Hi Hlt) as (c0 & Hc0 & Ec). destruct (performed_extends i c0 Hc0) as (c' & Hc' & Hs).
  rewrite Hi in Hc'. injection Hc' as <-.
  apply (extends_countered D cs cs' G performed_ok performed_extends T i c0 c Hc0 Hi) in Hco.
  unfold needed in Hn. rewrite <- (same_claim_hmove D T c0 c Hs) in Hn.
  replace (Data_ c) with (Data_ c0) in Hn by (apply Hs).
  assert (c0 ∈ cs) as Hin by (by eapply list_elem_of_lookup_2).
  assert (c0 ∈ ps) as Hin_ps.
  { apply Hps. split; [done |]. split; [done |]. unfold needed. destruct (Z.eqb_spec (depth (position c0)) D) as [Hd | Hd].
    - rewrite Ec in Hn. destruct (stepped l c0); [done | exact Hn].
    - intros x [k Hk]%list_elem_of_lookup Ex. destruct (performed_extends k x Hk) as (x' & Hx' & Hsx).
      apply (Hn x'); [by eapply list_elem_of_lookup_2 |]. by rewrite <- (same_claim_key x x' Hsx). }
  destruct (Z.eqb_spec (depth (position c0)) D) as [Hd | Hd].
  - rewrite Ec in Hn. rewrite (proj2 (stepped_iff i c0 Hc0)) in Hn by done. done.
  - pose proof (no_depth _ _ (claim_node D cs G i c0 Hc0)).
    destruct (answer_made c0 Hin_ps ltac:(lia)) as (x & Hx & Ex). by apply (Hn x Hx).
Qed.

Lemma performed_safe :
  (forall c, c ∈ cs -> honest D cs T c -> CounteredBy c = Address0) ->
  forall c, c ∈ cs' -> honest D cs' T c -> CounteredBy c = Address0.
Proof.
  intros Hsafe c [i Hi]%list_elem_of_lookup Hh. destruct (decide (i < length cs)%nat) as [Hlt | Hge].
  2: { destruct (new_claim i c ltac:(lia) Hi) as (_ & _ & _ & _ & _ & _ & E). done. }
  destruct (old_claim i c Hi Hlt) as (c0 & Hc0 & Ec).
  apply (extends_honest D cs cs' G performed_ok performed_extends T I' i c0 c Hc0 Hi) in Hh.
  destruct (stepped l c0) eqn:Es; [| subst c; apply Hsafe; [by eapply list_elem_of_lookup_2 | done]]. exfalso.
  apply (stepped_iff i c0 Hc0) in Es as [Hin _]. apply Hps in Hin as (_ & Hco & _).
  by apply (countered_dishonest D cs G T performed_ids i c0).
Qed.

End Perform.
