(* ===== verification/TraceProps.v ===== *)
(** Trace providers: the alphabet trace satisfies the laws the solver relies
    on, and a split game hands the bottom game two neighbouring states. *)
From Stdlib Require Import ZArith Lia.
From stdpp Require Import base gmap list strings numbers.
From S2P Require Import Prelude Exec Position Claims Trace Solver Rules GameProps Honest.

Import Game.

(** ** The alphabet trace *)

Section Alphabet.
Import Alphabet.
Context {K : Keccak} {KL : KeccakLaws K} {L2 : L2Types}.

(** The state before step [i] of the trace, and the value of the trace at [i]. *)
Definition alphabet_state (start i : Z) : list Z :=
  be_encode 32 (start * 16 + i) ++ be_encode 32 (start * 16 + i + 0x60).

Definition alphabet_trace (start i : Z) : hash := alphabetStateHash (alphabet_state start (i + 1)).

Lemma absolutePrestateInt_eq : absolutePrestateInt = 0x60.
Proof. reflexivity. Qed.

Lemma FillBytes_ok n x : 0 <= x < 2 ^ (8 * Z.of_nat n) -> FillBytes n x = Ok (be_encode n x).
Proof. intros Hx. unfold FillBytes. rewrite Z.abs_eq, (proj2 (Z.leb_gt _ _)) by lia. done. Qed.

Lemma alphabet_step_eq start D i p :
  0 <= start < 2 ^ 250 -> 0 <= D < 64 -> 0 < i <= 2 ^ D -> TraceIndex D p = Ok i ->
  exists data, alphabet_GetStepData (NewTraceProvider start D) p = Ok (alphabet_state start i, [], Some data).
Proof.
  intros Hs HD Hi Ht. unfold alphabet_GetStepData. cbn [ap_depth NewTraceProvider startingBlockNumber maxLen].
  rewrite Ht. cbn [mbind outcome_bind]. rewrite (proj2 (Z.eqb_neq _ _)) by lia.
  assert (2 ^ D <= 2 ^ 63) by (apply Z.pow_le_mono_r; lia). change (2 ^ 250) with (2 ^ 187 * 2 ^ 63) in Hs.
  assert (ushl 64 1 D = 2 ^ D) as ->.
  { unfold ushl. rewrite Z.shiftl_1_l. apply wrap_small. split; [apply Z.pow_nonneg; lia |]. apply Z.pow_lt_mono_r; lia. }
  rewrite (proj2 (Z.ltb_ge _ _)) by lia. cbv zeta. rewrite absolutePrestateInt_eq, Z.shiftl_mul_pow2 by lia.
  change (2 ^ 4) with 16. unfold BuildAlphabetPreimage.
  rewrite !FillBytes_ok by (change (2 ^ (8 * Z.of_nat 32)) with (2 ^ 6 * (2 ^ 187 * 2 ^ 63)); lia). cbn [mbind outcome_bind].
  eexists. unfold alphabet_state. replace (96 + start * 16 + i) with (start * 16 + i + 96) by lia. reflexivity.
Qed.

Lemma TraceIndex_leaf D i : TraceIndex D (NewPosition D i) = Ok i.
Proof.
  unfold TraceIndex. cbn [Depth depth NewPosition]. rewrite Z.ltb_irrefl. unfold usub. rewrite Z.sub_diag.
  change (wrap 64 0) with 0. unfold lshIndex. cbn [IndexAtDepth indexAtDepth NewPosition].
  by rewrite !Z.shiftl_0_r, Z.lor_0_r.
Qed.

Lemma alphabet_laws start D :
  0 <= start < 2 ^ 250 -> 1 <= D < 64 -> TraceLaws D (alphabet_trace start) (provider (NewTraceProvider start D)).
Proof.
  intros Hs HD. split.
  - intros pos Hp Hd. cbn [Get provider]. unfold alphabet_Get. cbn [ap_depth NewTraceProvider].
    rewrite (proj2 (Z.ltb_ge _ _)) by done. rewrite TraceIndex_ok by (done || lia). cbn [mbind outcome_bind].
    pose proof (ti_bounds D pos Hp Hd).
    destruct (alphabet_step_eq start D (ti D pos + 1) (NewPosition D (ti D pos + 1))) as [data ->];
      [lia | lia | lia | apply TraceIndex_leaf |]. done.
  - intros i Hi. cbn [GetStepData provider]. destruct (Z.eq_dec i 0) as [-> | Hn].
    + do 3 eexists. split; [| lia]. unfold alphabet_GetStepData. cbn [ap_depth NewTraceProvider].
      rewrite TraceIndex_leaf. reflexivity.
    + destruct (alphabet_step_eq start D i (NewPosition D i)) as [data ->]; [lia | lia | lia | apply TraceIndex_leaf |].
      do 3 eexists. split; [reflexivity |]. intros _. unfold alphabet_trace, alphabetStateHash.
      replace (i - 1 + 1) with i by lia. by destruct (keccak256 (alphabet_state start i)).
  - done.
Qed.

End Alphabet.

(** ** Split games *)

Section Split.
Context {K : Keccak} {L2 : L2Types} (D : Z) (cs : list Claim) (G : game_ok D cs).
Context (top : Z) (Htop : 1 <= top < D).
Let g := NewGameState cs D.

(** [p] lies strictly inside the range of the leaf [l] of the top game, on the
    left or on the right of it. *)
Definition beside (M : Z) (l p : Position) : Prop :=
  let h := 2 ^ (M - depth p) in
  h <= Z.abs (ti M p - ti M l) <= 2 ^ (M - top) - h.

Lemma child_move M p c : child D cs p c -> depth (position c) <= M ->
  Z.abs (ti M (position c) - ti M (position p)) = 2 ^ (M - depth (position c)).
Proof.
  intros Hc HM. pose proof (child_depth D cs G p c Hc) as Ed. pose proof Hc as (j & Hp & _ & Hd & Hr).
  destruct (claim_node D cs G j p Hp) as [Hpos _ He].
  replace (M - depth (position c)) with (M - depth (position p) - 1) by lia.
  pose proof (pow2_pos (M - depth (position p) - 1) ltac:(lia)).
  destruct Hr as [-> | [-> H0]]; [rewrite ti_Attack | rewrite ti_Defend]; (done || lia).
Qed.

Lemma beside_child M l p c :
  child D cs p c -> depth (position c) <= M -> top < depth (position p) -> beside M l (position p) -> beside M l (position c).
Proof.
  intros Hc HM Hp Hb. pose proof (child_move M p c Hc HM) as E. pose proof (child_depth D cs G p c Hc) as Ed.
  unfold beside in *. rewrite (half M (depth (position p))) in Hb by lia.
  replace (M - depth (position p) - 1) with (M - depth (position c)) in Hb by lia.
  pose proof (pow2_pos (M - depth (position c)) ltac:(lia)). lia.
Qed.

Lemma beside_first M p c :
  child D cs p c -> depth (position c) <= M -> depth (position p) = top -> beside M (position p) (position c).
Proof.
  intros Hc HM Hp. pose proof (child_move M p c Hc HM) as E. pose proof (child_depth D cs G p c Hc) as Ed.
  unfold beside. rewrite E, (half M top) by lia. replace (M - top - 1) with (M - depth (position c)) by lia. lia.
Qed.

(** The leaf of the top game above a claim. *)
Lemma top_leaf fuel i c : cs !! i = Some c -> top <= depth (position c) -> (i <= fuel)%nat ->
  exists k l, cs !! k = Some l /\ depth (position l) = top /\ findAncestorAtDepth_loop fuel g c top = Ok l /\
    (c = l \/ (top < depth (position c) /\ forall M, depth (position c) <= M -> beside M (position l) (position c))).
Proof.
  revert fuel c. induction i as [i IH] using lt_wf_ind. intros fuel c Hc Hd Hf.
  assert (findAncestorAtDepth_loop fuel g c top = if top <? depth (position c) then
    parent ← GetParent g c; match fuel with O => Panic "out of fuel" | S f => findAncestorAtDepth_loop f g parent top end
    else Ok c) as E by (by destruct fuel).
  rewrite E. destruct (Z.ltb_spec top (depth (position c))) as [Hlt | Hge].
  2: { exists i, c. split; [done |]. split; [lia |]. split; [done |]. by left. }
  destruct i as [|i].
  { destruct (root_at D cs G c Hc) as [Er _]. rewrite Er, RootPosition_eq in Hlt. cbn in Hlt. lia. }
  destruct (claim_child D cs G i c Hc) as (j & p & Hj & Hp & _ & Hch).
  rewrite (child_GetParent D cs G p c Hch). cbn [mbind outcome_bind]. destruct fuel as [|f]; [lia |].
  pose proof (child_depth D cs G p c Hch) as Ed.
  destruct (IH j ltac:(lia) f p Hp ltac:(lia) ltac:(lia)) as (k & l & Hk & Hl & R & Hb).
  exists k, l. do 3 (split; [done |]). right. split; [done |]. intros M HM. destruct Hb as [-> | [Hpt Hb]].
  - by apply (beside_first M l c).
  - apply (beside_child M (position l) p c); try done. apply Hb. lia.
Qed.

Lemma parent_before k p c : cs !! S k = Some c -> child D cs p c -> exists j, (j <= k)%nat /\ cs !! j = Some p.
Proof.
  intros Hc Hch. destruct (claim_child D cs G k c Hc) as (j & q & Hj & Hq & _ & Hch').
  rewrite (child_unique D cs G q p c Hch' Hch) in Hq. eauto.
Qed.

(** The claim itself and its bounds are found by their index in the top game. *)
Lemma find_bound fuel i c lo hi x M :
  bounded D cs c lo hi -> cs !! i = Some c -> depth (position c) <= M -> M < 2 ^ 63 -> (i <= fuel)%nat ->
  x = c \/ lo = Some x \/ hi = Some x ->
  findAncestorWithTraceIndex_loop fuel g c M (ti M (position x)) = Ok x.
Proof.
  intros Hb. revert fuel i.
  assert (forall fuel i c, cs !! i = Some c -> depth (position c) <= M -> M < 2 ^ 63 ->
    findAncestorWithTraceIndex_loop fuel g c M (ti M (position c)) = Ok c) as Hhere.
  { intros fuel i c' Hc HM HM'. destruct fuel; cbn [findAncestorWithTraceIndex_loop];
      (rewrite TraceIndex_ok by ((eapply no_pos, (claim_node D cs G); exact Hc) || lia)); cbn [mbind outcome_bind];
      by rewrite Z.eqb_refl. }
  assert (forall fuel p c i, cs !! S i = Some c -> child D cs p c -> depth (position c) <= M -> M < 2 ^ 63 ->
    ti M (position c) <> ti M (position x) ->
    findAncestorWithTraceIndex_loop (S fuel) g c M (ti M (position x)) =
    findAncestorWithTraceIndex_loop fuel g p M (ti M (position x))) as Hstep.
  { intros fuel p c' i Hc Hch HM HM' Hne. cbn [findAncestorWithTraceIndex_loop].
    rewrite TraceIndex_ok by ((eapply no_pos, (claim_node D cs G); exact Hc) || lia). cbn [mbind outcome_bind].
    rewrite (proj2 (Z.eqb_neq _ _) Hne). cbn [negb]. by rewrite (child_GetParent D cs G p c' Hch). }
  induction Hb as [r Hr | p c lo hi Hb IH Hc E | p c lo hi Hb IH Hc E H0]; intros fuel i Hi HM HM' Hf Hx.
  - destruct Hx as [-> | [? | ?]]; [by apply (Hhere _ i) | done | done].
  - destruct Hx as [-> | Hx]; [by apply (Hhere _ i) |]. destruct (child_index D cs G p c i Hc Hi) as [k ->].
    destruct fuel as [|fuel]; [lia |]. destruct (parent_before k p c Hi Hc) as (j & Hjk & Hj).
    pose proof (child_depth D cs G p c Hc) as Ed.
    destruct (bounded_ti D cs G M c lo (Some p)) as [Hl Hr]; [by eapply bounded_attack | done |].
    pose proof (pow2_pos (M - depth (position c)) ltac:(lia)).
    rewrite (Hstep fuel p c k) by (try done; destruct Hx as [-> | [= <-]]; unfold left_of, right_of in *; lia).
    apply (IH _ j); [done | lia | done | lia |]. destruct Hx as [Hx | [= <-]]; auto.
  - destruct Hx as [-> | Hx]; [by apply (Hhere _ i) |]. destruct (child_index D cs G p c i Hc Hi) as [k ->].
    destruct fuel as [|fuel]; [lia |]. destruct (parent_before k p c Hi Hc) as (j & Hjk & Hj).
    pose proof (child_depth D cs G p c Hc) as Ed.
    destruct (bounded_ti D cs G M c (Some p) hi) as [Hl Hr]; [by eapply bounded_defend | done |].
    pose proof (pow2_pos (M - depth (position c)) ltac:(lia)).
    rewrite (Hstep fuel p c k) by (try done; destruct Hx as [[= <-] | ->]; unfold left_of, right_of in *; lia).
    apply (IH _ j); [done | lia | done | lia |]. destruct Hx as [[= <-] | Hx]; auto.
Qed.

Lemma ti_scale M p : 0 <= depth p <= M -> M <= D -> ti D p + 1 = (ti M p + 1) * 2 ^ (D - M).
Proof.
  intros Hp HM. unfold ti. replace (D - depth p) with (M - depth p + (D - M)) by lia. rewrite Z.pow_add_r by lia. lia.
Qed.

Lemma claim_span i c : cs !! i = Some c -> 0 <= depth (position c) <= D.
Proof. intros Hc. destruct (claim_node D cs G i c Hc) as [Hp Hd _]. pose proof (po_depth _ Hp). lia. Qed.

Lemma bounded_depth c lo hi x :
  bounded D cs c lo hi -> lo = Some x \/ hi = Some x -> depth (position x) < depth (position c).
Proof.
  induction 1 as [r Hr | p c lo hi Hb IH Hc E | p c lo hi Hb IH Hc E H0]; intros Hx; [by destruct Hx | |];
    pose proof (child_depth D cs G p c Hc); destruct Hx as [Hx | Hx];
    try (injection Hx as <-; lia); [specialize (IH (or_introl Hx)) | specialize (IH (or_intror Hx))]; lia.
Qed.

(** The two claims a position below the leaf [l] lies between. *)
Lemma split_between k l pos :
  cs !! k = Some l -> depth (position l) = top -> pos_ok pos -> top < depth pos <= D ->
  (forall M, depth pos <= M -> beside M (position l) pos) ->
  exists pre post, split_claims g top l pos = Ok (pre, post) /\ (exists j, cs !! j = Some post) /\
    depth (position post) <= top /\ ti D pos < ti D (position post) /\
    if ti top (position post) =? 0 then pre = Claim0
    else (exists j, cs !! j = Some pre) /\ depth (position pre) <= top /\
      ti top (position pre) + 1 = ti top (position post) /\ ti D (position pre) < ti D pos.
Proof.
  intros Hl Hd Hpos Hr Hb. destruct (claim_node D cs G k l Hl) as [Hlp _ _]. pose proof (go_depth D cs G).
  destruct (bounded_claim D cs G k l Hl) as (lo & hi & Hbd).
  destruct (bounded_ti D cs G top l lo hi Hbd ltac:(lia)) as [Hlo Hhi].
  pose proof (Hb D ltac:(lia)) as HbD. pose proof (Hb (depth pos) ltac:(lia)) as Hbp. unfold beside in HbD, Hbp.
  pose proof (pow2_pos (D - depth pos) ltac:(lia)). rewrite Z.sub_diag, Z.pow_0_r in Hbp.
  pose proof (lookup_lt_Some _ _ _ Hl). unfold split_claims. change (Depth pos) with (depth pos).
  rewrite !TraceIndex_ok by (done || lia). cbn [mbind outcome_bind].
  pose proof (ti_scale (depth pos) pos ltac:(pose proof (po_depth _ Hpos); lia) ltac:(lia)) as S1.
  pose proof (ti_scale (depth pos) (position l) ltac:(pose proof (po_depth _ Hlp); lia) ltac:(lia)) as S2.
  pose proof (ti_scale top (position l) ltac:(pose proof (po_depth _ Hlp); lia) ltac:(lia)) as S3.
  assert (forall x, (exists n, cs !! n = Some x) -> depth (position x) <= top -> ti D (position x) + 1 = (ti top (position x) + 1) * 2 ^ (D - top)) as S4.
  { intros x [n Hx] Hxd. apply ti_scale; [pose proof (claim_span n x Hx); lia | lia]. }
  unfold left_of, right_of in Hlo, Hhi. rewrite ?Hd, ?Z.sub_diag, ?Z.pow_0_r in Hlo, Hhi.
  assert (forall x, lo = Some x \/ hi = Some x -> (exists n, cs !! n = Some x) /\ depth (position x) <= top) as Hin.
  { intros x Hx. split; [by apply (bounded_in D cs l lo hi) |].
    pose proof (bounded_depth l lo hi x Hbd Hx). lia. }
  destruct (Z.ltb_spec (ti (depth pos) (position l)) (ti (depth pos) pos)) as [Hlt | Hge].
  - destruct hi as [h |]; [| lia]. destruct (Hin h ltac:(by right)) as [Hhc Hhd]. exists l, h.
    unfold findAncestorWithTraceIndex. rewrite <- Hhi, (find_bound _ k l lo (Some h) h top) by (auto; cbn; lia).
    cbn [mbind outcome_bind]. specialize (S4 h Hhc Hhd).
    split; [done |]. split; [done |]. split; [done |]. split; [nia |].
    pose proof (ti_bounds top (position l) Hlp ltac:(lia)). rewrite (proj2 (Z.eqb_neq _ _)) by lia.
    split; [eauto |]. split; [lia |]. split; [lia | nia].
  - assert (ti (depth pos) pos < ti (depth pos) (position l)) as Hlt by lia.
    assert (ti D pos < ti D (position l)) as HltD by nia.
    destruct (Z.eqb_spec (ti top (position l)) 0) as [E0 | Hn].
    + exists Claim0, l. split; [done |]. split; [eauto |]. split; [lia |]. split; [done |]. by rewrite E0.
    + destruct lo as [x |]. 2: { exfalso. apply Hn. unfold ti. rewrite Hlo, Hd, Z.sub_diag. done. }
      destruct (Hin x ltac:(by left)) as [Hxc Hxd]. exists x, l.
      unfold findAncestorWithTraceIndex. rewrite <- Hlo, (find_bound _ k l (Some x) hi x top) by (auto; cbn; lia).
      cbn [mbind outcome_bind]. specialize (S4 x Hxc Hxd).
      split; [done |]. split; [eauto |]. split; [lia |]. split; [done |].
      rewrite (proj2 (Z.eqb_neq _ _)) by lia. split; [done |]. split; [done |]. split; [lia | nia].
Qed.

(** The positions the solver asks about when it answers [ref]. *)
Definition asked (ref : Claim) (pos : Position) : Prop :=
  pos = position ref \/ exists c, child D cs ref c /\ pos = position c.

Lemma split_selects i ref pos (topProvider : TraceProvider) (creator : ProviderCreator) :
  cs !! i = Some ref -> top <= depth (position ref) -> asked ref pos -> top < depth pos ->
  exists pre post,
    NewSplitProviderSelector topProvider top creator g ref pos =
      (provider ← creator (D - top - 1) pre post; Ok (Translate provider (top + 1))) /\
    (exists j, cs !! j = Some post) /\ depth (position post) <= top /\ ti D pos < ti D (position post) /\
    if ti top (position post) =? 0 then pre = Claim0
    else (exists j, cs !! j = Some pre) /\ depth (position pre) <= top /\
      ti top (position pre) + 1 = ti top (position post) /\ ti D (position pre) < ti D pos.
Proof.
  intros Hi Hd Hask Hpos. pose proof (go_depth D cs G). pose proof (lookup_lt_Some _ _ _ Hi).
  destruct (top_leaf (length cs) i ref Hi Hd ltac:(lia)) as (k & l & Hl & Hld & R & Hb).
  assert (node_ok D pos /\ (forall M, depth pos <= M -> beside M (position l) pos)) as [[Hp Hpd _] Hbes].
  { destruct Hask as [-> | (c & Hch & ->)].
    - split; [by apply (claim_node D cs G i) |]. destruct Hb as [-> | [_ Hb]]; [lia | done].
    - split; [by apply (child_node D cs G ref) |]. intros M HM. pose proof (child_depth D cs G ref c Hch).
      destruct Hb as [-> | [Ht Hb]]; [by apply beside_first | apply (beside_child M _ ref c); (done || apply Hb; lia)]. }
  destruct (split_between k l pos Hl Hld Hp ltac:(lia) Hbes) as (pre & post & S1 & Hrest). exists pre, post. split; [| done].
  unfold NewSplitProviderSelector. rewrite (proj2 (Z.leb_gt _ _) Hpos : (Depth pos <=? top) = false).
  rewrite (proj2 (Z.ltb_ge _ _) Hd : (Depth (position ref) <? top) = false). unfold findAncestorAtDepth.
  change (length (claims g)) with (length cs). rewrite R. cbn [mbind outcome_bind]. rewrite S1. cbn [mbind outcome_bind].
  change (MaxDepth g) with D. unfold usub, uadd. rewrite !wrap_small by (unfold in_range; rewrite ?wrap_small; unfold in_range; lia). done.
Qed.

End Split.
