(* ===== verification/CycleProps.v ===== *)
(** Kahn's algorithm of the cycle check decides whether a graph has a cycle. The
    maps of a [graph] represent a set of nodes and a list of edges ([rep]); each
    operation of the code is an operation on those, and the algorithm removes
    nodes that are on no cycle. *)
From Stdlib Require Import ZArith Lia.
From stdpp Require Import base gmap list strings numbers relations sorting.
From S2P Require Import Prelude Rollup Interop Cross.

(** ** Orders of visits *)

Lemma pick_Permutation {A} n (l : list A) x l' : pick n l = Some (x, l') -> l ≡ₚ x :: l'.
Proof.
  unfold pick. destruct (l !! _) as [y|] eqn:E; [| done].
  intros [= <- <-]. by apply delete_Permutation.
Qed.

Lemma pick_None {A} n (l : list A) : pick n l = None <-> l = [].
Proof.
  unfold pick. split; [| by intros ->].
  destruct l as [|x l]; [done |]. destruct ((x :: l) !! _) eqn:E; [done |].
  apply lookup_ge_None in E. pose proof (Nat.mod_upper_bound n (length (x :: l))). cbn in *. lia.
Qed.

Lemma shuffle_Permutation {A} ch (l : list A) : shuffle ch l ≡ₚ l.
Proof.
  unfold shuffle. remember (length l) as n eqn:Hn. revert ch l Hn.
  induction n as [|n IH]; intros ch l Hn; cbn.
  - by destruct l.
  - destruct (pick _ l) as [[x l']|] eqn:E.
    + pose proof (pick_Permutation _ _ _ _ E) as HP. rewrite IH; [by symmetry |].
      rewrite HP in Hn. cbn in Hn. lia.
    + apply pick_None in E as ->. done.
Qed.

Lemma range_map_Permutation {V} ch (m : gmap Z V) : range_map ch m ≡ₚ map_to_list m.
Proof. apply shuffle_Permutation. Qed.

Lemma elem_of_range_map {V} ch (m : gmap Z V) k v : (k, v) ∈ range_map ch m <-> m !! k = Some v.
Proof. rewrite range_map_Permutation. apply elem_of_map_to_list. Qed.

Lemma NoDup_range_map {V} ch (m : gmap Z V) : NoDup (range_map ch m).*1.
Proof. rewrite range_map_Permutation. apply NoDup_fst_map_to_list. Qed.

(** ** Multigraphs *)

Abbreviation edges := (list (node * node)).

Definition occ {A} `{EqDecision A} (x : A) (l : list A) : nat := length (filter (fun y => y = x) l).
Definition indeg (E : edges) (b : node) : nat := occ b E.*2.
Definition acyclic (E : edges) : Prop := forall a, ~ tc (fun a b => (a, b) ∈ E) a a.

Section Occ.
Context {A : Type} `{EqDecision A}.

Lemma occ_cons (x y : A) l : occ x (y :: l) = ((if decide (y = x) then 1 else 0) + occ x l)%nat.
Proof. unfold occ. rewrite filter_cons. by case_decide. Qed.

Lemma occ_app (x : A) l1 l2 : occ x (l1 ++ l2) = (occ x l1 + occ x l2)%nat.
Proof. unfold occ. by rewrite filter_app, length_app. Qed.

Lemma occ_snoc (x y : A) l : occ x (l ++ [y]) = (occ x l + if decide (y = x) then 1 else 0)%nat.
Proof. rewrite occ_app, occ_cons. change (occ x []) with 0%nat. lia. Qed.

Lemma occ_pos (x : A) l : (0 < occ x l)%nat <-> x ∈ l.
Proof.
  induction l as [|y l IH]; [cbn; set_solver by lia |].
  rewrite occ_cons, elem_of_cons, <- IH. case_decide; subst; split; intros; lia || (destruct_or!; congruence || lia) || auto with lia.
Qed.

Lemma occ_NoDup (x : A) l : NoDup l -> (occ x l <= 1)%nat.
Proof.
  induction 1 as [|y l Hy Hl IH]; [cbn; lia |]. rewrite occ_cons. case_decide; [| lia].
  subst. assert (~ (0 < occ x l)%nat) by (by rewrite occ_pos). lia.
Qed.
End Occ.

Lemma indeg_pos E b : (0 < indeg E b)%nat <-> exists a, (a, b) ∈ E.
Proof.
  unfold indeg. rewrite occ_pos, list_elem_of_fmap. split.
  - intros ([a b'] & -> & He). eauto.
  - intros [a He]. by exists (a, b).
Qed.

Lemma indeg_snoc E a b y : indeg (E ++ [(a, b)]) y = (indeg E y + if decide (b = y) then 1 else 0)%nat.
Proof. unfold indeg. rewrite fmap_app. apply occ_snoc. Qed.

(** The edges that do not leave [k]. *)
Definition without (k : node) (E : edges) : edges := filter (fun e => e.1 <> k) E.

Lemma elem_of_without k E a b : (a, b) ∈ without k E <-> a <> k /\ (a, b) ∈ E.
Proof. unfold without. by rewrite list_elem_of_filter. Qed.

Lemma indeg_without k E b : indeg E b = (indeg (without k E) b + occ (k, b) E)%nat.
Proof.
  induction E as [|[x y] E IH]; [done |]. unfold without in *. rewrite filter_cons, occ_cons. cbn [fst].
  unfold indeg in *. cbn [fmap list_fmap snd]. rewrite occ_cons.
  destruct (decide (x <> k)) as [Hx | Hx].
  - cbn [fmap list_fmap snd]. rewrite occ_cons. destruct (decide ((x, y) = (k, b))); [congruence |].
    rewrite IH. lia.
  - destruct (decide (y = b)), (decide ((x, y) = (k, b))); rewrite IH; try lia; exfalso; naive_solver.
Qed.

Lemma occ_without k E a b : occ (a, b) (without k E) = if decide (a = k) then 0%nat else occ (a, b) E.
Proof.
  induction E as [|[x y] E IH]; [by case_decide |]. unfold without in *. rewrite filter_cons, occ_cons. cbn [fst].
  repeat case_decide; rewrite ?occ_cons; repeat case_decide; simplify_eq; try congruence; rewrite IH; done.
Qed.

(** Removing a node without predecessors keeps every cycle. *)
Lemma tc_without k E a b :
  indeg E k = 0%nat -> (exists c, (c, a) ∈ E) ->
  tc (fun a b => (a, b) ∈ E) a b -> tc (fun a b => (a, b) ∈ without k E) a b.
Proof.
  intros Hk Hc Ht. assert (forall x y, (x, y) ∈ E -> y <> k) as Hin.
  { intros x y Hxy ->. assert (0 < indeg E k)%nat by (rewrite indeg_pos; eauto). lia. }
  induction Ht as [a b Hab | a b c' Hab Hbc IH].
  - destruct Hc as [c Hc]. apply tc_once, elem_of_without. eauto.
  - destruct Hc as [c Hc]. eapply tc_l; [apply elem_of_without; eauto | apply IH; eauto].
Qed.

Lemma tc_last {A} (R : relation A) a b : tc R a b -> exists c, R c b.
Proof. induction 1 as [a b H | a b c H1 H2 IH]; eauto. Qed.

Lemma cycle_without k E a :
  indeg E k = 0%nat -> tc (fun a b => (a, b) ∈ E) a a -> tc (fun a b => (a, b) ∈ without k E) a a.
Proof. intros Hk Ht. apply tc_without; [done | by eapply tc_last in Ht | done]. Qed.

(** In a finite set where every node has a predecessor there is a cycle. *)
Lemma cycle_exists (X : gset node) (R : relation node) :
  X <> ∅ -> (forall b, b ∈ X -> exists a, a ∈ X /\ R a b) -> exists a, tc R a a.
Proof.
  intros [x0 Hx0]%set_choose_L Hpred.
  assert (forall n : nat, (exists a, tc R a a) \/
            exists (x : node) (l : list node), NoDup (x :: l) /\ (forall y, y ∈ x :: l -> y ∈ X) /\
                        (forall y, y ∈ l -> tc R x y) /\ length l = n) as Hn.
  { induction n as [|n [IH | (x & l & Hnd & HX & Ht & Hl)]]; [right | by left |].
    - exists x0, []. split_and!; [apply NoDup_singleton | set_solver | set_solver | done].
    - destruct (Hpred x) as (a & Ha & Hax); [apply HX; set_solver |].
      assert (forall y, y ∈ x :: l -> tc R a y) as Hay.
      { intros y [-> | Hy]%elem_of_cons; [by apply tc_once | eapply tc_l; eauto]. }
      destruct (decide (a ∈ x :: l)) as [Hin | Hin]; [left; eauto |].
      right. exists a, (x :: l). split_and!; [by apply NoDup_cons | set_solver | done | cbn; lia]. }
  destruct (Hn (size X)) as [? | (x & l & Hnd & HX & _ & Hl)]; [done |].
  exfalso. assert (size (list_to_set (x :: l) : gset node) <= size X)%nat as Hle.
  { apply subseteq_size. intros y Hy%elem_of_list_to_set. by apply HX. }
  rewrite size_list_to_set in Hle by done. cbn in Hle. lia.
Qed.

(** ** What the maps represent *)

Record rep (g : graph) (N : gset node) (E : edges) : Prop := {
  rep_out : forall a b, occ b (default [] (outgoingEdges g !! a)) = occ (a, b) E;
  rep_deg : forall b, inDegreeNon0 g !! b =
              if decide (indeg E b = 0%nat) then None else Some (Z.of_nat (indeg E b));
  rep_root : forall b, b ∈ inDegree0 g <-> b ∈ N /\ indeg E b = 0%nat;
  rep_node : forall a b, (a, b) ∈ E -> a ∈ N /\ b ∈ N;
  rep_small : forall b, Z.of_nat (indeg E b) < 2 ^ 32;
}.

Lemma rep_deg_default g N E b : rep g N E -> default 0 (inDegreeNon0 g !! b) = Z.of_nat (indeg E b).
Proof. intros Hr. rewrite (rep_deg _ _ _ Hr). case_decide as Hd; cbn; [by rewrite Hd | done]. Qed.

Lemma rep_new : rep new_graph ∅ [].
Proof. constructor; cbn; intros; try done; set_solver by lia. Qed.

Lemma rep_add_root g N E k : rep g N E -> indeg E k = 0%nat -> rep (add_root k g) ({[k]} ∪ N) E.
Proof.
  intros [Ho Hd Hr Hn Hs] Hk. constructor; cbn; try done.
  - intros b. rewrite !elem_of_union, Hr, !elem_of_singleton. split; [| tauto].
    intros [-> | [? ?]]; tauto.
  - intros a b He. destruct (Hn a b He). set_solver.
Qed.

Lemma rep_addEdge g N E a b :
  rep g N E -> a ∈ N -> Z.of_nat (indeg E b) < 2 ^ 32 - 1 ->
  rep (addEdge a b g) ({[b]} ∪ N) (E ++ [(a, b)]).
Proof.
  intros Hrep Ha Hb. pose proof (rep_deg_default _ _ _ b Hrep) as Hdef.
  destruct Hrep as [Ho Hd Hr Hn Hs].
  pose proof (indeg_snoc E a b) as Hi.
  constructor; cbn [addEdge outgoingEdges inDegreeNon0 inDegree0].
  - intros x y. rewrite occ_snoc, <- Ho. destruct (decide (x = a)) as [-> | Hx].
    + rewrite lookup_insert_eq. cbn [default from_option id]. rewrite occ_snoc.
      repeat case_decide; simplify_eq; lia.
    + rewrite lookup_insert_ne by done. repeat case_decide; simplify_eq; lia.
  - intros y. rewrite Hi, Hdef. destruct (decide (b = y)) as [<- | Hy].
    + rewrite lookup_insert_eq. case_decide; [lia |]. f_equal. unfold uadd. rewrite wrap_small; [lia |].
      unfold in_range. lia.
    + rewrite lookup_insert_ne, Hd by done. by rewrite Nat.add_0_r.
  - intros y. rewrite elem_of_difference, elem_of_union, elem_of_singleton, Hr, Hi.
    destruct (decide (b = y)) as [<- | Hne].
    + split; [tauto | intros [_ ?]; lia].
    + rewrite Nat.add_0_r. split; [tauto |]. intros [[-> | ?] ?]; [done | split; [done | congruence]].
  - intros x y [He | [= -> ->]%list_elem_of_singleton]%elem_of_app; [| set_solver].
    destruct (Hn x y He). set_solver.
  - intros y. rewrite Hi. specialize (Hs y). case_decide; subst; lia.
Qed.

(** Dropping the edges of [outs], as long as there are that many. *)
Lemma drop_edges outs g :
  (forall b, Z.of_nat (occ b outs) <= default 0 (inDegreeNon0 g !! b) < 2 ^ 32) ->
  let g' := fold_left drop_edge outs g in
  outgoingEdges g' = outgoingEdges g /\
  (forall b, inDegreeNon0 g' !! b =
     let d := default 0 (inDegreeNon0 g !! b) - Z.of_nat (occ b outs) in
     if decide (b ∈ outs) then (if decide (d = 0) then None else Some d) else inDegreeNon0 g !! b) /\
  (forall b, b ∈ inDegree0 g' <->
     b ∈ inDegree0 g \/ b ∈ outs /\ default 0 (inDegreeNon0 g !! b) = Z.of_nat (occ b outs)).
Proof.
  revert g. induction outs as [|o outs IH]; intros g Hle; cbn zeta.
  - cbn [fold_left]. split_and!; [done | |]; intros b; [| set_solver].
    rewrite decide_False; [done | apply not_elem_of_nil].
  - cbn [fold_left]. set (d := default 0 (inDegreeNon0 g !! o)) in *.
    assert (1 <= d < 2 ^ 32) as Hd by (specialize (Hle o); rewrite occ_cons, decide_True in Hle by done; fold d in Hle; lia).
    assert (usub 32 d 1 = d - 1) as Hu by (apply wrap_small; unfold in_range; lia).
    assert (forall b, default 0 (inDegreeNon0 (drop_edge g o) !! b) =
                      default 0 (inDegreeNon0 g !! b) - if decide (o = b) then 1 else 0) as Hdeg.
    { intros b. unfold drop_edge. fold d. rewrite Hu.
      destruct (Z.eqb_spec (d - 1) 0); cbn [inDegreeNon0]; destruct (decide (o = b)) as [<- | Ho].
      - rewrite lookup_delete_eq. fold d. cbn. lia.
      - rewrite lookup_delete_ne by done. lia.
      - rewrite lookup_insert_eq. fold d. cbn. lia.
      - rewrite lookup_insert_ne by done. lia. }
    destruct (IH (drop_edge g o)) as (IHo & IHd & IHr).
    { intros b. rewrite Hdeg. specialize (Hle b). rewrite occ_cons in Hle. case_decide; lia. }
    split_and!.
    + rewrite IHo. unfold drop_edge. by destruct (_ =? 0).
    + intros b. rewrite IHd, Hdeg, occ_cons. cbn zeta.
      destruct (decide (o = b)) as [<- | Ho].
      * rewrite (decide_True (P := o ∈ o :: outs)) by (apply elem_of_cons; by left). fold d.
        destruct (decide (o ∈ outs)) as [Hin | Hin].
        -- repeat case_decide; try done; try lia; f_equal; lia.
        -- assert (occ o outs = 0%nat) as H0 by (pose proof (proj1 (occ_pos o outs)); destruct (occ o outs); [done | exfalso; apply Hin; auto with lia]).
           rewrite H0. unfold drop_edge. fold d. rewrite Hu.
           destruct (Z.eqb_spec (d - 1) 0); cbn [inDegreeNon0];
             rewrite ?lookup_delete_eq, ?lookup_insert_eq; case_decide; try done; try lia; f_equal; lia.
      * assert (inDegreeNon0 (drop_edge g o) !! b = inDegreeNon0 g !! b) as ->.
        { unfold drop_edge. destruct (_ =? 0); cbn [inDegreeNon0]; by rewrite ?lookup_delete_ne, ?lookup_insert_ne. }
        rewrite Z.sub_0_r. destruct (decide (b ∈ outs)) as [Hin | Hin].
        -- rewrite (decide_True (P := b ∈ o :: outs)); [done | apply elem_of_cons; by right].
        -- rewrite (decide_False (P := b ∈ o :: outs)); [done |]. intros [-> | ?]%elem_of_cons; done.
    + intros b. rewrite IHr, Hdeg, occ_cons, elem_of_cons.
      assert (b ∈ inDegree0 (drop_edge g o) <-> b ∈ inDegree0 g \/ b = o /\ d = 1) as ->.
      { unfold drop_edge. fold d. rewrite Hu. destruct (Z.eqb_spec (d - 1) 0); cbn [inDegree0].
        - rewrite elem_of_union, elem_of_singleton. split; [| tauto]. intros [-> | ?]; [right; split; [done | lia] | tauto].
        - split; [tauto | intros [? | [_ ?]]; [done | lia]]. }
      destruct (decide (o = b)) as [<- | Ho].
      * fold d. assert (d = 1 -> occ o outs = 0%nat) as H1.
        { intros E1. specialize (Hle o). rewrite occ_cons, decide_True in Hle by done. fold d in Hle. lia. }
        assert (d - 1 = Z.of_nat (occ o outs) -> d <> 1 -> o ∈ outs) as H2 by (intros; apply occ_pos; lia).
        split; intros Hor; destruct (decide (d = 1)) as [Hd1 | Hd1].
        -- destruct Hor as [[? | ?] | [? ?]]; [tauto | right; split; [tauto | rewrite H1; lia] ..].
        -- destruct Hor as [[? | [_ ?]] | [? ?]]; [tauto | done | right; split; [tauto | lia]].
        -- tauto.
        -- destruct Hor as [? | [_ ?]]; [tauto | right; split; [apply H2; lia | lia]].
      * rewrite Z.sub_0_r, Nat.add_0_l. split; [| intros [? | [[-> | ?] ?]]; tauto || done].
        intros [[? | [-> _]] | ?]; tauto || done.
Qed.

Lemma rep_remove_node g N E k :
  rep g N E -> k ∈ inDegree0 g -> rep (remove_node k g) (N ∖ {[k]}) (without k E).
Proof.
  intros Hrep Hk. pose proof (fun b => rep_deg_default _ _ _ b Hrep) as Hdef.
  destruct Hrep as [Ho Hd Hr Hn Hs]. apply Hr in Hk as [HkN Hk].
  pose proof (fun b => indeg_without k E b) as Hw.
  destruct (drop_edges (default [] (outgoingEdges g !! k)) g) as (Do & Dd & Dr).
  { intros b. rewrite Hdef, Ho. specialize (Hw b). specialize (Hs b). lia. }
  assert (forall b, b ∈ default [] (outgoingEdges g !! k) <-> (0 < occ (k, b) E)%nat) as Hout.
  { intros b. by rewrite <- Ho, occ_pos. }
  constructor; unfold remove_node; cbn [outgoingEdges inDegreeNon0 inDegree0].
  - intros a b. rewrite Do, occ_without. destruct (decide (a = k)) as [-> | Ha].
    + by rewrite lookup_delete_eq.
    + by rewrite lookup_delete_ne.
  - intros b. rewrite Dd, Hdef, Ho. specialize (Hw b). cbn zeta.
    destruct (decide (b ∈ _)) as [Hb | Hb]; rewrite Hout in Hb.
    + repeat case_decide; try done; try lia. f_equal. lia.
    + rewrite Hd. assert (occ (k, b) E = 0)%nat by lia. repeat case_decide; try done; try lia. f_equal. lia.
  - intros b. rewrite elem_of_difference, Dr, elem_of_difference, Hr, Hdef, Ho, Hout, elem_of_singleton.
    specialize (Hw b). split.
    + intros [[[HN ?] | [Hb ?]] Hne]; [split; [done | lia] |]. split; [| lia]. split; [| done].
      apply occ_pos in Hb. by apply Hn in Hb as [_ ?].
    + intros [[HN Hne] Hi]. split; [| done]. destruct (decide (occ (k, b) E = 0%nat)); [left | right]; split; done || lia.
  - intros a b [Ha He]%elem_of_without. destruct (Hn a b He). rewrite !elem_of_difference, !elem_of_singleton.
    split_and!; [done | done | done |]. intros ->.
    assert (0 < indeg E k)%nat by (rewrite indeg_pos; eauto). lia.
  - intros b. specialize (Hw b). specialize (Hs b). lia.
Qed.

Lemma rep_size g N E : rep g N E -> (size (inDegree0 g) + size (inDegreeNon0 g))%nat = size N.
Proof.
  intros [Ho Hd Hr Hn Hs]. rewrite <- size_dom, <- size_union.
  - f_equal. apply set_eq. intros b. rewrite elem_of_union, Hr, elem_of_dom, Hd. case_decide as H0.
    + split; [intros [[? _] | [? ?]]; done | by left].
    + split; [| eauto]. intros [[? ?] | _]; [done |].
      assert (0 < indeg E b)%nat as (a & He)%indeg_pos by lia. by apply Hn in He as [_ ?].
  - intros b Hb. rewrite elem_of_dom, Hd. apply Hr in Hb as [_ ->]. cbn. intros [? ?]; done.
Qed.

(** ** Kahn's algorithm decides *)

Definition cyclic (E : edges) : Prop := exists a, tc (fun a b => (a, b) ∈ E) a a.

(** No node without predecessors is left. *)
Lemma stuck_graph g N E :
  rep g N E -> inDegree0 g = ∅ ->
  let r := if decide (inDegreeNon0 g = ∅) then Ok () else Err ErrCycle in
  r = Ok () /\ acyclic E \/ r = Err ErrCycle /\ cyclic E.
Proof.
  intros [Ho Hd Hr Hn Hs] H0.
  assert (forall b, is_Some (inDegreeNon0 g !! b) <-> exists a, (a, b) ∈ E) as Hdom.
  { intros b. rewrite <- indeg_pos, Hd. case_decide as Hb; split; intros Hx; [by destruct Hx | lia | lia | done]. }
  case_decide as He; cbn zeta; [left | right]; split; try done.
  - intros a (c & Hc)%tc_last. destruct (proj2 (Hdom a)) as [? Hx]; [eauto |].
    by rewrite He, lookup_empty in Hx.
  - apply (cycle_exists (dom (inDegreeNon0 g))); [by rewrite dom_empty_iff_L |].
    intros b (a & Ha)%elem_of_dom%Hdom. exists a. split; [| done].
    apply elem_of_dom. rewrite Hd. case_decide as Hi; [| done].
    assert (a ∈ inDegree0 g) by (apply Hr; split; [by apply Hn in Ha as [? _] | done]).
    exfalso. set_solver.
Qed.

Lemma pick_root ch g k l : pick ch (elements (inDegree0 g)) = Some (k, l) -> k ∈ inDegree0 g.
Proof. intros Hp%pick_Permutation. apply elem_of_elements. rewrite Hp. apply elem_of_cons. by left. Qed.

Lemma checkGraph_decides_fuel fuel ch g N E :
  rep g N E -> (size N <= fuel)%nat ->
  checkGraph_ fuel ch g = Ok () /\ acyclic E \/ checkGraph_ fuel ch g = Err ErrCycle /\ cyclic E.
Proof.
  revert ch g N E. induction fuel as [|fuel IH]; intros ch g N E Hrep Hf;
    cbn [checkGraph_]; destruct (pick _ _) as [[k ?]|] eqn:Hp.
  2, 4: eapply stuck_graph; [done |]; apply pick_None in Hp; by apply elements_empty_iff, leibniz_equiv in Hp.
  all: pose proof (pick_root _ _ _ _ Hp) as Hk; pose proof Hk as [HN H0]%(rep_root _ _ _ Hrep).
  - exfalso. assert (size N = 0)%nat as Hz by lia. apply size_empty_iff in Hz. set_solver.
  - destruct (IH (later ch) _ _ _ (rep_remove_node _ _ _ _ Hrep Hk)) as [[Hc Ha] | [Hc [a Ha]]].
    + assert (size (N ∖ {[k]}) < size N)%nat by (apply subset_size; set_solver). lia.
    + left. split; [done |]. intros a Ht. apply (Ha a). by apply cycle_without.
    + right. split; [done |]. exists a. revert Ha. apply tc_congruence with (f := id).
      intros x y. cbn. by intros [_ ?]%elem_of_without.
Qed.

Lemma checkGraph_decides ch g N E :
  rep g N E ->
  checkGraph ch g = Ok () /\ acyclic E \/ checkGraph ch g = Err ErrCycle /\ cyclic E.
Proof. intros Hrep. apply (checkGraph_decides_fuel _ _ _ N); [done |]. by rewrite (rep_size _ _ _ Hrep). Qed.

(** The graph that the cycle check builds: its edges are those between
    neighbouring logs of a block and those from an initiating message that
    executes a message itself ([dep_edge]). With CycleProps.v, the check decides
    whether these edges have a cycle. *)

(** ** Dependencies between logs *)

Definition exec_at (l : logs) (n : node) : option ExecutingMessage :=
  execMsgs l !! chainIndex n ≫= (fun msgs => msgs !! logIndex n).

Definition init_node (m : ExecutingMessage) : node := mkNode (m_Chain m) (m_LogIdx m).

(** [b] is the log after [a] in its block. *)
Definition next_log (counts : Z -> option Z) (a b : node) : Prop :=
  chainIndex a = chainIndex b /\ logIndex b = logIndex a + 1 /\ 0 <= logIndex a /\
  exists n, counts (chainIndex b) = Some n /\ logIndex b < n.

(** [b] executes the message of [a]. *)
Definition executes (l : logs) (a b : node) : Prop :=
  exists m, exec_at l b = Some m /\ a = init_node m.

(** The edges that the code adds. *)
Definition dep_edge (l : logs) (a b : node) : Prop :=
  next_log (fun c => logCounts l !! c) a b \/ executes l a b /\ is_Some (exec_at l a).

(** What the check demands of the executing messages of the timestamp. *)
Definition messages_ok (hazards : HazardSet) (l : logs) : Prop :=
  forall b m, exec_at l b = Some m ->
    is_Some (Entries hazards !! m_Chain m) /\ (is_Some (exec_at l (init_node m)) -> init_node m <> b).

(** What [gatherLogs] establishes. *)
Definition logs_ok (l : logs) : Prop :=
  (forall b m, exec_at l b = Some m -> exists n, logCounts l !! chainIndex b = Some n /\ 0 <= logIndex b < n) /\
  (forall c n, logCounts l !! c = Some n -> 0 <= n).

(** ** The logs of the blocks *)

Definition in_blocks (L : list (Z * Z)) (a : node) : Prop :=
  exists n, (chainIndex a, n) ∈ L /\ 0 <= logIndex a < n.

Definition next_in (L : list (Z * Z)) (a b : node) : Prop :=
  chainIndex a = chainIndex b /\ logIndex b = logIndex a + 1 /\ 0 <= logIndex a /\
  exists n, (chainIndex b, n) ∈ L /\ logIndex b < n.

Record blocks_inv (L : list (Z * Z)) (g : graph) (N : gset node) (E : edges) : Prop := {
  bi_rep : rep g N E;
  bi_edge : forall a b, (a, b) ∈ E <-> next_in L a b;
  bi_node : forall a, a ∈ N <-> in_blocks L a;
  bi_deg : forall b, (indeg E b <= 1)%nat;
}.

Lemma add_log_inv L c i g N E :
  0 <= i -> c ∉ L.*1 -> blocks_inv (L ++ [(c, i)]) g N E ->
  exists N' E', blocks_inv (L ++ [(c, i + 1)]) (add_log c g i) N' E'.
Proof.
  intros Hi Hc [Hrep He Hn Hd].
  assert (forall c' n, c' = c -> (c', n) ∈ L -> False) as HcL.
  { intros c' n -> HL. apply Hc, list_elem_of_fmap. by exists (c, n). }
  assert (indeg E (mkNode c i) = 0)%nat as H0.
  { destruct (indeg E (mkNode c i)) as [|d] eqn:E0; [done |]. exfalso.
    destruct (proj1 (indeg_pos E (mkNode c i))) as (a & (_ & _ & _ & n & HL & Hlt)%He); [lia |].
    apply elem_of_app in HL as [? | [= ->]%list_elem_of_singleton]; [by eapply HcL | cbn in *; lia]. }
  assert (forall a, in_blocks (L ++ [(c, i + 1)]) a <-> a = mkNode c i \/ in_blocks (L ++ [(c, i)]) a) as Hnode.
  { intros [ca ia]. unfold in_blocks. cbn. setoid_rewrite elem_of_app. setoid_rewrite list_elem_of_singleton. split.
    - intros (n & [? | [= -> ->]] & ?); [eauto |]. destruct (decide (ia = i)) as [-> | ?]; [eauto |].
      right. exists i. split; [eauto | lia].
    - intros [[= -> ->] | (n & [? | [= -> ->]] & ?)]; [exists (i + 1) | eauto | exists (i + 1)]; split; eauto; lia. }
  unfold add_log. destruct (Z.eqb_spec i 0) as [-> | Hi0].
  - exists ({[mkNode c 0]} ∪ N), E. split; [by apply rep_add_root | | | done].
    + intros a b. rewrite He. unfold next_in. setoid_rewrite elem_of_app. setoid_rewrite list_elem_of_singleton.
      split; intros (? & ? & ? & n & [? | [= -> ->]] & ?); split_and!; eauto; lia.
    + intros a. rewrite elem_of_union, elem_of_singleton, Hn, Hnode. tauto.
  - exists ({[mkNode c i]} ∪ N), (E ++ [(mkNode c (i - 1), mkNode c i)]). split.
    + apply rep_addEdge; [done | | rewrite H0; cbn; lia]. apply Hn. exists i. cbn.
      split; [apply elem_of_app; right; by apply list_elem_of_singleton | lia].
    + intros [ca ia] [cb ib]. rewrite elem_of_app, list_elem_of_singleton, He. unfold next_in. cbn.
      setoid_rewrite elem_of_app. setoid_rewrite list_elem_of_singleton. split.
      * intros [(? & ? & ? & n & [? | [= -> ->]] & ?) | [= -> -> -> ->]]; split_and!; eauto; try lia.
        all: exists (i + 1); split; eauto; lia.
      * intros (-> & -> & ? & n & [? | [= -> ->]] & ?); [left; split_and!; eauto |].
        destruct (decide (ia + 1 = i)) as [<- | ?]; [right; do 3 f_equal; lia | left].
        split_and!; eauto. exists i. split; [eauto | lia].
    + intros a. rewrite elem_of_union, elem_of_singleton, Hn, Hnode. tauto.
    + intros b. rewrite indeg_snoc. specialize (Hd b). case_decide; subst; lia.
Qed.

Lemma add_block_inv L c n g N E :
  0 <= n -> c ∉ L.*1 -> blocks_inv L g N E -> exists N' E', blocks_inv (L ++ [(c, n)]) (add_block g (c, n)) N' E'.
Proof.
  intros Hn Hc [Hrep He HN Hd]. unfold add_block. cbn [fst snd].
  pose (P := fun (i : Z) (g : graph) => exists N E, blocks_inv (L ++ [(c, i)]) g N E).
  assert (P n (fold_left (add_log c) (zrange 0 1 (Z.to_nat n)) g)) as HP; [| exact HP].
  rewrite <- (Z2Nat.id n) at 1 by done.
  apply fold_zrange.
  - exists N, E. split; [done | | | done].
    + intros a b. rewrite He. unfold next_in. setoid_rewrite elem_of_app. setoid_rewrite list_elem_of_singleton.
      split; intros (? & ? & ? & m & Hm & ?); split_and!; eauto.
      destruct Hm as [? | [= ? ->]]; [eauto | lia].
    + intros a. rewrite HN. unfold in_blocks. setoid_rewrite elem_of_app. setoid_rewrite list_elem_of_singleton.
      split; intros (m & Hm & ?); eauto. destruct Hm as [? | [= ? ->]]; [eauto | lia].
  - intros i g' Hi (N' & E' & Hb). replace (0 + 1 * i) with i by lia.
    eapply add_log_inv; [lia | done | exact Hb].
Qed.

Lemma add_blocks_inv blocks L g N E :
  NoDup (L ++ blocks).*1 -> Forall (fun cl => 0 <= cl.2) blocks -> blocks_inv L g N E ->
  exists N' E', blocks_inv (L ++ blocks) (fold_left add_block blocks g) N' E'.
Proof.
  revert L g N E. induction blocks as [|[c n] blocks IH]; intros L g N E Hnd Hpos Hinv; cbn [fold_left].
  - rewrite app_nil_r. eauto.
  - apply Forall_cons_iff in Hpos as [Hn Hpos]. cbn in Hn.
    destruct (add_block_inv L c n g N E) as (N' & E' & Hinv'); [done | | done |].
    + rewrite fmap_app in Hnd. apply NoDup_app in Hnd as (_ & Hnd & _). intros Hc. apply (Hnd c Hc). cbn. set_solver.
    + replace (L ++ (c, n) :: blocks) with ((L ++ [(c, n)]) ++ blocks) in * by (by rewrite <- app_assoc).
      by eapply IH.
Qed.

(** ** The executing messages *)

Abbreviation exec_msg := (Z * Z * ExecutingMessage)%type.
Definition target (t : exec_msg) : node := mkNode t.1.1 t.1.2.

Section Messages.
Variable hazards : HazardSet.
Variable l : logs.

(** The two nested loops as one. *)
Fixpoint add_all (T : list exec_msg) (g : graph) : outcome graph :=
  match T with
  | [] => Ok g
  | (c, i, m) :: T => g ← add_message (Entries hazards) l c i m g; add_all T g
  end.

Definition flat (sch : Z -> choices) (chains : list (Z * gmap Z ExecutingMessage)) : list exec_msg :=
  chains ≫= (fun cm => (fun im => (cm.1, im.1, im.2)) <$> range_map (sch cm.1) cm.2).

Lemma add_all_app T1 T2 g : add_all (T1 ++ T2) g = g ← add_all T1 g; add_all T2 g.
Proof.
  revert g. induction T1 as [|[[c i] m] T1 IH]; intros g; cbn; [done |].
  destruct (add_message _ _ _ _ _ _); cbn; [apply IH | done | done].
Qed.

Lemma add_messages_all c msgs g :
  add_messages (Entries hazards) l c msgs g = add_all ((fun im => (c, im.1, im.2)) <$> msgs) g.
Proof.
  revert g. induction msgs as [|[i m] msgs IH]; intros g; cbn; [done |].
  destruct (add_message _ _ _ _ _ _); cbn; [apply IH | done | done].
Qed.

Lemma add_chains_all sch chains g :
  add_chains sch (Entries hazards) l chains g = add_all (flat sch chains) g.
Proof.
  revert g. induction chains as [|[c msgs] chains IH]; intros g; cbn [add_chains]; [done |].
  change (flat sch ((c, msgs) :: chains)) with
    (((fun im => (c, im.1, im.2)) <$> range_map (sch c) msgs) ++ flat sch chains).
  rewrite add_all_app, <- add_messages_all.
  destruct (add_messages _ _ _ _ _); cbn; [apply IH | done | done].
Qed.

Lemma elem_of_flat sch chains c i m :
  (c, i, m) ∈ flat sch chains <-> exists msgs, (c, msgs) ∈ chains /\ msgs !! i = Some m.
Proof.
  unfold flat. rewrite list_elem_of_bind. split.
  - intros ([c' msgs] & Hf & Hc). apply list_elem_of_fmap in Hf as ([i' m'] & [= -> -> ->] & Hr).
    exists msgs. split; [done | by eapply elem_of_range_map].
  - intros (msgs & Hc & Hm). exists (c, msgs). split; [| done]. apply list_elem_of_fmap.
    exists (i, m). split; [done | by apply elem_of_range_map].
Qed.

Lemma NoDup_flat sch chains : NoDup chains.*1 -> NoDup (target <$> flat sch chains).
Proof.
  induction chains as [|[c msgs] chains IH]; intros Hnd; [constructor |].
  change (flat sch ((c, msgs) :: chains)) with
    (((fun im => (c, im.1, im.2)) <$> range_map (sch c) msgs) ++ flat sch chains).
  apply NoDup_cons in Hnd as [Hc Hnd]. rewrite fmap_app. apply NoDup_app. split_and!.
  - rewrite <- list_fmap_compose.
    replace (_ <$> range_map (sch c) msgs) with (mkNode c <$> (range_map (sch c) msgs).*1)
      by (by rewrite <- list_fmap_compose).
    apply NoDup_fmap_2; [by intros ? ? [=] | apply NoDup_range_map].
  - intros x (t & -> & ([i m] & -> & _)%list_elem_of_fmap)%list_elem_of_fmap.
    intros ([[c' i'] m'] & Heq & (msgs' & Hc' & _)%elem_of_flat)%list_elem_of_fmap.
    cbn in Heq. injection Heq as -> _. apply Hc, list_elem_of_fmap. by exists (c', msgs').
  - by apply IH.
Qed.

Definition msg_valid (t : exec_msg) : Prop :=
  is_Some (Entries hazards !! m_Chain t.2) /\
  (is_Some (exec_at l (init_node t.2)) -> init_node t.2 <> target t).

#[export] Instance msg_valid_dec t : Decision (msg_valid t).
Proof. unfold msg_valid. apply _. Defined.

Definition msg_edge (T : list exec_msg) (a b : node) : Prop :=
  exists t, t ∈ T /\ a = init_node t.2 /\ b = target t /\ is_Some (exec_at l a).

(** The graph after the blocks and the messages of [T]. *)
Record msgs_inv (T : list exec_msg) (g : graph) (N : gset node) (E : edges) : Prop := {
  mi_rep : rep g N E;
  mi_edge : forall a b, (a, b) ∈ E <-> next_log (fun c => logCounts l !! c) a b \/ msg_edge T a b;
  mi_node : forall a, a ∈ N <-> exists n, logCounts l !! chainIndex a = Some n /\ 0 <= logIndex a < n;
  mi_deg : forall b, (indeg E b <= 1 + occ b (target <$> T))%nat;
}.

Hypothesis Hl : logs_ok l.

Lemma add_message_valid T g N E c i m :
  msgs_inv T g N E -> exec_at l (mkNode c i) = Some m -> msg_valid (c, i, m) ->
  target (c, i, m) ∉ target <$> T ->
  exists g' N' E', add_message (Entries hazards) l c i m g = Ok g' /\ msgs_inv (T ++ [(c, i, m)]) g' N' E'.
Proof.
  intros [Hrep He Hn Hd] Hx [[b Hb] Hself] HT. cbn in Hb, Hself. unfold add_message. rewrite Hb.
  change (execMsgs l !! m_Chain m ≫= _) with (exec_at l (init_node m)).
  assert (forall a b, msg_edge (T ++ [(c, i, m)]) a b <-> msg_edge T a b \/
            a = init_node m /\ b = mkNode c i /\ is_Some (exec_at l a)) as Hme.
  { intros x y. unfold msg_edge. setoid_rewrite elem_of_app. setoid_rewrite list_elem_of_singleton. split.
    - intros (t & [Ht | ->] & ?); [left | right]; eauto.
    - intros [(t & ? & ?) | ?]; [exists t | exists (c, i, m)]; tauto. }
  assert (forall E' y, indeg E' y = indeg E y -> (indeg E' y <= 1 + occ y (target <$> T ++ [(c, i, m)]))%nat) as Hdeg.
  { intros E' y ->. rewrite fmap_app, occ_app. specialize (Hd y). lia. }
  destruct (exec_at l (init_node m)) as [mi|] eqn:Hmi.
  - destruct (proj1 Hl _ _ Hmi) as (n & Hcnt & Hlt). cbn in Hcnt, Hlt. rewrite Hcnt.
    destruct (Z.leb_spec n (m_LogIdx m)); [lia |]. rewrite bool_decide_false by (apply Hself; eauto).
    do 3 eexists. split; [reflexivity |].
    assert (occ (mkNode c i) (target <$> T) = 0)%nat as H0.
    { pose proof (proj1 (occ_pos (mkNode c i) (target <$> T))) as Ho.
      destruct (occ _ _); [done | exfalso; apply HT, Ho; lia]. }
    split.
    + apply rep_addEdge; [exact Hrep | apply Hn; cbn; eauto |]. specialize (Hd (mkNode c i)). lia.
    + intros x y. rewrite elem_of_app, list_elem_of_singleton, He, Hme. split.
      * intros [[? | ?] | [= -> ->]]; [tauto | tauto |]. right; right. split_and!; [done | done | exact (mk_is_Some _ _ Hmi)].
      * intros [? | [? | (-> & -> & _)]]; tauto.
    + intros x. rewrite elem_of_union, elem_of_singleton, Hn. split; [| tauto].
      intros [-> | ?]; [| done]. by apply (proj1 Hl) in Hx.
    + intros y. rewrite indeg_snoc, fmap_app, occ_app. specialize (Hd y). cbn [fmap list_fmap target fst snd].
      rewrite occ_cons. change (target (c, i, m)) with (mkNode c i). repeat case_decide; done || lia.
  - exists g, N, E. split; [done |]. split; [done | | done | by intros y; apply Hdeg].
    intros x y. rewrite He, Hme. split; [tauto |]. intros [? | [? | (-> & _ & Hs)]]; [tauto | tauto |].
    rewrite Hmi in Hs. by destruct Hs.
Qed.

Lemma add_message_invalid g c i m :
  ~ msg_valid (c, i, m) ->
  add_message (Entries hazards) l c i m g = Err ErrExecMsgUnknownChain \/
  add_message (Entries hazards) l c i m g = Err ErrConflict.
Proof.
  intros Hv. unfold add_message. destruct (Entries hazards !! m_Chain m) as [b|] eqn:Hb; [right | by left].
  change (execMsgs l !! m_Chain m ≫= _) with (exec_at l (init_node m)).
  assert (is_Some (exec_at l (init_node m)) /\ init_node m = mkNode c i) as [[mi ->] Heq].
  { destruct (decide (is_Some (exec_at l (init_node m)) /\ init_node m = mkNode c i)) as [? | Hn]; [done |].
    exfalso. apply Hv. split; cbn; [by rewrite Hb |]. intros Hs Heq. by apply Hn. }
  destruct (logCounts l !! m_Chain m) as [n|]; [| done]. destruct (n <=? _); [done |].
  rewrite bool_decide_true by done. done.
Qed.

Lemma add_all_valid T2 T1 g N E :
  NoDup (target <$> T1 ++ T2) -> Forall msg_valid T2 ->
  (forall c i m, (c, i, m) ∈ T2 -> exec_at l (mkNode c i) = Some m) -> msgs_inv T1 g N E ->
  exists g' N' E', add_all T2 g = Ok g' /\ msgs_inv (T1 ++ T2) g' N' E'.
Proof.
  revert T1 g N E. induction T2 as [|[[c i] m] T2 IH]; intros T1 g N E Hnd Hv Hx Hinv; cbn [add_all].
  - rewrite app_nil_r. eauto 6.
  - apply Forall_cons_iff in Hv as [Hv HT].
    destruct (add_message_valid T1 g N E c i m) as (g' & N' & E' & -> & Hinv'); [done | | done | |].
    + apply Hx, elem_of_cons. by left.
    + rewrite fmap_app in Hnd. apply NoDup_app in Hnd as (_ & Hnd & _). intros Hin. apply (Hnd _ Hin).
      apply elem_of_cons. by left.
    + cbn. replace (T1 ++ (c, i, m) :: T2) with ((T1 ++ [(c, i, m)]) ++ T2) in * by (by rewrite <- app_assoc).
      eapply IH; [done | done | | done]. intros. apply Hx, elem_of_cons. by right.
Qed.

Lemma add_all_invalid T2 T1 g N E :
  NoDup (target <$> T1 ++ T2) -> ~ Forall msg_valid T2 ->
  (forall c i m, (c, i, m) ∈ T2 -> exec_at l (mkNode c i) = Some m) -> msgs_inv T1 g N E ->
  add_all T2 g = Err ErrExecMsgUnknownChain \/ add_all T2 g = Err ErrConflict.
Proof.
  revert T1 g N E. induction T2 as [|[[c i] m] T2 IH]; intros T1 g N E Hnd Hv Hx Hinv; cbn [add_all].
  - exfalso. apply Hv. constructor.
  - destruct (decide (msg_valid (c, i, m))) as [Hm | Hm].
    + destruct (add_message_valid T1 g N E c i m) as (g' & N' & E' & -> & Hinv'); [done | | done | |].
      * apply Hx, elem_of_cons. by left.
      * rewrite fmap_app in Hnd. apply NoDup_app in Hnd as (_ & Hnd & _). intros Hin. apply (Hnd _ Hin).
        apply elem_of_cons. by left.
      * cbn. replace (T1 ++ (c, i, m) :: T2) with ((T1 ++ [(c, i, m)]) ++ T2) in * by (by rewrite <- app_assoc).
        eapply IH; [done | | | done].
        -- intros HF. apply Hv. by constructor.
        -- intros. apply Hx, elem_of_cons. by right.
    + destruct (add_message_invalid g c i m Hm) as [-> | ->]; [left | right]; done.
Qed.

End Messages.

(** ** Gathering the logs *)

Section Gather.
Context {D : Type} `{DependencySet D}.
Variable depSet : D.
Variable OpenBlock : ChainID -> Z -> outcome (BlockRef * Z * gmap Z ExecutingMessage).
Variable inTimestamp : Z.

(** The log count and the log indices of a block are [uint32]. *)
Definition open_typed : Prop :=
  forall id n bl k msgs, OpenBlock id n = Ok (bl, k, msgs) ->
    0 <= k /\ forall i m, msgs !! i = Some m -> 0 <= i.

(** The logs of [l] are those of the block [b] of the chain with index [c]. *)
Definition has_block (l : logs) (c : ChainIndex) (b : BlockSeal) : Prop :=
  exists id bl k msgs,
    ChainIDFromIndex depSet c = Ok id /\ OpenBlock id (s_Number b) = Ok (bl, k, msgs) /\
    s_Number b = l1_Number bl /\ s_Hash b = l1_Hash bl /\
    logCounts l !! c = Some k /\
    forall i m, exec_at l (mkNode c i) = Some m <-> msgs !! i = Some m /\ m_Timestamp m = inTimestamp.

Definition gathered (hazards : HazardSet) (l : logs) : Prop :=
  (forall c b, Entries hazards !! c = Some b -> has_block l c b) /\
  (forall c, Entries hazards !! c = None -> logCounts l !! c = None /\ execMsgs l !! c = None).

Lemma gather_block_ok c b l l' :
  open_typed -> logs_ok l -> execMsgs l !! c = None -> gather_block depSet OpenBlock inTimestamp c b l = Ok l' ->
  logs_ok l' /\ has_block l' c b /\
  forall c', c' <> c -> logCounts l' !! c' = logCounts l !! c' /\ execMsgs l' !! c' = execMsgs l !! c'.
Proof.
  intros Hty [Hl1 Hl2] Hnone Hg. unfold gather_block, require in Hg. inv_ok.
  destruct a0 as [[bl k] msgs]. destruct (blockSealMatchesRef b bl) eqn:Hm; [| done].
  cbn in Hg. destruct (forallb _ _) eqn:Hf; [| done]. cbn in Hg. injection Hg as <-.
  destruct (Hty _ _ _ _ _ Ha0) as [Hk Hidx].
  assert (forall i m, msgs !! i = Some m -> 0 <= i < k) as Hlt.
  { intros i m Him. split; [by eapply Hidx |]. rewrite forallb_forall in Hf.
    apply Z.ltb_lt, (Hf (i, m)), list_elem_of_In. by apply elem_of_map_to_list. }
  set (l' := mkLogs _ _).
  assert (forall i m, exec_at l' (mkNode c i) = Some m <-> msgs !! i = Some m /\ m_Timestamp m = inTimestamp) as Hat.
  { intros i m. unfold exec_at, l'. cbn. case_decide as He.
    - subst msgs. rewrite Hnone, lookup_empty. cbn. split; [done | by intros []].
    - rewrite lookup_insert_eq, Hnone. cbn. rewrite (right_id_L ∅ (∪)). apply map_lookup_filter_Some. }
  assert (forall c', c' <> c -> logCounts l' !! c' = logCounts l !! c' /\ execMsgs l' !! c' = execMsgs l !! c') as Hne.
  { intros c' Hc. unfold l'. cbn. split; [by rewrite lookup_insert_ne |].
    case_decide; [done | by rewrite lookup_insert_ne]. }
  assert (logCounts l' !! c = Some k) as Hcnt by (unfold l'; cbn; by rewrite lookup_insert_eq).
  clearbody l'.
  unfold blockSealMatchesRef in Hm. apply andb_true_iff in Hm as [Hnum%Z.eqb_eq Hh%bool_decide_eq_true].
  split_and!; [split | | done].
  - intros [cb ib] m Hx. cbn. destruct (decide (cb = c)) as [-> | Hc].
    + apply Hat in Hx as [Hx _]. eauto.
    + unfold exec_at in Hx. cbn in Hx. rewrite (proj2 (Hne _ Hc)) in Hx. rewrite (proj1 (Hne _ Hc)).
      exact (Hl1 (mkNode cb ib) m Hx).
  - intros cb n. destruct (decide (cb = c)) as [-> | Hc].
    + rewrite Hcnt. by intros [= <-].
    + rewrite (proj1 (Hne _ Hc)). apply Hl2.
  - exists a, bl, k, msgs. split_and!; done.
Qed.

Lemma has_block_mono l l' c b :
  logCounts l' !! c = logCounts l !! c -> execMsgs l' !! c = execMsgs l !! c -> has_block l c b -> has_block l' c b.
Proof.
  intros Hc Hx (id & bl & k & msgs & ? & ? & ? & ? & ? & Hat). exists id, bl, k, msgs.
  rewrite Hc. split_and!; try done. intros i m. unfold exec_at in *. cbn in *. rewrite Hx. apply Hat.
Qed.

Lemma gather_blocks_ok blocks l l' :
  open_typed -> logs_ok l -> NoDup blocks.*1 -> (forall c, c ∈ blocks.*1 -> execMsgs l !! c = None) ->
  gather_blocks depSet OpenBlock inTimestamp blocks l = Ok l' ->
  logs_ok l' /\ (forall c b, (c, b) ∈ blocks -> has_block l' c b) /\
  forall c, c ∉ blocks.*1 -> logCounts l' !! c = logCounts l !! c /\ execMsgs l' !! c = execMsgs l !! c.
Proof.
  intros Hty. revert l. induction blocks as [|[c b] blocks IH]; intros l Hl Hnd Hnone Hg; cbn [gather_blocks] in Hg.
  - injection Hg as <-. split_and!; [done | | done]. intros c b Hin. by apply not_elem_of_nil in Hin.
  - apply NoDup_cons in Hnd as [Hc Hnd]. inv_ok.
    destruct (gather_block_ok c b l a Hty Hl) as (Hl' & Hb & Hne); [apply Hnone, elem_of_cons; by left | done |].
    destruct (IH a) as (Hok & Hhas & Hrest); [done | done | | done |].
    + intros c' Hc'. rewrite (proj2 (Hne c' ltac:(by intros ->))). apply Hnone, elem_of_cons. by right.
    + split_and!; [done | |].
      * intros c' b' [[= -> ->] | Hin]%elem_of_cons; [| by apply Hhas].
        destruct (Hrest c Hc) as [? ?]. by eapply has_block_mono.
      * intros c' [Hc1 Hc2]%not_elem_of_cons. destruct (Hrest c' Hc2) as [-> ->]. by apply Hne.
Qed.

Lemma gatherLogs_ok ch hazards l :
  open_typed -> gatherLogs depSet OpenBlock inTimestamp ch hazards = Ok l -> logs_ok l /\ gathered hazards l.
Proof.
  intros Hty Hg. destruct (gather_blocks_ok (range_map ch (Entries hazards)) (mkLogs ∅ ∅) l Hty) as (Hok & Hhas & Hrest); [| | | exact Hg |].
  - split; unfold exec_at; cbn; intros *; by rewrite lookup_empty.
  - apply NoDup_range_map.
  - intros c _. apply lookup_empty.
  - split; [done |]. split.
    + intros c b Hb. by apply Hhas, elem_of_range_map.
    + intros c Hc. destruct (Hrest c) as [-> ->]; [| by split; apply lookup_empty].
      intros ([c' b] & -> & Hin)%list_elem_of_fmap. apply elem_of_range_map in Hin. cbn in Hc. congruence.
Qed.

(** ** The check *)

Lemma buildGraph_messages sch hazards l :
  logs_ok l -> gatherLogs depSet OpenBlock inTimestamp (sch 0) hazards = Ok l ->
  (messages_ok hazards l /\
     exists g N E, buildGraph depSet OpenBlock inTimestamp sch hazards = Ok g /\ rep g N E /\
                   forall a b, (a, b) ∈ E <-> dep_edge l a b) \/
  (~ messages_ok hazards l /\
    (buildGraph depSet OpenBlock inTimestamp sch hazards = Err ErrExecMsgUnknownChain \/
     buildGraph depSet OpenBlock inTimestamp sch hazards = Err ErrConflict)).
Proof.
  intros Hl Hg. unfold buildGraph. rewrite Hg. cbn [mbind outcome_bind]. rewrite add_chains_all.
  set (blocks := range_map (sch 1) (logCounts l)). set (T := flat _ _).
  destruct (add_blocks_inv blocks [] new_graph ∅ []) as (N & E & [Hrep He HN Hd]).
  { apply NoDup_range_map. }
  { apply Forall_forall. intros [c n] Hin. eapply (proj2 Hl), elem_of_range_map, Hin. }
  { split; [apply rep_new | | | cbn; lia]; intros; unfold next_in, in_blocks;
      setoid_rewrite elem_of_nil; set_solver. }
  assert (msgs_inv l [] (fold_left add_block blocks new_graph) N E) as Hinv.
  { split; [done | | |].
    - intros a b. rewrite He. unfold next_in, next_log, msg_edge, blocks. cbn [app]. setoid_rewrite elem_of_range_map.
      split; [by left | intros [? | (t & Ht & _)]; [done | by apply not_elem_of_nil in Ht]].
    - intros a. rewrite HN. unfold in_blocks, blocks. cbn [app]. by setoid_rewrite elem_of_range_map.
    - intros b. specialize (Hd b). lia. }
  assert (forall c i m, (c, i, m) ∈ T <-> exec_at l (mkNode c i) = Some m) as HT.
  { intros c i m. unfold T, exec_at. rewrite elem_of_flat. cbn. setoid_rewrite elem_of_range_map.
    rewrite bind_Some. done. }
  assert (Forall (msg_valid hazards l) T <-> messages_ok hazards l) as Hv.
  { unfold messages_ok. rewrite Forall_forall. split.
    - intros HF [c i] m Hx. apply (HF (c, i, m)). by apply HT.
    - intros HF [[c i] m] Ht. apply HT in Ht. exact (HF (mkNode c i) m Ht). }
  assert (NoDup (target <$> [] ++ T)) as Hnd by (apply NoDup_flat, NoDup_range_map).
  rewrite <- Hv. destruct (decide (Forall (msg_valid hazards l) T)) as [Hm | Hm]; [left | right]; (split; [done |]).
  - destruct (add_all_valid hazards l Hl T [] (fold_left add_block blocks new_graph) N E) as (g' & N' & E' & Hok & [Hrep' He' _ _]); [done | done | | done |].
    + intros c i m. apply HT.
    + exists g', N', E'. split_and!; [done | done |]. intros a b. rewrite He'. unfold dep_edge, executes, msg_edge.
      cbn [app]. split.
      * intros [? | ([[c i] m] & Ht & -> & -> & Hs)]; [by left | right]. apply HT in Ht. eauto.
      * intros [? | [(m & Hx & ->) Hs]]; [by left | right]. destruct b as [c i].
        exists (c, i, m). split_and!; try done. by apply HT.
  - eapply (add_all_invalid hazards l Hl T []); [done | done | | done]. intros c i m. apply HT.
Qed.

Lemma HazardCycleChecks_decides sch ch hazards l :
  open_typed -> gatherLogs depSet OpenBlock inTimestamp (sch 0) hazards = Ok l ->
  let r := HazardCycleChecks depSet OpenBlock inTimestamp sch ch hazards in
  (messages_ok hazards l /\
     (r = Ok () /\ (forall a, ~ tc (dep_edge l) a a) \/ r = Err ErrCycle /\ exists a, tc (dep_edge l) a a)) \/
  (~ messages_ok hazards l /\ (r = Err ErrExecMsgUnknownChain \/ r = Err ErrConflict)).
Proof.
  intros Hty Hg. destruct (gatherLogs_ok _ _ _ Hty Hg) as [Hl _]. unfold HazardCycleChecks.
  destruct (buildGraph_messages sch hazards l Hl Hg) as [(Hm & g & N & E & -> & Hrep & He) | [Hm [-> | ->]]];
    cbn [mbind outcome_bind]; [left; split; [done |] | right; auto..].
  assert (forall a, tc (fun a b => (a, b) ∈ E) a a <-> tc (dep_edge l) a a) as Htc.
  { intros a. split; apply tc_congruence with (f := id); intros x y; apply He. }
  destruct (checkGraph_decides ch g N E Hrep) as [[-> Ha] | [-> [a Ha]]]; [left | right]; split; try done.
  - intros a. rewrite <- Htc. apply Ha.
  - exists a. by apply Htc.
Qed.

End Gather.
