(* ===== verification/HazardProps.v ===== *)
(** Hazard sets: the construction ends, and its result is closed. Every block of
    the set, and the candidate, is the block the database has; its executing
    messages may be executed, their initiating messages exist, are not newer, and
    are cross-valid when older or in a block of the set when of the same time. *)
From Stdlib Require Import ZArith Lia.
From stdpp Require Import base gmap list strings numbers sorting relations.
From S2P Require Import Prelude Rollup Frames Interop Cross CycleProps Codec.

(** ** The static dependency set *)

Definition hydrated (ds : StaticConfigDependencySet) : Prop :=
  exists ch deps window, NewStaticConfigDependencySetWithMessageExpiryOverride ch deps window = Ok ds.

Lemma hydrate_ok deps m ids m' ids' :
  hydrate_ deps m ids = Ok (m', ids') ->
  (forall i c, m' !! i = Some c -> m !! i = Some c \/ exists dep, (c, dep) ∈ deps /\ dep_ChainIndex dep = i) /\
  ids' = ids ++ deps.*1.
Proof.
  revert m ids. induction deps as [|[id dep] deps IH]; intros m ids Hh; cbn [hydrate_] in Hh.
  - injection Hh as <- <-. split; [auto | by rewrite app_nil_r].
  - destruct (m !! dep_ChainIndex dep) eqn:Hm; [done |]. apply IH in Hh as [Hi ->]. split.
    + intros i c Hc. destruct (Hi i c Hc) as [Hc' | (dep' & Hin & ?)]; [| right; exists dep'; set_solver].
      destruct (decide (i = dep_ChainIndex dep)) as [-> | Hne].
      * rewrite lookup_insert_eq in Hc'. injection Hc' as ->. right. exists dep. set_solver.
      * rewrite lookup_insert_ne in Hc' by done. by left.
    + by rewrite <- app_assoc.
Qed.

Lemma hydrated_index ds i c :
  hydrated ds -> ds_indexToID ds !! i = Some c ->
  exists dep, ds_dependencies ds !! c = Some dep /\ dep_ChainIndex dep = i /\ c ∈ ds_chainIDs ds.
Proof.
  intros (ch & deps & w & Hn) Hi. unfold NewStaticConfigDependencySetWithMessageExpiryOverride, hydrate in Hn.
  cbn in Hn. inv_ok. destruct a as [m ids]. injection Hn as <-. cbn in *.
  apply hydrate_ok in Ha as [Hm ->]. destruct (Hm i c Hi) as [Hx | (dep & Hin & Hd)]; [by rewrite lookup_empty in Hx |].
  pose proof Hin as Hdep%elem_of_range_map. exists dep. split_and!; [done | done |].
  unfold SortChainID. rewrite merge_sort_Permutation. apply list_elem_of_fmap. by exists (c, dep).
Qed.

#[export] Instance static_dependency_laws : DependencySetLaws StaticConfigDependencySet hydrated.
Proof.
  split.
  - intros ds i c Hg Hi. cbn in *. unfold ds_ChainIDFromIndex in Hi. destruct (ds_indexToID ds !! i) as [c'|] eqn:Hc; [| done].
    injection Hi as ->. by destruct (hydrated_index ds i c Hg Hc) as (_ & _ & _ & ?).
  - intros ds i j c Hg Hi Hj. cbn in *. unfold ds_ChainIDFromIndex in *.
    destruct (ds_indexToID ds !! i) as [ci|] eqn:Hci; [| done]. destruct (ds_indexToID ds !! j) as [cj|] eqn:Hcj; [| done].
    injection Hi as ->. injection Hj as ->.
    destruct (hydrated_index ds i c Hg Hci) as (d1 & Hd1 & <- & _), (hydrated_index ds j c Hg Hcj) as (d2 & Hd2 & <- & _). congruence.
  - intros ds i e. cbn. unfold ds_ChainIDFromIndex. by destruct (_ !! _).
  - intros ds c t e. cbn. unfold ds_CanExecuteAt. by destruct (_ !! _).
  - intros ds c t e. cbn. unfold ds_CanInitiateAt. by destruct (_ !! _).
Qed.

(** ** What is checked *)

Section Closed.
Context {K : Keccak} {D : Type} `{DependencySet D}.
Variable deps : HazardDeps D.
Abbreviation depSet := (hd_DependencySet deps).

Definition msg_checked (h : HazardSet) (b : BlockSeal) (m : ExecutingMessage) : Prop :=
  exists src incl,
    ChainIDFromIndex depSet (m_Chain m) = Ok src /\ CanInitiateAt depSet src (m_Timestamp m) = Ok true /\
    hd_Contains deps src (message_query src m) = Ok incl /\
    ((m_Timestamp m < s_Timestamp b /\ hd_IsCrossValidBlock deps src (seal_ID incl) = Ok () /\
      s_Timestamp b <= uadd 64 (m_Timestamp m) (MessageExpiryWindow depSet)) \/
     (m_Timestamp m = s_Timestamp b /\
      exists e, Entries h !! m_Chain m = Some e /\ seal_ID e = seal_ID incl)).

Definition block_checked (h : HazardSet) (c : ChainID) (b : BlockSeal) : Prop :=
  exists ref n msgs,
    hd_OpenBlock deps c (s_Number b) = Ok (ref, n, msgs) /\ L1BlockRef_ID ref = seal_ID b /\
    (msgs <> ∅ -> CanExecuteAt depSet c (s_Timestamp b) = Ok true) /\
    forall i m, msgs !! i = Some m -> msg_checked h b m.

Definition grows (h h' : HazardSet) : Prop := forall i b, Entries h !! i = Some b -> Entries h' !! i = Some b.

Lemma msg_checked_grows h h' b m : grows h h' -> msg_checked h b m -> msg_checked h' b m.
Proof.
  intros Hg (src & incl & ? & ? & ? & Hc). exists src, incl. split_and!; try done.
  destruct Hc as [? | (? & e & He & ?)]; [by left | right]. split; [done |]. exists e. split; [by apply Hg | done].
Qed.

Lemma block_checked_grows h h' c b : grows h h' -> block_checked h c b -> block_checked h' c b.
Proof. intros Hg (ref & n & msgs & ? & ? & ? & Hm). exists ref, n, msgs. split_and!; eauto using msg_checked_grows. Qed.

(** The blocks that were added are on the stack, each for a chain that is new. *)
Record extends (h h' : HazardSet) (new : list potentialHazard) : Prop := {
  ex_grows : grows h h';
  ex_new : forall i b, Entries h' !! i = Some b -> Entries h !! i = Some b \/
             exists c, ChainIDFromIndex depSet i = Ok c /\ mkPotentialHazard c b ∈ new;
  ex_size : size (Entries h') = (size (Entries h) + length new)%nat;
}.

Lemma extends_refl h : extends h h [].
Proof. split; [by intros i b | by left | cbn; lia]. Qed.

Lemma extends_trans h1 h2 h3 n1 n2 : extends h1 h2 n1 -> extends h2 h3 n2 -> extends h1 h3 (n1 ++ n2).
Proof.
  intros [Hg1 Hn1 Hs1] [Hg2 Hn2 Hs2]. split.
  - intros i b Hb. by apply Hg2, Hg1.
  - intros i b Hb. destruct (Hn2 i b Hb) as [Hb2 | (c & ? & Hin)].
    + destruct (Hn1 i b Hb2) as [? | (c & ? & Hin)]; [by left | right]. exists c. rewrite elem_of_app. auto.
    + right. exists c. rewrite elem_of_app. auto.
  - rewrite length_app. lia.
Qed.

Lemma chain_of_message_ok i c : chain_of_message depSet i = Ok c -> ChainIDFromIndex depSet i = Ok c.
Proof. unfold chain_of_message. destruct (ChainIDFromIndex depSet i); [done | by destruct (is_err _ _) | done]. Qed.

Lemma process_message_ok b m h stack h' stack' :
  process_message deps b m h stack = Ok (h', stack') ->
  msg_checked h' b m /\ exists new, stack' = stack ++ new /\ extends h h' new.
Proof.
  unfold process_message. intros Hp. apply bind_ok in Hp as (src & Hsrc%chain_of_message_ok & Hp).
  apply bind_ok in Hp as (u & Hinit & Hp). apply bind_ok in Hp as (incl & Hincl & Hp).
  unfold checkChainCanInitiate in Hinit. apply bind_ok in Hinit as (ok & Hinit & Hok). destruct ok; [| done].
  destruct (Z.ltb_spec (m_Timestamp m) (s_Timestamp b)) as [Hlt | Hge].
  - apply bind_ok in Hp as (u' & Hold & Hp). injection Hp as <- <-. unfold checkMessageWithOlderTimestamp in Hold.
    apply bind_ok in Hold as ([] & Hvalid & Hexp).
    destruct (Z.ltb_spec (uadd 64 (m_Timestamp m) (MessageExpiryWindow depSet)) (s_Timestamp b)); [done |].
    split; [| exists []; split; [by rewrite app_nil_r | apply extends_refl]].
    exists src, incl. split_and!; try done. by left.
  - destruct (Z.eqb_spec (m_Timestamp m) (s_Timestamp b)) as [Heq | Hne]; [| done].
    apply bind_ok in Hp as (ex & Hcur & Hp).
    unfold checkMessageWithCurrentTimestamp in Hcur. destruct (h_entries h !! m_Chain m) as [e|] eqn:He.
    + destruct (bool_decide_reflect (seal_ID e = seal_ID incl)) as [Hid |]; [| done]. injection Hcur as <-. injection Hp as <- <-.
      split; [| exists []; split; [by rewrite app_nil_r | apply extends_refl]].
      exists src, incl. split_and!; try done. right. eauto.
    + injection Hcur as <-. injection Hp as <- <-. split.
      * exists src, incl. split_and!; try done. right. split; [done |]. exists incl. cbn. by rewrite lookup_insert_eq.
      * exists [mkPotentialHazard src incl]. split; [done |]. split.
        -- intros i b' Hb. cbn. rewrite lookup_insert_ne; [done |]. intros <-. unfold Entries in Hb. congruence.
        -- intros i b' Hb. cbn in Hb. destruct (decide (i = m_Chain m)) as [-> | Hi].
           ++ rewrite lookup_insert_eq in Hb. injection Hb as <-. right. exists src. split; [done | by apply list_elem_of_singleton].
           ++ rewrite lookup_insert_ne in Hb by done. by left.
        -- cbn. rewrite map_size_insert_None by done. unfold Entries. lia.
Qed.

Lemma process_messages_ok b msgs h stack h' stack' :
  process_messages deps b msgs h stack = Ok (h', stack') ->
  (forall i m, (i, m) ∈ msgs -> msg_checked h' b m) /\ exists new, stack' = stack ++ new /\ extends h h' new.
Proof.
  revert h stack. induction msgs as [|[i m] msgs IH]; intros h stack Hp; cbn [process_messages] in Hp.
  - injection Hp as <- <-. split; [intros i m Hin; by apply not_elem_of_nil in Hin |].
    exists []. split; [by rewrite app_nil_r | apply extends_refl].
  - inv_ok. destruct a as [h1 s1]. apply process_message_ok in Ha as (Hm & n1 & -> & He1).
    apply IH in Hp as (Hms & n2 & -> & He2). split.
    + intros j m' [[= -> ->] | Hin]%elem_of_cons; [| by eapply Hms].
      eapply msg_checked_grows; [apply He2 | done].
    + exists (n1 ++ n2). split; [by rewrite app_assoc | by eapply extends_trans].
Qed.

Lemma process_block_ok ch next h stack h' stack' :
  process_block ch deps next h stack = Ok (h', stack') ->
  block_checked h' (ph_chainID next) (ph_block next) /\ exists new, stack' = stack ++ new /\ extends h h' new.
Proof.
  unfold process_block, require. intros Hp. inv_ok. destruct a as [[ref n] msgs].
  destruct (bool_decide_reflect (L1BlockRef_ID ref = seal_ID (ph_block next))) as [Hid |]; [| done]. cbn in Hp. inv_ok.
  apply process_messages_ok in Hp as (Hms & Hnew). split; [| done].
  exists ref, n, msgs. split_and!; try done.
  - intros Hne. unfold checkChainCanExecute in Ha0. rewrite decide_False in Ha0 by done. inv_ok. by destruct a0.
  - intros i m Hm. apply (Hms i m). by apply elem_of_range_map.
Qed.

(** ** The result is closed *)

Definition covered (h : HazardSet) (stack : list potentialHazard) : Prop :=
  forall i b, Entries h !! i = Some b ->
    exists c, ChainIDFromIndex depSet i = Ok c /\ (mkPotentialHazard c b ∈ stack \/ block_checked h c b).

Lemma build_closed fuel sch h stack h' :
  build fuel sch deps h stack = Ok h' -> covered h stack ->
  grows h h' /\ covered h' [] /\ (forall p, p ∈ stack -> block_checked h' (ph_chainID p) (ph_block p)).
Proof.
  revert h stack. induction fuel as [|fuel IH]; intros h stack Hb Hcov; cbn [build] in Hb;
    destruct (top stack) as [next|] eqn:Htop.
  { done. }
  1, 3: apply top_None in Htop; subst stack; injection Hb as <-; split_and!;
        [by intros i b | done | intros p Hp; by apply not_elem_of_nil in Hp].
  inv_ok. destruct a as [h1 s1]. apply process_block_ok in Ha as (Hchk & new & -> & Hext).
  apply top_pop in Htop.
  destruct (IH h1 (pop stack ++ new) Hb) as (Hg & Hc & Hs).
  { intros i b Hi. destruct (ex_new _ _ _ Hext i b Hi) as [Hold | (c & Hc & Hin)].
    - destruct (Hcov i b Hold) as (c & Hc & [Hin | Hck]); exists c; (split; [done |]).
      + rewrite Htop in Hin. apply elem_of_app in Hin as [? | <-%list_elem_of_singleton].
        * left. rewrite elem_of_app. auto.
        * by right.
      + right. eapply block_checked_grows; [apply Hext | done].
    - exists c. split; [done |]. left. rewrite elem_of_app. auto. }
  split_and!; [| done |].
  - intros i b Hi. by apply Hg, (ex_grows _ _ _ Hext).
  - intros p Hp. rewrite Htop in Hp. apply elem_of_app in Hp as [? | ->%list_elem_of_singleton].
    + apply Hs. rewrite elem_of_app. auto.
    + by eapply block_checked_grows.
Qed.

Lemma NewHazardSet_closed sch c b h :
  NewHazardSet sch deps c b = Ok h ->
  block_checked h c b /\
  forall i b', Entries h !! i = Some b' -> exists c', ChainIDFromIndex depSet i = Ok c' /\ block_checked h c' b'.
Proof.
  intros Hn. destruct (build_closed _ _ _ _ _ Hn) as (_ & Hc & Hs); [intros i b' Hi; cbn in Hi; by rewrite lookup_empty in Hi |].
  split.
  - apply (Hs (mkPotentialHazard c b)). by apply list_elem_of_singleton.
  - intros i b' Hi. destruct (Hc i b' Hi) as (c' & ? & [Hin | ?]); [by apply not_elem_of_nil in Hin |]. eauto.
Qed.

(** ** The construction ends *)

Context {good : D -> Prop} `{DL : !DependencySetLaws D good}.

Definition deps_total : Prop :=
  (forall c q e, hd_Contains deps c q <> Panic e) /\ (forall c b e, hd_IsCrossValidBlock deps c b <> Panic e) /\
  (forall c n e, hd_OpenBlock deps c n <> Panic e).

(** The chains of the set are chains of the dependency set, one index each. *)
Definition indexed (h : HazardSet) : Prop :=
  forall i b, Entries h !! i = Some b -> exists c, ChainIDFromIndex depSet i = Ok c.

Lemma indexed_size h : good depSet -> indexed h -> (size (Entries h) <= length (Chains depSet))%nat.
Proof.
  intros Hg Hidx.
  pose (f := fun i => match ChainIDFromIndex depSet i with Ok c => c | _ => 0 end).
  rewrite <- size_dom. change (size (dom (Entries h))) with (length (elements (dom (Entries h)))).
  rewrite <- (length_fmap f (elements (dom (Entries h)))).
  apply submseteq_length, NoDup_submseteq.
  - apply NoDup_fmap_2_strong; [| apply NoDup_elements].
    intros i j [bi Hi]%elem_of_elements%elem_of_dom [bj Hj]%elem_of_elements%elem_of_dom Hf.
    destruct (Hidx i bi Hi) as [ci Hci], (Hidx j bj Hj) as [cj Hcj]. unfold f in Hf. rewrite Hci, Hcj in Hf. subst cj.
    by eapply index_inj.
  - intros c (i & -> & [b Hi]%elem_of_elements%elem_of_dom)%list_elem_of_fmap.
    destruct (Hidx i b Hi) as [c Hc]. unfold f. rewrite Hc. by eapply index_chain.
Qed.

Definition no_panic {A} (m : outcome A) : Prop := forall e, m <> Panic e.

Lemma no_panic_bind {A B} (m : outcome A) (f : A -> outcome B) :
  no_panic m -> (forall a, no_panic (f a)) -> no_panic (m ≫= f).
Proof. intros Hm Hf e. destruct m; cbn; [apply Hf | done | intros [= ->]; by apply (Hm e)]. Qed.

Lemma process_message_total b m h stack : deps_total -> no_panic (process_message deps b m h stack).
Proof.
  intros (Hc & Hv & Ho). unfold process_message. apply no_panic_bind; [| intros src; apply no_panic_bind; [| intros _; apply no_panic_bind; [| intros incl]]].
  - intros e. unfold chain_of_message. destruct (ChainIDFromIndex depSet (m_Chain m)) eqn:E; [done | by destruct (is_err _ _) |].
    by apply index_total in E.
  - apply no_panic_bind; [intros e; apply initiate_total | by intros []].
  - intros e. apply Hc.
  - destruct (_ <? _).
    + apply no_panic_bind; [| done]. apply no_panic_bind; [intros e; apply Hv |]. intros _. cbv zeta. by case_match.
    + destruct (_ =? _); [| done]. apply no_panic_bind; [| by intros []].
      unfold checkMessageWithCurrentTimestamp. destruct (_ !! _); [by destruct (bool_decide _) | done].
Qed.

Lemma process_block_total ch next h stack : deps_total -> no_panic (process_block ch deps next h stack).
Proof.
  intros Ht. unfold process_block. apply no_panic_bind; [intros e; apply Ht |]. intros [[ref n] msgs].
  apply no_panic_bind; [unfold require; by destruct (bool_decide _) |]. intros _. apply no_panic_bind.
  - unfold checkChainCanExecute. case_decide; [done |]. apply no_panic_bind; [intros e; apply execute_total | by intros []].
  - intros _. generalize (range_map ch msgs). intros l. revert h stack. induction l as [|[i m] l IH]; intros h stack; [done |].
    cbn. apply no_panic_bind; [by apply process_message_total |]. intros []. apply IH.
Qed.

Lemma build_total fuel sch h stack :
  deps_total -> good depSet -> indexed h ->
  (length stack + (length (Chains depSet) - size (Entries h)) <= fuel)%nat -> no_panic (build fuel sch deps h stack).
Proof.
  intros Ht Hg. revert h stack. induction fuel as [|fuel IH]; intros h stack Hidx Hf; cbn [build];
    destruct (top stack) as [next|] eqn:Htop; try done.
  - apply top_pop in Htop. rewrite Htop, length_app in Hf. cbn in Hf. lia.
  - intros e. destruct (process_block (sch fuel) deps next h (pop stack)) as [[h1 s1]|e'|e'] eqn:Hp; cbn; [| done |].
    + apply process_block_ok in Hp as (_ & new & -> & [Hgr Hnew Hsize]).
      assert (indexed h1) as Hidx1.
      { intros i b Hi. destruct (Hnew i b Hi) as [? | (c & ? & _)]; eauto. }
      apply IH; [done |]. pose proof (indexed_size h1 Hg Hidx1). apply top_pop in Htop. rewrite Htop, length_app in Hf.
      rewrite length_app. cbn in Hf. lia.
    + exfalso. by apply (process_block_total _ _ _ _ Ht _ Hp).
Qed.

Lemma NewHazardSet_total sch c b : deps_total -> good depSet -> no_panic (NewHazardSet sch deps c b).
Proof.
  intros Ht Hg. apply build_total; [done | done | |].
  - intros i b' Hi. cbn in Hi. by rewrite lookup_empty in Hi.
  - unfold Entries. cbn [h_entries length]. rewrite map_size_empty. lia.
Qed.

End Closed.

(** What a promotion has checked: a block becomes cross-safe or cross-unsafe after
    every message it depends on was found, the blocks that must be promoted with it
    are at the frontier of their chains, and their messages have no cycle. *)

(** ** Frontiers *)

Lemma frontier_checks_all check entries :
  frontier_checks check entries = Ok () <-> forall i b, (i, b) ∈ entries -> check i b = Ok ().
Proof.
  induction entries as [|[i b] entries IH]; cbn [frontier_checks].
  - split; [| done]. intros _ i b Hin. by apply not_elem_of_nil in Hin.
  - split.
    + intros H. apply bind_ok in H as ([] & Hc & H). rewrite IH in H. intros j b' [[= -> ->] | Hin]%elem_of_cons; [done | by apply H].
    + intros H. rewrite (H i b) by apply elem_of_cons, or_introl, eq_refl. cbn [mbind outcome_bind]. apply IH.
      intros j b' Hin. apply H, elem_of_cons. by right.
Qed.

Section Checked.
Context {K : Keccak} {D S : Type} `{DependencySet D} `{LD : !LogDeps D S}.

(** The hazards of a candidate are complete and none of their logs depends on
    itself; every block among them is in the given frontier. *)
Definition promotable (deps : HazardDeps D) (frontier : ChainID -> BlockSeal -> Prop) (c : ChainID) (b : BlockSeal) : Prop :=
  exists hazards l,
    block_checked deps hazards c b /\
    (forall i b', Entries hazards !! i = Some b' -> exists c',
       ChainIDFromIndex (hd_DependencySet deps) i = Ok c' /\ block_checked deps hazards c' b' /\ frontier c' b') /\
    gathered (hd_DependencySet deps) (hd_OpenBlock deps) (s_Timestamp b) hazards l /\ messages_ok hazards l /\
    forall n, ~ tc (dep_edge l) n n.

(** What the cycle check has established when it succeeds. *)
Lemma cycle_check_ok depSet open t sch ch hazards :
  open_typed open -> HazardCycleChecks (D := D) depSet open t sch ch hazards = Ok () ->
  exists l, gathered depSet open t hazards l /\ messages_ok hazards l /\ forall n, ~ tc (dep_edge l) n n.
Proof.
  intros Ht Hc. pose proof Hc as Hl. unfold HazardCycleChecks, buildGraph in Hl.
  apply bind_ok in Hl as (g & Hl & _). apply bind_ok in Hl as (l & Hl & _). exists l.
  split; [by eapply gatherLogs_ok |].
  destruct (HazardCycleChecks_decides _ _ _ sch ch hazards l Ht Hl) as [[Hm [[_ Ha] | [E _]]] | [_ [E | E]]]; [done |..];
    by rewrite Hc in E.
Qed.

Lemma promotable_intro deps frontier check c b sch fch bch ch hazards :
  open_typed (hd_OpenBlock deps) -> NewHazardSet sch deps c b = Ok hazards ->
  frontier_checks check (range_map fch (Entries hazards)) = Ok () ->
  HazardCycleChecks (hd_DependencySet deps) (hd_OpenBlock deps) (s_Timestamp b) bch ch hazards = Ok () ->
  (forall i c' b', check i b' = Ok () -> ChainIDFromIndex (hd_DependencySet deps) i = Ok c' -> frontier c' b') ->
  promotable deps frontier c b.
Proof.
  intros Ht Hh Hf Hc Hfr. apply NewHazardSet_closed in Hh as [Hb Hcl].
  destruct (cycle_check_ok _ _ _ _ _ _ Ht Hc) as (l & Hg & Hm & Ha).
  exists hazards, l. split_and!; [done | | done..]. intros i b' Hi.
  destruct (Hcl i b' Hi) as (c' & Hc' & Hb'). exists c'. split_and!; [done.. |].
  apply (Hfr i); [| done]. rewrite frontier_checks_all in Hf. by apply Hf, elem_of_range_map.
Qed.

End Checked.

(** ** Cross-safe *)

Section Safe.
Context {K : Keccak} {D S : Type} `{DependencySet D} `{LD : !LogDeps D S} `{CD : !CrossSafeDeps D S}.

(** The block is cross-safe within the scope, or its chain has a candidate within
    the scope that is no other block of the same height. *)
Definition safe_frontier (s : S) (scope : BlockID) (c : ChainID) (b : BlockSeal) : Prop :=
  (exists src, CrossDerivedToSource s c (seal_ID b) = Ok src /\ s_Number src <= b_Number scope) \/
  (CrossDerivedToSource s c (seal_ID b) = Err ErrFuture /\ exists candidate,
     CandidateCrossSafe s c = (candidate, Ok ()) /\ l1_Number (rp_Source candidate) <= b_Number scope /\
     (l1_Number (rp_Derived candidate) = s_Number b -> L1BlockRef_ID (rp_Derived candidate) = seal_ID b)).

Lemma safe_frontier_check_ok s scope i c b :
  safe_frontier_check s scope i b = Ok () -> ChainIDFromIndex (DependencySet_ s) i = Ok c -> safe_frontier s scope c b.
Proof.
  intros Hf Hi. unfold safe_frontier_check, chain_of_message in Hf. rewrite Hi in Hf. cbn [mbind outcome_bind] in Hf.
  unfold safe_frontier. destruct (CrossDerivedToSource s c (seal_ID b)) as [src | e | e]; [| | done].
  - left. exists src. split; [done |]. destruct (Z.ltb_spec (b_Number scope) (s_Number src)); [done | lia].
  - unfold is_err in Hf. case_bool_decide as He; [subst e | done]. right. split; [done |].
    destruct (CandidateCrossSafe s c) as [candidate r]. exists candidate. apply bind_ok in Hf as ([] & -> & Hf).
    destruct (Z.eqb_spec (l1_Number (rp_Derived candidate)) (s_Number b)) as [En | En]; cbn [andb negb] in Hf;
      [destruct (bool_decide_reflect (L1BlockRef_ID (rp_Derived candidate) = seal_ID b)); cbn [negb] in Hf; [| done] |];
      destruct (Z.ltb_spec (b_Number scope) (l1_Number (rp_Source candidate))); try done; split_and!; done || lia.
Qed.

Lemma safe_checks_promotable o c s candidate :
  open_typed (OpenBlock s) -> safe_checks o c s candidate = Ok () ->
  let scope := L1BlockRef_ID (rp_Source candidate) in
  promotable (SafeHazardDeps s scope) (safe_frontier s scope) c (BlockSealFromRef (rp_Derived candidate)).
Proof.
  intros Ht Hc scope. unfold safe_checks in Hc. apply bind_ok in Hc as (hazards & Hh & Hc). apply bind_ok in Hc as ([] & Hf & Hc).
  eapply promotable_intro; [exact Ht | exact Hh | exact Hf | exact Hc |]. intros i c' b' Hb Hi. by eapply safe_frontier_check_ok.
Qed.

(** The candidate of the chain was checked, and handed to the database. *)
Definition promotes (c : ChainID) (s : S) (r : outcome unit) (s' : S) : Prop :=
  exists candidate, CandidateCrossSafe s c = (candidate, Ok ()) /\
    promotable (SafeHazardDeps s (L1BlockRef_ID (rp_Source candidate)))
      (safe_frontier s (L1BlockRef_ID (rp_Source candidate))) c (BlockSealFromRef (rp_Derived candidate)) /\
    UpdateCrossSafe c (rp_Source candidate) (rp_Derived candidate) s = (r, s').

(** The same cross-safe block was handed to the database, with the next L1 block. *)
Definition bumps (c : ChainID) (scope : BlockID) (s : S) (r : outcome unit) (s' : S) : Prop :=
  exists newScope crossSafe ref, NextSource s c scope = Ok newScope /\ CrossSafe s c = Ok crossSafe /\
    BlockSealFromRef ref = sp_Derived crossSafe /\ UpdateCrossSafe c newScope ref s = (r, s').

Lemma scoped_update_cases o c s candidate r s' :
  open_typed (OpenBlock s) -> scopedCrossSafeUpdate o c s = (candidate, r, s') ->
  candidate = (CandidateCrossSafe s c).1 /\ (promotes c s r s' \/ r <> Ok () /\ s' = s).
Proof.
  intros Ht Hu. unfold scopedCrossSafeUpdate in Hu. destruct (CandidateCrossSafe s c) as [cand err] eqn:Ec.
  destruct (_ ← err; safe_checks o c s cand) as [[] | e | e] eqn:E; [| simplify_eq; split; [done | by right]..].
  destruct (UpdateCrossSafe _ _ _ _) as [r0 s0] eqn:Eu. simplify_eq. split; [done |]. left. exists candidate.
  apply bind_ok in E as ([] & -> & Hc). split_and!; [done | by eapply safe_checks_promotable | done].
Qed.

Lemma bump_scope_cases c candidate s r s' :
  bump_scope c candidate s = (r, s') ->
  bumps c (L1BlockRef_ID (rp_Source candidate)) s r s' \/ r <> Ok () /\ s' = s.
Proof.
  unfold bump_scope. destruct (_ ← NextSource _ _ _; _) as [[n ref] | e | e] eqn:E; intros Hu; [left | simplify_eq; by right..].
  apply bind_ok in E as (n' & Hn & E). apply bind_ok in E as (cs & Hcs & E). apply bind_ok in E as (parent & _ & E).
  apply bind_ok in E as (ref' & Hm & [= <- <-]). exists n', cs, ref'. split_and!; [done.. | | done].
  unfold MustWithParent, WithParent in Hm. destruct (_ && _); [done |]. simplify_eq. by destruct (sp_Derived cs).
Qed.

Lemma cross_safe_cases o c s r s' :
  open_typed (OpenBlock s) -> CrossSafeUpdate o c s = (r, s') ->
  let candidate := (CandidateCrossSafe s c).1 in
  exists r1 s1, (promotes c s r1 s1 \/ r1 <> Ok () /\ s1 = s) /\
    ((r = r1 /\ s' = s1) \/
     (r1 = Err ErrConflict /\ InvalidateLocalSafe c candidate s1 = (r, s')) \/
     (r1 = Err ErrOutOfScope /\ (bumps c (L1BlockRef_ID (rp_Source candidate)) s1 r s' \/ r <> Ok () /\ s' = s1))).
Proof.
  intros Ht Hu. unfold CrossSafeUpdate in Hu. destruct (scopedCrossSafeUpdate o c s) as [[cand r1] s1] eqn:E.
  apply scoped_update_cases in E as [-> Hs]; [| done]. exists r1, s1. split; [done |].
  destruct r1 as [[] | e | e]; simplify_eq; auto. unfold is_err in Hu.
  destruct (bool_decide_reflect (e = ErrAwaitReplacementBlock)); [simplify_eq; auto |].
  destruct (bool_decide_reflect (e = ErrConflict)) as [He |]; [subst e; right; left; auto |].
  destruct (bool_decide_reflect (e = ErrOutOfScope)) as [He |]; cbn [negb] in Hu; [subst e | simplify_eq; auto].
  destruct (bool_decide _); [simplify_eq; auto |]. right. right. split; [done |]. by apply bump_scope_cases.
Qed.

End Safe.

(** ** Cross-unsafe *)

Section Unsafe.
Context {K : Keccak} {D S : Type} `{DependencySet D} `{LD : !LogDeps D S} `{CD : !CrossUnsafeDeps D S}.

(** The block is cross-unsafe, or it is known and its parent is cross-unsafe. *)
Definition unsafe_frontier (s : S) (c : ChainID) (b : BlockSeal) : Prop :=
  IsCrossUnsafe s c (seal_ID b) = Ok () \/
  (IsCrossUnsafe s c (seal_ID b) = Err ErrFuture /\ IsLocalUnsafe s c (seal_ID b) = Ok () /\
   (0 < s_Number b -> exists parent, FindBlockID s c (s_Number b - 1) = Ok parent /\ IsCrossUnsafe s c parent = Ok ())).

Lemma unsafe_frontier_check_ok s i c b :
  unsafe_frontier_check s i b = Ok () -> ChainIDFromIndex (DependencySet_ s) i = Ok c -> unsafe_frontier s c b.
Proof.
  intros Hf Hi. unfold unsafe_frontier_check, chain_of_message in Hf. rewrite Hi in Hf. cbn [mbind outcome_bind] in Hf.
  unfold unsafe_frontier. destruct (IsCrossUnsafe s c (seal_ID b)) as [[] | e | e]; [by left | | done].
  unfold is_err in Hf. case_bool_decide as He; [subst e | done]. right. split; [done |].
  apply bind_ok in Hf as ([] & -> & Hf). split; [done |]. intros Hn.
  destruct (Z.ltb_spec 0 (s_Number b)); [| lia]. apply bind_ok in Hf as (parent & Hp & Hf). eauto.
Qed.

Lemma unsafe_checks_promotable o c s b :
  open_typed (OpenBlock s) -> unsafe_checks o c s b = Ok () -> promotable (UnsafeHazardDeps s) (unsafe_frontier s) c b.
Proof.
  intros Ht Hc. unfold unsafe_checks in Hc. apply bind_ok in Hc as (hazards & Hh & Hc). apply bind_ok in Hc as ([] & Hf & Hc).
  eapply promotable_intro; [exact Ht | exact Hh | exact Hf | exact Hc |]. intros i c' b' Hb Hi. by eapply unsafe_frontier_check_ok.
Qed.

Lemma cross_unsafe_cases o c s r s' :
  open_typed (OpenBlock s) -> CrossUnsafeUpdate o c s = (r, s') ->
  s' = s \/
  exists head b ref n msgs, CrossUnsafe s c = Ok head /\
    OpenBlock s c (uadd 64 (s_Number head) 1) = Ok (ref, n, msgs) /\ l1_ParentHash ref = s_Hash head /\ b = BlockSealFromRef ref /\
    promotable (UnsafeHazardDeps s) (unsafe_frontier s) c b /\ UpdateCrossUnsafe c b s = (r, s').
Proof.
  intros Ht Hu. unfold CrossUnsafeUpdate in Hu. destruct (CrossUnsafe s c) as [head | e | e].
  2: { left. destruct (is_err e ErrFuture); by simplify_eq. }
  2: { left. by simplify_eq. }
  destruct (_ ← unsafe_candidate _ _ _; _) as [b | e | e] eqn:E; [right | simplify_eq; by left..].
  apply bind_ok in E as (b' & Hb & E). apply bind_ok in E as ([] & Hc & [= ->]).
  unfold unsafe_candidate in Hb. apply bind_ok in Hb as ([[ref n] msgs] & Ho & Hb).
  destruct (bool_decide_reflect (l1_ParentHash ref = s_Hash head)); cbn [negb] in Hb; [| done]. injection Hb as <-.
  exists head, (BlockSealFromRef ref), ref, n, msgs. split_and!; try done. by eapply unsafe_checks_promotable.
Qed.

End Unsafe.
