(* ===== verification/AccessProps.v ===== *)
(** Access lists survive their encoding, and an executing descriptor is accepted
    when the whole span of its execution is in the window, without overflow. *)
From Stdlib Require Import ZArith Lia.
From stdpp Require Import base gmap list strings numbers.
From S2P Require Import Prelude Codec Rollup Interop.

Definition access_ok (acc : Access) : Prop :=
  in_range 64 (a_BlockNumber acc) /\ in_range 64 (a_Timestamp acc) /\ in_range 32 (a_LogIndex acc) /\
  in_range 256 (a_ChainID acc) /\ length (a_Checksum acc) = 32%nat /\ a_Checksum acc !! 0%nat = Some PrefixChecksum.

Ltac field_of :=
  repeat (rewrite slice_skip; [| unfold zlen; rewrite ?length_be_encode; cbn; lia]);
  match goal with |- slice ?a ?b (?x ++ ?y) = _ =>
    replace a with 0 by (unfold zlen; rewrite ?length_be_encode; cbn; lia)
  end;
  apply slice_all; unfold zlen; rewrite ?length_be_encode; cbn; lia.

Lemma lookup_entry_fields acc :
  slice 4 12 (lookupEntry acc) = be_encode 8 (lower_Uint64 (a_ChainID acc)) /\
  slice 12 20 (lookupEntry acc) = be_encode 8 (a_BlockNumber acc) /\
  slice 20 28 (lookupEntry acc) = be_encode 8 (a_Timestamp acc) /\
  slice 28 32 (lookupEntry acc) = be_encode 4 (a_LogIndex acc).
Proof.
  unfold lookupEntry. rewrite <- (app_nil_r (be_encode 4 _)). split_and!; field_of.
Qed.

Lemma drop_be_encode n k x : drop n (be_encode (n + k) x) = be_encode k x.
Proof. induction n as [|n IH]; [done |]. cbn [Nat.add be_encode drop]. exact IH. Qed.

Lemma be_encode_wrap n x : 0 <= x -> be_encode n (wrap (8 * Z.of_nat n) x) = be_encode n x.
Proof.
  intros Hx. rewrite <- (be_encode_shift n (x / 2 ^ (8 * Z.of_nat n))) by (apply Z.div_pos; [done | apply Z.pow_pos_nonneg; lia]).
  f_equal. unfold wrap. rewrite Z.add_comm, Z.mul_comm. symmetry. apply Z.div_mod. apply Z.pow_nonzero; lia.
Qed.

(** The upper 24 bytes of a chain id over the bytes of its lower 64 bits. *)
Lemma chain_id_extension id :
  in_range 256 id -> ChainIDFromBytes32 (splice 0 (slice 0 24 (Bytes32 id)) (Bytes32 (wrap 64 id))) = id.
Proof.
  intros Hid. unfold ChainIDFromBytes32, splice, slice.
  change (Z.to_nat (24 - 0)) with 24%nat. change (Z.to_nat 0) with 0%nat.
  rewrite drop_0, take_0, length_take_le by (unfold Bytes32; rewrite length_be_encode; lia). cbn [app Nat.add].
  assert (drop 24 (Bytes32 (wrap 64 id)) = drop 24 (Bytes32 id)) as ->.
  { unfold Bytes32. rewrite !(drop_be_encode 24 8). apply (be_encode_wrap 8). unfold in_range in *. lia. }
  rewrite take_drop. unfold Bytes32. rewrite be_decode_encode. by apply wrap_small.
Qed.

Lemma extension_field acc : slice 8 32 (chainIDExtensionEntry acc) = slice 0 24 (Bytes32 (a_ChainID acc)).
Proof.
  unfold chainIDExtensionEntry. set (up := slice 0 24 _).
  assert (zlen up = 24) as Hup by (unfold up, zlen, slice, Bytes32; rewrite length_take, length_drop, length_be_encode; reflexivity).
  rewrite <- (app_nil_r up) at 1. by apply slice_app.
Qed.

(** ** Round trip *)

Lemma ParseAccess_encode acc es rest :
  access_ok acc -> encode_access acc = Ok es -> ParseAccess (es ++ rest) = Ok (rest, acc).
Proof.
  intros (Hb & Ht & Hl & Hc & Hlen & Hpre) He. unfold encode_access in He.
  assert (byte_at 0 (a_Checksum acc) = PrefixChecksum) as Hck by (unfold byte_at; by rewrite Hpre).
  rewrite Hck in He. injection He as <-. destruct (lookup_entry_fields acc) as (E1 & E2 & E3 & E4).
  unfold ParseAccess, next_entry. cbn [app mbind outcome_bind].
  change (byte_at 0 (lookupEntry acc) =? PrefixLookup) with true.
  change (slice 1 4 (lookupEntry acc)) with (replicate 3 0). rewrite bool_decide_true by done. cbn [require mbind outcome_bind].
  rewrite E1, E2, E3, E4, !be_decode_encode.
  rewrite (wrap_small (8 * Z.of_nat 8) (a_BlockNumber acc)), (wrap_small (8 * Z.of_nat 8) (a_Timestamp acc)),
    (wrap_small (8 * Z.of_nat 4) (a_LogIndex acc)) by done.
  unfold lower_Uint64. rewrite (wrap_small (8 * Z.of_nat 8) (wrap 64 _)) by (apply wrap_range; lia). unfold IsUint64.
  destruct (Z.ltb_spec (a_ChainID acc) (2 ^ 64)) as [Hs | Hs]; cbn [app mbind outcome_bind].
  - rewrite Hck. change (PrefixChecksum =? PrefixChainIDExtension) with false. cbn [mbind outcome_bind].
    rewrite Hck. change (PrefixChecksum =? PrefixChecksum) with true. cbn [require mbind outcome_bind].
    do 2 f_equal. unfold set_checksum, ChainIDFromUInt64. cbn. rewrite wrap_small by (unfold in_range in *; lia). by destruct acc.
  - change (byte_at 0 (chainIDExtensionEntry acc) =? PrefixChainIDExtension) with true. cbn [mbind outcome_bind].
    change (slice 1 8 (chainIDExtensionEntry acc)) with (replicate 7 0). rewrite bool_decide_true by done.
    cbn [require mbind outcome_bind]. rewrite Hck. change (PrefixChecksum =? PrefixChecksum) with true.
    cbn [require mbind outcome_bind]. rewrite extension_field. unfold ChainIDFromUInt64. cbn [a_ChainID].
    rewrite chain_id_extension by done. do 2 f_equal. unfold set_checksum, set_chain_id. cbn. by destruct acc.
Qed.

Lemma encode_access_length acc es : encode_access acc = Ok es -> (2 <= length es)%nat.
Proof. unfold encode_access. destruct (negb _); [done |]. intros [= <-]. cbn. rewrite length_app. cbn. lia. Qed.

Lemma access_list_roundtrip accs fuel :
  Forall access_ok accs -> (length accs <= fuel)%nat ->
  exists es, EncodeAccessList accs = Ok es /\ parse_access_list fuel es = Ok accs.
Proof.
  intros Hok. revert fuel. induction Hok as [|acc accs Ha Hok IH]; intros fuel Hf; cbn [EncodeAccessList].
  - exists []. by destruct fuel.
  - destruct fuel as [|fuel]; cbn in Hf; [lia |]. destruct (IH fuel) as (es' & -> & Hp); [lia |].
    assert (exists es, encode_access acc = Ok es) as [es He].
    { unfold encode_access, byte_at. destruct Ha as (_ & _ & _ & _ & _ & ->). cbn. eauto. }
    rewrite He. cbn [mbind outcome_bind]. eexists. split; [reflexivity |].
    pose proof (ParseAccess_encode acc es es' Ha He) as Hparse. pose proof (encode_access_length _ _ He) as Hlen.
    destruct es as [|e es]; [cbn in Hlen; lia |]. cbn [app parse_access_list] in *. rewrite Hparse. cbn. by rewrite Hp.
Qed.

(** ** Executing descriptors *)

Lemma AccessCheck_spec ed w init :
  in_range 64 (ed_Timestamp ed) -> in_range 64 (ed_Timeout ed) -> in_range 64 w -> in_range 64 init ->
  AccessCheck ed w init = Ok () <->
  init < ed_Timestamp ed /\ ed_Timestamp ed + ed_Timeout ed <= init + w < 2 ^ 64.
Proof.
  intros Hts Hto Hw Hi. unfold AccessCheck, uadd, wrap, in_range in *.
  assert (forall x y, 0 <= x < 2 ^ 64 -> 0 <= y < 2 ^ 64 ->
            (x + y) mod 2 ^ 64 = x + y /\ x + y < 2 ^ 64 \/ (x + y) mod 2 ^ 64 = x + y - 2 ^ 64 /\ 2 ^ 64 <= x + y) as Hadd.
  { intros x y Hx Hy. destruct (Z_lt_dec (x + y) (2 ^ 64)); [left | right]; (split; [| lia]).
    - apply Z.mod_small. lia.
    - symmetry. apply (Z.mod_unique _ _ 1); lia. }
  destruct (Hadd init w) as [[-> ?] | [-> ?]]; [done.. | |];
    destruct (Hadd (ed_Timestamp ed) (ed_Timeout ed)) as [[-> ?] | [-> ?]]; try done;
    repeat match goal with |- context [?a <? ?b] => destruct (Z.ltb_spec a b) | |- context [?a =? ?b] => destruct (Z.eqb_spec a b) end;
    split; intros; try done; lia.
Qed.
