(* ===== verification/EntryDB.v ===== *)
(** Stores of fixed-size entries (op-supervisor/supervisor/backend/db/entrydb):
    the store of a file (entry_db.go) and the one in memory (memdb.go). The file
    is its bytes and a script of faults, one per write or truncation: a write can
    fail after some bytes, a truncation can fail. Offsets are [int64]; the model
    leaves out files beyond 2^63 bytes. *)
From Stdlib Require Import ZArith Lia.
From stdpp Require Import base list strings numbers.
From S2P Require Import Prelude Frames.

(** ** The interface *)

Class EntryStore (E S : Type) : Type := {
  store_Size : S -> Z;
  store_LastEntryIdx : S -> Z;
  store_Read : S -> Z -> outcome E;
  store_Append : list E -> stage S unit;
  store_Truncate : Z -> stage S unit;
}.

Arguments store_Size {E S _}.
Arguments store_LastEntryIdx {E S _}.
Arguments store_Truncate {E S _}.

(** What the databases rely on: a store is a list of entries; a failed operation
    does not change it. *)
Class EntryStoreLaws (E S : Type) `{EntryStore E S} (entry_ok : E -> Prop) (contents : S -> list E)
    (good : S -> Prop) : Prop := {
  size_law : forall s, good s -> store_Size s = zlen (contents s);
  last_law : forall s, good s -> store_LastEntryIdx s = zlen (contents s) - 1;
  read_law : forall s i, good s -> 0 <= i ->
    store_Read s i = match contents s !! Z.to_nat i with Some e => Ok e | None => Err EOF end;
  contents_ok : forall s, good s -> Forall entry_ok (contents s);
  append_law : forall s es, good s -> Forall entry_ok es ->
    let '(r, s') := store_Append es s in
    good s' /\ ((r = Ok () /\ contents s' = contents s ++ es) \/ ((exists e, r = Err e) /\ contents s' = contents s));
  truncate_law : forall s i, good s -> -1 <= i < zlen (contents s) ->
    let '(r, s') := store_Truncate i s in
    good s' /\ ((r = Ok () /\ contents s' = take (Z.to_nat (i + 1)) (contents s)) \/
                ((exists e, r = Err e) /\ contents s' = contents s));
}.

(** ** In memory (memdb.go) *)

Module Mem.

Record MemEntryStore (E : Type) : Type := mkMem { entries : list E }.
Arguments mkMem {E} entries.
Arguments entries {E} _.

Section Mem.
Context {E : Type}.

Definition mem_Size (s : MemEntryStore E) : Z := zlen (entries s).
Definition mem_LastEntryIdx (s : MemEntryStore E) : Z := mem_Size s - 1.

Definition mem_Read (s : MemEntryStore E) (idx : Z) : outcome E :=
  if idx <? zlen (entries s) then
    if idx <? 0 then Panic "index out of range"
    else match entries s !! Z.to_nat idx with
         | Some e => Ok e
         | None => Panic "index out of range"
         end
  else Err EOF.

Definition mem_Append (es : list E) : stage (MemEntryStore E) unit := fun s =>
  (Ok (), mkMem (entries s ++ es)).

Definition mem_Truncate (idx : Z) : stage (MemEntryStore E) unit := fun s =>
  let n := Z.min (mem_Size s - 1) (idx + 1) in
  if n <? 0 then (Panic "slice bounds out of range", s)
  else (Ok (), mkMem (take (Z.to_nat n) (entries s))).

End Mem.

#[export] Instance mem_store E : EntryStore E (MemEntryStore E) := {|
  store_Size := mem_Size;
  store_LastEntryIdx := mem_LastEntryIdx;
  store_Read := mem_Read;
  store_Append := mem_Append;
  store_Truncate := mem_Truncate;
|}.

End Mem.

(** ** In a file (entry_db.go) *)

Module File.

(** The file of [dataAccess]: [Some n] fails the next operation, a write after
    [n] bytes; a script that has ended does not fail. *)
Record file : Type := mkFile {
  f_bytes : list Z;
  f_faults : list (option Z);
}.

Definition next_fault (f : file) : option Z * list (option Z) :=
  match f_faults f with
  | [] => (None, [])
  | x :: fs => (x, fs)
  end.

(** The number of bytes written, and whether all of them were. *)
Definition file_Write (bs : list Z) (f : file) : Z * bool * file :=
  match next_fault f with
  | (None, fs) => (zlen bs, true, mkFile (f_bytes f ++ bs) fs)
  | (Some n, fs) =>
      let n := Z.max 0 (Z.min n (zlen bs)) in
      (n, false, mkFile (f_bytes f ++ take (Z.to_nat n) bs) fs)
  end.

(** A file that is too short is filled with zeros. *)
Definition file_Truncate (size : Z) (f : file) : bool * file :=
  match next_fault f with
  | (None, fs) => (true, mkFile (take (Z.to_nat size) (f_bytes f) ++
                                 replicate (Z.to_nat size - length (f_bytes f)) 0) fs)
  | (Some _, fs) => (false, mkFile (f_bytes f) fs)
  end.

Record EntryDB : Type := mkEntryDB {
  data : file;
  lastEntryIdx : Z;
  cleanupFailedWrite : bool;
}.

Section File.
Variable EntrySize : Z.

Definition db_Size (e : EntryDB) : Z := lastEntryIdx e + 1.
Definition db_LastEntryIdx (e : EntryDB) : Z := lastEntryIdx e.

Definition recover (e : EntryDB) : bool * EntryDB :=
  let '(ok, f) := file_Truncate (db_Size e * EntrySize) (data e) in
  (ok, mkEntryDB f (lastEntryIdx e) (cleanupFailedWrite e)).

Definition NewEntryDB (f : file) : outcome EntryDB :=
  let size := zlen (f_bytes f) / EntrySize in
  let db := mkEntryDB f (size - 1) false in
  if size * EntrySize =? zlen (f_bytes f) then Ok db
  else match recover db with
       | (true, db) => Ok db
       | (false, _) => Err "failed to recover database"
       end.

Definition db_Read (e : EntryDB) (idx : Z) : outcome (list Z) :=
  if lastEntryIdx e <? idx then Err EOF
  else
    let at_ := idx * EntrySize in
    let out := slice at_ (at_ + EntrySize) (f_bytes (data e)) in
    if (at_ <? 0) || negb (zlen out =? EntrySize) then Err "failed to read entry" else Ok out.

Definition db_Truncate (idx : Z) : stage EntryDB unit := fun e =>
  match file_Truncate ((idx + 1) * EntrySize) (data e) with
  | (false, f) => (Err "failed to truncate to entry", mkEntryDB f (lastEntryIdx e) (cleanupFailedWrite e))
  | (true, f) => (Ok (), mkEntryDB f idx false)
  end.

(** The write and what follows a failure of it. *)
Definition append_data (entries : list (list Z)) : stage EntryDB unit := fun e =>
  match file_Write (concat entries) (data e) with
  | (_, true, f) => (Ok (), mkEntryDB f (lastEntryIdx e + zlen entries) (cleanupFailedWrite e))
  | (n, false, f) =>
      let e := mkEntryDB f (lastEntryIdx e) (cleanupFailedWrite e) in
      if n =? 0 then (Err "failed write", e)
      else
        match db_Truncate (lastEntryIdx e) e with
        | (Ok _, e) => (Err "failed write", e)
        | (_, e) => (Err "failed to remove partially written data", mkEntryDB (data e) (lastEntryIdx e) true)
        end
  end.

Definition db_Append (entries : list (list Z)) : stage EntryDB unit := fun e =>
  if cleanupFailedWrite e then
    match db_Truncate (lastEntryIdx e) e with
    | (Ok _, e) => append_data entries e
    | (_, e) => (Err "failed to recover from previous write error", e)
    end
  else append_data entries e.

Definition file_store : EntryStore (list Z) EntryDB := {|
  store_Size := db_Size;
  store_LastEntryIdx := db_LastEntryIdx;
  store_Read := db_Read;
  store_Append := db_Append;
  store_Truncate := db_Truncate;
|}.

End File.
End File.

(** The store of a file is a list of entries whatever writes and truncations
    fail: what is left behind by a failed write is never read, and it is removed
    before the next write. *)

Import File.

Section Props.
Variable EntrySize : Z.
Hypothesis Hsize : 0 < EntrySize.

Definition entry_sized (e : list Z) : Prop := zlen e = EntrySize.

(** The entries of the store: chunks of the file. *)
Definition chunk (f : list Z) (i : nat) : list Z := slice (Z.of_nat i * EntrySize) (Z.of_nat i * EntrySize + EntrySize) f.
Definition db_contents (e : EntryDB) : list (list Z) :=
  chunk (f_bytes (data e)) <$> seq 0 (Z.to_nat (db_Size e)).

(** The file holds the entries, and nothing else unless it waits for a cleanup. *)
Definition db_good (e : EntryDB) : Prop :=
  -1 <= lastEntryIdx e /\ db_Size e * EntrySize <= zlen (f_bytes (data e)) /\
  (cleanupFailedWrite e = false -> db_Size e * EntrySize = zlen (f_bytes (data e))).

Lemma length_contents e : length (db_contents e) = Z.to_nat (db_Size e).
Proof. unfold db_contents. by rewrite length_fmap, length_seq. Qed.

Lemma chunk_app f g i : (Z.of_nat i + 1) * EntrySize <= zlen f -> chunk (f ++ g) i = chunk f i.
Proof.
  intros Hle. unfold chunk, slice, zlen in *. rewrite drop_app_le by nia. rewrite take_app_le; [done |].
  rewrite length_drop. nia.
Qed.

Lemma chunk_take f n i : (Z.of_nat i + 1) * EntrySize <= n -> chunk (take (Z.to_nat n) f) i = chunk f i.
Proof.
  intros Hle. unfold chunk, slice. rewrite skipn_firstn_comm, take_take. f_equal. nia.
Qed.

Lemma chunk_sized f i : (Z.of_nat i + 1) * EntrySize <= zlen f -> entry_sized (chunk f i).
Proof. intros Hle. unfold entry_sized, chunk, zlen, slice in *. rewrite length_take, length_drop. nia. Qed.

(** The chunks of entries written after the file. *)
Lemma chunk_concat f es i :
  Forall entry_sized es -> zlen f = Z.of_nat i * EntrySize ->
  chunk (f ++ concat es) <$> seq i (length es) = es.
Proof.
  intros Hes. revert f i. induction Hes as [|e es He Hes IH]; intros f i Hf; [done |].
  cbn [length seq fmap list_fmap concat]. f_equal.
  - unfold chunk, slice, entry_sized, zlen in *. rewrite drop_app_ge by lia.
    replace (Z.to_nat (Z.of_nat i * EntrySize) - length f)%nat with 0%nat by lia. rewrite drop_0.
    rewrite take_app_le by lia. apply take_ge. lia.
  - rewrite app_assoc. apply IH. unfold entry_sized, zlen in *. rewrite length_app. lia.
Qed.

Lemma contents_prefix e f' last' c :
  -1 <= last' -> (forall i, (i < Z.to_nat (last' + 1))%nat -> chunk f' i = chunk (f_bytes (data e)) i) ->
  last' <= lastEntryIdx e ->
  db_contents (mkEntryDB (mkFile f' c) last' false) = take (Z.to_nat (last' + 1)) (db_contents e).
Proof.
  intros Hlast Hch Hle. unfold db_contents, db_Size. cbn [data f_bytes lastEntryIdx].
  rewrite <- fmap_take, take_seq, Nat.min_l by lia.
  apply list_fmap_ext. intros k i Hk. apply lookup_seq in Hk as [-> ?]. apply Hch. lia.
Qed.

(** Truncation of a store. *)
Lemma truncate_spec e i :
  db_good e -> -1 <= i <= lastEntryIdx e ->
  let '(r, e') := db_Truncate EntrySize i e in
  db_good e' /\
  ((r = Ok () /\ db_contents e' = take (Z.to_nat (i + 1)) (db_contents e) /\ lastEntryIdx e' = i /\
    cleanupFailedWrite e' = false) \/
   ((exists x, r = Err x) /\ db_contents e' = db_contents e /\ lastEntryIdx e' = lastEntryIdx e /\
    cleanupFailedWrite e' = cleanupFailedWrite e)).
Proof.
  intros (Hl & Hb & Hc) Hi. unfold db_Truncate, file_Truncate, next_fault, db_Size in *.
  set (fs := f_faults (data e)).
  assert (forall fs, let e' := mkEntryDB (mkFile (f_bytes (data e)) fs) (lastEntryIdx e) (cleanupFailedWrite e) in
            db_good e' /\ db_contents e' = db_contents e) as Hsame by (intros; split; done).
  assert (forall fs, let e' := mkEntryDB (mkFile (take (Z.to_nat ((i + 1) * EntrySize)) (f_bytes (data e)) ++
               replicate (Z.to_nat ((i + 1) * EntrySize) - length (f_bytes (data e))) 0) fs) i false in
            db_good e' /\ db_contents e' = take (Z.to_nat (i + 1)) (db_contents e)) as Hcut.
  { intros fs'. unfold zlen in Hb.
    replace (Z.to_nat ((i + 1) * EntrySize) - length (f_bytes (data e)))%nat with 0%nat by nia.
    cbn [replicate]. rewrite app_nil_r. split.
    - unfold db_good, db_Size, zlen. cbn. rewrite length_take. nia.
    - apply contents_prefix; [lia | | lia]. intros j Hj. apply chunk_take. nia. }
  destruct fs as [|[n|] fs']; (split; [by apply Hcut || by apply Hsame |]).
  1, 3: left; split_and!; try done; by apply Hcut.
  right. split_and!; try done. eauto.
Qed.

Lemma append_data_spec e es :
  db_good e -> cleanupFailedWrite e = false -> Forall entry_sized es ->
  let '(r, e') := append_data EntrySize es e in
  db_good e' /\ ((r = Ok () /\ db_contents e' = db_contents e ++ es) \/
                 ((exists x, r = Err x) /\ db_contents e' = db_contents e)).
Proof.
  intros Hg Hcl Hes. pose proof Hg as (Hl & Hb & Hc). specialize (Hc Hcl).
  assert (zlen (concat es) = zlen es * EntrySize) as Hlen.
  { clear -Hes. induction Hes as [|x es Hx _ IH]; [done |]. unfold zlen, entry_sized, zlen in *. cbn. rewrite length_app. lia. }
  assert (forall g fs, let e' := mkEntryDB (mkFile (f_bytes (data e) ++ g) fs) (lastEntryIdx e) true in
            db_good e' /\ db_contents e' = db_contents e) as Hpart.
  { intros g fs. split.
    - unfold db_good, db_Size, zlen in *. cbn. rewrite length_app. split_and!; [lia | lia | done].
    - unfold db_contents, db_Size. cbn. apply list_fmap_ext. intros k i Hk.
      apply lookup_seq in Hk as [-> ?]. apply chunk_app. unfold db_Size in *. nia. }
  unfold append_data, file_Write. destruct (next_fault (data e)) as [[n|] fs].
  - set (n' := Z.max 0 (Z.min n (zlen (concat es)))). cbn [lastEntryIdx cleanupFailedWrite].
    destruct (Z.eqb_spec n' 0) as [Hn0 | Hn0].
    + rewrite Hn0. cbn [Z.to_nat take]. rewrite app_nil_r. split; [done |]. right. split; [eauto | done].
    + set (part := take (Z.to_nat n') (concat es)).
      assert (db_good (mkEntryDB (mkFile (f_bytes (data e) ++ part) fs) (lastEntryIdx e) true)) as Hg' by apply Hpart.
      rewrite Hcl. unfold db_Truncate. cbn [data lastEntryIdx cleanupFailedWrite].
      pose proof (truncate_spec _ (lastEntryIdx e) Hg') as Ht. cbn [lastEntryIdx] in Ht.
      specialize (Ht ltac:(lia)). unfold db_Truncate in Ht. cbn [data lastEntryIdx cleanupFailedWrite] in Ht.
      destruct (file_Truncate _ _) as [[] f'] eqn:Hf.
      * destruct Ht as [Hgood [(_ & Hcont & _) | ([x Hx] & _)]]; [| done]. split; [done |]. right. split; [eauto |].
        rewrite Hcont. destruct (Hpart part fs) as [_ ->]. rewrite take_ge; [done |].
        rewrite length_contents. unfold db_Size. lia.
      * destruct Ht as [Hgood [(Hx & _) | (_ & Hcont & _)]]; [done |]. split; [done |]. right. split; [eauto |].
        cbn [data lastEntryIdx]. rewrite Hcont. apply Hpart.
  - split.
    + unfold db_good, db_Size, zlen in *. cbn. rewrite length_app.
      assert ((lastEntryIdx e + Z.of_nat (length es) + 1) * EntrySize =
              (lastEntryIdx e + 1) * EntrySize + Z.of_nat (length es) * EntrySize) by ring.
      split_and!; [lia | lia |]. intros _. lia.
    + left. split; [done |]. unfold db_contents, db_Size. cbn.
      replace (Z.to_nat (lastEntryIdx e + zlen es + 1)) with (Z.to_nat (lastEntryIdx e + 1) + length es)%nat
        by (unfold zlen; lia).
      rewrite seq_app, fmap_app. f_equal.
      * apply list_fmap_ext. intros k i Hk. apply lookup_seq in Hk as [-> ?]. apply chunk_app. unfold db_Size in *. nia.
      * rewrite Nat.add_0_l. apply chunk_concat; [done |]. unfold db_Size in *. rewrite Z2Nat.id by lia. lia.
Qed.

Lemma file_store_laws :
  @EntryStoreLaws (list Z) EntryDB (file_store EntrySize) entry_sized db_contents db_good.
Proof.
  split.
  - intros s (Hl & _ & _). cbn. unfold zlen. rewrite length_contents. unfold db_Size. lia.
  - intros s (Hl & _ & _). cbn. unfold zlen, db_LastEntryIdx. rewrite length_contents. unfold db_Size. lia.
  - intros s i (Hl & Hb & _) Hi. cbn. unfold db_Read. destruct (Z.ltb_spec (lastEntryIdx s) i).
    + rewrite lookup_ge_None_2; [done |]. rewrite length_contents. unfold db_Size. lia.
    + unfold db_contents. rewrite list_lookup_fmap, lookup_seq_lt by (unfold db_Size; lia). cbn.
      assert (entry_sized (chunk (f_bytes (data s)) (Z.to_nat i))) as Hs.
      { apply chunk_sized. unfold db_Size in *. nia. }
      unfold entry_sized, chunk in Hs. unfold chunk. rewrite Z2Nat.id in * by lia. rewrite Hs, Z.eqb_refl.
      destruct (Z.ltb_spec (i * EntrySize) 0); [nia | done].
  - intros s (Hl & Hb & _). apply Forall_forall. intros x (i & -> & Hi)%list_elem_of_In%list_elem_of_fmap.
    apply elem_of_seq in Hi. apply chunk_sized. unfold db_Size in *. nia.
  - intros s es Hg Hes. cbn. unfold db_Append. destruct (cleanupFailedWrite s) eqn:Hc; [| by apply append_data_spec].
    pose proof (truncate_spec s (lastEntryIdx s) Hg) as Ht. destruct (db_Truncate _ _ s) as [r s'].
    destruct Ht as [Hg' Hr]; [destruct Hg; lia |].
    destruct Hr as [(-> & Hcont & _ & Hc') | ([x ->] & Hcont & _)].
    + pose proof (append_data_spec s' es Hg' Hc' Hes) as Ha. destruct (append_data _ _ s') as [r s2].
      replace (db_contents s) with (db_contents s'); [done |]. rewrite Hcont. apply take_ge.
      rewrite length_contents. unfold db_Size. destruct Hg. lia.
    + split; [done |]. right. eauto.
  - intros s i Hg Hi. cbn. pose proof (truncate_spec s i Hg) as Ht.
    unfold zlen in Hi. rewrite length_contents in Hi. destruct (db_Truncate _ _ s) as [r s'].
    destruct Ht as [Hg' Hr]; [unfold db_Size in *; destruct Hg; lia |]. split; [done |].
    destruct Hr as [(-> & Hcont & _) | (Hx & Hcont & _)]; eauto.
Qed.

(** Opening a file keeps its complete entries. *)
Lemma NewEntryDB_good f :
  (forall e, NewEntryDB EntrySize f = Ok e -> db_good e /\ lastEntryIdx e = zlen (f_bytes f) / EntrySize - 1 /\
     db_contents e = chunk (f_bytes f) <$> seq 0 (Z.to_nat (zlen (f_bytes f) / EntrySize))).
Proof.
  intros e He. unfold NewEntryDB, recover, db_Size, file_Truncate in He. cbn [lastEntryIdx data cleanupFailedWrite] in He.
  set (n := zlen (f_bytes f) / EntrySize) in *.
  assert (0 <= n /\ n * EntrySize <= zlen (f_bytes f)) as [Hn Hle].
  { unfold n, zlen. pose proof (Z.div_mod (Z.of_nat (length (f_bytes f))) EntrySize).
    pose proof (Z.mod_pos_bound (Z.of_nat (length (f_bytes f))) EntrySize).
    split; [apply Z.div_pos; lia | nia]. }
  replace (n - 1 + 1) with n in He by lia.
  destruct (Z.eqb_spec (n * EntrySize) (zlen (f_bytes f))) as [Heq | Hne].
  - injection He as <-. unfold db_good, db_contents, db_Size. cbn. replace (n - 1 + 1) with n by lia. split_and!; try done; lia.
  - destruct (next_fault f) as [[x|] fs]; [done |]. injection He as <-. unfold db_good, db_contents, db_Size. cbn.
    replace (n - 1 + 1) with n by lia. unfold zlen in Hle.
    replace (Z.to_nat (n * EntrySize) - length (f_bytes f))%nat with 0%nat by nia. cbn [replicate]. rewrite app_nil_r.
    assert (zlen (take (Z.to_nat (n * EntrySize)) (f_bytes f)) = n * EntrySize) as ->.
    { unfold zlen. rewrite length_take. nia. }
    split_and!; try lia. apply list_fmap_ext. intros k i Hk. apply lookup_seq in Hk as [-> ?]. apply chunk_take. nia.
Qed.

End Props.
