(* ===== verification/FromDA.v ===== *)
(** The derivation database of op-supervisor (backend/db/fromda): which L2 block
    was derived from which L1 block, as an append-only list of entries that is
    searched by bisection (db.go), extended under checks and rewound (update.go),
    with the binary form of an entry (entry.go). The locks of the code are in
    Locks.v; logging and metrics are left out. *)
From Stdlib Require Import ZArith Lia.
From stdpp Require Import base list strings numbers.
From S2P Require Import Prelude Rollup Frames Interop EntryDB.

(** ** Entries (entry.go) *)

Definition FirstRevision : Revision := 0.
Definition fromda_EntrySize : Z := 128.
Definition SourceV0 : Z := 0.
Definition InvalidatedFromV0 : Z := 1.

Record LinkEntry : Type := mkLink {
  source : BlockSeal;
  derived : BlockSeal;
  revision : Revision;
  invalidated : bool;
}.

#[export] Instance LinkEntry_eq_dec : EqDecision LinkEntry.
Proof. solve_decision. Defined.

Definition decode (e : list Z) : outcome LinkEntry :=
  let t := byte_at 0 e in
  if negb (t =? SourceV0) && negb (t =? InvalidatedFromV0) then Err ErrDataCorruption
  else if negb (bool_decide (slice 1 4 e = replicate 3 0)) then Err ErrDataCorruption
  else
    let rev := be_decode (slice 20 28 e) in
    if negb (rev .& 2 ^ 63 =? 0) then Err ErrDataCorruption
    else Ok (mkLink (mkBlockSeal (slice 44 76 e) (be_decode (slice 4 12 e)) (be_decode (slice 12 20 e)))
                    (mkBlockSeal (slice 76 108 e) (be_decode (slice 28 36 e)) (be_decode (slice 36 44 e)))
                    rev (t =? InvalidatedFromV0)).

Definition encode (d : LinkEntry) : outcome (list Z) :=
  if negb (revision d .& 2 ^ 63 =? 0) then Panic "cannot encode invalid revision value"
  else Ok ([(if invalidated d then InvalidatedFromV0 else SourceV0); 0; 0; 0]
           ++ be_encode 8 (s_Number (source d)) ++ be_encode 8 (s_Timestamp (source d))
           ++ be_encode 8 (revision d)
           ++ be_encode 8 (s_Number (derived d)) ++ be_encode 8 (s_Timestamp (derived d))
           ++ s_Hash (source d) ++ s_Hash (derived d) ++ replicate 20 0).

Definition sealOrErr (d : LinkEntry) : outcome DerivedBlockSealPair :=
  if invalidated d then Err ErrAwaitReplacementBlock else Ok (mkSealPair (source d) (derived d)).

(** ** Search *)

(** [cmp.Compare] *)
Definition Compare (x y : Z) : Z := if x <? y then -1 else if x =? y then 0 else 1.

(** [sort.Search] with a predicate that can fail: an error counts as false and is
    kept. A round halves the interval at least by one. *)
Fixpoint Search_ (fuel : nat) (f : Z -> outcome bool) (i j : Z) (searchErr : option string) :
    outcome (Z * option string) :=
  if i <? j then
    match fuel with
    | O => Panic "out of fuel"
    | S fuel =>
        let h := (i + j) / 2 in
        match f h with
        | Ok true => Search_ fuel f i h searchErr
        | Ok false => Search_ fuel f (h + 1) j searchErr
        | Err e => Search_ fuel f (h + 1) j (Some e)
        | Panic e => Panic e
        end
    end
  else Ok (i, searchErr).

Definition go_Search (n : Z) (f : Z -> outcome bool) : outcome (Z * option string) :=
  Search_ (Z.to_nat n) f 0 n None.

Section DB.
Context {S : Type} `{ES : !EntryStore (list Z) S}.
Implicit Type db : S.

Definition readAt db (i : Z) : outcome LinkEntry :=
  match store_Read db i with
  | Ok entry => decode entry
  | Err e => if is_err e EOF then Err ErrFuture else Err e
  | Panic e => Panic e
  end.

Definition find db (reverse acceptClosest : bool) (cmpFn : LinkEntry -> Z) : outcome (Z * LinkEntry) :=
  let n := store_Size db in
  if n =? 0 then Err ErrFuture
  else
    '(result, searchErr) ← go_Search n (fun i =>
       entry ← readAt db (if reverse then n - 1 - i else i); Ok (0 <=? cmpFn entry));
    match searchErr with
    | Some e => Err e
    | None =>
        if result =? n then Err (if reverse then ErrSkipped else ErrFuture)
        else
          let firstTry := result =? 0 in
          let result := if reverse then n - 1 - result else result in
          link ← readAt db result;
          if negb (cmpFn link =? 0) && firstTry then Err (if reverse then ErrFuture else ErrSkipped)
          else if negb (cmpFn link =? 0) && negb acceptClosest then Err ErrNotExact
          else Ok (result, link)
    end.

Definition cmp_first_source (derivedNum : Z) (rev : Revision) (link : LinkEntry) : Z :=
  let res := - rev_Cmp rev (rev_Number (revision link)) in
  if res =? 0 then Compare (s_Number (derived link)) derivedNum else res.

Definition cmp_last_source (derivedNum : Z) (rev : Revision) (link : LinkEntry) : Z :=
  let res := rev_Cmp rev (rev_Number (revision link)) in
  if res =? 0 then Compare derivedNum (s_Number (derived link)) else res.

Definition derivedNumToFirstSource db (derivedNum : Z) (rev : Revision) : outcome (Z * LinkEntry) :=
  find db false false (cmp_first_source derivedNum rev).

Definition derivedNumToLastSource db (derivedNum : Z) (rev : Revision) : outcome (Z * LinkEntry) :=
  find db true false (cmp_last_source derivedNum rev).

Definition sourceNumToFirstDerived db (sourceNum : Z) : outcome (Z * LinkEntry) :=
  find db false false (fun link => Compare (s_Number (source link)) sourceNum).

Definition sourceNumToLastDerived db (sourceNum : Z) : outcome (Z * LinkEntry) :=
  find db true false (fun link => Compare sourceNum (s_Number (source link))).

Definition lookup_pair db (src drv : Z) : outcome (Z * LinkEntry) :=
  find db true false (fun link =>
    let res := Compare src (s_Number (source link)) in
    if res =? 0 then Compare drv (s_Number (derived link)) else res).

Definition lookupOrAfter db (src drv : Z) : outcome (Z * LinkEntry) :=
  find db false true (fun link =>
    let res := Compare (s_Number (source link)) src in
    if res =? 0 then Compare (s_Number (derived link)) drv else res).

(** ** Queries (db.go) *)

Definition latest db : outcome LinkEntry :=
  if store_LastEntryIdx db <? 0 then Err ErrFuture else readAt db (store_LastEntryIdx db).

Definition First db : outcome DerivedBlockSealPair :=
  if store_LastEntryIdx db <? 0 then Err ErrFuture
  else last ← readAt db 0; sealOrErr last.

Definition Last db : outcome DerivedBlockSealPair := link ← latest db; sealOrErr link.

Definition LastRevision db : outcome Revision := link ← latest db; Ok (revision link).

Definition Invalidated db : outcome DerivedBlockSealPair :=
  link ← latest db;
  if negb (invalidated link) then Err ErrConflict else Ok (mkSealPair (source link) (derived link)).

Definition PreviousDerived db (drv : BlockID) (rev : Revision) : outcome BlockSeal :=
  '(_, lastCanonical) ← derivedNumToLastSource db (b_Number drv) rev;
  '(selfIndex, _) ← derivedNumToFirstSource db (b_Number drv) rev;
  if negb (bool_decide (seal_ID (derived lastCanonical) = drv)) then Err ErrConflict
  else if selfIndex =? 0 then Ok zero_seal
  else prev ← readAt db (selfIndex - 1); Ok (derived prev).

Definition SourceToLastDerived db (src : BlockID) : outcome BlockSeal :=
  '(_, link) ← sourceNumToLastDerived db (b_Number src);
  if negb (bool_decide (seal_ID (source link) = src)) then Err ErrConflict
  else if invalidated link then Err ErrAwaitReplacementBlock
  else Ok (derived link).

Definition NextDerived db (drv : BlockID) (rev : Revision) : outcome DerivedBlockSealPair :=
  '(selfIndex, self) ← derivedNumToLastSource db (b_Number drv) rev;
  if negb (bool_decide (seal_ID (derived self) = drv)) then Err ErrConflict
  else next ← readAt db (selfIndex + 1); sealOrErr next.

Definition previousSource db (src : BlockID) : outcome BlockSeal :=
  '(selfIndex, self) ← sourceNumToFirstDerived db (b_Number src);
  if negb (bool_decide (seal_ID (source self) = src)) then Err ErrConflict
  else if selfIndex =? 0 then
    if s_Number (source self) =? 0 then Ok zero_seal else Err ErrPreviousToFirst
  else prev ← readAt db (selfIndex - 1); Ok (source prev).

Definition PreviousSource db (src : BlockID) : outcome BlockSeal := previousSource db src.

(** The zero value of a link, which a failed search returns. *)
Definition zero_link : LinkEntry := mkLink zero_seal zero_seal 0 false.

(** The second search replaces the result of the first one when that was not
    exact; another error of the first search is not looked at. *)
Definition candidate_link db (afterDerived : BlockID) (rev : Revision) : outcome LinkEntry :=
  let next := uadd 64 (b_Number afterDerived) 1 in
  match derivedNumToLastSource db next rev with
  | Ok (_, link) => Ok link
  | Err e =>
      if is_err e ErrNotExact then
        match derivedNumToLastSource db next next with
        | Ok (_, link) => Ok link
        | Err _ => Err ErrDataCorruption
        | Panic e => Panic e
        end
      else Ok zero_link
  | Panic e => Panic e
  end.

Definition source_ref db (maxSource : BlockID) (maxSourceSeal : BlockSeal) : outcome BlockRef :=
  match PreviousSource db maxSource with
  | Err e => if is_err e ErrPreviousToFirst then Ok (ForceWithParent maxSourceSeal zero_id) else Err e
  | Panic e => Panic e
  | Ok parentSource => MustWithParent maxSourceSeal (seal_ID parentSource)
  end.

(** The pair, with an error or without. *)
Definition Candidate db (maxSource afterDerived : BlockID) (rev : Revision) : DerivedBlockRefPair * outcome unit :=
  match ('(_, lastOffered) ← sourceNumToLastDerived db (b_Number maxSource);
         _ ← require (bool_decide (seal_ID (source lastOffered) = maxSource)) ErrConflict;
         sourceRef ← source_ref db maxSource (source lastOffered);
         Ok (lastOffered, sourceRef)) with
  | Err e => (zero_ref_pair, Err e)
  | Panic e => (zero_ref_pair, Panic e)
  | Ok (lastOffered, sourceRef) =>
      if b_Number afterDerived <? s_Number (derived lastOffered) then
        match link ← candidate_link db afterDerived rev; WithParent (derived link) afterDerived with
        | Ok derivedRef => (mkRefPair sourceRef derivedRef, Ok ())
        | Err e => (zero_ref_pair, Err e)
        | Panic e => (zero_ref_pair, Panic e)
        end
      else (mkRefPair sourceRef zero_ref, Err ErrOutOfScope)
  end.

Definition DerivedToRevision db (drv : BlockID) : outcome Revision :=
  '(_, link) ← derivedNumToLastSource db (b_Number drv) RevisionAny;
  if negb (bool_decide (seal_ID (derived link) = drv)) then Err ErrConflict else Ok (revision link).

Definition SourceToRevision db (src : BlockID) : outcome Revision :=
  if store_Size db =? 0 then Ok FirstRevision
  else
    '(_, link) ← sourceNumToLastDerived db (b_Number src);
    if negb (bool_decide (seal_ID (source link) = src)) then Err ErrConflict else Ok (revision link).

Definition ContainsDerived db (drv : BlockID) (rev : Revision) : outcome unit :=
  '(_, link) ← derivedNumToLastSource db (b_Number drv) rev;
  if negb (bool_decide (seal_ID (derived link) = drv)) then Err ErrConflict
  else if invalidated link then Err ErrAwaitReplacementBlock else Ok ().

Definition DerivedToFirstSource db (drv : BlockID) (rev : Revision) : outcome BlockSeal :=
  '(_, link) ← derivedNumToFirstSource db (b_Number drv) rev;
  if negb (bool_decide (seal_ID (derived link) = drv)) then Err ErrConflict else Ok (source link).

Definition db_NextSource db (src : BlockID) : outcome BlockSeal :=
  '(selfIndex, self) ← sourceNumToLastDerived db (b_Number src);
  if negb (bool_decide (seal_ID (source self) = src)) then Err ErrConflict
  else next ← readAt db (selfIndex + 1); Ok (source next).

Definition Next db (pair : DerivedIDPair) : outcome DerivedBlockSealPair :=
  '(selfIndex, selfLink) ← lookup_pair db (b_Number (ip_Source pair)) (b_Number (ip_Derived pair));
  if negb (bool_decide (seal_ID (source selfLink) = ip_Source pair)) then Err ErrConflict
  else if negb (bool_decide (seal_ID (derived selfLink) = ip_Derived pair)) then Err ErrConflict
  else next ← readAt db (selfIndex + 1); sealOrErr next.

(** ** Writing (update.go) *)

Definition is_zero_hash (h : hash) : bool := bool_decide (h = zero_hash).

(** The revision of a link on top of [last]. *)
Definition link_revision (last : LinkEntry) (drv : BlockRef) (inv : hash) (rev : Revision) : outcome Revision :=
  if rev_Any rev then Ok (revision last)
  else if is_zero_hash inv then
    if negb (revision last =? rev) && negb (l1_Number drv =? rev_Number rev) then Err ErrDataCorruption
    else Ok rev
  else if bool_decide (l1_Hash drv = inv) then
    if revision last =? rev then Err ErrConflict
    else if negb (l1_Number drv =? rev_Number rev) then Err ErrDataCorruption
    else Ok rev
  else Ok rev.

Definition check_derived db (last : LinkEntry) (drv : BlockRef) (inv : hash) : outcome unit :=
  let lastDerived := derived last in
  if s_Number lastDerived =? l1_Number drv then
    if negb (is_zero_hash inv) then
      if negb (bool_decide (s_Hash lastDerived = inv)) then Err ErrConflict else Ok ()
    else if negb (bool_decide (s_Hash lastDerived = l1_Hash drv)) then Err ErrConflict else Ok ()
  else if uadd 64 (s_Number lastDerived) 1 =? l1_Number drv then
    if negb (bool_decide (s_Hash lastDerived = l1_ParentHash drv)) then Err ErrConflict else Ok ()
  else if uadd 64 (s_Number lastDerived) 1 <? l1_Number drv then Err ErrFuture
  else if negb (is_zero_hash inv) then
    '(_, v) ← derivedNumToLastSource db (l1_Number drv) (revision last);
    if negb (bool_decide (s_Hash (derived v) = inv)) then Err "cannot invalidate mismatching block" else Ok ()
  else Err ErrOutOfOrder.

Definition check_source db (last : LinkEntry) (src drv : BlockRef) : outcome unit :=
  let lastSource := source last in
  if s_Number lastSource =? l1_Number src then
    if negb (bool_decide (s_Hash lastSource = l1_Hash src)) then Err ErrConflict else Ok ()
  else if uadd 64 (s_Number lastSource) 1 =? l1_Number src then
    if negb (bool_decide (s_Hash lastSource = l1_ParentHash src)) then Err ErrConflict else Ok ()
  else if uadd 64 (s_Number lastSource) 1 <? l1_Number src then Err ErrFuture
  else if bool_decide (s_Hash (derived last) = l1_Hash drv) then
    '(_, got) ← lookup_pair db (l1_Number src) (l1_Number drv);
    if negb (bool_decide (s_Hash (source got) = l1_Hash src)) then Err ErrConflict else Err ErrIneffective
  else Err ErrOutOfOrder.

(** The link to append to a database with a last entry; [None] when it is there
    already. *)
Definition link_to_append db (src drv : BlockRef) (inv : hash) (rev : Revision) : outcome (option LinkEntry) :=
  let is_inv := negb (is_zero_hash inv) && bool_decide (l1_Hash drv = inv) in
  last ← latest db;
  if invalidated last then Err ErrAwaitReplacementBlock
  else
    rev' ← link_revision last drv inv rev;
    if (uadd 64 (s_Number (source last)) 1 =? l1_Number src) && (uadd 64 (s_Number (derived last)) 1 =? l1_Number drv)
    then Err ErrOutOfOrder
    else if bool_decide (seal_ID (derived last) = L1BlockRef_ID drv) && bool_decide (seal_ID (source last) = L1BlockRef_ID src)
    then Ok None
    else
      _ ← check_derived db last drv inv;
      _ ← check_source db last src drv;
      Ok (Some (mkLink (BlockSealFromRef src) (BlockSealFromRef drv) rev' is_inv)).

Definition append_link (link : LinkEntry) : stage S unit := fun db =>
  match encode link with
  | Ok e => store_Append [e] db
  | Err e => (Err e, db)
  | Panic e => (Panic e, db)
  end.

Definition addLink (src drv : BlockRef) (inv : hash) (rev : Revision) : stage S unit := fun db =>
  if store_Size db =? 0 then
    let is_inv := negb (is_zero_hash inv) && bool_decide (l1_Hash drv = inv) in
    if is_inv then (Err ErrConflict, db)
    else append_link (mkLink (BlockSealFromRef src) (BlockSealFromRef drv)
                             (if rev_Any rev then FirstRevision else rev) is_inv) db
  else
    match link_to_append db src drv inv rev with
    | Ok (Some link) => append_link link db
    | Ok None => (Ok (), db)
    | Err e => (Err e, db)
    | Panic e => (Panic e, db)
    end.

Definition AddDerived (src drv : BlockRef) (rev : Revision) : stage S unit := addLink src drv zero_hash rev.

(** The entry to replace and the L1 block before it. *)
Definition replaced_entry db (inv : hash) : outcome (LinkEntry * BlockSeal) :=
  let lastIndex := store_LastEntryIdx db in
  if lastIndex <? 0 then Err ErrFuture
  else
    last ← readAt db lastIndex;
    _ ← require (invalidated last) ErrConflict;
    _ ← require (bool_decide (s_Hash (derived last) = inv)) ErrConflict;
    prevSource ← previousSource db (seal_ID (source last));
    Ok (last, prevSource).

Definition ReplaceInvalidatedBlock (replacementDerived : BlockRef) (inv : hash) : stage S DerivedBlockRefPair := fun db =>
  match replaced_entry db inv with
  | Ok (last, prevSource) =>
      match store_Truncate (store_LastEntryIdx db - 1) db with
      | (Ok _, db) =>
          let replacement := mkRefPair (ForceWithParent (source last) (seal_ID prevSource)) replacementDerived in
          match addLink (rp_Source replacement) (rp_Derived replacement) inv (revision last) db with
          | (Ok _, db) => (Ok replacement, db)
          | (Err e, db) => (Err e, db)
          | (Panic e, db) => (Panic e, db)
          end
      | (Err e, db) => (Err e, db)
      | (Panic e, db) => (Panic e, db)
      end
  | Err e => (Err e, db)
  | Panic e => (Panic e, db)
  end.

(** The index to keep up to before the block is marked as invalidated. *)
Definition invalidation_target db (inv : DerivedBlockRefPair) : outcome Z :=
  '(i, link) ← lookupOrAfter db (l1_Number (rp_Source inv)) (l1_Number (rp_Derived inv));
  if invalidated link then Err ErrAwaitReplacementBlock
  else if negb (bool_decide (s_Hash (source link) = l1_Hash (rp_Source inv))) then Err ErrConflict
  else if negb (bool_decide (s_Hash (derived link) = l1_Hash (rp_Derived inv)))
          && (s_Number (derived link) <=? l1_Number (rp_Derived inv)) then Err ErrConflict
  else Ok (i - 1).

Definition RewindAndInvalidate (inv : DerivedBlockRefPair) : stage S unit := fun db =>
  match invalidation_target db inv with
  | Ok target =>
      match store_Truncate target db with
      | (Ok _, db) =>
          addLink (rp_Source inv) (rp_Derived inv) (l1_Hash (rp_Derived inv)) (l1_Number (rp_Derived inv)) db
      | r => r
      end
  | Err e => (Err e, db)
  | Panic e => (Panic e, db)
  end.

Definition rewind_target db (t : DerivedBlockSealPair) (including : bool) : outcome Z :=
  '(i, link) ← lookup_pair db (s_Number (sp_Source t)) (s_Number (sp_Derived t));
  if negb (bool_decide (s_Hash (source link) = s_Hash (sp_Source t))) then Err ErrConflict
  else if negb (bool_decide (s_Hash (derived link) = s_Hash (sp_Derived t))) then Err ErrConflict
  else Ok (if including then i - 1 else i).

Definition rewindLocked (t : DerivedBlockSealPair) (including : bool) : stage S unit := fun db =>
  match rewind_target db t including with
  | Ok target => store_Truncate target db
  | Err e => (Err e, db)
  | Panic e => (Panic e, db)
  end.

Definition Rewind (t : DerivedBlockSealPair) (including : bool) : stage S unit := rewindLocked t including.

Definition RewindToScope (scope : BlockID) : stage S unit := fun db =>
  match sourceNumToLastDerived db (b_Number scope) with
  | Ok (_, link) =>
      if negb (bool_decide (seal_ID (source link) = scope)) then (Err ErrConflict, db)
      else rewindLocked (mkSealPair (source link) (derived link)) false db
  | Err e => (Err e, db)
  | Panic e => (Panic e, db)
  end.

Definition RewindToFirstDerived (v : BlockID) (rev : Revision) : stage S unit := fun db =>
  match derivedNumToFirstSource db (b_Number v) rev with
  | Ok (_, link) =>
      if negb (bool_decide (seal_ID (derived link) = v)) then (Err ErrConflict, db)
      else rewindLocked (mkSealPair (source link) (derived link)) false db
  | Err e => (Err e, db)
  | Panic e => (Panic e, db)
  end.

End DB.
