(* ===== verification/ChainsDB.v ===== *)
(** The databases of all chains of op-supervisor (backend/db: db.go, query.go,
    update.go, anchor.go): per chain the logs, the local-safe and the cross-safe
    derivation database and the cross-unsafe head, with the finalized L1 block.
    The database of the logs is a class of its interface; the derivation databases
    are those of FromDA.v on any store. Events are appended to a list, and the
    order of a loop over a map is a stream of choices. *)
From Stdlib Require Import ZArith Lia.
From stdpp Require Import base gmap list strings numbers.
From S2P Require Import Prelude Rollup Frames Interop Cross EntryDB FromDA.

(** ** The database of the logs of a chain ([LogStorage]) *)

Class LogStorage (L : Type) : Type := {
  log_AddLog : hash -> BlockID -> Z -> option ExecutingMessage -> stage L unit;
  log_SealBlock : hash -> BlockID -> Z -> stage L unit;
  log_Rewind : BlockID -> stage L unit;
  log_LatestSealedBlock : L -> option BlockID;
  log_FindSealedBlock : L -> Z -> outcome BlockSeal;
  log_Contains : L -> ContainsQuery -> outcome BlockSeal;
  log_OpenBlock : L -> Z -> outcome (BlockRef * Z * gmap Z ExecutingMessage);
}.

(** ** Events (superevents) *)

Inductive superevent : Type :=
| LocalUnsafeUpdateEvent (chain : ChainID) (b : BlockRef)
| LocalUnsafeReceivedEvent (chain : ChainID) (b : BlockRef)
| LocalSafeUpdateEvent (chain : ChainID) (p : DerivedBlockSealPair)
| UpdateLocalSafeFailedEvent (chain : ChainID) (err node : string)
| CrossUnsafeUpdateEvent (chain : ChainID) (b : BlockSeal)
| CrossSafeUpdateEvent (chain : ChainID) (p : DerivedBlockSealPair)
| FinalizedL1UpdateEvent (b : BlockRef)
| FinalizedL2UpdateEvent (chain : ChainID) (b : BlockSeal)
| InvalidateLocalSafeEvent (chain : ChainID) (p : DerivedBlockRefPair).

(** The events that the database reacts to. *)
Inductive db_event : Type :=
| AnchorEvent (chain : ChainID) (anchor : DerivedBlockRefPair)
| LocalDerivedEvent (chain : ChainID) (d : DerivedBlockRefPair) (node : string)
| FinalizedL1RequestEvent (b : BlockRef)
| ReplaceBlockEvent (chain : ChainID) (replacement : BlockRef) (inv : hash)
| UnrelatedEvent.

Section ChainsDB.
Context {D L St : Type} `{DependencySet D} `{LogStorage L} `{ES : !EntryStore (list Z) St}.

Record ChainsDB : Type := mkChainsDB {
  logDBs : gmap Z L;
  initialized : gset Z;
  crossUnsafe : gmap Z BlockSeal;
  localDBs : gmap Z St;
  crossDBs : gmap Z St;
  finalizedL1 : BlockRef;
  db_depSet : D;
  emitted : list superevent;
}.

Implicit Type db : ChainsDB.

Definition NewChainsDB (depSet : D) : ChainsDB := mkChainsDB ∅ ∅ ∅ ∅ ∅ zero_ref depSet [].

Definition set_logDBs (m : gmap Z L) db :=
  mkChainsDB m (initialized db) (crossUnsafe db) (localDBs db) (crossDBs db) (finalizedL1 db) (db_depSet db) (emitted db).
Definition set_initialized (m : gset Z) db :=
  mkChainsDB (logDBs db) m (crossUnsafe db) (localDBs db) (crossDBs db) (finalizedL1 db) (db_depSet db) (emitted db).
Definition set_crossUnsafe (m : gmap Z BlockSeal) db :=
  mkChainsDB (logDBs db) (initialized db) m (localDBs db) (crossDBs db) (finalizedL1 db) (db_depSet db) (emitted db).
Definition set_localDBs (m : gmap Z St) db :=
  mkChainsDB (logDBs db) (initialized db) (crossUnsafe db) m (crossDBs db) (finalizedL1 db) (db_depSet db) (emitted db).
Definition set_crossDBs (m : gmap Z St) db :=
  mkChainsDB (logDBs db) (initialized db) (crossUnsafe db) (localDBs db) m (finalizedL1 db) (db_depSet db) (emitted db).
Definition set_finalizedL1 (b : BlockRef) db :=
  mkChainsDB (logDBs db) (initialized db) (crossUnsafe db) (localDBs db) (crossDBs db) b (db_depSet db) (emitted db).
Definition Emit (ev : superevent) : stage ChainsDB unit := fun db =>
  (Ok (), mkChainsDB (logDBs db) (initialized db) (crossUnsafe db) (localDBs db) (crossDBs db)
                     (finalizedL1 db) (db_depSet db) (emitted db ++ [ev])).

(** The database of a chain in one of the maps. *)
Definition get_db {V} (m : gmap Z V) (chain : ChainID) : outcome V :=
  match m !! chain with Some v => Ok v | None => Err ErrUnknownChain end.

(** An operation on the database of a chain. *)
Definition on_db {V A} (get : ChainsDB -> gmap Z V) (set : gmap Z V -> ChainsDB -> ChainsDB) (chain : ChainID)
    (op : stage V A) : stage ChainsDB A := fun db =>
  match get db !! chain with
  | None => (Err ErrUnknownChain, db)
  | Some v => let '(r, v) := op v in (r, set (<[chain := v]> (get db)) db)
  end.

Definition on_log {A} := on_db (A := A) logDBs set_logDBs.
Definition on_local {A} := on_db (A := A) localDBs set_localDBs.
Definition on_cross {A} := on_db (A := A) crossDBs set_crossDBs.

(** Reading does not change the state. *)
Definition query {A} (f : ChainsDB -> outcome A) : stage ChainsDB A := fun db => (f db, db).

(** ** Set-up (db.go) *)

Definition AddLogDB (chainID : ChainID) (logDB : L) db := set_logDBs (<[chainID := logDB]> (logDBs db)) db.
Definition AddLocalDerivationDB (chainID : ChainID) (dfDB : St) db := set_localDBs (<[chainID := dfDB]> (localDBs db)) db.
Definition AddCrossDerivationDB (chainID : ChainID) (dfDB : St) db := set_crossDBs (<[chainID := dfDB]> (crossDBs db)) db.
Definition AddCrossUnsafeTracker (chainID : ChainID) db := set_crossUnsafe (<[chainID := zero_seal]> (crossUnsafe db)) db.

Fixpoint resume_ (chains : list (Z * L)) : stage ChainsDB unit :=
  match chains with
  | [] => mret ()
  | (chain, logStore) :: chains =>
      match log_LatestSealedBlock logStore with
      | None => resume_ chains
      | Some head => fun db =>
          match on_log chain (log_Rewind head) db with
          | (Err _, db) => (Err "failed to rewind chain to sealed block", db)
          | (Panic e, db) => (Panic e, db)
          | (Ok _, db) => resume_ chains db
          end
      end
  end.

Definition ResumeFromLastSealedBlock (ch : choices) : stage ChainsDB unit := fun db =>
  resume_ (range_map ch (logDBs db)) db.

(** ** Queries (query.go) *)

Definition FindSealedBlock db (chain : ChainID) (number : Z) : outcome BlockSeal :=
  logDB ← get_db (logDBs db) chain; log_FindSealedBlock logDB number.

Definition q_FindBlockID db (chain : ChainID) (number : Z) : outcome BlockID :=
  sealed ← FindSealedBlock db chain number; Ok (seal_ID sealed).

Definition LatestBlockNum db (chain : ChainID) : option Z :=
  logDB ← logDBs db !! chain; bl ← log_LatestSealedBlock logDB; Some (b_Number bl).

Definition q_IsCrossUnsafe db (chainID : ChainID) (block : BlockID) : outcome unit :=
  xU ← get_db (crossUnsafe db) chainID;
  if bool_decide (xU = zero_seal) then Err ErrFuture
  else if s_Number xU <? b_Number block then Err ErrFuture
  else
    lU ← get_db (logDBs db) chainID;
    unsafeBlock ← log_FindSealedBlock lU (b_Number block);
    if negb (bool_decide (seal_ID unsafeBlock = block)) then Err ErrConflict else Ok ().

Definition q_IsLocalUnsafe db (chainID : ChainID) (block : BlockID) : outcome unit :=
  logDB ← get_db (logDBs db) chainID;
  got ← log_FindSealedBlock logDB (b_Number block);
  if negb (bool_decide (seal_ID got = block)) then Err ErrConflict else Ok ().

Definition IsCrossSafe db (chainID : ChainID) (block : BlockID) : outcome unit :=
  xdb ← get_db (crossDBs db) chainID; ContainsDerived xdb block RevisionAny.

(** An error other than [ErrFuture] is dropped, and the zero revision returned. *)
Definition findRevision db (chainID : ChainID) (block : BlockID) : outcome Revision :=
  xdb ← get_db (crossDBs db) chainID;
  match DerivedToRevision xdb block with
  | Ok rev => Ok rev
  | Err e =>
      if is_err e ErrFuture then ldb ← get_db (localDBs db) chainID; LastRevision ldb
      else Ok 0
  | Panic e => Panic e
  end.

Definition IsLocalSafe db (chainID : ChainID) (block : BlockID) : outcome unit :=
  ldb ← get_db (localDBs db) chainID;
  rev ← findRevision db chainID block;
  ContainsDerived ldb block rev.

Definition q_CrossDerivedToSource db (chain : ChainID) (drv : BlockID) : outcome BlockSeal :=
  xDB ← get_db (crossDBs db) chain; DerivedToFirstSource xDB drv RevisionAny.

Definition IsFinalized db (chainID : ChainID) (block : BlockID) : outcome unit :=
  if bool_decide (finalizedL1 db = zero_ref) then Err ErrUninitialized
  else
    src ← q_CrossDerivedToSource db chainID block;
    if s_Number src <=? l1_Number (finalizedL1 db) then Ok () else Err ErrFuture.

Definition SafeDerivedAt db (chainID : ChainID) (src : BlockID) : outcome BlockSeal :=
  lDB ← get_db (localDBs db) chainID; SourceToLastDerived lDB src.

Definition LocalUnsafe db (chainID : ChainID) : outcome BlockSeal :=
  eventsDB ← get_db (logDBs db) chainID;
  match log_LatestSealedBlock eventsDB with
  | None => Err ErrFuture
  | Some head => log_FindSealedBlock eventsDB (b_Number head)
  end.

Definition LocalSafe db (chainID : ChainID) : outcome DerivedBlockSealPair :=
  localDB ← get_db (localDBs db) chainID; Last localDB.

Definition q_CrossSafe db (chainID : ChainID) : outcome DerivedBlockSealPair :=
  crossDB ← get_db (crossDBs db) chainID; Last crossDB.

Definition q_CrossUnsafe db (chainID : ChainID) : outcome BlockSeal :=
  result ← get_db (crossUnsafe db) chainID;
  if bool_decide (result = zero_seal) then crossSafe ← q_CrossSafe db chainID; Ok (sp_Derived crossSafe)
  else Ok result.

Definition AcceptedBlock db (chainID : ChainID) (id : BlockID) : outcome unit :=
  localDB ← get_db (localDBs db) chainID;
  rev ← findRevision db chainID id;
  match ContainsDerived localDB id rev with
  | Err e => if is_err e ErrFuture then Ok () else Err e
  | r => r
  end.

Definition CrossSourceToLastDerived db (chainID : ChainID) (src : BlockID) : outcome BlockSeal :=
  crossDB ← get_db (crossDBs db) chainID; SourceToLastDerived crossDB src.

Definition Finalized db (chainID : ChainID) : outcome BlockSeal :=
  if bool_decide (finalizedL1 db = zero_ref) then Err ErrFuture
  else
    xDB ← get_db (crossDBs db) chainID;
    latest ← Last xDB;
    if s_Number (sp_Source latest) <? l1_Number (finalizedL1 db) then Ok (sp_Derived latest)
    else CrossSourceToLastDerived db chainID (L1BlockRef_ID (finalizedL1 db)).

Definition CrossDerivedToSourceRef db (chainID : ChainID) (drv : BlockID) : outcome BlockRef :=
  xdb ← get_db (crossDBs db) chainID;
  res ← DerivedToFirstSource xdb drv RevisionAny;
  match PreviousSource xdb (seal_ID res) with
  | Err e => if is_err e ErrPreviousToFirst then Ok (ForceWithParent res zero_id) else Err e
  | Panic e => Panic e
  | Ok parent => MustWithParent res (seal_ID parent)
  end.

Definition q_Contains db (chain : ChainID) (q : ContainsQuery) : outcome BlockSeal :=
  logDB ← get_db (logDBs db) chain; log_Contains logDB q.

Definition q_OpenBlock db (chainID : ChainID) (blockNum : Z) : outcome (BlockRef * Z * gmap Z ExecutingMessage) :=
  logDB ← get_db (logDBs db) chainID; log_OpenBlock logDB blockNum.

Definition LocalDerivedToSource db (chain : ChainID) (drv : BlockID) : outcome BlockSeal :=
  lDB ← get_db (localDBs db) chain;
  rev ← findRevision db chain drv;
  DerivedToFirstSource lDB drv rev.

(** The first local-safe block, when there is no cross-safe one. *)
Definition first_candidate (lDB : St) : outcome DerivedBlockRefPair :=
  first ← First lDB;
  let sourceRef := match WithParent (sp_Source first) zero_id with
                   | Ok r => r
                   | _ => ForceWithParent (sp_Source first) zero_id
                   end in
  derivedRef ← MustWithParent (sp_Derived first) zero_id;
  Ok (mkRefPair sourceRef derivedRef).

Definition as_pair (r : outcome DerivedBlockRefPair) : DerivedBlockRefPair * outcome unit :=
  match r with
  | Ok p => (p, Ok ())
  | Err e => (zero_ref_pair, Err e)
  | Panic e => (zero_ref_pair, Panic e)
  end.

Definition q_CandidateCrossSafe db (chain : ChainID) : DerivedBlockRefPair * outcome unit :=
  match crossDBs db !! chain, localDBs db !! chain with
  | Some xDB, Some lDB =>
      match Last xDB with
      | Panic e => (zero_ref_pair, Panic e)
      | Err e => if is_err e ErrFuture then as_pair (first_candidate lDB) else (zero_ref_pair, Err e)
      | Ok crossSafe =>
          match SourceToRevision xDB (seal_ID (sp_Source crossSafe)) with
          | Err e => (zero_ref_pair, Err e)
          | Panic e => (zero_ref_pair, Panic e)
          | Ok rev =>
              match Candidate lDB (seal_ID (sp_Source crossSafe)) (seal_ID (sp_Derived crossSafe)) rev with
              | (candidate, Ok _) =>
                  if l1_Number (rp_Source candidate) <? s_Number (sp_Source crossSafe)
                  then (candidate, Err ErrDataCorruption) else (candidate, Ok ())
              | r => r
              end
          end
      end
  | _, _ => (zero_ref_pair, Err ErrUnknownChain)
  end.

Definition q_PreviousCrossDerived db (chain : ChainID) (drv : BlockID) : outcome BlockSeal :=
  xDB ← get_db (crossDBs db) chain;
  rev ← findRevision db chain drv;
  PreviousDerived xDB drv rev.

Definition q_PreviousSource db (chain : ChainID) (src : BlockID) : outcome BlockSeal :=
  lDB ← get_db (localDBs db) chain; PreviousSource lDB src.

Definition q_NextSource db (chain : ChainID) (src : BlockID) : outcome BlockRef :=
  lDB ← get_db (localDBs db) chain;
  v ← db_NextSource lDB src;
  MustWithParent v src.

(** ** Updates (update.go) *)

Definition ForceInitialized (id : ChainID) db := set_initialized ({[id]} ∪ initialized db) db.
Definition isInitialized db (id : ChainID) : bool := bool_decide (id ∈ initialized db).

(** An operation that an uninitialized chain refuses. *)
Definition when_initialized (chain : ChainID) (op : stage ChainsDB unit) : stage ChainsDB unit := fun db =>
  if isInitialized db chain then op db else (Err ErrUninitialized, db).

Definition AddLog (chain : ChainID) (logHash : hash) (parentBlock : BlockID) (logIdx : Z)
    (execMsg : option ExecutingMessage) : stage ChainsDB unit :=
  on_log chain (log_AddLog logHash parentBlock logIdx execMsg).

Definition initializedSealBlock (chain : ChainID) (block : BlockRef) : stage ChainsDB unit :=
  _ ← on_log chain (log_SealBlock (l1_ParentHash block) (L1BlockRef_ID block) (l1_Time block));
  Emit (LocalUnsafeUpdateEvent chain block).

Definition SealBlock (chain : ChainID) (block : BlockRef) : stage ChainsDB unit :=
  when_initialized chain (initializedSealBlock chain block).

Definition db_Rewind (chain : ChainID) (headBlock : BlockID) : stage ChainsDB unit :=
  _ ← on_log chain (log_Rewind headBlock);
  _ ← query (fun db => get_db (localDBs db) chain);
  rev ← query (fun db => crossDB ← get_db (crossDBs db) chain; DerivedToRevision crossDB headBlock);
  _ ← on_local chain (RewindToFirstDerived headBlock rev);
  on_cross chain (RewindToFirstDerived headBlock rev).

(** Errors are logged or sent as an event. *)
Definition initializedUpdateLocalSafe (chain : ChainID) (src lastDerived : BlockRef) (nodeId : string) :
    stage ChainsDB unit := fun db =>
  match localDBs db !! chain with
  | None => (Ok (), db)
  | Some _ =>
      match on_local chain (AddDerived src lastDerived RevisionAny) db with
      | (Panic e, db) => (Panic e, db)
      | (Err e, db) =>
          if is_err e ErrIneffective then (Ok (), db)
          else if is_err e ErrDataCorruption then (Ok (), db)
          else Emit (UpdateLocalSafeFailedEvent chain e nodeId) db
      | (Ok _, db) =>
          Emit (LocalSafeUpdateEvent chain (mkSealPair (BlockSealFromRef src) (BlockSealFromRef lastDerived))) db
      end
  end.

Definition UpdateLocalSafe (chain : ChainID) (src lastDerived : BlockRef) (nodeId : string) : stage ChainsDB unit :=
  fun db => if isInitialized db chain then initializedUpdateLocalSafe chain src lastDerived nodeId db else (Ok (), db).

Definition u_UpdateCrossUnsafe (chain : ChainID) (b : BlockSeal) : stage ChainsDB unit := fun db =>
  match crossUnsafe db !! chain with
  | None => (Err ErrUnknownChain, db)
  | Some _ =>
      if negb (isInitialized db chain) then (Err ErrUninitialized, db)
      else Emit (CrossUnsafeUpdateEvent chain b) (set_crossUnsafe (<[chain := b]> (crossUnsafe db)) db)
  end.

Definition initializedUpdateCrossSafe (chain : ChainID) (l1View lastCrossDerived : BlockRef) : stage ChainsDB unit :=
  _ ← query (fun db => get_db (crossDBs db) chain);
  rev ← query (fun db => localDB ← get_db (localDBs db) chain; SourceToRevision localDB (L1BlockRef_ID l1View));
  _ ← on_cross chain (AddDerived l1View lastCrossDerived rev);
  Emit (CrossSafeUpdateEvent chain (mkSealPair (BlockSealFromRef l1View) (BlockSealFromRef lastCrossDerived))).

Definition u_UpdateCrossSafe (chain : ChainID) (l1View lastCrossDerived : BlockRef) : stage ChainsDB unit :=
  when_initialized chain (initializedUpdateCrossSafe chain l1View lastCrossDerived).

Fixpoint notify_finalized (chains : list ChainID) : stage ChainsDB unit := fun db =>
  match chains with
  | [] => (Ok (), db)
  | chain :: chains =>
      match Finalized db chain with
      | Panic e => (Panic e, db)
      | Err _ => notify_finalized chains db
      | Ok fin => (_ ← Emit (FinalizedL2UpdateEvent chain fin); notify_finalized chains) db
      end
  end.

Definition onFinalizedL1 (finalized : BlockRef) : stage ChainsDB unit := fun db =>
  let v := finalizedL1 db in
  if negb (bool_decide (v = zero_ref)) && (l1_Number finalized <? l1_Number v) then (Ok (), db)
  else (_ ← Emit (FinalizedL1UpdateEvent finalized);
        notify_finalized (Chains (db_depSet db))) (set_finalizedL1 finalized db).

Definition ResetCrossUnsafeIfNewerThan (chainID : ChainID) (number : Z) : stage ChainsDB unit := fun db =>
  match crossUnsafe db !! chainID with
  | None => (Ok (), db)
  | Some x =>
      match crossSafeDB ← get_db (crossDBs db) chainID; Last crossSafeDB with
      | Err e => (Err e, db)
      | Panic e => (Panic e, db)
      | Ok crossSafe =>
          if number <=? s_Number x
          then (Ok (), set_crossUnsafe (<[chainID := sp_Derived crossSafe]> (crossUnsafe db)) db)
          else (Ok (), db)
      end
  end.

Definition u_InvalidateLocalSafe (chainID : ChainID) (candidate : DerivedBlockRefPair) : stage ChainsDB unit :=
  _ ← query (fun db => get_db (logDBs db) chainID);
  _ ← on_local chainID (RewindAndInvalidate candidate);
  _ ← ResetCrossUnsafeIfNewerThan chainID (l1_Number (rp_Derived candidate));
  _ ← on_log chainID (log_Rewind (L1BlockRef_ParentID (rp_Derived candidate)));
  Emit (InvalidateLocalSafeEvent chainID candidate).

Definition RewindLocalSafe (chainID : ChainID) (scope : BlockID) : stage ChainsDB unit :=
  on_local chainID (RewindToScope scope).

Definition RewindCrossSafe (chainID : ChainID) (scope : BlockID) : stage ChainsDB unit :=
  on_cross chainID (RewindToScope scope).

Definition RewindLogs (chainID : ChainID) (newHead : BlockSeal) : stage ChainsDB unit :=
  on_log chainID (log_Rewind (seal_ID newHead)).

Definition onReplaceBlock (chainID : ChainID) (replacement : BlockRef) (inv : hash) : stage ChainsDB unit := fun db =>
  match localDBs db !! chainID with
  | None => (Ok (), db)
  | Some _ =>
      match on_local chainID (ReplaceInvalidatedBlock replacement inv) db with
      | (Panic e, db) => (Panic e, db)
      | (Err _, db) => (Ok (), db)
      | (Ok result, db) =>
          (_ ← Emit (LocalUnsafeReceivedEvent chainID replacement);
           Emit (LocalSafeUpdateEvent chainID (refs_Seals result))) db
      end
  end.

(** ** Initialization (anchor.go) *)

Definition maybeInitSafeDB (id : ChainID) (anchor : DerivedBlockRefPair) : stage ChainsDB unit := fun db =>
  match localDB ← get_db (localDBs db) id; First localDB with
  | Panic e => (Panic e, db)
  | Err e =>
      if is_err e ErrFuture then
        (_ ← initializedUpdateCrossSafe id (rp_Source anchor) (rp_Derived anchor);
         initializedUpdateLocalSafe id (rp_Source anchor) (rp_Derived anchor) "anchor") db
      else (Err e, db)
  | Ok first =>
      if negb (bool_decide (s_Hash (sp_Derived first) = l1_Hash (rp_Derived anchor)))
         || negb (bool_decide (s_Hash (sp_Source first) = l1_Hash (rp_Source anchor)))
      then (Err ErrConflict, db) else (Ok (), db)
  end.

Definition maybeInitEventsDB (id : ChainID) (anchor : DerivedBlockRefPair) : stage ChainsDB unit := fun db =>
  match q_OpenBlock db id 0 with
  | Panic e => (Panic e, db)
  | Err e => if is_err e ErrFuture then initializedSealBlock id (rp_Derived anchor) db else (Err e, db)
  | Ok (seal, _, _) =>
      if negb (bool_decide (l1_Hash seal = l1_Hash (rp_Derived anchor))) then (Err ErrConflict, db) else (Ok (), db)
  end.

(** A failure is logged, and the chain stays uninitialized. *)
Definition initFromAnchor (id : ChainID) (anchor : DerivedBlockRefPair) : stage ChainsDB unit := fun db =>
  if isInitialized db id then (Ok (), db)
  else
    match (_ ← maybeInitSafeDB id anchor; maybeInitEventsDB id anchor) db with
    | (Panic e, db) => (Panic e, db)
    | (Err _, db) => (Ok (), db)
    | (Ok _, db) => (Ok (), set_initialized ({[id]} ∪ initialized db) db)
    end.

Definition OnEvent (ev : db_event) : stage ChainsDB bool :=
  match ev with
  | AnchorEvent chain anchor => _ ← initFromAnchor chain anchor; mret true
  | LocalDerivedEvent chain d node => _ ← UpdateLocalSafe chain (rp_Source d) (rp_Derived d) node; mret true
  | FinalizedL1RequestEvent b => _ ← onFinalizedL1 b; mret true
  | ReplaceBlockEvent chain replacement inv => _ ← onReplaceBlock chain replacement inv; mret true
  | UnrelatedEvent => mret false
  end.

(** ** What the checks of Cross.v use *)

#[export] Instance ChainsDB_logs : LogDeps D ChainsDB := {|
  Contains := q_Contains;
  OpenBlock := q_OpenBlock;
  DependencySet_ := db_depSet;
|}.

#[export] Instance ChainsDB_safe : CrossSafeDeps D ChainsDB := {|
  CrossSafe := q_CrossSafe;
  CandidateCrossSafe := q_CandidateCrossSafe;
  CrossDerivedToSource := q_CrossDerivedToSource;
  NextSource := q_NextSource;
  PreviousCrossDerived := q_PreviousCrossDerived;
  UpdateCrossSafe := u_UpdateCrossSafe;
  InvalidateLocalSafe := u_InvalidateLocalSafe;
|}.

#[export] Instance ChainsDB_unsafe : CrossUnsafeDeps D ChainsDB := {|
  CrossUnsafe := q_CrossUnsafe;
  FindBlockID := q_FindBlockID;
  IsCrossUnsafe := q_IsCrossUnsafe;
  IsLocalUnsafe := q_IsLocalUnsafe;
  UpdateCrossUnsafe := u_UpdateCrossUnsafe;
|}.

End ChainsDB.

Arguments ChainsDB : clear implicits.
