(* ===== verification/LogDB.v ===== *)
(** The database of the logs of a chain (op-supervisor/supervisor/backend/db/logs):
    entries of 34 bytes (entry.go, entries.go), the context that turns blocks and
    logs into entries and back (state.go), iterators (iterator.go) and the database
    on a store of entries (db.go), with a search checkpoint at every 256th entry.
    The iterators of the code point to a database that does not change under the
    read lock: here they are contexts over a store. Loops over entries have a round
    per entry of the store. Locks, logging and metrics are left out. *)
From Stdlib Require Import ZArith Lia.
From stdpp Require Import base gmap list strings numbers.
From S2P Require Import Prelude Rollup Frames Interop EntryDB ChainsDB.

Module Logs.

Definition searchCheckpointFrequency : Z := 256.
Definition eventFlagHasExecutingMessage : Z := 1.

(** ** Entries (entry.go, entries.go) *)

Definition EntrySize : Z := 34.
Abbreviation Entry := (list Z) (only parsing).

Definition TypeSearchCheckpoint : Z := 0.
Definition TypeCanonicalHash : Z := 1.
Definition TypeInitiatingEvent : Z := 2.
Definition TypeExecutingLink : Z := 3.
Definition TypeExecutingCheck : Z := 4.
Definition TypePadding : Z := 5.

Definition entry_Type (e : Entry) : Z := byte_at 0 e.

Definition FlagSearchCheckpoint : Z := 1.
Definition FlagCanonicalHash : Z := 2.
Definition FlagInitiatingEvent : Z := 4.
Definition FlagExecutingLink : Z := 8.
Definition FlagExecutingCheck : Z := 16.
Definition FlagPadding : Z := 32.
Definition FlagPadding2 : Z := 64.

Definition flag_Any (x v : Z) : bool := negb (x .& v =? 0).
Definition flag_Add (x v : Z) : Z := x .| v.
Definition flag_Remove (x v : Z) : Z := Z.ldiff x v.

(** [binary.LittleEndian] *)
Definition le_encode (n : nat) (x : Z) : list Z := reverse (be_encode n x).
Definition le_decode (bs : list Z) : Z := be_decode (reverse bs).

Record searchCheckpoint : Type := mkCheckpoint {
  sc_blockNum : Z;
  sc_logsSince : Z;
  sc_timestamp : Z;
}.

Record initiatingEvent : Type := mkInitiatingEvent {
  ie_hasExecMsg : bool;
  ie_logHash : hash;
}.

Record executingLink : Type := mkExecutingLink {
  el_chain : Z;
  el_blockNum : Z;
  el_logIdx : Z;
  el_timestamp : Z;
}.

Definition corrupt : string := ErrDataCorruption.

Definition newSearchCheckpointFromEntry (data : Entry) : outcome searchCheckpoint :=
  if negb (entry_Type data =? TypeSearchCheckpoint) then Err corrupt
  else Ok (mkCheckpoint (le_decode (slice 1 9 data)) (le_decode (slice 9 13 data)) (le_decode (slice 13 21 data))).

Definition checkpoint_encode (s : searchCheckpoint) : Entry :=
  [TypeSearchCheckpoint] ++ le_encode 8 (sc_blockNum s) ++ le_encode 4 (sc_logsSince s) ++ le_encode 8 (sc_timestamp s)
  ++ replicate 13 0.

Definition newCanonicalHashFromEntry (data : Entry) : outcome hash :=
  if negb (entry_Type data =? TypeCanonicalHash) then Err corrupt else Ok (slice 1 33 data).

Definition canonical_encode (h : hash) : Entry := [TypeCanonicalHash] ++ h ++ [0].

Definition newInitiatingEventFromEntry (data : Entry) : outcome initiatingEvent :=
  if negb (entry_Type data =? TypeInitiatingEvent) then Err corrupt
  else Ok (mkInitiatingEvent (negb (byte_at 1 data .& eventFlagHasExecutingMessage =? 0)) (slice 2 34 data)).

Definition initiating_encode (i : initiatingEvent) : Entry :=
  [TypeInitiatingEvent; if ie_hasExecMsg i then 0 .| eventFlagHasExecutingMessage else 0] ++ ie_logHash i.

Definition newExecutingLink (msg : ExecutingMessage) : outcome executingLink :=
  if 2 ^ 24 <? m_LogIdx msg then Err "log idx is too large"
  else Ok (mkExecutingLink (m_Chain msg) (m_BlockNum msg) (m_LogIdx msg) (m_Timestamp msg)).

Definition newExecutingLinkFromEntry (data : Entry) : outcome executingLink :=
  if negb (entry_Type data =? TypeExecutingLink) then Err corrupt
  else Ok (mkExecutingLink (le_decode (slice 1 5 data)) (le_decode (slice 5 13 data))
             (byte_at 13 data .| Z.shiftl (byte_at 14 data) 8 .| Z.shiftl (byte_at 15 data) 16)
             (le_decode (slice 16 24 data))).

Definition link_encode (e : executingLink) : Entry :=
  [TypeExecutingLink] ++ le_encode 4 (el_chain e) ++ le_encode 8 (el_blockNum e)
  ++ [wrap 8 (el_logIdx e); wrap 8 (Z.shiftr (el_logIdx e) 8); wrap 8 (Z.shiftr (el_logIdx e) 16)]
  ++ le_encode 8 (el_timestamp e) ++ replicate 10 0.

Definition newExecutingCheckFromEntry (data : Entry) : outcome hash :=
  if negb (entry_Type data =? TypeExecutingCheck) then Err corrupt else Ok (slice 1 33 data).

Definition check_encode (h : hash) : Entry := [TypeExecutingCheck] ++ h ++ [0].

Definition padding_encode : Entry := [TypePadding] ++ replicate 33 0.

(** ** The context (state.go) *)

Record logContext : Type := mkContext {
  nextEntryIndex : Z;
  blockHash : hash;
  blockNum : Z;
  timestamp : Z;
  logsSince : Z;
  logHash : hash;
  execMsg : option ExecutingMessage;
  need : Z;
  out : list Entry;
}.

Definition set_need (n : Z) (l : logContext) : logContext :=
  mkContext (nextEntryIndex l) (blockHash l) (blockNum l) (timestamp l) (logsSince l) (logHash l) (execMsg l) n (out l).
Definition set_logsSince (n : Z) (l : logContext) : logContext :=
  mkContext (nextEntryIndex l) (blockHash l) (blockNum l) (timestamp l) n (logHash l) (execMsg l) (need l) (out l).
Definition set_out (o : list Entry) (l : logContext) : logContext :=
  mkContext (nextEntryIndex l) (blockHash l) (blockNum l) (timestamp l) (logsSince l) (logHash l) (execMsg l) (need l) o.

Definition add_need (v : Z) (l : logContext) : logContext := set_need (flag_Add (need l) v) l.
Definition remove_need (v : Z) (l : logContext) : logContext := set_need (flag_Remove (need l) v) l.
Definition count_log (l : logContext) : logContext := set_logsSince (uadd 32 (logsSince l) 1) l.

(** A context at an index that has read nothing. *)
Definition context_at (index : Z) : logContext := mkContext index zero_hash 0 0 0 zero_hash None 0 [].

Definition hasCompleteBlock (l : logContext) : bool := negb (flag_Any (need l) FlagCanonicalHash).
Definition hasIncompleteLog (l : logContext) : bool :=
  flag_Any (need l) (FlagInitiatingEvent .| FlagExecutingLink .| FlagExecutingCheck).
Definition hasReadableLog (l : logContext) : bool := (0 <? logsSince l) && negb (hasIncompleteLog l).

Definition SealedBlock (l : logContext) : option (hash * Z) :=
  if negb (hasCompleteBlock l) then None else Some (blockHash l, blockNum l).
Definition SealedTimestamp (l : logContext) : option Z :=
  if negb (hasCompleteBlock l) then None else Some (timestamp l).
Definition InitMessage (l : logContext) : option (hash * Z) :=
  if negb (hasReadableLog l) then None else Some (logHash l, usub 32 (logsSince l) 1).
Definition ExecMessage (l : logContext) : option ExecutingMessage :=
  if hasCompleteBlock l && hasReadableLog l then execMsg l else None.

(** *** Reading an entry *)

Definition next_index (l : logContext) : logContext :=
  mkContext (nextEntryIndex l + 1) (blockHash l) (blockNum l) (timestamp l) (logsSince l) (logHash l) (execMsg l) (need l) (out l).

Definition process_checkpoint (entry : Entry) (l : logContext) : outcome logContext :=
  current ← newSearchCheckpointFromEntry entry;
  let fresh := sc_logsSince current =? 0 in
  Ok (mkContext (nextEntryIndex l) zero_hash (sc_blockNum current) (sc_timestamp current) (sc_logsSince current)
        (if fresh then zero_hash else logHash l) (if fresh then None else execMsg l)
        (flag_Add (need l) FlagCanonicalHash) (out l)).

Definition process_canonical (entry : Entry) (l : logContext) : outcome logContext :=
  if negb (flag_Any (need l) FlagCanonicalHash) then Err "not ready for canonical hash entry, already sealed the last block"
  else
    h ← newCanonicalHashFromEntry entry;
    Ok (remove_need FlagCanonicalHash
          (mkContext (nextEntryIndex l) h (blockNum l) (timestamp l) (logsSince l) (logHash l) (execMsg l) (need l) (out l))).

Definition process_initiating (entry : Entry) (l : logContext) : outcome logContext :=
  if negb (hasCompleteBlock l) then Err "did not complete block seal, cannot add log"
  else if hasIncompleteLog l then Err "cannot process log before last log completes"
  else
    evt ← newInitiatingEventFromEntry entry;
    let l := mkContext (nextEntryIndex l) (blockHash l) (blockNum l) (timestamp l) (logsSince l) (ie_logHash evt) None
               (need l) (out l) in
    let l := if ie_hasExecMsg evt then add_need (FlagExecutingLink .| FlagExecutingCheck) l else count_log l in
    Ok (remove_need FlagInitiatingEvent l).

Definition process_link (entry : Entry) (l : logContext) : outcome logContext :=
  if negb (flag_Any (need l) FlagExecutingLink) then Err "unexpected executing-link"
  else
    link ← newExecutingLinkFromEntry entry;
    let msg := mkExecutingMessage (el_chain link) (el_blockNum link) (el_logIdx link) (el_timestamp link) zero_hash in
    Ok (add_need FlagExecutingCheck (remove_need FlagExecutingLink
          (mkContext (nextEntryIndex l) (blockHash l) (blockNum l) (timestamp l) (logsSince l) (logHash l) (Some msg)
             (need l) (out l)))).

Definition process_check (entry : Entry) (l : logContext) : outcome logContext :=
  if flag_Any (need l) FlagExecutingLink then Err "need executing link to be applied before the check part"
  else if negb (flag_Any (need l) FlagExecutingCheck) then Err "unexpected executing check"
  else
    h ← newExecutingCheckFromEntry entry;
    match execMsg l with
    | None => Panic "nil pointer dereference"
    | Some m =>
        let m := mkExecutingMessage (m_Chain m) (m_BlockNum m) (m_LogIdx m) (m_Timestamp m) h in
        Ok (count_log (remove_need FlagExecutingCheck
              (mkContext (nextEntryIndex l) (blockHash l) (blockNum l) (timestamp l) (logsSince l) (logHash l) (Some m)
                 (need l) (out l))))
    end.

Definition process_padding (l : logContext) : logContext :=
  if flag_Any (need l) FlagPadding then remove_need FlagPadding l else remove_need FlagPadding2 l.

Definition processEntry (entry : Entry) (l : logContext) : outcome logContext :=
  if negb (zlen (out l) =? 0) then Panic "can only apply without appending if the state is still empty"
  else
    let t := entry_Type entry in
    l ← (if t =? TypeSearchCheckpoint then process_checkpoint entry l
         else if t =? TypeCanonicalHash then process_canonical entry l
         else if t =? TypeInitiatingEvent then process_initiating entry l
         else if t =? TypeExecutingLink then process_link entry l
         else if t =? TypeExecutingCheck then process_check entry l
         else if t =? TypePadding then Ok (process_padding l)
         else Err "unknown entry type");
    Ok (next_index l).

Definition ApplyEntry (entry : Entry) (l : logContext) : outcome logContext := processEntry entry l.

(** *** Writing entries *)

Definition appendEntry (entry : Entry) (l : logContext) : logContext := next_index (set_out (out l ++ [entry]) l).

(** The initiating event, or padding in front of a checkpoint that would separate
    it from its executing message. *)
Definition infer_initiating (l : logContext) : logContext :=
  let at_ := nextEntryIndex l mod searchCheckpointFrequency in
  let isExec := match execMsg l with Some _ => true | None => false end in
  if isExec && (at_ =? searchCheckpointFrequency - 1) then add_need FlagPadding l
  else if isExec && (at_ =? searchCheckpointFrequency - 2) then add_need (FlagPadding .| FlagPadding2) l
  else
    let l := remove_need FlagInitiatingEvent (appendEntry (initiating_encode (mkInitiatingEvent isExec (logHash l))) l) in
    if isExec then l else count_log l.

Definition infer (l : logContext) : outcome logContext :=
  let l := if nextEntryIndex l mod searchCheckpointFrequency =? 0 then add_need FlagSearchCheckpoint l else l in
  if flag_Any (need l) FlagSearchCheckpoint then
    let l := appendEntry (checkpoint_encode (mkCheckpoint (blockNum l) (logsSince l) (timestamp l))) l in
    Ok (remove_need FlagSearchCheckpoint (add_need FlagCanonicalHash l))
  else if flag_Any (need l) FlagCanonicalHash then
    Ok (remove_need FlagCanonicalHash (appendEntry (canonical_encode (blockHash l)) l))
  else if flag_Any (need l) FlagPadding then Ok (remove_need FlagPadding (appendEntry padding_encode l))
  else if flag_Any (need l) FlagPadding2 then Ok (remove_need FlagPadding2 (appendEntry padding_encode l))
  else if flag_Any (need l) FlagInitiatingEvent then Ok (infer_initiating l)
  else if flag_Any (need l) FlagExecutingLink then
    match execMsg l with
    | None => Panic "nil pointer dereference"
    | Some m => link ← newExecutingLink m; Ok (remove_need FlagExecutingLink (appendEntry (link_encode link) l))
    end
  else if flag_Any (need l) FlagExecutingCheck then
    match execMsg l with
    | None => Panic "nil pointer dereference"
    | Some m => Ok (count_log (remove_need FlagExecutingCheck (appendEntry (check_encode (m_Hash m)) l)))
    end
  else Err EOF.

(** What was inferred before an error stays. *)
Fixpoint inferFull_ (rounds : nat) (l : logContext) : outcome unit * logContext :=
  match rounds with
  | O => (Panic "hit sanity limit", l)
  | S rounds =>
      match infer l with
      | Ok l => inferFull_ rounds l
      | Err e => if is_err e EOF then (Ok (), l) else (Err e, l)
      | Panic e => (Panic e, l)
      end
  end.

Definition inferFull : stage logContext unit := inferFull_ 10.

Definition forceBlock (upd : BlockID) (t : Z) : stage logContext unit := fun l =>
  if negb (nextEntryIndex l =? 0) then (Err "can only bootstrap on top of an empty state", l)
  else inferFull (mkContext (nextEntryIndex l) (b_Hash upd) (b_Number upd) t 0 zero_hash None 0 []).

(** The checks of a block on top of the context. *)
Definition check_seal (parent : hash) (upd : BlockID) (t : Z) (l : logContext) : outcome unit :=
  if negb (bool_decide (blockHash l = parent)) then Err ErrConflict
  else if negb (bool_decide (blockHash l = zero_hash)) && negb (uadd 64 (blockNum l) 1 =? b_Number upd) then Err ErrConflict
  else if t <? timestamp l then Err ErrConflict
  else Ok ().

Definition set_block (upd : BlockID) (t : Z) (l : logContext) : logContext :=
  mkContext (nextEntryIndex l) (b_Hash upd) (b_Number upd) t 0 zero_hash None (flag_Add (need l) FlagSearchCheckpoint) (out l).

Definition ctx_SealBlock (parent : hash) (upd : BlockID) (t : Z) : stage logContext unit := fun l =>
  if nextEntryIndex l =? 0 then inferFull (set_block upd t l)
  else
    match inferFull l with
    | (Ok _, l) =>
        match check_seal parent upd t l with
        | Ok _ => inferFull (set_block upd t l)
        | e => (e, l)
        end
    | r => r
    end.

Definition check_log (parentBlock : BlockID) (logIdx : Z) (l : logContext) : outcome unit :=
  if negb (hasCompleteBlock l) then
    if blockNum l =? 0 then Err ErrOutOfOrder else Err "cannot append log before last known block is sealed"
  else if negb (bool_decide (blockHash l = b_Hash parentBlock)) then Err ErrOutOfOrder
  else if negb (blockNum l =? b_Number parentBlock) then Err ErrOutOfOrder
  else if negb (logIdx =? logsSince l) then Err ErrOutOfOrder
  else Ok ().

Definition set_log (lh : hash) (em : option ExecutingMessage) (l : logContext) : logContext :=
  let l := mkContext (nextEntryIndex l) (blockHash l) (blockNum l) (timestamp l) (logsSince l) lh em
             (flag_Add (need l) FlagInitiatingEvent) (out l) in
  match em with
  | Some _ => add_need (FlagExecutingLink .| FlagExecutingCheck) l
  | None => l
  end.

Definition ApplyLog (parentBlock : BlockID) (logIdx : Z) (lh : hash) (em : option ExecutingMessage) :
    stage logContext unit := fun l =>
  if bool_decide (parentBlock = zero_id) then (Err ErrOutOfOrder, l)
  else
    match inferFull l with
    | (Ok _, l) =>
        match check_log parentBlock logIdx l with
        | Ok _ => inferFull (set_log lh em l)
        | e => (e, l)
        end
    | r => r
    end.

(** ** Iterators (iterator.go) *)

Section DB.
Context {St : Type} `{ES : !EntryStore (list Z) St}.

(** A round per entry that is left, and one for the end. *)
Definition rounds_left (s : St) (l : logContext) : nat := S (Z.to_nat (store_Size s - nextEntryIndex l)).

Definition next (s : St) (l : logContext) : outcome (Z * logContext) :=
  match store_Read s (nextEntryIndex l) with
  | Ok entry => l ← ApplyEntry entry l; Ok (entry_Type entry, l)
  | Err e => if is_err e EOF then Err ErrFuture else Err e
  | Panic e => Panic e
  end.

Fixpoint End_ (fuel : nat) (s : St) (l : logContext) : outcome logContext :=
  match fuel with
  | O => Panic "out of fuel"
  | S fuel =>
      match next s l with
      | Ok (_, l) => End_ fuel s l
      | Err e => if is_err e ErrFuture then Ok l else Err e
      | Panic e => Panic e
      end
  end.

Definition iter_End (s : St) (l : logContext) : outcome logContext := End_ (rounds_left s l) s l.

Fixpoint NextInitMsg_ (fuel : nat) (s : St) (seenLog : bool) (l : logContext) : outcome logContext :=
  match fuel with
  | O => Panic "out of fuel"
  | S fuel =>
      '(typ, l) ← next s l;
      let seenLog := seenLog || (typ =? TypeInitiatingEvent) in
      if negb (hasCompleteBlock l) then NextInitMsg_ fuel s seenLog l
      else if hasIncompleteLog l then NextInitMsg_ fuel s seenLog l
      else if seenLog then Ok l
      else NextInitMsg_ fuel s seenLog l
  end.

Definition NextInitMsg (s : St) (l : logContext) : outcome logContext := NextInitMsg_ (rounds_left s l) s false l.

Fixpoint NextExecMsg_ (fuel : nat) (s : St) (l : logContext) : outcome logContext :=
  match fuel with
  | O => Panic "out of fuel"
  | S fuel =>
      l ← NextInitMsg s l;
      match execMsg l with Some _ => Ok l | None => NextExecMsg_ fuel s l end
  end.

Definition NextExecMsg (s : St) (l : logContext) : outcome logContext := NextExecMsg_ (rounds_left s l) s l.

Fixpoint NextBlock_ (fuel : nat) (s : St) (seenBlock : bool) (l : logContext) : outcome logContext :=
  match fuel with
  | O => Panic "out of fuel"
  | S fuel =>
      '(typ, l) ← next s l;
      let seenBlock := seenBlock || (typ =? TypeSearchCheckpoint) in
      if negb (hasCompleteBlock l) then NextBlock_ fuel s seenBlock l
      else if seenBlock then Ok l
      else NextBlock_ fuel s seenBlock l
  end.

Definition NextBlock (s : St) (l : logContext) : outcome logContext := NextBlock_ (rounds_left s l) s false l.

(** The function collects a value of type [A]; its error ends the traversal, with
    the context before the entry unless it is [ErrStop]. *)
Fixpoint Traverse_ {A} (fuel : nat) (s : St) (fn : logContext -> A -> A * option string) (l : logContext) (a : A) :
    outcome (A * logContext * string) :=
  match fuel with
  | O => Panic "out of fuel"
  | S fuel =>
      match next s l with
      | Err e => Ok (a, l, e)
      | Panic e => Panic e
      | Ok (_, l') =>
          if negb (need l' =? 0) then
            (* the snapshot of the next round is the context before it *)
            Traverse_ fuel s fn l' a
          else
            match fn l' a with
            | (a, None) => Traverse_ fuel s fn l' a
            | (a, Some e) => if is_err e ErrStop then Ok (a, l', e) else Ok (a, l, e)
            end
      end
  end.

Definition TraverseConditional {A} (s : St) (fn : logContext -> A -> A * option string) (l : logContext) (a : A) :
    outcome (A * logContext * string) :=
  Traverse_ (rounds_left s l) s fn l a.

(** ** The database (db.go) *)

Record DB : Type := mkDB {
  store : St;
  db_chainID : ChainID;
  lastEntryContext : logContext;
}.

Definition set_store (s : St) (db : DB) : DB := mkDB s (db_chainID db) (lastEntryContext db).
Definition set_context (l : logContext) (db : DB) : DB := mkDB (store db) (db_chainID db) l.

Definition newIterator (index : Z) : logContext := context_at index.

(** The largest index up to [i] with a canonical hash; -1 without one. *)
Fixpoint last_sealed (fuel : nat) (s : St) (i : Z) : outcome Z :=
  if i <? 0 then Ok i
  else
    match fuel with
    | O => Panic "out of fuel"
    | S fuel =>
        entry ← store_Read s i;
        if entry_Type entry =? TypeCanonicalHash then Ok i else last_sealed fuel s (i - 1)
    end.

Definition trimToLastSealed : stage St unit := fun s =>
  let last := store_LastEntryIdx s in
  match last_sealed (Z.to_nat (last + 1)) s last with
  | Ok i => if i <? last then store_Truncate i s else (Ok (), s)
  | Err e => (Err e, s)
  | Panic e => (Panic e, s)
  end.

(** The context of the entries of a store. *)
Definition last_context (s : St) : outcome logContext :=
  if store_LastEntryIdx s <? 0 then Ok (context_at 0)
  else
    let lastCheckpoint := store_LastEntryIdx s ÷ searchCheckpointFrequency * searchCheckpointFrequency in
    iter_End s (add_need FlagCanonicalHash (newIterator lastCheckpoint)).

Definition init (trim : bool) : stage DB unit := fun db =>
  match (if trim then trimToLastSealed (store db) else (Ok (), store db)) with
  | (Ok _, s) =>
      match last_context s with
      | Ok l => (Ok (), mkDB s (db_chainID db) l)
      | Err e => (Err e, set_store s db)
      | Panic e => (Panic e, set_store s db)
      end
  | (r, s) => (r, set_store s db)
  end.

Definition NewFromEntryStore (chainID : ChainID) (s : St) (trim : bool) : outcome DB :=
  match init trim (mkDB s chainID (context_at 0)) with
  | (Ok _, db) => Ok db
  | (Err e, _) => Err e
  | (Panic e, _) => Panic e
  end.

(** *** Finding a place *)

Definition readSearchCheckpoint (s : St) (entryIdx : Z) : outcome searchCheckpoint :=
  data ← store_Read s entryIdx; newSearchCheckpointFromEntry data.

(** Whether the checkpoint is before a number of logs on top of a block. *)
Definition checkpoint_before (c : searchCheckpoint) (sealedBlockNum logs : Z) : bool :=
  (sc_blockNum c <? sealedBlockNum) || ((sc_blockNum c =? sealedBlockNum) && (sc_logsSince c <? logs)).
Definition checkpoint_after (c : searchCheckpoint) (sealedBlockNum logs : Z) : bool :=
  (sealedBlockNum <? sc_blockNum c) || ((sc_blockNum c =? sealedBlockNum) && (logs <? sc_logsSince c)).

Fixpoint bisect (fuel : nat) (s : St) (sealedBlockNum logs i j : Z) : outcome Z :=
  if i + 1 <? j then
    match fuel with
    | O => Panic "out of fuel"
    | S fuel =>
        let h := Z.shiftr (i + j) 1 in
        checkpoint ← readSearchCheckpoint s (h * searchCheckpointFrequency);
        if checkpoint_before checkpoint sealedBlockNum logs then bisect fuel s sealedBlockNum logs h j
        else bisect fuel s sealedBlockNum logs i h
    end
  else if negb (i + 1 =? j) then Panic "expected to have 1 checkpoint left"
  else Ok i.

Definition find_checkpoint (db : DB) (sealedBlockNum logs : Z) : outcome Z :=
  if nextEntryIndex (lastEntryContext db) =? 0 then Err ErrFuture
  else
    let n := store_LastEntryIdx (store db) ÷ searchCheckpointFrequency + 1 in
    i ← bisect (Z.to_nat n) (store db) sealedBlockNum logs 0 n;
    let result := i * searchCheckpointFrequency in
    checkpoint ← readSearchCheckpoint (store db) result;
    if checkpoint_after checkpoint sealedBlockNum logs then Err ErrSkipped else Ok result.

(** First walk up to the block. *)
Fixpoint walk_blocks (fuel : nat) (s : St) (num : Z) (l : logContext) : outcome logContext :=
  match fuel with
  | O => Panic "out of fuel"
  | S fuel =>
      if match SealedBlock l with Some (_, n) => n =? num | None => false end then Ok l
      else
        l ← NextBlock s l;
        match SealedBlock l with
        | None => Panic "expected sealed block"
        | Some (_, n) =>
            if n <? num then walk_blocks fuel s num l
            else if negb (n =? num) then Err ErrConflict
            else Ok l
        end
  end.

(** Then up to the number of logs. *)
Fixpoint walk_logs (fuel : nat) (s : St) (num logIndex : Z) (l : logContext) : outcome logContext :=
  if logsSince l <? logIndex then
    match fuel with
    | O => Panic "out of fuel"
    | S fuel =>
        l ← NextInitMsg s l;
        match SealedBlock l with
        | None => Panic "expected sealed block"
        | Some (_, n) =>
            if num <? n then Err ErrConflict
            else
              match InitMessage l with
              | None => Panic "expected initializing message"
              | Some (_, idx) =>
                  let seen := uadd 32 idx 1 in
                  if seen <? logIndex then walk_logs fuel s num logIndex l
                  else if seen =? logIndex then Ok l
                  else Err "unexpected log-skip"
              end
        end
    end
  else Ok l.

Definition newIteratorAt (db : DB) (num logIndex : Z) : outcome logContext :=
  match find_checkpoint db num logIndex with
  | Err e => if is_err e EOF then Err ErrFuture else Err e
  | Panic e => Panic e
  | Ok index =>
      let s := store db in
      let rounds := S (S (Z.to_nat (store_Size s))) in
      l ← walk_blocks rounds s num (add_need FlagCanonicalHash (newIterator index));
      walk_logs rounds s num logIndex l
  end.

(** *** Queries *)

Definition FindSealedBlock (db : DB) (number : Z) : outcome BlockSeal :=
  iter ← newIteratorAt db number 0;
  match SealedBlock iter, SealedTimestamp iter with
  | Some (h, n), Some t =>
      if negb (n =? number) then Panic "found block seal does not match expected block number"
      else Ok (mkBlockSeal h n t)
  | _, _ => Panic "expected block"
  end.

Definition StartingBlock (db : DB) : outcome BlockSeal :=
  iter ← NextBlock (store db) (newIterator 0);
  let '(h, n) := default (zero_hash, 0) (SealedBlock iter) in
  Ok (mkBlockSeal h n (default 0 (SealedTimestamp iter))).

(** What [OpenBlock] remembers of the block. *)
Record opened_block : Type := mkOpened {
  op_ref : BlockRef;
  op_logCount : Z;
  op_execMsgs : gmap Z ExecutingMessage;
}.

Definition open_fn (num : Z) (l : logContext) (o : opened_block) : opened_block * option string :=
  let '(logIndex, count) := match InitMessage l with
                            | Some (_, i) => (i, uadd 32 i 1)
                            | None => (0, op_logCount o)
                            end in
  let msgs := match ExecMessage l with Some m => <[logIndex := m]> (op_execMsgs o) | None => op_execMsgs o end in
  let o := mkOpened (op_ref o) count msgs in
  match SealedBlock l with
  | None => (o, None)
  | Some (h, n) =>
      if n =? num then
        (mkOpened (mkL1BlockRef h n (l1_ParentHash (op_ref o)) (default 0 (SealedTimestamp l))) count msgs, Some ErrStop)
      else if num <? n then (o, Some ErrDataCorruption)
      else (o, None)
  end.

Definition OpenBlock (db : DB) (num : Z) : outcome (BlockRef * Z * gmap Z ExecutingMessage) :=
  if num =? 0 then
    seal ← StartingBlock db;
    Ok (mkL1BlockRef (s_Hash seal) (s_Number seal) zero_hash (s_Timestamp seal), 0, ∅)
  else
    blockIter ← newIteratorAt db (num - 1) 0;
    let parentHash := match SealedBlock blockIter with Some (h, _) => h | None => zero_hash end in
    '(o, _, e) ← TraverseConditional (store db) (open_fn num) blockIter
                   (mkOpened (mkL1BlockRef zero_hash 0 parentHash 0) 0 ∅);
    if is_err e ErrStop then Ok (op_ref o, op_logCount o, op_execMsgs o) else Err e.

Definition LatestSealedBlock (db : DB) : option BlockID :=
  let l := lastEntryContext db in
  if nextEntryIndex l =? 0 then None else Some (mkBlockID (blockHash l) (blockNum l)).

Definition findLogInfo (db : DB) (num logIdx : Z) : outcome (hash * logContext) :=
  if num =? 0 then Err ErrConflict
  else
    iter ← newIteratorAt db (num - 1) logIdx;
    iter ← NextInitMsg (store db) iter;
    match SealedBlock iter with
    | None => Panic "expected block"
    | Some (_, x) =>
        if x <? num - 1 then Panic "bug in newIteratorAt, expected to have found parent block"
        else if num - 1 <? x then Err ErrConflict
        else
          match InitMessage iter with
          | None => Panic "expected init message"
          | Some (lh, x) =>
              if negb (x =? logIdx) then Panic "bug in newIteratorAt, expected to have found log" else Ok (lh, iter)
          end
    end.

Definition contains_fn (num : Z) (l : logContext) (a : unit) : unit * option string :=
  match SealedBlock l with
  | None => (a, None)
  | Some (_, n) =>
      if n =? num then (a, Some ErrStop)
      else if num <? n then (a, Some ErrDataCorruption)
      else (a, None)
  end.

Definition Contains {K : Keccak} (db : DB) (query : ContainsQuery) : outcome BlockSeal :=
  let l := lastEntryContext db in
  if hasCompleteBlock l && (blockNum l <? q_BlockNum query) then
    if q_Timestamp query <? timestamp l then Err ErrConflict else Err ErrFuture
  else
    match findLogInfo db (q_BlockNum query) (q_LogIdx query) with
    | Err e => if is_err e ErrFuture && hasCompleteBlock l then Err ErrConflict else Err e
    | Panic e => Panic e
    | Ok (entryLogHash, iter) =>
        '(_, iter, e) ← TraverseConditional (store db) (contains_fn (q_BlockNum query)) iter ();
        if is_err e ErrStop then
          match SealedBlock iter with
          | None => Err "iterator stopped but no sealed block found"
          | Some (h, n) =>
              let t := default 0 (SealedTimestamp iter) in
              if negb (t =? q_Timestamp query) then Err ErrConflict
              else
                let entryChecksum := Checksum (mkChecksumArgs n (q_LogIdx query) t (db_chainID db) entryLogHash) in
                if negb (bool_decide (entryChecksum = q_Checksum query)) then Err ErrConflict
                else Ok (mkBlockSeal h n t)
          end
        else Err e
    end.

(** *** Writing *)

Definition flush : stage DB unit := fun db =>
  match store_Append (out (lastEntryContext db)) (store db) with
  | (Ok _, s) => (Ok (), mkDB s (db_chainID db) (set_out [] (lastEntryContext db)))
  | (r, s) => (r, set_store s db)
  end.

(** An operation on the context, then the entries it has produced. *)
Definition apply_context (op : stage logContext unit) : stage DB unit := fun db =>
  match op (lastEntryContext db) with
  | (Ok _, l) => flush (set_context l db)
  | (r, l) => (r, set_context l db)
  end.

Definition SealBlock (parentHash : hash) (block : BlockID) (t : Z) : stage DB unit :=
  apply_context (ctx_SealBlock parentHash block t).

Definition AddLog (lh : hash) (parentBlock : BlockID) (logIdx : Z) (em : option ExecutingMessage) : stage DB unit :=
  apply_context (ApplyLog parentBlock logIdx lh em).

(** The index to keep up to. *)
Definition rewind_target (db : DB) (newHead : BlockID) : outcome Z :=
  iter ← newIteratorAt db (b_Number newHead) 0;
  match SealedBlock iter with
  | None => Err ErrDataCorruption
  | Some (h, _) => if negb (bool_decide (h = b_Hash newHead)) then Err ErrConflict else Ok (nextEntryIndex iter - 1)
  end.

Definition Rewind (newHead : BlockID) : stage DB unit := fun db =>
  match rewind_target db newHead with
  | Ok target =>
      match store_Truncate target (store db) with
      | (Ok _, s) => init true (set_store s db)
      | (r, s) => (r, set_store s db)
      end
  | Err e => (Err e, db)
  | Panic e => (Panic e, db)
  end.

End DB.

Arguments DB : clear implicits.

#[export] Instance log_storage {K : Keccak} {St} `{!EntryStore (list Z) St} : LogStorage (DB St) := {|
  log_AddLog := AddLog;
  log_SealBlock := SealBlock;
  log_Rewind := Rewind;
  log_LatestSealedBlock := LatestSealedBlock;
  log_FindSealedBlock := FindSealedBlock;
  log_Contains := Contains;
  log_OpenBlock := OpenBlock;
|}.

End Logs.
