(* ===== verification/FromDAProps.v ===== *)
(** The searches of the derivation database: entries survive their encoding, and
    bisection finds what a scan of the entries finds. *)
From Stdlib Require Import ZArith Lia.
From stdpp Require Import base list strings numbers.
From S2P Require Import Prelude Rollup Frames Interop EntryDB FromDA.

(** ** Encoding *)

Definition seal_ok (b : BlockSeal) : Prop :=
  length (s_Hash b) = 32%nat /\ in_range 64 (s_Number b) /\ in_range 64 (s_Timestamp b).

Definition link_ok (d : LinkEntry) : Prop :=
  seal_ok (source d) /\ seal_ok (derived d) /\ 0 <= revision d < 2 ^ 63.

Lemma rev_small r : 0 <= r < 2 ^ 63 -> r .& 2 ^ 63 = 0.
Proof.
  intros Hr. apply Z.bits_inj'. intros n Hn. rewrite Z.land_spec, Z.pow2_bits_eqb, Z.bits_0 by lia.
  destruct (Z.eqb_spec 63 n) as [<- | ?]; [| apply andb_false_r]. rewrite andb_true_r.
  destruct (decide (r = 0)) as [-> | ?]; [apply Z.bits_0 |].
  apply Z.bits_above_log2; [lia |]. apply Z.log2_lt_pow2; lia.
Qed.

Lemma rev_Number_small r : 0 <= r < 2 ^ 63 -> rev_Number r = r.
Proof.
  intros Hr. unfold rev_Number. pose proof (Z.lor_ldiff_and r (2 ^ 63)) as H.
  by rewrite (rev_small r Hr), Z.lor_0_r in H.
Qed.

Lemma rev_Any_small r : 0 <= r < 2 ^ 63 -> rev_Any r = false.
Proof. intros Hr. apply Z.eqb_neq. change RevisionAny with (2 ^ 64 - 1). lia. Qed.

(** Reads a field: the fields before it are skipped. *)
Ltac read_field :=
  repeat (rewrite slice_skip; [| unfold zlen; rewrite ?length_be_encode; cbn; lia]);
  match goal with |- slice ?a ?b (?x ++ ?y) = _ =>
    replace a with 0 by (unfold zlen; rewrite ?length_be_encode; cbn; lia)
  end;
  apply slice_all; unfold zlen; rewrite ?length_be_encode; cbn; lia.

Lemma encode_decode d : link_ok d -> exists e, encode d = Ok e /\ zlen e = fromda_EntrySize /\ decode e = Ok d.
Proof.
  intros ((Hsh & Hsn & Hst) & (Hdh & Hdn & Hdt) & Hr). unfold encode. rewrite (rev_small _ Hr). cbn [Z.eqb negb].
  eexists. split; [reflexivity |]. split.
  { unfold zlen. rewrite !length_app, !length_be_encode, Hsh, Hdh. done. }
  destruct d as [[sh sn st] [dh dn dt] r inv]. cbn [source derived revision invalidated s_Hash s_Number s_Timestamp] in *.
  set (t := if inv then _ else _). set (e := [t; 0; 0; 0] ++ _).
  assert (slice 4 12 e = be_encode 8 sn) as E1 by (unfold e; read_field).
  assert (slice 12 20 e = be_encode 8 st) as E2 by (unfold e; read_field).
  assert (slice 20 28 e = be_encode 8 r) as E3 by (unfold e; read_field).
  assert (slice 28 36 e = be_encode 8 dn) as E4 by (unfold e; read_field).
  assert (slice 36 44 e = be_encode 8 dt) as E5 by (unfold e; read_field).
  assert (slice 44 76 e = sh) as E6 by (unfold e; read_field).
  assert (slice 76 108 e = dh) as E7 by (unfold e; read_field).
  unfold decode. rewrite E1, E2, E3, E4, E5, E6, E7, !be_decode_encode, !wrap_small by (done || (unfold in_range; lia)).
  rewrite (rev_small _ Hr). unfold t in *. by destruct inv.
Qed.

(** ** Bisection *)

Lemma Search_spec (p : Z -> bool) f fuel i j :
  0 <= i <= j -> (Z.to_nat (j - i) <= fuel)%nat -> (forall h, i <= h < j -> f h = Ok (p h)) ->
  exists r, Search_ fuel f i j None = Ok (r, None) /\ i <= r <= j /\
            (i < r -> p (r - 1) = false) /\ (r < j -> p r = true).
Proof.
  revert i j. induction fuel as [|fuel IH]; intros i j Hij Hf Hp; cbn [Search_].
  all: destruct (Z.ltb_spec i j) as [Hlt | Hge]; [| exists i; split_and!; done || lia].
  - lia.
  - assert (i <= (i + j) / 2 < j) as Hh by (split; [apply Z.div_le_lower_bound | apply Z.div_lt_upper_bound]; lia).
    set (h := (i + j) / 2) in *. rewrite Hp by lia. destruct (p h) eqn:Eh.
    + destruct (IH i h) as (r & -> & Hr & Hlo & Hhi); [lia | lia | intros; apply Hp; lia |].
      exists r. split_and!; try done; try lia. intros. destruct (decide (r = h)) as [-> | ?]; [done | apply Hhi; lia].
    + destruct (IH (h + 1) j) as (r & -> & Hr & Hlo & Hhi); [lia | lia | intros; apply Hp; lia |].
      exists r. split_and!; try done; try lia. intros. destruct (decide (r = h + 1)) as [-> | ?].
      * by replace (h + 1 - 1) with h by lia.
      * apply Hlo. lia.
Qed.

(** What a scan of the entries finds: from the front the first entry that is not
    before the needle, from the back (with the comparison flipped) the last. *)
Definition scan (rev_ accept : bool) (cmpFn : LinkEntry -> Z) (L : list LinkEntry) : outcome (Z * LinkEntry) :=
  match L with
  | [] => Err ErrFuture
  | _ =>
      match list_find (fun l => 0 <= cmpFn l) (if rev_ then reverse L else L) with
      | None => Err (if rev_ then ErrSkipped else ErrFuture)
      | Some (i, l) =>
          if cmpFn l =? 0 then Ok (if rev_ then zlen L - 1 - Z.of_nat i else Z.of_nat i, l)
          else if (i =? 0)%nat then Err (if rev_ then ErrFuture else ErrSkipped)
          else if accept then Ok (if rev_ then zlen L - 1 - Z.of_nat i else Z.of_nat i, l)
          else Err ErrNotExact
      end
  end.

(** Entries from [i] on are not before the needle if the entry [i] is not. *)
Definition monotone (rev_ : bool) (cmpFn : LinkEntry -> Z) (L : list LinkEntry) : Prop :=
  forall i j a b, (i <= j)%nat -> L !! i = Some a -> L !! j = Some b ->
    if rev_ then 0 <= cmpFn b -> 0 <= cmpFn a else 0 <= cmpFn a -> 0 <= cmpFn b.

Section Store.
Context {St : Type} `{ES : !EntryStore (list Z) St} {contents : St -> list (list Z)} {good : St -> Prop}.
Context `{SL : !EntryStoreLaws (list Z) St (fun e => zlen e = fromda_EntrySize) contents good}.

(** The database [s] holds the links [L]. *)
Definition holds (s : St) (L : list LinkEntry) : Prop :=
  good s /\ Forall2 (fun e d => encode d = Ok e) (contents s) L /\ Forall link_ok L.

Lemma holds_length s L : holds s L -> zlen (contents s) = zlen L.
Proof. intros (_ & H2 & _). unfold zlen. by rewrite (Forall2_length H2). Qed.

Lemma holds_size s L : holds s L -> store_Size s = zlen L.
Proof. intros H. rewrite <- (holds_length _ _ H). apply size_law, H. Qed.

Lemma holds_last s L : holds s L -> store_LastEntryIdx s = zlen L - 1.
Proof. intros H. rewrite <- (holds_length _ _ H). apply last_law, H. Qed.

Lemma readAt_holds s L i :
  holds s L -> 0 <= i -> readAt s i = match L !! Z.to_nat i with Some d => Ok d | None => Err ErrFuture end.
Proof.
  intros (Hg & H2 & Hok) Hi. unfold readAt. rewrite (read_law _ _ Hg Hi).
  destruct (L !! Z.to_nat i) as [d|] eqn:Hd.
  - destruct (Forall2_lookup_r _ _ _ _ _ H2 Hd) as (e & -> & He).
    destruct (encode_decode d) as (e' & He' & _ & Hdec); [by eapply Forall_lookup_1 |]. congruence.
  - assert (contents s !! Z.to_nat i = None) as ->; [| done].
    apply lookup_ge_None. rewrite (Forall2_length H2). by apply lookup_ge_None.
Qed.

Lemma latest_holds s L : holds s L -> latest s = match top L with Some d => Ok d | None => Err ErrFuture end.
Proof.
  intros H. unfold latest. rewrite (holds_last _ _ H). destruct (Z.ltb_spec (zlen L - 1) 0) as [Hl | Hl].
  - rewrite (zlen_0 L); [done | unfold zlen in *; lia].
  - rewrite (readAt_holds _ _ _ H) by done. unfold top, zlen. by replace (Z.to_nat (Z.of_nat (length L) - 1)) with (pred (length L)) by lia.
Qed.

(** The entry at a position of the search. *)
Lemma readAt_position s L (rev_ : bool) i :
  holds s L -> 0 <= i < zlen L ->
  exists d, (if rev_ then reverse L else L) !! Z.to_nat i = Some d /\
            readAt s (if rev_ then zlen L - 1 - i else i) = Ok d.
Proof.
  intros H Hi. unfold zlen in *. destruct rev_.
  - rewrite (readAt_holds _ _ _ H), reverse_lookup by lia.
    replace (Z.to_nat (Z.of_nat (length L) - 1 - i)) with (length L - S (Z.to_nat i))%nat by lia.
    destruct (lookup_lt_is_Some_2 L (length L - S (Z.to_nat i))) as [d Hd]; [lia |].
    exists d. by rewrite Hd.
  - rewrite (readAt_holds _ _ _ H) by lia. destruct (lookup_lt_is_Some_2 L (Z.to_nat i)) as [d Hd]; [lia |].
    exists d. by rewrite Hd.
Qed.

Lemma monotone_position (rev_ : bool) cmpFn L i j a b :
  monotone rev_ cmpFn L -> (i <= j)%nat ->
  (if rev_ then reverse L else L) !! i = Some a -> (if rev_ then reverse L else L) !! j = Some b ->
  0 <= cmpFn a -> 0 <= cmpFn b.
Proof.
  intros Hm Hij Ha Hb. destruct rev_; [| exact (Hm i j a b Hij Ha Hb)].
  pose proof (lookup_lt_Some _ _ _ Ha) as Hi. pose proof (lookup_lt_Some _ _ _ Hb) as Hj.
  rewrite length_reverse in *. rewrite reverse_lookup in Ha, Hb by done.
  apply (Hm (length L - S j)%nat (length L - S i)%nat b a); [lia | done | done].
Qed.

(** The bisection is the scan. *)
Lemma find_scan s L rev_ accept cmpFn :
  holds s L -> monotone rev_ cmpFn L -> find s rev_ accept cmpFn = scan rev_ accept cmpFn L.
Proof.
  intros H Hm. unfold find, scan. rewrite (holds_size _ _ H).
  destruct (decide (L = [])) as [-> | Hne]; [done |].
  assert (0 < zlen L) as Hn by (unfold zlen; destruct L; [done | cbn; lia]).
  replace (zlen L =? 0) with false by lia.
  assert (forall (T : Type) (x y : T), match L with [] => x | _ => y end = y) as -> by (intros; by destruct L).
  set (M := if rev_ then reverse L else L).
  assert (length M = length L) as HM by (unfold M; destruct rev_; [apply length_reverse | done]).
  pose (p := fun i => match M !! Z.to_nat i with Some d => 0 <=? cmpFn d | None => false end).
  destruct (Search_spec p (fun i => entry ← readAt s (if rev_ then zlen L - 1 - i else i); Ok (0 <=? cmpFn entry))
              (Z.to_nat (zlen L)) 0 (zlen L)) as (r & Hs & Hr & Hlo & Hhi); [lia | lia | |].
  { intros h Hh. destruct (readAt_position s L rev_ h H Hh) as (d & Hd & ->). cbn. unfold p, M. by rewrite Hd. }
  unfold go_Search. rewrite Hs. cbn [mbind outcome_bind]. clear Hs.
  assert (forall j y, (j < Z.to_nat r)%nat -> M !! j = Some y -> ~ 0 <= cmpFn y) as Hbefore.
  { intros j y Hj Hy Hc. assert (p (r - 1) = false) as Hp by (apply Hlo; lia). unfold p in Hp.
    destruct (lookup_lt_is_Some_2 M (Z.to_nat (r - 1))) as [d Hd]; [unfold zlen in *; lia |]. rewrite Hd in Hp.
    pose proof (monotone_position rev_ cmpFn L j (Z.to_nat (r - 1)) y d Hm ltac:(lia) Hy Hd Hc). lia. }
  destruct (Z.eqb_spec r (zlen L)) as [-> | Hrn].
  - replace (list_find _ M) with (@None (nat * LinkEntry)); [done |].
    symmetry. apply list_find_None. apply Forall_lookup_2. intros j y Hy. apply (Hbefore j y); [| done].
    apply lookup_lt_Some in Hy. unfold zlen. lia.
  - destruct (readAt_position s L rev_ r H) as (d & Hd & Hread); [lia |]. rewrite Hread. cbn [mbind outcome_bind].
    fold M in Hd. assert (0 <= cmpFn d) as Hcd by (specialize (Hhi ltac:(lia)); unfold p in Hhi; rewrite Hd in Hhi; lia).
    replace (list_find (fun l => 0 <= cmpFn l) M) with (Some (Z.to_nat r, d))
      by (symmetry; apply list_find_Some; split_and!; [done | done | intros j y ? ?; by apply (Hbefore j y)]).
    replace ((Z.to_nat r =? 0)%nat) with (r =? 0) by (destruct (Z.eqb_spec r 0), (Nat.eqb_spec (Z.to_nat r) 0); done || lia). rewrite Z2Nat.id by lia.
    destruct (cmpFn d =? 0); cbn [negb andb]; [done |]. destruct (r =? 0), accept; done.
Qed.

End Store.

(** The order of the derivation database: whatever is added, invalidated,
    replaced or rewound, and whatever writes fail, sources are contiguous,
    revisions do not decrease, and derived blocks are contiguous within a
    revision. *)

(** ** The invariant *)

(** The entry [b] follows the entry [a]: an L1 block or an L2 block is added, one
    of them; a new revision starts at its block, at most one after the last. *)
Definition link_step (a b : LinkEntry) : Prop :=
  invalidated a = false /\
  (seal_ID (source b) = seal_ID (source a) \/ s_Number (source b) = s_Number (source a) + 1) /\
  (s_Number (derived b) = s_Number (derived a) + 1 <-> seal_ID (source b) = seal_ID (source a)) /\
  ((revision b = revision a /\ invalidated b = false /\
    (seal_ID (derived b) = seal_ID (derived a) \/ s_Number (derived b) = s_Number (derived a) + 1)) \/
   (revision a < revision b <= s_Number (derived b) /\ s_Number (derived b) <= s_Number (derived a) + 1)).

Section Inv.
(** The height that a block hash commits to. *)
Variable num_of : hash -> Z.

Definition entry_inv (d : LinkEntry) : Prop :=
  link_ok d /\ s_Number (source d) < 2 ^ 64 - 1 /\
  revision d <= s_Number (derived d) < 2 ^ 63 /\ num_of (s_Hash (derived d)) = s_Number (derived d) /\
  (invalidated d = true -> revision d = s_Number (derived d)).

Record db_ok (L : list LinkEntry) : Prop := {
  ok_step : forall i a b, L !! i = Some a -> L !! S i = Some b -> link_step a b;
  ok_entry : forall i d, L !! i = Some d -> entry_inv d;
  ok_first : forall d, L !! 0%nat = Some d -> invalidated d = false;
}.

Lemma db_ok_nil : db_ok [].
Proof. by split. Qed.

Lemma db_ok_take n L : db_ok L -> db_ok (take n L).
Proof.
  intros [Hs He Hf]. split.
  - intros i a b Ha Hb. apply lookup_take_Some in Ha as [Ha _], Hb as [Hb _]. eauto.
  - intros i d Hd. apply lookup_take_Some in Hd as [Hd _]. eauto.
  - intros d Hd. apply lookup_take_Some in Hd as [Hd _]. eauto.
Qed.

Lemma db_ok_snoc L d :
  db_ok L -> entry_inv d ->
  match top L with Some a => link_step a d | None => invalidated d = false end -> db_ok (L ++ [d]).
Proof.
  intros [Hs He Hf] Hd Htop. split.
  - intros i a b Ha Hb. apply lookup_app_Some in Hb as [Hb | [Hle Hb]].
    + apply lookup_app_Some in Ha as [Ha | [Hle _]]; [eauto |]. apply lookup_lt_Some in Hb. lia.
    + apply list_lookup_singleton_Some in Hb as [Hi <-].
      apply lookup_app_Some in Ha as [Ha | [Hle' Ha]].
      * unfold top in Htop. replace (pred (length L)) with i in Htop by lia. by rewrite Ha in Htop.
      * apply list_lookup_singleton_Some in Ha as [Hi' _]. lia.
  - intros i x Hx. apply lookup_app_Some in Hx as [Hx | [_ Hx]]; [eauto |].
    by apply list_lookup_singleton_Some in Hx as [_ <-].
  - intros x Hx. destruct L as [|y L]; cbn in Hx; [| apply Hf; done].
    injection Hx as <-. exact Htop.
Qed.

(** The key space in order: sources, then revisions, then derived blocks. *)
Lemma db_order L i j a b :
  db_ok L -> (i <= j)%nat -> L !! i = Some a -> L !! j = Some b ->
  s_Number (source a) <= s_Number (source b) /\ revision a <= revision b /\
  (revision a = revision b -> s_Number (derived a) <= s_Number (derived b)) /\
  (s_Number (source a) = s_Number (source b) ->
     seal_ID (source a) = seal_ID (source b) /\
     s_Number (derived b) = s_Number (derived a) + Z.of_nat (j - i)).
Proof.
  intros Hok Hij Ha. remember (j - i)%nat as k eqn:Hk. revert j b Hij Hk. induction k as [|k IH]; intros j b Hij Hk Hb.
  - replace j with i in Hb by lia. replace b with a by congruence. split_and!; try lia. intros _. split; [done | lia].
  - destruct j as [|j]; [lia |].
    destruct (lookup_lt_is_Some_2 L j) as [c Hc]; [apply lookup_lt_Some in Hb; lia |].
    destruct (IH j c) as (H1 & H2 & H3 & H4); [lia | lia | done |].
    destruct (ok_step _ Hok _ _ _ Hc Hb) as (_ & Hs & Hone & Hr).
    assert (s_Number (source c) <= s_Number (source b)) as Hcb by (destruct Hs as [[= _ ?] | ?]; lia).
    split_and!; [lia | destruct Hr as [(? & _) | ?]; lia | |].
    + intros Heq. destruct Hr as [(Hrc & _ & Hd) | ?]; [| lia]. specialize (H3 ltac:(lia)).
      destruct Hd as [[= _ ?] | ?]; lia.
    + intros Heq. destruct H4 as [Hid Hdc]; [lia |]. destruct Hs as [Hs | ?]; [| lia].
      split; [congruence |]. apply Hone in Hs. lia.
Qed.

Lemma top_lookup {A} (L : list A) x : top L = Some x -> L !! pred (length L) = Some x.
Proof. done. Qed.

(** Blocks that are handed to the database. *)
Definition src_ok (r : BlockRef) : Prop :=
  length (l1_Hash r) = 32%nat /\ 0 <= l1_Number r < 2 ^ 64 - 1 /\ in_range 64 (l1_Time r).
Definition drv_ok (r : BlockRef) : Prop :=
  length (l1_Hash r) = 32%nat /\ 0 <= l1_Number r < 2 ^ 63 /\ in_range 64 (l1_Time r) /\
  num_of (l1_Hash r) = l1_Number r.
Definition rev_ok (r : Revision) : Prop := r = RevisionAny \/ 0 <= r < 2 ^ 63.

Section Store.
Context {St : Type} `{ES : !EntryStore (list Z) St} {contents : St -> list (list Z)} {good : St -> Prop}.
Context `{SL : !EntryStoreLaws (list Z) St (fun e => zlen e = fromda_EntrySize) contents good}.
Abbreviation holds := (holds (contents := contents) (good := good)).

(** The comparisons of the searches are monotone. *)

Lemma Compare_mono x y z : x <= y -> 0 <= Compare x z -> 0 <= Compare y z.
Proof. unfold Compare. destruct (Z.ltb_spec x z), (Z.ltb_spec y z), (Z.eqb_spec y z); lia. Qed.

Lemma Compare_mono_r x y z : x <= y -> 0 <= Compare z y -> 0 <= Compare z x.
Proof. unfold Compare. destruct (Z.ltb_spec z x), (Z.ltb_spec z y), (Z.eqb_spec z x); lia. Qed.

Lemma monotone_source n L : db_ok L -> monotone false (fun link => Compare (s_Number (source link)) n) L.
Proof. intros Hok i j a b Hij Ha Hb. apply Compare_mono. by eapply db_order. Qed.

Lemma monotone_source_rev n L : db_ok L -> monotone true (fun link => Compare n (s_Number (source link))) L.
Proof. intros Hok i j a b Hij Ha Hb. apply Compare_mono_r. by eapply db_order. Qed.

Lemma monotone_pair src drv L :
  db_ok L -> monotone false (fun link =>
    let res := Compare (s_Number (source link)) src in
    if res =? 0 then Compare (s_Number (derived link)) drv else res) L.
Proof.
  intros Hok i j a b Hij Ha Hb. destruct (db_order _ _ _ _ _ Hok Hij Ha Hb) as (H1 & _ & _ & H4). cbn zeta.
  unfold Compare. destruct (Z.ltb_spec (s_Number (source a)) src); cbn; [lia |].
  destruct (Z.eqb_spec (s_Number (source a)) src), (Z.ltb_spec (s_Number (source b)) src), (Z.eqb_spec (s_Number (source b)) src); cbn; try lia.
  destruct H4 as [_ H4]; [lia |]. destruct (Z.ltb_spec (s_Number (derived a)) drv); [lia |]. intros _.
  destruct (Z.ltb_spec (s_Number (derived b)) drv); [lia |]. destruct (_ =? _); lia.
Qed.

Lemma monotone_pair_rev src drv L :
  db_ok L -> monotone true (fun link =>
    let res := Compare src (s_Number (source link)) in
    if res =? 0 then Compare drv (s_Number (derived link)) else res) L.
Proof.
  intros Hok i j a b Hij Ha Hb. destruct (db_order _ _ _ _ _ Hok Hij Ha Hb) as (H1 & _ & _ & H4). cbn zeta.
  unfold Compare. destruct (Z.ltb_spec src (s_Number (source b))); cbn; [lia |].
  destruct (Z.eqb_spec src (s_Number (source b))), (Z.ltb_spec src (s_Number (source a))), (Z.eqb_spec src (s_Number (source a))); cbn; try lia.
  destruct H4 as [_ H4]; [lia |]. destruct (Z.ltb_spec drv (s_Number (derived b))); [lia |]. intros _.
  destruct (Z.ltb_spec drv (s_Number (derived a))); [lia |]. destruct (_ =? _); lia.
Qed.

Lemma find_ok s L rv acc cmpFn i v :
  holds s L -> find s rv acc cmpFn = Ok (i, v) ->
  0 <= i < zlen L /\ L !! Z.to_nat i = Some v /\ (acc = false -> cmpFn v = 0).
Proof.
  intros H Hf. unfold find in Hf. rewrite (holds_size _ _ H) in Hf.
  destruct (Z.eqb_spec (zlen L) 0) as [| Hn]; [done |]. assert (0 < zlen L) by (unfold zlen in *; lia).
  pose (p := fun i => match (if rv then reverse L else L) !! Z.to_nat i with Some d => 0 <=? cmpFn d | None => false end).
  destruct (Search_spec p (fun i => entry ← readAt s (if rv then zlen L - 1 - i else i); Ok (0 <=? cmpFn entry))
              (Z.to_nat (zlen L)) 0 (zlen L)) as (r & Hs & Hr & _); [lia | lia | |].
  { intros h Hh. destruct (readAt_position s L rv h H Hh) as (d & Hd & ->). cbn. unfold p. by rewrite Hd. }
  unfold go_Search in Hf. rewrite Hs in Hf. cbn [mbind outcome_bind] in Hf.
  destruct (Z.eqb_spec r (zlen L)) as [| Hrn]; [done |].
  destruct (readAt_position s L rv r H) as (d & _ & Hread); [lia |]. rewrite Hread in Hf. cbn [mbind outcome_bind] in Hf.
  destruct (negb (cmpFn d =? 0) && (r =? 0)) eqn:E1; [done |].
  destruct (negb (cmpFn d =? 0) && negb acc) eqn:E2; [done |]. injection Hf as <- <-.
  split; [destruct rv; lia |]. split.
  - rewrite (readAt_holds _ _ _ H) in Hread by (destruct rv; lia).
    destruct (L !! _) as [d'|] eqn:Hd; [| done]. congruence.
  - intros ->. destruct (Z.eqb_spec (cmpFn d) 0); done.
Qed.

Lemma Compare_0 x y : Compare x y = 0 -> x = y.
Proof. unfold Compare. destruct (Z.ltb_spec x y), (Z.eqb_spec x y); done. Qed.

Lemma rev_Cmp_0 r n : rev_Any r = false -> rev_Cmp r n = 0 -> rev_Number r = n.
Proof. unfold rev_Cmp. intros ->. destruct (n <? _); [done |]. destruct (Z.eqb_spec (rev_Number r) n); done. Qed.

Lemma derivedNumToLastSource_ok s L n r i v :
  holds s L -> 0 <= r < 2 ^ 63 -> derivedNumToLastSource s n r = Ok (i, v) ->
  L !! Z.to_nat i = Some v /\ s_Number (derived v) = n /\ rev_Number (revision v) = r.
Proof.
  intros H Hr Hf. destruct (find_ok _ _ _ _ _ _ _ H Hf) as (_ & Hv & Hc). specialize (Hc eq_refl).
  unfold cmp_last_source in Hc. destruct (Z.eqb_spec (rev_Cmp r (rev_Number (revision v))) 0) as [E | E]; [| done].
  apply rev_Cmp_0 in E; [| by apply rev_Any_small]. rewrite rev_Number_small in E by done.
  apply Compare_0 in Hc. done.
Qed.

(** ** Writing *)

Lemma holds_append s L d :
  holds s L -> link_ok d ->
  let '(r, s') := append_link d s in
  (r = Ok () /\ holds s' (L ++ [d])) \/ ((exists e, r = Err e) /\ holds s' L).
Proof.
  intros (Hg & H2 & Hok) Hd. unfold append_link. destruct (encode_decode d Hd) as (e & Henc & Hlen & _). rewrite Henc.
  pose proof (append_law s [e] Hg) as Ha. destruct (store_Append [e] s) as [r s'].
  destruct Ha as [Hg' [[-> Hc] | [He Hc]]]; [constructor; [done | constructor] | left | right]; (split; [done |]); unfold FromDAProps.holds; rewrite Hc.
  - split_and!; [done | apply Forall2_app; [done | constructor; [done | constructor]]
               | apply Forall_app; split; [done | constructor; [done | constructor]]].
  - done.
Qed.

Lemma holds_truncate s L i :
  holds s L -> -1 <= i < zlen L ->
  let '(r, s') := store_Truncate i s in
  (r = Ok () /\ holds s' (take (Z.to_nat (i + 1)) L)) \/ ((exists e, r = Err e) /\ holds s' L).
Proof.
  intros Hh Hi. pose proof Hh as (Hg & H2 & Hok).
  pose proof (truncate_law s i Hg) as Ht. rewrite (holds_length _ _ Hh) in Ht. destruct (store_Truncate i s) as [r s'].
  destruct (Ht Hi) as [Hg' [[-> Hc] | [He Hc]]]; [left | right]; (split; [done |]); unfold FromDAProps.holds; rewrite Hc.
  - split_and!; [done | by apply Forall2_take | by apply Forall_take].
  - done.
Qed.

(** The revision of a new link: the last one, or one that starts with it. *)
Lemma link_revision_ok last drv inv rev rev' :
  entry_inv last -> 0 <= l1_Number drv < 2 ^ 63 -> rev_ok rev -> (inv <> zero_hash -> 0 <= rev < 2 ^ 63) ->
  link_revision last drv inv rev = Ok rev' ->
  0 <= rev' < 2 ^ 63 /\
  (if decide (inv = zero_hash) then rev' = revision last \/ rev' <> revision last /\ l1_Number drv = rev'
   else if decide (l1_Hash drv = inv) then rev' <> revision last /\ l1_Number drv = rev'
   else rev' = rev) /\
  (inv <> zero_hash -> rev' = rev).
Proof.
  intros ((_ & _ & Hlr) & _) Hd Hrev Hinv Hr. unfold link_revision, is_zero_hash in Hr.
  destruct (rev_Any rev) eqn:Hany.
  - assert (inv = zero_hash) as ->.
    { destruct (decide (inv = zero_hash)); [done |]. rewrite rev_Any_small in Hany; [done | auto]. }
    injection Hr as <-. rewrite decide_True by done. split_and!; [lia | lia | by left | done].
  - assert (0 <= rev < 2 ^ 63) as Hs by (destruct Hrev as [-> | ?]; [done | done]).
    rewrite rev_Number_small in Hr by done. case_decide as Hz.
    + rewrite bool_decide_true in Hr by done.
      destruct (Z.eqb_spec (revision last) rev); cbn in Hr.
      * injection Hr as <-. split_and!; [lia | lia | left; lia | done].
      * destruct (Z.eqb_spec (l1_Number drv) rev); [| done]. injection Hr as <-. split_and!; [lia | lia | right; lia | done].
    + rewrite bool_decide_false in Hr by done. case_decide as Hh.
      * rewrite bool_decide_true in Hr by done.
        destruct (Z.eqb_spec (revision last) rev); [done |]. destruct (Z.eqb_spec (l1_Number drv) rev); [| done].
        injection Hr as <-. split_and!; try done; lia.
      * rewrite bool_decide_false in Hr by done. injection Hr as <-. split_and!; try done; lia.
Qed.

(** The L2 block of a new link: the last one again, the next one, or, when it
    invalidates, an older one of the same revision. *)
Lemma check_derived_ok s L last drv inv :
  holds s L -> db_ok L -> top L = Some last -> 0 <= l1_Number drv < 2 ^ 63 ->
  check_derived s last drv inv = Ok () ->
  (l1_Number drv = s_Number (derived last) /\ s_Hash (derived last) = (if decide (inv = zero_hash) then l1_Hash drv else inv)) \/
  l1_Number drv = s_Number (derived last) + 1 \/
  (inv <> zero_hash /\ l1_Number drv < s_Number (derived last) /\
   exists i v, L !! i = Some v /\ s_Number (derived v) = l1_Number drv /\ revision v = revision last /\
               s_Hash (derived v) = inv).
Proof.
  intros H Hok Htop Hd Hc. pose proof (ok_entry _ Hok _ _ Htop) as ((_ & (_ & Hn & _) & Hr) & _ & Hln & _).
  unfold check_derived, is_zero_hash, uadd in Hc. rewrite wrap_small in Hc by (unfold in_range in *; lia).
  destruct (Z.eqb_spec (s_Number (derived last)) (l1_Number drv)) as [E1 | E1].
  - left. split; [done |]. case_decide as Hz.
    + rewrite bool_decide_true in Hc by done. cbn in Hc. by destruct (bool_decide_reflect (s_Hash (derived last) = l1_Hash drv)).
    + rewrite bool_decide_false in Hc by done. cbn in Hc. by destruct (bool_decide_reflect (s_Hash (derived last) = inv)).
  - right. destruct (Z.eqb_spec (s_Number (derived last) + 1) (l1_Number drv)) as [E2 | E2]; [left; lia |].
    destruct (Z.ltb_spec (s_Number (derived last) + 1) (l1_Number drv)); [done |]. right.
    destruct (bool_decide_reflect (inv = zero_hash)) as [| Hz]; [done |]. cbn in Hc.
    split; [done |]. split; [lia |]. inv_ok. destruct a as [i v].
    destruct (derivedNumToLastSource_ok s L _ _ i v H ltac:(exact Hr) Ha) as (Hv & Hn' & Hr').
    destruct (bool_decide_reflect (s_Hash (derived v) = inv)); [| done].
    exists (Z.to_nat i), v. split_and!; try done.
    destruct (ok_entry _ Hok _ _ Hv) as ((_ & _ & Hrv) & _). by rewrite rev_Number_small in Hr' by done.
Qed.

Lemma check_source_ok s last src drv :
  s_Number (source last) < 2 ^ 64 - 1 -> 0 <= s_Number (source last) ->
  check_source s last src drv = Ok () ->
  mkBlockID (l1_Hash src) (l1_Number src) = seal_ID (source last) \/ l1_Number src = s_Number (source last) + 1.
Proof.
  intros Hn Hn0 Hc. unfold check_source, uadd in Hc. rewrite wrap_small in Hc by (unfold in_range in *; lia).
  destruct (Z.eqb_spec (s_Number (source last)) (l1_Number src)) as [E1 | E1].
  - left. destruct (bool_decide_reflect (s_Hash (source last) = l1_Hash src)) as [Eh | Eh]; [| done].
    unfold seal_ID. by rewrite Eh, E1.
  - destruct (Z.eqb_spec (s_Number (source last) + 1) (l1_Number src)) as [E2 | E2]; [right; lia |].
    destruct (_ <? _); [done |]. destruct (bool_decide _); [| done]. inv_ok. destruct a as [i v].
    destruct (bool_decide _); done.
Qed.

(** What a replacement has to satisfy: the revision is the height of the block
    it replaces, and starts here. *)
Definition replaces (last : LinkEntry) (inv : hash) (rev : Revision) : Prop :=
  revision last < rev /\ num_of inv = rev /\ rev <= s_Number (derived last) + 1.

(** A block that is invalidated in an L1 block comes after those derived there. *)
Definition fresh (last : LinkEntry) (src : BlockRef) (inv : hash) : Prop :=
  l1_Number src = s_Number (source last) -> s_Number (derived last) < num_of inv.

Lemma link_to_append_ok s L last src drv inv rev d :
  holds s L -> db_ok L -> top L = Some last -> src_ok src -> drv_ok drv -> rev_ok rev ->
  (inv <> zero_hash -> 0 <= rev < 2 ^ 63) -> (inv <> zero_hash -> l1_Hash drv <> inv -> replaces last inv rev) ->
  (inv <> zero_hash -> fresh last src inv) ->
  link_to_append s src drv inv rev = Ok (Some d) ->
  entry_inv d /\ link_step last d /\ source d = BlockSealFromRef src /\ derived d = BlockSealFromRef drv /\
  invalidated d = (negb (is_zero_hash inv) && bool_decide (l1_Hash drv = inv)) /\
  (inv <> zero_hash -> revision d = rev).
Proof.
  intros H Hok Htop Hsrc Hdrv Hrev Hinv Hrep Hfresh Hl. pose proof (ok_entry _ Hok _ _ Htop) as Hlast.
  pose proof Hlast as (((_ & Hls & _) & (_ & Hldn & _) & Hlr) & Hlsn & Hldr & Hlnum & _).
  unfold in_range in Hls, Hldn.
  unfold link_to_append in Hl. rewrite (latest_holds _ _ H), Htop in Hl. cbn [mbind outcome_bind] in Hl.
  destruct (invalidated last) eqn:Hil; [done |]. inv_ok. rename a into rev'.
  unfold uadd in Hl. rewrite !wrap_small in Hl by (unfold in_range; lia).
  destruct (((_ =? _) && _)%bool) eqn:Hboth; [done |].
  destruct (bool_decide (seal_ID (derived last) = _) && _) eqn:Hsame; [done |]. inv_ok.
  destruct a, a0. destruct Hsrc as (Hs1 & Hs2 & Hs3). destruct Hdrv as (Hd1 & Hd2 & Hd3 & Hd4).
  apply link_revision_ok in Ha as (Hr' & Hcase & Hreq); [| done..].
  apply (check_derived_ok s L) in Ha0; [| done..]. apply check_source_ok in Ha1; [| lia | lia].
  assert (l1_Number drv <= s_Number (derived last) + 1) as Hup by (destruct Ha0 as [[? _] | [? | (_ & ? & _)]]; lia).
  assert (revision last <= l1_Number drv) as Hlow.
  { destruct Ha0 as [[? _] | [? | (_ & _ & i & v & Hv & <- & <- & _)]]; [lia | lia |].
    by destruct (ok_entry _ Hok _ _ Hv) as (_ & _ & [? _] & _). }
  assert (revision last < rev' <= l1_Number drv \/
          rev' = revision last /\ inv = zero_hash /\
          (mkBlockID (l1_Hash drv) (l1_Number drv) = seal_ID (derived last) \/ l1_Number drv = s_Number (derived last) + 1)) as Hrv.
  { destruct (decide (inv = zero_hash)) as [Hz | Hz].
    - destruct Hcase as [-> | [? ?]]; [right | left; lia]. split_and!; [done | done |].
      destruct Ha0 as [[? Hh] | [? | (? & _)]]; [left | by right | done]. unfold seal_ID. by rewrite Hh, H0.
    - left. case_decide as Hh; [lia |]. subst rev'. destruct (Hrep Hz Hh) as (? & Hnum & ?). split; [done |].
      destruct Ha0 as [[? Hh'] | [? | (_ & _ & i & v & Hv & Hvn & _ & Hvh)]]; [| lia |].
      + rewrite <- Hh' in Hnum. lia.
      + destruct (ok_entry _ Hok _ _ Hv) as (_ & _ & _ & Hvnum & _). rewrite Hvh in Hvnum. lia. }
  assert (l1_Number drv = s_Number (derived last) + 1 <-> mkBlockID (l1_Hash src) (l1_Number src) = seal_ID (source last)) as Hone.
  { split; [intros Hd; destruct Ha1; [done | lia] |]. intros Hid.
    assert (l1_Number src = s_Number (source last)) as Hsn by (by injection Hid).
    destruct Ha0 as [[Hn Hh] | [? | (Hz & Hlt & i & v & Hv & Hvn & _ & Hvh)]]; [| done |]; exfalso.
    - destruct (decide (inv = zero_hash)) as [Hz | Hz].
      + rewrite !bool_decide_true in Hsame; [done | by rewrite <- Hid | unfold seal_ID, L1BlockRef_ID; congruence].
      + specialize (Hfresh Hz Hsn). rewrite <- Hh in Hfresh. lia.
    - specialize (Hfresh Hz Hsn). destruct (ok_entry _ Hok _ _ Hv) as (_ & _ & _ & Hvnum & _).
      rewrite Hvh in Hvnum. lia. }
  cbn [source derived revision invalidated BlockSealFromRef s_Number s_Hash s_Timestamp seal_ID].
  split_and!; try done.
  - unfold entry_inv, link_ok, seal_ok. cbn. split_and!; try done; try (unfold in_range; lia).
    intros Hi. apply andb_true_iff in Hi as [Hz Hh]. apply bool_decide_eq_true in Hh.
    apply negb_true_iff, bool_decide_eq_false in Hz. rewrite decide_False, decide_True in Hcase by done. lia.
  - unfold link_step. cbn. split; [done |]. split; [done |]. split; [exact Hone |].
    destruct Hrv as [? | (-> & -> & Hc)]; [right; lia |]. left. split_and!; [done | | done].
    unfold is_zero_hash. by rewrite bool_decide_true.
Qed.

(** A link to be added: what it becomes, and that the order is kept. *)
Definition added (L : list LinkEntry) (src drv : BlockRef) (inv : hash) (rev : Revision) (L' : list LinkEntry) : Prop :=
  (L' = L /\ exists last, top L = Some last /\ seal_ID (derived last) = L1BlockRef_ID drv /\
                          seal_ID (source last) = L1BlockRef_ID src) \/
  exists d, L' = L ++ [d] /\ source d = BlockSealFromRef src /\ derived d = BlockSealFromRef drv /\
            invalidated d = (negb (is_zero_hash inv) && bool_decide (l1_Hash drv = inv)) /\
            (inv <> zero_hash -> revision d = rev).

Lemma addLink_ok s L src drv inv rev :
  holds s L -> db_ok L -> src_ok src -> drv_ok drv -> rev_ok rev ->
  (inv <> zero_hash -> 0 <= rev < 2 ^ 63) -> (L = [] -> rev = RevisionAny \/ rev <= l1_Number drv) ->
  (forall last, top L = Some last -> inv <> zero_hash -> l1_Hash drv <> inv -> replaces last inv rev) ->
  (forall last, top L = Some last -> inv <> zero_hash -> fresh last src inv) ->
  let '(r, s') := addLink src drv inv rev s in
  exists L', holds s' L' /\ db_ok L' /\ ((r = Ok () /\ added L src drv inv rev L') \/ (r <> Ok () /\ L' = L)).
Proof.
  intros H Hok Hsrc Hdrv Hrev Hinv Hempty Hrep Hfresh. unfold addLink. rewrite (holds_size _ _ H).
  destruct (Z.eqb_spec (zlen L) 0) as [->%zlen_0 | Hne].
  - set (is_inv := negb (is_zero_hash inv) && _). destruct is_inv eqn:Hi; [by exists []; auto |].
    assert (0 <= (if rev_Any rev then FirstRevision else rev) <= l1_Number drv) as Hr.
    { destruct Hdrv as (_ & ? & _). unfold FirstRevision. destruct (rev_Any rev) eqn:Ha; [lia |].
      destruct Hrev as [-> | ?]; [done |]. destruct (Hempty eq_refl) as [-> | ?]; [done | lia]. }
    assert (inv <> zero_hash -> (if rev_Any rev then FirstRevision else rev) = rev) as Hreq.
    { intros Hz. by rewrite rev_Any_small by auto. }
    set (r0 := if rev_Any rev then _ else _) in *. set (d := mkLink _ _ _ _).
    assert (entry_inv d) as Hd.
    { destruct Hsrc as (? & ? & ?), Hdrv as (? & ? & ? & ?). unfold entry_inv, link_ok, seal_ok, d. cbn.
      unfold in_range in *. split_and!; try done; lia. }
    pose proof (holds_append s [] d H (proj1 Hd)) as Ha. destruct (append_link d s) as [r s'].
    destruct Ha as [[-> Hh] | [[e ->] Hh]]; [exists [d] | by exists []; auto].
    split_and!; [done | by apply (db_ok_snoc []) | left]. split; [done |]. right.
    exists d. split_and!; [done | done | done | exact (eq_sym Hi) | done].
  - destruct (top L) as [last|] eqn:Htop; [| apply top_None in Htop as ->; done].
    destruct (link_to_append s src drv inv rev) as [[d|]|e|e] eqn:Hl.
    + destruct (link_to_append_ok s L last src drv inv rev d) as (Hd & Hstep & Hs & Hdr & Hi & Hr); [done.. | by apply Hrep | by apply Hfresh | done |].
      pose proof (holds_append s L d H (proj1 Hd)) as Ha. destruct (append_link d s) as [r s'].
      destruct Ha as [[-> Hh] | [[e ->] Hh]]; [exists (L ++ [d]) | by exists L; auto].
      split_and!; [done | apply db_ok_snoc; [done | done | by rewrite Htop] | left]. split; [done |]. right. eauto 10.
    + exists L. split_and!; [done | done | left]. split; [done |]. left. split; [done |]. exists last. split; [done |].
      unfold link_to_append in Hl. rewrite (latest_holds _ _ H), Htop in Hl. cbn [mbind outcome_bind] in Hl.
      destruct (invalidated last); [done |]. inv_ok. destruct (_ && _); [done |].
      destruct (bool_decide_reflect (seal_ID (derived last) = L1BlockRef_ID drv)), (bool_decide_reflect (seal_ID (source last) = L1BlockRef_ID src));
        cbn in Hl; try done; inv_ok; done.
    + by exists L; auto.
    + by exists L; auto.
Qed.

(** ** The operations *)

Inductive db_op : Type :=
| OpAdd (src drv : BlockRef) (rev : Revision)
| OpReplace (drv : BlockRef) (inv : hash)
| OpInvalidate (inv : DerivedBlockRefPair)
| OpRewind (t : DerivedBlockSealPair) (including : bool)
| OpRewindToScope (scope : BlockID)
| OpRewindToFirstDerived (v : BlockID) (rev : Revision).

Definition run_op (op : db_op) : stage St unit :=
  match op with
  | OpAdd src drv rev => AddDerived src drv rev
  | OpReplace drv inv => _ ← ReplaceInvalidatedBlock drv inv; mret ()
  | OpInvalidate inv => RewindAndInvalidate inv
  | OpRewind t including => Rewind t including
  | OpRewindToScope scope => RewindToScope scope
  | OpRewindToFirstDerived v rev => RewindToFirstDerived v rev
  end.

(** Blocks have heights and hashes of their widths; the first entry does not
    start a revision after itself. *)
Definition op_ok (s : St) (op : db_op) : Prop :=
  match op with
  | OpAdd src drv rev =>
      src_ok src /\ drv_ok drv /\ rev_ok rev /\ (store_Size s = 0 -> rev = RevisionAny \/ rev <= l1_Number drv)
  | OpReplace drv _ => drv_ok drv
  | OpInvalidate inv => src_ok (rp_Source inv) /\ drv_ok (rp_Derived inv)
  | _ => True
  end.

Lemma rewindLocked_ok s L t including :
  holds s L -> db_ok L ->
  let '(r, s') := rewindLocked t including s in exists L', holds s' L' /\ db_ok L' /\ L' `prefix_of` L.
Proof.
  intros H Hok. unfold rewindLocked. destruct (rewind_target s t including) as [target|e|e] eqn:Ht.
  2, 3: by exists L.
  assert (-1 <= target < zlen L) as Hb.
  { unfold rewind_target in Ht. inv_ok. destruct a as [i link]. apply (find_ok s L) in Ha as (Hi & _); [| done].
    destruct (negb _); [done |]. destruct (negb _); [done |]. inv_ok. destruct including; lia. }
  pose proof (holds_truncate s L target H Hb) as Htr. destruct (store_Truncate target s) as [r s'].
  destruct Htr as [[-> Hh] | [_ Hh]]; [eexists; split_and!; [exact Hh | by apply db_ok_take | apply prefix_take] | by exists L].
Qed.

Lemma lookupOrAfter_before s L src drv i link last :
  holds s L -> db_ok L -> lookupOrAfter s src drv = Ok (i, link) ->
  top (take (Z.to_nat i) L) = Some last -> src = s_Number (source last) -> s_Number (derived last) < drv.
Proof.
  intros H Hok Hf Htop ->. unfold lookupOrAfter in Hf. rewrite (find_scan s L) in Hf; [| done | by apply monotone_pair].
  unfold scan in Hf. destruct L as [|d0 L0] eqn:EL; [done |]. rewrite <- EL in *. clear EL.
  destruct (list_find _ L) as [[k l]|] eqn:Hlf; [| done].
  assert (i = Z.of_nat k) as -> by (destruct (_ =? 0); [by inv_ok |]; destruct (_ =? 0)%nat; [done | by inv_ok]).
  rewrite Nat2Z.id in Htop. apply list_find_Some in Hlf as (Hl & _ & Hbef).
  apply top_lookup, lookup_take_Some in Htop as [Hlast Hlt]. rewrite length_take in Hlast, Hlt.
  specialize (Hbef _ _ Hlast Hlt). unfold Compare in Hbef. rewrite Z.ltb_irrefl, Z.eqb_refl in Hbef. cbn in Hbef.
  destruct (Z.ltb_spec (s_Number (derived last)) drv); [done |]. destruct (_ =? _); lia.
Qed.

Lemma invalidate_ok s L inv :
  holds s L -> db_ok L -> src_ok (rp_Source inv) -> drv_ok (rp_Derived inv) ->
  let '(r, s') := RewindAndInvalidate inv s in
  exists L', holds s' L' /\ db_ok L' /\
    (r = Ok () -> exists L0, L0 `prefix_of` L /\
       (forall last, top L0 = Some last -> fresh last (rp_Source inv) (l1_Hash (rp_Derived inv))) /\
       added L0 (rp_Source inv) (rp_Derived inv) (l1_Hash (rp_Derived inv)) (l1_Number (rp_Derived inv)) L').
Proof.
  intros H Hok Hsrc Hdrv. unfold RewindAndInvalidate. destruct (invalidation_target s inv) as [target|e|e] eqn:Ht.
  2, 3: by exists L.
  assert (-1 <= target < zlen L /\
          forall last, top (take (Z.to_nat (target + 1)) L) = Some last ->
            fresh last (rp_Source inv) (l1_Hash (rp_Derived inv))) as [Hb Hbefore].
  { unfold invalidation_target in Ht. inv_ok. destruct a as [i link].
    assert (target = i - 1) as -> by (destruct (invalidated link); [done |]; destruct (negb _); [done |]; destruct (_ && _); [done |]; by inv_ok).
    clear Ht. pose proof (find_ok s L _ _ _ _ _ H Ha) as (Hi & _). split; [lia |].
    intros last Hlast Hsn. replace (i - 1 + 1) with i in Hlast by lia.
    pose proof Hdrv as (_ & _ & _ & ->). by eapply lookupOrAfter_before. }
  pose proof (holds_truncate s L target H Hb) as Htr. destruct (store_Truncate target s) as [r s'].
  destruct Htr as [[-> Hh] | [[e ->] Hh]]; [| by exists L].
  pose proof Hdrv as (_ & Hn & _).
  pose proof (addLink_ok s' _ (rp_Source inv) (rp_Derived inv) (l1_Hash (rp_Derived inv)) (l1_Number (rp_Derived inv))
                Hh (db_ok_take _ _ Hok) Hsrc Hdrv) as Ha.
  destruct (addLink _ _ _ _ s') as [r s2]. destruct Ha as (L' & Hh' & Hok' & Hr); [by right | done | intros; right; lia | done | |].
  { intros last Hlast _. by apply Hbefore. }
  exists L'. split_and!; [done | done |]. intros ->. destruct Hr as [[_ Hadd] | [? _]]; [| done].
  eexists. split_and!; [apply prefix_take | exact Hbefore | done].
Qed.

Lemma replace_ok s L drv inv :
  holds s L -> db_ok L -> drv_ok drv ->
  let '(r, s') := ReplaceInvalidatedBlock drv inv s in
  exists L', holds s' L' /\ db_ok L' /\
    (forall pair, r = Ok pair -> exists L0 last, L = L0 ++ [last] /\ invalidated last = true /\
       s_Hash (derived last) = inv /\ rp_Derived pair = drv /\
       BlockSealFromRef (rp_Source pair) = source last /\ added L0 (rp_Source pair) drv inv (revision last) L').
Proof.
  intros H Hok Hdrv. unfold ReplaceInvalidatedBlock. destruct (replaced_entry s inv) as [[last prev]|e|e] eqn:Hre.
  2, 3: by exists L.
  unfold replaced_entry, require in Hre. rewrite (holds_last _ _ H) in *.
  destruct (Z.ltb_spec (zlen L - 1) 0) as [| Hpos]; [done |]. rewrite (readAt_holds _ _ _ H) in Hre by done.
  destruct (L !! _) as [l|] eqn:Hlast; [| done]. cbn [mbind outcome_bind] in Hre.
  destruct (invalidated l) eqn:Hinv; [| done]. cbn [mbind outcome_bind] in Hre.
  destruct (bool_decide_reflect (s_Hash (derived l) = inv)) as [Hh |]; [| done]. cbn [mbind outcome_bind] in Hre.
  apply bind_ok in Hre as (prev0 & _ & Hre). injection Hre as -> ->.
  assert (exists L0, L = L0 ++ [last]) as [L0 ->].
  { exists (pop L). apply top_pop. unfold top. by replace (pred (length L)) with (Z.to_nat (zlen L - 1)) by (unfold zlen; lia). }
  clear Hlast. assert (zlen (L0 ++ [last]) = zlen L0 + 1) as Hlen by (unfold zlen; rewrite length_app; cbn; lia).
  pose proof (holds_truncate s (L0 ++ [last]) (zlen (L0 ++ [last]) - 1 - 1) H ltac:(unfold zlen in *; lia)) as Htr.
  destruct (store_Truncate _ s) as [r s']. destruct Htr as [[-> Hh'] | [[e ->] Hh']]; [| by exists (L0 ++ [last])].
  replace (take _ (L0 ++ [last])) with L0 in Hh' by (rewrite Hlen, take_app_length'; [done | unfold zlen; lia]).
  assert (entry_inv last) as Hent by (eapply (ok_entry _ Hok (length L0)); by rewrite lookup_app_r, Nat.sub_diag).
  pose proof Hent as ((Hls & Hld & Hlr) & Hlsn & Hldr & Hlnum & Hlrev). specialize (Hlrev Hinv).
  assert (db_ok L0) as Hok0 by (replace L0 with (take (length L0) (L0 ++ [last])) by apply take_app_length; by apply db_ok_take).
  assert (forall prev', top L0 = Some prev' -> link_step prev' last) as Hstep.
  { intros prev' Hp. destruct L0 as [|x L1]; [done |].
    apply (ok_step _ Hok (length L1)); [| by rewrite lookup_app_r, Nat.sub_diag].
    rewrite lookup_app_l by (cbn; lia). exact Hp. }
  assert (L0 <> []) as Hne0.
  { intros ->. pose proof (ok_first _ Hok last eq_refl). congruence. }
  set (src := ForceWithParent (source last) (seal_ID prev)).
  pose proof (addLink_ok s' L0 src drv inv (revision last) Hh' Hok0) as Ha. cbn [rp_Source rp_Derived].
  destruct (addLink src drv inv (revision last) s') as [r s2]. destruct Ha as (L' & HL' & Hok' & Hr).
  - destruct Hls as (? & Hn & ?). unfold src_ok, src. cbn. unfold in_range in *. split_and!; try done; lia.
  - done.
  - by right.
  - done.
  - done.
  - intros prev' Hp _ _. destruct (Hstep prev' Hp) as (_ & _ & _ & [(_ & ? & _) | ?]); [congruence |].
    unfold replaces. subst inv. lia.
  - intros prev' Hp _ Hsn. destruct (Hstep prev' Hp) as (_ & Hs & Hone & _). subst inv.
    assert (seal_ID (source last) = seal_ID (source prev')) as Hid by (destruct Hs; [done | cbn in Hsn; lia]).
    apply Hone in Hid. lia.
  - destruct r as [[]|e|e]; exists L'; (split_and!; [done | done |]); try done.
    intros pair [= <-]. exists L0, last. cbn. split_and!; try done.
    + unfold src, BlockSealFromRef, ForceWithParent. cbn. by destruct (source last).
    + destruct Hr as [[_ Hadd] | [? _]]; done.
Qed.

Lemma run_op_ok s L op :
  holds s L -> db_ok L -> op_ok s op ->
  let '(r, s') := run_op op s in exists L', holds s' L' /\ db_ok L'.
Proof.
  intros H Hok Hop. destruct op as [src drv rev | drv inv | inv | t including | scope | v rev]; cbn [run_op op_ok] in *.
  - destruct Hop as (Hsrc & Hdrv & Hrev & He). unfold AddDerived.
    pose proof (addLink_ok s L src drv zero_hash rev H Hok Hsrc Hdrv Hrev) as Ha.
    destruct (addLink _ _ _ _ s) as [r s']. destruct Ha as (L' & ? & ? & _); [done | | done | done | by exists L'].
    intros ->. apply He. by rewrite (holds_size _ _ H).
  - pose proof (replace_ok s L drv inv H Hok Hop) as Ha. unfold mbind, stage_bind.
    destruct (ReplaceInvalidatedBlock drv inv s) as [r s']. destruct Ha as (L' & ? & ? & _). destruct r; by exists L'.
  - destruct Hop as [Hsrc Hdrv]. pose proof (invalidate_ok s L inv H Hok Hsrc Hdrv) as Ha.
    destruct (RewindAndInvalidate inv s) as [r s']. destruct Ha as (L' & ? & ? & _). by exists L'.
  - pose proof (rewindLocked_ok s L t including H Hok) as Ha. unfold Rewind. destruct (rewindLocked t including s) as [r s'].
    destruct Ha as (L' & ? & ? & _). by exists L'.
  - unfold RewindToScope. destruct (sourceNumToLastDerived s (b_Number scope)) as [[i link]|e|e]; [| by exists L | by exists L].
    destruct (negb _); [by exists L |].
    pose proof (rewindLocked_ok s L (mkSealPair (source link) (derived link)) false H Hok) as Ha.
    destruct (rewindLocked _ _ s) as [r s']. destruct Ha as (L' & ? & ? & _). by exists L'.
  - unfold RewindToFirstDerived. destruct (derivedNumToFirstSource s (b_Number v) rev) as [[i link]|e|e]; [| by exists L | by exists L].
    destruct (negb _); [by exists L |].
    pose proof (rewindLocked_ok s L (mkSealPair (source link) (derived link)) false H Hok) as Ha.
    destruct (rewindLocked _ _ s) as [r s']. destruct Ha as (L' & ? & ? & _). by exists L'.
Qed.

(** The states of a database that started empty. *)
Inductive db_reach : St -> Prop :=
| reach_empty s : good s -> contents s = [] -> db_reach s
| reach_op s op r s' : db_reach s -> op_ok s op -> run_op op s = (r, s') -> db_reach s'.

Lemma db_reach_ok s : db_reach s -> exists L, holds s L /\ db_ok L.
Proof.
  induction 1 as [s Hg He | s op r s' _ (L & Hh & Hd) Hok Hr].
  - exists []. split; [| apply db_ok_nil]. split; [done |]. rewrite He. by split.
  - pose proof (run_op_ok s L op Hh Hd Hok) as Ho. by rewrite Hr in Ho.
Qed.

End Store.
End Inv.

(** What the queries of an ordered derivation database return, and the life of an
    invalidated block. *)

(** ** Scans *)

Lemma scan_first cmpFn L i e :
  scan false false cmpFn L = Ok (i, e) <->
  0 <= i /\ L !! Z.to_nat i = Some e /\ cmpFn e = 0 /\
  forall j x, (j < Z.to_nat i)%nat -> L !! j = Some x -> cmpFn x < 0.
Proof.
  unfold scan. split.
  - intros Hs. destruct L as [|d0 L0] eqn:EL; [done |]. rewrite <- EL in *. clear EL.
    destruct (list_find _ L) as [[k l]|] eqn:Hlf; [| done]. apply list_find_Some in Hlf as (Hl & _ & Hb).
    destruct (Z.eqb_spec (cmpFn l) 0) as [Hc |]; [| by destruct (_ =? 0)%nat]. injection Hs as <- <-.
    rewrite Nat2Z.id. split_and!; [lia | done | done |]. intros j x Hj Hx. specialize (Hb j x Hx Hj). lia.
  - intros (Hi & He & Hc & Hb). destruct L as [|d0 L0] eqn:EL; [done |]. rewrite <- EL in *. clear EL.
    assert (list_find (fun l => 0 <= cmpFn l) L = Some (Z.to_nat i, e)) as ->.
    { apply list_find_Some. split_and!; [done | lia |]. intros j x Hx Hj. specialize (Hb j x Hj Hx). lia. }
    rewrite Hc. cbn. by rewrite Z2Nat.id.
Qed.

Lemma scan_last cmpFn L i e :
  scan true false cmpFn L = Ok (i, e) <->
  0 <= i /\ L !! Z.to_nat i = Some e /\ cmpFn e = 0 /\
  forall j x, (Z.to_nat i < j)%nat -> L !! j = Some x -> cmpFn x < 0.
Proof.
  unfold scan. split.
  - intros Hs. destruct L as [|d0 L0] eqn:EL; [done |]. rewrite <- EL in *. clear EL.
    destruct (list_find _ _) as [[k l]|] eqn:Hlf; [| done]. apply list_find_Some in Hlf as (Hl & _ & Hb).
    destruct (Z.eqb_spec (cmpFn l) 0) as [Hc |]; [| by destruct (_ =? 0)%nat]. injection Hs as <- <-.
    pose proof (lookup_lt_Some _ _ _ Hl) as Hk. rewrite length_reverse in Hk. rewrite reverse_lookup in Hl by done.
    unfold zlen. replace (Z.to_nat (Z.of_nat (length L) - 1 - Z.of_nat k)) with (length L - S k)%nat by lia.
    split_and!; [lia | done | done |]. intros j x Hj Hx. pose proof (lookup_lt_Some _ _ _ Hx).
    specialize (Hb (length L - S j)%nat x). rewrite reverse_lookup in Hb by lia.
    replace (length L - S (length L - S j))%nat with j in Hb by lia. specialize (Hb Hx ltac:(lia)). lia.
  - intros (Hi & He & Hc & Hb). destruct L as [|d0 L0] eqn:EL; [done |]. rewrite <- EL in *. clear EL.
    pose proof (lookup_lt_Some _ _ _ He) as Hlt.
    assert (list_find (fun l => 0 <= cmpFn l) (reverse L) = Some ((length L - S (Z.to_nat i))%nat, e)) as ->.
    { apply list_find_Some. rewrite reverse_lookup by lia.
      replace (length L - S (length L - S (Z.to_nat i)))%nat with (Z.to_nat i) by lia.
      split_and!; [done | lia |]. intros j x Hx Hj. pose proof (lookup_lt_Some _ _ _ Hx) as Hjl. rewrite length_reverse in Hjl.
      rewrite reverse_lookup in Hx by done. specialize (Hb (length L - S j)%nat x ltac:(lia) Hx). lia. }
    rewrite Hc, Z.eqb_refl. do 2 f_equal. unfold zlen. lia.
Qed.

Section Queries.
Variable num_of : hash -> Z.
Context {St : Type} `{ES : !EntryStore (list Z) St} {contents : St -> list (list Z)} {good : St -> Prop}.
Context `{SL : !EntryStoreLaws (list Z) St (fun e => zlen e = fromda_EntrySize) contents good}.
Abbreviation holds := (holds (contents := contents) (good := good)).
Abbreviation db_ok := (db_ok num_of).

Lemma cmp_first_cases n r x :
  0 <= r < 2 ^ 63 -> 0 <= revision x < 2 ^ 63 ->
  cmp_first_source n r x =
  if revision x <? r then -1 else if r <? revision x then 1 else Compare (s_Number (derived x)) n.
Proof.
  intros Hr Hx. unfold cmp_first_source, rev_Cmp. rewrite rev_Any_small, !rev_Number_small by done.
  destruct (Z.ltb_spec (revision x) r), (Z.ltb_spec r (revision x)), (Z.eqb_spec r (revision x)); done || lia.
Qed.

Lemma cmp_last_cases n r x :
  0 <= r < 2 ^ 63 -> 0 <= revision x < 2 ^ 63 ->
  cmp_last_source n r x =
  if revision x <? r then 1 else if r <? revision x then -1 else Compare n (s_Number (derived x)).
Proof.
  intros Hr Hx. unfold cmp_last_source, rev_Cmp. rewrite rev_Any_small, !rev_Number_small by done.
  destruct (Z.ltb_spec (revision x) r), (Z.ltb_spec r (revision x)), (Z.eqb_spec r (revision x)); done || lia.
Qed.

Lemma entry_revision L i x : db_ok L -> L !! i = Some x -> 0 <= revision x < 2 ^ 63.
Proof. intros Hok Hx. by destruct (ok_entry _ _ Hok _ _ Hx) as ((_ & _ & Hr) & _). Qed.

Lemma monotone_first_source n r L : db_ok L -> 0 <= r < 2 ^ 63 -> monotone false (cmp_first_source n r) L.
Proof.
  intros Hok Hr i j a b Hij Ha Hb. destruct (db_order _ _ _ _ _ _ Hok Hij Ha Hb) as (_ & H2 & H3 & _).
  rewrite !cmp_first_cases by eauto using entry_revision.
  destruct (Z.ltb_spec (revision a) r), (Z.ltb_spec (revision b) r); try (intros; lia).
  destruct (Z.ltb_spec r (revision b)); [intros; lia |]. destruct (Z.ltb_spec r (revision a)); [lia |].
  apply Compare_mono, H3. lia.
Qed.

Lemma monotone_last_source n r L : db_ok L -> 0 <= r < 2 ^ 63 -> monotone true (cmp_last_source n r) L.
Proof.
  intros Hok Hr i j a b Hij Ha Hb. destruct (db_order _ _ _ _ _ _ Hok Hij Ha Hb) as (_ & H2 & H3 & _).
  rewrite !cmp_last_cases by eauto using entry_revision.
  destruct (Z.ltb_spec (revision a) r), (Z.ltb_spec (revision b) r); try (intros; lia).
  destruct (Z.ltb_spec r (revision b)); [intros; lia |]. destruct (Z.ltb_spec r (revision a)); [lia |].
  apply Compare_mono_r, H3. lia.
Qed.

(** Every search is a scan. *)
Lemma searches_scan s L n r src drv :
  holds s L -> db_ok L -> 0 <= r < 2 ^ 63 ->
  sourceNumToFirstDerived s n = scan false false (fun l => Compare (s_Number (source l)) n) L /\
  sourceNumToLastDerived s n = scan true false (fun l => Compare n (s_Number (source l))) L /\
  derivedNumToFirstSource s n r = scan false false (cmp_first_source n r) L /\
  derivedNumToLastSource s n r = scan true false (cmp_last_source n r) L /\
  lookup_pair s src drv = scan true false (fun l => let res := Compare src (s_Number (source l)) in
                                            if res =? 0 then Compare drv (s_Number (derived l)) else res) L /\
  lookupOrAfter s src drv = scan false true (fun l => let res := Compare (s_Number (source l)) src in
                                             if res =? 0 then Compare (s_Number (derived l)) drv else res) L.
Proof.
  intros H Hok Hr. split_and!; apply find_scan; try done;
    eauto using monotone_source, monotone_source_rev, monotone_first_source, monotone_last_source,
                monotone_pair, monotone_pair_rev.
Qed.

Lemma Compare_lt x y : Compare x y < 0 <-> x < y.
Proof. unfold Compare. destruct (Z.ltb_spec x y), (Z.eqb_spec x y); lia. Qed.

Lemma Compare_eq x y : Compare x y = 0 <-> x = y.
Proof. unfold Compare. destruct (Z.ltb_spec x y), (Z.eqb_spec x y); lia. Qed.

(** The last block that was derived from an L1 block. *)
Lemma SourceToLastDerived_spec s L src d :
  holds s L -> db_ok L ->
  SourceToLastDerived s src = Ok d <->
  exists i e, L !! i = Some e /\ seal_ID (source e) = src /\ derived e = d /\ invalidated e = false /\
              forall j x, (i < j)%nat -> L !! j = Some x -> b_Number src < s_Number (source x).
Proof.
  intros H Hok. unfold SourceToLastDerived.
  destruct (searches_scan s L (b_Number src) 0 0 0 H Hok ltac:(lia)) as (_ & -> & _). split.
  - intros Hq. inv_ok. destruct a as [i e]. apply scan_last in Ha as (Hi & He & _ & Hb).
    destruct (bool_decide_reflect (seal_ID (source e) = src)) as [Hid |]; [| done].
    destruct (invalidated e) eqn:Hinv; [done |]. cbn in Hq. injection Hq as <-.
    exists (Z.to_nat i), e. split_and!; try done. intros j x Hj Hx. apply Compare_lt. by eapply Hb.
  - intros (i & e & He & Hid & <- & Hinv & Hb).
    assert (scan true false (fun l => Compare (b_Number src) (s_Number (source l))) L = Ok (Z.of_nat i, e)) as ->.
    { apply scan_last. rewrite Nat2Z.id. split_and!; [lia | done | apply Compare_eq; by rewrite <- Hid |].
      intros j x Hj Hx. apply Compare_lt. by eapply Hb. }
    cbn. by rewrite bool_decide_true, Hinv by done.
Qed.

(** Where a block of a revision was first derived from. *)
Lemma DerivedToFirstSource_spec s L drv r src :
  holds s L -> db_ok L -> 0 <= r < 2 ^ 63 ->
  DerivedToFirstSource s drv r = Ok src <->
  exists i e, L !! i = Some e /\ seal_ID (derived e) = drv /\ revision e = r /\ source e = src /\
              forall j x, (j < i)%nat -> L !! j = Some x ->
                revision x < r \/ revision x = r /\ s_Number (derived x) < b_Number drv.
Proof.
  intros H Hok Hr. unfold DerivedToFirstSource.
  destruct (searches_scan s L (b_Number drv) r 0 0 H Hok Hr) as (_ & _ & -> & _).
  assert (forall i x, L !! i = Some x ->
            (cmp_first_source (b_Number drv) r x = 0 <-> revision x = r /\ s_Number (derived x) = b_Number drv) /\
            (cmp_first_source (b_Number drv) r x < 0 <-> revision x < r \/ revision x = r /\ s_Number (derived x) < b_Number drv)) as Hcmp.
  { intros i x Hx. rewrite !cmp_first_cases by eauto using entry_revision.
    destruct (Z.ltb_spec (revision x) r), (Z.ltb_spec r (revision x)); rewrite ?Compare_eq, ?Compare_lt; lia. }
  split.
  - intros Hq. inv_ok. destruct a as [i e]. apply scan_first in Ha as (Hi & He & Hc & Hb).
    apply (Hcmp _ _ He) in Hc as [Hre _]. destruct (bool_decide_reflect (seal_ID (derived e) = drv)) as [Hid |]; [| done].
    cbn in Hq. injection Hq as <-. exists (Z.to_nat i), e. split_and!; try done.
    intros j x Hj Hx. apply (Hcmp _ _ Hx). by eapply Hb.
  - intros (i & e & He & Hid & Hre & <- & Hb).
    assert (scan false false (cmp_first_source (b_Number drv) r) L = Ok (Z.of_nat i, e)) as ->.
    { apply scan_first. rewrite Nat2Z.id. split_and!; [lia | done | |].
      - apply (Hcmp _ _ He). by rewrite <- Hid.
      - intros j x Hj Hx. apply (Hcmp _ _ Hx). by eapply Hb. }
    cbn. by rewrite bool_decide_true by done.
Qed.

(** ** Invalidation *)

(** An invalidated block is the last entry, and nothing is built on it. *)
Lemma invalidated_blocks s L d src drv rev :
  holds s L -> top L = Some d -> invalidated d = true ->
  Last s = Err ErrAwaitReplacementBlock /\ Invalidated s = Ok (mkSealPair (source d) (derived d)) /\
  AddDerived src drv rev s = (Err ErrAwaitReplacementBlock, s).
Proof.
  intros H Htop Hinv. unfold Last, Invalidated, AddDerived, addLink, link_to_append.
  rewrite !(latest_holds _ _ H), Htop. cbn [mbind outcome_bind]. unfold sealOrErr. rewrite Hinv.
  rewrite (holds_size _ _ H). destruct (Z.eqb_spec (zlen L) 0) as [->%zlen_0 |]; done.
Qed.

Lemma invalidate_marks s L inv s' :
  holds s L -> db_ok L -> src_ok (rp_Source inv) -> drv_ok num_of (rp_Derived inv) ->
  l1_Hash (rp_Derived inv) <> zero_hash -> RewindAndInvalidate inv s = (Ok (), s') ->
  exists L0 d, L0 `prefix_of` L /\ holds s' (L0 ++ [d]) /\ db_ok (L0 ++ [d]) /\
    source d = BlockSealFromRef (rp_Source inv) /\ derived d = BlockSealFromRef (rp_Derived inv) /\
    invalidated d = true /\ revision d = l1_Number (rp_Derived inv).
Proof.
  intros H Hok Hsrc Hdrv Hz Hrun. pose proof (invalidate_ok num_of s L inv H Hok Hsrc Hdrv) as Hi. rewrite Hrun in Hi.
  destruct Hi as (L' & HL' & Hok' & Hadd).
  destruct (Hadd eq_refl) as (L0 & Hpre & Hfresh & [(-> & last & Htop & Hd & Hs) | (d & -> & Hs & Hd & Hinv & Hrev)]).
  - exfalso. injection Hs as _ Hs. injection Hd as _ Hd. specialize (Hfresh last Htop (eq_sym Hs)).
    destruct Hdrv as (_ & _ & _ & Hn). lia.
  - exists L0, d. split_and!; try done; [| by apply Hrev].
    rewrite Hinv. unfold is_zero_hash. by rewrite bool_decide_false, bool_decide_true.
Qed.

(** A replacement of the same height takes the place of the block, in the
    revision that starts with it. *)
Lemma replacement_takes_place s L0 last drv inv s' pair :
  holds s (L0 ++ [last]) -> db_ok (L0 ++ [last]) -> drv_ok num_of drv -> inv <> zero_hash -> l1_Hash drv <> inv ->
  l1_Number drv = s_Number (derived last) -> ReplaceInvalidatedBlock drv inv s = (Ok pair, s') ->
  holds s' (L0 ++ [mkLink (source last) (BlockSealFromRef drv) (revision last) false]) /\
  Last s' = Ok (mkSealPair (source last) (BlockSealFromRef drv)) /\ LastRevision s' = Ok (revision last).
Proof.
  intros H Hok Hdrv Hz Hne Hnum Hrun. pose proof (replace_ok num_of s _ drv inv H Hok Hdrv) as Hr. rewrite Hrun in Hr.
  destruct Hr as (L' & HL' & Hok' & Hpair). destruct (Hpair pair eq_refl) as (L1 & last1 & HL & Hinv & Hh & Hd & Hs & Hadd).
  apply app_inj_2 in HL as [<- [= <-]]; [| done].
  assert (L' = L0 ++ [mkLink (source last) (BlockSealFromRef drv) (revision last) false]) as ->.
  { destruct Hadd as [(-> & prev & Htop & Hpd & Hps) | (d & -> & Hds & Hdd & Hdi & Hdr)].
    - exfalso. destruct L0 as [|x L1]; [done |].
      assert (link_step prev last) as (_ & _ & Hone & _).
      { apply (ok_step _ _ Hok (length L1)); [by rewrite lookup_app_l by (cbn; lia) |].
        by rewrite lookup_app_r, Nat.sub_diag by (cbn; lia). }
      assert (s_Number (derived last) = s_Number (derived prev) + 1) as Hn.
      { apply Hone. rewrite Hps, <- Hs. done. }
      injection Hpd as _ Hpd. lia.
    - do 2 f_equal. destruct d as [ds dd dr di]. cbn in *. subst ds dd. rewrite Hs, (Hdr Hz), Hdi. f_equal.
      rewrite bool_decide_false by done. apply andb_false_r. }
  split; [done |]. unfold Last, LastRevision. rewrite (latest_holds _ _ HL'), top_snoc. done.
Qed.

End Queries.
