(* ===== verification/ChainsProps.v ===== *)
(** Whatever the supervisor does, every derivation database stays in order: the
    invariant of FromDAProps.v for each chain, with the cross-safe database of a
    chain never behind in being started. *)
From Stdlib Require Import ZArith Lia.
From stdpp Require Import base gmap list strings numbers.
From S2P Require Import Prelude Rollup Frames Interop Cross EntryDB FromDA ChainsDB FromDAProps.

Section Chains.
Variable num_of : hash -> Z.
(** The zero block, which stands for an unknown one, has height zero. *)
Hypothesis num_of_zero : num_of zero_hash = 0.
Context {D L St : Type} `{DependencySet D} `{LS : !LogStorage L} `{ES : !EntryStore (list Z) St}.
Context {contents : St -> list (list Z)} {good : St -> Prop}.
Context `{SL : !EntryStoreLaws (list Z) St (fun e => zlen e = fromda_EntrySize) contents good}.
Abbreviation holds := (holds (contents := contents) (good := good)).
Abbreviation db_ok := (db_ok num_of).
Abbreviation drv_ok := (drv_ok num_of).

(** ** One database *)

Definition sane (s : St) : Prop := exists E, holds s E /\ db_ok E.
Definition started (s : St) : Prop := store_Size s <> 0.

Lemma started_iff s E : holds s E -> started s <-> E <> [].
Proof.
  intros Hh. unfold started. rewrite (holds_size _ _ Hh). split.
  - by intros Hs ->.
  - intros He Hz. by apply He, zlen_0.
Qed.

Lemma add_sane s src drv rev r s' :
  sane s -> src_ok src -> drv_ok drv -> rev_ok rev ->
  (~ started s -> rev = RevisionAny \/ rev <= l1_Number drv) -> AddDerived src drv rev s = (r, s') ->
  sane s' /\ (started s -> started s') /\ (r = Ok () -> started s').
Proof.
  intros (E & Hh & Hok) Hsrc Hdrv Hrev Hempty Hrun. unfold AddDerived in Hrun.
  pose proof (addLink_ok num_of s E src drv zero_hash rev Hh Hok Hsrc Hdrv Hrev) as Ha. rewrite Hrun in Ha.
  destruct Ha as (E' & Hh' & Hok' & Hr); [done | | done | done |].
  { intros ->. apply Hempty. rewrite (started_iff _ _ Hh). intros Hx. by apply Hx. }
  split; [by exists E' |]. rewrite (started_iff _ _ Hh), (started_iff _ _ Hh').
  destruct Hr as [[-> [(-> & last & Ht & _) | (d & -> & _)]] | [? ->]]; split; try done.
  - intros _ ->. done.
  - intros _. apply snoc_nonnil.
  - intros _. apply snoc_nonnil.
Qed.

Lemma invalidate_sane s inv r s' :
  sane s -> src_ok (rp_Source inv) -> drv_ok (rp_Derived inv) -> RewindAndInvalidate inv s = (r, s') ->
  sane s' /\ (~ started s -> s' = s).
Proof.
  intros (E & Hh & Hok) Hsrc Hdrv Hrun. split.
  - pose proof (invalidate_ok num_of s E inv Hh Hok Hsrc Hdrv) as Ha. rewrite Hrun in Ha.
    destruct Ha as (E' & ? & ? & _). by exists E'.
  - unfold started. intros Hs. unfold RewindAndInvalidate, invalidation_target, lookupOrAfter, find in Hrun.
    destruct (Z.eqb_spec (store_Size s) 0); [| by destruct Hs]. cbn in Hrun. congruence.
Qed.

Lemma replace_sane s drv inv r s' :
  sane s -> drv_ok drv -> ReplaceInvalidatedBlock drv inv s = (r, s') -> sane s' /\ (~ started s -> s' = s).
Proof.
  intros (E & Hh & Hok) Hdrv Hrun. split.
  - pose proof (replace_ok num_of s E drv inv Hh Hok Hdrv) as Ha. rewrite Hrun in Ha.
    destruct Ha as (E' & ? & ? & _). by exists E'.
  - rewrite (started_iff _ _ Hh). intros Hs. assert (E = []) as -> by (destruct E; [done | by destruct Hs]).
    unfold ReplaceInvalidatedBlock, replaced_entry in Hrun. rewrite (holds_last _ _ Hh) in Hrun.
    change (zlen [] - 1 <? 0) with true in Hrun. cbn in Hrun. congruence.
Qed.

(** Rewinding to an entry keeps it. *)
Lemma rewindLocked_sane s t r s' :
  sane s -> rewindLocked t false s = (r, s') -> sane s' /\ (started s <-> started s').
Proof.
  intros (E & Hh & Hok) Hrun. pose proof (rewindLocked_ok num_of s E t false Hh Hok) as Ha. rewrite Hrun in Ha.
  destruct Ha as (E' & Hh' & Hok' & Hpre). split; [by exists E' |].
  rewrite (started_iff _ _ Hh), (started_iff _ _ Hh'). split; [| intros Hne ->; by apply prefix_nil_inv in Hpre].
  unfold rewindLocked in Hrun. destruct (rewind_target s t false) as [i|e|e] eqn:Ht.
  2, 3: injection Hrun as _ <-; intros Hne ->; pose proof (holds_length _ _ Hh) as HlE; pose proof (holds_length _ _ Hh') as HlE';
        apply Hne, zlen_0; unfold zlen in *; cbn in *; lia.
  assert (0 <= i < zlen E) as Hi.
  { unfold rewind_target in Ht. inv_ok. destruct a as [j link]. apply (find_ok s E) in Ha as (Hi & _); [| done].
    destruct (negb _); [done |]. destruct (negb _); [done |]. by inv_ok. }
  pose proof (holds_truncate s E i Hh ltac:(lia)) as Htr. rewrite Hrun in Htr. intros _ ->.
  destruct Htr as [[_ Hc] | [_ Hc]]; pose proof (holds_length _ _ Hc) as H1; pose proof (holds_length _ _ Hh') as H2;
    unfold zlen in *; rewrite ?length_take in *; cbn in *; lia.
Qed.

Lemma rewindToScope_sane s scope r s' :
  sane s -> RewindToScope scope s = (r, s') -> sane s' /\ (started s <-> started s').
Proof.
  intros Hs Hrun. unfold RewindToScope in Hrun.
  destruct (sourceNumToLastDerived s (b_Number scope)) as [[i link]|e|e]; [| by injection Hrun as _ <-..].
  destruct (negb _); [by injection Hrun as _ <- | by eapply rewindLocked_sane].
Qed.

Lemma rewindToFirst_sane s v rev r s' :
  sane s -> RewindToFirstDerived v rev s = (r, s') -> sane s' /\ (started s <-> started s').
Proof.
  intros Hs Hrun. unfold RewindToFirstDerived in Hrun.
  destruct (derivedNumToFirstSource s (b_Number v) rev) as [[i link]|e|e]; [| by injection Hrun as _ <-..].
  destruct (negb _); [by injection Hrun as _ <- | by eapply rewindLocked_sane].
Qed.

(** Blocks that come out of a database can be handed to one. *)
Lemma sane_readAt s i d : sane s -> 0 <= i -> readAt s i = Ok d -> entry_inv num_of d.
Proof.
  intros (E & Hh & Hok) Hi Hr. rewrite (readAt_holds _ _ _ Hh Hi) in Hr. destruct (E !! _) eqn:He; [| done].
  injection Hr as <-. by eapply ok_entry.
Qed.

Lemma sane_find s rv acc cmpFn i d : sane s -> find s rv acc cmpFn = Ok (i, d) -> entry_inv num_of d /\ 0 <= i.
Proof.
  intros (E & Hh & Hok) Hf. apply (find_ok s E) in Hf as (Hi & Hd & _); [| done]. split; [by eapply ok_entry | lia].
Qed.

Lemma entry_src_ok d parent : entry_inv num_of d -> src_ok (ForceWithParent (source d) parent).
Proof. intros (((? & ? & ?) & _ & _) & ? & _). unfold src_ok. cbn. unfold in_range in *. split_and!; try done; lia. Qed.

Lemma entry_drv_ok d parent : entry_inv num_of d -> drv_ok (ForceWithParent (derived d) parent).
Proof. intros ((_ & (? & ? & ?) & _) & _ & ? & ? & _). unfold FromDAProps.drv_ok. cbn. unfold in_range in *. split_and!; try done; lia. Qed.

Lemma WithParent_force b parent r : WithParent b parent = Ok r -> r = ForceWithParent b parent.
Proof. unfold WithParent. by destruct (_ && _); [| intros [= <-]]. Qed.

Lemma MustWithParent_force b parent r : MustWithParent b parent = Ok r -> r = ForceWithParent b parent.
Proof. unfold MustWithParent. destruct (WithParent b parent) eqn:Hw; [| done | done]. intros [= <-]. by apply WithParent_force. Qed.

Lemma zero_src_ok : src_ok zero_ref.
Proof. unfold src_ok. cbn. unfold in_range. split_and!; lia || done. Qed.

Lemma zero_drv_ok : drv_ok zero_ref.
Proof. unfold FromDAProps.drv_ok. cbn. unfold in_range. split_and!; lia || done. Qed.

Lemma zero_link_drv_ok parent : drv_ok (ForceWithParent (derived zero_link) parent).
Proof. unfold FromDAProps.drv_ok. cbn. unfold in_range. split_and!; lia || done. Qed.

Lemma Candidate_ok s maxSource afterDerived rev p r :
  sane s -> Candidate s maxSource afterDerived rev = (p, r) -> src_ok (rp_Source p) /\ drv_ok (rp_Derived p).
Proof.
  intros Hs Hc. unfold Candidate in Hc.
  assert (src_ok zero_ref /\ drv_ok zero_ref) as Hz by eauto using zero_src_ok, zero_drv_ok.
  destruct (_ ≫= _) as [[last src]|e|e] eqn:Hq; [| by injection Hc as <- _ ..].
  assert (src_ok src) as Hsrc.
  { apply bind_ok in Hq as ([i l] & Hl & Hq). cbv beta iota in Hq.
    apply bind_ok in Hq as (u & _ & Hq). apply bind_ok in Hq as (sr & Hsr & Hq).
    injection Hq as <- <-. apply sane_find in Hl as [Hl _]; [| done]. unfold source_ref in Hsr.
    destruct (PreviousSource s maxSource) as [ps|e|e]; [| destruct (is_err _ _) | done].
    - apply MustWithParent_force in Hsr as ->. by apply entry_src_ok.
    - injection Hsr as <-. by apply entry_src_ok.
    - done. }
  destruct (_ <? _); [| injection Hc as <- _; cbn; split; [done | apply Hz]].
  destruct (candidate_link s afterDerived rev ≫= (fun link => WithParent (derived link) afterDerived)) as [drv|e|e] eqn:Hd;
    [| by injection Hc as <- _ ..]. injection Hc as <- _. cbn. split; [done |].
  apply bind_ok in Hd as (link & Hl & Hd). apply WithParent_force in Hd as ->. unfold candidate_link in Hl. cbv zeta in Hl.
  set (next := uadd 64 (b_Number afterDerived) 1) in Hl.
  destruct (derivedNumToLastSource s next rev) as [[i l]|e|e] eqn:Hf; [| | done].
  - injection Hl as <-. apply sane_find in Hf as [Hf _]; [| done]. by apply entry_drv_ok.
  - destruct (is_err e ErrNotExact); [| injection Hl as <-; apply zero_link_drv_ok].
    destruct (derivedNumToLastSource s next next) as [[i l]|e'|e'] eqn:Hf'; [| done | done].
    injection Hl as <-. apply sane_find in Hf' as [Hf' _]; [| done]. by apply entry_drv_ok.
Qed.

Lemma Last_ok s p :
  sane s -> Last s = Ok p ->
  (forall parent, src_ok (ForceWithParent (sp_Source p) parent)) /\ (forall parent, drv_ok (ForceWithParent (sp_Derived p) parent)).
Proof.
  intros Hs Hl. unfold Last, latest in Hl. apply bind_ok in Hl as (d & Hd & Hl).
  destruct (Z.ltb_spec (store_LastEntryIdx s) 0); [done |]. apply sane_readAt in Hd; [| done | done].
  unfold sealOrErr in Hl. destruct (invalidated d); [done |]. injection Hl as <-. cbn. eauto using entry_src_ok, entry_drv_ok.
Qed.

Lemma First_ok s p :
  sane s -> First s = Ok p ->
  (forall parent, src_ok (ForceWithParent (sp_Source p) parent)) /\ (forall parent, drv_ok (ForceWithParent (sp_Derived p) parent)).
Proof.
  intros Hs Hl. unfold First in Hl. destruct (store_LastEntryIdx s <? 0); [done |].
  apply bind_ok in Hl as (d & Hd & Hl). apply sane_readAt in Hd; [| done | done].
  unfold sealOrErr in Hl. destruct (invalidated d); [done |]. injection Hl as <-. cbn. eauto using entry_src_ok, entry_drv_ok.
Qed.

Lemma First_started s p : sane s -> First s = Ok p -> started s.
Proof.
  intros (E & Hh & _) Hf. apply (started_iff _ _ Hh). intros ->. unfold First in Hf.
  rewrite (holds_last _ _ Hh) in Hf. by change (zlen [] - 1 <? 0) with true in Hf.
Qed.

Lemma SourceToRevision_ok s src rev : sane s -> SourceToRevision s src = Ok rev -> rev_ok rev /\ (~ started s -> rev = 0).
Proof.
  intros Hs Hr. unfold SourceToRevision, started in *. destruct (Z.eqb_spec (store_Size s) 0) as [Hz | Hz].
  - injection Hr as <-. split; [right; unfold FirstRevision; lia | done].
  - apply bind_ok in Hr as ([i d] & Hd & Hr). apply sane_find in Hd as [((_ & _ & Hd) & _) _]; [| done].
    destruct (negb _); [done |]. injection Hr as <-. split; [by right | done].
Qed.

(** ** All databases *)

Abbreviation DBs := (ChainsDB D L St).

Record chain_ok (db : DBs) (c : ChainID) : Prop := {
  ok_local : forall s, localDBs db !! c = Some s -> sane s;
  ok_cross : forall s, crossDBs db !! c = Some s -> sane s;
  ok_pair : forall l x, localDBs db !! c = Some l -> crossDBs db !! c = Some x -> started l -> started x;
  ok_init : c ∈ initialized db -> forall x, crossDBs db !! c = Some x -> started x;
}.

Definition chains_ok (db : DBs) : Prop := forall c, chain_ok db c.

Lemma chains_ok_new depSet : chains_ok (NewChainsDB depSet).
Proof. intros c. split; cbn; intros *; rewrite ?lookup_empty; done || set_solver. Qed.

(** The invariant is about the derivation databases. *)
Definition same_safe (db db' : DBs) : Prop :=
  localDBs db' = localDBs db /\ crossDBs db' = crossDBs db /\ initialized db' = initialized db.

Lemma chains_ok_same db db' : same_safe db db' -> chains_ok db -> chains_ok db'.
Proof. intros (Hl & Hx & Hi) Hok c. destruct (Hok c). split; rewrite ?Hl, ?Hx, ?Hi; done. Qed.

Definition keeps {A} (op : stage DBs A) : Prop := forall db r db', chains_ok db -> op db = (r, db') -> chains_ok db'.

Lemma keeps_same {A} (op : stage DBs A) : (forall db, same_safe db (op db).2) -> keeps op.
Proof. intros Hs db r db' Hok Hrun. eapply chains_ok_same; [| done]. specialize (Hs db). by rewrite Hrun in Hs. Qed.

Lemma keeps_bind {A B} (m : stage DBs A) (f : A -> stage DBs B) : keeps m -> (forall a, keeps (f a)) -> keeps (m ≫= f).
Proof.
  intros Hm Hf db r db' Hok Hrun. unfold mbind, stage_bind in Hrun. destruct (m db) as [[a|e|e] db1] eqn:E.
  - eapply Hf; [| exact Hrun]. by eapply Hm.
  - injection Hrun as _ <-. by eapply Hm.
  - injection Hrun as _ <-. by eapply Hm.
Qed.

Lemma keeps_query {A} (f : DBs -> outcome A) : keeps (query f).
Proof. by apply keeps_same. Qed.

Lemma keeps_ret {A} (a : A) : keeps (mret a).
Proof. by apply keeps_same. Qed.

Lemma keeps_emit ev : keeps (Emit ev).
Proof. by apply keeps_same. Qed.

Lemma keeps_on_log {A} c (op : stage L A) : keeps (on_log c op).
Proof. apply keeps_same. intros db. unfold on_log, on_db. destruct (logDBs db !! c); [by destruct (op _) | done]. Qed.

Lemma chains_ok_local db c l' :
  chains_ok db -> is_Some (localDBs db !! c) -> sane l' -> (started l' -> forall x, crossDBs db !! c = Some x -> started x) ->
  chains_ok (set_localDBs (<[c := l']> (localDBs db)) db).
Proof.
  intros Hok _ Hs Hp c'. destruct (Hok c') as [Hl Hx Hpair Hi]. split; cbn; try done.
  - intros s. destruct (decide (c' = c)) as [-> | Hc]; [rewrite lookup_insert_eq; by intros [= <-] | rewrite lookup_insert_ne; eauto].
  - intros l x. destruct (decide (c' = c)) as [-> | Hc]; [rewrite lookup_insert_eq | rewrite lookup_insert_ne; eauto].
    intros [= <-] Hxx Hst. by eapply Hp.
Qed.

Lemma chains_ok_cross db c x x' :
  chains_ok db -> crossDBs db !! c = Some x -> sane x' -> (started x -> started x') ->
  chains_ok (set_crossDBs (<[c := x']> (crossDBs db)) db).
Proof.
  intros Hok Hc Hs Hp c'. destruct (Hok c') as [Hl Hx Hpair Hi]. split; cbn; try done.
  - intros s. destruct (decide (c' = c)) as [-> | Hne]; [rewrite lookup_insert_eq; by intros [= <-] | rewrite lookup_insert_ne; eauto].
  - intros l y. destruct (decide (c' = c)) as [-> | Hne]; [rewrite lookup_insert_eq | rewrite lookup_insert_ne; eauto].
    intros Hll [= <-] Hst. eauto.
  - intros Hin y. destruct (decide (c' = c)) as [-> | Hne]; [rewrite lookup_insert_eq | rewrite lookup_insert_ne; eauto].
    intros [= <-]. eauto.
Qed.

Lemma keeps_on_local {A} c (op : stage St A) :
  (forall s r s', sane s -> op s = (r, s') -> sane s' /\ (~ started s -> s' = s)) -> keeps (on_local c op).
Proof.
  intros Hop db r db' Hok Hrun. unfold on_local, on_db in Hrun.
  destruct (localDBs db !! c) as [l|] eqn:Hl; [| by injection Hrun as _ <-].
  destruct (op l) as [r1 l'] eqn:Ho. injection Hrun as _ <-.
  destruct (Hop l r1 l') as [Hs Hst]; [by eapply ok_local | done |].
  apply chains_ok_local; [done | by rewrite Hl | done |]. intros Hst' x Hx.
  destruct (Z.eq_dec (store_Size l) 0) as [Hz | Hz]; [| by eapply (ok_pair _ _ (Hok c))].
  rewrite (Hst ltac:(unfold started; lia)) in Hst'. by eapply (ok_pair _ _ (Hok c)).
Qed.

Lemma keeps_on_cross {A} c (op : stage St A) :
  (forall s r s', sane s -> op s = (r, s') -> sane s' /\ (started s -> started s')) -> keeps (on_cross c op).
Proof.
  intros Hop db r db' Hok Hrun. unfold on_cross, on_db in Hrun.
  destruct (crossDBs db !! c) as [x|] eqn:Hx; [| by injection Hrun as _ <-].
  destruct (op x) as [r1 x'] eqn:Ho. injection Hrun as _ <-.
  destruct (Hop x r1 x') as [Hs Hst]; [by eapply ok_cross | done |]. by eapply chains_ok_cross.
Qed.

(** ** Updates *)

Lemma update_cross_ok c src drv db r db' :
  chains_ok db -> src_ok src -> drv_ok drv -> initializedUpdateCrossSafe c src drv db = (r, db') ->
  chains_ok db' /\ (r = Ok () -> forall x, crossDBs db' !! c = Some x -> started x).
Proof.
  intros Hok Hsrc Hdrv Hrun. unfold initializedUpdateCrossSafe, mbind, stage_bind, query, get_db in Hrun.
  destruct (crossDBs db !! c) as [x|] eqn:Hx; [| injection Hrun as <- <-; done].
  destruct (localDBs db !! c) as [l|] eqn:Hl; cbn in Hrun; [| injection Hrun as <- <-; done].
  destruct (SourceToRevision l (L1BlockRef_ID src)) as [rev|e|e] eqn:Hrev; [| injection Hrun as <- <-; done..].
  apply SourceToRevision_ok in Hrev as [Hrok Hr0]; [| by eapply ok_local].
  unfold on_cross, on_db in Hrun. rewrite Hx in Hrun. destruct (AddDerived src drv rev x) as [r1 x'] eqn:Ha.
  destruct (add_sane x src drv rev r1 x') as (Hs & Hst & Hfin); [by eapply ok_cross | done | done | done | | done |].
  { intros Hnx. right. rewrite Hr0; [destruct Hdrv as (_ & ? & _); lia |].
    intros Hnl. apply Hnx. by eapply (ok_pair _ _ (Hok c)). }
  assert (chains_ok (set_crossDBs (<[c := x']> (crossDBs db)) db)) as Hok' by (by eapply chains_ok_cross).
  destruct r1 as [[]|e|e]; [| injection Hrun as <- <-; done..].
  unfold Emit in Hrun. injection Hrun as <- <-. split.
  - by eapply chains_ok_same; [| exact Hok'].
  - intros _ y. cbn. rewrite lookup_insert_eq. intros [= <-]. by apply Hfin.
Qed.

Lemma update_local_ok c src drv node db r db' :
  chains_ok db -> src_ok src -> drv_ok drv -> (forall x, crossDBs db !! c = Some x -> started x) ->
  initializedUpdateLocalSafe c src drv node db = (r, db') ->
  chains_ok db' /\ crossDBs db' = crossDBs db.
Proof.
  intros Hok Hsrc Hdrv Hx Hrun. unfold initializedUpdateLocalSafe, on_local, on_db in Hrun.
  destruct (localDBs db !! c) as [l|] eqn:Hl; [| injection Hrun as <- <-; done].
  destruct (AddDerived src drv RevisionAny l) as [r1 l'] eqn:Ha.
  destruct (add_sane l src drv RevisionAny r1 l') as (Hs & _); [by eapply ok_local | done | done | by left | by left | done |].
  assert (chains_ok (set_localDBs (<[c := l']> (localDBs db)) db)) as Hok'.
  { apply chains_ok_local; [done | by rewrite Hl | done | done]. }
  destruct r1 as [[]|e|e]; unfold Emit in Hrun.
  - injection Hrun as <- <-. split; [by eapply chains_ok_same; [| exact Hok'] | done].
  - destruct (is_err e ErrIneffective); [injection Hrun as <- <-; done |].
    destruct (is_err e ErrDataCorruption); injection Hrun as <- <-; [done |].
    split; [by eapply chains_ok_same; [| exact Hok'] | done].
  - injection Hrun as <- <-. done.
Qed.

Lemma keeps_UpdateCrossSafe c src drv : src_ok src -> drv_ok drv -> keeps (u_UpdateCrossSafe c src drv).
Proof.
  intros Hsrc Hdrv db r db' Hok Hrun. unfold u_UpdateCrossSafe, when_initialized in Hrun.
  destruct (isInitialized db c); [| by injection Hrun as _ <-]. by eapply update_cross_ok.
Qed.

Lemma keeps_UpdateLocalSafe c src drv node : src_ok src -> drv_ok drv -> keeps (UpdateLocalSafe c src drv node).
Proof.
  intros Hsrc Hdrv db r db' Hok Hrun. unfold UpdateLocalSafe, isInitialized in Hrun.
  destruct (bool_decide_reflect (c ∈ initialized db)) as [Hin |]; [| by injection Hrun as _ <-].
  eapply update_local_ok in Hrun as [? _]; try done. by eapply ok_init.
Qed.

Lemma keeps_InvalidateLocalSafe c p :
  src_ok (rp_Source p) -> drv_ok (rp_Derived p) -> keeps (u_InvalidateLocalSafe c p).
Proof.
  intros Hsrc Hdrv. unfold u_InvalidateLocalSafe.
  apply keeps_bind; [apply keeps_query | intros _]. apply keeps_bind; [| intros _].
  { apply keeps_on_local. intros s r s' Hs Hrun. by eapply invalidate_sane. }
  apply keeps_bind; [| intros _; apply keeps_bind; [apply keeps_on_log | intros _; apply keeps_emit]].
  apply keeps_same. intros db. unfold ResetCrossUnsafeIfNewerThan.
  destruct (crossUnsafe db !! c); [| done]. destruct (_ ≫= _); [| done | done]. by destruct (_ <=? _).
Qed.

Lemma keeps_finalized b : keeps (onFinalizedL1 b).
Proof.
  apply keeps_same. intros db. unfold onFinalizedL1. destruct (_ && _); [done |].
  unfold mbind, stage_bind, Emit. set (db1 := mkChainsDB _ _ _ _ _ _ _ _).
  assert (same_safe db db1) as H1 by done. clearbody db1. revert db1 H1.
  induction (Chains (db_depSet db)) as [|c cs IH]; intros db1 H1; cbn [notify_finalized]; [done |].
  destruct (Finalized db1 c); [| by apply IH | done]. unfold mbind, stage_bind, Emit. by apply IH.
Qed.

Lemma keeps_init c p : src_ok (rp_Source p) -> drv_ok (rp_Derived p) -> keeps (initFromAnchor c p).
Proof.
  intros Hsrc Hdrv db r db' Hok Hrun. unfold initFromAnchor in Hrun. destruct (isInitialized db c); [by injection Hrun as _ <- |].
  assert (forall r1 db1, maybeInitSafeDB c p db = (r1, db1) ->
            chains_ok db1 /\ (r1 = Ok () -> forall x, crossDBs db1 !! c = Some x -> started x)) as Hsafe.
  { intros r1 db1 Hm. unfold maybeInitSafeDB in Hm. unfold get_db in Hm.
    destruct (localDBs db !! c) as [l|] eqn:Hl; cbn in Hm; [| injection Hm as <- <-; done].
    destruct (First l) as [first|e|e] eqn:Hf; [| | injection Hm as <- <-; done].
    - assert (forall x, crossDBs db !! c = Some x -> started x) as Hx.
      { intros x Hx. eapply (ok_pair _ _ (Hok c)); [done | done |]. eapply First_started; [by eapply ok_local | done]. }
      destruct (_ || _); injection Hm as <- <-; done.
    - destruct (is_err e ErrFuture); [| injection Hm as <- <-; done]. unfold mbind, stage_bind in Hm.
      destruct (initializedUpdateCrossSafe _ _ _ db) as [r2 db2] eqn:Hu.
      destruct (update_cross_ok _ _ _ _ _ _ Hok Hsrc Hdrv Hu) as [Hok2 Hst]. destruct r2 as [[]|e'|e']; [| injection Hm as <- <-; done..].
      destruct (update_local_ok _ _ _ _ _ _ _ Hok2 Hsrc Hdrv (Hst eq_refl) Hm) as [Hok3 Hx3].
      split; [done |]. intros _. rewrite Hx3. by apply Hst. }
  unfold mbind, stage_bind in Hrun. destruct (maybeInitSafeDB c p db) as [r1 db1] eqn:Hm.
  destruct (Hsafe _ _ eq_refl) as [Hok1 Hst1].
  destruct r1 as [[]|e|e]; [| by injection Hrun as _ <-..].
  assert (keeps (maybeInitEventsDB c p)) as Hke.
  { intros d rr d' Hd Hr. unfold maybeInitEventsDB in Hr. destruct (q_OpenBlock d c 0) as [[[seal n] msgs]|e|e].
    - destruct (negb _); by injection Hr as _ <-.
    - destruct (is_err e ErrFuture); [| by injection Hr as _ <-]. revert Hr. apply keeps_bind; [apply keeps_on_log | intros _; apply keeps_emit | done].
    - by injection Hr as _ <-. }
  destruct (maybeInitEventsDB c p db1) as [r2 db2] eqn:He.
  assert (chains_ok db2) as Hok2 by (by eapply Hke).
  assert (crossDBs db2 = crossDBs db1) as Hx2.
  { unfold maybeInitEventsDB in He. destruct (q_OpenBlock db1 c 0) as [[[seal n] msgs]|e|e].
    - destruct (negb _); by injection He as _ <-.
    - destruct (is_err e ErrFuture); [| by injection He as _ <-].
      unfold initializedSealBlock, mbind, stage_bind, on_log, on_db, Emit in He.
      destruct (logDBs db1 !! c); [| by injection He as _ <-]. destruct (log_SealBlock _ _ _ _) as [[] ?]; by injection He as _ <-.
    - by injection He as _ <-. }
  destruct r2 as [[]|e|e]; injection Hrun as _ <-; [| done | done].
  intros c'. destruct (Hok2 c') as [Hl Hx Hp Hi]. split; cbn; try done.
  intros Hin x Hxx. destruct (decide (c' = c)) as [-> | Hne].
  - rewrite Hx2 in Hxx. by apply Hst1.
  - apply Hi; [| done]. rewrite elem_of_union, elem_of_singleton in Hin. by destruct Hin.
Qed.

Lemma keeps_replace c b inv : drv_ok b -> keeps (onReplaceBlock c b inv).
Proof.
  intros Hb db r db' Hok Hrun. unfold onReplaceBlock in Hrun. destruct (localDBs db !! c); [| by injection Hrun as _ <-].
  destruct (on_local c _ db) as [r1 db1] eqn:Ho.
  assert (chains_ok db1) as Hok1.
  { revert Ho. apply keeps_on_local; [| done]. intros. by eapply replace_sane. }
  destruct r1 as [p|e|e]; [| by injection Hrun as _ <-..].
  revert Hrun. by apply keeps_bind; [apply keeps_emit | intros _; apply keeps_emit |].
Qed.

(** ** Promotion *)

Context {K : Keccak}.

Lemma candidate_ok db c p r :
  chains_ok db -> q_CandidateCrossSafe db c = (p, r) -> src_ok (rp_Source p) /\ drv_ok (rp_Derived p).
Proof.
  intros Hok Hc. assert (src_ok zero_ref /\ drv_ok zero_ref) as Hz by eauto using zero_src_ok, zero_drv_ok.
  unfold q_CandidateCrossSafe in Hc. destruct (crossDBs db !! c) as [x|] eqn:Hx; [| by injection Hc as <- _].
  destruct (localDBs db !! c) as [l|] eqn:Hl; [| by injection Hc as <- _].
  pose proof (ok_local _ _ (Hok c) _ Hl) as Hsl. destruct (Last x) as [last|e|e]; [| | by injection Hc as <- _].
  - destruct (SourceToRevision x _) as [rev|e|e]; [| by injection Hc as <- _..].
    destruct (Candidate l _ _ rev) as [cand [[]|e|e]] eqn:Hcand; apply Candidate_ok in Hcand; try done.
    + destruct (_ <? _); by injection Hc as <- _.
    + by injection Hc as <- _.
    + by injection Hc as <- _.
  - destruct (is_err e ErrFuture); [| by injection Hc as <- _]. unfold first_candidate, as_pair in Hc.
    destruct (First l) as [first|e'|e'] eqn:Hf; cbn in Hc; [| by injection Hc as <- _..].
    destruct (First_ok _ _ Hsl Hf) as [Hs Hd]. destruct (MustWithParent (sp_Derived first) zero_id) as [dr|e'|e'] eqn:Hm; cbn in Hc; [| by injection Hc as <- _..].
    injection Hc as <- _. cbn. apply MustWithParent_force in Hm as ->. split; [| apply Hd].
    destruct (WithParent (sp_Source first) zero_id) as [sr|e'|e'] eqn:Hw; [| apply Hs..].
    apply WithParent_force in Hw as ->. apply Hs.
Qed.

Lemma keeps_bump c p : keeps (bump_scope c p).
Proof.
  intros db r db' Hok Hrun. unfold bump_scope in Hrun.
  destruct (_ ≫= _) as [[scope ref]|e|e] eqn:Hq in Hrun; [| by injection Hrun as _ <-..].
  apply bind_ok in Hq as (sc & Hsc & Hq). apply bind_ok in Hq as (cur & Hcur & Hq).
  apply bind_ok in Hq as (par & _ & Hq). apply bind_ok in Hq as (cr & Hcr & Hq). injection Hq as <- <-.
  revert Hrun. apply keeps_UpdateCrossSafe; [| | done].
  - cbn in Hsc. unfold q_NextSource, get_db in Hsc. destruct (localDBs db !! c) as [l|] eqn:Hl; [| done]. cbn in Hsc.
    apply bind_ok in Hsc as (v & Hv & Hsc). apply MustWithParent_force in Hsc as ->.
    pose proof (ok_local _ _ (Hok c) _ Hl) as Hsl. unfold db_NextSource in Hv.
    apply bind_ok in Hv as ([i d] & Hd & Hv). destruct (negb _); [done |]. apply sane_find in Hd as [_ Hi]; [| done].
    apply bind_ok in Hv as (d' & Hd' & Hv). injection Hv as <-. apply sane_readAt in Hd'; [| done | lia]. by apply entry_src_ok.
  - cbn in Hcur. unfold q_CrossSafe, get_db in Hcur. destruct (crossDBs db !! c) as [x|] eqn:Hx; [| done]. cbn in Hcur.
    apply MustWithParent_force in Hcr as ->. apply Last_ok in Hcur as [_ Hd]; [apply Hd | by eapply ok_cross].
Qed.

Lemma keeps_CrossSafeUpdate o c : keeps (CrossSafeUpdate o c).
Proof.
  intros db r db' Hok Hrun. unfold CrossSafeUpdate, scopedCrossSafeUpdate in Hrun.
  destruct (CandidateCrossSafe db c) as [p err] eqn:Hc. destruct (candidate_ok _ _ _ _ Hok Hc) as [Hsrc Hdrv].
  assert (forall d e, chains_ok d ->
            (if is_err e ErrAwaitReplacementBlock then (Err e, d)
             else if is_err e ErrConflict then InvalidateLocalSafe c p d
             else if negb (is_err e ErrOutOfScope) then (Err e, d)
             else if bool_decide (rp_Source p = zero_ref) then (Err e, d) else bump_scope c p d) = (r, db') ->
            chains_ok db') as Herr.
  { intros d e Hd He. destruct (is_err e ErrAwaitReplacementBlock); [by injection He as _ <- |].
    destruct (is_err e ErrConflict); [revert He; by apply keeps_InvalidateLocalSafe |].
    destruct (negb _); [by injection He as _ <- |]. destruct (bool_decide _); [by injection He as _ <- |].
    revert He. by apply keeps_bump. }
  destruct (_ ≫= _) as [u|e|e] in Hrun.
  - destruct (UpdateCrossSafe c (rp_Source p) (rp_Derived p) db) as [r1 db1] eqn:Hu.
    assert (chains_ok db1) as Hok1 by (revert Hu; by apply keeps_UpdateCrossSafe).
    destruct r1 as [[]|e|e]; [by injection Hrun as _ <- | by eapply Herr | by injection Hrun as _ <-].
  - by eapply Herr.
  - by injection Hrun as _ <-.
Qed.

Lemma keeps_CrossUnsafeUpdate o c : keeps (CrossUnsafeUpdate o c).
Proof.
  apply keeps_same. intros db. unfold CrossUnsafeUpdate. destruct (CrossUnsafe db c) as [xu|e|e]; [| by destruct (is_err _ _) | done].
  destruct (_ ≫= _) as [cand|e|e]; [| done | done]. cbn. unfold u_UpdateCrossUnsafe. destruct (crossUnsafe db !! c); [| done].
  by destruct (negb _).
Qed.

(** ** Everything the supervisor does *)

Definition event_ok (ev : db_event) : Prop :=
  match ev with
  | AnchorEvent _ p | LocalDerivedEvent _ p _ => src_ok (rp_Source p) /\ drv_ok (rp_Derived p)
  | ReplaceBlockEvent _ b _ => drv_ok b
  | _ => True
  end.

Inductive db_step : DBs -> DBs -> Prop :=
| step_event ev r db db' : event_ok ev -> OnEvent ev db = (r, db') -> db_step db db'
| step_safe o c r db db' : CrossSafeUpdate o c db = (r, db') -> db_step db db'
| step_unsafe o c r db db' : CrossUnsafeUpdate o c db = (r, db') -> db_step db db'
| step_add_log c h b i m r db db' : AddLog c h b i m db = (r, db') -> db_step db db'
| step_seal c b r db db' : SealBlock c b db = (r, db') -> db_step db db'
| step_rewind c b r db db' : db_Rewind c b db = (r, db') -> db_step db db'
| step_rewind_local c b r db db' : RewindLocalSafe c b db = (r, db') -> db_step db db'
| step_rewind_cross c b r db db' : RewindCrossSafe c b db = (r, db') -> db_step db db'
| step_rewind_logs c b r db db' : RewindLogs c b db = (r, db') -> db_step db db'
| step_resume ch r db db' : ResumeFromLastSealedBlock ch db = (r, db') -> db_step db db'.

Lemma keeps_OnEvent ev : event_ok ev -> keeps (OnEvent ev).
Proof.
  intros He. destruct ev as [c p | c p n | b | c b h |]; cbn in *; try (apply keeps_bind; [| intros _; apply keeps_ret]).
  - destruct He. by apply keeps_init.
  - destruct He. by apply keeps_UpdateLocalSafe.
  - apply keeps_finalized.
  - by apply keeps_replace.
  - apply keeps_ret.
Qed.

Lemma keeps_resume chains : keeps (resume_ chains).
Proof.
  induction chains as [|[c l] chains IH]; cbn [resume_]; [apply keeps_ret |].
  destruct (log_LatestSealedBlock l) as [head|]; [| done]. intros db r db' Hok Hrun.
  destruct (on_log c (log_Rewind head) db) as [r1 db1] eqn:Ho. assert (chains_ok db1) by (by eapply keeps_on_log).
  destruct r1; [by eapply IH | by injection Hrun as _ <- | by injection Hrun as _ <-].
Qed.

Lemma db_step_ok db db' : db_step db db' -> chains_ok db -> chains_ok db'.
Proof.
  intros Hstep Hok. destruct Hstep as [ev r db db' He Hr | o c r db db' Hr | o c r db db' Hr | c h b i m r db db' Hr
    | c b r db db' Hr | c b r db db' Hr | c b r db db' Hr | c b r db db' Hr | c b r db db' Hr | ch r db db' Hr]; revert Hok Hr.
  - by apply keeps_OnEvent.
  - apply keeps_CrossSafeUpdate.
  - apply keeps_CrossUnsafeUpdate.
  - apply keeps_on_log.
  - intros Hok Hr. unfold SealBlock, when_initialized in Hr. destruct (isInitialized db c); [| by injection Hr as _ <-].
    revert Hok Hr. apply keeps_bind; [apply keeps_on_log | intros _; apply keeps_emit].
  - apply keeps_bind; [apply keeps_on_log | intros _]. apply keeps_bind; [apply keeps_query | intros _].
    apply keeps_bind; [apply keeps_query | intros rev]. apply keeps_bind; [| intros _].
    + apply keeps_on_local. intros s r0 s' Hs Hrun. pose proof Hrun as Hrun'. apply rewindToFirst_sane in Hrun as [Hs' Hst]; [| done].
      split; [done |]. intros Hns. unfold RewindToFirstDerived, derivedNumToFirstSource, find in Hrun'.
      destruct (Z.eqb_spec (store_Size s) 0) as [Hz | Hz]; [cbn in Hrun'; congruence | by destruct Hns].
    + apply keeps_on_cross. intros s r0 s' Hs Hrun. apply rewindToFirst_sane in Hrun as [? Hst]; [| done]. split; [done | by apply Hst].
  - apply keeps_on_local. intros s r0 s' Hs Hrun. pose proof Hrun as Hrun'. apply rewindToScope_sane in Hrun as [Hs' Hst]; [| done].
    split; [done |]. intros Hns. unfold RewindToScope, sourceNumToLastDerived, find in Hrun'.
    destruct (Z.eqb_spec (store_Size s) 0) as [Hz | Hz]; [cbn in Hrun'; congruence | by destruct Hns].
  - apply keeps_on_cross. intros s r0 s' Hs Hrun. apply rewindToScope_sane in Hrun as [? Hst]; [| done]. split; [done | by apply Hst].
  - apply keeps_on_log.
  - intros Hok Hr. unfold ResumeFromLastSealedBlock in Hr. by eapply keeps_resume.
Qed.

Lemma db_steps_ok db db' : rtc db_step db db' -> chains_ok db -> chains_ok db'.
Proof. induction 1 as [db | db db1 db2 Hs _ IH]; [done |]. intros Hok. by apply IH, (db_step_ok db). Qed.

End Chains.
