(* ===== verification/LogProps.v ===== *)
(** The entries of a database of logs as a sequence of chunks - the entries of a
    block seal, of a log, of a repeated checkpoint, of padding - that iterators
    read back from any search checkpoint on, and the history the chunks stand for:
    sealed blocks, each with the logs that were added before its seal, and the logs
    on top of the last one. *)
From Stdlib Require Import ZArith Lia.
From stdpp Require Import base gmap list strings numbers.
From S2P Require Import Prelude Codec Rollup Frames Interop EntryDB ChainsDB LogDB AccessProps.
Import Logs.

(** ** Entries *)

Lemma length_le_encode n x : length (le_encode n x) = n.
Proof. unfold le_encode. by rewrite length_reverse, length_be_encode. Qed.

Lemma le_decode_encode n x : le_decode (le_encode n x) = wrap (8 * Z.of_nat n) x.
Proof. unfold le_decode, le_encode. by rewrite reverse_involutive, be_decode_encode. Qed.

Lemma le_roundtrip n x : in_range (8 * Z.of_nat n) x -> le_decode (le_encode n x) = x.
Proof. intros Hx. rewrite le_decode_encode. by apply wrap_small. Qed.

(** The field of an entry behind others. *)
Lemma field_at {A} lo hi (pre mid post e : list A) :
  e = pre ++ mid ++ post -> zlen pre = lo -> zlen mid = hi - lo -> slice lo hi e = mid.
Proof. intros ->. apply slice_app. Qed.

Ltac field_len := unfold zlen; rewrite ?length_app, ?length_le_encode; cbn; lia.

Definition checkpoint_ok (c : searchCheckpoint) : Prop :=
  in_range 64 (sc_blockNum c) /\ in_range 32 (sc_logsSince c) /\ in_range 64 (sc_timestamp c).

Lemma checkpoint_roundtrip c : checkpoint_ok c -> newSearchCheckpointFromEntry (checkpoint_encode c) = Ok c.
Proof.
  intros (Hn & Hl & Ht). destruct c as [n l t]. unfold newSearchCheckpointFromEntry. change (entry_Type _ =? _) with true. cbn [negb].
  rewrite (field_at 1 9 [TypeSearchCheckpoint] (le_encode 8 n) (le_encode 4 l ++ le_encode 8 t ++ replicate 13 0)),
    (field_at 9 13 ([TypeSearchCheckpoint] ++ le_encode 8 n) (le_encode 4 l) (le_encode 8 t ++ replicate 13 0)),
    (field_at 13 21 ([TypeSearchCheckpoint] ++ le_encode 8 n ++ le_encode 4 l) (le_encode 8 t) (replicate 13 0)),
    !le_roundtrip by first [done | field_len | unfold checkpoint_encode; by rewrite <- ?app_assoc].
  done.
Qed.

Lemma canonical_roundtrip h : length h = 32%nat -> newCanonicalHashFromEntry (canonical_encode h) = Ok h.
Proof.
  intros Hh. unfold newCanonicalHashFromEntry. change (entry_Type _ =? _) with true. cbn [negb].
  rewrite (field_at 1 33 [TypeCanonicalHash] h [0]); [done | done | done | unfold zlen; lia].
Qed.

Lemma initiating_roundtrip i : length (ie_logHash i) = 32%nat -> newInitiatingEventFromEntry (initiating_encode i) = Ok i.
Proof.
  intros Hh. destruct i as [x h]. unfold newInitiatingEventFromEntry. change (entry_Type _ =? _) with true. cbn [negb].
  rewrite (field_at 2 34 [TypeInitiatingEvent; if x then 0 .| eventFlagHasExecutingMessage else 0] h []);
    [by destruct x | by rewrite app_nil_r | done | cbn in Hh; unfold zlen; lia].
Qed.

(** The message of a link and its check. *)
Definition message_ok (m : ExecutingMessage) : Prop :=
  in_range 32 (m_Chain m) /\ in_range 64 (m_BlockNum m) /\ 0 <= m_LogIdx m < 2 ^ 24 /\ in_range 64 (m_Timestamp m) /\
  length (m_Hash m) = 32%nat.

Definition link_of (m : ExecutingMessage) : executingLink :=
  mkExecutingLink (m_Chain m) (m_BlockNum m) (m_LogIdx m) (m_Timestamp m).

Lemma newExecutingLink_ok m : message_ok m -> newExecutingLink m = Ok (link_of m).
Proof. intros (_ & _ & Hi & _). unfold newExecutingLink. destruct (Z.ltb_spec (2 ^ 24) (m_LogIdx m)); [lia | done]. Qed.

Lemma three_bytes x : 0 <= x < 2 ^ 24 ->
  wrap 8 x .| Z.shiftl (wrap 8 (Z.shiftr x 8)) 8 .| Z.shiftl (wrap 8 (Z.shiftr x 16)) 16 = x.
Proof.
  intros Hx. apply Z.bits_inj'. intros n Hn. unfold wrap. rewrite !Z.lor_spec, !Z.shiftl_spec, <- !Z.land_ones by lia.
  destruct (Z_lt_dec n 8); [| destruct (Z_lt_dec n 16); [| destruct (Z_lt_dec n 24)]].
  - rewrite (Z.testbit_neg_r _ (n - 8)), (Z.testbit_neg_r _ (n - 16)), Z.land_spec, Z.ones_spec_low by lia. by rewrite andb_true_r, !orb_false_r.
  - rewrite (Z.testbit_neg_r _ (n - 16)), !Z.land_spec, Z.ones_spec_high, Z.ones_spec_low, Z.shiftr_spec by lia.
    rewrite andb_false_r, andb_true_r, orb_false_r. cbn [orb]. f_equal. lia.
  - rewrite !Z.land_spec, !Z.shiftr_spec, (Z.ones_spec_high _ n), (Z.ones_spec_high _ (n - 8)), (Z.ones_spec_low _ (n - 16)) by lia.
    rewrite !andb_false_r, andb_true_r. cbn [orb]. f_equal. lia.
  - rewrite !Z.land_spec, !Z.ones_spec_high by lia. rewrite !andb_false_r. cbn [orb]. symmetry.
    rewrite <- (Z.mod_small x (2 ^ n)); [apply Z.mod_pow2_bits_high; lia |]. split; [lia |].
    apply Z.lt_le_trans with (2 ^ 24); [lia | apply Z.pow_le_mono_r; lia].
Qed.

Lemma link_roundtrip m : message_ok m -> newExecutingLinkFromEntry (link_encode (link_of m)) = Ok (link_of m).
Proof.
  intros (Hc & Hb & Hi & Ht & _). destruct m as [c b i t h]. cbn in Hc, Hb, Hi, Ht. unfold newExecutingLinkFromEntry.
  set (e := link_encode _).
  assert (e = [TypeExecutingLink] ++ le_encode 4 c ++ le_encode 8 b
              ++ [wrap 8 i; wrap 8 (Z.shiftr i 8); wrap 8 (Z.shiftr i 16)] ++ le_encode 8 t ++ replicate 10 0) as He by done.
  rewrite (field_at 1 5 [TypeExecutingLink] (le_encode 4 c) (le_encode 8 b
              ++ [wrap 8 i; wrap 8 (Z.shiftr i 8); wrap 8 (Z.shiftr i 16)] ++ le_encode 8 t ++ replicate 10 0)),
    (field_at 5 13 ([TypeExecutingLink] ++ le_encode 4 c) (le_encode 8 b)
              ([wrap 8 i; wrap 8 (Z.shiftr i 8); wrap 8 (Z.shiftr i 16)] ++ le_encode 8 t ++ replicate 10 0)),
    (field_at 16 24 ([TypeExecutingLink] ++ le_encode 4 c ++ le_encode 8 b
              ++ [wrap 8 i; wrap 8 (Z.shiftr i 8); wrap 8 (Z.shiftr i 16)]) (le_encode 8 t) (replicate 10 0)),
    !le_roundtrip by first [done | field_len | by rewrite He, <- ?app_assoc].
  change (entry_Type e =? TypeExecutingLink) with true. cbn [negb].
  set (bs := [wrap 8 i; wrap 8 (Z.shiftr i 8); wrap 8 (Z.shiftr i 16)]) in *.
  assert (forall j, byte_at (13 + j) e = byte_at j (bs ++ le_encode 8 t ++ replicate 10 0)) as Hb3.
  { intros j. rewrite He, (app_assoc (le_encode 4 c)), (app_assoc [_]). unfold byte_at.
    rewrite lookup_app_r; rewrite !length_app, !length_le_encode; cbn [length]; [| lia]. do 2 f_equal. lia. }
  rewrite (Hb3 0%nat : byte_at 13 e = _), (Hb3 1%nat : byte_at 14 e = _), (Hb3 2%nat : byte_at 15 e = _).
  unfold link_of. cbn [m_Chain m_BlockNum m_LogIdx m_Timestamp]. do 2 f_equal. exact (three_bytes i Hi).
Qed.

Lemma check_roundtrip h : length h = 32%nat -> newExecutingCheckFromEntry (check_encode h) = Ok h.
Proof.
  intros Hh. unfold newExecutingCheckFromEntry. change (entry_Type _ =? _) with true. cbn [negb].
  rewrite (field_at 1 33 [TypeExecutingCheck] h [0]); [done | done | done | unfold zlen; lia].
Qed.

(** ** Chunks *)

(** What entries have established: the sealed block and the number of logs on top of
    it; [v_half] when the hash of the block is still to come. *)
Record vstate : Type := mkV {
  v_hash : hash;
  v_num : Z;
  v_time : Z;
  v_logs : Z;
  v_half : bool;
}.

Inductive chunk : Type :=
| CSeal (h : hash) (n t : Z)
| CSplit (h : hash) (n t : Z)
| CRepeat
| CPad
| CLog (lh : hash) (em : option ExecutingMessage).

Definition whole (v : vstate) : vstate := mkV (v_hash v) (v_num v) (v_time v) (v_logs v) false.

Definition chunk_next (v : vstate) (c : chunk) : vstate :=
  match c with
  | CSeal h n t => mkV h n t 0 false
  | CSplit h n t => mkV h n t 0 true
  | CRepeat => whole v
  | CPad => v
  | CLog _ _ => mkV (v_hash v) (v_num v) (v_time v) (v_logs v + 1) (v_half v)
  end.

Definition chunk_entries (v : vstate) (c : chunk) : list Entry :=
  match c with
  | CSeal h n t => [checkpoint_encode (mkCheckpoint n 0 t); canonical_encode h]
  | CSplit h n t => [checkpoint_encode (mkCheckpoint n 0 t)]
  | CRepeat => [checkpoint_encode (mkCheckpoint (v_num v) (v_logs v) (v_time v)); canonical_encode (v_hash v)]
  | CPad => [padding_encode]
  | CLog lh None => [initiating_encode (mkInitiatingEvent false lh)]
  | CLog lh (Some m) =>
      [initiating_encode (mkInitiatingEvent true lh); link_encode (link_of m); check_encode (m_Hash m)]
  end.

Definition chunk_len (c : chunk) : Z :=
  match c with
  | CSeal _ _ _ | CRepeat => 2
  | CSplit _ _ _ | CPad | CLog _ None => 1
  | CLog _ (Some _) => 3
  end.

Definition block_ok (h : hash) (n t : Z) : Prop :=
  length h = 32%nat /\ h <> zero_hash /\ 0 <= n < 2 ^ 64 - 1 /\ in_range 64 t.

Definition v_ok (v : vstate) : Prop :=
  length (v_hash v) = 32%nat /\ in_range 64 (v_num v) /\ in_range 64 (v_time v) /\ in_range 32 (v_logs v).

(** A chunk at an index: search checkpoints are where they must be, and no log is
    cut by one. *)
Definition chunk_ok (i : Z) (v : vstate) (c : chunk) : Prop :=
  match c with
  | CSeal h n t =>
      v_half v = false /\ i mod 256 <> 255 /\ block_ok h n t /\ (i = 0 \/ n = v_num v + 1 /\ v_time v <= t)
  | CSplit h n t =>
      v_half v = false /\ i mod 256 = 255 /\ block_ok h n t /\ n = v_num v + 1 /\ v_time v <= t
  | CRepeat => v_ok v /\ i mod 256 = 0 /\ (v_half v = true \/ 0 < i)
  | CPad => v_half v = false /\ i mod 256 <> 0
  | CLog lh em =>
      v_half v = false /\ i mod 256 <> 0 /\ i mod 256 + chunk_len c <= 256 /\ length lh = 32%nat /\
      0 <= v_logs v < 2 ^ 32 - 1 /\ match em with Some m => message_ok m | None => True end
  end.

Fixpoint entries (v : vstate) (cs : list chunk) : list Entry :=
  match cs with
  | [] => []
  | c :: cs => chunk_entries v c ++ entries (chunk_next v c) cs
  end.

Fixpoint chunks_ok (i : Z) (v : vstate) (cs : list chunk) : Prop :=
  match cs with
  | [] => True
  | c :: cs => chunk_ok i v c /\ chunks_ok (i + chunk_len c) (chunk_next v c) cs
  end.

Definition after (v : vstate) (cs : list chunk) : vstate := fold_left chunk_next cs v.
Definition chunks_len (cs : list chunk) : Z := fold_right (fun c n => chunk_len c + n) 0 cs.

Lemma chunks_len_cons c cs : chunks_len (c :: cs) = chunk_len c + chunks_len cs.
Proof. reflexivity. Qed.

Lemma length_chunk v c : zlen (chunk_entries v c) = chunk_len c.
Proof. by destruct c as [| | | |lh []]. Qed.

Lemma chunk_len_pos c : 0 < chunk_len c.
Proof. by destruct c as [| | | |lh []]. Qed.

Lemma chunks_len_nonneg cs : 0 <= chunks_len cs.
Proof. induction cs as [|c cs IH]; [done |]. rewrite chunks_len_cons. pose proof (chunk_len_pos c). lia. Qed.

Lemma length_entries v cs : zlen (entries v cs) = chunks_len cs.
Proof.
  revert v. induction cs as [|c cs IH]; intros v; [done |]. cbn [entries]. rewrite chunks_len_cons, <- (IH (chunk_next v c)), <- (length_chunk v c).
  unfold zlen. rewrite length_app. lia.
Qed.

Lemma entries_app v cs1 cs2 : entries v (cs1 ++ cs2) = entries v cs1 ++ entries (after v cs1) cs2.
Proof. revert v. induction cs1 as [|c cs1 IH]; intros v; [done |]. cbn. by rewrite IH, app_assoc. Qed.

Lemma chunks_len_app cs1 cs2 : chunks_len (cs1 ++ cs2) = chunks_len cs1 + chunks_len cs2.
Proof. induction cs1 as [|c cs1 IH]; [done |]. cbn [app]. rewrite !chunks_len_cons, IH. lia. Qed.

Lemma after_app v cs1 cs2 : after v (cs1 ++ cs2) = after (after v cs1) cs2.
Proof. apply fold_left_app. Qed.

Lemma chunks_ok_app i v cs1 cs2 :
  chunks_ok i v (cs1 ++ cs2) <-> chunks_ok i v cs1 /\ chunks_ok (i + chunks_len cs1) (after v cs1) cs2.
Proof.
  revert i v. induction cs1 as [|c cs1 IH]; intros i v; cbn [app chunks_ok].
  - change (chunks_len []) with 0. rewrite Z.add_0_r. tauto.
  - rewrite IH, chunks_len_cons, Z.add_assoc. cbn [after fold_left]. tauto.
Qed.

(** ** Reading *)

(** A place between two chunks, with the last log that was read on the way. *)
Record pos : Type := mkPos {
  p_i : Z;
  p_v : vstate;
  p_lh : hash;
  p_em : option ExecutingMessage;
}.

(** The context of an iterator there. *)
Definition rctx (p : pos) : logContext :=
  let v := p_v p in
  mkContext (p_i p) (if v_half v then zero_hash else v_hash v) (v_num v) (v_time v) (v_logs v) (p_lh p) (p_em p)
    (if v_half v then FlagCanonicalHash else 0) [].

Definition adv (p : pos) (c : chunk) : pos :=
  let fresh := v_logs (p_v p) =? 0 in
  let '(lh, em) := match c with
                   | CSeal _ _ _ | CSplit _ _ _ => (zero_hash, None)
                   | CRepeat => if fresh then (zero_hash, None) else (p_lh p, p_em p)
                   | CPad => (p_lh p, p_em p)
                   | CLog lh em => (lh, em)
                   end in
  mkPos (p_i p + chunk_len c) (chunk_next (p_v p) c) lh em.

Lemma apply_checkpoint p n k t h :
  checkpoint_ok (mkCheckpoint n k t) ->
  ApplyEntry (checkpoint_encode (mkCheckpoint n k t)) (rctx p) =
  Ok (rctx (mkPos (p_i p + 1) (mkV h n t k true) (if k =? 0 then zero_hash else p_lh p) (if k =? 0 then None else p_em p))).
Proof.
  intros Hc. unfold ApplyEntry, processEntry, process_checkpoint. cbn [rctx out]. change (zlen [] =? 0) with true. cbn [negb].
  change (entry_Type (checkpoint_encode _)) with TypeSearchCheckpoint. change (TypeSearchCheckpoint =? TypeSearchCheckpoint) with true. cbv iota zeta.
  rewrite checkpoint_roundtrip by done. cbn [mbind outcome_bind]. unfold next_index, rctx. destruct (v_half (p_v p)); reflexivity.
Qed.

Lemma apply_canonical p :
  v_half (p_v p) = true -> length (v_hash (p_v p)) = 32%nat ->
  ApplyEntry (canonical_encode (v_hash (p_v p))) (rctx p) = Ok (rctx (mkPos (p_i p + 1) (whole (p_v p)) (p_lh p) (p_em p))).
Proof.
  intros Hh Hl. unfold ApplyEntry, processEntry, process_canonical, rctx. cbn [out need]. rewrite Hh. change (zlen [] =? 0) with true. cbn [negb].
  change (entry_Type (canonical_encode _)) with TypeCanonicalHash. change (TypeCanonicalHash =? TypeSearchCheckpoint) with false.
  change (TypeCanonicalHash =? TypeCanonicalHash) with true. cbv iota zeta.
  change (flag_Any FlagCanonicalHash FlagCanonicalHash) with true. cbn [negb]. rewrite canonical_roundtrip by done. reflexivity.
Qed.

Lemma apply_padding p :
  v_half (p_v p) = false -> ApplyEntry padding_encode (rctx p) = Ok (rctx (mkPos (p_i p + 1) (p_v p) (p_lh p) (p_em p))).
Proof. intros Hh. unfold ApplyEntry, processEntry, rctx. cbn [out need p_v p_i p_lh p_em]. rewrite Hh. reflexivity. Qed.

(** The contexts between the entries of a log with an executing message. *)
Definition mid_link (p : pos) (lh : hash) : logContext :=
  let v := p_v p in
  mkContext (p_i p + 1) (v_hash v) (v_num v) (v_time v) (v_logs v) lh None (FlagExecutingLink .| FlagExecutingCheck) [].
Definition mid_check (p : pos) (lh : hash) (m : ExecutingMessage) : logContext :=
  let v := p_v p in
  mkContext (p_i p + 2) (v_hash v) (v_num v) (v_time v) (v_logs v) lh
    (Some (mkExecutingMessage (m_Chain m) (m_BlockNum m) (m_LogIdx m) (m_Timestamp m) zero_hash)) FlagExecutingCheck [].

Lemma apply_plain p lh :
  chunk_ok (p_i p) (p_v p) (CLog lh None) ->
  ApplyEntry (initiating_encode (mkInitiatingEvent false lh)) (rctx p) = Ok (rctx (adv p (CLog lh None))).
Proof.
  intros (Hh & _ & _ & Hl & Hk & _). unfold ApplyEntry, processEntry, process_initiating, rctx. cbn [out need adv p_v chunk_next v_half]. rewrite Hh.
  change (zlen [] =? 0) with true. change (entry_Type (initiating_encode _)) with TypeInitiatingEvent.
  repeat change (TypeInitiatingEvent =? _) with false at 1. cbn [negb].
  change (TypeInitiatingEvent =? TypeSearchCheckpoint) with false. change (TypeInitiatingEvent =? TypeCanonicalHash) with false.
  change (TypeInitiatingEvent =? TypeInitiatingEvent) with true. cbv iota zeta.
  change (hasCompleteBlock _) with true. change (hasIncompleteLog _) with false. cbn [negb]. rewrite initiating_roundtrip by done.
  cbn [mbind outcome_bind ie_hasExecMsg ie_logHash]. unfold count_log, uadd. cbn [logsSince].
  rewrite wrap_small by (unfold in_range; lia). reflexivity.
Qed.

Lemma apply_exec p lh m :
  chunk_ok (p_i p) (p_v p) (CLog lh (Some m)) ->
  ApplyEntry (initiating_encode (mkInitiatingEvent true lh)) (rctx p) = Ok (mid_link p lh) /\
  ApplyEntry (link_encode (link_of m)) (mid_link p lh) = Ok (mid_check p lh m) /\
  ApplyEntry (check_encode (m_Hash m)) (mid_check p lh m) = Ok (rctx (adv p (CLog lh (Some m)))).
Proof.
  intros (Hh & _ & _ & Hl & Hk & Hm). split_and!.
  - unfold ApplyEntry, processEntry, process_initiating, rctx. cbn [out need]. rewrite Hh.
    change (zlen [] =? 0) with true. change (entry_Type (initiating_encode _)) with TypeInitiatingEvent. cbn [negb].
    change (TypeInitiatingEvent =? TypeSearchCheckpoint) with false. change (TypeInitiatingEvent =? TypeCanonicalHash) with false.
    change (TypeInitiatingEvent =? TypeInitiatingEvent) with true. cbv iota zeta.
    change (hasCompleteBlock _) with true. change (hasIncompleteLog _) with false. cbn [negb]. rewrite initiating_roundtrip by done.
    reflexivity.
  - unfold ApplyEntry, processEntry, process_link, mid_link. cbn [out need].
    change (zlen [] =? 0) with true. change (entry_Type (link_encode _)) with TypeExecutingLink. cbn [negb].
    change (TypeExecutingLink =? TypeSearchCheckpoint) with false. change (TypeExecutingLink =? TypeCanonicalHash) with false.
    change (TypeExecutingLink =? TypeInitiatingEvent) with false. change (TypeExecutingLink =? TypeExecutingLink) with true. cbv iota zeta.
    change (flag_Any _ FlagExecutingLink) with true. cbn [negb]. rewrite link_roundtrip by done.
    cbn [mbind outcome_bind]. unfold mid_check, next_index, add_need, remove_need, set_need.
    cbn [nextEntryIndex blockHash blockNum timestamp logsSince logHash execMsg need out]. do 2 f_equal. lia.
  - destruct Hm as (_ & _ & _ & _ & Hm). unfold ApplyEntry, processEntry, process_check, mid_check. cbn [out need].
    change (zlen [] =? 0) with true. change (entry_Type (check_encode _)) with TypeExecutingCheck. cbn [negb].
    change (TypeExecutingCheck =? TypeSearchCheckpoint) with false. change (TypeExecutingCheck =? TypeCanonicalHash) with false.
    change (TypeExecutingCheck =? TypeInitiatingEvent) with false. change (TypeExecutingCheck =? TypeExecutingLink) with false.
    change (TypeExecutingCheck =? TypeExecutingCheck) with true. cbv iota zeta.
    change (flag_Any _ FlagExecutingLink) with false. change (flag_Any _ FlagExecutingCheck) with true. cbn [negb].
    rewrite check_roundtrip by done. cbn [mbind outcome_bind execMsg m_Chain m_BlockNum m_LogIdx m_Timestamp].
    unfold count_log, uadd, remove_need, set_need, set_logsSince, next_index, rctx, adv.
    cbn [nextEntryIndex blockHash blockNum timestamp logsSince logHash execMsg need out p_i p_v p_lh p_em chunk_next chunk_len v_half v_hash v_num v_time v_logs].
    rewrite Hh, wrap_small by (unfold in_range; lia). destruct m. do 2 f_equal. lia.
Qed.

(** The type and the context after each entry of a chunk. *)
Definition chunk_trace (p : pos) (c : chunk) : list (Z * logContext) :=
  match c with
  | CSeal h n t =>
      [(TypeSearchCheckpoint, rctx (mkPos (p_i p + 1) (mkV h n t 0 true) zero_hash None)); (TypeCanonicalHash, rctx (adv p c))]
  | CSplit _ _ _ => [(TypeSearchCheckpoint, rctx (adv p c))]
  | CRepeat =>
      let v := p_v p in
      [(TypeSearchCheckpoint, rctx (mkPos (p_i p + 1) (mkV (v_hash v) (v_num v) (v_time v) (v_logs v) true)
                                      (p_lh (adv p c)) (p_em (adv p c))));
       (TypeCanonicalHash, rctx (adv p c))]
  | CPad => [(TypePadding, rctx (adv p c))]
  | CLog lh None => [(TypeInitiatingEvent, rctx (adv p c))]
  | CLog lh (Some m) =>
      [(TypeInitiatingEvent, mid_link p lh); (TypeExecutingLink, mid_check p lh m); (TypeExecutingCheck, rctx (adv p c))]
  end.

(** The entries lead through these contexts. *)
Fixpoint leads (l : logContext) (es : list Entry) (tr : list (Z * logContext)) : Prop :=
  match es, tr with
  | [], [] => True
  | e :: es, (t, l') :: tr =>
      ApplyEntry e l = Ok l' /\ entry_Type e = t /\ nextEntryIndex l' = nextEntryIndex l + 1 /\ leads l' es tr
  | _, _ => False
  end.

Lemma chunk_leads p c : chunk_ok (p_i p) (p_v p) c -> leads (rctx p) (chunk_entries (p_v p) c) (chunk_trace p c).
Proof.
  intros Hok. destruct c as [h n t | h n t | | | lh [m |]]; cbn [chunk_entries chunk_trace leads].
  - destruct Hok as (_ & _ & (Hh & _ & Hn & Ht) & _). split_and!; try done.
    + apply (apply_checkpoint p n 0 t h). split_and!; cbn; unfold in_range in *; lia || done.
    + etrans; [exact (apply_canonical (mkPos (p_i p + 1) (mkV h n t 0 true) zero_hash None) eq_refl Hh) |]. unfold adv. cbn. do 3 f_equal. lia.
    + cbn. lia.
  - destruct Hok as (_ & _ & (Hh & _ & Hn & Ht) & _). split_and!; try done.
    apply (apply_checkpoint p n 0 t h). split_and!; cbn; unfold in_range in *; lia || done.
  - destruct Hok as ((Hh & Hn & Ht & Hk) & _ & _). split_and!; try done.
    + rewrite (apply_checkpoint p _ _ _ (v_hash (p_v p))) by done. unfold adv. by destruct (v_logs (p_v p) =? 0).
    + etrans; [exact (apply_canonical (mkPos (p_i p + 1) (mkV (v_hash (p_v p)) (v_num (p_v p)) (v_time (p_v p)) (v_logs (p_v p)) true) _ _) eq_refl Hh) |].
      cbn. unfold adv. destruct (v_logs (p_v p) =? 0); cbn; do 3 f_equal; lia.
    + unfold adv. destruct (v_logs (p_v p) =? 0); cbn; lia.
  - destruct Hok as (Hh & _). split_and!; try done. by apply apply_padding.
  - destruct (apply_exec p lh m Hok) as (H1 & H2 & H3). split_and!; try done; cbn; lia.
  - split_and!; try done. by apply apply_plain.
Qed.

Definition is_check (c : chunk) : bool := match c with CSeal _ _ _ | CRepeat => true | _ => false end.
Definition is_log (c : chunk) : bool := match c with CLog _ _ => true | _ => false end.

(** ** Order *)

Lemma chunk_next_ok i v c : chunk_ok i v c -> v_ok v -> v_ok (chunk_next v c).
Proof.
  intros Hok (Hh & Hn & Ht & Hl). destruct c as [h n t | h n t | | | lh em]; cbn in Hok |- *; [| | done | done |].
  - destruct Hok as (_ & _ & (? & _ & ? & ?) & _). unfold v_ok, in_range in *. cbn. split_and!; lia || done.
  - destruct Hok as (_ & _ & (? & _ & ? & ?) & _). unfold v_ok, in_range in *. cbn. split_and!; lia || done.
  - destruct Hok as (_ & _ & _ & _ & ? & _). unfold v_ok, in_range in *. cbn. split_and!; lia || done.
Qed.

Lemma after_ok i v cs : chunks_ok i v cs -> v_ok v -> v_ok (after v cs).
Proof.
  revert i v. induction cs as [|c cs IH]; intros i v Hok Hv; [done |]. destruct Hok as [Hc Hok].
  by eapply (IH _ (chunk_next v c)), chunk_next_ok.
Qed.

(** A later place: a later block, or the same block with at least as many logs. *)
Definition vle (v v' : vstate) : Prop :=
  v_num v < v_num v' \/
  (v_num v = v_num v' /\ v_hash v = v_hash v' /\ v_time v = v_time v' /\ v_logs v <= v_logs v').

Lemma vle_refl v : vle v v.
Proof. right. split_and!; done || lia. Qed.

Lemma vle_trans v1 v2 v3 : vle v1 v2 -> vle v2 v3 -> vle v1 v3.
Proof. unfold vle. intros [Ha | (Ha & ? & ? & ?)] [Hb | (Hb & ? & ? & ?)]; [left; lia.. | right]. split_and!; try congruence; lia. Qed.

Lemma chunk_vle i v c : 0 < i -> chunk_ok i v c -> vle v (chunk_next v c).
Proof.
  intros Hi Hok. destruct c as [h n t | h n t | | | lh em]; cbn in Hok |- *.
  - left. cbn. lia.
  - left. cbn. lia.
  - right. cbn. split_and!; done || lia.
  - apply vle_refl.
  - right. cbn. split_and!; done || lia.
Qed.

Lemma chunks_vle i v cs : 0 < i -> chunks_ok i v cs -> vle v (after v cs).
Proof.
  revert i v. induction cs as [|c cs IH]; intros i v Hi Hok; [apply vle_refl |]. destruct Hok as [Hc Hok].
  pose proof (chunk_len_pos c). eapply vle_trans; [exact (chunk_vle i v c Hi Hc) |].
  exact (IH (i + chunk_len c) (chunk_next v c) ltac:(lia) Hok).
Qed.

(** ** Search checkpoints *)

Lemma chunk_fits i v c : 0 <= i -> chunk_ok i v c -> i mod 256 + chunk_len c <= 256.
Proof.
  intros Hi Hok. pose proof (Z.mod_pos_bound i 256). destruct c as [h n t | h n t | | | lh em]; cbn in Hok |- *; [lia.. |].
  destruct Hok as (_ & _ & ? & _). done.
Qed.

(** Every index that is a multiple of 256 starts a chunk with a checkpoint. *)
Lemma boundary i v cs k :
  0 <= i -> chunks_ok i v cs -> i <= 256 * k < i + chunks_len cs ->
  exists pre c post, cs = pre ++ c :: post /\ i + chunks_len pre = 256 * k /\ is_check c = true.
Proof.
  revert i v. induction cs as [|c cs IH]; intros i v Hi Hok Hk.
  - change (chunks_len []) with 0 in Hk. lia.
  - destruct Hok as [Hc Hok]. rewrite chunks_len_cons in Hk. destruct (decide (256 * k = i)) as [E | E].
    + exists [], c, cs. split_and!; [done | change (chunks_len []) with 0; lia |].
      assert (i mod 256 = 0) as Hm by (rewrite <- E, Z.mul_comm; by apply Z.mod_mul).
      destruct c as [| | | |lh em]; cbn in Hc; try done; exfalso; lia.
    + pose proof (chunk_fits i v c Hi Hc) as Hf. pose proof (chunk_len_pos c).
      assert (i + chunk_len c <= 256 * k).
      { pose proof (Z.div_mod i 256 ltac:(lia)). assert (i / 256 < k) by (apply Z.div_lt_upper_bound; lia). lia. }
      destruct (IH (i + chunk_len c) (chunk_next v c)) as (pre & c' & post & -> & Hl & Hk'); [lia | done | lia |].
      exists (c :: pre), c', post. split_and!; [done | rewrite chunks_len_cons; lia | done].
Qed.

(** A place to start: the state behind the checkpoint, before it is read. *)
Definition halved (v : vstate) : vstate := mkV (v_hash v) (v_num v) (v_time v) (v_logs v) true.

Lemma check_entries v c post :
  is_check c = true ->
  chunk_entries v c ++ entries (chunk_next v c) post = entries (halved (chunk_next v c)) (CRepeat :: post).
Proof. by destruct c. Qed.

Section Store.
Context {St : Type} `{ES : !EntryStore (list Z) St} {contents : St -> list (list Z)} {good : St -> Prop}.
Context `{SL : !EntryStoreLaws (list Z) St (fun e => zlen e = EntrySize) contents good}.

Section Iterators.
Variable s : St.
Hypothesis Hgood : good s.

Lemma entry_next l e rest :
  0 <= nextEntryIndex l -> drop (Z.to_nat (nextEntryIndex l)) (contents s) = e :: rest ->
  next s l = l' ← ApplyEntry e l; Ok (entry_Type e, l').
Proof using SL Hgood.
  intros Hi Hd. unfold next. rewrite (read_law s) by done.
  assert (contents s !! Z.to_nat (nextEntryIndex l) = Some e) as ->; [| done].
  rewrite <- (Nat.add_0_r (Z.to_nat _)), <- lookup_drop. by rewrite Hd.
Qed.

Lemma next_end l :
  0 <= nextEntryIndex l -> drop (Z.to_nat (nextEntryIndex l)) (contents s) = [] -> next s l = Err ErrFuture.
Proof using SL Hgood.
  intros Hi Hd. unfold next. rewrite (read_law s) by done.
  assert (contents s !! Z.to_nat (nextEntryIndex l) = None) as ->; [| done].
  rewrite <- (Nat.add_0_r (Z.to_nat _)), <- lookup_drop. by rewrite Hd.
Qed.

(** The remaining entries are those of the chunks. *)
Definition at_ (p : pos) (cs : list chunk) : Prop :=
  0 <= p_i p /\ drop (Z.to_nat (p_i p)) (contents s) = entries (p_v p) cs /\ chunks_ok (p_i p) (p_v p) cs.

Lemma adv_i p c : p_i (adv p c) = p_i p + chunk_len c.
Proof. unfold adv. by destruct (match c with CSeal _ _ _ | _ => _ end). Qed.
Lemma adv_v p c : p_v (adv p c) = chunk_next (p_v p) c.
Proof. unfold adv. by destruct (match c with CSeal _ _ _ | _ => _ end). Qed.

Lemma at_adv p c cs : at_ p (c :: cs) -> at_ (adv p c) cs.
Proof.
  intros (Hi & Hd & Hok & Hcs). pose proof (chunk_len_pos c). split_and!; rewrite ?adv_i, ?adv_v; [lia | | done].
  rewrite Z2Nat.inj_add, <- drop_drop, Hd by lia. cbn [entries].
  rewrite <- (length_chunk (p_v p) c). unfold zlen. rewrite Nat2Z.id. apply drop_app_length.
Qed.

(** Going through the entries of a chunk. *)
Fixpoint follows (l : logContext) (tr : list (Z * logContext)) : Prop :=
  match tr with
  | [] => True
  | (t, l') :: tr => next s l = Ok (t, l') /\ follows l' tr
  end.

Lemma leads_follows es rest tr l :
  0 <= nextEntryIndex l -> drop (Z.to_nat (nextEntryIndex l)) (contents s) = es ++ rest -> leads l es tr -> follows l tr.
Proof using SL Hgood.
  revert tr l. induction es as [|e es IH]; intros [|[t l'] tr] l Hi Hd Hl; try done.
  destruct Hl as (Ha & <- & Hn & Hl). cbn [follows]. split; [by rewrite (entry_next l e (es ++ rest)), Ha by done |].
  apply IH; [lia | | done]. rewrite Hn, Z2Nat.inj_add, <- drop_drop, Hd by lia. done.
Qed.

Lemma chunk_follows p c cs : at_ p (c :: cs) -> follows (rctx p) (chunk_trace p c).
Proof using SL Hgood.
  intros (Hi & Hd & Hok & _). eapply leads_follows; [exact Hi | exact Hd | by apply chunk_leads].
Qed.

Lemma at_end p : at_ p [] -> next s (rctx p) = Err ErrFuture.
Proof using SL Hgood. intros (Hi & Hd & _). by apply next_end. Qed.

Lemma at_length p cs : at_ p cs -> rounds_left s (rctx p) = S (Z.to_nat (chunks_len cs)).
Proof using SL Hgood.
  intros (Hi & Hd & _). unfold rounds_left. rewrite (size_law s) by done. cbn [rctx nextEntryIndex]. f_equal.
  rewrite <- (length_entries (p_v p) cs), <- Hd. unfold zlen. rewrite length_drop. lia.
Qed.

(** *** The operations of an iterator, chunk by chunk *)

(** After the first chunk of a kind. *)
Fixpoint p_find (kind : chunk -> bool) (p : pos) (cs : list chunk) : option (pos * list chunk) :=
  match cs with
  | [] => None
  | c :: cs => if kind c then Some (adv p c, cs) else p_find kind (adv p c) cs
  end.

Lemma p_find_at kind p cs p' cs' : at_ p cs -> p_find kind p cs = Some (p', cs') -> at_ p' cs'.
Proof.
  revert p. induction cs as [|c cs IH]; intros p Ha Hf; [done |]. cbn in Hf. apply at_adv in Ha.
  destruct (kind c); [by simplify_eq | by eapply IH].
Qed.

Lemma complete_rctx p : hasCompleteBlock (rctx p) = negb (v_half (p_v p)).
Proof. unfold hasCompleteBlock, rctx. cbn. by destruct (v_half (p_v p)). Qed.
Lemma incomplete_rctx p : hasIncompleteLog (rctx p) = false.
Proof. unfold hasIncompleteLog, rctx. cbn. by destruct (v_half (p_v p)). Qed.

(** A chunk that is allowed behind half a seal. *)
Lemma half_repeat i v c : chunk_ok i v c -> v_half v = true -> c = CRepeat.
Proof. intros Hok Hh. destruct c; cbn in Hok; destruct Hok as (? & _); congruence. Qed.

(** One entry of a chunk in a loop over [next]. *)
Ltac walk_entry fuel Hf unfolded :=
  lazymatch type of Hf with _ /\ _ => idtac end;
  destruct fuel as [|fuel]; [lia |];
  let Hn := fresh "Hn" in destruct Hf as [Hn Hf]; unfolded; rewrite Hn; cbn [mbind outcome_bind];
  rewrite ?complete_rctx, ?incomplete_rctx, ?adv_v;
  try change (hasCompleteBlock (mid_link _ _)) with true; try change (hasCompleteBlock (mid_check _ _ _)) with true;
  try change (hasIncompleteLog (mid_link _ _)) with true; try change (hasIncompleteLog (mid_check _ _ _)) with true;
  cbn [p_v chunk_next whole v_half negb orb];
  try match goal with H : v_half _ = false |- _ => rewrite H end; cbn [negb orb].

(** All entries of a chunk, then the rest by induction. *)
Ltac walk_chunk fuel Hf unfolded := repeat walk_entry fuel Hf unfolded.

Lemma NextBlock_spec cs fuel seen p :
  at_ p cs -> (Z.to_nat (chunks_len cs) < fuel)%nat -> (seen = true -> v_half (p_v p) = true) ->
  NextBlock_ fuel s seen (rctx p) = match p_find is_check p cs with Some (p', _) => Ok (rctx p') | None => Err ErrFuture end.
Proof using SL Hgood.
  revert fuel seen p. induction cs as [|c cs IH]; intros fuel seen p Ha Hfuel Hseen.
  - destruct fuel; [lia |]. cbn [NextBlock_ p_find]. by rewrite (at_end p Ha).
  - pose proof (chunk_follows _ _ _ Ha) as Hf. pose proof Ha as (_ & _ & Hok & _). apply at_adv in Ha.
    rewrite chunks_len_cons in Hfuel. pose proof (chunks_len_nonneg cs).
    assert (v_half (p_v p) = false \/ c = CRepeat) as [Hh | ->].
    { destruct (v_half (p_v p)) eqn:E; [right; by eapply half_repeat | by left]. }
    + assert (seen = false) as -> by (destruct seen; [by rewrite Hseen in Hh | done]). clear Hok.
      destruct c as [h n t | h n t | | | lh [m |]]; cbn [p_find is_check]; cbn [chunk_trace follows] in Hf; cbn [chunk_len] in Hfuel;
        walk_chunk fuel Hf ltac:(cbn [NextBlock_]); rewrite ?orb_true_r; try done; apply IH; try done; lia.
    + cbn [chunk_trace follows chunk_len] in Hf, Hfuel. cbn [p_find is_check]. walk_chunk fuel Hf ltac:(cbn [NextBlock_]). by rewrite orb_true_r.
Qed.

Lemma NextInitMsg_spec cs fuel p :
  at_ p cs -> (Z.to_nat (chunks_len cs) < fuel)%nat ->
  NextInitMsg_ fuel s false (rctx p) = match p_find is_log p cs with Some (p', _) => Ok (rctx p') | None => Err ErrFuture end.
Proof using SL Hgood.
  revert fuel p. induction cs as [|c cs IH]; intros fuel p Ha Hfuel.
  - destruct fuel; [lia |]. cbn [NextInitMsg_ p_find]. by rewrite (at_end p Ha).
  - pose proof (chunk_follows _ _ _ Ha) as Hf. pose proof Ha as (_ & _ & Hok & _). apply at_adv in Ha.
    rewrite chunks_len_cons in Hfuel. pose proof (chunks_len_nonneg cs).
    destruct c as [h n t | h n t | | | lh [m |]]; cbn [p_find is_log]; cbn [chunk_trace follows] in Hf; cbn [chunk_len] in Hfuel;
      destruct Hok as (Hh & _); walk_chunk fuel Hf ltac:(cbn [NextInitMsg_]); try done; apply IH; try done; lia.
Qed.

Definition p_end (p : pos) (cs : list chunk) : pos := fold_left adv cs p.

Lemma End_spec cs fuel p :
  at_ p cs -> (Z.to_nat (chunks_len cs) < fuel)%nat -> End_ fuel s (rctx p) = Ok (rctx (p_end p cs)).
Proof using SL Hgood.
  revert fuel p. induction cs as [|c cs IH]; intros fuel p Ha Hfuel.
  - destruct fuel; [lia |]. cbn [End_]. by rewrite (at_end p Ha).
  - pose proof (chunk_follows _ _ _ Ha) as Hf. apply at_adv in Ha.
    rewrite chunks_len_cons in Hfuel. pose proof (chunks_len_nonneg cs). cbn [p_end fold_left].
    destruct c as [h n t | h n t | | | lh [m |]]; cbn [chunk_trace follows] in Hf; cbn [chunk_len] in Hfuel;
      walk_chunk fuel Hf ltac:(cbn [End_]); apply IH; try done; lia.
Qed.

(** A function that is called after every chunk but half a seal. *)
Fixpoint p_trav {A} (fn : logContext -> A -> A * option string) (p : pos) (cs : list chunk) (a : A) : A * option pos * string :=
  match cs with
  | [] => (a, None, ErrFuture)
  | c :: cs =>
      let p := adv p c in
      if v_half (p_v p) then p_trav fn p cs a
      else
        match fn (rctx p) a with
        | (a, None) => p_trav fn p cs a
        | (a, Some e) => (a, if is_err e ErrStop then Some p else None, e)
        end
  end.

Lemma need_rctx p : need (rctx p) = if v_half (p_v p) then FlagCanonicalHash else 0.
Proof. done. Qed.

Lemma Traverse_spec {A} (fn : logContext -> A -> A * option string) cs fuel p a :
  at_ p cs -> (Z.to_nat (chunks_len cs) < fuel)%nat ->
  let '(a', stop, e) := p_trav fn p cs a in
  exists l, Traverse_ fuel s fn (rctx p) a = Ok (a', l, e) /\ match stop with Some p' => l = rctx p' | None => True end.
Proof using SL Hgood.
  revert fuel p a. induction cs as [|c cs IH]; intros fuel p a Ha Hfuel.
  - destruct fuel; [lia |]. cbn [Traverse_ p_trav]. rewrite (at_end p Ha). eauto.
  - pose proof (chunk_follows _ _ _ Ha) as Hf. pose proof Ha as (_ & _ & Hok & _). apply at_adv in Ha.
    rewrite chunks_len_cons in Hfuel. pose proof (chunks_len_nonneg cs). cbn [p_trav].
    assert (forall fuel, (Z.to_nat (chunks_len cs) < fuel)%nat -> let '(a', stop, e) := p_trav fn (adv p c) cs a in
              exists l, Traverse_ fuel s fn (rctx (adv p c)) a = Ok (a', l, e) /\ match stop with Some p' => l = rctx p' | None => True end) as Hskip
      by (intros; by apply IH).
    assert (forall fuel l0, (Z.to_nat (chunks_len cs) < fuel)%nat ->
              let '(a', stop, e) := match fn (rctx (adv p c)) a with
                | (a, None) => p_trav fn (adv p c) cs a
                | (a, Some e) => (a, if is_err e ErrStop then Some (adv p c) else None, e)
                end in
              exists l, (match fn (rctx (adv p c)) a with
                | (a, None) => Traverse_ fuel s fn (rctx (adv p c)) a
                | (a, Some e) => if is_err e ErrStop then Ok (a, rctx (adv p c), e) else Ok (a, l0, e)
                end) = Ok (a', l, e) /\ match stop with Some p' => l = rctx p' | None => True end) as Hcall.
    { intros f l0 Hf0. destruct (fn (rctx (adv p c)) a) as [a' [e |]]; [| by apply IH]. destruct (is_err e ErrStop); eauto. }
    revert Hskip Hcall. rewrite adv_v. intros Hskip Hcall.
    destruct c as [h n t | h n t | | | lh [m |]]; cbn [chunk_trace follows] in Hf; cbn [chunk_len] in Hfuel; cbn [chunk_next whole v_half];
      destruct Hok as (Hh & _); rewrite ?Hh;
      repeat (lazymatch type of Hf with _ /\ _ => idtac end; destruct fuel as [|fuel]; [lia |]; let Hn := fresh in destruct Hf as [Hn Hf]; cbn [Traverse_]; rewrite Hn, ?need_rctx, ?adv_v;
              try change (need (mid_link _ _) =? 0) with false; try change (need (mid_check _ _ _) =? 0) with false;
              cbn [p_v chunk_next whole v_half]; rewrite ?Hh; cbn [negb Z.eqb FlagCanonicalHash]);
      first [apply Hskip; lia | apply Hcall; lia].
Qed.

(** *** Starting at a checkpoint *)

Definition start_at (i : Z) : logContext := add_need FlagCanonicalHash (newIterator i).
Definition start_pos (i : Z) (v : vstate) : pos := mkPos i (halved v) zero_hash None.

Lemma start_next i v cs : at_ (start_pos i v) (CRepeat :: cs) -> next s (start_at i) = next s (rctx (start_pos i v)).
Proof using SL Hgood.
  intros (Hi & Hd & (Hv & _) & _). cbn [p_i p_v start_pos] in *. cbn [entries chunk_entries app] in Hd.
  rewrite (entry_next (start_at i) _ _ Hi Hd), (entry_next (rctx (start_pos i v)) _ _ Hi Hd).
  destruct Hv as (_ & Hn & Ht & Hl). cbn in Hn, Ht, Hl.
  change (start_at i) with (rctx (mkPos i (mkV zero_hash 0 0 0 true) zero_hash None)).
  rewrite !(apply_checkpoint _ _ _ _ (v_hash v)) by done. done.
Qed.

Lemma NextBlock_start i v cs :
  at_ (start_pos i v) (CRepeat :: cs) -> NextBlock s (start_at i) = Ok (rctx (adv (start_pos i v) CRepeat)).
Proof using SL Hgood.
  intros Ha. unfold NextBlock. change (rounds_left s (start_at i)) with (rounds_left s (rctx (start_pos i v))).
  etrans; [| exact (NextBlock_spec (CRepeat :: cs) (rounds_left s (rctx (start_pos i v))) false (start_pos i v) Ha ltac:(rewrite (at_length _ _ Ha); lia) ltac:(done))].
  rewrite (at_length _ _ Ha). cbn [NextBlock_]. by rewrite (start_next i v cs Ha).
Qed.

Lemma End_start i v cs :
  at_ (start_pos i v) (CRepeat :: cs) -> iter_End s (start_at i) = Ok (rctx (p_end (start_pos i v) (CRepeat :: cs))).
Proof using SL Hgood.
  intros Ha. unfold iter_End. change (rounds_left s (start_at i)) with (rounds_left s (rctx (start_pos i v))).
  etrans; [| exact (End_spec (CRepeat :: cs) (rounds_left s (rctx (start_pos i v))) (start_pos i v) Ha ltac:(rewrite (at_length _ _ Ha); lia))].
  rewrite (at_length _ _ Ha). cbn [End_]. rewrite (start_next i v cs Ha).
  by destruct (chunk_follows _ _ _ Ha) as [-> _].
Qed.

End Iterators.
End Store.

(** ** Histories *)

Abbreviation log_record := (hash * option ExecutingMessage)%type (only parsing).

Record lblock : Type := mkLBlock {
  lb_seal : BlockSeal;
  lb_logs : list log_record;
}.

Record history : Type := mkHistory {
  h_blocks : list lblock;
  h_open : list log_record;
}.

Definition lb_num (b : lblock) : Z := s_Number (lb_seal b).

Definition no_history : history := mkHistory [] [].
Definition hist_sealed (s : BlockSeal) (H : history) : history := mkHistory (h_blocks H ++ [mkLBlock s (h_open H)]) [].
Definition hist_logged (l : log_record) (H : history) : history := mkHistory (h_blocks H) (h_open H ++ [l]).

Definition find_block (H : history) (n : Z) : option lblock := List.find (fun b => lb_num b =? n) (h_blocks H).

(** Block numbers are consecutive. *)
Definition numbered (k : Z) (bs : list lblock) : Prop := forall i b, bs !! i = Some b -> lb_num b = k + Z.of_nat i.

Lemma numbered_snoc k bs b : numbered k bs -> lb_num b = k + zlen bs -> numbered k (bs ++ [b]).
Proof.
  intros Hn Hb i b' [Hi | [Hi Hb']]%lookup_app_Some; [by apply Hn |].
  destruct (i - length bs)%nat eqn:E; [| done]. injection Hb' as <-. unfold zlen in Hb. lia.
Qed.

Lemma numbered_last k bs b : numbered k (bs ++ [b]) -> lb_num b = k + zlen bs.
Proof. intros Hn. apply (Hn (length bs)). by rewrite lookup_app_r, Nat.sub_diag. Qed.

Lemma numbered_le k bs bs' b : numbered k (bs ++ bs') -> b ∈ bs -> k <= lb_num b < k + zlen bs.
Proof.
  intros Hn (i & Hi)%list_elem_of_lookup. pose proof (lookup_lt_Some _ _ _ Hi). rewrite (Hn i b) by (by apply lookup_app_l_Some). unfold zlen. lia.
Qed.

Lemma find_numbered k bs1 b bs2 o : numbered k (bs1 ++ b :: bs2) -> find_block (mkHistory (bs1 ++ b :: bs2) o) (lb_num b) = Some b.
Proof.
  intros Hn. unfold find_block. cbn [h_blocks].
  assert (lb_num b = k + zlen bs1) as Hb by (apply Hn; by rewrite lookup_app_r, Nat.sub_diag).
  assert (forall b', b' ∈ bs1 -> (lb_num b' =? lb_num b) = false) as Hlt.
  { intros b' Hin. pose proof (numbered_le k bs1 (b :: bs2) b' Hn Hin). lia. }
  clear Hn Hb. induction bs1 as [|b1 bs1 IH]; cbn [app List.find]; [by rewrite Z.eqb_refl |].
  rewrite Hlt by (by left). apply IH. intros b' Hb'. apply Hlt. by right.
Qed.

Lemma find_none H n : (forall b, b ∈ h_blocks H -> lb_num b <> n) -> find_block H n = None.
Proof.
  intros Hall. unfold find_block. destruct (List.find _ _) as [b |] eqn:E; [| done].
  apply List.find_some in E as [Hin Heq]. apply list_elem_of_In in Hin. apply Hall in Hin. lia.
Qed.

(** The seal of a number: behind the first block, or not yet there. *)
Definition hist_find (H : history) (n : Z) : outcome BlockSeal :=
  match find_block H n with
  | Some b => Ok (lb_seal b)
  | None => match h_blocks H with
            | b :: _ => if n <? lb_num b then Err ErrSkipped else Err ErrFuture
            | [] => Err ErrFuture
            end
  end.

Definition hist_first (H : history) : outcome BlockSeal :=
  match h_blocks H with b :: _ => Ok (lb_seal b) | [] => Err ErrFuture end.

(** The executing messages of logs, by index. *)
Definition add_msg (im : Z * gmap Z ExecutingMessage) (l : log_record) : Z * gmap Z ExecutingMessage :=
  (im.1 + 1, match l.2 with Some m => <[im.1 := m]> im.2 | None => im.2 end).
Definition msgs_of (logs : list log_record) : gmap Z ExecutingMessage := (fold_left add_msg logs (0, ∅)).2.

Lemma add_msgs_index logs i m : (fold_left add_msg logs (i, m)).1 = i + zlen logs.
Proof.
  revert i m. induction logs as [|l logs IH]; intros i m; cbn [fold_left]; [unfold zlen; cbn; lia |].
  unfold add_msg at 2. rewrite IH. unfold zlen. cbn. lia.
Qed.

Lemma msgs_of_snoc logs l :
  msgs_of (logs ++ [l]) = match l.2 with Some m => <[zlen logs := m]> (msgs_of logs) | None => msgs_of logs end.
Proof.
  unfold msgs_of. rewrite fold_left_app. cbn [fold_left]. unfold add_msg at 1. cbn [snd]. by rewrite (add_msgs_index logs 0 ∅), Z.add_0_l.
Qed.

Lemma msgs_of_lookup logs i : msgs_of logs !! Z.of_nat i = l ← logs !! i; l.2.
Proof.
  induction logs as [|l logs IH] using rev_ind; [done |]. rewrite msgs_of_snoc. destruct (decide (i = length logs)) as [-> | Hi].
  - rewrite lookup_app_r, Nat.sub_diag by lia. cbn. destruct (l.2) as [m |]; [by rewrite lookup_insert_eq |].
    rewrite IH, lookup_ge_None_2 by lia. done.
  - assert ((logs ++ [l]) !! i = logs !! i) as ->.
    { destruct (decide (i < length logs)%nat); [by rewrite lookup_app_l |].
      rewrite !lookup_ge_None_2; [done | lia |]. rewrite length_app. cbn. lia. }
    destruct (l.2); [rewrite lookup_insert_ne by (unfold zlen; lia) |]; apply IH.
Qed.

(** A block with its parent, the number of its logs and its executing messages;
    the first block stands for block 0. *)
Definition hist_block (H : history) (n : Z) : outcome (BlockRef * Z * gmap Z ExecutingMessage) :=
  if n =? 0 then
    sl ← hist_first H; Ok (mkL1BlockRef (s_Hash sl) (s_Number sl) zero_hash (s_Timestamp sl), 0, ∅)
  else
    parent ← hist_find H (n - 1);
    match find_block H n with
    | Some b => Ok (mkL1BlockRef (s_Hash (lb_seal b)) n (s_Hash parent) (s_Timestamp (lb_seal b)), zlen (lb_logs b), msgs_of (lb_logs b))
    | None => Err ErrFuture
    end.

(** The logs that were added on top of a block. *)
Definition logs_on (H : history) (num : Z) : list log_record :=
  match find_block H (num + 1) with Some b => lb_logs b | None => h_open H end.

(** Whether a log is in the history: a checksum of its block, time, index, chain and hash. *)
Definition hist_contains {K : Keccak} (chain : ChainID) (latest : BlockSeal) (H : history) (q : ContainsQuery) : outcome BlockSeal :=
  let num := q_BlockNum q in
  if s_Number latest <? num then
    if q_Timestamp q <? s_Timestamp latest then Err ErrConflict else Err ErrFuture
  else if num =? 0 then Err ErrConflict
  else
    match hist_find H (num - 1) with
    | Err e => Err (if is_err e ErrFuture then ErrConflict else e)
    | Panic e => Panic e
    | Ok _ =>
        match logs_on H (num - 1) !! Z.to_nat (q_LogIdx q), find_block H num with
        | None, _ => Err ErrConflict
        | Some _, None => Err ErrFuture
        | Some (lh, _), Some b =>
            let t := s_Timestamp (lb_seal b) in
            if (t =? q_Timestamp q) && bool_decide (Checksum (mkChecksumArgs num (q_LogIdx q) t chain lh) = q_Checksum q)
            then Ok (lb_seal b) else Err ErrConflict
        end
    end.

(** ** Chunks *)

Definition v0 : vstate := mkV zero_hash 0 0 0 false.

Definition hist_step (H : history) (c : chunk) : history :=
  match c with
  | CSeal h n t | CSplit h n t => hist_sealed (mkBlockSeal h n t) H
  | CLog lh em => hist_logged (lh, em) H
  | CRepeat | CPad => H
  end.

Definition hist (cs : list chunk) : history := fold_left hist_step cs no_history.

Lemma hist_app cs1 cs2 : hist (cs1 ++ cs2) = fold_left hist_step cs2 (hist cs1).
Proof. apply fold_left_app. Qed.

Definition seal_of (v : vstate) : BlockSeal := mkBlockSeal (v_hash v) (v_num v) (v_time v).

(** A history and the state behind its entries. *)
Record tracks (H : history) (v : vstate) : Prop := mkTracks {
  tr_last : exists bs b, h_blocks H = bs ++ [b] /\ lb_seal b = seal_of v;
  tr_open : v_logs v = zlen (h_open H);
  tr_nums : exists k, 0 <= k /\ numbered k (h_blocks H);
  tr_hash : Forall (fun b => s_Hash (lb_seal b) <> zero_hash) (h_blocks H);
}.

Lemma chunks_len_zero cs : chunks_len cs = 0 -> cs = [].
Proof. destruct cs as [|c cs]; [done |]. rewrite chunks_len_cons. pose proof (chunk_len_pos c). pose proof (chunks_len_nonneg cs). lia. Qed.

Lemma first_seal v c : v_half v = false -> chunk_ok 0 v c -> exists h n t, c = CSeal h n t.
Proof.
  intros Hv Hok. destruct c as [h n t | h n t | | | lh em]; [by eauto | exfalso..].
  - destruct Hok as (_ & Hm & _). done.
  - destruct Hok as (_ & _ & [Hm | Hm]); [congruence | lia].
  - destruct Hok as (_ & Hm). done.
  - destruct Hok as (_ & Hm & _). done.
Qed.

Lemma tracks_step i H v c : 0 < i -> tracks H v -> chunk_ok i v c -> tracks (hist_step H c) (chunk_next v c).
Proof.
  intros Hi [(bs & b & Hbs & Hb) Ho (k & Hk & Hn) Hz] Hok.
  assert (forall h n t, block_ok h n t -> n = v_num v + 1 -> forall x,
            tracks (hist_sealed (mkBlockSeal h n t) H) (mkV h n t 0 x)) as Hseal.
  { intros h n t (_ & Hh & _) -> x. split; cbn.
    - by exists (h_blocks H), (mkLBlock (mkBlockSeal h (v_num v + 1) t) (h_open H)).
    - done.
    - exists k. split; [done |]. apply numbered_snoc; [done |]. rewrite Hbs in Hn |- *. apply numbered_last in Hn.
      unfold lb_num in *. rewrite Hb in Hn. cbn in *. unfold zlen in *. rewrite length_app. cbn. lia.
    - apply Forall_app. split; [done |]. by constructor. }
  destruct c as [h n t | h n t | | | lh em]; cbn in Hok |- *.
  - apply Hseal; [tauto | lia].
  - apply Hseal; tauto.
  - split; [by exists bs, b | done | by exists k | done].
  - split; [by exists bs, b | done | by exists k | done].
  - split; [by exists bs, b | | by exists k | done]. cbn. unfold zlen in *. rewrite length_app. cbn. lia.
Qed.

Lemma hist_tracks cs : chunks_ok 0 v0 cs -> cs <> [] -> tracks (hist cs) (after v0 cs).
Proof.
  induction cs as [|c cs IH] using rev_ind; [done |]. intros (Hcs & Hc & _)%chunks_ok_app _. rewrite hist_app, after_app. cbn [fold_left after].
  change (tracks (hist_step (hist cs) c) (chunk_next (after v0 cs) c)). destruct (decide (cs = [])) as [-> | Hne].
  - destruct (first_seal v0 c eq_refl Hc) as (h & n & t & ->). destruct Hc as (_ & _ & (_ & Hh & Hn & _) & _). split; cbn.
    + by exists [], (mkLBlock (mkBlockSeal h n t) []).
    + done.
    + exists n. split; [lia |]. intros [|i] b Hb; [injection Hb as <-; unfold lb_num; cbn; lia | done].
    + by repeat constructor.
  - eapply tracks_step; [| by apply IH | exact Hc]. pose proof (chunks_len_nonneg cs).
    assert (chunks_len cs <> 0) by (intros ?%chunks_len_zero; done). lia.
Qed.

(** ** What is behind a place *)

(** The logs of the block that is open there, and the seal that closes it. *)
Fixpoint ext (rest : list chunk) : list log_record :=
  match rest with
  | CLog lh em :: rest => (lh, em) :: ext rest
  | (CRepeat | CPad) :: rest => ext rest
  | _ => []
  end.

Fixpoint closing (rest : list chunk) : option BlockSeal :=
  match rest with
  | (CSeal h n t | CSplit h n t) :: _ => Some (mkBlockSeal h n t)
  | _ :: rest => closing rest
  | [] => None
  end.

Lemma blocks_grow rest H : exists more, h_blocks (fold_left hist_step rest H) = h_blocks H ++ more.
Proof.
  revert H. induction rest as [|c rest IH]; intros H; [exists []; by rewrite app_nil_r |]. cbn [fold_left].
  destruct (IH (hist_step H c)) as [more ->]. destruct c; cbn [hist_step hist_sealed hist_logged h_blocks]; eauto.
  all: rewrite <- app_assoc; eauto.
Qed.

Lemma closing_blocks rest H :
  match closing rest with
  | Some sl => exists more, h_blocks (fold_left hist_step rest H) = h_blocks H ++ mkLBlock sl (h_open H ++ ext rest) :: more
  | None => fold_left hist_step rest H = mkHistory (h_blocks H) (h_open H ++ ext rest)
  end.
Proof.
  revert H. induction rest as [|c rest IH]; intros H; cbn [closing ext fold_left]; [destruct H; by rewrite app_nil_r |].
  destruct c as [h n t | h n t | | | lh em]; cbn [hist_step]; [| | by apply IH | by apply IH |].
  1-2: destruct (blocks_grow rest (hist_sealed (mkBlockSeal h n t) H)) as [more ->]; exists more; cbn; by rewrite app_nil_r, <- app_assoc.
  specialize (IH (hist_logged (lh, em) H)). cbn [hist_logged h_blocks h_open] in IH. by rewrite <- app_assoc in IH.
Qed.

Lemma tracks_num H v :
  tracks H v -> exists k, 0 <= k /\ numbered k (h_blocks H) /\ v_num v = k + zlen (h_blocks H) - 1 /\ 0 < zlen (h_blocks H).
Proof.
  intros [(bs & b & Hbs & Hb) _ (k & Hk & Hn) _]. exists k. rewrite Hbs in Hn |- *. pose proof (numbered_last _ _ _ Hn) as Hl.
  unfold lb_num in Hl. rewrite Hb in Hl. cbn in Hl. unfold zlen in *. rewrite length_app. cbn [length]. split_and!; [done.. | lia | lia].
Qed.

Lemma numbered_same k k' bs more : numbered k bs -> numbered k' (bs ++ more) -> 0 < zlen bs -> k = k'.
Proof.
  destruct bs as [|b bs]; [done |]. intros Hn Hn' _. specialize (Hn 0%nat b eq_refl). specialize (Hn' 0%nat b eq_refl). lia.
Qed.

Lemma find_next H v rest v' :
  tracks H v -> tracks (fold_left hist_step rest H) v' ->
  find_block (fold_left hist_step rest H) (v_num v + 1) = (fun sl => mkLBlock sl (h_open H ++ ext rest)) <$> closing rest.
Proof.
  intros (k & Hk & Hn & Hv & Hp)%tracks_num (k' & Hk' & Hn' & Hv' & _)%tracks_num. pose proof (closing_blocks rest H) as Hc.
  destruct (closing rest) as [sl |].
  - destruct Hc as [more Hm]. rewrite Hm in Hn'. pose proof (numbered_same _ _ _ _ Hn Hn' Hp) as <-.
    pose proof (Hn' (length (h_blocks H)) (mkLBlock sl (h_open H ++ ext rest)) ltac:(by rewrite lookup_app_r, Nat.sub_diag)) as Hb.
    assert (v_num v + 1 = lb_num (mkLBlock sl (h_open H ++ ext rest))) as -> by (unfold zlen in *; lia).
    destruct (fold_left hist_step rest H) as [bs o]. cbn [h_blocks] in *. subst bs. by apply (find_numbered k).
  - rewrite Hc. apply find_none. cbn [h_blocks]. intros b Hb. pose proof (numbered_le k (h_blocks H) [] b ltac:(by rewrite app_nil_r) Hb). lia.
Qed.

(** A block that is sealed is found in every longer history. *)
Lemma find_sealed H v rest v' :
  tracks H v -> tracks (fold_left hist_step rest H) v' ->
  exists b, find_block (fold_left hist_step rest H) (v_num v) = Some b /\ lb_seal b = seal_of v.
Proof.
  intros [(bs & b & Hbs & Hb) _ _ _] (k' & _ & Hn' & _)%tracks_num. exists b. split; [| done].
  destruct (blocks_grow rest H) as [more Hm]. rewrite Hbs, <- app_assoc in Hm. cbn [app] in Hm.
  assert (v_num v = lb_num b) as -> by (unfold lb_num; by rewrite Hb).
  destruct (fold_left hist_step rest H) as [bs' o]. cbn [h_blocks] in *. subst bs'. by apply (find_numbered k').
Qed.

Lemma find_later H v n : tracks H v -> v_num v < n -> find_block H n = None.
Proof.
  intros (k & _ & Hn & Hv & _)%tracks_num Hlt. apply find_none. intros b Hb.
  pose proof (numbered_le k (h_blocks H) [] b ltac:(by rewrite app_nil_r) Hb). lia.
Qed.

(** ** Chunks between two places *)

Definition none_is (kind : chunk -> bool) (a : list chunk) : Prop := Forall (fun c => kind c = false) a.

Lemma p_find_some kind p rest p' rest' :
  p_find kind p rest = Some (p', rest') ->
  exists a c, rest = a ++ c :: rest' /\ none_is kind a /\ kind c = true /\ p' = adv (p_end p a) c.
Proof.
  revert p. induction rest as [|c rest IH]; intros p Hf; [done |]. cbn in Hf. destruct (kind c) eqn:Hk.
  - injection Hf as <- <-. exists [], c. split_and!; [done | constructor | done | done].
  - apply IH in Hf as (a & c' & -> & Ha & Hc & ->). exists (c :: a), c'. split_and!; [done | by constructor | done | done].
Qed.

Lemma p_find_none kind p rest : p_find kind p rest = None -> none_is kind rest.
Proof.
  revert p. induction rest as [|c rest IH]; intros p Hf; [constructor |]. cbn in Hf. destruct (kind c) eqn:Hk; [done |].
  constructor; [done | by eapply IH].
Qed.

(** Without a checkpoint behind it no block is sealed, but for half a seal at the end. *)
Lemma no_check i v a :
  chunks_ok i v a -> v_half v = false -> none_is is_check a ->
  (v_half (after v a) = false /\ v_num (after v a) = v_num v) \/
  (v_half (after v a) = true /\ v_num (after v a) = v_num v + 1 /\ v_logs (after v a) = 0).
Proof.
  revert i v. induction a as [|c a IH]; intros i v Hok Hh Hn; [by left |]. destruct Hok as [Hc Hok]. inversion Hn as [|x l Hk Hn']; subst.
  destruct c as [h n t | h n t | | | lh em]; try done.
  - destruct a as [|c a]; [right; cbn; cbn in Hc; split_and!; [done | lia | done] |]. exfalso. destruct Hok as [Hc' _].
    apply half_repeat in Hc'; [| done]. subst. inversion Hn'; subst. done.
  - exact (IH _ v Hok Hh Hn').
  - exact (IH _ (chunk_next v (CLog lh em)) Hok Hh Hn').
Qed.

Lemma next_check i v a c :
  chunks_ok i v (a ++ [c]) -> 0 < i -> v_half v = false -> none_is is_check a -> is_check c = true ->
  let v' := after v (a ++ [c]) in
  v_half v' = false /\ (v_num v' = v_num v \/ (v_num v' = v_num v + 1 /\ v_logs v' = 0)).
Proof.
  intros (Ha & Hc & _)%chunks_ok_app Hi Hh Hn Hk. cbv zeta. rewrite after_app. pose proof (chunks_len_nonneg a).
  destruct (no_check i v a Ha Hh Hn) as [[Hw Hv] | (Hw & Hv & Hl)].
  - destruct c as [h n t | | | |]; try done; [| by split; [| left]]. destruct Hc as (_ & _ & _ & Hc). split; [done | right].
    split; [| done]. change (v_num (after _ [_])) with n. lia.
  - apply half_repeat in Hc as ->; [| done]. cbn. split; [done | by right].
Qed.

Lemma p_end_v p a : p_v (p_end p a) = after (p_v p) a.
Proof. revert p. induction a as [|c a IH]; intros p; [done |]. cbn [p_end fold_left]. unfold p_end in IH. by rewrite IH, adv_v. Qed.
Lemma p_end_i p a : p_i (p_end p a) = p_i p + chunks_len a.
Proof.
  revert p. induction a as [|c a IH]; intros p; [change (chunks_len []) with 0; cbn; lia |].
  cbn [p_end fold_left]. unfold p_end in IH. rewrite IH, adv_i, chunks_len_cons. lia.
Qed.

(** Chunks that are neither a log nor a seal. *)
Definition quiet (a : list chunk) : Prop := Forall (fun c => c = CRepeat \/ c = CPad) a.

Lemma quiet_after v a : quiet a -> v_num (after v a) = v_num v /\ v_logs (after v a) = v_logs v.
Proof. intros Ha. revert v. induction Ha as [|c a [-> | ->] _ IH]; intros v; [done | exact (IH (whole v)) | exact (IH v)]. Qed.

Lemma quiet_hist H a : quiet a -> fold_left hist_step a H = H.
Proof. induction 1 as [|c a [-> | ->] _ IH]; done. Qed.

(** The next log: of the open block if it has one, of a later block otherwise. *)
Lemma find_log p rest :
  chunks_ok (p_i p) (p_v p) rest -> 0 < p_i p ->
  match ext rest with
  | (lh, em) :: e =>
      exists a rest', rest = a ++ CLog lh em :: rest' /\ p_find is_log p rest = Some (adv (p_end p a) (CLog lh em), rest') /\
                      ext rest' = e /\ quiet a
  | [] => match p_find is_log p rest with Some (p', _) => v_num (p_v p) < v_num (p_v p') | None => True end
  end.
Proof.
  revert p. induction rest as [|c rest IH]; intros p Hok Hi; [done |]. destruct Hok as [Hc Hok]. pose proof (chunk_len_pos c).
  assert (p_i (adv p c) = p_i p + chunk_len c) as Hpi by apply adv_i. assert (p_v (adv p c) = chunk_next (p_v p) c) as Hpv by apply adv_v.
  rewrite <- Hpi, <- Hpv in Hok. specialize (IH (adv p c) Hok ltac:(lia)).
  assert (forall h n t x, p_v (adv p c) = mkV h n t 0 x -> n = v_num (p_v p) + 1 ->
            match p_find is_log (adv p c) rest with Some (p', _) => v_num (p_v p) < v_num (p_v p') | None => True end) as Hseal.
  { intros h n t x E ->. destruct (p_find is_log (adv p c) rest) as [[p' rest'] |] eqn:Ef; [| done].
    apply p_find_some in Ef as (a & c' & -> & _ & _ & ->). rewrite adv_v, p_end_v. apply chunks_ok_app in Hok as (Ha & Hc' & _).
    pose proof (chunks_vle (p_i (adv p c)) _ a ltac:(lia) Ha) as H1. pose proof (chunks_len_nonneg a).
    pose proof (chunk_vle (p_i (adv p c) + chunks_len a) _ c' ltac:(lia) Hc') as H2. destruct (vle_trans _ _ _ H1 H2) as [H3 | [H3 _]]; rewrite E in H3 |- *; cbn in H3; lia. }
  destruct c as [h n t | h n t | | | lh em]; cbn [ext p_find is_log].
  - apply (Hseal h n t false); [done |]. destruct Hc as (_ & _ & _ & Hc). lia.
  - apply (Hseal h n t true); [done |]. by destruct Hc as (_ & _ & _ & Hc & _).
  - destruct (ext rest) as [|[lh em] e]; [by rewrite Hpv in IH |]. destruct IH as (a & rest' & -> & Hf & He & Hq).
    exists (CRepeat :: a), rest'. split_and!; [done | exact Hf | done | constructor; [by left | done]].
  - destruct (ext rest) as [|[lh em] e]; [by rewrite Hpv in IH |]. destruct IH as (a & rest' & -> & Hf & He & Hq).
    exists (CPad :: a), rest'. split_and!; [done | exact Hf | done | constructor; [by right | done]].
  - exists [], rest. split_and!; [done | done | done | constructor].
Qed.
