(* ===== verification/LogQueries.v ===== *)
(** The queries of a database of logs: walking to a block and to a log from the
    search checkpoint that the bisection finds, and what each query answers about
    the history behind the entries. *)
From Stdlib Require Import ZArith Lia.
From stdpp Require Import base gmap list strings numbers.
From S2P Require Import Prelude Rollup Frames Interop EntryDB ChainsDB LogDB LogProps.
Import Logs.

Section Queries.
Context {St : Type} `{ES : !EntryStore (list Z) St} {contents : St -> list (list Z)} {good : St -> Prop}.
Context `{SL : !EntryStoreLaws (list Z) St (fun e => zlen e = EntrySize) contents good}.
Variable s : St.
Hypothesis Hgood : good s.
Variable cs : list chunk.
Hypothesis Hcont : contents s = entries v0 cs.
Hypothesis Hok : chunks_ok 0 v0 cs.
Hypothesis Hwhole : v_half (after v0 cs) = false.

Let at_s := at_ (contents := contents) s.

(** ** Places *)

Definition reached (p : pos) (dn rest : list chunk) : Prop :=
  cs = dn ++ rest /\ p_i p = chunks_len dn /\ p_v p = after v0 dn.

Lemma reached_ok p dn rest : reached p dn rest -> chunks_ok 0 v0 dn /\ chunks_ok (p_i p) (p_v p) rest.
Proof using Hok. intros (E & -> & ->). rewrite E in Hok. apply chunks_ok_app in Hok as [? ?]. done. Qed.

Lemma entries_drop dn rest : cs = dn ++ rest -> drop (Z.to_nat (chunks_len dn)) (contents s) = entries (after v0 dn) rest.
Proof using Hcont.
  intros E. rewrite Hcont, E, entries_app, <- (length_entries v0 dn). unfold zlen. rewrite Nat2Z.id. apply drop_app_length.
Qed.

Lemma reached_at p dn rest : reached p dn rest -> at_s p rest.
Proof using Hcont Hok.
  intros Hr. destruct (reached_ok p dn rest Hr) as [_ Hrest]. destruct Hr as (E & Hi & Hv). split_and!; [| | done].
  - rewrite Hi. apply chunks_len_nonneg.
  - rewrite Hi, Hv. by apply entries_drop.
Qed.

Lemma reached_adv p dn c rest : reached p dn (c :: rest) -> reached (adv p c) (dn ++ [c]) rest.
Proof.
  intros (E & Hi & Hv). split_and!; [by rewrite <- app_assoc | rewrite adv_i, Hi, chunks_len_app, chunks_len_cons; change (chunks_len []) with 0; lia |].
  by rewrite adv_v, Hv, after_app.
Qed.

Lemma reached_end p dn a rest : reached p dn (a ++ rest) -> reached (p_end p a) (dn ++ a) rest.
Proof.
  intros (E & Hi & Hv). split_and!; [by rewrite <- app_assoc | by rewrite p_end_i, Hi, chunks_len_app | by rewrite p_end_v, Hv, after_app].
Qed.

Lemma reached_tracks p dn rest : reached p dn rest -> dn <> [] -> tracks (hist dn) (p_v p).
Proof using Hok. intros Hr Hne. pose proof (reached_ok p dn rest Hr) as [Hd _]. destruct Hr as (_ & _ & ->). by apply hist_tracks. Qed.

Lemma reached_all p dn rest : reached p dn rest -> dn <> [] -> tracks (fold_left hist_step rest (hist dn)) (after v0 cs) /\ fold_left hist_step rest (hist dn) = hist cs.
Proof using Hok.
  intros (E & _) Hne. rewrite <- hist_app, <- E. split; [| done]. apply hist_tracks; [done |]. rewrite E. by destruct dn.
Qed.

Lemma reached_pos p dn rest : reached p dn rest -> dn <> [] -> 0 < p_i p.
Proof.
  intros (_ & Hi & _) Hne. pose proof (chunks_len_nonneg dn). assert (chunks_len dn <> 0) by (intros ?%chunks_len_zero; done). lia.
Qed.

(** ** Search checkpoints *)

(** The places behind the checkpoint of an index. *)
Record checkpoint_at (k : Z) (dn rest : list chunk) : Prop := mkCheckpointAt {
  ca_split : cs = dn ++ rest;
  ca_len : chunks_len dn = 256 * k + 2;
  ca_whole : v_half (after v0 dn) = false;
  ca_read : readSearchCheckpoint s (k * 256) =
            Ok (mkCheckpoint (v_num (after v0 dn)) (v_logs (after v0 dn)) (v_time (after v0 dn)));
  ca_at : at_s (start_pos (k * 256) (after v0 dn)) (CRepeat :: rest);
  ca_check : exists dn' c, dn = dn' ++ [c] /\ is_check c = true;
  ca_first : k = 0 -> exists h n t, dn = [CSeal h n t];
}.

Lemma v0_ok : v_ok v0.
Proof. split_and!; done. Qed.

Lemma checkpoint_exists k : 0 <= k -> k * 256 < chunks_len cs -> exists dn rest, checkpoint_at k dn rest.
Proof using SL Hgood Hcont Hok.
  intros Hk Hlt. destruct (boundary 0 v0 cs k) as (pre & c & post & E & Hl & Hc); [lia | done | lia |]. rewrite Z.add_0_l in Hl.
  assert (chunk_len c = 2) as Hc2 by (by destruct c).
  pose proof Hok as Hsplit. rewrite E in Hsplit. apply chunks_ok_app in Hsplit as (Hpre & Hck & Hpost). rewrite Z.add_0_l, Hl in Hck, Hpost.
  assert (after v0 (pre ++ [c]) = chunk_next (after v0 pre) c) as Hv by (by rewrite after_app).
  assert (v_half (after v0 (pre ++ [c])) = false) as Hh by (rewrite Hv; by destruct c).
  assert (v_ok (after v0 (pre ++ [c]))) as Hvok by (rewrite Hv; by eapply chunk_next_ok, after_ok, v0_ok).
  assert (drop (Z.to_nat (k * 256)) (contents s) = entries (halved (after v0 (pre ++ [c]))) (CRepeat :: post)) as Hd.
  { rewrite Hv, <- check_entries by done. rewrite Z.mul_comm, <- Hl. exact (entries_drop pre (c :: post) E). }
  exists (pre ++ [c]), post. split; [by rewrite <- app_assoc | rewrite chunks_len_app, chunks_len_cons, Hc2, Hl; change (chunks_len []) with 0; lia | done | | | |].
  - unfold readSearchCheckpoint. rewrite (read_law s) by (done || lia).
    assert (contents s !! Z.to_nat (k * 256) = entries (halved (after v0 (pre ++ [c]))) (CRepeat :: post) !! 0%nat) as ->.
    { rewrite <- Hd, lookup_drop. f_equal. lia. }
    cbn [entries chunk_entries app lookup list_lookup halved v_num v_logs v_time mbind outcome_bind].
    destruct Hvok as (_ & Hn & Ht & Hlo). by apply checkpoint_roundtrip.
  - split_and!; [cbn; lia | exact Hd |]. cbn [p_i p_v start_pos chunks_ok]. split.
    + split_and!; [exact Hvok | by apply Z.mod_mul | by left].
    + rewrite Hc2, <- Hv, Z.mul_comm in Hpost. change (chunk_len CRepeat) with 2.
      assert (chunk_next (halved (after v0 (pre ++ [c]))) CRepeat = after v0 (pre ++ [c])) as ->; [| done].
      revert Hh. by destruct (after v0 (pre ++ [c])) as [h n t l []].
  - by exists pre, c.
  - intros ->. assert (pre = []) as -> by (apply chunks_len_zero; lia). destruct (first_seal v0 c eq_refl Hck) as (h & n & t & ->). eauto.
Qed.

(** Behind the checkpoint. *)
Lemma checkpoint_reached k dn rest : checkpoint_at k dn rest -> reached (adv (start_pos (k * 256) (after v0 dn)) CRepeat) dn rest.
Proof.
  intros [E Hl Hh _ _ _ _]. split_and!; [done | rewrite adv_i, Hl; cbn; lia |]. rewrite adv_v.
  revert Hh. by destruct (after v0 dn) as [h n t l []].
Qed.

Lemma bisect_spec num logs fuel i j :
  0 <= i < j -> (j - 1) * 256 < chunks_len cs -> (Z.to_nat (j - i) <= fuel)%nat ->
  exists r, bisect fuel s num logs i j = Ok r /\ i <= r < j /\
            (r = i \/ exists cp, readSearchCheckpoint s (r * 256) = Ok cp /\ checkpoint_before cp num logs = true).
Proof using SL Hgood Hcont Hok.
  revert i j. induction fuel as [|fuel IH]; intros i j Hij Hj Hf; [lia |]. cbn [bisect]. destruct (Z.ltb_spec (i + 1) j) as [Hlt | Hge].
  - rewrite Z.shiftr_div_pow2 by lia. change (2 ^ 1) with 2. set (h := (i + j) / 2).
    assert (i < h < j) as Hh by (unfold h; pose proof (Z.div_mod (i + j) 2 ltac:(lia)); pose proof (Z.mod_pos_bound (i + j) 2 ltac:(lia)); lia).
    destruct (checkpoint_exists h) as (dn & rest & [_ _ _ Hread _ _ _]); [lia | nia |].
    change searchCheckpointFrequency with 256. rewrite Hread. cbn [mbind outcome_bind].
    destruct (checkpoint_before _ num logs) eqn:Hb.
    + destruct (IH h j) as (r & -> & Hr & Hor); [lia | done | lia |]. exists r. split_and!; [done | lia | lia |]. right.
      destruct Hor as [-> | Hor]; [eauto | done].
    + destruct (IH i h) as (r & -> & Hr & Hor); [lia | nia | lia |]. exists r. split_and!; [done | lia | lia | done].
  - rewrite (proj2 (Z.eqb_eq (i + 1) j)) by lia. cbn [negb]. exists i. split_and!; [done | lia | lia | by left].
Qed.

(** ** Walking *)

Definition first_num : Z := match h_blocks (hist cs) with b :: _ => lb_num b | [] => 0 end.

Lemma first_num_le p dn rest : reached p dn rest -> dn <> [] -> first_num <= v_num (p_v p).
Proof using Hok.
  intros Hr Hne. destruct (reached_tracks _ _ _ Hr Hne) as [(bs & b & Hbs & Hb) _ _ _].
  pose proof (reached_tracks _ _ _ Hr Hne) as (k & _ & Hn & Hv & Hp)%tracks_num.
  destruct (reached_all _ _ _ Hr Hne) as [_ Hall]. destruct (blocks_grow rest (hist dn)) as [more Hm]. rewrite Hall in Hm.
  unfold first_num. rewrite Hm. destruct (h_blocks (hist dn)) as [|b0 bs0] eqn:E; [by destruct bs |]. cbn [app].
  specialize (Hn 0%nat b0 eq_refl). lia.
Qed.

(** A checkpoint at or before a number of logs on top of a block. *)
Definition at_or_before (v : vstate) (num logs : Z) : Prop := v_num v < num \/ (v_num v = num /\ v_logs v <= logs).

Lemma find_checkpoint_spec db num logs :
  store db = s -> cs <> [] -> nextEntryIndex (lastEntryContext db) <> 0 -> 0 <= logs ->
  (find_checkpoint db num logs = Err ErrSkipped /\ num < first_num) \/
  (exists k dn rest, find_checkpoint db num logs = Ok (k * 256) /\ checkpoint_at k dn rest /\ at_or_before (after v0 dn) num logs).
Proof using SL Hgood Hcont Hok.
  intros Hs Hne Hidx Hlogs. unfold find_checkpoint. rewrite (proj2 (Z.eqb_neq _ 0)) by done. rewrite Hs, (last_law s) by done.
  assert (zlen (contents s) = chunks_len cs) as Hlen by (rewrite Hcont; apply length_entries).
  assert (0 < chunks_len cs) as Hpos.
  { pose proof (chunks_len_nonneg cs). assert (chunks_len cs <> 0) by (intros ?%chunks_len_zero; done). lia. }
  rewrite Hlen. change searchCheckpointFrequency with 256. rewrite Z.quot_div_nonneg by lia. set (n := (chunks_len cs - 1) / 256 + 1).
  assert (0 < n /\ (n - 1) * 256 < chunks_len cs) as [Hn1 Hn2].
  { unfold n. pose proof (Z.div_mod (chunks_len cs - 1) 256 ltac:(lia)). pose proof (Z.mod_pos_bound (chunks_len cs - 1) 256 ltac:(lia)).
    pose proof (Z.div_pos (chunks_len cs - 1) 256 ltac:(lia) ltac:(lia)). lia. }
  destruct (bisect_spec num logs (Z.to_nat n) 0 n) as (r & -> & Hr & Hor); [lia | done | lia |]. cbn [mbind outcome_bind].
  destruct (checkpoint_exists r) as (dn & rest & Hca); [lia | nia |]. rewrite (ca_read _ _ _ Hca). cbn [mbind outcome_bind].
  unfold checkpoint_after. cbn [sc_blockNum sc_logsSince]. pose proof (checkpoint_reached _ _ _ Hca) as Hre.
  destruct Hor as [-> | (cp & Hcp & Hb)].
  - destruct (ca_first _ _ _ Hca eq_refl) as (h & m & t & ->). cbn [after fold_left chunk_next v_num v_logs].
    rewrite (proj2 (Z.ltb_ge logs 0)), andb_false_r, orb_false_r by lia.
    destruct (Z.ltb_spec num m) as [Hlt | Hge]; [left | right].
    + split; [done |]. unfold first_num. rewrite (ca_split _ _ _ Hca). change ([CSeal h m t] ++ rest) with (CSeal h m t :: rest).
      unfold hist. cbn [fold_left hist_step]. destruct (blocks_grow rest (hist_sealed (mkBlockSeal h m t) no_history)) as [more ->]. done.
    + exists 0, [CSeal h m t], rest. split_and!; [done | done |]. unfold at_or_before. cbn. lia.
  - rewrite (ca_read _ _ _ Hca) in Hcp. injection Hcp as <-. unfold checkpoint_before in Hb. cbn [sc_blockNum sc_logsSince] in Hb. right.
    exists r, dn, rest. split_and!; [| done | unfold at_or_before; lia]. 
    assert ((num <? v_num (after v0 dn)) || ((v_num (after v0 dn) =? num) && (logs <? v_logs (after v0 dn))) = false) as -> by lia. done.
Qed.

(** Walking to a block: a place right behind its seal, or the block is not there. *)
Definition behind_seal (num : Z) (p : pos) (dn : list chunk) : Prop :=
  v_num (p_v p) = num /\ v_logs (p_v p) = 0 /\ v_half (p_v p) = false /\ exists dn' c, dn = dn' ++ [c] /\ is_check c = true.

Lemma SealedBlock_rctx p : v_half (p_v p) = false -> SealedBlock (rctx p) = Some (v_hash (p_v p), v_num (p_v p)).
Proof. intros Hh. unfold SealedBlock. rewrite complete_rctx, Hh. unfold rctx. cbn. by rewrite Hh. Qed.
Lemma SealedTimestamp_rctx p : v_half (p_v p) = false -> SealedTimestamp (rctx p) = Some (v_time (p_v p)).
Proof. intros Hh. unfold SealedTimestamp. by rewrite complete_rctx, Hh. Qed.

Lemma NextBlock_reached p dn rest :
  reached p dn rest -> dn <> [] -> v_half (p_v p) = false ->
  (exists a c rest', NextBlock s (rctx p) = Ok (rctx (adv (p_end p a) c)) /\ rest = a ++ c :: rest' /\ is_check c = true /\
     reached (adv (p_end p a) c) (dn ++ a ++ [c]) rest' /\ v_half (p_v (adv (p_end p a) c)) = false /\
     let v' := p_v (adv (p_end p a) c) in v_num v' = v_num (p_v p) \/ (v_num v' = v_num (p_v p) + 1 /\ v_logs v' = 0)) \/
  (NextBlock s (rctx p) = Err ErrFuture /\ v_num (after v0 cs) = v_num (p_v p)).
Proof using SL Hgood Hcont Hok Hwhole.
  intros Hr Hne Hh. pose proof (reached_at _ _ _ Hr) as Ha. unfold NextBlock.
  rewrite (NextBlock_spec s Hgood rest) by (done || (rewrite (at_length s Hgood _ _ Ha); lia)).
  pose proof (proj2 (reached_ok _ _ _ Hr)) as Hrest. destruct (p_find is_check p rest) as [[p' rest'] |] eqn:Ef.
  - left. apply p_find_some in Ef as (a & c & E & Hn & Hc & ->). exists a, c, rest'. subst rest.
    pose proof (reached_adv _ _ _ _ (reached_end _ _ _ _ Hr)) as Hr'. rewrite <- app_assoc in Hr'.
    pose proof (next_check (p_i p) (p_v p) a c) as Hnc. rewrite adv_v, p_end_v. rewrite after_app in Hnc.
    destruct Hnc as [Hnc1 Hnc2]; [| by eapply reached_pos | done | done | done |].
    + change (a ++ c :: rest') with (a ++ [c] ++ rest') in Hrest. rewrite app_assoc in Hrest. by apply chunks_ok_app in Hrest as [? _].
    + by split_and!.
  - right. split; [done |]. apply p_find_none in Ef. destruct (no_check _ _ rest Hrest Hh Ef) as [[_ Hv] | (Hv & _)].
    + destruct Hr as (E & _ & Hpv). by rewrite E, after_app, <- Hpv.
    + destruct Hr as (E & _ & Hpv). rewrite E, after_app, <- Hpv in Hwhole. congruence.
Qed.

Lemma walk_blocks_spec num fuel p dn rest :
  reached p dn rest -> dn <> [] -> v_half (p_v p) = false -> v_num (p_v p) < num -> (length rest < fuel)%nat ->
  (exists p' dn' rest', walk_blocks fuel s num (rctx p) = Ok (rctx p') /\ reached p' dn' rest' /\ behind_seal num p' dn') \/
  (walk_blocks fuel s num (rctx p) = Err ErrFuture /\ v_num (after v0 cs) < num).
Proof using SL Hgood Hcont Hok Hwhole.
  revert p dn rest. induction fuel as [|fuel IH]; intros p dn rest Hr Hne Hh Hlt Hf; [lia |]. cbn [walk_blocks].
  rewrite SealedBlock_rctx, (proj2 (Z.eqb_neq _ _)) by (done || lia).
  destruct (NextBlock_reached _ _ _ Hr Hne Hh) as [(a & c & rest' & -> & E & Hc & Hr' & Hh' & Hv) | [-> Hv]]; cbn [mbind outcome_bind].
  - rewrite SealedBlock_rctx by done. set (p' := adv (p_end p a) c) in *. destruct (Z.ltb_spec (v_num (p_v p')) num) as [Hl | Hge].
    + apply (IH p' (dn ++ a ++ [c]) rest'); try done; [by destruct dn |]. subst rest. rewrite length_app in Hf. cbn in Hf. lia.
    + cbv zeta in Hv. rewrite (proj2 (Z.eqb_eq _ _)) by lia. cbn [negb]. left. exists p', (dn ++ a ++ [c]), rest'.
      split_and!; [done | done |]. split_and!; [lia | lia | done |]. exists (dn ++ a), c. by rewrite app_assoc.
  - right. split; [done | lia].
Qed.

Lemma length_le_chunks a : Z.of_nat (length a) <= chunks_len a.
Proof. induction a as [|c a IH]; [done |]. rewrite chunks_len_cons. pose proof (chunk_len_pos c). cbn [length]. lia. Qed.

Lemma size_chunks : store_Size s = chunks_len cs.
Proof using SL Hgood Hcont. rewrite (size_law s), Hcont by done. apply length_entries. Qed.

Definition rounds : nat := S (S (Z.to_nat (store_Size s))).

Lemma rounds_enough dn rest : cs = dn ++ rest -> (S (length rest) < rounds)%nat.
Proof using SL Hgood Hcont.
  intros E. unfold rounds. rewrite size_chunks, E, chunks_len_app. pose proof (length_le_chunks rest). pose proof (chunks_len_nonneg dn). lia.
Qed.

(** A place on top of a block, with at most so many logs. *)
Definition on_block (num logs : Z) (p : pos) (dn : list chunk) : Prop :=
  dn <> [] /\ v_num (p_v p) = num /\ v_half (p_v p) = false /\ v_logs (p_v p) <= logs.

Lemma walk_start num logs k dn rest :
  checkpoint_at k dn rest -> at_or_before (after v0 dn) num logs -> 0 <= logs ->
  (exists p' dn' rest', walk_blocks rounds s num (start_at (k * 256)) = Ok (rctx p') /\ reached p' dn' rest' /\ on_block num logs p' dn' /\
                        (logs = 0 -> behind_seal num p' dn')) \/
  (walk_blocks rounds s num (start_at (k * 256)) = Err ErrFuture /\ v_num (after v0 cs) < num).
Proof using SL Hgood Hcont Hok Hwhole.
  intros Hca Hb Hlogs. pose proof (checkpoint_reached _ _ _ Hca) as Hr. pose proof (rounds_enough _ _ (ca_split _ _ _ Hca)) as Hf.
  destruct (ca_check _ _ _ Hca) as (dn1 & c1 & Hdn & Hc1). assert (dn <> []) as Hne by (rewrite Hdn; by destruct dn1).
  pose proof (ca_whole _ _ _ Hca) as Hh. pose proof Hr as (_ & _ & Hpv).
  destruct rounds as [|f]; [lia |]. cbn [walk_blocks]. change (SealedBlock (start_at (k * 256))) with (@None (hash * Z)).
  rewrite (NextBlock_start s Hgood _ _ _ (ca_at _ _ _ Hca)). cbn [mbind outcome_bind].
  set (p0 := adv (start_pos (k * 256) (after v0 dn)) CRepeat) in *. rewrite SealedBlock_rctx by (by rewrite Hpv). rewrite Hpv.
  destruct (Z.ltb_spec (v_num (after v0 dn)) num) as [Hlt | Hge].
  - destruct (walk_blocks_spec num f p0 dn rest Hr Hne) as [(p' & dn' & rest' & Hw & Hr' & Hbs) | [Hw Hv]]; [by rewrite Hpv | by rewrite Hpv | lia | left | by right].
    exists p', dn', rest'. pose proof Hbs as (Hn & Hl & Hh' & dn2 & c2 & Hdn2 & _).
    split_and!; [done | done | | by intros _]. split_and!; [rewrite Hdn2; by destruct dn2 | done | done | lia].
  - left. assert (v_num (after v0 dn) = num) as Hn by (unfold at_or_before in Hb; lia). rewrite (proj2 (Z.eqb_eq _ _)) by done. cbn [negb].
    exists p0, dn, rest. unfold at_or_before in Hb. split_and!; [done | done | unfold on_block; rewrite Hpv; split_and!; [done.. | lia] |].
    intros ->. assert (0 <= v_logs (after v0 dn)).
    { pose proof (reached_tracks _ _ _ Hr Hne) as [_ Ho _ _]. rewrite Hpv in Ho. rewrite Ho. unfold zlen. lia. }
    unfold behind_seal. rewrite Hpv. split_and!; [done | lia | done |]. by exists dn1, c1.
Qed.

(** *** Logs *)

Lemma reached_logs p dn rest :
  reached p dn rest -> dn <> [] -> logs_on (hist cs) (v_num (p_v p)) = h_open (hist dn) ++ ext rest.
Proof using Hok.
  intros Hr Hne. pose proof (reached_tracks _ _ _ Hr Hne) as Ht. destruct (reached_all _ _ _ Hr Hne) as [Hall <-].
  unfold logs_on. rewrite (find_next _ _ _ _ Ht Hall). pose proof (closing_blocks rest (hist dn)) as Hc.
  destruct (closing rest); cbn [fmap option_fmap option_map lb_logs]; [done | by rewrite Hc].
Qed.

Lemma v_logs_range p dn rest : reached p dn rest -> 0 <= v_logs (p_v p) < 2 ^ 32.
Proof using Hok.
  intros Hr. destruct (reached_ok _ _ _ Hr) as [Hd _]. destruct Hr as (_ & _ & ->). destruct (after_ok _ _ _ Hd v0_ok) as (_ & _ & _ & Hl). done.
Qed.

Lemma logs_count p dn rest : reached p dn rest -> dn <> [] -> zlen (logs_on (hist cs) (v_num (p_v p))) = v_logs (p_v p) + zlen (ext rest).
Proof using Hok.
  intros Hr Hne. rewrite (reached_logs _ _ _ Hr Hne). destruct (reached_tracks _ _ _ Hr Hne) as [_ -> _ _]. unfold zlen. rewrite length_app. lia.
Qed.

Lemma InitMessage_rctx p : 0 < v_logs (p_v p) < 2 ^ 32 -> InitMessage (rctx p) = Some (p_lh p, v_logs (p_v p) - 1).
Proof.
  intros Hl. unfold InitMessage, hasReadableLog. rewrite incomplete_rctx. cbn [rctx logsSince logHash].
  destruct (Z.ltb_spec 0 (v_logs (p_v p))); [| lia]. cbn [negb andb]. unfold usub. rewrite wrap_small; [done |]. unfold in_range. lia.
Qed.

Lemma NextInitMsg_reached p dn rest :
  reached p dn rest -> dn <> [] ->
  match ext rest with
  | (lh, em) :: e =>
      exists p' dn' rest', NextInitMsg s (rctx p) = Ok (rctx p') /\ reached p' dn' rest' /\ dn' <> [] /\ ext rest' = e /\
        p_lh p' = lh /\ p_em p' = em /\ v_half (p_v p') = false /\ v_num (p_v p') = v_num (p_v p) /\ v_logs (p_v p') = v_logs (p_v p) + 1 /\
        (length rest' < length rest)%nat
  | [] => NextInitMsg s (rctx p) = Err ErrFuture \/
          exists p', NextInitMsg s (rctx p) = Ok (rctx p') /\ v_half (p_v p') = false /\ v_num (p_v p) < v_num (p_v p')
  end.
Proof using SL Hgood Hcont Hok.
  intros Hr Hne. pose proof (reached_at _ _ _ Hr) as Ha. pose proof (proj2 (reached_ok _ _ _ Hr)) as Hrest.
  unfold NextInitMsg. rewrite (NextInitMsg_spec s Hgood rest) by (done || (rewrite (at_length s Hgood _ _ Ha); lia)).
  pose proof (find_log p rest Hrest (reached_pos _ _ _ Hr Hne)) as Hf. destruct (ext rest) as [|[lh em] e].
  - destruct (p_find is_log p rest) as [[p' rest'] |] eqn:Ef; [right | by left]. exists p'. split_and!; [done | | done].
    apply p_find_some in Ef as (a & c & -> & _ & Hc & ->). apply chunks_ok_app in Hrest as (_ & Hck & _).
    destruct c as [| | | | lh em]; try done. rewrite adv_v. cbn. rewrite p_end_v. by destruct Hck as [Hck _].
  - destruct Hf as (a & rest' & -> & -> & He & Hq). exists (adv (p_end p a) (CLog lh em)), (dn ++ a ++ [CLog lh em]), rest'.
    pose proof (reached_adv _ _ _ _ (reached_end _ _ _ _ Hr)) as Hr'. rewrite <- app_assoc in Hr'. apply chunks_ok_app in Hrest as (_ & Hck & _).
    destruct (quiet_after (p_v p) a Hq) as [Hn Hl]. rewrite adv_v, p_end_v. cbn [chunk_next v_half v_num v_logs].
    split_and!; try done; [by destruct dn | by destruct Hck as [Hck _] | lia |]. rewrite length_app. cbn. lia.
Qed.

Lemma walk_logs_spec num idx fuel p dn rest :
  reached p dn rest -> on_block num idx p dn -> (length rest < fuel)%nat ->
  if idx <=? zlen (logs_on (hist cs) num) then
    exists p' dn' rest', walk_logs fuel s num idx (rctx p) = Ok (rctx p') /\ reached p' dn' rest' /\ on_block num idx p' dn' /\
                         v_logs (p_v p') = idx
  else exists e, walk_logs fuel s num idx (rctx p) = Err e /\ (e = ErrFuture \/ e = ErrConflict).
Proof using SL Hgood Hcont Hok.
  revert p dn rest. induction fuel as [|fuel IH]; intros p dn rest Hr (Hne & Hn & Hh & Hl) Hf; [lia |].
  pose proof (logs_count _ _ _ Hr Hne) as Hcnt. rewrite Hn in Hcnt. cbn [walk_logs]. change (logsSince (rctx p)) with (v_logs (p_v p)).
  pose proof (NextInitMsg_reached _ _ _ Hr Hne) as Hnext.
  destruct (Z.ltb_spec (v_logs (p_v p)) idx) as [Hlt | Hge].
  2: { assert (0 <= zlen (ext rest)) by (unfold zlen; lia). rewrite (proj2 (Z.leb_le _ _)) by lia.
       exists p, dn, rest. split_and!; [done | done | done | lia]. }
  destruct (ext rest) as [|[lh em] e] eqn:Ee.
  - rewrite (proj2 (Z.leb_gt _ _)) by (unfold zlen in *; cbn in *; lia). destruct Hnext as [-> | (p' & -> & Hh' & Hlt')]; [by eauto |].
    cbn [mbind outcome_bind]. rewrite SealedBlock_rctx, (proj2 (Z.ltb_lt _ _)) by (done || lia). by eauto.
  - destruct Hnext as (p' & dn' & rest' & -> & Hr' & Hne' & He & _ & _ & Hh' & Hn' & Hl' & Hlen). cbn [mbind outcome_bind].
    pose proof (v_logs_range _ _ _ Hr). pose proof (v_logs_range _ _ _ Hr'). rewrite SealedBlock_rctx, (proj2 (Z.ltb_ge _ _)), InitMessage_rctx by (done || lia).
    unfold uadd. rewrite wrap_small by (unfold in_range; lia). rewrite Z.sub_add.
    destruct (Z.ltb_spec (v_logs (p_v p')) idx) as [Hlt' | Hge'].
    + apply (IH p' dn' rest'); [done | split_and!; [done | lia | done | lia] | lia].
    + rewrite (proj2 (Z.eqb_eq _ _)), (proj2 (Z.leb_le _ _)) by (unfold zlen in *; cbn in *; lia).
      exists p', dn', rest'. split_and!; [done | done | | lia]. split_and!; [done | lia | done | lia].
Qed.

(** ** A new iterator *)

Definition last_pos : pos := mkPos (chunks_len cs) (after v0 cs) zero_hash None.

Lemma reached_last : reached last_pos cs [].
Proof. split_and!; [by rewrite app_nil_r | done | done]. Qed.

Lemma find_outside num : cs <> [] -> num < first_num \/ v_num (after v0 cs) < num -> find_block (hist cs) num = None.
Proof using Hok.
  intros Hne Hout. pose proof (hist_tracks cs Hok Hne) as Ht. destruct Hout as [Hlt | Hlt]; [| by eapply find_later].
  apply tracks_num in Ht as (k & _ & Hn & _ & Hp). unfold first_num in Hlt. apply find_none. intros b Hb.
  destruct (h_blocks (hist cs)) as [|b0 bs] eqn:E; [by apply not_elem_of_nil in Hb |].
  pose proof (Hn 0%nat b0 eq_refl). pose proof (numbered_le k (b0 :: bs) [] b ltac:(by rewrite app_nil_r) Hb). lia.
Qed.

Lemma sealed_block p dn rest num b :
  reached p dn rest -> dn <> [] -> v_num (p_v p) = num -> find_block (hist cs) num = Some b -> lb_seal b = seal_of (p_v p).
Proof using Hok.
  intros Hr Hne <- Hb. destruct (reached_all _ _ _ Hr Hne) as [Ht E].
  destruct (find_sealed _ _ rest _ (reached_tracks _ _ _ Hr Hne) Ht) as (b' & Hb' & Hs). rewrite E in Hb'. congruence.
Qed.

Lemma newIteratorAt_empty db num idx :
  store db = s -> nextEntryIndex (lastEntryContext db) <> 0 -> cs = [] -> newIteratorAt db num idx = Err ErrFuture.
Proof using SL Hgood Hcont.
  intros Hs Hidx E. unfold newIteratorAt, find_checkpoint. rewrite (proj2 (Z.eqb_neq _ 0)) by done. rewrite Hs, (last_law s) by done.
  assert (contents s = []) as Hc by (by rewrite Hcont, E). rewrite Hc. cbn [Z.eqb]. change (bisect _ s num idx 0 _) with (Ok 0).
  cbn [mbind outcome_bind]. unfold readSearchCheckpoint. rewrite (read_law s), Hc by done. done.
Qed.

Lemma newIteratorAt_spec db num idx :
  store db = s -> nextEntryIndex (lastEntryContext db) <> 0 -> 0 <= idx ->
  match find_block (hist cs) num with
  | None => newIteratorAt db num idx = Err (if (num <? first_num) && negb (bool_decide (cs = [])) then ErrSkipped else ErrFuture)
  | Some b =>
      if idx <=? zlen (logs_on (hist cs) num) then
        exists p dn rest, newIteratorAt db num idx = Ok (rctx p) /\ reached p dn rest /\ on_block num idx p dn /\ v_logs (p_v p) = idx /\
                          lb_seal b = seal_of (p_v p) /\ (idx = 0 -> behind_seal num p dn)
      else exists e, newIteratorAt db num idx = Err e /\ (e = ErrFuture \/ e = ErrConflict)
  end.
Proof using SL Hgood Hcont Hok Hwhole.
  intros Hs Hidx Hi. destruct (decide (cs = [])) as [Enil | Hne].
  { assert (find_block (hist cs) num = None) as -> by (by rewrite Enil). rewrite bool_decide_true, andb_false_r by done. by apply newIteratorAt_empty. }
  rewrite (bool_decide_false (cs = [])), andb_true_r by done. unfold newIteratorAt.
  destruct (find_checkpoint_spec db num idx Hs Hne Hidx Hi) as [[-> Hlt] | (k & dn & rest & -> & Hca & Hb)].
  - rewrite find_outside by (done || by left). rewrite (proj2 (Z.ltb_lt _ _)) by done. done.
  - rewrite Hs. change (S (S (Z.to_nat (store_Size s)))) with rounds. change (add_need FlagCanonicalHash (newIterator (k * 256))) with (start_at (k * 256)).
    destruct (walk_start num idx k dn rest Hca Hb Hi) as [(p & dn' & rest' & -> & Hr & Hon & Hbs) | [-> Hv]]; cbn [mbind outcome_bind].
    + pose proof Hon as (Hdn & Hn & _ & _). destruct (reached_all _ _ _ Hr Hdn) as [Ht E].
      destruct (find_sealed _ _ rest' _ (reached_tracks _ _ _ Hr Hdn) Ht) as (b & Hfb & Hsl). rewrite E, Hn in Hfb. rewrite Hfb.
      assert (length rest' < rounds)%nat as Hf by (destruct Hr as (E' & _); pose proof (rounds_enough _ _ E'); lia).
      pose proof (walk_logs_spec num idx rounds p dn' rest' Hr Hon Hf) as Hw. destruct (Z.leb_spec idx (zlen (logs_on (hist cs) num))); [| done].
      destruct (decide (idx = 0)) as [E0 | H0].
      * pose proof (Hbs E0) as (_ & Hl0 & _). exists p, dn', rest'. split_and!; [| done | done | lia | done | done].
        cbn [rounds walk_logs]. change (logsSince (rctx p)) with (v_logs (p_v p)). by rewrite (proj2 (Z.ltb_ge _ _)) by lia.
      * destruct Hw as (p' & dn2 & rest2 & -> & Hr' & Hon' & Hl'). exists p', dn2, rest2. split_and!; try done.
        destruct Hon' as (? & ? & _). by eapply sealed_block.
    + rewrite find_outside by (done || by right). pose proof (first_num_le _ _ _ reached_last Hne) as Hle. cbn in Hle.
      by rewrite (proj2 (Z.ltb_ge _ _)) by lia.
Qed.

(** ** Queries *)

Definition indexed (db : DB St) : Prop := store db = s /\ (nextEntryIndex (lastEntryContext db) = 0 -> cs = []).

Lemma newIteratorAt_unindexed (db : DB St) num idx : nextEntryIndex (lastEntryContext db) = 0 -> newIteratorAt db num idx = Err ErrFuture.
Proof. intros E. unfold newIteratorAt, find_checkpoint. by rewrite E. Qed.

Lemma hist_nonempty : cs <> [] -> exists b bs, h_blocks (hist cs) = b :: bs /\ first_num = lb_num b.
Proof using Hok.
  intros Hne. destruct (tracks_num _ _ (hist_tracks cs Hok Hne)) as (k & _ & _ & _ & Hp). unfold first_num.
  destruct (h_blocks (hist cs)) as [|b bs]; [done |]. by exists b, bs.
Qed.

(** An iterator on top of a block, or the error of its number. *)
Lemma newIteratorAt_block db num :
  indexed db ->
  match hist_find (hist cs) num with
  | Ok sl => exists p dn rest, newIteratorAt db num 0 = Ok (rctx p) /\ reached p dn rest /\ behind_seal num p dn /\ sl = seal_of (p_v p)
  | Err e => newIteratorAt db num 0 = Err e
  | Panic _ => False
  end.
Proof using SL Hgood Hcont Hok Hwhole.
  intros [Hs Hidx]. unfold hist_find. destruct (decide (nextEntryIndex (lastEntryContext db) = 0)) as [E0 | H0].
  { rewrite (Hidx E0). cbn. by apply newIteratorAt_unindexed. }
  pose proof (newIteratorAt_spec db num 0 Hs H0 ltac:(lia)) as Hspec. destruct (find_block (hist cs) num) as [b |].
  - assert (0 <= zlen (logs_on (hist cs) num)) by (unfold zlen; lia). rewrite (proj2 (Z.leb_le _ _)) in Hspec by done.
    destruct Hspec as (p & dn & rest & Hn & Hr & _ & _ & Hsl & Hb). exists p, dn, rest. by specialize (Hb eq_refl).
  - destruct (decide (cs = [])) as [E | Hne].
    + rewrite Hspec, E. cbn. by rewrite andb_false_r.
    + rewrite (bool_decide_false (cs = [])), andb_true_r in Hspec by done. destruct (hist_nonempty Hne) as (b & bs & -> & Hf).
      rewrite Hf in Hspec. by destruct (num <? lb_num b).
Qed.

Lemma FindSealedBlock_spec db num : indexed db -> FindSealedBlock db num = hist_find (hist cs) num.
Proof using SL Hgood Hcont Hok Hwhole.
  intros Hdb. unfold FindSealedBlock. pose proof (newIteratorAt_block db num Hdb) as Hn. destruct (hist_find (hist cs) num) as [sl | e | e]; [| by rewrite Hn | done].
  destruct Hn as (p & dn & rest & -> & Hr & (Hnum & _ & Hh & _) & ->). cbn [mbind outcome_bind].
  rewrite SealedBlock_rctx, SealedTimestamp_rctx, (proj2 (Z.eqb_eq _ _)) by done. done.
Qed.

Lemma StartingBlock_spec db : indexed db -> StartingBlock db = hist_first (hist cs).
Proof using SL Hgood Hcont Hok Hwhole.
  intros [Hs _]. unfold StartingBlock, hist_first. rewrite Hs. pose (p := mkPos 0 v0 zero_hash None). change (newIterator 0) with (rctx p).
  assert (reached p [] cs) as Hr by done. pose proof (reached_at _ _ _ Hr) as Ha. unfold NextBlock.
  rewrite (NextBlock_spec s Hgood cs) by (done || (rewrite (at_length s Hgood _ _ Ha); lia)).
  destruct cs as [|c rest]; [done |]. destruct (first_seal v0 c eq_refl (proj1 Hok)) as (h & n & t & ->). cbn [p_find is_check mbind outcome_bind].
  unfold hist. cbn [fold_left hist_step]. destruct (blocks_grow rest (hist_sealed (mkBlockSeal h n t) no_history)) as [more ->]. done.
Qed.

(** *** Opening a block *)

Lemma ExecMessage_rctx p : v_half (p_v p) = false -> ExecMessage (rctx p) = if 0 <? v_logs (p_v p) then p_em p else None.
Proof.
  intros Hh. unfold ExecMessage, hasReadableLog. rewrite complete_rctx, incomplete_rctx, Hh. cbn. by destruct (0 <? v_logs (p_v p)).
Qed.

Lemma InitMessage_none p : v_logs (p_v p) = 0 -> InitMessage (rctx p) = None.
Proof. intros Hl. unfold InitMessage, hasReadableLog. cbn [rctx logsSince]. by rewrite Hl. Qed.

Lemma open_fn_seal num p o :
  v_half (p_v p) = false -> v_num (p_v p) = num -> v_logs (p_v p) = 0 ->
  open_fn num (rctx p) o =
  (mkOpened (mkL1BlockRef (v_hash (p_v p)) num (l1_ParentHash (op_ref o)) (v_time (p_v p))) (op_logCount o) (op_execMsgs o), Some ErrStop).
Proof.
  intros Hh Hn Hl. unfold open_fn. rewrite InitMessage_none, ExecMessage_rctx, SealedBlock_rctx, SealedTimestamp_rctx, Hl by done.
  cbn [Z.ltb Z.compare op_ref op_logCount op_execMsgs]. by rewrite Hn, Z.eqb_refl.
Qed.

(** Before the seal: the logs so far, of which the last one may have been seen already. *)
Lemma open_fn_log num p o logs :
  v_half (p_v p) = false -> v_num (p_v p) < num -> v_logs (p_v p) = zlen logs -> zlen logs < 2 ^ 32 ->
  (logs = [] -> op_logCount o = 0 /\ op_execMsgs o = ∅) ->
  (forall l' l, logs = l' ++ [l] -> l = (p_lh p, p_em p) /\ (op_execMsgs o = msgs_of logs \/ op_execMsgs o = msgs_of l')) ->
  open_fn num (rctx p) o = (mkOpened (op_ref o) (zlen logs) (msgs_of logs), None).
Proof.
  intros Hh Hn Hl Hlt Hnil Hsnoc. unfold open_fn. rewrite ExecMessage_rctx, SealedBlock_rctx by done.
  assert (forall o' : opened_block, (if v_num (p_v p) =? num then
      (mkOpened (mkL1BlockRef (v_hash (p_v p)) (v_num (p_v p)) (l1_ParentHash (op_ref o')) (default 0 (SealedTimestamp (rctx p)))) (op_logCount o') (op_execMsgs o'), Some ErrStop)
      else if num <? v_num (p_v p) then (o', Some ErrDataCorruption) else (o', None)) = (o', None)) as Hend.
  { intros o'. rewrite (proj2 (Z.eqb_neq _ _)), (proj2 (Z.ltb_ge _ _)) by lia. done. }
  destruct logs as [|l logs _] using rev_ind.
  - destruct (Hnil eq_refl) as [Hc Hm]. rewrite InitMessage_none, Hl by done. change (0 <? zlen []) with false. cbv iota zeta.
    rewrite Hc, Hm. exact (Hend (mkOpened (op_ref o) 0 ∅)).
  - destruct (Hsnoc logs l eq_refl) as [-> Hm]. clear Hnil Hsnoc. assert (zlen (logs ++ [(p_lh p, p_em p)]) = zlen logs + 1) as Hz by (unfold zlen; rewrite length_app; cbn; lia).
    assert (0 <= zlen logs) by (unfold zlen; lia). rewrite InitMessage_rctx by lia. rewrite (proj2 (Z.ltb_lt 0 _)) by lia. rewrite Hl, Hz, Z.add_simpl_r. cbv iota zeta.
    unfold uadd. rewrite wrap_small by (unfold in_range; lia).
    assert (match p_em p with Some m => <[zlen logs:=m]> (op_execMsgs o) | None => op_execMsgs o end = msgs_of (logs ++ [(p_lh p, p_em p)])) as ->.
    { rewrite msgs_of_snoc in Hm |- *. cbn [snd] in *. destruct (p_em p) as [m |]; [| by destruct Hm].
      destruct Hm as [-> | ->]; [by rewrite insert_insert_eq | done]. }
    exact (Hend (mkOpened (op_ref o) (zlen logs + 1) (msgs_of (logs ++ [(p_lh p, p_em p)])))).
Qed.

(** Behind half a seal the rest of it follows. *)
Lemma half_rest p dn rest : reached p dn rest -> v_half (p_v p) = true -> exists rest', rest = CRepeat :: rest'.
Proof using Hok Hwhole.
  intros Hr Hh. destruct (reached_ok _ _ _ Hr) as [_ Hrest]. destruct rest as [|c rest'].
  - destruct Hr as (E & _ & Hv). rewrite app_nil_r in E. rewrite E, <- Hv in Hwhole. congruence.
  - destruct Hrest as [Hc _]. apply half_repeat in Hc as ->; eauto.
Qed.

Definition opening (num : Z) (p : pos) (dn : list chunk) (o : opened_block) : Prop :=
  dn <> [] /\ v_half (p_v p) = false /\ v_num (p_v p) = num - 1 /\
  (forall l' l, h_open (hist dn) = l' ++ [l] -> l = (p_lh p, p_em p)) /\
  op_logCount o = zlen (h_open (hist dn)) /\ op_execMsgs o = msgs_of (h_open (hist dn)).

(** A chunk that seals nothing keeps the count. *)
Lemma open_fn_next num p dn c rest o :
  reached p dn (c :: rest) -> opening num p dn o -> v_num (chunk_next (p_v p) c) = num - 1 ->
  open_fn num (rctx (adv p c)) o = (mkOpened (op_ref o) (zlen (h_open (hist (dn ++ [c])))) (msgs_of (h_open (hist (dn ++ [c])))), None) /\
  opening num (adv p c) (dn ++ [c]) (mkOpened (op_ref o) (zlen (h_open (hist (dn ++ [c])))) (msgs_of (h_open (hist (dn ++ [c]))))).
Proof using Hok.
  intros Hr (Hne & Hh & Hn & Hlast & Hc & Hm) Hnum. pose proof (reached_adv _ _ _ _ Hr) as Hr'.
  assert (dn ++ [c] <> []) as Hne' by (by destruct dn). pose proof (reached_tracks _ _ _ Hr' Hne') as [_ Ho _ _].
  pose proof (v_logs_range _ _ _ Hr') as Hrange. pose proof (proj1 (proj2 (reached_ok _ _ _ Hr))) as Hck.
  destruct (reached_tracks _ _ _ Hr Hne) as [_ Ho0 _ _].
  assert (v_half (p_v (adv p c)) = false) as Hh'.
  { rewrite adv_v. destruct c as [h n t | h n t | | | lh em]; try done. exfalso. cbn in Hnum. destruct Hck as (_ & _ & _ & Hck & _). lia. }
  assert (forall l' l, h_open (hist (dn ++ [c])) = l' ++ [l] ->
            l = (p_lh (adv p c), p_em (adv p c)) /\ (op_execMsgs o = msgs_of (h_open (hist (dn ++ [c]))) \/ op_execMsgs o = msgs_of l')) as Hsnoc.
  { intros l' l E. rewrite hist_app in E |- *. cbn [fold_left] in E |- *.
    destruct c as [h n t | h n t | | | lh em]; cbn [hist_step hist_sealed hist_logged h_open] in E |- *; [by destruct l' | by destruct l' | | |].
    - rewrite (Hlast _ _ E), Hm. split; [| by left]. unfold adv. cbn [p_lh p_em].
      destruct (Z.eqb_spec (v_logs (p_v p)) 0) as [Hz |]; [| done]. rewrite Hz, E in Ho0. unfold zlen in Ho0. rewrite length_app in Ho0. cbn in Ho0. lia.
    - rewrite (Hlast _ _ E), Hm. split; [done | by left].
    - apply app_inj_tail in E as [<- <-]. split; [done | by right]. }
  assert (h_open (hist (dn ++ [c])) = [] -> op_logCount o = 0 /\ op_execMsgs o = ∅) as Hnil.
  { intros E. rewrite Hc, Hm. rewrite hist_app in E. cbn [fold_left] in E.
    destruct c as [h n t | h n t | | | lh em]; cbn [hist_step hist_sealed hist_logged h_open] in E; [| | by rewrite E | by rewrite E | by destruct (h_open (hist dn))];
      exfalso; cbn in Hnum; pose proof (reached_pos _ _ _ Hr Hne); destruct Hck as (_ & _ & _ & Hck); lia. }
  split; [apply open_fn_log; rewrite ?adv_v in *; try done; lia |]. split_and!; try done; [by rewrite adv_v |]. intros l' l E. by destruct (Hsnoc l' l E).
Qed.

Lemma trav_open num p dn rest o :
  reached p dn rest -> opening num p dn o ->
  let '(o', _, e) := p_trav (open_fn num) p rest o in
  match closing rest with
  | Some sl => e = ErrStop /\ let logs := h_open (hist dn) ++ ext rest in
      o' = mkOpened (mkL1BlockRef (s_Hash sl) num (l1_ParentHash (op_ref o)) (s_Timestamp sl)) (zlen logs) (msgs_of logs)
  | None => e = ErrFuture
  end.
Proof using Hok Hwhole.
  revert p dn o. induction rest as [|c rest IH]; intros p dn o Hr Hop; [done |]. pose proof Hop as (Hne & Hh & Hn & _ & Hc & Hm).
  pose proof (proj1 (proj2 (reached_ok _ _ _ Hr))) as Hck. pose proof (reached_pos _ _ _ Hr Hne) as Hpos.
  pose proof (reached_adv _ _ _ _ Hr) as Hr'. cbn [p_trav]. pose proof (open_fn_next num p dn c rest o Hr Hop) as Hnext.
  destruct c as [h n t | h n t | | | lh em].
  - assert (n = num) as -> by (destruct Hck as (_ & _ & _ & Hck); lia). cbn [closing ext]. rewrite app_nil_r.
    change (v_half (p_v (adv p (CSeal h num t)))) with false. cbv iota. rewrite open_fn_seal by done. by rewrite Hc, Hm.
  - assert (n = num) as -> by (destruct Hck as (_ & _ & _ & Hck & _); lia). cbn [closing ext]. rewrite app_nil_r.
    change (v_half (p_v (adv p (CSplit h num t)))) with true. cbv iota. destruct (half_rest _ _ _ Hr' eq_refl) as (rest' & ->). cbn [p_trav].
    change (v_half (p_v (adv (adv p (CSplit h num t)) CRepeat))) with false. cbv iota. rewrite open_fn_seal by done. by rewrite Hc, Hm.
  - destruct (Hnext Hn) as [Hfn Hop']. rewrite adv_v. cbn [chunk_next whole v_half]. rewrite Hfn. specialize (IH _ _ _ Hr' Hop').
    rewrite hist_app in IH |- *. exact IH.
  - destruct (Hnext Hn) as [Hfn Hop']. rewrite adv_v. cbn [chunk_next]. rewrite Hh, Hfn. specialize (IH _ _ _ Hr' Hop').
    rewrite hist_app in IH |- *. exact IH.
  - destruct (Hnext Hn) as [Hfn Hop']. rewrite adv_v. cbn [chunk_next v_half]. rewrite Hh, Hfn. specialize (IH _ _ _ Hr' Hop').
    rewrite hist_app in IH |- *. cbn [fold_left hist_step hist_logged h_open op_ref] in IH |- *. rewrite <- app_assoc in IH. exact IH.
Qed.

Lemma OpenBlock_spec db num : indexed db -> OpenBlock db num = hist_block (hist cs) num.
Proof using SL Hgood Hcont Hok Hwhole.
  intros Hdb. unfold OpenBlock, hist_block. destruct (Z.eqb_spec num 0) as [-> | H0]; [by rewrite StartingBlock_spec |].
  pose proof (newIteratorAt_block db (num - 1) Hdb) as Hn. destruct (hist_find (hist cs) (num - 1)) as [sl | e | e]; [| by rewrite Hn | done].
  destruct Hn as (p & dn & rest & -> & Hr & (Hv & Hl & Hh & dn' & c & -> & _) & ->). cbn [mbind outcome_bind].
  assert (dn' ++ [c] <> []) as Hne by (by destruct dn'). pose proof (reached_tracks _ _ _ Hr Hne) as Ht. pose proof Ht as [_ Ho _ _].
  assert (h_open (hist (dn' ++ [c])) = []) as Hopen by (destruct (h_open _); [done | unfold zlen in Ho; cbn in Ho; lia]).
  rewrite SealedBlock_rctx by done. destruct Hdb as [-> _]. unfold TraverseConditional. set (o := mkOpened _ _ _).
  pose proof (reached_at _ _ _ Hr) as Ha. pose proof (trav_open num p (dn' ++ [c]) rest o Hr) as Htrav.
  pose proof (Traverse_spec s Hgood (open_fn num) rest (rounds_left s (rctx p)) p o Ha ltac:(rewrite (at_length s Hgood _ _ Ha); lia)) as Hspec.
  destruct (p_trav (open_fn num) p rest o) as [[o' stop] e]. destruct Hspec as (l & -> & _). cbn [mbind outcome_bind].
  destruct (reached_all _ _ _ Hr Hne) as [Hall Eall]. pose proof (find_next _ _ _ _ Ht Hall) as Hfn. rewrite Eall, Hv, Z.sub_add in Hfn. rewrite Hfn.
  specialize (Htrav ltac:(split_and!; [done | done | done | rewrite Hopen; by intros [] | by rewrite Hopen | by rewrite Hopen])).
  destruct (closing rest) as [sl |]; [| by subst e]. destruct Htrav as [-> ->]. done.
Qed.

(** *** Looking for a log *)

Lemma contains_fn_stay num p : v_half (p_v p) = false -> v_num (p_v p) < num -> contains_fn num (rctx p) () = ((), None).
Proof. intros Hh Hn. unfold contains_fn. by rewrite SealedBlock_rctx, (proj2 (Z.eqb_neq _ _)), (proj2 (Z.ltb_ge _ _)) by (done || lia). Qed.
Lemma contains_fn_stop num p : v_half (p_v p) = false -> v_num (p_v p) = num -> contains_fn num (rctx p) () = ((), Some ErrStop).
Proof. intros Hh <-. unfold contains_fn. by rewrite SealedBlock_rctx, Z.eqb_refl by done. Qed.

Lemma trav_contains num p dn rest :
  reached p dn rest -> dn <> [] -> v_half (p_v p) = false -> v_num (p_v p) = num - 1 ->
  match closing rest with
  | Some sl => exists p', p_trav (contains_fn num) p rest () = ((), Some p', ErrStop) /\ v_half (p_v p') = false /\ seal_of (p_v p') = sl /\ s_Number sl = num
  | None => p_trav (contains_fn num) p rest () = ((), None, ErrFuture)
  end.
Proof using Hok Hwhole.
  revert p dn. induction rest as [|c rest IH]; intros p dn Hr Hne Hh Hn; [done |].
  pose proof (proj1 (proj2 (reached_ok _ _ _ Hr))) as Hck. pose proof (reached_pos _ _ _ Hr Hne) as Hpos.
  pose proof (reached_adv _ _ _ _ Hr) as Hr'. cbn [p_trav]. assert (dn ++ [c] <> []) as Hne' by (by destruct dn).
  destruct c as [h n t | h n t | | | lh em]; cbn [closing].
  - assert (n = num) as -> by (destruct Hck as (_ & _ & _ & Hck); lia). change (v_half (p_v (adv p (CSeal h num t)))) with false. cbv iota.
    rewrite contains_fn_stop by done. by exists (adv p (CSeal h num t)).
  - assert (n = num) as -> by (destruct Hck as (_ & _ & _ & Hck & _); lia). change (v_half (p_v (adv p (CSplit h num t)))) with true. cbv iota.
    destruct (half_rest _ _ _ Hr' eq_refl) as (rest' & ->). cbn [p_trav].
    change (v_half (p_v (adv (adv p (CSplit h num t)) CRepeat))) with false. cbv iota. rewrite contains_fn_stop by done.
    by exists (adv (adv p (CSplit h num t)) CRepeat).
  - assert (v_half (p_v (adv p CRepeat)) = false) as Hh' by (by rewrite adv_v). rewrite Hh', contains_fn_stay by (done || (rewrite adv_v; cbn; lia)).
    apply (IH _ _ Hr'); [done | done | by rewrite adv_v].
  - assert (v_half (p_v (adv p CPad)) = false) as Hh' by (by rewrite adv_v). rewrite Hh', contains_fn_stay by (done || (rewrite adv_v; cbn; lia)).
    apply (IH _ _ Hr'); [done | done | by rewrite adv_v].
  - assert (v_half (p_v (adv p (CLog lh em))) = false) as Hh' by (by rewrite adv_v). rewrite Hh', contains_fn_stay by (done || (rewrite adv_v; cbn; lia)).
    apply (IH _ _ Hr'); [done | done | by rewrite adv_v].
Qed.

Lemma findLogInfo_spec db num idx :
  indexed db -> num <> 0 -> 0 <= idx ->
  match hist_find (hist cs) (num - 1) with
  | Err e => findLogInfo db num idx = Err e
  | Panic _ => False
  | Ok _ =>
      match logs_on (hist cs) (num - 1) !! Z.to_nat idx with
      | Some (lh, _) => exists p dn rest, findLogInfo db num idx = Ok (lh, rctx p) /\ reached p dn rest /\ dn <> [] /\
                          v_num (p_v p) = num - 1 /\ v_half (p_v p) = false
      | None => exists e, findLogInfo db num idx = Err e /\ (e = ErrFuture \/ e = ErrConflict)
      end
  end.
Proof using SL Hgood Hcont Hok Hwhole.
  intros Hdb Hnum Hi. unfold findLogInfo. rewrite (proj2 (Z.eqb_neq _ _)) by done. destruct Hdb as [Hs Hidx].
  destruct (decide (nextEntryIndex (lastEntryContext db) = 0)) as [E0 | H0].
  { rewrite (Hidx E0). cbn. by rewrite newIteratorAt_unindexed. }
  pose proof (newIteratorAt_spec db (num - 1) idx Hs H0 Hi) as Hspec. unfold hist_find. destruct (find_block (hist cs) (num - 1)) as [b |].
  - destruct (Z.leb_spec idx (zlen (logs_on (hist cs) (num - 1)))) as [Hle | Hgt].
    + destruct Hspec as (p & dn & rest & -> & Hr & (Hne & Hn & Hh & _) & Hl & _). cbn [mbind outcome_bind]. rewrite Hs.
      pose proof (NextInitMsg_reached _ _ _ Hr Hne) as Hnext. pose proof (reached_logs _ _ _ Hr Hne) as Hlogs. rewrite Hn in Hlogs. rewrite Hlogs.
      destruct (reached_tracks _ _ _ Hr Hne) as [_ Ho _ _]. rewrite lookup_app_r by (unfold zlen in Ho; lia).
      replace (Z.to_nat idx - length (h_open (hist dn)))%nat with 0%nat by (unfold zlen in Ho; lia).
      destruct (ext rest) as [|[lh em] e]; cbn [lookup list_lookup].
      * destruct Hnext as [-> | (p' & -> & Hh' & Hlt)]; [by eauto |]. cbn [mbind outcome_bind].
        rewrite SealedBlock_rctx, (proj2 (Z.ltb_ge _ _)), (proj2 (Z.ltb_lt _ _)) by (done || lia). by eauto.
      * destruct Hnext as (p' & dn' & rest' & -> & Hr' & Hne' & _ & Hlh & _ & Hh' & Hn' & Hl' & _). cbn [mbind outcome_bind].
        pose proof (v_logs_range _ _ _ Hr'). rewrite SealedBlock_rctx, !(proj2 (Z.ltb_ge _ _)), InitMessage_rctx by (done || lia).
        rewrite Hlh, (proj2 (Z.eqb_eq _ _)) by lia. cbn [negb]. exists p', dn', rest'. split_and!; [done.. | lia | done].
    + rewrite lookup_ge_None_2 by (unfold zlen in Hgt; lia). destruct Hspec as (e & -> & He). by eauto.
  - destruct (decide (cs = [])) as [E | Hne].
    + rewrite Hspec, E. cbn. by rewrite andb_false_r.
    + rewrite (bool_decide_false (cs = [])), andb_true_r in Hspec by done. destruct (hist_nonempty Hne) as (b & bs & -> & Hf).
      rewrite Hf in Hspec. rewrite Hspec. by destruct (num - 1 <? lb_num b).
Qed.

Definition context_seal (l : logContext) : BlockSeal := mkBlockSeal (blockHash l) (blockNum l) (timestamp l).

Lemma Contains_spec {K : Keccak} db q :
  indexed db -> hasCompleteBlock (lastEntryContext db) = true -> 0 <= q_LogIdx q ->
  Contains db q = hist_contains (db_chainID db) (context_seal (lastEntryContext db)) (hist cs) q.
Proof using SL Hgood Hcont Hok Hwhole.
  intros Hdb Hcomp Hi. unfold Contains, hist_contains. rewrite Hcomp. cbn [andb context_seal s_Number s_Timestamp].
  destruct (blockNum (lastEntryContext db) <? q_BlockNum q); [done |]. destruct (Z.eqb_spec (q_BlockNum q) 0) as [E | H0].
  { unfold findLogInfo. by rewrite E. }
  pose proof (findLogInfo_spec db (q_BlockNum q) (q_LogIdx q) Hdb H0 Hi) as Hspec.
  destruct (hist_find (hist cs) (q_BlockNum q - 1)) as [sl | e | e]; [| rewrite Hspec; by destruct (is_err e ErrFuture) | done].
  destruct (logs_on _ _ !! _) as [[lh em] |]; [| destruct Hspec as (e & -> & [-> | ->]); done].
  destruct Hspec as (p & dn & rest & -> & Hr & Hne & Hn & Hh). destruct Hdb as [-> _]. unfold TraverseConditional.
  pose proof (reached_at _ _ _ Hr) as Ha. pose proof (trav_contains _ _ _ _ Hr Hne Hh Hn) as Htrav.
  pose proof (Traverse_spec s Hgood (contains_fn (q_BlockNum q)) rest (rounds_left s (rctx p)) p () Ha ltac:(rewrite (at_length s Hgood _ _ Ha); lia)) as Hspec.
  destruct (reached_all _ _ _ Hr Hne) as [Hall Eall]. pose proof (find_next _ _ _ _ (reached_tracks _ _ _ Hr Hne) Hall) as Hfn.
  rewrite Eall, Hn, Z.sub_add in Hfn. rewrite Hfn. destruct (closing rest) as [sl2 |]; cbn [fmap option_fmap option_map lb_seal].
  - destruct Htrav as (p' & Htrav & Hh' & Hsl & Hnum). rewrite Htrav in Hspec. destruct Hspec as (l & -> & ->). cbn [mbind outcome_bind].
    change (is_err ErrStop ErrStop) with true. cbv iota. rewrite SealedBlock_rctx, SealedTimestamp_rctx by done. cbn [default from_option id].
    rewrite <- Hsl in Hnum |- *. cbn [seal_of s_Number s_Timestamp] in Hnum |- *. rewrite Hnum. destruct (v_time (p_v p') =? q_Timestamp q); [| done].
    cbn [negb andb]. destruct (bool_decide _); [| done]. cbn [negb]. unfold seal_of. by rewrite Hnum.
  - rewrite Htrav in Hspec. destruct Hspec as (l & -> & _). done.
Qed.
End Queries.
