(* ===== verification/LogWrites.v ===== *)
(** Writing to a database of logs: a block or a log on top of the context becomes
    chunks, and the database - contents of the store and entries that a failed
    append left in the context - stands for a history that was written and one
    that was seen. *)
From Stdlib Require Import ZArith Lia.
From stdpp Require Import base gmap list strings numbers.
From S2P Require Import Prelude Rollup Frames Interop Cross CycleProps EntryDB ChainsDB.
From S2P Require Import LogDB LogProps LogQueries.
Import Logs.

(** ** Contexts that write *)

Definition wctx (i : Z) (v : vstate) (lh : hash) (em : option ExecutingMessage) (need : Z) (o : list (list Z)) : logContext :=
  mkContext i (v_hash v) (v_num v) (v_time v) (v_logs v) lh em need o.

Lemma infer_more fuel l l' : infer l = Ok l' -> inferFull_ (S fuel) l = inferFull_ fuel l'.
Proof. intros E. cbn [inferFull_]. by rewrite E. Qed.
Lemma infer_done fuel l : infer l = Err EOF -> inferFull_ (S fuel) l = (Ok (), l).
Proof. intros E. cbn [inferFull_]. by rewrite E. Qed.

Ltac mod_lia := Z.to_euclidean_division_equations; lia.

(** Whether a checkpoint is due at the index of the context. *)
Ltac due :=
  lazymatch goal with
  | |- context [?x mod searchCheckpointFrequency =? 0] =>
      change (x mod searchCheckpointFrequency) with (x mod 256);
      first [rewrite (proj2 (Z.eqb_eq (x mod 256) 0)) by mod_lia | rewrite (proj2 (Z.eqb_neq (x mod 256) 0)) by mod_lia]
  end.
Ltac infer_tac := unfold infer, wctx; cbn [nextEntryIndex]; due; reflexivity.

Lemma settled fuel i v lh em o : i mod 256 <> 0 -> inferFull_ (S fuel) (wctx i v lh em 0 o) = (Ok (), wctx i v lh em 0 o).
Proof. intros Hi. apply infer_done. infer_tac. Qed.

(** A checkpoint that repeats the last block at the due index. *)
Definition repeats (i : Z) : list chunk := if i mod 256 =? 0 then [CRepeat] else [].

Lemma entry_checkpoint i v lh em o (need need' : Z) :
  i mod 256 = 0 \/ need = 1 -> (need, need') = (0, 2) \/ (need, need') = (1, 2) \/ (need, need') = (2, 2) \/ (need, need') = (28, 30) ->
  infer (wctx i v lh em need o) =
  Ok (wctx (i + 1) v lh em need' (o ++ [checkpoint_encode (mkCheckpoint (v_num v) (v_logs v) (v_time v))])).
Proof.
  intros Hi Hn. unfold infer, wctx. cbn [nextEntryIndex]. change searchCheckpointFrequency with 256.
  destruct (Z.eqb_spec (i mod 256) 0); destruct Hn as [[=-> ->] | [[=-> ->] | [[=-> ->] | [=-> ->]]]]; try reflexivity; lia.
Qed.

Lemma entry_canonical i v lh em o (need need' : Z) :
  i mod 256 <> 0 -> (need, need') = (2, 0) \/ (need, need') = (30, 28) ->
  infer (wctx i v lh em need o) = Ok (wctx (i + 1) v lh em need' (o ++ [canonical_encode (v_hash v)])).
Proof. intros Hi Hn. destruct Hn as [[=-> ->] | [=-> ->]]; infer_tac. Qed.

Lemma repeat_written i v lh em o (need : Z) fuel :
  i mod 256 = 0 -> need = 0 \/ need = 2 \/ need = 28 ->
  inferFull_ (S (S fuel)) (wctx i v lh em need o) =
  inferFull_ fuel (wctx (i + 2) v lh em (if need =? 2 then 0 else need) (o ++ chunk_entries v CRepeat)).
Proof.
  intros Hi Hn. erewrite infer_more; [| apply (entry_checkpoint _ _ _ _ _ _ (if need =? 28 then 30 else 2)); [by left | destruct Hn as [-> | [-> | ->]]; cbn; auto]].
  erewrite infer_more; [| apply (entry_canonical _ _ _ _ _ _ (if need =? 2 then 0 else need)); [mod_lia | destruct Hn as [-> | [-> | ->]]; cbn; auto]].
  rewrite <- app_assoc. do 2 f_equal. lia.
Qed.

Lemma settles fuel i v lh em o :
  inferFull_ (S (S (S fuel))) (wctx i v lh em 0 o) =
  (Ok (), wctx (i + chunks_len (repeats i)) v lh em 0 (o ++ entries v (repeats i))).
Proof.
  unfold repeats. destruct (Z.eqb_spec (i mod 256) 0) as [Hi | Hi].
  - rewrite repeat_written by (done || auto). change (if 0 =? 2 then 0 else 0) with 0. rewrite settled by mod_lia. done.
  - rewrite settled by done. cbn [entries]. change (chunks_len []) with 0. by rewrite app_nil_r, Z.add_0_r.
Qed.

(** ** Blocks *)

Definition seal_chunks (i : Z) (h : hash) (n t : Z) : list chunk :=
  if i mod 256 =? 255 then [CSplit h n t; CRepeat] else CSeal h n t :: repeats (i + 2).

Lemma seal_written i v h n t o :
  i = 0 \/ i mod 256 <> 0 ->
  let cs := seal_chunks i h n t in
  inferFull (wctx i (mkV h n t 0 false) zero_hash None 1 o) =
  (Ok (), wctx (i + chunks_len cs) (mkV h n t 0 false) zero_hash None 0 (o ++ entries v cs)).
Proof.
  intros Hi. cbv zeta. unfold inferFull, seal_chunks. set (w := mkV h n t 0 false).
  erewrite infer_more; [| apply (entry_checkpoint _ _ _ _ _ _ 2); [by right | auto]].
  destruct (Z.eqb_spec (i mod 256) 255) as [Hm | Hm].
  - rewrite repeat_written by (auto || mod_lia). change (if 2 =? 2 then 0 else 2) with 0. rewrite settled by mod_lia. f_equal. unfold wctx. f_equal.
    + rewrite !chunks_len_cons. change (chunks_len []) with 0. cbn. lia.
    + cbn [entries]. rewrite <- app_assoc. done.
  - erewrite infer_more; [| apply (entry_canonical _ _ _ _ _ _ 0); [mod_lia | auto]]. rewrite settles, <- !app_assoc, chunks_len_cons.
    replace (i + 1 + 1) with (i + 2) by lia. f_equal. unfold wctx. f_equal. cbn. lia.
Qed.

Lemma after_repeats i v : v_half v = false -> after v (repeats i) = v.
Proof. intros Hh. unfold repeats. destruct (i mod 256 =? 0); [| done]. destruct v. cbn in *. by subst. Qed.

Lemma after_seal i v h n t : after v (seal_chunks i h n t) = mkV h n t 0 false.
Proof. unfold seal_chunks. destruct (i mod 256 =? 255); [done |]. cbn [after fold_left chunk_next]. by apply after_repeats. Qed.

Lemma hist_repeats H i : fold_left hist_step (repeats i) H = H.
Proof. unfold repeats. by destruct (i mod 256 =? 0). Qed.

Lemma hist_seal_chunks H i h n t : fold_left hist_step (seal_chunks i h n t) H = hist_sealed (mkBlockSeal h n t) H.
Proof. unfold seal_chunks. destruct (i mod 256 =? 255); [done |]. cbn [fold_left hist_step]. apply hist_repeats. Qed.

Lemma repeats_ok i v : 0 < i -> v_ok v -> chunks_ok i v (repeats i).
Proof. intros Hi Hv. unfold repeats. destruct (Z.eqb_spec (i mod 256) 0); [| done]. split; [| done]. split_and!; [done | done | by right]. Qed.

Lemma seal_chunks_ok i v h n t :
  0 <= i -> i = 0 \/ i mod 256 <> 0 -> v_half v = false -> block_ok h n t -> i = 0 \/ (n = v_num v + 1 /\ v_time v <= t) ->
  chunks_ok i v (seal_chunks i h n t).
Proof.
  intros Hi0 Hi Hh Hb Hn. assert (v_ok (mkV h n t 0 true) /\ v_ok (mkV h n t 0 false)) as [Hv1 Hv2].
  { destruct Hb as (Hl & _ & Hr & Ht). unfold v_ok, in_range in *. cbn. split; split_and!; done || lia. }
  unfold seal_chunks. destruct (Z.eqb_spec (i mod 256) 255) as [Hm | Hm].
  - destruct Hn as [-> | Hn]; [done |]. cbn [chunks_ok chunk_ok chunk_next chunk_len]. split_and!; try done; [tauto | tauto | mod_lia | by left].
  - cbn [chunks_ok chunk_ok chunk_next chunk_len]. split; [by split_and! | apply repeats_ok; [lia | done]].
Qed.

(** ** Logs *)

Definition log_chunks (i : Z) (lh : hash) (em : option ExecutingMessage) : list chunk :=
  match em with
  | None => CLog lh None :: repeats (i + 1)
  | Some m =>
      if i mod 256 =? 255 then [CPad; CRepeat; CLog lh em]
      else if i mod 256 =? 254 then [CPad; CPad; CRepeat; CLog lh em]
      else CLog lh em :: repeats (i + 3)
  end.

Definition logged (v : vstate) : vstate := mkV (v_hash v) (v_num v) (v_time v) (v_logs v + 1) (v_half v).

Lemma count_logged i v lh em n o :
  0 <= v_logs v < 2 ^ 32 - 1 -> count_log (wctx i v lh em n o) = wctx i (logged v) lh em n o.
Proof. intros Hl. unfold count_log, wctx, set_logsSince, uadd. cbn. rewrite wrap_small by (unfold in_range; lia). done. Qed.

Lemma entry_plain i v lh o :
  i mod 256 <> 0 -> 0 <= v_logs v < 2 ^ 32 - 1 ->
  infer (wctx i v lh None 4 o) = Ok (wctx (i + 1) (logged v) lh None 0 (o ++ [initiating_encode (mkInitiatingEvent false lh)])).
Proof. intros Hi Hl. rewrite <- count_logged by done. infer_tac. Qed.

Lemma entry_exec i v lh m o :
  i mod 256 <> 0 -> i mod 256 <= 253 ->
  infer (wctx i v lh (Some m) 28 o) = Ok (wctx (i + 1) v lh (Some m) 24 (o ++ [initiating_encode (mkInitiatingEvent true lh)])).
Proof.
  intros Hi Hm. unfold infer, wctx. cbn [nextEntryIndex]. due. change (flag_Any _ FlagSearchCheckpoint) with false. change (flag_Any _ FlagCanonicalHash) with false.
  change (flag_Any _ FlagPadding) with false. change (flag_Any _ FlagPadding2) with false. change (flag_Any _ FlagInitiatingEvent) with true. cbv iota.
  unfold infer_initiating. cbn [nextEntryIndex execMsg]. change searchCheckpointFrequency with 256.
  rewrite !(proj2 (Z.eqb_neq (i mod 256) _)) by lia. reflexivity.
Qed.

Lemma entry_link i v lh m o :
  i mod 256 <> 0 -> message_ok m ->
  infer (wctx i v lh (Some m) 24 o) = Ok (wctx (i + 1) v lh (Some m) 16 (o ++ [link_encode (link_of m)])).
Proof.
  intros Hi Hm. unfold infer, wctx. cbn [nextEntryIndex]. due. change (flag_Any _ FlagSearchCheckpoint) with false. change (flag_Any _ FlagCanonicalHash) with false.
  change (flag_Any _ FlagPadding) with false. change (flag_Any _ FlagPadding2) with false. change (flag_Any _ FlagInitiatingEvent) with false.
  change (flag_Any _ FlagExecutingLink) with true. cbn [execMsg]. rewrite newExecutingLink_ok by done. reflexivity.
Qed.

Lemma entry_check i v lh m o :
  i mod 256 <> 0 -> 0 <= v_logs v < 2 ^ 32 - 1 ->
  infer (wctx i v lh (Some m) 16 o) = Ok (wctx (i + 1) (logged v) lh (Some m) 0 (o ++ [check_encode (m_Hash m)])).
Proof. intros Hi Hl. rewrite <- count_logged by done. infer_tac. Qed.

(** The three entries of a log with an executing message. *)
Lemma exec_written fuel i v lh m o :
  i mod 256 <> 0 -> i mod 256 <= 253 -> message_ok m -> 0 <= v_logs v < 2 ^ 32 - 1 ->
  inferFull_ (S (S (S fuel))) (wctx i v lh (Some m) 28 o) =
  inferFull_ fuel (wctx (i + 3) (logged v) lh (Some m) 0 (o ++ chunk_entries v (CLog lh (Some m)))).
Proof.
  intros Hi Hm Hmsg Hl. erewrite infer_more; [| by apply entry_exec]. erewrite infer_more; [| apply entry_link; [mod_lia | done]].
  erewrite infer_more; [| apply entry_check; [mod_lia | done]]. rewrite <- !app_assoc. do 2 f_equal. lia.
Qed.

(** Padding in front of a checkpoint. *)
Lemma pad_one fuel i v lh m o :
  i mod 256 = 255 ->
  inferFull_ (S (S fuel)) (wctx i v lh (Some m) 28 o) = inferFull_ fuel (wctx (i + 1) v lh (Some m) 28 (o ++ [padding_encode])).
Proof.
  intros Hi. rewrite (infer_more _ _ (wctx i v lh (Some m) 60 o)).
  - apply infer_more. infer_tac.
  - unfold infer, wctx. cbn [nextEntryIndex]. due. unfold infer_initiating. cbn [nextEntryIndex]. change searchCheckpointFrequency with 256. rewrite Hi. reflexivity.
Qed.

Lemma pad_two fuel i v lh m o :
  i mod 256 = 254 ->
  inferFull_ (S (S (S fuel))) (wctx i v lh (Some m) 28 o) =
  inferFull_ fuel (wctx (i + 2) v lh (Some m) 28 (o ++ [padding_encode; padding_encode])).
Proof.
  intros Hi. rewrite (infer_more _ _ (wctx i v lh (Some m) 124 o)).
  - rewrite (infer_more _ _ (wctx (i + 1) v lh (Some m) 92 (o ++ [padding_encode]))) by infer_tac.
    rewrite (infer_more _ _ (wctx (i + 1 + 1) v lh (Some m) 28 ((o ++ [padding_encode]) ++ [padding_encode]))) by infer_tac.
    rewrite <- app_assoc. do 2 f_equal. lia.
  - unfold infer, wctx. cbn [nextEntryIndex]. due. unfold infer_initiating. cbn [nextEntryIndex]. change searchCheckpointFrequency with 256. rewrite Hi. reflexivity.
Qed.

Definition log_need (em : option ExecutingMessage) : Z := match em with Some _ => 28 | None => 4 end.

Lemma log_written i v lh em o :
  i mod 256 <> 0 -> v_half v = false -> 0 <= v_logs v < 2 ^ 32 - 1 -> match em with Some m => message_ok m | None => True end ->
  let cs := log_chunks i lh em in
  inferFull (wctx i v lh em (log_need em) o) = (Ok (), wctx (i + chunks_len cs) (logged v) lh em 0 (o ++ entries v cs)).
Proof.
  intros Hi Hh Hl Hm. cbv zeta. unfold inferFull, log_chunks. destruct em as [m |]; cbn [log_need].
  - destruct (Z.eqb_spec (i mod 256) 255) as [E | Hne]; [| destruct (Z.eqb_spec (i mod 256) 254) as [E | Hne2]].
    + rewrite pad_one, repeat_written, exec_written, settled by (done || auto || mod_lia). f_equal. unfold wctx. f_equal.
      * rewrite !chunks_len_cons. change (chunks_len []) with 0. cbn. lia.
      * cbn [entries]. rewrite <- !app_assoc. done.
    + rewrite pad_two, repeat_written, exec_written, settled by (done || auto || mod_lia). f_equal. unfold wctx. f_equal.
      * rewrite !chunks_len_cons. change (chunks_len []) with 0. cbn. lia.
      * cbn [entries]. rewrite <- !app_assoc. done.
    + rewrite exec_written, settles by (done || mod_lia). f_equal. unfold wctx. f_equal; [rewrite chunks_len_cons; cbn; lia |].
      cbn [entries]. by rewrite <- app_assoc.
  - erewrite infer_more; [| by apply entry_plain]. rewrite settles. f_equal. unfold wctx. f_equal; [rewrite chunks_len_cons; cbn; lia |].
    cbn [entries]. by rewrite <- app_assoc.
Qed.

Lemma after_log i v lh em : v_half v = false -> after v (log_chunks i lh em) = logged v.
Proof.
  intros Hh. unfold log_chunks. destruct em as [m |]; [destruct (i mod 256 =? 255); [| destruct (i mod 256 =? 254)] |]; cbn [after fold_left chunk_next].
  1-2: unfold logged, whole; cbn; by rewrite Hh.
  1-2: by apply after_repeats.
Qed.

Lemma hist_log_chunks H i lh em : fold_left hist_step (log_chunks i lh em) H = hist_logged (lh, em) H.
Proof.
  unfold log_chunks. destruct em as [m |]; [destruct (i mod 256 =? 255); [| destruct (i mod 256 =? 254)] |]; cbn [fold_left hist_step]; try done;
    apply hist_repeats.
Qed.

Lemma log_chunks_ok i v lh em :
  0 < i -> i mod 256 <> 0 -> v_half v = false -> v_ok v -> length lh = 32%nat -> 0 <= v_logs v < 2 ^ 32 - 1 ->
  match em with Some m => message_ok m | None => True end -> chunks_ok i v (log_chunks i lh em).
Proof.
  intros Hi Hm Hh Hv Hlh Hl Hem. assert (v_ok (logged v)) as Hv' by (destruct Hv as (? & ? & ? & ?); unfold v_ok, in_range in *; cbn; split_and!; done || lia).
  assert (v_logs (whole v) = v_logs v) as Hw by done.
  unfold log_chunks. destruct em as [m |]; [destruct (Z.eqb_spec (i mod 256) 255); [| destruct (Z.eqb_spec (i mod 256) 254)] |].
  - cbn [chunks_ok chunk_ok chunk_next chunk_len]. split_and!; try done; (by right; mod_lia) || mod_lia.
  - cbn [chunks_ok chunk_ok chunk_next chunk_len]. split_and!; try done; (by right; mod_lia) || mod_lia.
  - cbn [chunks_ok chunk_ok chunk_next chunk_len]. split; [split_and!; try done; mod_lia | apply repeats_ok; [lia | done]].
  - cbn [chunks_ok chunk_ok chunk_next chunk_len]. split; [split_and!; try done; mod_lia | apply repeats_ok; [lia | done]].
Qed.

(** Entries have 34 bytes. *)
Lemma log_chunk_sized i v c : chunk_ok i v c -> Forall (fun e => zlen e = EntrySize) (chunk_entries v c).
Proof.
  intros Hok. assert (forall s, zlen (checkpoint_encode s) = EntrySize) as Hcp
    by (intros; unfold zlen, checkpoint_encode; rewrite !length_app, !length_le_encode; done).
  assert (forall h, length h = 32%nat -> zlen (canonical_encode h) = EntrySize) as Hca
    by (intros h Hh; unfold zlen, canonical_encode; rewrite !length_app, Hh; done).
  assert (forall h, length h = 32%nat -> zlen (check_encode h) = EntrySize) as Hck
    by (intros h Hh; unfold zlen, check_encode; rewrite !length_app, Hh; done).
  assert (forall b h, length h = 32%nat -> zlen (initiating_encode (mkInitiatingEvent b h)) = EntrySize) as Hin
    by (intros b h Hh; unfold zlen, initiating_encode; rewrite !length_app; cbn; rewrite Hh; done).
  assert (forall l, zlen (link_encode l) = EntrySize) as Hlk
    by (intros; unfold zlen, link_encode; rewrite !length_app, !length_le_encode; done).
  destruct c as [h n t | h n t | | | lh [m |]]; cbn [chunk_entries]; repeat apply Forall_cons_2; try apply Forall_nil_2; auto.
  - apply Hca. by destruct Hok as (_ & _ & (? & _) & _).
  - apply Hca. by destruct Hok as ((? & _) & _).
  - apply Hin. by destruct Hok as (_ & _ & _ & ? & _).
  - apply Hck. destruct Hok as (_ & _ & _ & _ & _ & Hm). by destruct Hm as (_ & _ & _ & _ & ?).
  - apply Hin. by destruct Hok as (_ & _ & _ & ? & _).
Qed.

Lemma entries_sized i v cs : chunks_ok i v cs -> Forall (fun e => zlen e = EntrySize) (entries v cs).
Proof.
  revert i v. induction cs as [|c cs IH]; intros i v Hok; [constructor |]. destruct Hok as [Hc Hok]. apply Forall_app. split; [by eapply log_chunk_sized | by eapply IH].
Qed.

(** ** Operations on histories *)

Definition hist_last (H : history) : BlockSeal := match list.last (h_blocks H) with Some b => lb_seal b | None => zero_seal end.
Definition hist_latest (H : history) : option BlockID := (fun b => seal_ID (lb_seal b)) <$> list.last (h_blocks H).

(** The first block is free; the next one has the next number and is not older. *)
Definition hist_seal (parent : hash) (block : BlockID) (t : Z) (H : history) : outcome history :=
  let sealed := hist_sealed (mkBlockSeal (b_Hash block) (b_Number block) t) H in
  match list.last (h_blocks H) with
  | None => Ok sealed
  | Some b =>
      if bool_decide (s_Hash (lb_seal b) = parent) && (lb_num b + 1 =? b_Number block) && (s_Timestamp (lb_seal b) <=? t)
      then Ok sealed else Err ErrConflict
  end.

Definition hist_log (lh : hash) (parent : BlockID) (idx : Z) (em : option ExecutingMessage) (H : history) : outcome history :=
  match list.last (h_blocks H) with
  | None => Err ErrOutOfOrder
  | Some b =>
      if bool_decide (seal_ID (lb_seal b) = parent) && (idx =? zlen (h_open H)) then Ok (hist_logged (lh, em) H) else Err ErrOutOfOrder
  end.

Definition hist_rewind (head : BlockID) (H : history) : outcome history :=
  sl ← hist_find H (b_Number head);
  if bool_decide (s_Hash sl = b_Hash head) then Ok (mkHistory (filter (fun b => lb_num b <= b_Number head) (h_blocks H)) [])
  else Err ErrConflict.

Section Writes.
Context {St : Type} `{ES : !EntryStore (list Z) St} {contents : St -> list (list Z)} {good : St -> Prop}.
Context `{SL : !EntryStoreLaws (list Z) St (fun e => zlen e = EntrySize) contents good}.

(** The chunks in the store and the chunks that wait in the context. *)
Record log_holds (cs1 cs2 : list chunk) (db : DB St) : Prop := mkLogHolds {
  ho_good : good (store db);
  ho_contents : contents (store db) = entries v0 cs1;
  ho_ok : chunks_ok 0 v0 (cs1 ++ cs2);
  ho_whole : v_half (after v0 cs1) = false;
  ho_seen : v_half (after v0 (cs1 ++ cs2)) = false;
  ho_context : exists lh em, lastEntryContext db =
    wctx (chunks_len (cs1 ++ cs2)) (after v0 (cs1 ++ cs2)) lh em 0 (entries (after v0 cs1) cs2);
}.

Lemma holds_kept_ok cs1 cs2 db : log_holds cs1 cs2 db -> chunks_ok 0 v0 cs1.
Proof. intros [_ _ Hok _ _ _]. by apply chunks_ok_app in Hok as [? _]. Qed.

Lemma holds_indexed cs1 cs2 db : log_holds cs1 cs2 db -> indexed (store db) cs1 db.
Proof.
  intros [_ _ _ _ _ (lh & em & Hc)]. split; [done |]. rewrite Hc. cbn. intros E%chunks_len_zero. by destruct cs1.
Qed.

(** Writing the context out. *)
Lemma flush_holds cs1 cs2 db :
  log_holds cs1 cs2 db ->
  let '(r, db') := flush db in
  db_chainID db' = db_chainID db /\ ((r = Ok () /\ log_holds (cs1 ++ cs2) [] db') \/ ((exists e, r = Err e) /\ log_holds cs1 cs2 db')).
Proof using SL.
  intros [Hg Hc Hok Hw Hs (lh & em & Hl)]. unfold flush. rewrite Hl. cbn [wctx out].
  pose proof (append_law (store db) (entries (after v0 cs1) cs2) Hg) as Ha.
  assert (Forall (fun e => zlen e = EntrySize) (entries (after v0 cs1) cs2)) as Hsz by (apply chunks_ok_app in Hok as [_ Hok2]; by eapply entries_sized).
  specialize (Ha Hsz). destruct (store_Append _ _) as [r s']. destruct Ha as [Hg' [[-> Hc'] | [[e ->] Hc']]].
  - split; [done | left]. split; [done |]. split; cbn [store lastEntryContext]; rewrite ?app_nil_r; try done.
    + by rewrite Hc', Hc, entries_app.
    + by exists lh, em.
  - split; [done | right]. split; [by exists e |]. split; cbn [store set_store lastEntryContext]; try done; [by rewrite Hc' |]. by exists lh, em.
Qed.

(** A database with the history in its store and the history it has seen. *)
Definition log_state (db : DB St) (kept seen : history) : Prop :=
  exists cs1 cs2, log_holds cs1 cs2 db /\ kept = hist cs1 /\ seen = hist (cs1 ++ cs2).

(** The outcome of a write on histories: done and written, seen but not written, or
    refused. *)
Definition writes (spec : outcome history) (kept seen : history) (r : outcome unit) (db : DB St) : Prop :=
  match spec with
  | Ok H => (r = Ok () /\ log_state db H H) \/ ((exists e, r = Err e) /\ log_state db kept H)
  | Err e => r = Err e /\ log_state db kept seen
  | Panic _ => False
  end.

(** An operation of the context that adds chunks, or refuses. *)
Definition ctx_refines (op : stage logContext unit) (cs : list chunk) (spec : outcome history) : Prop :=
  forall lh em o, exists r cs3 lh' em',
    op (wctx (chunks_len cs) (after v0 cs) lh em 0 o) =
      (r, wctx (chunks_len (cs ++ cs3)) (after v0 (cs ++ cs3)) lh' em' 0 (o ++ entries (after v0 cs) cs3)) /\
    chunks_ok (chunks_len cs) (after v0 cs) cs3 /\ v_half (after v0 (cs ++ cs3)) = false /\
    match spec with
    | Ok H => r = Ok () /\ hist (cs ++ cs3) = H
    | Err e => r = Err e /\ hist (cs ++ cs3) = hist cs
    | Panic _ => False
    end.

Lemma write_refines op cs1 cs2 db spec :
  log_holds cs1 cs2 db -> ctx_refines op (cs1 ++ cs2) spec ->
  let '(r, db') := apply_context op db in
  db_chainID db' = db_chainID db /\ writes spec (hist cs1) (hist (cs1 ++ cs2)) r db'.
Proof using SL.
  intros [Hg Hc Hok Hw Hs (lh & em & Hl)] Hop. destruct (Hop lh em (entries (after v0 cs1) cs2)) as (r & cs3 & lh' & em' & E & Hok3 & Hh & Hspec).
  unfold apply_context. rewrite Hl, E. set (db1 := set_context _ db).
  assert (log_holds cs1 (cs2 ++ cs3) db1) as Hdb1.
  { split; cbn [db1 set_context store lastEntryContext]; try done.
    - rewrite app_assoc. apply chunks_ok_app. by rewrite Z.add_0_l.
    - by rewrite app_assoc.
    - exists lh', em'. by rewrite app_assoc, entries_app, <- after_app. }
  destruct spec as [H' | e | e]; [| | done].
  - destruct Hspec as [-> <-]. pose proof (flush_holds _ _ _ Hdb1) as Hf. destruct (flush db1) as [r db']. destruct Hf as [Hchain [[-> Hf] | [He Hf]]].
    + split; [done | left]. split; [done |]. exists (cs1 ++ cs2 ++ cs3), []. by rewrite app_nil_r, app_assoc in *.
    + split; [done | right]. split; [done |]. exists cs1, (cs2 ++ cs3). by rewrite app_assoc.
  - destruct Hspec as [-> Hhist]. split; [done |]. split; [done |]. exists cs1, (cs2 ++ cs3). by rewrite app_assoc.
Qed.

End Writes.

(** ** Sealing *)

Lemma settled_index i : 0 < i -> (i + chunks_len (repeats i)) mod 256 <> 0.
Proof.
  intros Hi. unfold repeats. destruct (Z.eqb_spec (i mod 256) 0); rewrite ?chunks_len_cons; change (chunks_len []) with 0; [cbn [chunk_len]; mod_lia | by rewrite Z.add_0_r].
Qed.

Lemma last_tracks H v : tracks H v -> exists b, list.last (h_blocks H) = Some b /\ lb_seal b = seal_of v.
Proof. intros [(bs & b & -> & Hb) _ _ _]. exists b. by rewrite last_snoc. Qed.

Lemma num_bound cs : chunks_ok 0 v0 cs -> v_num (after v0 cs) < 2 ^ 64 - 1.
Proof.
  induction cs as [|c cs IH] using rev_ind; [done |]. intros (Hcs & Hc & _)%chunks_ok_app. rewrite after_app. specialize (IH Hcs).
  destruct c as [h n t | h n t | | | lh em]; cbn [after fold_left chunk_next v_num whole] in *; try done.
  - destruct Hc as (_ & _ & (_ & _ & Hn & _) & _). lia.
  - destruct Hc as (_ & _ & (_ & _ & Hn & _) & _). lia.
Qed.

(** What is needed of a context that has seen a block. *)
Record seen_block (cs : list chunk) (b : lblock) : Prop := mkSeenBlock {
  sb_last : list.last (h_blocks (hist cs)) = Some b;
  sb_seal : lb_seal b = seal_of (after v0 cs);
  sb_hash : v_hash (after v0 cs) <> zero_hash;
  sb_num : v_num (after v0 cs) < 2 ^ 64 - 1;
  sb_pos : 0 < chunks_len cs;
  sb_ok : v_ok (after v0 cs);
  sb_logs : v_logs (after v0 cs) = zlen (h_open (hist cs));
}.

Lemma seen_block_exists cs : chunks_ok 0 v0 cs -> cs <> [] -> exists b, seen_block cs b.
Proof.
  intros Hok Hne. pose proof (hist_tracks cs Hok Hne) as Ht. destruct (last_tracks _ _ Ht) as (b & Hl & Hb). exists b.
  pose proof Ht as [(bs & b' & Hbs & Hb') Ho _ Hall]. split; try done.
  - rewrite Hbs in Hall. apply Forall_app in Hall as [_ Hall]. inversion Hall as [|? ? Hz _]; subst. by rewrite Hb' in Hz.
  - by apply num_bound.
  - pose proof (chunks_len_nonneg cs). assert (chunks_len cs <> 0) by (intros ?%chunks_len_zero; done). lia.
  - by eapply after_ok, v0_ok.
Qed.

(** Refused after settling. *)
Lemma refused_after cs e (op : stage logContext unit) lh em o :
  chunks_ok 0 v0 cs -> v_half (after v0 cs) = false -> 0 < chunks_len cs -> v_ok (after v0 cs) ->
  let i := chunks_len cs in
  op (wctx i (after v0 cs) lh em 0 o) = (Err e, wctx (i + chunks_len (repeats i)) (after v0 cs) lh em 0 (o ++ entries (after v0 cs) (repeats i))) ->
  exists r cs3 lh' em', op (wctx (chunks_len cs) (after v0 cs) lh em 0 o) =
      (r, wctx (chunks_len (cs ++ cs3)) (after v0 (cs ++ cs3)) lh' em' 0 (o ++ entries (after v0 cs) cs3)) /\
    chunks_ok (chunks_len cs) (after v0 cs) cs3 /\ v_half (after v0 (cs ++ cs3)) = false /\ r = Err e /\ hist (cs ++ cs3) = hist cs.
Proof.
  intros Hok Hh Hpos Hv i Hop. exists (Err e), (repeats i), lh, em. rewrite chunks_len_app, after_app, after_repeats, hist_app, hist_repeats by done.
  split_and!; [done | by apply repeats_ok | done | done | done].
Qed.

(** Chunks behind the settled context. *)
Lemma settled_chunks cs cs3 o r (op : stage logContext unit) lh em lh' em' w H :
  chunks_ok 0 v0 cs -> v_half (after v0 cs) = false -> 0 < chunks_len cs -> v_ok (after v0 cs) ->
  let i := chunks_len cs in let i' := i + chunks_len (repeats i) in
  op (wctx i (after v0 cs) lh em 0 o) = (r, wctx (i' + chunks_len cs3) w lh' em' 0 ((o ++ entries (after v0 cs) (repeats i)) ++ entries (after v0 cs) cs3)) ->
  after (after v0 cs) cs3 = w -> v_half w = false -> chunks_ok i' (after v0 cs) cs3 -> fold_left hist_step cs3 (hist cs) = H -> r = Ok () ->
  exists r cs3 lh' em', op (wctx (chunks_len cs) (after v0 cs) lh em 0 o) =
      (r, wctx (chunks_len (cs ++ cs3)) (after v0 (cs ++ cs3)) lh' em' 0 (o ++ entries (after v0 cs) cs3)) /\
    chunks_ok (chunks_len cs) (after v0 cs) cs3 /\ v_half (after v0 (cs ++ cs3)) = false /\ r = Ok () /\ hist (cs ++ cs3) = H.
Proof.
  intros Hok Hh Hpos Hv. cbv zeta. intros Hop Hw Hwh Hok3 HH Hr. exists r, (repeats (chunks_len cs) ++ cs3), lh', em'.
  rewrite Hop, !chunks_len_app, !after_app, entries_app, hist_app, fold_left_app, hist_repeats, !after_repeats, Hw by done.
  split_and!; try done; [by rewrite app_assoc, Z.add_assoc |]. apply chunks_ok_app. split; [by apply repeats_ok | by rewrite after_repeats].
Qed.

Lemma SealBlock_refines cs parent block t :
  chunks_ok 0 v0 cs -> v_half (after v0 cs) = false -> block_ok (b_Hash block) (b_Number block) t ->
  ctx_refines (ctx_SealBlock parent block t) cs (hist_seal parent block t (hist cs)).
Proof.
  intros Hok Hh Hb lh em o. destruct (decide (cs = [])) as [-> | Hne].
  { exists (Ok ()), (seal_chunks 0 (b_Hash block) (b_Number block) t), zero_hash, None. cbn [hist_seal hist fold_left no_history h_blocks list.last app].
    rewrite after_seal. split_and!; [exact (seal_written 0 v0 _ _ _ o ltac:(by left)) | apply seal_chunks_ok; auto; lia | done | done |].
    apply (hist_seal_chunks no_history). }
  destruct (seen_block_exists cs Hok Hne) as (b & [Hlast Hsl Hz Hn Hpos Hv _]). pose proof (settled_index _ Hpos) as Hset.
  unfold hist_seal. rewrite Hlast. unfold lb_num. rewrite Hsl. cbn [seal_of s_Hash s_Number s_Timestamp].
  assert (forall l, inferFull (wctx (chunks_len cs) (after v0 cs) lh em 0 o) = (Ok (), l) ->
            ctx_SealBlock parent block t (wctx (chunks_len cs) (after v0 cs) lh em 0 o) =
            match check_seal parent block t l with Ok _ => inferFull (set_block block t l) | e => (e, l) end) as Hctx.
  { intros l E. unfold ctx_SealBlock. change (nextEntryIndex (wctx _ _ _ _ _ _)) with (chunks_len cs). by rewrite (proj2 (Z.eqb_neq _ _)), E by lia. }
  specialize (Hctx _ (settles 7 _ _ _ _ _)). unfold check_seal in Hctx. cbn [wctx blockHash blockNum timestamp] in Hctx.
  unfold uadd in Hctx. destruct Hv as (Hv1 & Hv2 & Hv3). rewrite (bool_decide_false (_ = zero_hash)), wrap_small in Hctx by (done || (unfold in_range in *; lia)).
  cbn [negb andb] in Hctx. assert (v_ok (after v0 cs)) as Hv by done. rewrite Z.ltb_antisym in Hctx.
  destruct (bool_decide (v_hash (after v0 cs) = parent)); cbn [negb andb] in Hctx |- *; [| by apply refused_after].
  destruct (Z.eqb_spec (v_num (after v0 cs) + 1) (b_Number block)) as [En |]; cbn [negb andb] in Hctx |- *; [| by apply refused_after].
  destruct (Z.leb_spec (v_time (after v0 cs)) t) as [Et |]; cbn [negb andb] in Hctx |- *; [| by apply refused_after].
  set (i' := chunks_len cs + chunks_len (repeats (chunks_len cs))) in *.
  apply (settled_chunks cs (seal_chunks i' (b_Hash block) (b_Number block) t) o (Ok ()) _ lh em zero_hash None (mkV (b_Hash block) (b_Number block) t 0 false));
    try done; [rewrite Hctx; exact (seal_written _ (after v0 cs) _ _ _ (o ++ entries (after v0 cs) (repeats (chunks_len cs))) (or_intror Hset)) | apply after_seal | | apply hist_seal_chunks].
  pose proof (chunks_len_nonneg (repeats (chunks_len cs))). apply seal_chunks_ok; auto; unfold i'; lia.
Qed.

Lemma ApplyLog_refines cs parent idx lh em :
  chunks_ok 0 v0 cs -> v_half (after v0 cs) = false -> cs <> [] \/ parent = zero_id ->
  length lh = 32%nat -> idx < 2 ^ 32 - 1 -> match em with Some m => message_ok m | None => True end ->
  ctx_refines (ApplyLog parent idx lh em) cs (hist_log lh parent idx em (hist cs)).
Proof.
  intros Hok Hh Hcs Hlh Hidx Hem lh0 em0 o. destruct (decide (parent = zero_id)) as [-> | Hp].
  { unfold ApplyLog. rewrite bool_decide_true by done. exists (Err ErrOutOfOrder), [], lh0, em0. cbn [entries]. rewrite !app_nil_r. split_and!; try done.
    unfold hist_log. destruct (list.last _) as [b |] eqn:El; [| done]. destruct (decide (cs = [])) as [-> | Hne]; [done |].
    destruct (seen_block_exists cs Hok Hne) as (b' & [Hlast Hsl Hz _ _ _ _]). rewrite bool_decide_false; [done |].
    rewrite El in Hlast. injection Hlast as ->. rewrite Hsl. unfold seal_ID, zero_id. cbn. by intros [= ? _]. }
  destruct Hcs as [Hne | ->]; [| done].
  destruct (seen_block_exists cs Hok Hne) as (b & [Hlast Hsl Hz Hn Hpos Hv Hlogs]). pose proof (settled_index _ Hpos) as Hset.
  unfold hist_log. rewrite Hlast, Hsl, <- Hlogs.
  assert (forall l, inferFull (wctx (chunks_len cs) (after v0 cs) lh0 em0 0 o) = (Ok (), l) ->
            ApplyLog parent idx lh em (wctx (chunks_len cs) (after v0 cs) lh0 em0 0 o) =
            match check_log parent idx l with Ok _ => inferFull (set_log lh em l) | e => (e, l) end) as Hctx
    by (intros l E; unfold ApplyLog; by rewrite bool_decide_false, E).
  specialize (Hctx _ (settles 7 _ _ _ _ _)). unfold check_log in Hctx. change (hasCompleteBlock _) with true in Hctx. cbn [negb wctx blockHash blockNum logsSince] in Hctx.
  assert (bool_decide (seal_ID (seal_of (after v0 cs)) = parent) =
          bool_decide (v_hash (after v0 cs) = b_Hash parent) && (v_num (after v0 cs) =? b_Number parent)) as ->.
  { destruct parent as [ph pn]. unfold seal_ID, seal_of. cbn. destruct (Z.eqb_spec (v_num (after v0 cs)) pn) as [-> | E].
    - rewrite andb_true_r. apply bool_decide_ext. split; [by intros [= ->] | by intros ->].
    - rewrite andb_false_r. apply bool_decide_false. intros [= _ ?]. done. }
  destruct (bool_decide (v_hash (after v0 cs) = b_Hash parent)); cbn [negb andb] in Hctx |- *; [| by apply refused_after].
  destruct (v_num (after v0 cs) =? b_Number parent); cbn [negb andb] in Hctx |- *; [| by apply refused_after].
  destruct (Z.eqb_spec idx (v_logs (after v0 cs))) as [Ei |]; cbn [negb andb] in Hctx |- *; [| by apply refused_after].
  assert (0 <= v_logs (after v0 cs) < 2 ^ 32 - 1) as Hrange by (destruct Hv as (_ & _ & _ & Hl); unfold in_range in Hl; lia).
  set (i' := chunks_len cs + chunks_len (repeats (chunks_len cs))) in *.
  apply (settled_chunks cs (log_chunks i' lh em) o (Ok ()) _ lh0 em0 lh em (logged (after v0 cs)));
    try done; [rewrite Hctx; etrans; [| exact (log_written _ (after v0 cs) lh em (o ++ entries (after v0 cs) (repeats (chunks_len cs))) Hset Hh Hrange Hem)]; by destruct em | by apply after_log | | apply hist_log_chunks].
  pose proof (chunks_len_nonneg (repeats (chunks_len cs))). apply log_chunks_ok; auto; unfold i'; lia.
Qed.

(** ** Opening and rewinding *)

Lemma rctx_wctx p : v_half (p_v p) = false -> rctx p = wctx (p_i p) (p_v p) (p_lh p) (p_em p) 0 [].
Proof. intros Hh. unfold rctx, wctx. by rewrite Hh. Qed.

Section Opening.
Context {St : Type} `{ES : !EntryStore (list Z) St} {contents : St -> list (list Z)} {good : St -> Prop}.
Context `{SL : !EntryStoreLaws (list Z) St (fun e => zlen e = EntrySize) contents good}.

Lemma last_context_spec s cs :
  good s -> contents s = entries v0 cs -> chunks_ok 0 v0 cs -> v_half (after v0 cs) = false ->
  exists lh em, last_context s = Ok (wctx (chunks_len cs) (after v0 cs) lh em 0 []).
Proof using SL.
  intros Hg Hc Hok Hh. unfold last_context. rewrite (last_law s) by done. rewrite Hc, length_entries.
  destruct (decide (cs = [])) as [-> | Hne]; [by exists zero_hash, None |].
  destruct (seen_block_exists cs Hok Hne) as (b & Hsb). pose proof (sb_pos _ _ Hsb) as Hpos. rewrite (proj2 (Z.ltb_ge _ _)) by lia.
  change searchCheckpointFrequency with 256. rewrite Z.quot_div_nonneg by lia. set (k := (chunks_len cs - 1) / 256).
  destruct (checkpoint_exists s Hg cs Hc Hok k) as (dn & rest & Hca); [unfold k; mod_lia | unfold k; mod_lia |].
  change (add_need FlagCanonicalHash (newIterator (k * 256))) with (start_at (k * 256)). rewrite (End_start s Hg _ _ _ (ca_at _ _ _ _ _ Hca)).
  set (p := p_end (start_pos (k * 256) (after v0 dn)) (CRepeat :: rest)). pose proof (reached_end _ _ _ rest [] ltac:(rewrite app_nil_r; exact (checkpoint_reached _ _ _ _ _ Hca))) as Hr.
  change (p_end (adv (start_pos (k * 256) (after v0 dn)) CRepeat) rest) with p in Hr. destruct Hr as (E & Hi & Hv). rewrite app_nil_r in E. rewrite <- E in Hi, Hv.
  exists (p_lh p), (p_em p). rewrite rctx_wctx by (by rewrite Hv). by rewrite Hi, Hv.
Qed.

Lemma trim_nothing s dn c :
  good s -> contents s = entries v0 (dn ++ [c]) -> is_check c = true -> trimToLastSealed s = (Ok (), s).
Proof using SL.
  intros Hg Hc Hk. unfold trimToLastSealed. rewrite (last_law s) by done. rewrite Hc, length_entries, chunks_len_app, chunks_len_cons.
  change (chunks_len []) with 0. assert (chunk_len c = 2) as -> by (by destruct c). pose proof (chunks_len_nonneg dn).
  set (last := chunks_len dn + (2 + 0) - 1). destruct (Z.to_nat (last + 1)) as [|f] eqn:Ef; [lia |]. cbn [last_sealed]. rewrite (proj2 (Z.ltb_ge _ _)) by lia.
  rewrite (read_law s) by (done || lia). rewrite Hc, entries_app.
  assert (exists h, (entries v0 dn ++ entries (after v0 dn) [c]) !! Z.to_nat last = Some (canonical_encode h)) as [h ->].
  { assert (Z.to_nat last = length (entries v0 dn) + 1)%nat as -> by (pose proof (length_entries v0 dn); unfold zlen in *; lia).
    rewrite lookup_app_r by lia. replace (length (entries v0 dn) + 1 - length (entries v0 dn))%nat with 1%nat by lia. destruct c; try done; eauto. }
  cbn [mbind outcome_bind]. change (entry_Type (canonical_encode h) =? TypeCanonicalHash) with true. cbv iota. by rewrite Z.ltb_irrefl.
Qed.

Lemma filter_all_of {A} (P : A -> Prop) `{!forall x, Decision (P x)} (l : list A) : (forall x, x ∈ l -> P x) -> filter P l = l.
Proof.
  induction l as [|x l IH]; intros Hl; [done |]. rewrite filter_cons_True by (apply Hl; left). f_equal. apply IH. intros y Hy. apply Hl. by right.
Qed.

Lemma filter_none_of {A} (P : A -> Prop) `{!forall x, Decision (P x)} (l : list A) : (forall x, x ∈ l -> ~ P x) -> filter P l = [].
Proof.
  induction l as [|x l IH]; intros Hl; [done |]. rewrite filter_cons_False by (apply Hl; left). apply IH. intros y Hy. apply Hl. by right.
Qed.

(** Blocks up to a number. *)
Lemma blocks_up_to k bs b more :
  numbered k (bs ++ b :: more) -> filter (fun x => lb_num x <= lb_num b) (bs ++ b :: more) = bs ++ [b].
Proof.
  intros Hn. assert (lb_num b = k + zlen bs) as Hb by (apply Hn; by rewrite lookup_app_r, Nat.sub_diag).
  rewrite list.filter_app, filter_cons_True by lia. f_equal.
  - apply filter_all_of. intros x Hx. pose proof (numbered_le k bs (b :: more) x Hn Hx). lia.
  - f_equal. apply filter_none_of. intros x (i & Hi)%list_elem_of_lookup.
    rewrite (Hn (length bs + S i)%nat x); [unfold zlen in Hb; lia |]. rewrite lookup_app_r by lia. by replace (length bs + S i - length bs)%nat with (S i) by lia.
Qed.

Lemma init_holds s chain l dn c :
  good s -> contents s = entries v0 (dn ++ [c]) -> chunks_ok 0 v0 (dn ++ [c]) -> is_check c = true ->
  exists db', init true (mkDB s chain l) = (Ok (), db') /\ db_chainID db' = chain /\ log_holds (contents := contents) (good := good) (dn ++ [c]) [] db'.
Proof using SL.
  intros Hg Hc Hok Hk. assert (v_half (after v0 (dn ++ [c])) = false) as Hh by (rewrite after_app; by destruct c).
  unfold init. cbn [store]. rewrite (trim_nothing s dn c) by done. destruct (last_context_spec s _ Hg Hc Hok Hh) as (lh & em & ->).
  eexists. split; [done |]. split; [done |]. split; cbn [store lastEntryContext]; rewrite ?app_nil_r; try done. by exists lh, em.
Qed.

Lemma Rewind_refines cs1 cs2 db head :
  log_holds (contents := contents) (good := good) cs1 cs2 db ->
  let '(r, db') := Rewind head db in
  db_chainID db' = db_chainID db /\
  match hist_rewind head (hist cs1) with
  | Ok H => (r = Ok () /\ log_state (contents := contents) (good := good) db' H H) \/ ((exists e, r = Err e) /\ log_state (contents := contents) (good := good) db' (hist cs1) (hist (cs1 ++ cs2)))
  | Err e => r = Err e /\ log_state (contents := contents) (good := good) db' (hist cs1) (hist (cs1 ++ cs2))
  | Panic _ => False
  end.
Proof using SL.
  intros Hdb. pose proof Hdb as [Hg Hc _ Hw Hs (lh & em & Hl)]. pose proof (holds_kept_ok _ _ _ Hdb) as Hok.
  assert (log_state (contents := contents) (good := good) db (hist cs1) (hist (cs1 ++ cs2))) as Hsame by (by exists cs1, cs2).
  unfold Rewind, rewind_target, hist_rewind.
  pose proof (newIteratorAt_block (store db) Hg cs1 Hc Hok Hw db (b_Number head) (holds_indexed _ _ _ Hdb)) as Hn.
  destruct (hist_find (hist cs1) (b_Number head)) as [sl | e | e]; [| by rewrite Hn | done].
  destruct Hn as (p & dn & rest & -> & Hr & (Hnum & Hlg & Hh & dn' & c & -> & Hk) & ->). cbn [mbind outcome_bind]. rewrite SealedBlock_rctx by done.
  cbn [seal_of s_Hash]. destruct (bool_decide (v_hash (p_v p) = b_Hash head)); cbn [negb]; [| done]. change (nextEntryIndex (rctx p)) with (p_i p).
  assert (dn' ++ [c] <> []) as Hne by (by destruct dn'). pose proof (reached_pos _ _ _ _ Hr Hne) as Hpos.
  pose proof (reached_tracks cs1 Hok _ _ _ Hr Hne) as Ht. pose proof (proj1 (reached_ok cs1 Hok _ _ _ Hr)) as Hokd.
  pose proof Hr as (E & Hi & Hv).
  assert (p_i p <= zlen (contents (store db))) as Hle by (rewrite Hc, length_entries, Hi, E, (chunks_len_app (dn' ++ [c]) rest); pose proof (chunks_len_nonneg rest); lia).
  assert (-1 <= p_i p - 1 < zlen (contents (store db))) as Hlt by lia. pose proof (truncate_law (store db) (p_i p - 1) Hg Hlt) as Htr. destruct (store_Truncate (p_i p - 1) (store db)) as [r s'].
  destruct Htr as [Hg' [[-> Hc'] | [[e ->] Hc']]].
  - assert (contents s' = entries v0 (dn' ++ [c])) as Hcs.
    { rewrite Hc', Hc, E, entries_app, Z.sub_add, Hi, <- (length_entries v0 (dn' ++ [c])). unfold zlen. rewrite Nat2Z.id. apply take_app_length. }
    destruct (init_holds s' (db_chainID db) (lastEntryContext db) dn' c Hg' Hcs Hokd Hk) as (db' & Hinit & Hchain & Hholds).
    unfold set_store. rewrite Hinit. split; [done | left]. split; [done |]. exists (dn' ++ [c]), []. rewrite app_nil_r.
    assert (mkHistory (filter (fun b => lb_num b <= b_Number head) (h_blocks (hist cs1))) [] = hist (dn' ++ [c])) as HH; [| by split_and!].
    destruct Ht as [(bs & b & Hbs & Hb) Ho _ _]. destruct (reached_all cs1 Hok _ _ _ Hr Hne) as [(k & _ & Hnums & _)%tracks_num Eall].
    destruct (blocks_grow rest (hist (dn' ++ [c]))) as [more Hm]. rewrite Hm in Hnums. rewrite Eall in Hm. rewrite Hm. rewrite Hbs, <- app_assoc in Hnums |- *. cbn [app] in *.
    assert (b_Number head = lb_num b) as -> by (unfold lb_num; rewrite Hb; cbn; congruence). rewrite (blocks_up_to k) by done.
    rewrite Hlg in Ho. destruct (hist (dn' ++ [c])) as [bs' o]. cbn [h_blocks h_open] in *. subst bs'. destruct o; [done | unfold zlen in Ho; cbn in Ho; lia].
  - split; [done | right]. split; [by exists e |]. exists cs1, cs2. split_and!; [| done | done]. pose proof Hdb as [_ _ Hok2 _ _ _].
    split; cbn [set_store store lastEntryContext]; try done; [by rewrite Hc' |]. by exists lh, em.
Qed.

(** *** Recovery *)

(** The last place up to an index where a checkpoint ends. *)
Definition last_check (n : Z) (cs dn : list chunk) : Prop :=
  (dn = [] \/ exists dn' c, dn = dn' ++ [c] /\ is_check c = true) /\ (exists rest, cs = dn ++ rest) /\ chunks_len dn <= n /\
  forall dn' c rest, cs = dn' ++ c :: rest -> is_check c = true -> chunks_len (dn' ++ [c]) <= n -> chunks_len (dn' ++ [c]) <= chunks_len dn.

Lemma last_sealed_spec s fuel i :
  good s -> -1 <= i < zlen (contents s) -> (Z.to_nat (i + 1) <= fuel)%nat ->
  exists j, last_sealed fuel s i = Ok j /\ -1 <= j <= i /\
    (j = -1 \/ exists e, contents s !! Z.to_nat j = Some e /\ entry_Type e = TypeCanonicalHash) /\
    forall k e, j < k <= i -> contents s !! Z.to_nat k = Some e -> entry_Type e <> TypeCanonicalHash.
Proof using SL.
  intros Hg. revert i. induction fuel as [|fuel IH]; intros i Hi Hf; cbn [last_sealed]; destruct (Z.ltb_spec i 0) as [Hn | Hp].
  1,3: exists i; split_and!; [done | lia | lia | left; lia | intros; lia].
  { lia. }
  rewrite (read_law s) by done. destruct (lookup_lt_is_Some_2 (contents s) (Z.to_nat i)) as [e He]; [unfold zlen in Hi; lia |]. rewrite He. cbn [mbind outcome_bind].
  destruct (Z.eqb_spec (entry_Type e) TypeCanonicalHash) as [Et | Et]; [exists i; split_and!; [done | lia | lia | by right; exists e | intros; lia] |].
  destruct (IH (i - 1)) as (j & Hj & Hji & Hor & Hall); [lia | lia |]. exists j. split_and!; [done | lia | lia | done |].
  intros k e' Hk He'. destruct (decide (k = i)) as [-> |]; [congruence | by apply (Hall k); [lia |]].
Qed.

(** A canonical hash ends a checkpoint. *)
Lemma canonical_ends v cs j e :
  entries v cs !! j = Some e -> entry_Type e = TypeCanonicalHash ->
  exists dn c rest, cs = dn ++ c :: rest /\ is_check c = true /\ chunks_len (dn ++ [c]) = Z.of_nat j + 1.
Proof.
  revert v j. induction cs as [|c cs IH]; intros v j He Ht; [done |]. cbn [entries] in He. apply lookup_app_Some in He as [He | [Hlen He]].
  - exists [], c, cs. assert (is_check c = true /\ j = 1%nat) as [Hk ->].
    { destruct c as [h n t | h n t | | | lh [m |]]; cbn [chunk_entries] in He; repeat (destruct j as [|j]; cbn in He; [injection He as <-; try discriminate Ht; try done |]); done. }
    split_and!; [done | done |]. rewrite chunks_len_app, chunks_len_cons. change (chunks_len []) with 0. by destruct c.
  - apply IH in He as (dn & c' & rest & -> & Hk & Hl); [| done]. exists (c :: dn), c', rest. split_and!; [done | done |].
    cbn [app]. rewrite chunks_len_cons, Hl. pose proof (length_chunk v c). unfold zlen in *. lia.
Qed.

Lemma check_canonical v dn c rest :
  is_check c = true -> exists h, entries v (dn ++ c :: rest) !! Z.to_nat (chunks_len (dn ++ [c]) - 1) = Some (canonical_encode h).
Proof.
  intros Hk. rewrite entries_app, chunks_len_app, chunks_len_cons. change (chunks_len []) with 0. pose proof (length_entries v dn) as Hl. unfold zlen in Hl.
  assert (Z.to_nat (chunks_len dn + (chunk_len c + 0) - 1) = length (entries v dn) + 1)%nat as -> by (destruct c; try done; cbn [chunk_len]; lia).
  rewrite lookup_app_r by lia. replace (length (entries v dn) + 1 - length (entries v dn))%nat with 1%nat by lia. destruct c; try done; cbn; eauto.
Qed.

Lemma recovers s chain l n cs :
  good s -> 0 <= n <= chunks_len cs -> contents s = take (Z.to_nat n) (entries v0 cs) -> chunks_ok 0 v0 cs ->
  let '(r, db) := init true (mkDB s chain l) in
  (exists j e, r = Err e /\ (store_Truncate j s).1 = Err e) \/
  (r = Ok () /\ exists dn, last_check n cs dn /\ log_holds (contents := contents) (good := good) dn [] db).
Proof using SL.
  intros Hg Hn Hc Hok. pose proof (length_entries v0 cs) as Hlen.
  assert (zlen (contents s) = n) as Hz by (rewrite Hc; unfold zlen in *; rewrite length_take; lia).
  assert (forall k, contents s !! k = if decide (k < Z.to_nat n)%nat then entries v0 cs !! k else None) as Hlk.
  { intros k. rewrite Hc. destruct (decide (k < Z.to_nat n)%nat); [by apply lookup_take_lt | apply lookup_take_ge; lia]. }
  unfold init. cbn [store]. unfold trimToLastSealed. rewrite (last_law s), Hz by done.
  destruct (last_sealed_spec s (Z.to_nat (n - 1 + 1)) (n - 1) Hg ltac:(lia) ltac:(lia)) as (j & -> & Hj & Hor & Hall).
  assert (exists dn, last_check n cs dn /\ chunks_len dn = j + 1) as (dn & Hdn & Hjl).
  { assert (forall dn' c rest, cs = dn' ++ c :: rest -> is_check c = true -> chunks_len (dn' ++ [c]) <= n -> chunks_len (dn' ++ [c]) <= j + 1) as Hmax.
    { intros dn' c rest E Hk Hle. destruct (decide (chunks_len (dn' ++ [c]) <= j + 1)) as [| Hgt]; [done |]. destruct (check_canonical v0 dn' c rest Hk) as [h Hh].
      rewrite <- E in Hh. exfalso. apply (Hall (chunks_len (dn' ++ [c]) - 1) (canonical_encode h)); [lia | | done]. rewrite Hlk. by rewrite decide_True by lia. }
    destruct Hor as [-> | (e & He & Ht)].
    - exists []. split; [| done]. split_and!; [by left | by exists cs | change (chunks_len []) with 0; lia |]. intros. change (chunks_len []) with 0. by eapply Hmax.
    - destruct (decide (j = -1)) as [-> | Hj1].
      { exists []. split; [| done]. split_and!; [by left | by exists cs | change (chunks_len []) with 0; lia |]. intros. change (chunks_len []) with 0. by eapply Hmax. }
      rewrite Hlk in He. destruct (decide _); [| done]. destruct (canonical_ends _ _ _ _ He Ht) as (dn & c & rest & E & Hk & Hl).
      assert (chunks_len (dn ++ [c]) = j + 1) as Hl' by lia. exists (dn ++ [c]). split; [| done]. split_and!; [right; by exists dn, c | exists rest; by rewrite <- app_assoc | lia |].
      intros dn' c' rest' E' Hk' Hle'. rewrite Hl'. by eapply Hmax. }
  pose proof Hdn as (Hends & [rest E] & Hle & _). assert (chunks_ok 0 v0 dn) as Hokd by (rewrite E in Hok; by apply chunks_ok_app in Hok as [? _]).
  assert (v_half (after v0 dn) = false) as Hh by (destruct Hends as [-> | (dn' & c & -> & Hk)]; [done | rewrite after_app; by destruct c]).
  assert (forall s', good s' -> contents s' = entries v0 dn ->
            exists r db, match last_context s' with Ok l => (Ok (), mkDB s' chain l) | Err e => (Err e, mkDB s' chain l) | Panic e => (Panic e, mkDB s' chain l) end = (r, db) /\
              r = Ok () /\ log_holds (contents := contents) (good := good) dn [] db) as Hopen.
  { intros s' Hg' Hc'. destruct (last_context_spec s' dn Hg' Hc' Hokd Hh) as (lh & em & ->). eexists _, _. split; [done |]. split; [done |].
    split; cbn [store lastEntryContext]; rewrite ?app_nil_r; try done. by exists lh, em. }
  assert (take (Z.to_nat (j + 1)) (contents s) = entries v0 dn) as Htake.
  { rewrite Hc, take_take, E, entries_app, <- Hjl, <- (length_entries v0 dn). unfold zlen. rewrite Nat.min_l by (pose proof (length_entries v0 dn); unfold zlen in *; lia).
    rewrite Nat2Z.id. apply take_app_length. }
  destruct (Z.ltb_spec j (n - 1)) as [Hlt | Hge].
  - pose proof (truncate_law s j Hg ltac:(rewrite Hz; lia)) as Htr. destruct (store_Truncate j s) as [r s'] eqn:Etr. destruct Htr as [Hg' [[-> Hc'] | [[e ->] Hc']]].
    + destruct (Hopen s' Hg' ltac:(congruence)) as (r & db & Eo & -> & Hh'). unfold set_store. cbn [db_chainID lastEntryContext]. rewrite Eo. right. by split; [| exists dn].
    + left. exists j, e. by rewrite Etr.
  - destruct (Hopen s Hg) as (r & db & Eo & -> & Hh').
    { rewrite <- Htake, take_ge; [done |]. unfold zlen in Hz. lia. }
    unfold set_store. cbn [db_chainID lastEntryContext]. rewrite Eo. right. by split; [| exists dn].
Qed.
End Opening.

(** ** The database as a pair of histories *)

Inductive log_op : Type :=
| OpSeal (parent : hash) (block : BlockID) (t : Z)
| OpLog (lh : hash) (parent : BlockID) (idx : Z) (em : option ExecutingMessage)
| OpRewindLogs (head : BlockID).

Definition run_log {St} `{EntryStore (list Z) St} (op : log_op) : stage (DB St) unit :=
  match op with
  | OpSeal parent block t => SealBlock parent block t
  | OpLog lh parent idx em => AddLog lh parent idx em
  | OpRewindLogs head => Rewind head
  end.

(** Fields within their widths, hashes that are not zero, log indices that an entry
    can hold, and no log before the first block. *)
Definition log_op_ok (seen : history) (op : log_op) : Prop :=
  match op with
  | OpSeal parent block t => block_ok (b_Hash block) (b_Number block) t
  | OpLog lh parent idx em =>
      (h_blocks seen <> [] \/ parent = zero_id) /\ length lh = 32%nat /\ idx < 2 ^ 32 - 1 /\
      match em with Some m => message_ok m | None => True end
  | OpRewindLogs _ => True
  end.

Definition log_spec (op : log_op) (kept seen : history) : outcome history :=
  match op with
  | OpSeal parent block t => hist_seal parent block t seen
  | OpLog lh parent idx em => hist_log lh parent idx em seen
  | OpRewindLogs head => hist_rewind head kept
  end.

(** What is seen when the store fails. *)
Definition seen_after (op : log_op) (seen H : history) : history := match op with OpRewindLogs _ => seen | _ => H end.

Section Refinement.
Context {St : Type} `{ES : !EntryStore (list Z) St} {contents : St -> list (list Z)} {good : St -> Prop}.
Context `{SL : !EntryStoreLaws (list Z) St (fun e => zlen e = EntrySize) contents good}.
Abbreviation state := (log_state (contents := contents) (good := good)).

Definition log_step_ok (op : log_op) (kept seen : history) (r : outcome unit) (db : DB St) : Prop :=
  match log_spec op kept seen with
  | Ok H => (r = Ok () /\ state db H H) \/ ((exists e, r = Err e) /\ state db kept (seen_after op seen H))
  | Err e => r = Err e /\ state db kept seen
  | Panic _ => False
  end.

Lemma empty_state s chain : good s -> contents s = [] -> state (mkDB s chain (context_at 0)) no_history no_history.
Proof. intros Hg Hc. exists [], []. split_and!; [| done | done]. split; try done. by exists zero_hash, None. Qed.

Lemma state_chunks db kept seen : state db kept seen -> h_blocks seen <> [] -> exists cs1 cs2, log_holds (contents := contents) (good := good) cs1 cs2 db /\
  kept = hist cs1 /\ seen = hist (cs1 ++ cs2) /\ cs1 ++ cs2 <> [].
Proof. intros (cs1 & cs2 & Hh & -> & ->) Hne. exists cs1, cs2. split_and!; try done. by intros E; rewrite E in Hne. Qed.

Lemma run_log_refines op db kept seen :
  state db kept seen -> log_op_ok seen op ->
  let '(r, db') := run_log op db in db_chainID db' = db_chainID db /\ log_step_ok op kept seen r db'.
Proof using SL.
  intros (cs1 & cs2 & Hdb & -> & ->) Hop. pose proof Hdb as [_ _ Hok _ Hs _]. destruct op as [parent block t | lh parent idx em | head]; cbn [run_log].
  - exact (write_refines _ cs1 cs2 db _ Hdb (SealBlock_refines _ parent block t Hok Hs Hop)).
  - destruct Hop as (Hne & Hlh & Hidx & Hem).
    assert (cs1 ++ cs2 <> [] \/ parent = zero_id) as Hne' by (destruct Hne as [Hne | ->]; [left; intros E; by rewrite E in Hne | by right]).
    exact (write_refines _ cs1 cs2 db _ Hdb (ApplyLog_refines _ parent idx lh em Hok Hs Hne' Hlh Hidx Hem)).
  - exact (Rewind_refines cs1 cs2 db head Hdb).
Qed.

Lemma state_context db kept seen :
  state db kept seen -> LatestSealedBlock db = hist_latest seen /\ context_seal (lastEntryContext db) = hist_last seen /\
  hasCompleteBlock (lastEntryContext db) = true.
Proof.
  intros (cs1 & cs2 & [_ _ Hok _ Hs (lh & em & Hl)] & _ & ->). unfold LatestSealedBlock, hist_latest, hist_last, context_seal. rewrite Hl. cbn [wctx nextEntryIndex blockHash blockNum timestamp].
  destruct (decide (cs1 ++ cs2 = [])) as [E | Hne]; [by rewrite E |].
  destruct (seen_block_exists _ Hok Hne) as (b & Hsb). rewrite (sb_last _ _ Hsb), (proj2 (Z.eqb_neq _ _)) by (pose proof (sb_pos _ _ Hsb); lia).
  cbn [fmap option_fmap option_map]. by rewrite (sb_seal _ _ Hsb).
Qed.

(** After a crash that leaves a prefix of the entries. *)
Lemma state_recovers db kept seen s n chain :
  state db kept seen -> good s -> 0 <= n <= zlen (contents (store db) ++ out (lastEntryContext db)) ->
  contents s = take (Z.to_nat n) (contents (store db) ++ out (lastEntryContext db)) ->
  (exists j e, NewFromEntryStore chain s true = Err e /\ (store_Truncate j s).1 = Err e) \/
  exists db' cs dn, NewFromEntryStore chain s true = Ok db' /\ contents (store db) ++ out (lastEntryContext db) = entries v0 cs /\
    hist cs = seen /\ last_check n cs dn /\ state db' (hist dn) (hist dn).
Proof using SL.
  intros (cs1 & cs2 & [Hg Hc Hok _ _ (lh & em & Hl)] & _ & ->) Hgs Hn Hcs. unfold NewFromEntryStore.
  assert (contents (store db) ++ out (lastEntryContext db) = entries v0 (cs1 ++ cs2)) as He by (by rewrite Hc, Hl, entries_app). rewrite He in Hn, Hcs |- *. rewrite length_entries in Hn.
  pose proof (recovers s chain (context_at 0) n (cs1 ++ cs2) Hgs Hn Hcs Hok) as Hr. destruct (init true _) as [r db'].
  destruct Hr as [(j & e & -> & Hj) | (-> & dn & Hdn & Hh)]; [left; by exists j, e | right]. exists db', (cs1 ++ cs2), dn. split_and!; try done.
  exists dn, []. by rewrite app_nil_r.
Qed.

Lemma state_queries {K : Keccak} db kept seen :
  state db kept seen ->
  (forall n, FindSealedBlock db n = hist_find kept n) /\ (forall n, OpenBlock db n = hist_block kept n) /\
  (forall q, 0 <= q_LogIdx q -> Contains db q = hist_contains (db_chainID db) (hist_last seen) kept q).
Proof using SL.
  intros Hst. destruct (state_context db kept seen Hst) as (_ & Hctx & Hcomp). destruct Hst as (cs1 & cs2 & Hdb & -> & ->).
  pose proof Hdb as [Hg Hc _ Hw _ _]. pose proof (holds_kept_ok _ _ _ Hdb) as Hok. pose proof (holds_indexed _ _ _ Hdb) as Hi. split_and!.
  - intros n. by apply (FindSealedBlock_spec (store db) Hg cs1).
  - intros n. by apply (OpenBlock_spec (store db) Hg cs1).
  - intros q Hq. rewrite <- Hctx. by apply (Contains_spec (store db) Hg cs1).
Qed.
End Refinement.

(** ** Messages in a history *)

Definition record_ok (l : log_record) : Prop := match l.2 with Some m => message_ok m | None => True end.

Lemma hist_messages cs :
  chunks_ok 0 v0 cs -> Forall record_ok (h_open (hist cs)) /\ Forall (fun b => Forall record_ok (lb_logs b)) (h_blocks (hist cs)).
Proof.
  induction cs as [|c cs IH] using rev_ind; [done |]. intros (Hcs & Hc & _)%chunks_ok_app. destruct (IH Hcs) as [Ho Hb]. rewrite hist_app. cbn [fold_left].
  destruct c as [h n t | h n t | | | lh em]; cbn [hist_step hist_sealed hist_logged h_open h_blocks]; try done.
  - split; [constructor |]. apply Forall_app. split; [done | by repeat constructor].
  - split; [constructor |]. apply Forall_app. split; [done | by repeat constructor].
  - split; [| done]. apply Forall_app. split; [done |]. repeat constructor. by destruct Hc as (_ & _ & _ & _ & _ & Hm).
Qed.

Lemma msgs_of_some logs i m : msgs_of logs !! i = Some m -> exists j lh, i = Z.of_nat j /\ logs !! j = Some (lh, Some m).
Proof.
  induction logs as [|[lh em] logs IH] using rev_ind; [done |]. rewrite msgs_of_snoc. cbn [snd].
  assert (msgs_of logs !! i = Some m -> exists j lh', i = Z.of_nat j /\ (logs ++ [(lh, em)]) !! j = Some (lh', Some m)) as Hold.
  { intros (j & lh' & -> & Hj)%IH. exists j, lh'. split; [done | by apply lookup_app_l_Some]. }
  destruct em as [m' |]; [| done]. destruct (decide (i = zlen logs)) as [-> | Hne]; [| by rewrite lookup_insert_ne].
  rewrite lookup_insert_eq. intros [= ->]. exists (length logs), lh. split; [done |]. by rewrite lookup_app_r, Nat.sub_diag.
Qed.

Lemma find_block_in H n b : find_block H n = Some b -> b ∈ h_blocks H /\ lb_num b = n.
Proof. intros [Hin%list_elem_of_In Hn]%List.find_some. split; [done | lia]. Qed.

Lemma hist_block_messages H n ref k msgs :
  Forall (fun b => Forall record_ok (lb_logs b)) (h_blocks H) -> hist_block H n = Ok (ref, k, msgs) ->
  0 <= k /\ forall i m, msgs !! i = Some m -> 0 <= i /\ message_ok m.
Proof.
  intros Hall Hb. unfold hist_block in Hb. destruct (n =? 0).
  - apply bind_ok in Hb as (sl & _ & [= _ <- <-]). split; [done |]. intros i m Hi. by rewrite lookup_empty in Hi.
  - apply bind_ok in Hb as (sl & _ & Hb). destruct (find_block H n) as [b |] eqn:E; [| done]. injection Hb as _ <- <-.
    split; [unfold zlen; lia |]. intros i m (j & lh & -> & Hj)%msgs_of_some. split; [lia |].
    apply find_block_in in E as [Hin _]. rewrite list.Forall_forall in Hall. specialize (Hall b Hin). by apply (Forall_lookup_1 _ _ _ _ Hall Hj).
Qed.

(** A log that was found. *)
Definition logged_at {K : Keccak} (chain : ChainID) (H : history) (q : ContainsQuery) (b : lblock) (lh : hash) : Prop :=
  find_block H (q_BlockNum q) = Some b /\ s_Timestamp (lb_seal b) = q_Timestamp q /\
  (exists em, lb_logs b !! Z.to_nat (q_LogIdx q) = Some (lh, em)) /\
  Checksum (mkChecksumArgs (q_BlockNum q) (q_LogIdx q) (q_Timestamp q) chain lh) = q_Checksum q.

Lemma hist_contains_ok {K : Keccak} chain latest H q sl :
  hist_contains chain latest H q = Ok sl -> exists b lh, logged_at chain H q b lh /\ sl = lb_seal b.
Proof.
  unfold hist_contains. intros Hc. destruct (_ <? _); [by destruct (_ <? _) |]. destruct (_ =? 0); [done |].
  destruct (hist_find H _) as [p | e | e]; [| done | done]. destruct (logs_on _ _ !! _) as [[lh em] |] eqn:El; [| done].
  destruct (find_block H (q_BlockNum q)) as [b |] eqn:Eb; [| done]. destruct (Z.eqb_spec (s_Timestamp (lb_seal b)) (q_Timestamp q)) as [Et |]; [| done].
  cbn [andb] in Hc. case_bool_decide as Hs; [| done]. injection Hc as <-. exists b, lh. split; [| done]. rewrite Et in Hs.
  unfold logs_on in El. rewrite Z.sub_add, Eb in El. split_and!; [done | done | by exists em | done].
Qed.

Section Recorded.
Context {K : Keccak} {D LSt St : Type} `{DependencySet D} `{ES : !EntryStore (list Z) St} `{LES : !EntryStore (list Z) LSt}.
Context {contents : LSt -> list (list Z)} {good : LSt -> Prop}.
Context `{SL : !EntryStoreLaws (list Z) LSt (fun e => zlen e = EntrySize) contents good}.
Abbreviation state := (log_state (contents := contents) (good := good)).

(** Every database of logs stands for a history of its chain. *)
Definition recorded (db : ChainsDB D (DB LSt) St) : Prop :=
  forall c l, logDBs db !! c = Some l -> db_chainID l = c /\ exists kept seen, state l kept seen.

Lemma state_messages db kept seen : state db kept seen -> Forall (fun b => Forall record_ok (lb_logs b)) (h_blocks kept).
Proof. intros (cs1 & cs2 & Hdb & -> & _). by apply hist_messages, (holds_kept_ok _ _ _ Hdb). Qed.

Lemma recorded_open db c n ref k msgs :
  recorded db -> q_OpenBlock db c n = Ok (ref, k, msgs) ->
  exists l kept seen, logDBs db !! c = Some l /\ state l kept seen /\ hist_block kept n = Ok (ref, k, msgs) /\
    0 <= k /\ forall i m, msgs !! i = Some m -> 0 <= i /\ message_ok m.
Proof using SL.
  intros Hrec Ho. apply bind_ok in Ho as (l & Hl & Ho). unfold get_db in Hl. destruct (logDBs db !! c) as [l' |] eqn:E; [| done]. injection Hl as ->.
  destruct (Hrec c l E) as (_ & kept & seen & Hst). exists l, kept, seen. destruct (state_queries _ _ _ Hst) as (_ & Hopen & _). cbn in Ho. rewrite Hopen in Ho.
  split_and!; try done; by apply (hist_block_messages kept n ref k msgs (state_messages _ _ _ Hst)).
Qed.

Lemma recorded_typed db : recorded db -> open_typed (q_OpenBlock db).
Proof using SL.
  intros Hrec c n ref k msgs Ho. destruct (recorded_open _ _ _ _ _ _ Hrec Ho) as (_ & _ & _ & _ & _ & _ & Hk & Hm). split; [done |].
  intros i m Hi. by destruct (Hm i m Hi).
Qed.

Lemma recorded_contains db c q sl :
  recorded db -> 0 <= q_LogIdx q -> q_Contains db c q = Ok sl ->
  exists l kept seen b lh, logDBs db !! c = Some l /\ state l kept seen /\ logged_at c kept q b lh /\ sl = lb_seal b.
Proof using SL.
  intros Hrec Hq Hc. apply bind_ok in Hc as (l & Hl & Hc). unfold get_db in Hl. destruct (logDBs db !! c) as [l' |] eqn:E; [| done]. injection Hl as ->.
  destruct (Hrec c l E) as (Hchain & kept & seen & Hst). destruct (state_queries _ _ _ Hst) as (_ & _ & Hcon). cbn in Hc. rewrite Hcon, Hchain in Hc by done.
  apply hist_contains_ok in Hc as (b & lh & Hb & ->). by exists l, kept, seen, b, lh.
Qed.
End Recorded.
