(* ===== verification/Locks.v ===== *)
(** The lock of the derivation database (backend/db/fromda): a [sync.RWMutex]
    that the readers of db.go hold for reading and the writers of update.go for
    writing. The mutex follows its documentation: a call to [Lock] that waits
    keeps new readers out, so that a reader must not lock twice. A method is the
    sequence of its lock operations, with the methods it calls while it holds the
    lock; methods run interleaved. *)
From Stdlib Require Import ZArith Lia.
From stdpp Require Import base list strings numbers relations.
From S2P Require Import Prelude.

(** ** The mutex *)

Inductive lock_op : Set := RLock | RUnlock | Lock | Unlock.

(** What is left of a running method, and whether its [Lock] call has announced
    itself and waits. *)
Record task : Set := mkTask {
  rest : list lock_op;
  waiting : bool;
}.

Record mutex : Set := mkMutex {
  readers : nat;
  writer : bool;
}.

Record lock_state : Set := mkLockState {
  mu : mutex;
  tasks : list task;
}.

Definition someone_waits (ts : list task) : bool := existsb waiting ts.

(** The next operation of a task. [Lock] first announces itself, one writer at a
    time. *)
Definition step_task (m : mutex) (ts : list task) (t : task) : option (mutex * task) :=
  match rest t with
  | [] => None
  | RLock :: r => if writer m || someone_waits ts then None else Some (mkMutex (S (readers m)) (writer m), mkTask r false)
  | RUnlock :: r => match readers m with O => None | S n => Some (mkMutex n (writer m), mkTask r false) end
  | Lock :: r =>
      if waiting t then
        if writer m || negb (readers m =? 0)%nat then None else Some (mkMutex (readers m) true, mkTask r false)
      else if writer m || someone_waits ts then None
      else Some (m, mkTask (Lock :: r) true)
  | Unlock :: r => if writer m then Some (mkMutex (readers m) false, mkTask r false) else None
  end.

(** Some task takes a step. *)
Inductive lock_step : lock_state -> lock_state -> Prop :=
| lock_step_task m ts i t m' t' :
    ts !! i = Some t -> step_task m ts t = Some (m', t') ->
    lock_step (mkLockState m ts) (mkLockState m' (<[i := t']> ts)).

Definition finished (s : lock_state) : Prop := Forall (fun t => rest t = []) (tasks s).
Definition deadlocked (s : lock_state) : Prop := ~ finished s /\ forall s', ~ lock_step s s'.

(** ** The methods *)

(** First, Last, Invalidated, SourceToLastDerived, NextDerived, NextSource, ... *)
Definition reader_method : list lock_op := [RLock; RUnlock].
(** AddDerived, ReplaceInvalidatedBlock, RewindAndInvalidate, Rewind, ... *)
Definition writer_method : list lock_op := [Lock; Unlock].
(** [DerivedToRevision] takes no lock. *)
Definition DerivedToRevision_method : list lock_op := [].
(** [Candidate] calls [PreviousSource], which locks again. *)
Definition Candidate_method : list lock_op := [RLock; RLock; RUnlock; RUnlock].

Definition start (ms : list (list lock_op)) : lock_state :=
  mkLockState (mkMutex 0 false) ((fun r => mkTask r false) <$> ms).

(** Methods that lock once never block each other for good; a method that reads
    under its own read lock does, with a writer. *)

(** ** Methods that lock once *)

Definition simple (ms : list (list lock_op)) : Prop :=
  Forall (fun r => r = reader_method \/ r = writer_method \/ r = []) ms.

Definition task_ok (t : task) : Prop :=
  rest t ∈ [reader_method; [RUnlock]; writer_method; [Unlock]; []] /\ (waiting t = true -> rest t = writer_method).

#[export] Instance lock_op_eq_dec : EqDecision lock_op.
Proof. solve_decision. Defined.

(** The tasks at an operation list. *)
Definition at_rest (r : list lock_op) (ts : list task) : nat := length (filter (fun t => rest t = r) ts).

Record lock_inv (m : mutex) (ts : list task) : Prop := {
  li_tasks : Forall task_ok ts;
  li_readers : readers m = at_rest [RUnlock] ts;
  li_writer : (if writer m then 1 else 0)%nat = at_rest [Unlock] ts;
}.

Lemma at_rest_cons r t ts : at_rest r (t :: ts) = ((if decide (rest t = r) then 1 else 0) + at_rest r ts)%nat.
Proof. unfold at_rest. rewrite filter_cons. by case_decide. Qed.

#[export] Instance at_rest_proper r : Proper ((≡ₚ) ==> (=)) (at_rest r).
Proof. intros ts ts' Hp. unfold at_rest. by rewrite Hp. Qed.

Lemma lock_inv_perm m ts ts' : ts ≡ₚ ts' -> lock_inv m ts -> lock_inv m ts'.
Proof. intros Hp [Ht Hr Hw]. split; by rewrite <- Hp. Qed.

Lemma step_task_inv m ts t ts0 m' t' :
  lock_inv m (t :: ts0) -> step_task m ts t = Some (m', t') -> lock_inv m' (t' :: ts0).
Proof.
  intros [Ht Hr Hw] Hs. apply Forall_cons_iff in Ht as [[Hin Hwait] Ht]. rewrite at_rest_cons in Hr, Hw.
  unfold step_task in Hs. destruct t as [r w]. cbn in *.
  assert (forall m' t', task_ok t' -> readers m' = at_rest [RUnlock] (t' :: ts0) ->
            (if writer m' then 1 else 0)%nat = at_rest [Unlock] (t' :: ts0) -> lock_inv m' (t' :: ts0)) as Hmk.
  { intros. split; [by constructor | done | done]. }
  unfold reader_method, writer_method in Hin.
  repeat apply elem_of_cons in Hin as [-> | Hin]; try (by apply not_elem_of_nil in Hin); cbn in Hs.
  - destruct (writer m || _); [done |]. injection Hs as <- <-. apply Hmk; [| rewrite at_rest_cons; cbn in *; repeat case_decide; simplify_eq; lia..].
    split; [cbn; set_solver | done].
  - destruct (readers m) eqn:Er; [done |]. injection Hs as <- <-. apply Hmk; [| rewrite at_rest_cons; cbn in *; repeat case_decide; simplify_eq; lia..].
    split; [cbn; set_solver | done].
  - destruct w.
    + destruct (writer m) eqn:Ew; [done |]. destruct (readers m =? 0)%nat; [| done]. injection Hs as <- <-.
      apply Hmk; [| rewrite at_rest_cons; cbn in *; repeat case_decide; simplify_eq; lia..]. split; [cbn; set_solver | done].
    + destruct (writer m || _) eqn:E; [done |]. injection Hs as <- <-.
      apply Hmk; [| rewrite at_rest_cons; cbn in *; repeat case_decide; simplify_eq; lia..]. split; [cbn; set_solver | done].
  - destruct (writer m) eqn:Ew; [| done]. injection Hs as <- <-.
    apply Hmk; [| rewrite at_rest_cons; cbn in *; repeat case_decide; simplify_eq; lia..]. split; [cbn; set_solver | done].
  - done.
Qed.

Lemma lock_step_inv s s' : lock_step s s' -> lock_inv (mu s) (tasks s) -> lock_inv (mu s') (tasks s').
Proof.
  intros [m ts i t m' t' Hi Hs] Hinv. cbn in *.
  apply (lock_inv_perm _ (t' :: delete i ts)); [| eapply step_task_inv; [| exact Hs]].
  - rewrite insert_take_drop, delete_take_drop by (by eapply lookup_lt_Some). apply Permutation_middle.
  - eapply lock_inv_perm; [| exact Hinv]. by apply delete_Permutation.
Qed.

Lemma lock_inv_start ms : simple ms -> lock_inv (mkMutex 0 false) (tasks (start ms)).
Proof.
  intros Hs. cbn. induction Hs as [|r ms Hr _ [IHt IHr IHw]]; [by split |]. cbn [fmap list_fmap].
  destruct Hr as [-> | [-> | ->]]; (split; [constructor; [| done] | rewrite at_rest_cons; done | rewrite at_rest_cons; done]);
    (split; [cbn; set_solver | done]).
Qed.

Lemma at_rest_pos r ts : (0 < at_rest r ts)%nat -> exists i t, ts !! i = Some t /\ rest t = r.
Proof.
  unfold at_rest. intros Hl. destruct (filter _ ts) as [|t l] eqn:E; [cbn in Hl; lia |].
  assert (t ∈ filter (fun t => rest t = r) ts) as [Hr Hin]%list_elem_of_filter by (rewrite E; set_solver).
  apply list_elem_of_lookup in Hin as [i Hi]. eauto.
Qed.

Lemma lock_progress m ts : lock_inv m ts -> ~ finished (mkLockState m ts) -> exists s', lock_step (mkLockState m ts) s'.
Proof.
  intros [Ht Hr Hw] Hfin.
  assert (forall i t m' t', ts !! i = Some t -> step_task m ts t = Some (m', t') -> exists s', lock_step (mkLockState m ts) s') as Hgo
    by (intros; eexists; by econstructor).
  destruct (decide (0 < at_rest [Unlock] ts)%nat) as [Hu | Hu].
  { destruct (at_rest_pos _ _ Hu) as (i & t & Hi & Hrt). destruct (writer m) eqn:Ew; [| lia].
    eapply Hgo; [done |]. unfold step_task. by rewrite Hrt, Ew. }
  destruct (decide (0 < at_rest [RUnlock] ts)%nat) as [Hv | Hv].
  { destruct (at_rest_pos _ _ Hv) as (i & t & Hi & Hrt). destruct (readers m) as [|n] eqn:Er; [lia |].
    eapply Hgo; [done |]. unfold step_task. by rewrite Hrt, Er. }
  assert (writer m = false) as Ew by (destruct (writer m); [lia | done]). assert (readers m = 0%nat) as Er by lia.
  destruct (someone_waits ts) eqn:Es.
  - apply existsb_exists in Es as (t & Hin & Hwt). apply list_elem_of_In, list_elem_of_lookup in Hin as [i Hi].
    destruct (Forall_lookup_1 _ _ _ _ Ht Hi) as [_ Hrt]. specialize (Hrt Hwt).
    eapply Hgo; [done |]. unfold step_task. by rewrite Hrt, Hwt, Ew, Er.
  - unfold finished in Hfin. cbn in Hfin. apply not_Forall_Exists in Hfin; [| intros t; apply _].
    apply Exists_exists in Hfin as (t & Hin & Hne). apply list_elem_of_lookup in Hin as [i Hi].
    destruct (Forall_lookup_1 _ _ _ _ Ht Hi) as [Hrt Hwt].
    assert (waiting t = false) as Hw0.
    { destruct (waiting t) eqn:E; [| done]. assert (someone_waits ts = true); [| congruence].
      apply existsb_exists. exists t. split; [| done]. apply list_elem_of_In, list_elem_of_lookup. eauto. }
    repeat apply elem_of_cons in Hrt as [Hrt | Hrt]; try (by apply not_elem_of_nil in Hrt); try done.
    + eapply Hgo; [done |]. unfold step_task. by rewrite Hrt, Ew, Es.
    + exfalso. apply Hv. unfold at_rest. destruct (filter _ ts) as [|x l] eqn:E; [| cbn; lia].
      assert (t ∈ filter (fun t => rest t = [RUnlock]) ts) by (apply list_elem_of_filter; split; [done | apply list_elem_of_lookup; eauto]).
      rewrite E in *. set_solver.
    + eapply Hgo; [done |]. unfold step_task. by rewrite Hrt, Hw0, Ew, Es.
    + exfalso. apply Hu. unfold at_rest. destruct (filter _ ts) as [|x l] eqn:E; [| cbn; lia].
      assert (t ∈ filter (fun t => rest t = [Unlock]) ts) by (apply list_elem_of_filter; split; [done | apply list_elem_of_lookup; eauto]).
      rewrite E in *. set_solver.
Qed.

Lemma simple_no_deadlock ms s : simple ms -> rtc lock_step (start ms) s -> ~ deadlocked s.
Proof.
  intros Hs Hr [Hfin Hstuck]. assert (lock_inv (mu s) (tasks s)) as Hinv.
  { pose proof (lock_inv_start ms Hs) as H0. revert H0. change (mkMutex 0 false) with (mu (start ms)).
    clear Hs Hfin Hstuck. induction Hr as [|s0 s1 s2 H01 _ IH]; [done |]. intros H0. apply IH. by eapply lock_step_inv. }
  destruct s as [m ts]. destruct (lock_progress m ts Hinv Hfin) as [s' Hs']. by eapply Hstuck.
Qed.

(** ** A method that locks twice *)

(** The reader holds the lock and asks for it again while the writer waits. *)
Definition stuck_state : lock_state :=
  mkLockState (mkMutex 1 false) [mkTask [RLock; RUnlock; RUnlock] false; mkTask [Lock; Unlock] true].

Lemma stuck_reachable : rtc lock_step (start [Candidate_method; writer_method]) stuck_state.
Proof.
  eapply rtc_l. { apply (lock_step_task _ _ 0 (mkTask Candidate_method false)); reflexivity. }
  eapply rtc_l. { apply (lock_step_task _ _ 1 (mkTask writer_method false)); reflexivity. }
  apply rtc_refl.
Qed.

Lemma stuck_deadlocked : deadlocked stuck_state.
Proof.
  split.
  - intros Hf. unfold finished in Hf. apply Forall_cons_iff in Hf as [Hf _]. done.
  - intros s' Hs. inversion Hs as [m ts i t m' t' Hi Hst]; subst. destruct i as [|[|i]]; cbn in Hi; simplify_eq; done.
Qed.
