(* ===== verification/L1InfoProps.v ===== *)
(** What a configuration that passes [Check] guarantees. *)
From Stdlib Require Import ZArith Lia.
From stdpp Require Import base gmap list strings numbers.
From S2P Require Import Prelude Rollup Codec Frames L1Info.

Lemma require_true (b : bool) (e : string) (u : unit) : require b e = Ok u -> b = true.
Proof. by destruct b. Qed.

(** A fork that is checked against the one before it is only active after it. *)
Lemma checkFork_active (a b : option Z) (x y : ForkName) (u : unit) (t : Z) :
  checkFork a b x y = Ok u -> active b t = true -> active a t = true.
Proof.
  destruct a as [a |], b as [b |]; cbn; try done.
  destruct (Z.ltb_spec b a); [done |]. rewrite !Z.leb_le. lia.
Qed.

Lemma check_forks_ok (cfg : Config) (u : unit) (t : Z) :
  check_forks cfg = Ok u ->
  (IsIsthmus cfg t = true -> IsHolocene cfg t = true) /\ (IsHolocene cfg t = true -> IsGranite cfg t = true) /\
  (IsGranite cfg t = true -> IsFjord cfg t = true) /\ (IsFjord cfg t = true -> IsEcotone cfg t = true) /\
  (IsEcotone cfg t = true -> IsDelta cfg t = true) /\ (IsDelta cfg t = true -> IsCanyon cfg t = true) /\
  (IsCanyon cfg t = true -> IsRegolith cfg t = true).
Proof.
  intros H. unfold check_forks in H.
  do 6 (let H1 := fresh "F" in apply bind_ok in H as (? & H1 & H)).
  split_and!; eapply checkFork_active; eassumption.
Qed.

Lemma check_ok (cfg : Config) (u : unit) :
  Check cfg = Ok u -> BlockTime cfg <> 0 /\ ChannelTimeoutBedrock cfg <> 0 /\ 2 <= SeqWindowSize cfg /\
    cfg_MaxSequencerDrift cfg <> 0 /\ check_forks cfg = Ok u.
Proof.
  intros H. unfold Check in H. cbn zeta in H.
  apply bind_ok in H as (u1 & H1 & H). apply bind_ok in H as (u2 & H2 & H).
  apply bind_ok in H as (u3 & H3 & H). apply bind_ok in H as (u4 & H4 & H).
  do 11 apply bind_ok in H as (? & _ & H).
  apply require_true, negb_true_iff, Z.eqb_neq in H1, H2, H4. apply require_true, Z.leb_le in H3. done.
Qed.

(** The formats of the L1 information are canonical: what is written is read
    back, and what is read is what would have been written. *)

(** ** Canonical codecs *)

Lemma ok_inj {A} (a b : A) : Ok a = Ok b -> a = b.
Proof. congruence. Qed.

(** The reader [d] accepts exactly what the writer [e] writes for values with [P]. *)
Definition codec {A} (d : ST (list Z) A) (e : A -> list Z) (P : A -> Prop) : Prop :=
  decodes d e P /\
  forall s a rest, bytes_ok s -> d s = Ok (a, rest) -> s = e a ++ rest /\ P a /\ bytes_ok rest.

Definition fixed (n : nat) (l : list Z) : Prop := length l = n /\ bytes_ok l.

(** One field of a record: [f] projects it, [k] reads the fields behind it. *)
Lemma codec_bind {A B} (d : ST (list Z) A) e P (k : A -> ST (list Z) B) (f : B -> A) e2 (Q : B -> Prop) :
  codec d e P -> (forall b, Q b -> P (f b)) -> (forall a, P a -> codec (k a) e2 (fun b => Q b /\ f b = a)) ->
  codec (d ≫= k) (fun b => e (f b) ++ e2 b) Q.
Proof.
  intros [Hd Hi] HQ Hk. split.
  - intros b rest Hb. rewrite <- app_assoc. eapply decodes_bind; [exact Hd | by apply HQ |].
    destruct (Hk (f b) (HQ b Hb)) as [Hr _]. by apply Hr.
  - intros s b rest Hs R. apply ST_bind_ok in R as (a & s1 & R1 & R2).
    apply Hi in R1 as (-> & Ha & Hs1); [| done]. destruct (Hk a Ha) as [_ Hk2].
    apply Hk2 in R2 as (-> & [HQb <-] & Hr); [| done]. by rewrite <- app_assoc.
Qed.

Lemma codec_ret {B} (c : B) (Q : B -> Prop) : (forall b, Q b <-> b = c) -> codec (mret c) (fun _ => []) Q.
Proof.
  intros H. split.
  - intros b rest Hb. apply H in Hb as ->. done.
  - intros s b rest Hs R. injection R as <- <-. split; [done |]. split; [by apply H | done].
Qed.

Lemma codec_ext {A} (d : ST (list Z) A) e e' (P : A -> Prop) :
  codec d e P -> (forall a, P a -> e a = e' a) -> codec d e' P.
Proof.
  intros [Hd Hi] He. split.
  - intros a rest Ha. rewrite <- He by done. by apply Hd.
  - intros s a rest Hs R. apply Hi in R as (-> & Ha & Hr); [| done]. by rewrite He.
Qed.

Lemma codec_error {A} x (d : ST (list Z) A) e P : codec d e P -> codec (Solabi.replace_error x d) e P.
Proof.
  intros [Hd Hi]. split.
  - intros a rest Ha. unfold Solabi.replace_error. by rewrite Hd.
  - intros s a rest Hs. unfold Solabi.replace_error. destruct (d s) as [[a' s'] | |] eqn:E; [| done | done].
    intros [= <- <-]. by apply Hi.
Qed.

Lemma codec_bytes n : codec (ReadFull (Z.of_nat n)) id (fixed n).
Proof.
  split.
  - intros l rest [Hl _]. apply ReadFull_app. unfold zlen, id. lia.
  - intros s l rest Hs R. apply ReadFull_inv in R as [-> Hl]; [| lia]. apply Forall_app in Hs as [Hb Hr].
    unfold zlen in Hl. split; [done |]. split; [split; [lia | done] | done].
Qed.

Lemma codec_uint n : codec (ReadUInt (Z.of_nat n)) (be_encode n) (in_range (8 * Z.of_nat n)).
Proof.
  split.
  - intros v rest Hv. rewrite <- (Nat2Z.id n) at 2. apply (uint_decodes (Z.of_nat n)); [lia | done].
  - intros s v rest Hs R. apply ReadUInt_inv in R as (-> & Hv & Hr); [| lia | done]. by rewrite Nat2Z.id.
Qed.

(** Padding that must be there. *)
Lemma codec_padded {A} (pad : list Z) x (d : ST (list Z) A) e P :
  bytes_ok pad -> codec d e P ->
  codec (p ← ReadFull (zlen pad); if decide (p = pad) then d else throw x) (fun a => pad ++ e a) P.
Proof.
  intros Hp Hd. apply (codec_bind _ id (fixed (length pad)) _ (fun _ => pad)).
  - apply codec_bytes.
  - by intros b _.
  - intros a Ha. destruct Hd as [Hd Hi]. split.
    + intros b rest [Hb <-]. rewrite decide_True by done. by apply Hd.
    + intros s b rest Hs R. destruct (decide (a = pad)) as [-> |]; [| done]. apply Hi in R as (-> & Hb & Hr); done.
Qed.

(** ** The words *)

Lemma Uint64_codec : codec Solabi.ReadUint64 Solabi.WriteUint64 (in_range 64).
Proof. apply (codec_padded Solabi.uint64EmptyPadding); [by repeat constructor |]. apply codec_error, (codec_uint 8). Qed.

Lemma Uint256_codec : codec Solabi.ReadUint256 (be_encode 32) (in_range 256).
Proof. apply (codec_uint 32). Qed.

Lemma Hash_codec : codec Solabi.ReadHash Solabi.WriteHash (fixed 32).
Proof. apply (codec_bytes 32). Qed.

Lemma Bytes32_codec : codec Solabi.ReadEthBytes32 Solabi.WriteEthBytes32 (fixed 32).
Proof. apply (codec_bytes 32). Qed.

Lemma Address_codec : codec Solabi.ReadAddress Solabi.WriteAddress (fixed 20).
Proof. apply (codec_padded Solabi.addressEmptyPadding); [by repeat constructor |]. apply (codec_bytes 20). Qed.

Lemma Signature_codec sig : fixed 4 sig -> codec (Solabi.ReadAndValidateSignature sig) (fun _ => sig) (fun s => s = sig).
Proof.
  intros [Hl Hb]. split.
  - intros s rest ->. unfold Solabi.ReadAndValidateSignature. rewrite (ST_bind_run _ _ _ sig rest).
    + by rewrite decide_True.
    + apply ReadFull_app. unfold zlen. lia.
  - intros s a rest Hs R. apply ST_bind_ok in R as (p & s1 & R1 & R2). apply ReadFull_inv in R1 as [-> _]; [| lia].
    apply Forall_app in Hs as [_ Hs]. destruct (decide (p = sig)) as [-> |]; [| done]. by injection R2 as <- <-.
Qed.

(** ** The formats *)

(** What every format needs of the information. *)
Record info_wf (info : L1BlockInfo) : Prop := {
  iw_Number : in_range 64 (info_Number info);
  iw_Time : in_range 64 (info_Time info);
  iw_BaseFee : exists v, info_BaseFee info = Some v /\ in_range 256 v;
  iw_BlockHash : fixed 32 (info_BlockHash info);
  iw_SequenceNumber : in_range 64 (info_SequenceNumber info);
  iw_BatcherAddr : fixed 20 (info_BatcherAddr info);
}.

(** What the formats can express: the fields a format leaves out are zero. *)
Record bedrock_form (info : L1BlockInfo) : Prop := {
  bf_wf : info_wf info;
  bf_Overhead : fixed 32 (info_L1FeeOverhead info);
  bf_Scalar : fixed 32 (info_L1FeeScalar info);
  bf_Blob : info_BlobBaseFee info = None;
  bf_BaseFeeScalar : info_BaseFeeScalar info = 0;
  bf_BlobBaseFeeScalar : info_BlobBaseFeeScalar info = 0;
  bf_OperatorFeeScalar : info_OperatorFeeScalar info = 0;
  bf_OperatorFeeConstant : info_OperatorFeeConstant info = 0;
}.

Record packed_form (info : L1BlockInfo) : Prop := {
  pf_wf : info_wf info;
  pf_Overhead : info_L1FeeOverhead info = zero_hash;
  pf_Scalar : info_L1FeeScalar info = zero_hash;
  pf_Blob : exists v, info_BlobBaseFee info = Some v /\ in_range 256 v;
  pf_BaseFeeScalar : in_range 32 (info_BaseFeeScalar info);
  pf_BlobBaseFeeScalar : in_range 32 (info_BlobBaseFeeScalar info);
}.

Definition ecotone_form (info : L1BlockInfo) : Prop :=
  packed_form info /\ info_OperatorFeeScalar info = 0 /\ info_OperatorFeeConstant info = 0.

Definition isthmus_form (info : L1BlockInfo) : Prop :=
  packed_form info /\ in_range 32 (info_OperatorFeeScalar info) /\ in_range 64 (info_OperatorFeeConstant info).

(** A fee that is set. *)
Definition fee (v : option Z) : Z := default 0 v.

Lemma fee_some v : (exists x, v = Some x /\ in_range 256 x) -> v = Some (fee v) /\ in_range 256 (fee v).
Proof. by intros (x & -> & Hx). Qed.

Lemma WriteUint256_ok v : in_range 256 v -> Solabi.WriteUint256 (Some v) = Ok (be_encode 32 v).
Proof.
  intros [H0 H1]. unfold Solabi.WriteUint256. rewrite Z.abs_eq by done. by destruct (Z.leb_spec (2 ^ 256) v); [lia |].
Qed.

Section Formats.
Context {K : Keccak} {KL : KeccakLaws K}.

Lemma selector_fixed sig : fixed 4 (selector sig).
Proof.
  unfold selector. split.
  - rewrite length_take, keccak_length. lia.
  - apply Forall_take, keccak_bytes.
Qed.

(** The next field of a record, and that it is in range. *)
Ltac field f := eapply (codec_bind _ _ _ _ f).

Ltac form_field :=
  let i := fresh "i" in let Hi := fresh "Hi" in
  intros i Hi; unfold ecotone_form in *; repeat match goal with H : _ /\ _ |- _ => destruct H end;
  repeat match goal with
  | H : bedrock_form i |- _ => destruct H
  | H : packed_form i |- _ => destruct H
  | H : info_wf i |- _ => destruct H
  end; first [done | by apply fee_some].

(** The record that was read is the only one with these fields. *)
Ltac form_end :=
  let i := fresh "i" in
  apply codec_ret; intros i; unfold ecotone_form; split;
  [ intros Hi; repeat match goal with H : _ /\ _ |- _ => destruct H end;
    repeat match goal with
    | H : bedrock_form i |- _ => destruct H
    | H : packed_form i |- _ => destruct H
    | H : info_wf i |- _ => destruct H
    | H : exists v, _ = Some v /\ _ |- _ => apply fee_some in H as [H _]
    end; destruct i; cbn in *; congruence
  | intros ->; repeat match goal with
    | |- bedrock_form _ => split
    | |- packed_form _ => split
    | |- info_wf _ => split
    | |- _ /\ _ => split
    end; first [done | by eexists] ].

Lemma bedrock_codec :
  codec read_bedrock (fun i =>
    Solabi.WriteSignature L1InfoFuncBedrockBytes4 ++ Solabi.WriteUint64 (info_Number i) ++
    Solabi.WriteUint64 (info_Time i) ++ be_encode 32 (fee (info_BaseFee i)) ++ Solabi.WriteHash (info_BlockHash i) ++
    Solabi.WriteUint64 (info_SequenceNumber i) ++ Solabi.WriteAddress (info_BatcherAddr i) ++
    Solabi.WriteEthBytes32 (info_L1FeeOverhead i) ++ Solabi.WriteEthBytes32 (info_L1FeeScalar i) ++ []) bedrock_form.
Proof.
  unfold read_bedrock.
  eapply (codec_bind _ (fun _ => Solabi.WriteSignature L1InfoFuncBedrockBytes4) _ _ (fun _ => L1InfoFuncBedrockBytes4));
    [apply Signature_codec, selector_fixed | done | intros sig ->].
  field info_Number; [apply Uint64_codec | form_field | intros n Hn].
  field info_Time; [apply Uint64_codec | form_field | intros t Ht].
  field (fun i => fee (info_BaseFee i)); [apply Uint256_codec | form_field | intros v Hv].
  field info_BlockHash; [apply Hash_codec | form_field | intros h Hh].
  field info_SequenceNumber; [apply Uint64_codec | form_field | intros q Hq].
  field info_BatcherAddr; [apply Address_codec | form_field | intros a Ha].
  field info_L1FeeOverhead; [apply Bytes32_codec | form_field | intros o Ho].
  field info_L1FeeScalar; [apply Bytes32_codec | form_field | intros s Hs].
  form_end.
Qed.

(** The bytes of the fields the two later formats share. *)
Definition packed_bytes (i : L1BlockInfo) : list Z :=
  be_encode 4 (info_BaseFeeScalar i) ++ be_encode 4 (info_BlobBaseFeeScalar i) ++
  be_encode 8 (info_SequenceNumber i) ++ be_encode 8 (info_Time i) ++ be_encode 8 (info_Number i) ++
  be_encode 32 (fee (info_BaseFee i)) ++ be_encode 32 (fee (info_BlobBaseFee i)) ++
  Solabi.WriteHash (info_BlockHash i) ++ Solabi.WriteAddress (info_BatcherAddr i).

Lemma packed_codec sig x : fixed 4 sig ->
  codec (read_packed sig x) (fun i => Solabi.WriteSignature sig ++ packed_bytes i) ecotone_form.
Proof.
  intros Hs. unfold read_packed.
  eapply codec_ext.
  { eapply (codec_bind _ (fun _ => Solabi.WriteSignature sig) _ _ (fun _ => sig));
      [by apply Signature_codec | done | intros sig' ->].
    field info_BaseFeeScalar; [apply codec_error, (codec_uint 4) | form_field | intros b Hb].
    field info_BlobBaseFeeScalar; [apply codec_error, (codec_uint 4) | form_field | intros bb Hbb].
    field info_SequenceNumber; [apply codec_error, (codec_uint 8) | form_field | intros q Hq].
    field info_Time; [apply codec_error, (codec_uint 8) | form_field | intros t Ht].
    field info_Number; [apply codec_error, (codec_uint 8) | form_field | intros n Hn].
    field (fun i => fee (info_BaseFee i)); [apply Uint256_codec | form_field | intros v Hv].
    field (fun i => fee (info_BlobBaseFee i)); [apply Uint256_codec | form_field | intros w Hw].
    field info_BlockHash; [apply Hash_codec | form_field | intros h Hh].
    field info_BatcherAddr; [apply Address_codec | form_field | intros a Ha].
    form_end. }
  intros i _. unfold packed_bytes. by rewrite app_nil_r.
Qed.

Lemma isthmus_codec sig : fixed 4 sig ->
  codec (read_isthmus sig) (fun i => Solabi.WriteSignature sig ++ packed_bytes i ++
    be_encode 4 (info_OperatorFeeScalar i) ++ be_encode 8 (info_OperatorFeeConstant i)) isthmus_form.
Proof.
  intros Hs. unfold read_isthmus. eapply codec_ext.
  { field (set_operator_fee 0 0); [by apply packed_codec | | intros i0 Hi0].
    - intros i [[Hw Ho Hsc Hb H1 H2] _]. split; [| done]. destruct Hw. split; [split | | | | |]; done.
    - field info_OperatorFeeScalar; [apply codec_error, (codec_uint 4) | by intros i [(_ & H & _) _] | intros s Hsc].
      field info_OperatorFeeConstant; [apply codec_error, (codec_uint 8) | by intros i [[(_ & _ & H) _] _] | intros c Hc].
      apply codec_ret. intros i. split.
      + intros [[[_ <-] <-] <-]. by destruct i.
      + intros ->. destruct Hi0 as ([Hw Ho Hsc' Hb H1 H2] & E1 & E2). destruct Hw, i0; cbn in *. subst.
        split; [split; [split; [split; [by split; [split | | | | |] | by split] | done] | done] | done]. }
  intros i _. unfold packed_bytes. cbn [info_BaseFeeScalar]. destruct i; cbn -[be_encode]. by rewrite ?app_nil_r, <- ?app_assoc.
Qed.

(** ** Writing and reading are inverse *)

(** A format: a length, a reader and the bytes for it. *)
Lemma unmarshal_iff {A} (d : ST (list Z) A) e (P : A -> Prop) (n : Z) (data : list Z) (a : A) :
  codec d e P -> (forall a, P a -> zlen (e a) = n) -> bytes_ok data ->
  ((if negb (zlen data =? n) then Err "data is unexpected length" else expect_end d data) = Ok a <-> P a /\ data = e a).
Proof.
  intros [Hd Hi] Hn Hb. split.
  - destruct (Z.eqb_spec (zlen data) n); [| done]. cbn [negb]. unfold expect_end.
    intros ([a' rest] & R & E)%bind_ok. destruct rest; [| done]. injection E as ->.
    apply Hi in R as (-> & Ha & _); [| done]. by rewrite app_nil_r.
  - intros [Ha ->]. rewrite (Hn a Ha), Z.eqb_refl. cbn [negb]. unfold expect_end.
    rewrite <- (app_nil_r (e a)), Hd by done. done.
Qed.

Definition bedrock_bytes (i : L1BlockInfo) : list Z :=
  Solabi.WriteSignature L1InfoFuncBedrockBytes4 ++ Solabi.WriteUint64 (info_Number i) ++
  Solabi.WriteUint64 (info_Time i) ++ be_encode 32 (fee (info_BaseFee i)) ++ Solabi.WriteHash (info_BlockHash i) ++
  Solabi.WriteUint64 (info_SequenceNumber i) ++ Solabi.WriteAddress (info_BatcherAddr i) ++
  Solabi.WriteEthBytes32 (info_L1FeeOverhead i) ++ Solabi.WriteEthBytes32 (info_L1FeeScalar i).

Lemma marshalBedrock_ok info : bedrock_form info -> marshalBinaryBedrock info = Ok (bedrock_bytes info).
Proof.
  intros [[_ _ Hf _ _ _] _ _ _ _ _ _ _]. apply fee_some in Hf as [E Hf]. unfold marshalBinaryBedrock.
  rewrite E, WriteUint256_ok by done. unfold bedrock_bytes. by rewrite E.
Qed.

Lemma marshal_packed_ok info : packed_form info -> marshal_packed info = Ok (packed_bytes info).
Proof.
  intros [[_ _ Hf _ _ _] _ _ Hb _ _]. apply fee_some in Hf as [E Hf]. apply fee_some in Hb as [Eb Hb].
  unfold marshal_packed, packed_bytes. rewrite E, Eb. cbn [default fee]. rewrite !WriteUint256_ok by done. done.
Qed.

Ltac format_length :=
  unfold bedrock_bytes, packed_bytes, Solabi.WriteUint64, Solabi.WriteAddress, Solabi.WriteHash, Solabi.WriteEthBytes32,
    Solabi.WriteSignature, L1InfoBedrockLen, L1InfoEcotoneLen, L1InfoIsthmusLen, L1InfoArguments,
    Solabi.uint64EmptyPadding, Solabi.addressEmptyPadding, zlen;
  rewrite !length_app, ?length_be_encode, ?length_replicate; lia.

Lemma bedrock_length info : bedrock_form info -> zlen (bedrock_bytes info) = L1InfoBedrockLen.
Proof.
  intros [[_ _ _ [Hh _] _ [Ha _]] [Ho _] [Hs _] _ _ _ _ _]. pose proof (proj1 (selector_fixed L1InfoFuncBedrockSignature)) as Hsig.
  fold L1InfoFuncBedrockBytes4 in Hsig. format_length.
Qed.

Lemma packed_length sig info : fixed 4 sig -> packed_form info ->
  zlen (Solabi.WriteSignature sig ++ packed_bytes info) = L1InfoEcotoneLen.
Proof. intros [Hsig _] [[_ _ _ [Hh _] _ [Ha _]] _ _ _ _ _]. format_length. Qed.

Lemma unmarshalBedrock_iff data info : bytes_ok data ->
  (unmarshalBinaryBedrock data = Ok info <-> bedrock_form info /\ marshalBinaryBedrock info = Ok data).
Proof.
  intros Hb. unfold unmarshalBinaryBedrock. rewrite (unmarshal_iff _ bedrock_bytes bedrock_form); [| | | done].
  - split; intros [Hf H]; (split; [done |]); rewrite marshalBedrock_ok in * by done; congruence.
  - eapply codec_ext; [apply bedrock_codec |]. intros i _. unfold bedrock_bytes. by rewrite app_nil_r.
  - apply bedrock_length.
Qed.

Lemma unmarshalEcotone_iff data info : bytes_ok data ->
  (unmarshalBinaryEcotone data = Ok info <-> ecotone_form info /\ marshalBinaryEcotone info = Ok data).
Proof.
  intros Hb. unfold unmarshalBinaryEcotone, marshalBinaryEcotone.
  rewrite (unmarshal_iff _ (fun i => Solabi.WriteSignature L1InfoFuncEcotoneBytes4 ++ packed_bytes i) ecotone_form); [| | | done].
  - split; intros [Hf H]; (split; [done |]); rewrite (marshal_packed_ok info) in * by apply Hf; cbn in *; congruence.
  - apply packed_codec, selector_fixed.
  - intros i [Hi _]. apply packed_length; [apply selector_fixed | done].
Qed.

Lemma unmarshalIsthmus_iff data info : bytes_ok data ->
  (unmarshalBinaryIsthmus data = Ok info <-> isthmus_form info /\ marshalBinaryIsthmus info = Ok data).
Proof.
  intros Hb. unfold unmarshalBinaryIsthmus, unmarshalBinaryWithSignatureAndData, marshalBinaryIsthmus, marshalBinaryWithSignature.
  rewrite (unmarshal_iff _ (fun i => Solabi.WriteSignature L1InfoFuncIsthmusBytes4 ++ packed_bytes i ++
    be_encode 4 (info_OperatorFeeScalar i) ++ be_encode 8 (info_OperatorFeeConstant i)) isthmus_form); [| | | done].
  - split; intros [Hf H]; (split; [done |]); rewrite (marshal_packed_ok info) in * by apply Hf; cbn in *; congruence.
  - apply isthmus_codec, selector_fixed.
  - intros i [Hi _]. pose proof (packed_length _ i (selector_fixed L1InfoFuncIsthmusSignature) Hi) as Hl.
    fold L1InfoFuncIsthmusBytes4 in Hl. unfold zlen, L1InfoEcotoneLen, L1InfoIsthmusLen in *.
    rewrite length_app in Hl. rewrite !length_app, !length_be_encode. lia.
Qed.

(** The form the block time asks for. *)
Definition info_form (cfg : Config) (t : Z) (info : L1BlockInfo) : Prop :=
  if isEcotoneButNotFirstBlock cfg t
  then if isIsthmusButNotFirstBlock cfg t then isthmus_form info else ecotone_form info
  else bedrock_form info.

(** After the activation block of Isthmus, the one of Ecotone is past as well. *)
Lemma isthmus_ecotone (cfg : Config) (t : Z) (u : unit) :
  Check cfg = Ok u -> isIsthmusButNotFirstBlock cfg t = true -> isEcotoneButNotFirstBlock cfg t = true.
Proof.
  intros (_ & _ & _ & _ & Hc)%check_ok.
  assert (forall t, IsIsthmus cfg t = true -> IsEcotone cfg t = true) as Hf.
  { intros t' Hi. destruct (check_forks_ok cfg u t' Hc) as (H1 & H2 & H3 & H4 & _). auto. }
  unfold isIsthmusButNotFirstBlock, isEcotoneButNotFirstBlock, IsIsthmusActivationBlock, IsEcotoneActivationBlock, activation_block.
  intros [Hi Hn]%andb_true_iff. rewrite (Hf t Hi). cbn [andb]. rewrite Hi in Hn. cbn [andb] in Hn.
  destruct (BlockTime cfg <=? t); [| done]. cbn [andb] in *. apply negb_true_iff, negb_false_iff, Hf in Hn. by rewrite Hn.
Qed.

Lemma info_bytes (cfg : Config) (t : Z) data info :
  info_form cfg t info -> marshal_info cfg t info = Ok data -> bytes_ok data.
Proof.
  unfold info_form, marshal_info, marshalBinaryIsthmus, marshalBinaryEcotone, marshalBinaryWithSignature.
  pose proof (fun sig => proj2 (selector_fixed sig)) as Hsig.
  assert (packed_form info -> bytes_ok (packed_bytes info)) as Hp.
  { intros [[_ _ _ [_ Hh] _ [_ Ha]] _ _ _ _ _]. unfold packed_bytes, Solabi.WriteAddress, Solabi.WriteHash, bytes_ok.
    rewrite !Forall_app. split_and!; try apply be_encode_bytes; try done. by repeat constructor. }
  destruct (isEcotoneButNotFirstBlock cfg t).
  - destruct (isIsthmusButNotFirstBlock cfg t); intros [Hf _]; rewrite (marshal_packed_ok info) by done; intros E%ok_inj; rewrite <- E;
      unfold bytes_ok; rewrite !Forall_app; split_and!; try apply be_encode_bytes; try apply Hsig; by apply Hp.
  - intros Hf. rewrite marshalBedrock_ok by done. intros E%ok_inj. rewrite <- E. destruct Hf as [[_ _ _ [_ Hh] _ [_ Ha]] [_ Ho] [_ Hs] _ _ _ _ _].
    unfold bedrock_bytes, Solabi.WriteUint64, Solabi.WriteAddress, bytes_ok. rewrite !Forall_app.
    split_and!; try apply be_encode_bytes; try done; try apply Hsig; by repeat constructor.
Qed.

Lemma info_format (cfg : Config) (t : Z) (u : unit) data info :
  Check cfg = Ok u -> bytes_ok data ->
  (L1BlockInfoFromBytes cfg t data = Ok info <-> info_form cfg t info /\ marshal_info cfg t info = Ok data).
Proof.
  intros Hc Hb. pose proof (isthmus_ecotone cfg t u Hc) as Hie. unfold L1BlockInfoFromBytes, info_form, marshal_info.
  destruct (isIsthmusButNotFirstBlock cfg t).
  - rewrite Hie by done. by apply unmarshalIsthmus_iff.
  - destruct (isEcotoneButNotFirstBlock cfg t); [by apply unmarshalEcotone_iff | by apply unmarshalBedrock_iff].
Qed.

End Formats.

(** ** The deposit of a block *)

Record block_wf (cfg : Config) {G : Geth} (block : BlockInfo) : Prop := {
  kw_Number : in_range 64 (bi_NumberU64 block);
  kw_Time : in_range 64 (bi_Time block);
  kw_BaseFee : exists v, bi_BaseFee block = Some v /\ in_range 256 v;
  kw_Hash : fixed 32 (bi_Hash block);
  kw_Blob : in_range 256 (blob_base_fee cfg block);
}.

Record system_wf (sysCfg : SystemConfig) : Prop := {
  sw_Batcher : fixed 20 (BatcherAddr sysCfg);
  sw_Overhead : fixed 32 (Overhead sysCfg);
  sw_Scalar : fixed 32 (Scalar sysCfg);
  sw_Operator : fixed 32 (OperatorFeeParams_ sysCfg);
}.

Lemma slice_range lo hi (l : list Z) : bytes_ok l -> 0 <= lo <= hi -> hi <= zlen l ->
  in_range (8 * (hi - lo)) (be_decode (slice lo hi l)).
Proof.
  intros Hb Hlo Hhi. pose proof (be_decode_range (slice lo hi l) (bytes_ok_slice lo hi l Hb)) as H.
  rewrite length_slice in H by (unfold zlen in *; lia). by replace (8 * Z.of_nat _) with (8 * (hi - lo)) in H by lia.
Qed.

Lemma scalars_range sysCfg scalars :
  system_wf sysCfg -> SystemConfig_EcotoneScalars sysCfg = Ok scalars ->
  in_range 32 (BaseFeeScalar scalars) /\ in_range 32 (BlobBaseFeeScalar scalars).
Proof.
  intros [_ _ [Hl Hb] _] E. unfold SystemConfig_EcotoneScalars, DecodeScalar in E.
  assert (in_range 32 (be_decode (slice 28 32 (Scalar sysCfg)))) as H1 by (apply (slice_range 28 32); unfold zlen; [done | lia ..]).
  assert (in_range 32 (be_decode (slice 24 28 (Scalar sysCfg)))) as H2 by (apply (slice_range 24 28); unfold zlen; [done | lia ..]).
  destruct (CheckEcotoneL1SystemConfigScalar (Scalar sysCfg)) as [u | e | e]; [| | done].
  - destruct (byte_at 0 (Scalar sysCfg) =? L1ScalarBedrock); [injection E as <-; done |].
    destruct (byte_at 0 (Scalar sysCfg) =? L1ScalarEcotone); [injection E as <-; done | done].
  - destruct (String.eqb e _); [injection E as <-; done | done].
Qed.

Lemma operator_range sysCfg : system_wf sysCfg ->
  in_range 32 (ofp_Scalar (OperatorFee sysCfg)) /\ in_range 64 (ofp_Constant (OperatorFee sysCfg)).
Proof.
  intros [_ _ _ [Hl Hb]]. split; [apply (slice_range 20 24) | apply (slice_range 24 32)]; unfold zlen; try done; lia.
Qed.

Section Deposit.
Context {K : Keccak} {KL : KeccakLaws K} {G : Geth} {GL : GethLaws G}.

Lemma l1_info_form cfg sysCfg seq block t info :
  block_wf cfg block -> system_wf sysCfg -> in_range 64 seq -> l1_info cfg sysCfg seq block t = Ok info ->
  info_form cfg t info.
Proof.
  intros [K1 K2 K3 K4 K5] Hs Hq E. pose proof (operator_range sysCfg Hs) as [O1 O2]. unfold l1_info, info_form in *.
  destruct (isEcotoneButNotFirstBlock cfg t).
  - apply bind_ok in E as (scalars & Esc & E). destruct (scalars_range sysCfg scalars Hs Esc) as [S1 S2]. destruct Hs.
    destruct (isIsthmusButNotFirstBlock cfg t); injection E as <-.
    all: split; [split; [split | | | | |]; first [done | eexists; split; done] | done].
  - destruct Hs. injection E as <-. by split.
Qed.

(** The deposit of a block is read back with the information it was made of. *)
Lemma deposit_info cfg sysCfg seq block t u dep :
  Check cfg = Ok u -> block_wf cfg block -> system_wf sysCfg -> in_range 64 seq ->
  L1InfoDeposit cfg sysCfg seq block t = Ok dep ->
  exists info, l1_info cfg sysCfg seq block t = Ok info /\ L1BlockInfoFromBytes cfg t (dt_Data dep) = Ok info.
Proof.
  intros Hc Hk Hs Hq R. unfold L1InfoDeposit in R. apply bind_ok in R as (info & R1 & R). apply bind_ok in R as (data & R2 & R).
  injection R as <-. cbn [dt_Data]. exists info. split; [done |].
  pose proof (l1_info_form cfg sysCfg seq block t info Hk Hs Hq R1) as Hf.
  apply (info_format cfg t u); [done | by eapply info_bytes | done].
Qed.

(** A version 1 scalar holds its two numbers. *)
Lemma encoded_scalars sysCfg scalars :
  in_range 32 (BaseFeeScalar scalars) -> in_range 32 (BlobBaseFeeScalar scalars) -> Scalar sysCfg = EncodeScalar scalars ->
  SystemConfig_EcotoneScalars sysCfg = Ok scalars.
Proof.
  intros H1 H2 E. unfold SystemConfig_EcotoneScalars. rewrite E.
  assert (CheckEcotoneL1SystemConfigScalar (EncodeScalar scalars) = Ok ()) as -> by done.
  assert (DecodeScalar (EncodeScalar scalars) =
    Ok (mkEcotoneScalars (be_decode (be_encode 4 (BlobBaseFeeScalar scalars))) (be_decode (be_encode 4 (BaseFeeScalar scalars))))) as -> by done.
  rewrite !be_decode_encode, !wrap_small by done. by destruct scalars.
Qed.

Lemma encoded_operator params :
  in_range 32 (ofp_Scalar params) -> in_range 64 (ofp_Constant params) ->
  DecodeOperatorFeeParams (EncodeOperatorFeeParams params) = params.
Proof.
  intros H1 H2. transitivity (mkOperatorFeeParams (be_decode (be_encode 4 (ofp_Scalar params))) (be_decode (be_encode 8 (ofp_Constant params)))); [done |].
  rewrite !be_decode_encode, !wrap_small by done. by destruct params.
Qed.

Lemma spliced_scalar scalars :
  splice 28 (be_encode 4 (BaseFeeScalar scalars)) (splice 24 (be_encode 4 (BlobBaseFeeScalar scalars)) (splice 0 [1] zero_hash)) =
  EncodeScalar scalars.
Proof. done. Qed.

(** The first transaction of a block that was built on a deposit. *)
Lemma payload_deposit cfg sysCfg seq block t u tx payload rest :
  Check cfg = Ok u -> block_wf cfg block -> system_wf sysCfg -> in_range 64 seq ->
  L1InfoDepositBytes cfg sysCfg seq block t = Ok tx ->
  ep_Transactions payload = tx :: rest -> ep_Timestamp payload = t ->
  exists info, l1_info cfg sysCfg seq block t = Ok info /\ payload_info cfg payload = Ok info.
Proof.
  intros Hc Hk Hs Hq R Etx Et. unfold L1InfoDepositBytes in R. apply bind_ok in R as (dep & R1 & R2).
  destruct (deposit_info cfg sysCfg seq block t u dep Hc Hk Hs Hq R1) as (info & Ei & R3).
  exists info. split; [done |]. unfold payload_info. rewrite Etx, (deposit_read dep tx R2), Et. cbn. exact R3.
Qed.

(** What the system configuration of a block tells about the one it was built with. *)
Definition same_system cfg t (r sysCfg : SystemConfig) : Prop :=
  BatcherAddr r = BatcherAddr sysCfg /\
  (isEcotoneButNotFirstBlock cfg t = true -> SystemConfig_EcotoneScalars r = SystemConfig_EcotoneScalars sysCfg) /\
  (isEcotoneButNotFirstBlock cfg t = false -> Scalar r = Scalar sysCfg /\ Overhead r = Overhead sysCfg) /\
  (isIsthmusButNotFirstBlock cfg t = true -> OperatorFee r = OperatorFee sysCfg).

Lemma info_system cfg sysCfg seq block t u info r :
  Check cfg = Ok u -> system_wf sysCfg -> l1_info cfg sysCfg seq block t = Ok info ->
  BatcherAddr r = info_BatcherAddr info -> Overhead r = info_L1FeeOverhead info ->
  Scalar r = (if isEcotoneButNotFirstBlock cfg t
    then splice 28 (be_encode 4 (info_BaseFeeScalar info))
           (splice 24 (be_encode 4 (info_BlobBaseFeeScalar info)) (splice 0 [1] (info_L1FeeScalar info)))
    else info_L1FeeScalar info) ->
  (IsIsthmus cfg t = true -> OperatorFeeParams_ r =
     EncodeOperatorFeeParams (mkOperatorFeeParams (info_OperatorFeeScalar info) (info_OperatorFeeConstant info))) ->
  same_system cfg t r sysCfg.
Proof.
  intros Hc Hs Ei Eb Eo Es Ep. pose proof (isthmus_ecotone cfg t u Hc) as Hie. pose proof (operator_range sysCfg Hs) as [O1 O2].
  assert (isIsthmusButNotFirstBlock cfg t = true -> IsIsthmus cfg t = true) as Hii by (by intros [? _]%andb_true_iff).
  unfold same_system, l1_info in *. destruct (isEcotoneButNotFirstBlock cfg t).
  - apply bind_ok in Ei as (scalars & Esc & Ei). destruct (scalars_range sysCfg scalars Hs Esc) as [S1 S2].
    destruct (isIsthmusButNotFirstBlock cfg t); injection Ei as <-; split; try done; (split; [| split; [done |]]); intros Hx.
    1, 3: rewrite Esc; by apply encoded_scalars.
    + unfold OperatorFee at 1. rewrite Ep by auto. by apply encoded_operator.
    + done.
  - injection Ei as <-. split; [done |]. split; [done |]. split; [done |]. intros H. by apply Hie in H.
Qed.

End Deposit.
