(* ===== verification/DepositProps.v ===== *)
(** Deposits and configuration updates: their encodings are inverse to their
    decodings, every matching log counts, and source hashes are unique. *)
From Stdlib Require Import ZArith Lia.
From stdpp Require Import base gmap list strings numbers.
From S2P Require Import Prelude Codec Rollup Frames L1Info DepositLog L1InfoProps.

Lemma be_decode_zeros n l : be_decode (replicate n 0 ++ l) = be_decode l.
Proof.
  rewrite be_decode_app. assert (be_decode (replicate n 0) = 0) as ->; [| lia].
  induction n as [|n IH]; [done |]. cbn [replicate]. rewrite be_decode_cons, IH. lia.
Qed.

Lemma uint64_word_decode n : in_range 64 n -> be_decode (uint64_word n) = n.
Proof. intros Hn. unfold uint64_word. rewrite be_decode_zeros, be_decode_encode. by apply wrap_small. Qed.

Lemma uint64_word_length n : zlen (uint64_word n) = 32.
Proof. unfold uint64_word, zlen. rewrite length_app, length_replicate, length_be_encode. done. Qed.

Lemma zlen_app {A} (a b : list A) : zlen (a ++ b) = zlen a + zlen b.
Proof. unfold zlen. rewrite length_app. lia. Qed.

Lemma zlen_nonneg {A} (a : list A) : 0 <= zlen a.
Proof. unfold zlen. lia. Qed.

Lemma pad32_spec data : exists n, pad32 data = data ++ replicate n 0 /\ (n < 32)%nat /\ zlen (pad32 data) mod 32 = 0.
Proof.
  unfold pad32. pose proof (Z.mod_pos_bound (zlen data) 32 ltac:(lia)) as Hm. destruct (Z.eqb_spec (zlen data mod 32) 0) as [E | E]; cbn [negb].
  - exists 0%nat. rewrite app_nil_r. split; [done |]. split; [lia | done].
  - exists (Z.to_nat (32 - zlen data mod 32)). split; [done |]. split; [lia |].
    rewrite zlen_app. unfold zlen at 2. rewrite length_replicate, Z2Nat.id by lia.
    rewrite (Z.div_mod (zlen data) 32) at 1 by lia.
    replace (_ + _) with ((zlen data / 32 + 1) * 32) by lia. by apply Z.mod_mul.
Qed.

Section Deposits.
Context {K : Keccak} {KL : KeccakLaws K} {G : Geth}.

(** ** The deposit event *)

(** What a deposit event can express: no mint is no mint of zero, and the address of
    the receiver is that of a call. *)
Record deposit_wf (dep : DepositTx) : Prop := {
  dw_From : length (dt_From dep) = 20%nat;
  dw_To : forall to, dt_To dep = Some to -> length to = 20%nat;
  dw_Mint : forall m, dt_Mint dep = Some m -> 0 < m < 2 ^ 256;
  dw_Value : in_range 256 (dt_Value dep);
  dw_Gas : in_range 64 (dt_Gas dep);
  dw_System : dt_IsSystemTransaction dep = false;
  dw_Data : zlen (dt_Data dep) < 2 ^ 62;
}.

Definition mint_word (m : option Z) : list Z :=
  match m with Some m => be_encode 32 m | None => replicate 32 0 end.

Definition opaque_bytes (dep : DepositTx) : list Z :=
  mint_word (dt_Mint dep) ++ be_encode 32 (dt_Value dep) ++ be_encode 8 (dt_Gas dep) ++
  [match dt_To dep with None => 1 | Some _ => 0 end] ++ dt_Data dep.

Lemma marshal_opaque dep : deposit_wf dep -> marshalDepositVersion0 dep = Ok (opaque_bytes dep).
Proof.
  intros [_ _ Hm [Hv1 Hv2] _ _ _]. unfold marshalDepositVersion0, fill_word, opaque_bytes, mint_word.
  rewrite (Z.abs_eq (dt_Value dep)) by done. destruct (Z.leb_spec (2 ^ 256) (dt_Value dep)); [lia |].
  destruct (dt_Mint dep) as [m |]; [| done]. specialize (Hm m eq_refl). rewrite (Z.abs_eq m) by lia.
  destruct (Z.leb_spec (2 ^ 256) m); [lia |]. done.
Qed.

Lemma mint_word_length m : zlen (mint_word m) = 32.
Proof. unfold zlen. destruct m; cbn [mint_word]; by rewrite ?length_be_encode, ?length_replicate. Qed.

Lemma opaque_length dep : zlen (opaque_bytes dep) = 73 + zlen (dt_Data dep).
Proof.
  unfold opaque_bytes. rewrite !zlen_app, mint_word_length. unfold zlen. rewrite !length_be_encode. cbn [length]. lia.
Qed.

Lemma unmarshal_opaque dep source to :
  deposit_wf dep -> (forall a, dt_To dep = Some a -> to = a) ->
  unmarshalDepositVersion0 source (dt_From dep) to (opaque_bytes dep) =
    Ok (mkDepositTx source (dt_From dep) (dt_To dep) (dt_Mint dep) (dt_Value dep) (dt_Gas dep) false (dt_Data dep)).
Proof.
  intros [_ _ Hm Hv Hg _ _] Hto. unfold unmarshalDepositVersion0. rewrite opaque_length.
  pose proof (zlen_nonneg (dt_Data dep)). destruct (Z.ltb_spec (73 + zlen (dt_Data dep)) (32 + 32 + 8 + 1)); [lia |].
  assert (zlen [match dt_To dep with None => 1 | Some _ => 0 end] = 1) as L3 by done.
  assert (zlen (be_encode 32 (dt_Value dep)) = 32) as L1 by (unfold zlen; by rewrite length_be_encode).
  assert (zlen (be_encode 8 (dt_Gas dep)) = 8) as L2 by (unfold zlen; by rewrite length_be_encode).
  assert (slice 0 32 (opaque_bytes dep) = mint_word (dt_Mint dep)) as -> by (apply slice_all, mint_word_length).
  assert (slice 32 64 (opaque_bytes dep) = be_encode 32 (dt_Value dep)) as ->.
  { unfold opaque_bytes. apply slice_app; [apply mint_word_length | lia]. }
  assert (slice 64 72 (opaque_bytes dep) = be_encode 8 (dt_Gas dep)) as ->.
  { unfold opaque_bytes. rewrite (app_assoc (mint_word _)). apply slice_app; [rewrite zlen_app, mint_word_length; lia | lia]. }
  assert (slice 73 (73 + zlen (dt_Data dep)) (opaque_bytes dep) = dt_Data dep) as ->.
  { unfold opaque_bytes. rewrite <- (app_nil_r (dt_Data dep)) at 2. rewrite !app_assoc, <- (app_assoc _ (dt_Data dep)).
    apply slice_app; [rewrite !zlen_app, mint_word_length, L3; lia | lia]. }
  assert (byte_at 72 (opaque_bytes dep) = match dt_To dep with None => 1 | Some _ => 0 end) as ->.
  { unfold byte_at, opaque_bytes. rewrite !app_assoc, lookup_app_l, lookup_app_r.
    all: pose proof (mint_word_length (dt_Mint dep)); unfold zlen in *; rewrite !length_app; cbn [length]; try lia.
    replace (72 - _)%nat with 0%nat by lia. done. }
  rewrite !be_decode_encode, !wrap_small by done. destruct Hg as [Hg1 Hg2]. destruct (Z.leb_spec (2 ^ 64) (dt_Gas dep)); [lia |].
  f_equal. f_equal.
  - destruct (dt_To dep) as [a |]; [| done]. cbn. f_equal. by apply Hto.
  - destruct (dt_Mint dep) as [m |]; cbn [mint_word].
    + specialize (Hm m eq_refl). rewrite be_decode_encode, wrap_small by (unfold in_range; cbn; lia).
      destruct (Z.eqb_spec m 0); [lia | done].
    + by rewrite <- (app_nil_r (replicate 32 0)), be_decode_zeros.
Qed.

(** The block and the position of a log, which L1 fills in. *)
Definition logged_at (blockHash : hash) (idx : Z) (l : Log) : Log :=
  mkLog (log_Address l) (Topics l) (log_Data l) blockHash idx.

Lemma topic_padded a : length a = 20%nat -> topic_address (AddressAsLeftPaddedHash a) = a.
Proof.
  intros Ha. unfold topic_address, AddressAsLeftPaddedHash. rewrite <- (app_nil_r a) at 1.
  apply slice_app; [done | unfold zlen; lia].
Qed.

Lemma deposit_event_roundtrip addr dep l blockHash idx :
  deposit_wf dep -> MarshalDepositLogEvent addr dep = Ok l ->
  UnmarshalDepositLogEvent (logged_at blockHash idx l) =
    Ok (mkDepositTx (UserDepositSource_SourceHash blockHash idx) (dt_From dep) (dt_To dep) (dt_Mint dep) (dt_Value dep)
          (dt_Gas dep) false (dt_Data dep)).
Proof.
  intros Hw E. unfold MarshalDepositLogEvent in E. rewrite (marshal_opaque dep Hw) in E. apply ok_inj in E. subst l.
  pose proof (opaque_length dep) as Hl. pose proof (zlen_nonneg (dt_Data dep)) as Hd0. pose proof (dw_Data dep Hw) as Hd.
  set (opaque := opaque_bytes dep) in *. set (head := uint64_word 32 ++ uint64_word (zlen opaque) ++ opaque).
  destruct (pad32_spec head) as (n & Ep & Hn & Hmod). assert (in_range 64 (zlen opaque)) as Hr by (unfold in_range; lia).
  assert (pad32 head = uint64_word 32 ++ uint64_word (zlen opaque) ++ opaque ++ replicate n 0) as E.
  { rewrite Ep. unfold head. by rewrite <- !app_assoc. }
  assert (zlen (pad32 head) = 64 + zlen opaque + Z.of_nat n) as Hlen.
  { rewrite E, !zlen_app, !uint64_word_length. unfold zlen at 2. rewrite length_replicate. lia. }
  unfold UnmarshalDepositLogEvent, logged_at. cbn [Topics log_Data log_BlockHash log_Index].
  rewrite decide_False by naive_solver. rewrite Hmod, Hlen. cbn [negb Z.eqb].
  destruct (Z.ltb_spec (64 + zlen opaque + Z.of_nat n) 64); [lia |]. rewrite E.
  rewrite slice_all by apply uint64_word_length. rewrite (uint64_word_decode 32) by done. cbn [negb orb Z.ltb Z.eqb].
  rewrite (slice_app 32 64), uint64_word_decode by (done || by rewrite uint64_word_length).
  rewrite wrap_small by (unfold in_range; lia). unfold uadd. rewrite (wrap_small 64 (zlen opaque + 32)) by (unfold in_range; lia).
  destruct Hr as [_ Hr]. destruct (Z.ltb_spec (zlen opaque) (2 ^ 64)); [| lia].
  destruct (Z.ltb_spec (64 + zlen opaque + Z.of_nat n - 64) (zlen opaque)); [lia |].
  destruct (Z.leb_spec (zlen opaque + 32) (64 + zlen opaque + Z.of_nat n - 64)); [lia |].
  replace (negb (32 <? 2 ^ 64) || negb (32 =? 32)) with false by done. cbn [negb orb].
  assert (slice 64 (64 + zlen opaque) (uint64_word 32 ++ uint64_word (zlen opaque) ++ opaque ++ replicate n 0) = opaque) as ->.
  { rewrite (app_assoc (uint64_word 32)). apply slice_app; [by rewrite zlen_app, !uint64_word_length | lia]. }
  rewrite decide_True by done. rewrite (topic_padded (dt_From dep)) by apply Hw.
  apply (unmarshal_opaque dep); [done |]. intros a Ha. rewrite Ha. by apply topic_padded, (dw_To dep Hw).
Qed.

(** ** Every log counts *)

(** The logs of successful receipts for an event, in order. *)
Definition event_logs (addr : list Z) (event : hash) (receipts : list Receipt) : list Log :=
  receipts ≫= (fun rec => if Status rec =? ReceiptStatusSuccessful
                          then filter (fun l => is_event addr event l = true) (Logs rec) else []).

Lemma foldl_filter {A B} (f : A -> B -> A) (p : B -> bool) (l : list B) (a : A) :
  foldl (fun a x => if p x then f a x else a) a l = foldl f a (filter (fun x => p x = true) l).
Proof.
  revert a. induction l as [|x l IH]; intros a; [done |]. cbn [foldl]. rewrite IH, filter_cons.
  destruct (p x) eqn:E; [by rewrite decide_True | rewrite decide_False by congruence; done].
Qed.

Lemma fold_receipts {A} (f : A -> Log -> A) addr event receipts (a : A) :
  foldl (fun acc rec =>
    if negb (Status rec =? ReceiptStatusSuccessful) then acc
    else foldl (fun acc log => if is_event addr event log then f acc log else acc) acc (Logs rec)) a receipts =
  foldl f a (event_logs addr event receipts).
Proof.
  revert a. induction receipts as [|rec receipts IH]; intros a; [done |]. cbn [foldl]. rewrite IH.
  unfold event_logs. cbn [mbind list_bind]. destruct (Status rec =? ReceiptStatusSuccessful); cbn [negb].
  - by rewrite foldl_app, foldl_filter.
  - done.
Qed.

Definition result {A} (m : outcome A) : option A := match m with Ok a => Some a | _ => None end.
Definition failure {A} (m : outcome A) : option string := match m with Ok _ => None | Err e | Panic e => Some e end.

Lemma UserDeposits_all receipts addr :
  let logs := event_logs addr DepositEventABIHash receipts in
  UserDeposits receipts addr =
    (omap (fun l => result (UnmarshalDepositLogEvent l)) logs, omap (fun l => failure (UnmarshalDepositLogEvent l)) logs).
Proof.
  intros logs. unfold UserDeposits. rewrite fold_receipts. fold logs.
  assert (forall acc, foldl deposit_log acc logs =
    (acc.1 ++ omap (fun l => result (UnmarshalDepositLogEvent l)) logs,
     acc.2 ++ omap (fun l => failure (UnmarshalDepositLogEvent l)) logs)) as H; [| by rewrite H].
  induction logs as [|l logs IH]; intros [d e]; cbn [foldl omap list_omap fst snd]; [by rewrite !app_nil_r |].
  rewrite IH. unfold deposit_log. destruct (UnmarshalDepositLogEvent l); cbn; by rewrite <- ?app_assoc.
Qed.

(** ** Sources *)

Inductive source : Type :=
| UserDeposit (l1BlockHash : hash) (logIndex : Z)
| L1InfoDeposited (l1BlockHash : hash) (seqNumber : Z)
| UpgradeDeposit (intent : string)
| AfterForceInclude (l1BlockHash : hash) (seqNumber : Z)
| InvalidatedBlock (outputRoot : hash).

Definition SourceHash (s : source) : hash :=
  match s with
  | UserDeposit h i => UserDepositSource_SourceHash h i
  | L1InfoDeposited h n => L1InfoDepositSource_SourceHash h n
  | UpgradeDeposit intent => UpgradeDepositSource_SourceHash intent
  | AfterForceInclude h n => AfterForceIncludeSource_SourceHash h n
  | InvalidatedBlock r => InvalidatedBlockSource_SourceHash r
  end.

Definition source_wf (s : source) : Prop :=
  match s with
  | UserDeposit h i | L1InfoDeposited h i | AfterForceInclude h i => length h = 32%nat /\ in_range 64 i
  | UpgradeDeposit _ => True
  | InvalidatedBlock r => length r = 32%nat
  end.

(** The strings that are hashed for a source: its identity and, with the domain in
    front, the digest of it. *)
Definition domain (s : source) : Z :=
  match s with
  | UserDeposit _ _ => UserDepositSourceDomain
  | L1InfoDeposited _ _ => L1InfoDepositSourceDomain
  | UpgradeDeposit _ => UpgradeDepositSourceDomain
  | AfterForceInclude _ _ => AfterForceIncludeSourceDomain
  | InvalidatedBlock _ => InvalidatedBlockSourceDomain
  end.

Definition identity (s : source) : option (list Z) :=
  match s with
  | UserDeposit h i | L1InfoDeposited h i | AfterForceInclude h i => Some (h ++ uint64_word i)
  | UpgradeDeposit intent => Some (string_bytes intent)
  | InvalidatedBlock _ => None
  end.

Definition identity_hash (s : source) : hash :=
  match s with
  | InvalidatedBlock r => r
  | _ => keccak256 (default [] (identity s))
  end.

Definition source_inputs (s : source) : list (list Z) :=
  (uint64_word (domain s) ++ identity_hash s) :: match identity s with Some x => [x] | None => [] end.

(** A collision of the hash function among these strings. *)
Definition collision (xs ys : list (list Z)) : Prop :=
  exists x y, x ∈ xs /\ y ∈ ys /\ x <> y /\ keccak256 x = keccak256 y.

Lemma hash_inj xs ys x y : x ∈ xs -> y ∈ ys -> keccak256 x = keccak256 y -> x = y \/ collision xs ys.
Proof. intros Hx Hy E. destruct (decide (x = y)); [by left | right; by exists x, y]. Qed.

Lemma string_bytes_inj s1 s2 : string_bytes s1 = string_bytes s2 -> s1 = s2.
Proof.
  revert s2. induction s1 as [|c s1 IH]; intros [|c2 s2]; cbn; try done. intros [= H1 H2].
  f_equal; [| by apply IH]. apply N2Z.inj in H1. rewrite <- (Ascii.ascii_N_embedding c), H1. apply Ascii.ascii_N_embedding.
Qed.

Lemma uint64_word_inj m n : in_range 64 m -> in_range 64 n -> uint64_word m = uint64_word n -> m = n.
Proof. intros Hm Hn E. by rewrite <- (uint64_word_decode m), E, uint64_word_decode. Qed.

Lemma identity_inj s1 s2 : source_wf s1 -> source_wf s2 -> domain s1 = domain s2 -> identity s1 = identity s2 ->
  (identity s1 = None -> identity_hash s1 = identity_hash s2) -> s1 = s2.
Proof.
  intros H1 H2 Ed Ei Eh. destruct s1, s2; try done; cbn in *.
  all: try (injection Ei as Ei; apply app_inj_1 in Ei as [-> Ei]; [| lia]; f_equal; apply uint64_word_inj; [apply H1 | apply H2 | done]).
  - f_equal. apply string_bytes_inj. by injection Ei.
  - f_equal. by apply Eh.
Qed.

Lemma source_unique s1 s2 :
  source_wf s1 -> source_wf s2 -> SourceHash s1 = SourceHash s2 ->
  s1 = s2 \/ collision (source_inputs s1) (source_inputs s2).
Proof.
  intros H1 H2 E.
  assert (forall s, SourceHash s = keccak256 (uint64_word (domain s) ++ identity_hash s)) as Hs by (by intros []).
  rewrite !Hs in E. apply (hash_inj (source_inputs s1) (source_inputs s2)) in E as [E | ?]; [| by right | apply list_elem_of_here ..].
  apply app_inj_1 in E as [Ed Eh]; [| pose proof (uint64_word_length (domain s1)); pose proof (uint64_word_length (domain s2)); unfold zlen in *; lia].
  apply uint64_word_inj in Ed; [| by destruct s1 | by destruct s2].
  assert (identity s1 = identity s2 \/ collision (source_inputs s1) (source_inputs s2)) as [Ei | ?]; [| left; by apply identity_inj | by right].
  destruct (identity s1) as [x |] eqn:I1, (identity s2) as [y |] eqn:I2.
  - assert (keccak256 x = keccak256 y) as Exy.
    { destruct s1, s2; cbn in I1, I2; try done; injection I1 as <-; injection I2 as <-; exact Eh. }
    assert (x ∈ source_inputs s1 /\ y ∈ source_inputs s2) as [Hx Hy].
    { unfold source_inputs. rewrite I1, I2. split; apply list_elem_of_further, list_elem_of_here. }
    destruct (hash_inj _ _ x y Hx Hy Exy) as [-> | ?]; [by left | by right].
  - by destruct s1, s2.
  - by destruct s1, s2.
  - by left.
Qed.

(** ** Configuration updates *)

Inductive update : Type :=
| NewBatcher (address : list Z)
| NewFeeScalars (overhead scalar : list Z)
| NewGasLimit (gasLimit : Z)
| NewEIP1559Params (params : list Z)
| NewOperatorFeeParams (params : list Z)
| NewUnsafeBlockSigner.

(** The kind, the ABI-encoded value with its length, and the range of an update. *)
Definition kind (u : update) : hash :=
  match u with
  | NewBatcher _ => SystemConfigUpdateBatcher
  | NewFeeScalars _ _ => SystemConfigUpdateFeeScalars
  | NewGasLimit _ => SystemConfigUpdateGasLimit
  | NewEIP1559Params _ => SystemConfigUpdateEIP1559Params
  | NewOperatorFeeParams _ => SystemConfigUpdateOperatorFeeParams
  | NewUnsafeBlockSigner => SystemConfigUpdateUnsafeBlockSigner
  end.

Definition abi (len : Z) (value : list Z) : list Z := Solabi.WriteUint64 32 ++ Solabi.WriteUint64 len ++ value.

Definition encodes (u : update) (data : list Z) : Prop :=
  match u with
  | NewBatcher a => fixed 20 a /\ data = abi 32 (Solabi.WriteAddress a)
  | NewFeeScalars o s => fixed 32 o /\ fixed 32 s /\ data = abi 64 (o ++ s)
  | NewGasLimit g => in_range 64 g /\ data = abi 32 (Solabi.WriteUint64 g)
  | NewEIP1559Params p => fixed 32 p /\ data = abi 32 p
  | NewOperatorFeeParams p => fixed 32 p /\ data = abi 32 p
  | NewUnsafeBlockSigner => True
  end.

Definition apply_update (cfg : Config) (l1Time : Z) (u : update) (c : SystemConfig) : SystemConfig :=
  match u with
  | NewBatcher a => set_batcher a c
  | NewFeeScalars o s =>
      if IsEcotone cfg l1Time
      then match CheckEcotoneL1SystemConfigScalar s with Ok _ => set_scalars zero_hash s c | _ => c end
      else set_scalars o s c
  | NewGasLimit g => set_gas_limit g c
  | NewEIP1559Params p => set_eip1559 (drop 24 p) c
  | NewOperatorFeeParams p => set_operator p c
  | NewUnsafeBlockSigner => c
  end.

Lemma expect_codec n x : in_range 64 n -> codec (expect_uint64 n x) (fun _ => Solabi.WriteUint64 n) (fun _ => True).
Proof.
  intros Hn. destruct (codec_error (NewCriticalError x) _ _ _ Uint64_codec) as [Hd Hi]. unfold expect_uint64. split.
  - intros [] rest _. rewrite (ST_bind_run _ _ _ n rest) by (by apply Hd). by rewrite Z.eqb_refl.
  - intros s [] rest Hs R. apply ST_bind_ok in R as (v & s1 & R1 & R2). apply Hi in R1 as (-> & Hv & Hr); [| done].
    destruct (Z.eqb_spec v n) as [-> |]; [| done]. by injection R2 as <-.
Qed.

Lemma read_update_iff {A} len (d : ST (list Z) A) e (P : A -> Prop) data a :
  in_range 64 len -> codec d e P -> bytes_ok data ->
  (read_update len d data = Ok a <-> P a /\ data = abi len (e a)).
Proof.
  intros Hl Hd Hb. unfold read_update.
  assert (codec (_ ← expect_uint64 32 "invalid pointer field"; _ ← expect_uint64 len "invalid length field"; d)
    (fun a => Solabi.WriteUint64 32 ++ Solabi.WriteUint64 len ++ e a) P) as [Hr Hi].
  { apply (codec_bind _ (fun _ => Solabi.WriteUint64 32) (fun _ => True) _ (fun _ : A => ())); [by apply expect_codec | done | intros [] _].
    apply (codec_bind _ (fun _ => Solabi.WriteUint64 len) (fun _ => True) _ (fun _ : A => ())); [by apply expect_codec | done | intros [] _].
    destruct Hd as [Hd1 Hd2]. split.
    - intros b rest [[Hb1 _] _]. by apply Hd1.
    - intros s b rest Hs R. apply Hd2 in R as (-> & Hb1 & Hb2); done. }
  split.
  - intros ([a' rest] & R & E)%bind_ok. destruct rest; [| done]. injection E as ->. apply Hi in R as (-> & Ha & _); [| done].
    by rewrite app_nil_r.
  - intros [Ha ->]. unfold abi. rewrite <- (app_nil_r (_ ++ _)), Hr by done. done.
Qed.

(** The values that are read for each kind. *)
Definition crit {A} (e : string) (m : ST (list Z) A) : ST (list Z) A := Solabi.replace_error (NewCriticalError e) m.

Lemma scalars_codec :
  codec (o ← crit "could not read overhead" Solabi.ReadEthBytes32; s ← crit "could not read scalar" Solabi.ReadEthBytes32; mret (o, s))
    (fun p => p.1 ++ p.2) (fun p => fixed 32 p.1 /\ fixed 32 p.2).
Proof.
  eapply (codec_ext _ (fun p => p.1 ++ p.2 ++ [])); [| by intros p _; rewrite app_nil_r].
  apply (codec_bind _ Solabi.WriteEthBytes32 (fixed 32) _ fst (fun p => p.2 ++ [])); [apply codec_error, Bytes32_codec | by intros p [? _] | intros o Ho].
  apply (codec_bind _ Solabi.WriteEthBytes32 (fixed 32) _ snd (fun _ => [])); [apply codec_error, Bytes32_codec | by intros p [[_ ?] _] | intros s Hs].
  apply codec_ret. intros [o' s']. cbn. split; [by intros [[_ <-] <-] | by intros [= -> ->]].
Qed.

Lemma eip1559_slice p : fixed 32 p -> slice 24 32 p = drop 24 p.
Proof. intros [Hl _]. unfold slice. apply take_ge. rewrite length_drop. lia. Qed.

Ltac update_case :=
  match goal with
  | |- context [decide (?x = ?y)] => destruct (decide (x = y)) as [-> |]
  end.

Lemma update_event c ev cfg l1Time c' :
  bytes_ok (log_Data ev) ->
  (ProcessSystemConfigUpdateLogEvent c ev cfg l1Time = Ok c' <->
   exists u, Topics ev = [ConfigUpdateEventABIHash; zero_hash; kind u] /\ encodes u (log_Data ev) /\
             c' = apply_update cfg l1Time u c).
Proof.
  intros Hb. unfold ProcessSystemConfigUpdateLogEvent. assert (in_range 64 32) as R32 by done. assert (in_range 64 64) as R64 by done.
  pose proof (fun a => read_update_iff 32 _ _ _ (log_Data ev) a R32 (codec_error (NewCriticalError "could not read address") _ _ _ Address_codec) Hb) as HA.
  pose proof (fun a => read_update_iff 64 _ _ _ (log_Data ev) a R64 scalars_codec Hb) as HS.
  pose proof (fun a => read_update_iff 32 _ _ _ (log_Data ev) a R32 (codec_error (NewCriticalError "could not read gas limit") _ _ _ Uint64_codec) Hb) as HG.
  pose proof (fun a => read_update_iff 32 _ _ _ (log_Data ev) a R32 (codec_error (NewCriticalError "could not read eip-1559 params") _ _ _ Bytes32_codec) Hb) as HE.
  pose proof (fun a => read_update_iff 32 _ _ _ (log_Data ev) a R32 (codec_error (NewCriticalError "could not read operator fee params") _ _ _ Bytes32_codec) Hb) as HO.
  split.
  - destruct (Topics ev) as [|event [|version [|typ [|]]]]; try done.
    destruct (decide (event <> ConfigUpdateEventABIHash)) as [| He]; [done |]. apply dec_stable in He as ->.
    destruct (decide (version <> ConfigUpdateEventVersion0)) as [| Hv]; [done |]. apply dec_stable in Hv as ->.
    update_case. { intros (a & R & [= <-])%bind_ok. apply HA in R as [Ha Hd]. by exists (NewBatcher a). }
    update_case. { intros ([o s] & R & E)%bind_ok. apply HS in R as [[Ho Hs] Hd]. exists (NewFeeScalars o s). split; [done |].
      split; [done |]. cbn [apply_update]. destruct (IsEcotone cfg l1Time); [| by injection E].
      by destruct (CheckEcotoneL1SystemConfigScalar s); injection E. }
    update_case. { intros (a & R & [= <-])%bind_ok. apply HG in R as [Ha Hd]. by exists (NewGasLimit a). }
    update_case. { intros (a & R & [= <-])%bind_ok. apply HE in R as [Ha Hd]. exists (NewEIP1559Params a).
      cbn [apply_update]. by rewrite eip1559_slice. }
    update_case. { intros (a & R & [= <-])%bind_ok. apply HO in R as [Ha Hd]. by exists (NewOperatorFeeParams a). }
    update_case; [| done]. intros [= <-]. by exists NewUnsafeBlockSigner.
  - intros (u & -> & Hd & ->). do 2 rewrite decide_False by (intros Hn; by apply Hn). destruct u; cbn [kind encodes apply_update] in *.
    + rewrite decide_True by done. eapply bind_ok_intro; [by apply HA | done].
    + rewrite decide_False, decide_True by done. destruct Hd as (Ho & Hs & Hd). eapply bind_ok_intro; [by apply (HS (overhead, scalar)) |].
      cbn. destruct (IsEcotone cfg l1Time); [| done]. by destruct (CheckEcotoneL1SystemConfigScalar scalar).
    + rewrite !decide_False, decide_True by done. eapply bind_ok_intro; [by apply HG | done].
    + rewrite !decide_False, decide_True by done. eapply bind_ok_intro; [by apply HE |]. by rewrite eip1559_slice by apply Hd.
    + rewrite !decide_False, decide_True by done. eapply bind_ok_intro; [by apply HO | done].
    + by rewrite !decide_False, decide_True by done.
Qed.

(** A receipt changes the configuration only through its events, in order. *)
Lemma UpdateSystemConfig_all sysCfg receipts cfg l1Time :
  UpdateSystemConfigWithL1Receipts sysCfg receipts cfg l1Time =
  foldl (update_log cfg l1Time) (sysCfg, []) (event_logs (L1SystemConfigAddress cfg) ConfigUpdateEventABIHash receipts).
Proof. apply fold_receipts. Qed.

End Deposits.
