(* ===== verification/BatchProps.v ===== *)
(** The rules for batches: what an accepted batch satisfies, and that a decision
    that was made early is not changed by more L1 blocks. *)
From Stdlib Require Import ZArith Lia Sorted.
From stdpp Require Import base gmap list strings numbers.
From S2P Require Import Prelude Codec Rollup Frames L1Info Batches.

(** ** Singular batches *)

(** A transaction that a sequencer may include. *)
Definition tx_allowed (isIsthmus : bool) (tx : list Z) : Prop :=
  exists t rest, tx = t :: rest /\ t <> DepositTxType /\ (isIsthmus = true \/ t <> SetCodeTxType).

Lemma check_transactions_iff isthmus txs : check_transactions isthmus txs = true <-> Forall (tx_allowed isthmus) txs.
Proof.
  induction txs as [|tx txs IH]; cbn [check_transactions]; [by split |]. rewrite Forall_cons_iff, <- IH.
  destruct tx as [|t rest]; [split; [done | by intros [(? & ? & ? & _) _]] |].
  destruct (Z.eqb_spec t DepositTxType) as [-> | Hd]; [split; [done | by intros [(? & ? & [= <- <-] & ? & _) _]] |].
  destruct (Z.eqb_spec t SetCodeTxType) as [-> | Hs].
  - destruct isthmus; cbn [negb andb].
    + split; [intros H; split; [exists SetCodeTxType, rest; auto | done] | by intros [_ H]].
    + split; [done | by intros [(? & ? & [= <- <-] & _ & [? | ?]) _]].
  - rewrite andb_false_r. split; [intros H; split; [exists t, rest; auto | done] | by intros [_ H]].
Qed.

(** Not too far behind the origin, or empty with no later origin to adopt. *)
Definition drift_ok (cfg : Config) (timestamp : Z) (origin : L1BlockRef) (empty advanced : bool) (next : option L1BlockRef) : Prop :=
  timestamp <= uadd 64 (l1_Time origin) (MaxSequencerDrift (NewChainSpec cfg) (l1_Time origin)) \/
  empty = true /\ (advanced = true \/ exists n, next = Some n /\ timestamp < l1_Time n).

Lemma check_drift_iff cfg t o empty advanced next :
  check_drift cfg t o empty advanced next = BatchAccept <-> drift_ok cfg t o empty advanced next.
Proof.
  unfold check_drift, drift_ok. set (mx := uadd _ _ _). destruct (Z.ltb_spec mx t) as [H | H]; [| split; [by left | done]].
  destruct empty; [| split; [done | intros [? | [? _]]; [lia | done]]].
  destruct advanced; cbn [negb]; [split; [auto | done] |]. destruct next as [n |].
  - destruct (Z.leb_spec (l1_Time n) t) as [Hn | Hn]; split; try done.
    + intros [? | (_ & [? | (n' & [= <-] & ?)])]; [lia | done | lia].
    + intros _. right. split; [done |]. right. by exists n.
  - split; [done |]. intros [? | (_ & [? | (n' & ? & _)])]; [lia | done | done].
Qed.

(** What it takes for a singular batch to be accepted on top of [head]. *)
Record valid_singular (cfg : Config) (epoch : L1BlockRef) (more : list L1BlockRef) (safe : L2BlockRef) (batch : SingularBatch)
    (inclusion origin : L1BlockRef) : Prop := {
  vs_time : Timestamp batch = uadd 64 (l2_Time safe) (BlockTime cfg);
  vs_parent : ParentHash batch = l2_Hash safe;
  vs_window : l1_Number inclusion <= uadd 64 (EpochNum batch) (SeqWindowSize cfg);
  vs_origin : EpochNum batch = l1_Number epoch /\ origin = epoch \/
    l1_Number epoch < EpochNum batch /\ EpochNum batch = uadd 64 (l1_Number epoch) 1 /\ head more = Some origin;
  vs_hash : EpochHash batch = l1_Hash origin;
  vs_after : l1_Time origin <= Timestamp batch;
  vs_drift : drift_ok cfg (Timestamp batch) origin (is_empty (Transactions batch))
    (negb (l1_Number epoch =? l1_Number origin)) (head more);
  vs_txs : Forall (tx_allowed (IsIsthmus cfg (Timestamp batch))) (Transactions batch);
}.

Lemma singular_accept cfg l1Blocks safe batch inclusion :
  checkSingularBatch cfg l1Blocks safe batch inclusion = BatchAccept <->
  exists epoch more origin, l1Blocks = epoch :: more /\ valid_singular cfg epoch more safe batch inclusion origin.
Proof.
  unfold checkSingularBatch. destruct l1Blocks as [|epoch more]; [split; [done | by intros (? & ? & ? & ? & _)] |].
  assert (forall o, (if decide (EpochHash batch <> l1_Hash o) then BatchDrop
      else if Timestamp batch <? l1_Time o then BatchDrop
      else match check_drift cfg (Timestamp batch) o (is_empty (Transactions batch)) (negb (l1_Number epoch =? l1_Number o)) (head more) with
           | BatchAccept => if check_transactions (IsIsthmus cfg (Timestamp batch)) (Transactions batch) then BatchAccept else BatchDrop
           | v => v end) = BatchAccept <->
    EpochHash batch = l1_Hash o /\ l1_Time o <= Timestamp batch /\
    drift_ok cfg (Timestamp batch) o (is_empty (Transactions batch)) (negb (l1_Number epoch =? l1_Number o)) (head more) /\
    Forall (tx_allowed (IsIsthmus cfg (Timestamp batch))) (Transactions batch)) as Ho.
  { intros o. rewrite <- check_drift_iff, <- check_transactions_iff. destruct (decide (EpochHash batch <> l1_Hash o)) as [Hh | Hh].
    - split; [done | by intros [? _]].
    - apply dec_stable in Hh. destruct (Z.ltb_spec (Timestamp batch) (l1_Time o)); [split; [done | intros (_ & ? & _); lia] |].
      destruct (check_drift _ _ _ _ _ _); try (split; [done | by intros (_ & _ & ? & _)]).
      destruct (check_transactions _ _); split; try done. by intros (_ & _ & _ & ?). }
  set (nt := uadd 64 (l2_Time safe) (BlockTime cfg)).
  split.
  - destruct (Z.ltb_spec nt (Timestamp batch)) as [H1 | H1]; [by destruct (IsHolocene _ _) |].
    destruct (Z.ltb_spec (Timestamp batch) nt) as [H2 | H2]; [by destruct (IsHolocene _ _) |].
    destruct (decide (ParentHash batch <> l2_Hash safe)) as [| H3]; [done |]. apply dec_stable in H3.
    destruct (Z.ltb_spec (uadd 64 (EpochNum batch) (SeqWindowSize cfg)) (l1_Number inclusion)) as [| H4]; [done |].
    destruct (Z.ltb_spec (EpochNum batch) (l1_Number epoch)) as [| H5]; [done |].
    destruct (Z.eqb_spec (EpochNum batch) (l1_Number epoch)) as [H6 | H6].
    + intros (A1 & A2 & A3 & A4)%Ho. exists epoch, more, epoch. split; [done |]. split; try done; [unfold nt in *; lia | by left].
    + destruct (Z.eqb_spec (EpochNum batch) (uadd 64 (l1_Number epoch) 1)) as [H7 | H7]; [| done].
      destruct more as [|next more]; [done |]. intros (A1 & A2 & A3 & A4)%Ho. exists epoch, (next :: more), next. split; [done |].
      split; try done; [unfold nt in *; lia | right; split; [lia | done]].
  - intros (? & ? & o & [= <- <-] & [V1 V2 V3 V4 V5 V6 V7 V8]). fold nt in V1.
    destruct (Z.ltb_spec nt (Timestamp batch)); [lia |]. destruct (Z.ltb_spec (Timestamp batch) nt); [lia |].
    rewrite decide_False by (intros Hn; by apply Hn).
    destruct (Z.ltb_spec (uadd 64 (EpochNum batch) (SeqWindowSize cfg)) (l1_Number inclusion)); [lia |].
    destruct V4 as [[E ->] | (Hlt & E & Em)].
    + destruct (Z.ltb_spec (EpochNum batch) (l1_Number epoch)); [lia |].
      destruct (Z.eqb_spec (EpochNum batch) (l1_Number epoch)); [by apply Ho | lia].
    + destruct (Z.ltb_spec (EpochNum batch) (l1_Number epoch)); [lia |].
      destruct (Z.eqb_spec (EpochNum batch) (l1_Number epoch)); [lia |].
      destruct (Z.eqb_spec (EpochNum batch) (uadd 64 (l1_Number epoch) 1)); [| lia].
      destruct more as [|next more]; [done |]. injection Em as ->. by apply Ho.
Qed.

(** *** Early decisions *)

Lemma check_drift_more cfg t o empty advanced next next' :
  (forall n, next = Some n -> next' = Some n) -> check_drift cfg t o empty advanced next <> BatchUndecided ->
  check_drift cfg t o empty advanced next' = check_drift cfg t o empty advanced next.
Proof.
  intros Hn. unfold check_drift. destruct (_ <? t); [| done]. destruct empty; [| done]. destruct advanced; [done |]. cbn [negb].
  destruct next as [n |]; [| done]. by rewrite (Hn n eq_refl).
Qed.

Lemma head_app {A} (l m : list A) x : head l = Some x -> head (l ++ m) = Some x.
Proof. by destruct l. Qed.

Lemma singular_stable cfg l1Blocks more safe batch inclusion :
  checkSingularBatch cfg l1Blocks safe batch inclusion <> BatchUndecided ->
  checkSingularBatch cfg (l1Blocks ++ more) safe batch inclusion = checkSingularBatch cfg l1Blocks safe batch inclusion.
Proof.
  destruct l1Blocks as [|epoch l]; [done |]. cbn [app]. unfold checkSingularBatch.
  assert (forall o, (if decide (EpochHash batch <> l1_Hash o) then BatchDrop
      else if Timestamp batch <? l1_Time o then BatchDrop
      else match check_drift cfg (Timestamp batch) o (is_empty (Transactions batch)) (negb (l1_Number epoch =? l1_Number o)) (head l) with
           | BatchAccept => if check_transactions (IsIsthmus cfg (Timestamp batch)) (Transactions batch) then BatchAccept else BatchDrop
           | v => v end) <> BatchUndecided ->
     (if decide (EpochHash batch <> l1_Hash o) then BatchDrop
      else if Timestamp batch <? l1_Time o then BatchDrop
      else match check_drift cfg (Timestamp batch) o (is_empty (Transactions batch)) (negb (l1_Number epoch =? l1_Number o)) (head (l ++ more)) with
           | BatchAccept => if check_transactions (IsIsthmus cfg (Timestamp batch)) (Transactions batch) then BatchAccept else BatchDrop
           | v => v end) =
     (if decide (EpochHash batch <> l1_Hash o) then BatchDrop
      else if Timestamp batch <? l1_Time o then BatchDrop
      else match check_drift cfg (Timestamp batch) o (is_empty (Transactions batch)) (negb (l1_Number epoch =? l1_Number o)) (head l) with
           | BatchAccept => if check_transactions (IsIsthmus cfg (Timestamp batch)) (Transactions batch) then BatchAccept else BatchDrop
           | v => v end)) as Ho.
  { intros o. destruct (decide (EpochHash batch <> l1_Hash o)); [done |]. destruct (Timestamp batch <? l1_Time o); [done |].
    intros Hu. rewrite (check_drift_more _ _ _ _ _ (head l)); [done | intros ?; apply head_app |].
    intros E. by rewrite E in Hu. }
  destruct (_ <? Timestamp batch); [done |]. destruct (Timestamp batch <? _); [done |]. destruct (decide (ParentHash batch <> _)); [done |].
  destruct (_ <? l1_Number inclusion); [done |]. destruct (EpochNum batch <? _); [done |].
  destruct (EpochNum batch =? l1_Number epoch); [apply Ho |]. destruct (EpochNum batch =? uadd 64 _ _); [| done].
  destruct l as [|next l]; [done | apply Ho].
Qed.

(** With two L1 blocks a singular batch is never undecided. *)
Lemma singular_decided cfg epoch next l1Blocks safe batch inclusion :
  checkSingularBatch cfg (epoch :: next :: l1Blocks) safe batch inclusion <> BatchUndecided.
Proof.
  unfold checkSingularBatch, check_drift. cbn [head]. repeat case_match; congruence.
Qed.

(** ** Span batches *)

Definition sorted_blocks (l : list L1BlockRef) : Prop := StronglySorted (fun a b => l1_Number a < l1_Number b) l.

Lemma find_from_app idx n l more :
  find_from idx n (l ++ more) = match find_from idx n l with Some r => Some r | None => find_from (idx + length l) n more end.
Proof.
  revert idx. induction l as [|b l IH]; intros idx; cbn [app find_from length]; [by rewrite Nat.add_0_r |].
  destruct (_ =? n); [done |]. rewrite IH. by rewrite Nat.add_succ_r.
Qed.

Lemma find_from_none idx n l : Forall (fun b => l1_Number b <> n) l -> find_from idx n l = None.
Proof.
  intros H. revert idx. induction H as [|b l Hb H IH]; intros idx; cbn; [done |]. destruct (Z.eqb_spec (l1_Number b) n); [done | apply IH].
Qed.

Lemma find_from_some idx n l i b : find_from idx n l = Some (i, b) ->
  exists k, i = (idx + k)%nat /\ l !! k = Some b /\ l1_Number b = n.
Proof.
  revert idx. induction l as [|c l IH]; intros idx; cbn; [done |]. destruct (Z.eqb_spec (l1_Number c) n).
  - intros [= <- <-]. exists 0%nat. split; [lia | done].
  - intros H. destruct (IH _ H) as (k & -> & Hk & Hn). exists (S k). split; [lia | done].
Qed.

Lemma find_origin_some l idx n i b : find_origin l idx n = Some (i, b) -> (idx <= i)%nat /\ l !! i = Some b /\ l1_Number b = n.
Proof. intros (k & -> & Hk & Hn)%find_from_some. rewrite lookup_drop in Hk. split; [lia | done]. Qed.

Lemma find_origin_app l more idx n :
  (idx <= length l)%nat -> Forall (fun b => n < l1_Number b) more -> find_origin (l ++ more) idx n = find_origin l idx n.
Proof.
  intros Hi Hm. unfold find_origin. rewrite drop_app_le by done. rewrite find_from_app.
  destruct (find_from idx n (drop idx l)); [done |]. apply find_from_none. eapply Forall_impl; [| exact Hm]. intros; cbn in *; lia.
Qed.

Lemma span_blocks_stable cfg l more safe idx elements : forall prev advanced,
  (idx < length l)%nat -> Forall (fun e => Forall (fun b => el_EpochNum e < l1_Number b) more) elements ->
  check_span_blocks cfg l safe prev idx advanced elements <> BatchUndecided ->
  check_span_blocks cfg (l ++ more) safe prev idx advanced elements = check_span_blocks cfg l safe prev idx advanced elements.
Proof.
  revert idx. induction elements as [|e elements IH]; intros idx prev advanced Hi He; cbn [check_span_blocks]; [done |].
  inversion He as [| ? ? He1 He2]; subst. destruct (el_Timestamp e <=? l2_Time safe); [by apply IH |].
  rewrite find_origin_app by (done || lia).
  assert (exists j o, (match find_origin l idx (el_EpochNum e) with Some (j, o) => (j, o) | None => (idx, mkL1BlockRef zero_hash 0 zero_hash 0) end) = (j, o)
    /\ (j < length l)%nat) as (j & o & -> & Hj).
  { destruct (find_origin l idx (el_EpochNum e)) as [[j o] |] eqn:E; [| eauto].
    apply find_origin_some in E as (_ & E & _). apply lookup_lt_Some in E. eauto. }
  destruct (el_Timestamp e <? l1_Time o); [done |]. intros Hu. rewrite (check_drift_more _ _ _ _ _ (l !! S j)).
  - destruct (check_drift _ _ _ _ _ (l !! S j)) eqn:E; try done. destruct (check_transactions _ _); [| done]. by apply IH.
  - intros n Hn. by apply lookup_app_l_Some.
  - intros E. by rewrite E in Hu.
Qed.

Lemma end_origin_stable batch n l more :
  check_end_origin batch n l <> BatchUndecided -> check_end_origin batch n (l ++ more) = check_end_origin batch n l.
Proof. induction l as [|b l IH]; cbn; [done |]. destruct (_ =? n); [done | apply IH]. Qed.

Lemma end_origin_found batch n l : check_end_origin batch n l <> BatchUndecided -> exists b, b ∈ l /\ l1_Number b = n.
Proof.
  induction l as [|b l IH]; cbn; [done |]. destruct (Z.eqb_spec (l1_Number b) n) as [E | E].
  - intros _. exists b. split; [apply list_elem_of_here | done].
  - intros (b' & Hb & Hn)%IH. exists b'. split; [by apply list_elem_of_further | done].
Qed.

(** The origins of a span do not go beyond that of its last block. *)
Definition epochs_bounded (batch : SpanBatch) : Prop :=
  forall final, list.last (Batches batch) = Some final -> Forall (fun e => el_EpochNum e <= el_EpochNum final) (Batches batch).


Lemma span_parent_stable cfg l more batch startN endN inclusion parent :
  check_span_parent cfg l batch startN endN inclusion parent <> BatchUndecided ->
  check_span_parent cfg (l ++ more) batch startN endN inclusion parent = check_span_parent cfg l batch startN endN inclusion parent.
Proof.
  unfold check_span_parent. destruct (negb _); [done |]. destruct (_ <? l1_Number inclusion); [done |]. destruct (_ <? startN); [done |].
  intros Hu. rewrite end_origin_stable; [done |]. intros E. by rewrite E in Hu.
Qed.

Lemma prefix_stable cfg l more safe batch inclusion l2 v parent :
  checkSpanBatchPrefix cfg l safe batch inclusion l2 = Ok (v, parent) -> v <> BatchUndecided ->
  checkSpanBatchPrefix cfg (l ++ more) safe batch inclusion l2 = Ok (v, parent).
Proof.
  unfold checkSpanBatchPrefix. destruct l as [|epoch l]; [by intros [= <- _] |]. cbn [app].
  destruct (head (Batches batch)) as [first |]; [| done]. destruct (list.last (Batches batch)) as [final |]; [| done].
  intros R Hv.
  assert (exists o, (if el_EpochNum first =? uadd 64 (l1_Number epoch) 1 then head l else Some epoch) = Some o /\
    (if el_EpochNum first =? uadd 64 (l1_Number epoch) 1 then head (l ++ more) else Some epoch) = Some o) as (o & E1 & E2).
  { destruct (_ =? _); [| eauto]. destruct (head l) as [o |] eqn:Eh; [| by injection R as <-]. exists o. split; [done | by apply head_app]. }
  rewrite E1 in R. rewrite E2. destruct (negb (IsDelta _ _)); [done |]. destruct (_ <? el_Timestamp first); [done |].
  destruct (el_Timestamp final <? _); [done |].
  assert (forall p, Ok (check_span_parent cfg (epoch :: l) batch (el_EpochNum first) (el_EpochNum final) inclusion p, p) = Ok (v, parent) ->
    Ok (check_span_parent cfg (epoch :: l ++ more) batch (el_EpochNum first) (el_EpochNum final) inclusion p, p) = Ok (v, parent)) as Hp.
  { intros p [= <- ->]. f_equal. f_equal. by apply (span_parent_stable cfg (epoch :: l) more). }
  destruct (el_Timestamp first <? _); [| by apply Hp]. destruct (_ <? el_Timestamp first); [done |].
  destruct (BlockTime cfg =? 0); [done |]. destruct (negb _); [done |].
  destruct (L2BlockRefByNumber l2 _); [by apply Hp | done | done].
Qed.

(** What an accepted prefix says about the L1 blocks. *)
Lemma prefix_accept cfg l safe batch inclusion l2 parent :
  checkSpanBatchPrefix cfg l safe batch inclusion l2 = Ok (BatchAccept, parent) ->
  exists final b, list.last (Batches batch) = Some final /\ b ∈ l /\ l1_Number b = el_EpochNum final.
Proof.
  unfold checkSpanBatchPrefix. destruct l as [|epoch l]; [done |].
  destruct (head (Batches batch)) as [first |]; [| done]. destruct (list.last (Batches batch)) as [final |]; [| done].
  destruct (if _ =? _ then _ else _) as [o |]; [| done]. destruct (negb _); [done |]. destruct (_ <? _); [by destruct (IsHolocene _ _) |].
  destruct (_ <? _); [by destruct (IsHolocene _ _) |].
  assert (forall p, Ok (check_span_parent cfg (epoch :: l) batch (el_EpochNum first) (el_EpochNum final) inclusion p, p) = Ok (BatchAccept, parent) ->
    exists final0 b, Some final = Some final0 /\ b ∈ epoch :: l /\ l1_Number b = el_EpochNum final0) as Hp.
  { intros p [= E _]. unfold check_span_parent in E.
    destruct (negb _); [done |]. destruct (_ <? l1_Number inclusion); [done |]. destruct (_ <? el_EpochNum first); [done |].
    destruct (end_origin_found batch (el_EpochNum final) (epoch :: l)) as (b & Hb & Hn); [by intros E'; rewrite E' in E |]. eauto. }
  destruct (_ <? _); [| by apply Hp]. destruct (_ <? _); [done |]. destruct (_ =? 0); [done |]. destruct (negb _); [done |].
  destruct (L2BlockRefByNumber l2 _); [by apply Hp | done | done].
Qed.

Lemma sorted_app_lt l more a b : sorted_blocks (l ++ more) -> a ∈ l -> b ∈ more -> l1_Number a < l1_Number b.
Proof.
  intros Hs Ha Hb. induction l as [|c l IH]; [by apply elem_of_nil in Ha |]. cbn [app] in Hs.
  apply StronglySorted_inv in Hs as [Hs Hc]. apply elem_of_cons in Ha as [-> | Ha]; [| by apply IH].
  rewrite Forall_forall in Hc. apply Hc, list_elem_of_In, elem_of_app. by right.
Qed.

Section Stable.
Context {K : Keccak} {G : Geth}.

Lemma span_stable cfg l more safe batch inclusion l2 v :
  sorted_blocks (l ++ more) -> epochs_bounded batch ->
  checkSpanBatch cfg l safe batch inclusion l2 = Ok v -> v <> BatchUndecided ->
  checkSpanBatch cfg (l ++ more) safe batch inclusion l2 = Ok v.
Proof.
  intros Hs He R Hv. unfold checkSpanBatch in *. apply bind_ok in R as ([pv parent] & R1 & R).
  assert (pv <> BatchUndecided) as Hpv by (intros ->; by injection R as <-).
  rewrite (prefix_stable cfg l more safe batch inclusion l2 pv parent R1 Hpv). cbn [mbind outcome_bind].
  destruct pv; try done. destruct (head (Batches batch)) as [first |]; [| done].
  destruct (prefix_accept cfg l safe batch inclusion l2 parent R1) as (final & b & Hl & Hb & Hn).
  rewrite (span_blocks_stable cfg l more safe 0 (Batches batch)); [done | | |].
  - destruct l; [by apply elem_of_nil in Hb | cbn; lia].
  - eapply Forall_impl; [| exact (He final Hl)]. intros e Hle. apply Forall_forall. intros m Hm%list_elem_of_In.
    pose proof (sorted_app_lt l more b m Hs Hb Hm). cbn in *. lia.
  - intros E. rewrite E in R. by injection R as <-.
Qed.

Lemma batch_stable cfg l more safe batch l2 v :
  sorted_blocks (l ++ more) -> (forall b, bw_Batch batch = Span b -> epochs_bounded b) ->
  CheckBatch cfg l safe batch l2 = Ok v -> v <> BatchUndecided -> CheckBatch cfg (l ++ more) safe batch l2 = Ok v.
Proof.
  intros Hs He R Hv. unfold CheckBatch in *. destruct (bw_Batch batch) as [b | b].
  - injection R as <-. by rewrite singular_stable.
  - apply (span_stable cfg l more); auto.
Qed.

End Stable.
