(* ===== verification/StageProps.v ===== *)
(** The batch stage after Holocene: the batches it returns extend the safe chain
    one block at a time, with origins on the canonical L1 chain. *)
From Stdlib Require Import ZArith Lia.
From stdpp Require Import base gmap list strings numbers.
From S2P Require Import Prelude Codec Rollup Frames L1Info Batches BatchStages BatchProps DepositLog.
From S2P Require Import Attributes L1InfoProps DepositProps.

(** What the stages rely on: reading batches and flushing do not move the origin. *)
Class BatchProviderLaws (P : Type) {BP : NextBatchProvider P} : Prop := {
  next_origin : forall p r p', NextBatch p = (r, p') -> batch_Origin p' = batch_Origin p;
  flush_origin : forall p r p', FlushChannel p = (r, p') -> batch_Origin p' = batch_Origin p;
}.

Section Chain.
Context {K : Keccak} {G : Geth} {P : Type} {BP : NextBatchProvider P} {BL : BatchProviderLaws P}.

(** The canonical L1 chain, by number. *)
Context (chain : Z -> option L1BlockRef).
Hypothesis chain_number : forall n b, chain n = Some b -> l1_Number b = n /\ 0 <= n < 2 ^ 63.

Context (cfg : Config).

Definition canonical (b : L1BlockRef) : Prop := chain (l1_Number b) = Some b.

Lemma canonical_range b : canonical b -> 0 <= l1_Number b < 2 ^ 63.
Proof using chain_number. intros H. by apply chain_number in H as [_ H]. Qed.

Lemma canonical_eq a b : canonical a -> canonical b -> l1_Number a = l1_Number b -> a = b.
Proof. unfold canonical. intros Ha Hb E. rewrite E in Ha. congruence. Qed.

(** Canonical blocks in a row. *)
Inductive segment : list L1BlockRef -> Prop :=
| segment_one b : canonical b -> segment [b]
| segment_cons b c l : canonical b -> l1_Number c = l1_Number b + 1 -> segment (c :: l) -> segment (b :: c :: l).

(** A safe head: its origin is canonical and not later than it, and the next
    timestamp does not overflow. *)
Record head_ok (parent : L2BlockRef) : Prop := {
  ho_origin : exists o, canonical o /\ L1BlockRef_ID o = L1Origin parent /\ l1_Time o <= l2_Time parent;
  ho_time : 0 <= l2_Time parent;
  ho_next : l2_Time parent + BlockTime cfg < 2 ^ 64;
}.

(** The batch is a block on top of the safe head: the next timestamp, the origin of
    the head or one of the two L1 blocks behind it, not later than the block;
    transactions only within the drift. *)
Record extends (parent : L2BlockRef) (b : SingularBatch) : Prop := {
  ex_parent : ParentHash b = l2_Hash parent;
  ex_time : Timestamp b = l2_Time parent + BlockTime cfg;
  ex_origin : exists o, canonical o /\ Epoch b = L1BlockRef_ID o /\ l1_Time o <= Timestamp b /\
    b_Number (L1Origin parent) <= l1_Number o <= b_Number (L1Origin parent) + 2 /\
    (Transactions b <> [] -> Timestamp b <= uadd 64 (l1_Time o) (MaxSequencerDrift (NewChainSpec cfg) (l1_Time o)));
}.

(** The invariant of the stage between calls. *)
Record stage_inv (parent : L2BlockRef) (bs : baseBatchStage P) : Prop := {
  si_config : bs_config bs = cfg;
  si_origin : canonical (origin bs);
  si_prev : canonical (base_Origin bs) /\
    (base_Origin bs = origin bs \/ l1_Number (base_Origin bs) = l1_Number (origin bs) + 1);
  si_blocks : l1Blocks bs = [] /\ l1_Number (origin bs) < b_Number (L1Origin parent) \/
    segment (l1Blocks bs) /\ list.last (l1Blocks bs) = Some (origin bs) /\
    exists epoch, head (l1Blocks bs) = Some epoch /\
      (l1_Number epoch <= b_Number (L1Origin parent) \/
       l1_Number epoch = b_Number (L1Origin parent) + 1 /\ l1_Time epoch <= l2_Time parent + BlockTime cfg);
}.

Lemma segment_head b l : segment (b :: l) -> canonical b.
Proof. by inversion 1. Qed.

Lemma segment_snoc l a b : segment l -> list.last l = Some a -> canonical b -> l1_Number b = l1_Number a + 1 -> segment (l ++ [b]).
Proof.
  induction 1 as [c Hc | c d l Hc E H IH]; intros Hl Hb En.
  - injection Hl as ->. cbn. constructor; [done | done | by constructor].
  - cbn [app]. constructor; [done | done |]. apply IH; [| done | done]. by rewrite last_cons_cons in Hl.
Qed.

Lemma segment_drop l i b : segment l -> l !! i = Some b -> segment (drop i l) /\ list.last (drop i l) = list.last l.
Proof.
  intros H. revert i. induction H as [c Hc | c d l Hc E H IH]; intros i Hi.
  - destruct i; [by split; [constructor |] | done].
  - destruct i as [|i]; [by split; [constructor |] |]. cbn [drop]. rewrite last_cons_cons. by apply IH.
Qed.

Lemma head_origin parent : head_ok parent -> forall o, canonical o -> l1_Number o = b_Number (L1Origin parent) ->
  L1BlockRef_ID o = L1Origin parent /\ l1_Time o <= l2_Time parent.
Proof.
  intros [(o' & Ho' & Eid & Ht) _] o Ho En. assert (o = o') as -> by (apply canonical_eq; [done | done | by rewrite En, <- Eid]). done.
Qed.

Lemma head_number parent : head_ok parent -> 0 <= b_Number (L1Origin parent) < 2 ^ 63.
Proof using chain_number. intros [(o & Ho & Eid & _) _]. rewrite <- Eid. by apply canonical_range. Qed.

(** *** Updating the origins *)

Lemma set_blocks_inv parent bs l :
  stage_inv parent bs -> segment l -> list.last l = Some (origin bs) ->
  (exists epoch, head l = Some epoch /\ (l1_Number epoch <= b_Number (L1Origin parent) \/
     l1_Number epoch = b_Number (L1Origin parent) + 1 /\ l1_Time epoch <= l2_Time parent + BlockTime cfg)) ->
  stage_inv parent (set_l1Blocks l bs).
Proof. intros [I1 I2 I3 _] Hs Hl He. split; try done. right. done. Qed.

Lemma updateOrigins_inv parent bs :
  head_ok parent -> stage_inv parent bs ->
  stage_inv parent (updateOrigins parent bs) /\ origin (updateOrigins parent bs) = base_Origin (updateOrigins parent bs) /\
  base_Origin (updateOrigins parent bs) = base_Origin bs.
Proof using chain_number.
  intros Hp Hi. unfold updateOrigins. set (bs1 := if decide (origin bs <> base_Origin bs) then _ else bs).
  assert (stage_inv parent bs1 /\ origin bs1 = base_Origin bs1 /\ base_Origin bs1 = base_Origin bs) as (H1 & Ho & Hb).
  { destruct Hi as [I1 I2 [I3 I3'] I4]. unfold bs1. destruct (decide (origin bs <> base_Origin bs)) as [Hne | He].
    2: { apply dec_stable in He. split; [by split; [| | split; [| left] |] | by split]. }
    destruct I3' as [? | Hnext]; [by destruct Hne |]. unfold originBehind. destruct (Z.ltb_spec (l1_Number (base_Origin bs)) (b_Number (L1Origin parent))) as [Hlt | Hge]; cbn [negb].
    - split; [| by split]. split; [done | done | by split; [| left] |]. left. by split.
    - split; [| by split]. split; [done | done | by split; [| left] |]. right. cbn [l1Blocks set_l1Blocks set_origin origin].
      rewrite last_snoc. destruct I4 as [[-> Hlt] | (Hs & Hl & epoch & Hh & He)].
      + split; [by constructor |]. split; [done |]. exists (base_Origin bs). split; [done |]. left. lia.
      + split; [by eapply segment_snoc |]. split; [done |]. exists epoch. split; [by apply head_app | done]. }
  destruct (l1Blocks bs1) as [|first rest] eqn:El; [by rewrite ?El |].
  destruct (Z.ltb_spec (l1_Number first) (b_Number (L1Origin parent))) as [Hlt |]; [| done].
  split; [| by split]. rewrite <- El. unfold advance_to.
  destruct (find_from 0 (b_Number (L1Origin parent)) (l1Blocks bs1)) as [[i b] |] eqn:Ef.
  - apply find_from_some in Ef as (k & -> & Hk & Hn). cbn [Nat.add].
    destruct (si_blocks parent bs1 H1) as [[E _] | (Hs & Hl & _)]; [by rewrite E in El |].
    destruct (segment_drop (l1Blocks bs1) k b Hs Hk) as [Hd Hld]. apply set_blocks_inv; [done | done | by rewrite Hld |].
    exists b. split; [| left; lia]. by rewrite (drop_S _ b).
  - by destruct bs1.
Qed.

(** *** One call *)

Lemma set_prev_inv parent bs p : stage_inv parent bs -> batch_Origin p = base_Origin bs -> stage_inv parent (set_prev p bs).
Proof. intros [I1 I2 I3 I4] E. split; try done. unfold base_Origin in *. cbn. by rewrite E. Qed.

Lemma set_nextSpan_inv parent bs l : stage_inv parent bs -> stage_inv parent (set_nextSpan l bs).
Proof. by intros [I1 I2 I3 I4]. Qed.

(** What a call keeps: everything but the span, the provider, and epochs that are done. *)
Definition kept (bs bs' : baseBatchStage P) : Prop :=
  bs_config bs' = bs_config bs /\ origin bs' = origin bs /\ l1Blocks bs' = l1Blocks bs /\ base_Origin bs' = base_Origin bs.

Lemma kept_inv parent bs bs' : stage_inv parent bs -> kept bs bs' -> stage_inv parent bs'.
Proof. intros [I1 I2 I3 I4] (E1 & E2 & E3 & E4). split; by rewrite ?E1, ?E2, ?E3, ?E4. Qed.

Lemma kept_trans a b c : kept a b -> kept b c -> kept a c.
Proof. intros (A1 & A2 & A3 & A4) (B1 & B2 & B3 & B4). split_and!; congruence. Qed.

Lemma kept_refl a : kept a a.
Proof. done. Qed.

Lemma kept_prev bs r p : NextBatch (bs_prev bs) = (r, p) -> kept bs (set_prev p bs).
Proof using BL. intros E. split_and!; try done. unfold base_Origin. cbn. by eapply next_origin. Qed.

Lemma flush_kept {A} bs (r : outcome A) bs' : flush_and_retry bs = (r, bs') -> kept bs bs' /\ forall a, r <> Ok a.
Proof using BL.
  unfold flush_and_retry, bs_FlushChannel. destruct (FlushChannel _) as [f p] eqn:E.
  assert (kept bs (set_prev p (set_nextSpan [] bs))) as Hk.
  { split_and!; try done. unfold base_Origin. cbn in *. by eapply flush_origin. }
  destruct f; intros [= <- <-]; done.
Qed.

Lemma from_span_kept parent bs r bs' : nextFromSpanBatch parent bs = (r, bs') -> kept bs bs'.
Proof.
  unfold nextFromSpanBatch, popNextBatch. destruct (nextSpan bs) as [|b l] eqn:E; [by intros [= <- <-] |].
  destruct (_ =? _); by intros [= <- <-].
Qed.

Lemma candidate_kept l2 parent bs r bs' : nextSingularBatchCandidate l2 parent bs = (r, bs') -> kept bs bs'.
Proof using BL.
  unfold nextSingularBatchCandidate. destruct (nextFromSpanBatch parent bs) as [f bs1] eqn:E1. apply from_span_kept in E1 as K1.
  destruct f as [[[b |] l] | e | e]; try (intros [= <- <-]; done).
  destruct (NextBatch (bs_prev bs1)) as [n p] eqn:E2. apply kept_prev in E2 as K2. pose proof (kept_trans _ _ _ K1 K2) as K3.
  destruct n as [[b | b] | e | e]; try (intros [= <- <-]; done). unfold span_candidate.
  destruct (checkSpanBatchPrefix _ _ _ _ _ _) as [[v q] | e | e]; try (intros [= <- <-]; done).
  destruct v; try (intros [= <- <-]; done).
  - intros [K4 _]%flush_kept. by eapply kept_trans.
  - destruct (GetSingularBatches _ _ _) as [bl | e | e]; try (intros [= <- <-]; done). unfold popNextBatch.
    destruct bl; intros [= <- <-]; (eapply kept_trans; [exact K3 | by split_and!]).
Qed.

(** The number of an epoch that matches the head. *)
Lemma epoch_number parent epoch : head_ok parent -> canonical epoch -> epoch_matches parent epoch = true ->
  l1_Number epoch = b_Number (L1Origin parent) \/ l1_Number epoch = b_Number (L1Origin parent) + 1.
Proof using chain_number.
  intros Hp Hc Hm. pose proof (canonical_range epoch Hc) as Hr. pose proof (head_number parent Hp) as Hpn.
  unfold epoch_matches in Hm. apply orb_true_iff in Hm as [Hm%bool_decide_eq_true | Hm%Z.eqb_eq]; [rewrite Hm; cbn; by left |].
  unfold usub in Hm. destruct (Z.eq_dec (l1_Number epoch) 0) as [E0 | E0].
  - rewrite E0 in Hm. change (wrap 64 (0 - 1)) with (2 ^ 64 - 1) in Hm. lia.
  - rewrite wrap_small in Hm by (unfold in_range; lia). lia.
Qed.

(** An accepted candidate extends the head. *)
Lemma accepted_extends parent bs b inclusion :
  0 <= BlockTime cfg -> head_ok parent -> stage_inv parent bs ->
  (forall epoch, head (l1Blocks bs) = Some epoch -> epoch_matches parent epoch = true) ->
  checkSingularBatch cfg (l1Blocks bs) parent b inclusion = BatchAccept ->
  extends parent b /\ exists epoch, head (l1Blocks bs) = Some epoch /\ l1_Number epoch <= EpochNum b.
Proof using chain_number.
  intros Hbt Hp Hi Hm R. apply singular_accept in R as (epoch & more & o & El & [V1 V2 V3 V4 V5 V6 V7 V8]).
  destruct (si_blocks parent bs Hi) as [[E _] | (Hs & Hl & e' & Hh & He)]; [by rewrite El in E |].
  rewrite El in Hs, Hh. injection Hh as <-. specialize (Hm epoch ltac:(by rewrite El)).
  pose proof (canonical_range epoch (segment_head _ _ Hs)) as Hr.
  assert (canonical o /\ l1_Number o = EpochNum b /\ (l1_Number o = l1_Number epoch \/ l1_Number o = l1_Number epoch + 1)) as (Hco & Hno & Hoe).
  { destruct V4 as [[E ->] | (Hlt & E & Ho)].
    - split; [by eapply segment_head |]. split; [done | by left].
    - inversion Hs as [| b' c l Hb' Ec Hs']; subst; [done |]. injection Ho as ->.
      split; [by eapply segment_head |]. unfold uadd in E. rewrite wrap_small in E by (unfold in_range; lia). split; [lia | by right]. }
  assert (b_Number (L1Origin parent) <= l1_Number o <= b_Number (L1Origin parent) + 2) as Hob.
  { destruct (epoch_number parent epoch Hp (segment_head _ _ Hs) Hm); lia. }
  destruct Hp as [Hpo Hp0 Hp1].
  split; [| exists epoch; rewrite El; split; [done | lia]].
  split; [done | |].
  - rewrite V1. unfold uadd. apply wrap_small. unfold in_range. lia.
  - exists o. split; [done |]. split; [unfold Epoch, L1BlockRef_ID; by rewrite V5, Hno |]. split; [done |]. split; [done |].
    intros Hne. destruct V7 as [? | [Hem _]]; [done |]. by destruct (Transactions b).
Qed.

(** Forced batches, and the epochs that are skipped on the way to them. *)
Lemma empty_batch parent bs out r bs' :
  0 <= BlockTime cfg -> head_ok parent -> stage_inv parent bs ->
  (forall epoch, head (l1Blocks bs) = Some epoch -> epoch_matches parent epoch = true) ->
  deriveNextEmptyBatch out parent bs = (r, bs') ->
  stage_inv parent bs' /\ base_Origin bs' = base_Origin bs /\ origin bs' = origin bs /\
  (forall b, r = Ok b -> extends parent b /\ exists epoch, head (l1Blocks bs') = Some epoch /\ l1_Number epoch <= EpochNum b).
Proof using chain_number.
  intros Hbt Hp Hi Hm R. unfold deriveNextEmptyBatch in R. pose proof (si_config parent bs Hi) as Ec.
  destruct (l1Blocks bs) as [|epoch rest] eqn:El; [injection R as <- <-; done |].
  destruct (negb _); [injection R as <- <-; done |]. destruct rest as [|nextEpoch rest]; [injection R as <- <-; done |].
  destruct (si_blocks parent bs Hi) as [[E _] | (Hs & Hl & e' & Hh & He)]; [by rewrite El in E |].
  rewrite El in Hs, Hl, Hh. injection Hh as <-. specialize (Hm epoch eq_refl).
  pose proof (segment_head _ _ Hs) as Hce. pose proof (epoch_number parent epoch Hp Hce Hm) as Hen.
  pose proof (head_number parent Hp) as Hpn. pose proof (head_origin parent Hp epoch Hce) as Hho. destruct Hp as [Hpo Hp0 Hp1].
  assert (uadd 64 (b_Number (L1Origin parent)) 1 = b_Number (L1Origin parent) + 1) as E1.
  { unfold uadd. apply wrap_small. unfold in_range. lia. }
  assert (uadd 64 (l2_Time parent) (BlockTime (bs_config bs)) = l2_Time parent + BlockTime cfg) as E2.
  { unfold uadd. rewrite Ec. apply wrap_small. unfold in_range. lia. }
  rewrite E1, E2 in R. destruct (Z.ltb_spec (l2_Time parent + BlockTime cfg) (l1_Time nextEpoch)) as [Hlt | Hge].
  2: destruct (Z.eqb_spec (l1_Number epoch) (b_Number (L1Origin parent) + 1)) as [Hf | Hf].
  all: cbn [orb] in R; injection R as <- <-.
  3: { inversion Hs as [| b' c l Hb' Ecn Hs']; subst. split; [| done]. apply set_blocks_inv; [done | done | |].
       - by rewrite last_cons_cons in Hl.
       - exists nextEpoch. split; [done |]. right. split; [lia | done]. }
  all: split; [done |]; split; [done |]; split; [done |]; intros b [= <-]; (split; [| exists epoch; by rewrite El]).
  all: split; cbn [ParentHash Timestamp Transactions Epoch EpochHash EpochNum]; [done | done |].
  all: exists epoch; split; [done |]; split; [done |]; split; [| split; [lia | done]].
  all: destruct He as [He | [_ He]]; [| lia]; destruct Hho as [_ Ht]; [lia | lia].
Qed.

Lemma stage_call l2 parent bs r bs' :
  0 <= BlockTime cfg -> head_ok parent -> stage_inv parent bs -> bs_NextBatch l2 parent bs = (r, bs') ->
  stage_inv parent bs' /\ base_Origin bs' = base_Origin bs /\ origin bs' = base_Origin bs /\
  (forall b c, r = Ok (b, c) -> extends parent b /\ exists epoch, head (l1Blocks bs') = Some epoch /\ l1_Number epoch <= EpochNum b).
Proof using BL chain_number.
  intros Hbt Hp Hi R. unfold bs_NextBatch in R. destruct (updateOrigins_inv parent bs Hp Hi) as (Hi1 & Ho1 & Hb1).
  set (bs1 := updateOrigins parent bs) in *. rewrite <- Hb1.
  assert (forall bs2, kept bs1 bs2 -> stage_inv parent bs2 /\ base_Origin bs2 = base_Origin bs1 /\ origin bs2 = base_Origin bs1) as Hk.
  { intros bs2 Kp. pose proof Kp as (K1 & K2 & K3 & K4). split; [by eapply kept_inv |]. split; [done | congruence]. }
  destruct (_ || _).
  { destruct (NextBatch (bs_prev bs1)) as [n p] eqn:E. apply kept_prev in E. apply Hk in E.
    destruct n; injection R as <- <-; destruct E as (? & ? & ?); split_and!; done. }
  destruct (l1Blocks bs1) as [|epoch [|next rest]] eqn:El; [injection R as <- <-; by destruct (Hk bs1 (kept_refl _)) as (? & ? & ?) .. |].
  destruct (epoch_matches parent epoch) eqn:Em; cbn [negb] in R; [| injection R as <- <-; by destruct (Hk bs1 (kept_refl _)) as (? & ? & ?)].
  destruct (nextSingularBatchCandidate l2 parent bs1) as [c bs2] eqn:Ec. apply candidate_kept in Ec as K2. pose proof (Hk bs2 K2) as (I2 & B2 & O2).
  assert (forall e, head (l1Blocks bs2) = Some e -> epoch_matches parent e = true) as Hm.
  { destruct K2 as (_ & _ & -> & _). rewrite El. by intros e [= <-]. }
  destruct c as [b | e | e].
  - rewrite (si_config parent bs2 I2) in R. destruct (checkSingularBatch cfg (l1Blocks bs2) parent b (origin bs2)) eqn:Ev.
    + apply flush_kept in R as [K3 Hr]. destruct (Hk bs') as (? & ? & ?); [by eapply kept_trans |]. split_and!; try done. intros b' c' ->. by destruct (Hr (b', c')).
    + injection R as <- <-. split_and!; try done. intros b' c' [= <- <-]. by apply (accepted_extends parent bs2 b (origin bs2)).
    + by injection R as <- <-.
    + by injection R as <- <-.
    + by injection R as <- <-.
  - destruct (String.eqb e EOF); [| by injection R as <- <-]. unfold mbind, stage_bind in R.
    destruct (deriveNextEmptyBatch true parent bs2) as [d bs3] eqn:Ed. destruct (empty_batch parent bs2 true d bs3 Hbt Hp I2 Hm Ed) as (I3 & B3 & O3 & H3).
    destruct d as [b | e' | e']; injection R as <- <-; split_and!; try done; try congruence. intros b' c' [= <- <-]. by apply H3.
  - by injection R as <- <-.
Qed.

(** *** Runs *)

(** The block that is built from a batch. *)
Record child_of (parent : L2BlockRef) (b : SingularBatch) (child : L2BlockRef) : Prop := {
  co_parent : l2_ParentHash child = l2_Hash parent;
  co_number : l2_Number child = l2_Number parent + 1;
  co_time : l2_Time child = Timestamp b;
  co_origin : L1Origin child = Epoch b;
  co_next : l2_Time child + BlockTime cfg < 2 ^ 64;
}.

(** The stage and the safe head, in the course of derivation: after a reset at or
    before the origin of the head, calls, blocks that are built from the batches
    that are returned, and the next L1 block once the stage has seen the last one. *)
Inductive stage_run : baseBatchStage P -> L2BlockRef -> Prop :=
| run_reset bs base parent r bs' :
    bs_config bs = cfg -> canonical base -> base_Origin bs = base -> head_ok parent ->
    l1_Number base <= b_Number (L1Origin parent) -> bs_Reset base bs = (r, bs') -> stage_run bs' parent
| run_call l2 bs parent r bs' : stage_run bs parent -> bs_NextBatch l2 parent bs = (r, bs') -> stage_run bs' parent
| run_apply l2 bs parent b c bs' child :
    stage_run bs parent -> bs_NextBatch l2 parent bs = (Ok (b, c), bs') -> child_of parent b child -> stage_run bs' child
| run_advance bs parent p :
    stage_run bs parent -> base_Origin bs = origin bs -> canonical (batch_Origin p) ->
    l1_Number (batch_Origin p) = l1_Number (origin bs) + 1 -> stage_run (set_prev p bs) parent.

Lemma stage_run_inv bs parent : 0 <= BlockTime cfg -> stage_run bs parent -> head_ok parent /\ stage_inv parent bs.
Proof using BL chain_number.
  intros Hbt. induction 1 as [bs base parent r bs' Ec Hc Hb Hp Hle R | l2 bs parent r bs' H [Hp Hi] R
    | l2 bs parent b c bs' child H [Hp Hi] R Hch | bs parent p H [Hp Hi] Ho Hc Hn].
  - injection R as _ <-. split; [done |]. split; try done.
    + unfold base_Origin in *. cbn. rewrite Hb. by split; [| left].
    + right. cbn. split; [by constructor |]. split; [done |]. exists base. split; [done |]. by left.
  - split; [done |]. by destruct (stage_call l2 parent bs r bs' Hbt Hp Hi R) as (? & _).
  - destruct (stage_call l2 parent bs _ bs' Hbt Hp Hi R) as (Hi' & _ & _ & Hx).
    destruct (Hx b c eq_refl) as ([E1 E2 (o & Ho1 & Ho2 & Ho3 & _)] & epoch & He & Hle). destruct Hch as [_ _ C3 C4 C5]. split.
    + split; [| rewrite C3, E2; destruct Hp; lia | done]. exists o. split; [done |]. split; [by rewrite C4 | by rewrite C3].
    + destruct Hi' as [I1 I2 I3 I4]. split; try done. right. destruct I4 as [[E _] | (Hs & Hl & _)]; [by rewrite E in He |].
      split; [done |]. split; [done |]. exists epoch. split; [done |]. left. by rewrite C4.
  - split; [done |]. destruct Hi as [I1 I2 I3 I4]. split; try done. split; [done |]. by right.
Qed.

(** *** A silent sequencer *)

Lemma segment_lookup l i first : segment l -> head l = Some first ->
  0 <= i <= l1_Number (default first (list.last l)) - l1_Number first ->
  exists b, l !! Z.to_nat i = Some b /\ l1_Number b = l1_Number first + i.
Proof.
  intros H. revert i first. induction H as [c Hc | c d l Hc E H IH]; intros i first [= <-] Hi.
  - exists c. cbn in Hi. replace i with 0 by lia. split; [done | lia].
  - rewrite last_cons_cons in Hi. destruct (Z.eqb_spec i 0) as [-> |]; [exists c; split; [done | lia] |].
    destruct (IH (i - 1) d eq_refl) as (b & Hb & Hn).
    { destruct (list.last (d :: l)) as [x |] eqn:El; [cbn in *; lia |]. by apply last_None in El. }
    exists b. split; [| lia]. replace (Z.to_nat i) with (S (Z.to_nat (i - 1))) by lia. done.
Qed.

Lemma find_from_first idx n l i b : l !! i = Some b -> l1_Number b = n -> is_Some (find_from idx n l).
Proof.
  revert idx i. induction l as [|c l IH]; intros idx i Hi Hn; [done |]. cbn [find_from].
  destruct (Z.eqb_spec (l1_Number c) n); [by eexists |]. destruct i as [|i]; [by injection Hi as -> |]. by apply IH with i.
Qed.

(** Once the origins are updated, the first epoch is the one of the head or the next. *)
Lemma updated_epoch parent bs :
  head_ok parent -> stage_inv parent bs -> b_Number (L1Origin parent) <= l1_Number (base_Origin bs) ->
  exists epoch rest, l1Blocks (updateOrigins parent bs) = epoch :: rest /\
    (l1_Number epoch = b_Number (L1Origin parent) \/ l1_Number epoch = b_Number (L1Origin parent) + 1).
Proof using chain_number.
  intros Hp Hi Hle. destruct (updateOrigins_inv parent bs Hp Hi) as (Hu & Ho & Hb).
  assert (exists epoch rest, l1Blocks (updateOrigins parent bs) = epoch :: rest /\ b_Number (L1Origin parent) <= l1_Number epoch)
    as (epoch & rest & El & Hge).
  2: { exists epoch, rest. split; [done |]. destruct Hu as [_ _ _ [[E _] | (_ & _ & e & He & Hn)]]; [by rewrite E in El |].
       rewrite El in He. injection He as <-. lia. }
  unfold updateOrigins in *. set (bs1 := if decide (origin bs <> base_Origin bs) then _ else bs) in *.
  destruct (l1Blocks bs1) as [|first rest] eqn:El.
  { destruct Hu as [_ _ _ [[_ Hlt] | (Hs & _)]]; [rewrite Ho, Hb in Hlt; lia |]. rewrite El in Hs. inversion Hs. }
  destruct (Z.ltb_spec (l1_Number first) (b_Number (L1Origin parent))) as [Hlt | Hge]; [| by exists first, rest].
  rewrite <- El in *. cbn [l1Blocks set_l1Blocks] in *. unfold advance_to in *.
  destruct (find_from 0 (b_Number (L1Origin parent)) (l1Blocks bs1)) as [[i b] |] eqn:Ef.
  - apply find_from_some in Ef as (k & -> & Hk & Hn). exists b, (drop (S k) (l1Blocks bs1)). split; [by apply drop_S | lia].
  - destruct Hu as [_ _ _ [[E _] | (Hs & Hl & _)]]; cbn [l1Blocks set_l1Blocks origin] in *; [by rewrite E in El |].
    destruct (segment_lookup (l1Blocks bs1) (b_Number (L1Origin parent) - l1_Number first) first Hs) as (b & Hk & Hn); [by rewrite El | |].
    + rewrite Hl. change (default first (Some (origin bs1))) with (origin bs1). change (origin bs1 = base_Origin bs1) in Ho. change (base_Origin bs1 = base_Origin bs) in Hb.
      rewrite Ho, Hb. lia.
    + destruct (find_from_first 0 (b_Number (L1Origin parent)) _ _ b Hk) as [x Hx]; [lia | by rewrite Ef in Hx].
Qed.

Lemma updated_head parent bs epoch :
  head (l1Blocks bs) = Some epoch -> b_Number (L1Origin parent) <= l1_Number epoch ->
  b_Number (L1Origin parent) <= l1_Number (base_Origin bs) -> head (l1Blocks (updateOrigins parent bs)) = Some epoch.
Proof.
  intros Hh He Hb. unfold updateOrigins, originBehind. destruct (Z.ltb_spec (l1_Number (base_Origin bs)) (b_Number (L1Origin parent))); [lia |].
  cbn [negb]. destruct (l1Blocks bs) as [|e l] eqn:El; [done |]. injection Hh as ->.
  destruct (decide _); cbn [l1Blocks set_l1Blocks set_origin]; rewrite El; cbn [app];
    (destruct (Z.ltb_spec (l1_Number epoch) (b_Number (L1Origin parent))); [lia |]); cbn [l1Blocks set_l1Blocks set_origin]; by rewrite ?El.
Qed.

Lemma updated_same parent bs :
  bs_config (updateOrigins parent bs) = bs_config bs /\ bs_prev (updateOrigins parent bs) = bs_prev bs /\
  nextSpan (updateOrigins parent bs) = nextSpan bs.
Proof.
  unfold updateOrigins. set (bs1 := if decide _ then _ else bs).
  assert (bs_config bs1 = bs_config bs /\ bs_prev bs1 = bs_prev bs /\ nextSpan bs1 = nextSpan bs) as H.
  { unfold bs1. destruct (decide _); [| done]. by destruct (negb _). }
  destruct (l1Blocks bs1); [done |]. by destruct (_ <? _).
Qed.

Lemma matches parent epoch : head_ok parent -> canonical epoch ->
  l1_Number epoch = b_Number (L1Origin parent) \/ l1_Number epoch = b_Number (L1Origin parent) + 1 -> epoch_matches parent epoch = true.
Proof using chain_number.
  intros Hp Hc [E | E]; unfold epoch_matches.
  - destruct (head_origin parent Hp epoch Hc E) as [-> _]. by rewrite bool_decide_true.
  - apply orb_true_iff. right. apply Z.eqb_eq. pose proof (head_number parent Hp). unfold usub. rewrite wrap_small; unfold in_range; lia.
Qed.

(** No batches are left, and the sequencing windows of the origin of the head and
    of the next one have passed. *)
Record silent (parent : L2BlockRef) (bs : baseBatchStage P) : Prop := {
  sl_provider : NextBatch (bs_prev bs) = (Err EOF, bs_prev bs);
  sl_span : nextSpan bs = [];
  sl_window : 0 <= SeqWindowSize cfg < 2 ^ 63;
  sl_expired : b_Number (L1Origin parent) + 1 + SeqWindowSize cfg < l1_Number (base_Origin bs);
}.

(** A call then returns an empty block, or moves on to the next epoch. *)
Lemma silent_call l2 parent bs :
  head_ok parent -> stage_inv parent bs -> silent parent bs ->
  exists epoch next rest, l1Blocks (updateOrigins parent bs) = epoch :: next :: rest /\
    bs_NextBatch l2 parent bs =
      if (uadd 64 (l2_Time parent) (BlockTime cfg) <? l1_Time next) || (l1_Number epoch =? uadd 64 (b_Number (L1Origin parent)) 1)
      then (Ok (mkSingularBatch (l2_Hash parent) (l1_Number epoch) (l1_Hash epoch) (uadd 64 (l2_Time parent) (BlockTime cfg)) [], true),
            updateOrigins parent bs)
      else (Err EOF, set_l1Blocks (next :: rest) (updateOrigins parent bs)).
Proof using chain_number.
  intros Hp Hi [S1 S2 S3 S4]. destruct (updateOrigins_inv parent bs Hp Hi) as (Hu & Ho & Hb).
  destruct (updated_epoch parent bs Hp Hi) as (epoch & rest & El & He); [lia |]. destruct (updated_same parent bs) as (Ec & Epr & Esp).
  unfold bs_NextBatch. set (bs1 := updateOrigins parent bs) in *.
  destruct (si_blocks parent bs1 Hu) as [[E _] | (Hs & Hl & _)]; [by rewrite E in El |]. rewrite El in Hs, Hl.
  pose proof (matches parent epoch Hp (segment_head _ _ Hs) He) as Hm.
  pose proof (canonical_range _ (si_origin parent bs1 Hu)) as Hor. pose proof (head_number parent Hp) as Hpn.
  destruct rest as [|next rest]; [injection Hl as Hl; rewrite Hl, Ho, Hb in He; lia |].
  exists epoch, next, rest. split; [done |]. unfold originBehind. rewrite Ho, Hb in *.
  destruct (Z.ltb_spec (l1_Number (base_Origin bs)) (b_Number (L1Origin parent))); [lia |].
  destruct (Z.eqb_spec (b_Number (L1Origin parent)) (l1_Number (base_Origin bs))); [lia |]. cbn [orb]. rewrite El, Hm. cbn [negb].
  unfold nextSingularBatchCandidate, nextFromSpanBatch. rewrite Esp, S2, Epr, S1.
  replace (set_prev (bs_prev bs) bs1) with bs1 by (rewrite <- Epr; by destruct bs1). cbn [String.eqb EOF Ascii.eqb Bool.eqb].
  unfold mbind, stage_bind, deriveNextEmptyBatch. rewrite El, Ec, (si_config parent bs Hi), Ho.
  assert ((uadd 64 (l1_Number epoch) (SeqWindowSize cfg) <? l1_Number (base_Origin bs)) = true) as ->.
  { apply Z.ltb_lt. unfold uadd. rewrite wrap_small; unfold in_range; lia. }
  rewrite orb_true_r. cbn [negb]. by destruct (_ || _).
Qed.

(** Two calls suffice for an empty block. *)
Lemma silence_ends l2 l2' parent bs :
  0 <= BlockTime cfg -> head_ok parent -> stage_inv parent bs -> silent parent bs ->
  exists r bs1 b bs2, bs_NextBatch l2 parent bs = (r, bs1) /\
    (r = Ok (b, true) \/ r = Err EOF /\ bs_NextBatch l2' parent bs1 = (Ok (b, true), bs2)) /\ Transactions b = [].
Proof using BL chain_number.
  intros Hbt Hp Hi Hs. destruct (silent_call l2 parent bs Hp Hi Hs) as (epoch & next & rest & El & R).
  destruct (_ || _) eqn:Eb; [eexists _, _, _, bs; split; [exact R |]; by split; [left |] |].
  set (bs1 := set_l1Blocks (next :: rest) (updateOrigins parent bs)) in *.
  apply orb_false_iff in Eb as [_ Eb%Z.eqb_neq]. pose proof (head_number parent Hp) as Hpn.
  assert (uadd 64 (b_Number (L1Origin parent)) 1 = b_Number (L1Origin parent) + 1) as Eu by (unfold uadd; rewrite wrap_small; unfold in_range; lia).
  destruct (updateOrigins_inv parent bs Hp Hi) as (Hu & Ho & Hb). destruct (updated_same parent bs) as (Ec & Epr & Esp).
  destruct (updated_epoch parent bs Hp Hi) as (e' & r' & El' & He); [destruct Hs; lia |]. rewrite El in El'. injection El' as <- <-.
  assert (l1_Number next = b_Number (L1Origin parent) + 1) as Hn.
  { destruct (si_blocks parent _ Hu) as [[E _] | (Hsg & _)]; [by rewrite E in El |]. rewrite El in Hsg. inversion Hsg; subst. lia. }
  destruct (stage_call l2 parent bs _ bs1 Hbt Hp Hi R) as (Hi1 & Hb1 & _).
  assert (silent parent bs1) as Hs1.
  { destruct Hs as [S1 S2 S3 S4]. split; [| | done | by rewrite Hb1].
    - unfold bs1. cbn [bs_prev set_l1Blocks]. by rewrite Epr.
    - unfold bs1. cbn [nextSpan set_l1Blocks]. by rewrite Esp. }
  destruct (silent_call l2' parent bs1 Hp Hi1 Hs1) as (e2 & n2 & r2 & El2 & R2).
  assert (head (l1Blocks (updateOrigins parent bs1)) = Some next) as Hh by (apply updated_head; [done | lia | destruct Hs1; lia]).
  rewrite El2 in Hh. injection Hh as ->. rewrite Eu, Hn, Z.eqb_refl, orb_true_r in R2.
  eexists _, _, _, _. split; [exact R |]. split; [right; split; [done | exact R2] | done].
Qed.

End Chain.

(** Attributes: a block that is built from them names the origin they were
    prepared for, contains every deposit of a new epoch, and can be reduced to
    its deposits. *)

Section Attributes.
Context {K : Keccak} {KL : KeccakLaws K} {G : Geth} {GL : GethLaws G} {U : UpgradeTransactions}.
Context (cfg : Config) (l1 : L1ReceiptsFetcher) (sysByHash : hash -> outcome SystemConfig).

Abbreviation prepare := (PreparePayloadAttributes cfg l1 sysByHash).

(** ** Configurations stay well-formed *)

Definition receipts_wf (receipts : list Receipt) : Prop :=
  Forall (fun rec => Forall (fun l => bytes_ok (log_Data l)) (Logs rec)) receipts.

Lemma apply_update_wf l1Time u data c : system_wf c -> encodes u data -> system_wf (apply_update cfg l1Time u c).
Proof.
  intros [S1 S2 S3 S4] He. destruct u; cbn in *; try (by split).
  - by destruct He.
  - destruct He as (Ho & Hs & _). destruct (IsEcotone cfg l1Time); [| by split].
    destruct (CheckEcotoneL1SystemConfigScalar scalar); try (by split). split; try done. split; [done |]. by repeat constructor.
  - by destruct He.
Qed.

Lemma event_logs_wf addr event receipts : receipts_wf receipts -> Forall (fun l => bytes_ok (log_Data l)) (event_logs addr event receipts).
Proof.
  unfold event_logs. induction 1 as [|rec receipts Hr H IH]; [constructor |]. cbn. apply Forall_app. split; [| done].
  destruct (Status rec =? _); [| constructor]. clear -Hr. induction Hr as [|l logs Hl Hr IH]; [constructor |]. rewrite filter_cons.
  destruct (decide _); [by constructor | done].
Qed.

Lemma update_receipts_wf c receipts l1Time :
  system_wf c -> receipts_wf receipts -> system_wf (UpdateSystemConfigWithL1Receipts c receipts cfg l1Time).1.
Proof.
  intros Hc Hr. rewrite UpdateSystemConfig_all.
  pose proof (event_logs_wf (L1SystemConfigAddress cfg) ConfigUpdateEventABIHash receipts Hr) as Hl.
  assert (forall acc, system_wf acc.1 -> system_wf (foldl (update_log cfg l1Time) acc
    (event_logs (L1SystemConfigAddress cfg) ConfigUpdateEventABIHash receipts)).1) as H; [| by apply H].
  induction Hl as [|l logs Hb Hl IH]; intros [c' errs] Hc'; [done |]. cbn [foldl]. apply IH. unfold update_log. cbn [fst] in *.
  destruct (ProcessSystemConfigUpdateLogEvent c' l cfg l1Time) as [c1 | |] eqn:E; [| done | done].
  apply update_event in E as (u & _ & He & ->); [| done]. by eapply apply_update_wf.
Qed.

(** ** The inputs of a block *)

(** The node's view of the L1 block [epoch]: what it returns for the hash is that
    block, and well-formed. *)
Record l1_knows (epoch : BlockID) : Prop := {
  lk_info : forall info, InfoByHash l1 (b_Hash epoch) = Ok info ->
    block_wf cfg info /\ bi_Hash info = b_Hash epoch /\ bi_NumberU64 info = b_Number epoch;
  lk_receipts : forall info receipts, FetchReceipts l1 (b_Hash epoch) = Ok (info, receipts) ->
    block_wf cfg info /\ bi_Hash info = b_Hash epoch /\ bi_NumberU64 info = b_Number epoch /\ receipts_wf receipts;
}.

(** The sequence number of the next block. *)
Definition next_sequence (parent : L2BlockRef) (epoch : BlockID) : Z :=
  if b_Number (L1Origin parent) =? b_Number epoch then uadd 64 (SequenceNumber parent) 1 else 0.

Lemma epoch_inputs_ok parent epoch c info deposits seq c' :
  l1_knows epoch -> system_wf c -> epoch_inputs cfg l1 parent epoch c = Ok (info, deposits, seq, c') ->
  block_wf cfg info /\ bi_Hash info = b_Hash epoch /\ bi_NumberU64 info = b_Number epoch /\ system_wf c' /\
  seq = next_sequence parent epoch /\
  (L1Origin parent = epoch /\ deposits = [] \/
   b_Number (L1Origin parent) <> b_Number epoch /\ bi_ParentHash info = b_Hash (L1Origin parent) /\
   exists receipts, FetchReceipts l1 (b_Hash epoch) = Ok (info, receipts) /\
     DeriveDeposits receipts (DepositContractAddress cfg) = (deposits, [])).
Proof.
  intros [Hi Hr] Hc. unfold epoch_inputs, next_sequence.
  destruct (Z.eqb_spec (b_Number (L1Origin parent)) (b_Number epoch)) as [E | E]; cbn [negb].
  - destruct (decide (b_Hash (L1Origin parent) <> b_Hash epoch)) as [| Hh]; [done |]. apply dec_stable in Hh.
    intros (i & R & E1)%bind_ok. injection E1 as <- <- <- <-. destruct (InfoByHash l1 (b_Hash epoch)) as [i' | |] eqn:Ei; [| done | done].
    injection R as ->. destruct (Hi i eq_refl) as (H1 & H2 & H3). split_and!; try done. left. split; [| done].
    destruct (L1Origin parent), epoch. cbn in *. congruence.
  - intros ([i receipts] & R & E1)%bind_ok. destruct (FetchReceipts l1 (b_Hash epoch)) as [[i' rec'] | |] eqn:Ei; [| done | done].
    injection R as -> ->. destruct (Hr i receipts eq_refl) as (H1 & H2 & H3 & H4).
    destruct (decide (b_Hash (L1Origin parent) <> bi_ParentHash i)) as [| Hh]; [done |]. apply dec_stable in Hh.
    destruct (DeriveDeposits receipts _) as [deps [|]] eqn:Ed; [| done].
    pose proof (update_receipts_wf c receipts (bi_Time i) Hc H4) as Hw.
    destruct (UpdateSystemConfigWithL1Receipts c receipts cfg (bi_Time i)) as [c1 [|]]; [| done]. injection E1 as <- <- <- <-.
    split_and!; try done. right. split; [done |]. split; [done |]. by exists receipts.
Qed.

(** What preparing attributes takes and gives. *)
Lemma prepare_ok parent epoch attrs :
  prepare parent epoch = Ok attrs ->
  exists c info deposits seq c' upgrades tx,
    sysByHash (l2_Hash parent) = Ok c /\ epoch_inputs cfg l1 parent epoch c = Ok (info, deposits, seq, c') /\
    bi_Time info <= uadd 64 (l2_Time parent) (BlockTime cfg) /\
    upgrade_transactions cfg (uadd 64 (l2_Time parent) (BlockTime cfg)) = Ok upgrades /\
    L1InfoDepositBytes cfg c' seq info (uadd 64 (l2_Time parent) (BlockTime cfg)) = Ok tx /\
    pa_Timestamp attrs = uadd 64 (l2_Time parent) (BlockTime cfg) /\ pa_Transactions attrs = tx :: deposits ++ upgrades /\
    NoTxPool attrs = true.
Proof.
  unfold PreparePayloadAttributes. intros (c & R1 & R)%bind_ok. apply bind_ok in R as ([[[info deposits] seq] c'] & R2 & R).
  destruct (sysByHash (l2_Hash parent)) as [c0 | |]; [| done | done]. injection R1 as ->.
  destruct (Z.ltb_spec (uadd 64 (l2_Time parent) (BlockTime cfg)) (bi_Time info)) as [| Ht]; [done |].
  apply bind_ok in R as (upgrades & R3 & R). apply bind_ok in R as (tx & R4 & R).
  destruct (L1InfoDepositBytes _ _ _ _ _) as [tx0 | |] eqn:E4; [| done | done]. injection R4 as ->. apply ok_inj in R. subst attrs.
  exists c, info, deposits, seq, c', upgrades, tx. by split_and!.
Qed.

(** A block that starts with the prepared transactions names the epoch as its origin. *)
Lemma prepared_origin parent epoch attrs payload rest :
  Check cfg = Ok () -> l1_knows epoch -> (forall c, sysByHash (l2_Hash parent) = Ok c -> system_wf c) -> in_range 64 (SequenceNumber parent) ->
  prepare parent epoch = Ok attrs ->
  ep_Transactions payload = pa_Transactions attrs ++ rest -> ep_Timestamp payload = pa_Timestamp attrs ->
  ep_BlockNumber payload <> b_Number (g_L2 (Genesis_ cfg)) ->
  PayloadToBlockRef cfg payload = Ok (mkL2BlockRef (ep_BlockHash payload) (ep_BlockNumber payload) (ep_ParentHash payload)
    (uadd 64 (l2_Time parent) (BlockTime cfg)) epoch (next_sequence parent epoch)).
Proof using KL GL.
  intros Hc Hk Hs Hq R Etx Et Hg. apply prepare_ok in R as (c & info & deposits & seq & c' & upgrades & tx & R1 & R2 & _ & _ & R4 & Et' & Etx' & _).
  destruct (epoch_inputs_ok parent epoch c info deposits seq c' Hk (Hs c R1) R2) as (Hb & Hh & Hn & Hw & -> & _).
  rewrite Etx' in Etx. cbn [app] in Etx. rewrite Et' in Et.
  assert (in_range 64 (next_sequence parent epoch)) as Hns.
  { unfold next_sequence. destruct (_ =? _); [by apply wrap_range | done]. }
  destruct (payload_deposit cfg c' _ info _ () tx payload _ Hc Hb Hw Hns R4 Etx Et) as (i & Ei & Ep).
  unfold PayloadToBlockRef. destruct (Z.eqb_spec (ep_BlockNumber payload) (b_Number (g_L2 (Genesis_ cfg)))); [done |].
  rewrite Ep. cbn [mbind outcome_bind]. rewrite Et. do 2 f_equal.
  - unfold l1_info in Ei. destruct (isEcotoneButNotFirstBlock _ _).
    + apply bind_ok in Ei as (s & _ & Ei). destruct (isIsthmusButNotFirstBlock _ _); injection Ei as <-; cbn; rewrite Hh, Hn; by destruct epoch.
    + injection Ei as <-. cbn. rewrite Hh, Hn. by destruct epoch.
  - unfold l1_info in Ei. destruct (isEcotoneButNotFirstBlock _ _).
    + apply bind_ok in Ei as (s & _ & Ei). by destruct (isIsthmusButNotFirstBlock _ _); injection Ei as <-.
    + by injection Ei as <-.
Qed.

(** ** Deposits *)

(** A log and the transaction that is derived from it. *)
Definition derives (l : Log) (tx : list Z) : Prop :=
  exists dep, UnmarshalDepositLogEvent l = Ok dep /\ tx_MarshalBinary dep = Ok tx.

Lemma all_results {A B} (f : A -> outcome B) (l : list A) :
  omap (fun x => failure (f x)) l = [] -> Forall2 (fun x y => f x = Ok y) l (omap (fun x => result (f x)) l).
Proof.
  induction l as [|x l IH]; cbn; [constructor |]. destruct (f x) eqn:E; cbn; try done. intros H. constructor; [done | by apply IH].
Qed.

Lemma marshal_all deps acc errs out :
  foldl (fun acc tx => match tx_MarshalBinary tx with
    | Ok opaqueTx => (acc.1 ++ [opaqueTx], acc.2)
    | _ => (acc.1, acc.2 ++ ["failed to encode user tx"]) end) (acc, errs) deps = (out, []) ->
  errs = [] /\ exists txs, out = acc ++ txs /\ Forall2 (fun dep tx => tx_MarshalBinary dep = Ok tx) deps txs.
Proof.
  revert acc errs. induction deps as [|d deps IH]; intros acc errs; cbn [foldl].
  - intros [= <- ->]. split; [done |]. exists []. by rewrite app_nil_r.
  - intros R. destruct (tx_MarshalBinary d) as [tx | e | e] eqn:E; cbn [fst snd] in R.
    + apply IH in R as (-> & txs & -> & Hf). split; [done |]. exists (tx :: txs). rewrite <- app_assoc. split; [done | by constructor].
    + apply IH in R as [H _]. by destruct errs.
    + apply IH in R as [H _]. by destruct errs.
Qed.

Lemma DeriveDeposits_all receipts addr out :
  DeriveDeposits receipts addr = (out, []) -> Forall2 derives (event_logs addr DepositEventABIHash receipts) out.
Proof.
  unfold DeriveDeposits. rewrite UserDeposits_all. cbv zeta. intros R. apply marshal_all in R as (He & txs & -> & Hm). cbn [app].
  apply all_results in He. revert txs Hm. induction He as [|l d logs deps Hl He IH]; intros txs Hm; inversion Hm; subst; [constructor |].
  constructor; [by exists d | by apply IH].
Qed.

(** In the first block of an epoch the transactions behind the first are those of
    all deposit events of the L1 block, in order, then those of upgrades. *)
Lemma prepared_deposits parent epoch attrs :
  l1_knows epoch -> (forall c, sysByHash (l2_Hash parent) = Ok c -> system_wf c) -> prepare parent epoch = Ok attrs ->
  exists tx deposits upgrades, pa_Transactions attrs = tx :: deposits ++ upgrades /\
    upgrade_transactions cfg (pa_Timestamp attrs) = Ok upgrades /\
    (L1Origin parent = epoch /\ deposits = [] \/
     exists info receipts, FetchReceipts l1 (b_Hash epoch) = Ok (info, receipts) /\ bi_ParentHash info = b_Hash (L1Origin parent) /\
       Forall2 derives (event_logs (DepositContractAddress cfg) DepositEventABIHash receipts) deposits).
Proof using KL.
  intros Hk Hs R. apply prepare_ok in R as (c & info & deposits & seq & c' & upgrades & tx & R1 & R2 & _ & R3 & R4 & Et & Etx & _).
  destruct (epoch_inputs_ok parent epoch c info deposits seq c' Hk (Hs c R1) R2) as (_ & _ & _ & _ & _ & Hd).
  exists tx, deposits, upgrades. split; [done |]. split; [by rewrite Et |].
  destruct Hd as [? | (_ & Hp & receipts & Hf & Hdd)]; [by left |]. right. exists info, receipts.
  split; [done |]. split; [done |]. by apply DeriveDeposits_all.
Qed.

(** Prepared transactions are deposits, if those of the upgrades are. *)
Definition upgrades_are_deposits : Prop := forall t upgrades, upgrade_transactions cfg t = Ok upgrades -> Forall (fun tx => is_deposit tx = true) upgrades.

Lemma marshalled_deposit dep tx : tx_MarshalBinary dep = Ok tx -> is_deposit tx = true.
Proof using GL. intros R. by destruct (deposit_type dep tx R) as (payload & ->). Qed.

Lemma prepared_all_deposits parent epoch attrs :
  upgrades_are_deposits -> l1_knows epoch -> (forall c, sysByHash (l2_Hash parent) = Ok c -> system_wf c) ->
  prepare parent epoch = Ok attrs -> Forall (fun tx => is_deposit tx = true) (pa_Transactions attrs).
Proof using KL GL.
  intros Hu Hk Hs R. pose proof R as R'.
  apply prepare_ok in R' as (c & info & deposits & seq & c' & upgrades & tx & R1 & R2 & _ & R3 & R4 & Et & Etx & _). rewrite Etx.
  destruct (epoch_inputs_ok parent epoch c info deposits seq c' Hk (Hs c R1) R2) as (_ & _ & _ & _ & _ & Hd).
  constructor; [| apply Forall_app; split; [| by eapply Hu]].
  - unfold L1InfoDepositBytes in R4. apply bind_ok in R4 as (dep & _ & R4). by eapply marshalled_deposit.
  - destruct Hd as [[_ ->] | (_ & _ & receipts & _ & Hdd)]; [constructor |]. apply DeriveDeposits_all in Hdd.
    clear -Hdd GL. induction Hdd as [|l tx' logs txs (dep & _ & Hm) Hdd IH]; [constructor |]. constructor; [by eapply marshalled_deposit | done].
Qed.

Lemma filter_deposits (a b : list (list Z)) isthmus :
  Forall (fun tx => is_deposit tx = true) a -> Forall (tx_allowed isthmus) b ->
  filter (fun tx => is_deposit tx = true) (a ++ b) = a.
Proof.
  intros Ha Hb. rewrite (list.filter_app _ a b). assert (filter (fun tx => is_deposit tx = true) b = []) as ->.
  { induction Hb as [|tx b (t & r & -> & Ht & _) Hb IH]; [done |]. rewrite filter_cons. rewrite decide_False; [done |].
    cbn. by destruct (Z.eqb_spec t DepositTxType). }
  rewrite app_nil_r. induction Ha as [|tx a Hx Ha IH]; [done |]. rewrite filter_cons, decide_True by done. by f_equal.
Qed.

End Attributes.

(** ** The queue *)

Section Queue.
Context {P : Type} {SP : SingularProvider P}.
Context (builder : L2BlockRef -> BlockID -> outcome PayloadAttributes).

(** The attributes of a batch: prepared for its epoch, with its transactions behind. *)
Lemma next_attributes_ok (aq aq' : AttributesQueue P) parent attr :
  NextAttributes builder parent aq = (Ok attr, aq') ->
  exists b attrs, builder parent (Epoch b) = Ok attrs /\ ParentHash b = l2_Hash parent /\
    Timestamp b = uadd 64 (l2_Time parent) (BlockTime (aq_config aq)) /\
    pa_Transactions (aw_Attributes attr) = pa_Transactions attrs ++ Transactions b /\
    pa_Timestamp (aw_Attributes attr) = pa_Timestamp attrs /\ aw_Parent attr = parent /\ NoTxPool (aw_Attributes attr) = true /\
    aq_batch aq' = None /\ lastAttribs aq' = Some attr /\
    (aq_batch aq = Some b \/ aq_batch aq = None /\ exists c prev, NextSingularBatch parent (aq_prev aq) = (Ok (b, c), prev)).
Proof.
  unfold NextAttributes. destruct (fetch_batch parent aq) as [f aq1] eqn:Ef. destruct f as [b | e | e]; [| done | done].
  assert (aq_config aq1 = aq_config aq /\ (aq_batch aq = Some b \/ aq_batch aq = None /\ exists c prev, NextSingularBatch parent (aq_prev aq) = (Ok (b, c), prev)))
    as [Ec Hb].
  { unfold fetch_batch in Ef. destruct (aq_batch aq) as [b0 |]; [injection Ef as -> <-; auto |].
    destruct (NextSingularBatch parent (aq_prev aq)) as [[[b1 c] | e | e] prev] eqn:E; try done. injection Ef as -> <-. eauto 10. }
  unfold createNextAttributes. destruct (decide (ParentHash b <> l2_Hash parent)) as [| Hp]; [done |]. apply dec_stable in Hp.
  destruct (Z.eqb_spec (uadd 64 (l2_Time parent) (BlockTime (aq_config aq1))) (Timestamp b)) as [Ht |]; [| done]. cbn [negb].
  destruct (builder parent (Epoch b)) as [attrs | |] eqn:E; [| done | done]. cbn [mbind outcome_bind]. intros [= <- <-].
  exists b, attrs. rewrite Ec in Ht. split_and!; try done.
Qed.

(** Reducing the last attributes to their deposits. *)
Lemma deposits_only_ok (aq : AttributesQueue P) last prev' :
  aq_batch aq = None -> lastAttribs aq = Some last -> singular_Flush (aq_prev aq) = (Ok (), prev') ->
  exists aq', DepositsOnlyAttributes (L2BlockRef_ID (aw_Parent last)) (DerivedFrom last) aq = (Ok (aw_WithDepositsOnly last), aq') /\
    lastAttribs aq' = Some (aw_WithDepositsOnly last) /\ aq_prev aq' = prev'.
Proof.
  intros Hb Hl Hf. unfold DepositsOnlyAttributes. rewrite Hb, Hl, !decide_False by (intros Hn; by apply Hn). rewrite Hf. eauto.
Qed.

End Queue.
