(* ===== verification/SpanProps.v ===== *)
(** The round trip of span batches: what a batcher puts into a span is what
    derivation takes out of it. *)
From Stdlib Require Import ZArith Lia Bool.
From stdpp Require Import base gmap list strings numbers.
From S2P Require Import Prelude Codec Rollup Frames L1Info Batches SpanBatch L1InfoProps BatchProps.

(** ** Variable-length integers *)

Definition byte_check (n : nat) : bool :=
  let b := Z.of_nat n in (Z.land (Z.lor b 0x80) 0x7f =? b mod 128) && (128 <=? Z.lor b 0x80) && (Z.lor b 0x80 <? 256).

Lemma low_byte x : 0 <= x ->
  Z.land (Z.lor (wrap 8 x) 0x80) 0x7f = x mod 128 /\ 128 <= Z.lor (wrap 8 x) 0x80 < 256.
Proof.
  intros Hx. pose proof (wrap_range 8 x ltac:(lia)) as [Hw0 Hw1]. change (2 ^ 8) with 256 in Hw1.
  assert (forallb byte_check (seq 0 256) = true) as Hall by by vm_compute.
  rewrite forallb_forall in Hall. specialize (Hall (Z.to_nat (wrap 8 x))). unfold byte_check in Hall.
  rewrite Z2Nat.id in Hall by done. rewrite !andb_true_iff, Z.eqb_eq, Z.leb_le, Z.ltb_lt in Hall.
  destruct Hall as [[H1 H2] H3]; [apply in_seq; lia |]. rewrite H1. split; [| done].
  unfold wrap. change (2 ^ 8) with (128 * 2). rewrite Z.rem_mul_r by lia.
  rewrite (Z.mul_comm 128), Z.mod_add, Z.mod_mod by lia. done.
Qed.

Lemma lor_shift x y s : 0 <= s -> 0 <= x < 2 ^ s -> 0 <= y -> x + y * 2 ^ s < 2 ^ 64 -> Z.lor x (ushl 64 y s) = x + y * 2 ^ s.
Proof.
  intros Hs Hx Hy Hlt. unfold ushl. rewrite Z.shiftl_mul_pow2 by done. assert (0 < 2 ^ s) by (apply Z.pow_pos_nonneg; lia).
  assert (0 <= y * 2 ^ s) by (apply Z.mul_nonneg_nonneg; lia). rewrite wrap_small by (unfold in_range; lia).
  rewrite Z.lor_comm, <- Z.shiftl_mul_pow2 by done. rewrite lor_shiftl_add, Z.shiftl_mul_pow2 by done. lia.
Qed.

Lemma read_put n : forall first x0 s x rest,
  (0 < n)%nat -> 0 <= s -> s + 7 * Z.of_nat n = 70 -> 0 <= x0 < 2 ^ s -> 0 <= x -> x0 + x * 2 ^ s < 2 ^ 64 ->
  read_uvarint n first x0 s (put_uvarint n x ++ rest) = Ok (x0 + x * 2 ^ s, rest).
Proof.
  induction n as [|n IH]; intros first x0 s x rest Hn0 Hs Hn Hx0 Hx Hlt; [lia |].
  cbn [put_uvarint]. destruct (Z.ltb_spec x 0x80) as [Hb | Hb]; cbn [app read_uvarint].
  - destruct (Z.ltb_spec x 0x80); [| lia]. rewrite lor_shift by done.
    destruct n as [|n]; [| done]. assert (s = 63) as -> by lia. destruct (Z.ltb_spec 1 x); [nia | done].
  - destruct (low_byte x Hx) as (Hl & Hb0 & _). destruct (Z.ltb_spec (Z.lor (wrap 8 x) 0x80) 0x80); [lia |]. rewrite Hl.
    pose proof (Z.div_mod x 128 ltac:(lia)) as Hd. pose proof (Z.mod_pos_bound x 128 ltac:(lia)) as Hm.
    assert (2 ^ (s + 7) = 2 ^ s * 128) as Hp by (rewrite Z.pow_add_r by lia; done). assert (0 < 2 ^ s) as Hps by (apply Z.pow_pos_nonneg; lia).
    rewrite lor_shift by (done || lia || nia). unfold ushr. rewrite Z.shiftr_div_pow2 by lia. change (2 ^ 7) with 128.
    assert (0 < n)%nat by (destruct n; [assert (s = 63) as -> by lia; nia | lia]).
    rewrite IH; [| done | lia | lia | | apply Z.div_pos; lia |].
  + f_equal. f_equal. rewrite Hp. nia.
  + rewrite Hp. nia.
  + rewrite Hp. nia.
Qed.

Lemma uvarint_decodes : decodes ReadUvarint PutUvarint (in_range 64).
Proof.
  intros x rest [Hx0 Hx1]. unfold ReadUvarint, PutUvarint. rewrite read_put; [| unfold MaxVarintLen64; lia | lia | done | done | done | lia].
  do 2 f_equal. lia.
Qed.

(** ** Bit lists *)

Lemma bits_length_spec n : 0 <= n -> 0 <= bits_length n /\ n <= 8 * bits_length n.
Proof.
  intros Hn. unfold bits_length. pose proof (Z.div_mod n 8 ltac:(lia)). pose proof (Z.mod_pos_bound n 8 ltac:(lia)).
  pose proof (Z.div_pos n 8 Hn ltac:(lia)). destruct (Z.eqb_spec (n mod 8) 0); cbn [negb]; lia.
Qed.

Lemma bits_roundtrip n bits rest bs : 0 <= n -> 0 <= bits ->
  encodeSpanBatchBits n bits = Ok bs -> decodeSpanBatchBits n (bs ++ rest) = Ok (bits, rest).
Proof.
  intros Hn Hb. unfold encodeSpanBatchBits. rewrite Z.abs_eq by done. destruct (Z.leb_spec (2 ^ n) bits); [done |]. intros E%ok_inj. subst bs.
  destruct (bits_length_spec n Hn) as [H0 H1]. unfold decodeSpanBatchBits.
  rewrite (ST_bind_run _ _ _ (be_encode (Z.to_nat (bits_length n)) bits) rest).
  - rewrite be_decode_encode, Z2Nat.id by done. assert (2 ^ n <= 2 ^ (8 * bits_length n)) by (apply Z.pow_le_mono_r; lia).
    rewrite wrap_small by (unfold in_range; lia). by destruct (Z.leb_spec (2 ^ n) bits); [lia |].
  - apply ReadFull_app. unfold zlen. rewrite length_be_encode. lia.
Qed.

(** ** Raw span batches *)

Definition sum (l : list Z) : Z := foldr Z.add 0 l.

Lemma sum_nonneg l : Forall (fun c => 0 <= c) l -> 0 <= sum l.
Proof. unfold sum. induction 1; cbn; lia. Qed.

Section Span.
Context {T : SpanBatchTxs}.

(** What the rest of the encoding relies on: the transactions that were added are
    recovered in order, also after a round trip with their number. *)
Class SpanTxsLaws (chainID : option Z) : Prop := {
  txs_new : txs_fullTxs chainID newSpanBatchTxs = Ok [];
  txs_add : forall new t t' l, AddTxs new chainID t = Ok t' -> txs_fullTxs chainID t = Ok l ->
    txs_fullTxs chainID t' = Ok (l ++ new);
  txs_roundtrip : forall t l bs rest, txs_fullTxs chainID t = Ok l -> txs_encode t = Ok bs ->
    exists t', txs_decode (zlen l) (bs ++ rest) = Ok (t', rest) /\ txs_fullTxs chainID t' = Ok l;
}.

Record raw_wf (chainID : option Z) (b : RawSpanBatch) (l : list (list Z)) : Prop := {
  rw_time : in_range 64 (relTimestamp (raw_prefix b));
  rw_origin : in_range 64 (l1OriginNum (raw_prefix b));
  rw_parent : length (parentCheck (raw_prefix b)) = 20%nat;
  rw_check : length (l1OriginCheck (raw_prefix b)) = 20%nat;
  rw_blocks : 0 < blockCount (raw_payload b) <= MaxSpanBatchElementCount;
  rw_bits : 0 <= originBits (raw_payload b);
  rw_counts : zlen (blockTxCounts (raw_payload b)) = blockCount (raw_payload b);
  rw_nonneg : Forall (fun c => 0 <= c) (blockTxCounts (raw_payload b));
  rw_total : sum (blockTxCounts (raw_payload b)) = zlen l;
  rw_limit : zlen l <= MaxSpanBatchElementCount;
  rw_txs : txs_fullTxs chainID (raw_txs (raw_payload b)) = Ok l;
}.

(** The raw batch with other transactions. *)
Definition with_txs (t : spanBatchTxs) (b : RawSpanBatch) : RawSpanBatch :=
  mkRawSpanBatch (raw_prefix b)
    (mkSpanBatchPayload (blockCount (raw_payload b)) (originBits (raw_payload b)) (blockTxCounts (raw_payload b)) t).

Lemma count_bound counts c : Forall (fun c => 0 <= c) counts -> c ∈ counts -> c <= sum counts.
Proof.
  intros H. induction H as [|x counts Hx H IH]; intros Hc; [by apply elem_of_nil in Hc |]. cbn [sum foldr].
  pose proof (sum_nonneg counts H). unfold sum in *. apply elem_of_cons in Hc as [-> | Hc]; [lia |]. specialize (IH Hc). lia.
Qed.

Lemma total_count_ok counts total : Forall (fun c => 0 <= c) counts -> 0 <= total -> total + sum counts < 2 ^ 64 ->
  total_count total counts = Ok (total + sum counts).
Proof.
  intros H. revert total. induction H as [|c counts Hc H IH]; intros total Ht Hs; cbn [total_count sum foldr] in *; [by rewrite Z.add_0_r |].
  pose proof (sum_nonneg counts H). unfold sum in *. destruct (Z.leb_spec (2 ^ 64) (total + c)); [lia |]. rewrite IH by lia. f_equal. lia.
Qed.

Lemma tx_count_decodes : decodes decodeBlockTxCount PutUvarint (fun c => 0 <= c <= MaxSpanBatchElementCount).
Proof.
  intros c rest [H0 H1]. unfold decodeBlockTxCount. rewrite (ST_bind_run _ _ _ c rest).
  - by destruct (Z.ltb_spec MaxSpanBatchElementCount c); [lia |].
  - apply uvarint_decodes. unfold in_range, MaxSpanBatchElementCount in *. lia.
Qed.

Lemma prefix_decodes : decodes decodePrefix encodePrefix (fun bp =>
  in_range 64 (relTimestamp bp) /\ in_range 64 (l1OriginNum bp) /\ length (parentCheck bp) = 20%nat /\ length (l1OriginCheck bp) = 20%nat).
Proof.
  intros bp rest (H1 & H2 & H3 & H4). unfold decodePrefix, encodePrefix. rewrite <- !app_assoc.
  eapply decodes_bind; [apply uvarint_decodes | done |]. eapply decodes_bind; [apply uvarint_decodes | done |].
  rewrite (ST_bind_run _ _ _ _ _ (ReadFull_app 20 (parentCheck bp) _ ltac:(unfold zlen; lia))).
  rewrite (ST_bind_run _ _ _ _ _ (ReadFull_app 20 (l1OriginCheck bp) _ ltac:(unfold zlen; lia))). by destruct bp.
Qed.

Lemma counts_decode bp (l : list (list Z)) rest :
  zlen (blockTxCounts bp) = blockCount bp -> Forall (fun c => 0 <= c) (blockTxCounts bp) ->
  sum (blockTxCounts bp) = zlen l -> zlen l <= MaxSpanBatchElementCount ->
  decodeBlockTxCounts (blockCount bp) (concat (PutUvarint <$> blockTxCounts bp) ++ rest) = Ok (blockTxCounts bp, rest).
Proof.
  intros H1 H2 H3 H4. unfold decodeBlockTxCounts. replace (Z.to_nat (blockCount bp)) with (length (blockTxCounts bp)) by (unfold zlen in *; lia).
  apply (list_decodes _ _ _ _ _ tx_count_decodes). apply Forall_forall. intros c Hc.
  rewrite Forall_forall in H2. split; [by apply H2 |]. pose proof (count_bound (blockTxCounts bp) c) as Hb.
  rewrite Forall_forall in Hb. specialize (Hb H2 ltac:(first [done | by apply list_elem_of_In])). lia.
Qed.

Lemma raw_roundtrip chainID b l bs rest {TL : SpanTxsLaws chainID} :
  raw_wf chainID b l -> raw_encode b = Ok bs ->
  exists t', raw_decode (bs ++ rest) = Ok (with_txs t' b, rest) /\ txs_fullTxs chainID t' = Ok l.
Proof.
  intros [W1 W2 W3 W4 W5 W6 W7 W8 W9 W10 W11] R. unfold raw_encode, encodePayload in R.
  apply bind_ok in R as (payload & R & E%ok_inj). apply bind_ok in R as (bits & Rb & R). apply bind_ok in R as (txs & Rt & E2%ok_inj). subst.
  destruct (txs_roundtrip _ l txs rest W11 Rt) as (t' & Ht & Hf). exists t'. split; [| done].
  unfold raw_decode. rewrite <- !app_assoc. eapply decodes_bind; [apply prefix_decodes | done |]. unfold decodePayload.
  assert (MaxSpanBatchElementCount < 2 ^ 63) as HM by done.
  rewrite (ST_bind_run _ _ _ (mkSpanBatchPayload (blockCount (raw_payload b)) (originBits (raw_payload b)) (blockTxCounts (raw_payload b)) t') rest); [done |].
  rewrite (ST_bind_run _ _ _ (blockCount (raw_payload b)) (bits ++ concat (PutUvarint <$> blockTxCounts (raw_payload b)) ++ txs ++ rest)).
  2: { unfold decodeBlockCount. eapply decodes_bind; [apply uvarint_decodes | unfold in_range; lia |].
       destruct (Z.ltb_spec MaxSpanBatchElementCount (blockCount (raw_payload b))); [lia |].
       by destruct (Z.eqb_spec (blockCount (raw_payload b)) 0); [lia |]. }
  rewrite (ST_bind_run _ _ _ (originBits (raw_payload b)) (concat (PutUvarint <$> blockTxCounts (raw_payload b)) ++ txs ++ rest)).
  2: { unfold decodeOriginBits. destruct (Z.ltb_spec MaxSpanBatchElementCount (blockCount (raw_payload b))); [lia |].
       apply bits_roundtrip; [lia | done | done]. }
  rewrite (ST_bind_run _ _ _ _ _ (counts_decode (raw_payload b) l (txs ++ rest) W7 W8 W9 W10)).
  rewrite (ST_bind_run _ _ _ t' rest); [done |]. unfold decodeTxs.
  destruct (blockTxCounts (raw_payload b)) as [|c counts] eqn:Ec; [unfold zlen in W7; cbn in W7; lia |]. rewrite <- Ec in *.
  rewrite (ST_bind_run _ _ _ (zlen l) (txs ++ rest)).
  - by destruct (Z.ltb_spec MaxSpanBatchElementCount (zlen l)); [lia |].
  - unfold lift. rewrite total_count_ok by (done || lia). cbn. by rewrite W9.
Qed.

(** ** Building and deriving *)

Fixpoint append_all (l : list (SingularBatch * Z)) (b : SpanBatchBuilder) : outcome SpanBatchBuilder :=
  match l with
  | [] => Ok b
  | (s, seqNum) :: l =>
      match AppendSingularBatch s seqNum b with
      | (Ok _, b) => append_all l b
      | (Err e, _) => Err e
      | (Panic e, _) => Panic e
      end
  end.

(** Consecutive blocks: timestamps one block time apart, origins that stay or move
    to the next block. *)
Fixpoint consecutive (blockTime : Z) (l : list SingularBatch) : Prop :=
  match l with
  | a :: ((b :: _) as l) =>
      Timestamp b = Timestamp a + blockTime /\ (EpochNum b = EpochNum a \/ EpochNum b = EpochNum a + 1) /\ consecutive blockTime l
  | _ => True
  end.

Definition epochs (l : list SingularBatch) : list Z := EpochNum <$> l.

(** The bit of a block behind the first: its origin differs from the one before. *)
Definition bits_ok (bits : Z) (es : list Z) : Prop :=
  forall i a b, es !! i = Some a -> es !! S i = Some b -> Z.testbit bits (Z.of_nat (S i)) = (a <? b).

(** The builder after the batches [l]. *)
Record built (genesis : Z) (chainID : option Z) (b : SpanBatchBuilder) (l : list SingularBatch) : Prop := {
  bt_batches : Batches (sb_batch b) = singularBatchToElement <$> l;
  bt_genesis : GenesisTimestamp b = genesis;
  bt_chain : ChainID b = chainID;
  bt_nonneg : 0 <= sb_originBits b;
  bt_small : forall i, Z.of_nat (length l) <= i -> Z.testbit (sb_originBits b) i = false;
  bt_bits : bits_ok (sb_originBits b) (epochs l);
  bt_counts : sb_blockTxCounts b = (fun s => zlen (Transactions s)) <$> l;
  bt_parent : forall s, head l = Some s -> ParentCheck (sb_batch b) = take 20 (ParentHash s);
  bt_origin : forall s, list.last l = Some s -> L1OriginCheck (sb_batch b) = take 20 (EpochHash s);
  bt_txs : txs_fullTxs chainID (sbtxs b) = Ok (concat (Transactions <$> l));
}.

Lemma set_bit_nonneg x i b : 0 <= x -> 0 <= i -> 0 <= set_bit x i b.
Proof.
  intros Hx Hi. unfold set_bit. destruct b.
  - unfold Z.setbit. apply Z.lor_nonneg. split; [done |]. apply Z.shiftl_nonneg. lia.
  - unfold Z.clearbit. apply Z.ldiff_nonneg. by left.
Qed.

Lemma set_bit_test x i b j : 0 <= i -> 0 <= j -> Z.testbit (set_bit x i b) j = if i =? j then b else Z.testbit x j.
Proof.
  intros Hi Hj. unfold set_bit. destruct (Z.eqb_spec i j) as [<- | Hn].
  - destruct b; [by apply Z.setbit_eq | by apply Z.clearbit_eq].
  - destruct b; [by apply Z.setbit_neq | by apply Z.clearbit_neq].
Qed.

Lemma new_built genesis chainID {TL : SpanTxsLaws chainID} : built genesis chainID (NewSpanBatch genesis chainID) [].
Proof. split; try done. - intros i _. apply Z.testbit_0_l. - apply txs_new. Qed.

Lemma append_built genesis chainID b l s seqNum b' {TL : SpanTxsLaws chainID} :
  built genesis chainID b l -> AppendSingularBatch s seqNum b = (Ok (), b') -> built genesis chainID b' (l ++ [s]).
Proof.
  intros [B1 B2 B3 B4 B5 B6 B7 B8 B9 B10] R. unfold AppendSingularBatch in R. rewrite B1, B3 in R.
  destruct (match list.last _ with Some l => _ | None => _ end); [done |]. rewrite fmap_last in R.
  assert (exists bit parent, (match singularBatchToElement <$> list.last l with
      | Some e => (el_EpochNum e <? EpochNum s, ParentCheck (sb_batch b))
      | None => (seqNum =? 0, take 20 (ParentHash s)) end) = (bit, parent) /\
    (forall e, list.last l = Some e -> bit = (EpochNum e <? EpochNum s)) /\
    (forall s', head (l ++ [s]) = Some s' -> parent = take 20 (ParentHash s'))) as (bit & parent & E & Hbit & Hpar).
  { destruct (list.last l) as [e |] eqn:El; cbn.
    - exists (EpochNum e <? EpochNum s), (ParentCheck (sb_batch b)). split; [done |]. split; [by intros e' [= <-] |].
      intros s' Hs. apply B8. destruct l; [done | exact Hs].
    - exists (seqNum =? 0), (take 20 (ParentHash s)). split; [done |]. split; [done |]. apply last_None in El as ->. by intros s' [= <-]. }
  rewrite E in R. destruct (AddTxs (Transactions s) chainID (sbtxs b)) as [t | |] eqn:Ea; [| done | done]. injection R as <-.
  assert (zlen (singularBatchToElement <$> l) = Z.of_nat (length l)) as Hz by (unfold zlen; by rewrite length_fmap).
  split; cbn [sb_batch Batches GenesisTimestamp ChainID sb_originBits sb_blockTxCounts sbtxs ParentCheck L1OriginCheck]; try done.
  - by rewrite fmap_app.
  - apply set_bit_nonneg; [done | lia].
  - intros i Hi. rewrite length_app in Hi. cbn in Hi. rewrite set_bit_test, Hz by lia. destruct (Z.eqb_spec (Z.of_nat (length l)) i); [lia |]. apply B5. lia.
  - intros i x y Hx Hy. unfold epochs in *. rewrite fmap_app in Hx, Hy. rewrite set_bit_test, Hz by lia.
    assert (S i < length l + 1)%nat as Hlt by (apply lookup_lt_Some in Hy; rewrite length_app, length_fmap in Hy; cbn in Hy; lia).
    rewrite lookup_app_l in Hx by (rewrite length_fmap; lia).
    destruct (Z.eqb_spec (Z.of_nat (length l)) (Z.of_nat (S i))) as [En | En].
    + rewrite lookup_app_r in Hy by (rewrite length_fmap; lia). rewrite length_fmap in Hy. replace (S i - length l)%nat with 0%nat in Hy by lia.
      injection Hy as <-. apply list_lookup_fmap_Some in Hx as (e & -> & Hx). apply Hbit. rewrite last_lookup. by replace (pred (length l)) with i by lia.
    + rewrite lookup_app_l in Hy by (rewrite length_fmap; lia). by apply (B6 i).
  - by rewrite B7, fmap_app.
  - intros s' Hs. rewrite last_snoc in Hs. by injection Hs as <-.
  - rewrite fmap_app, concat_app. cbn. rewrite app_nil_r. by apply (txs_add (Transactions s) (sbtxs b)).
Qed.

Lemma append_all_built genesis chainID b l l0 b' {TL : SpanTxsLaws chainID} :
  built genesis chainID b l0 -> append_all l b = Ok b' -> built genesis chainID b' (l0 ++ l.*1).
Proof.
  revert b l0. induction l as [|[s q] l IH]; intros b l0 Hb R; cbn [append_all fmap list_fmap fst] in *.
  - injection R as <-. by rewrite app_nil_r.
  - destruct (AppendSingularBatch s q b) as [[[] | e | e] b1] eqn:E; [| done | done].
    replace (l0 ++ s :: l.*1) with ((l0 ++ [s]) ++ l.*1) by (by rewrite <- app_assoc). eapply IH; [| exact R]. by eapply append_built.
Qed.

(** Origins from the last one down. *)
Lemma origin_nums_ok bits es : bits_ok bits es ->
  (forall i a b, es !! i = Some a -> es !! S i = Some b -> b = a \/ b = a + 1) -> Forall (in_range 64) es ->
  forall n acc, list.last es = Some n -> origin_nums bits (length es) n acc = es ++ acc.
Proof.
  induction es as [|x es IH] using rev_ind; intros Hb Hs Hr n acc Hl; [done |].
  rewrite last_snoc in Hl. injection Hl as <-. rewrite length_app, Nat.add_1_r. cbn [origin_nums].
  destruct es as [|y es']; [done |]. set (es := y :: es') in *. apply Forall_app in Hr as [Hr Hx].
  destruct (list.last es) as [p |] eqn:Ep; [| by apply last_None in Ep].
  assert (es !! pred (length es) = Some p) as Hp by (by rewrite <- last_lookup).
  assert (S (pred (length es)) = length es) as El by done.
  assert ((es ++ [x]) !! pred (length es) = Some p) as H1 by (rewrite lookup_app_l; [done | lia]).
  assert ((es ++ [x]) !! S (pred (length es)) = Some x) as H2 by (rewrite El; apply list_lookup_middle; lia).
  pose proof (Hb _ _ _ H1 H2) as Hbit. rewrite El in Hbit. rewrite Hbit. replace (0 <? length es)%nat with true by done. rewrite andb_true_r.
  assert ((if p <? x then usub 64 x 1 else x) = p) as ->.
  { rewrite Forall_singleton in Hx. assert (in_range 64 p) as Hpr by (eapply Forall_lookup_1; eassumption).
    destruct (Hs _ _ _ H1 H2) as [-> | ->]; [by rewrite Z.ltb_irrefl |]. destruct (Z.ltb_spec p (p + 1)); [| lia].
    unfold usub. replace (p + 1 - 1) with p by lia. by apply wrap_small. }
  rewrite IH; [by rewrite <- app_assoc | | | done | done].
  - intros i a b Ha Hb'. apply (Hb i a b); rewrite lookup_app_l; [done | by eapply lookup_lt_Some | done | by eapply lookup_lt_Some].
  - intros i a b Ha Hb'. apply (Hs i a b); rewrite lookup_app_l; [done | by eapply lookup_lt_Some | done | by eapply lookup_lt_Some].
Qed.

Lemma derive_blocks_ok first blockTime (l : list SingularBatch) i :
  0 <= i -> (forall k s, l !! k = Some s -> Timestamp s = uadd 64 first (umul 64 blockTime (i + Z.of_nat k))) ->
  derive_blocks first blockTime i (epochs l) ((fun s => zlen (Transactions s)) <$> l) (concat (Transactions <$> l)) =
    Ok (singularBatchToElement <$> l).
Proof.
  revert i. induction l as [|s l IH]; intros i Hi Ht; [done |]. cbn [epochs fmap list_fmap derive_blocks concat].
  assert (zlen (Transactions s ++ concat (Transactions <$> l)) <? zlen (Transactions s) = false) as ->.
  { apply Z.ltb_ge. unfold zlen. rewrite length_app. lia. }
  replace (Z.to_nat (zlen (Transactions s))) with (length (Transactions s)) by (unfold zlen; lia).
  rewrite drop_app_length, take_app_length. fold (epochs l). rewrite IH.
  - cbn. f_equal. f_equal. unfold singularBatchToElement. f_equal. rewrite <- (Z.add_0_r i). symmetry. by apply (Ht 0%nat).
  - lia.
  - intros k x Hx. replace (i + 1 + Z.of_nat k) with (i + Z.of_nat (S k)) by lia. by apply Ht.
Qed.

Lemma consecutive_time blockTime l k s t : consecutive blockTime l -> head l = Some t -> l !! k = Some s ->
  Timestamp s = Timestamp t + blockTime * Z.of_nat k.
Proof.
  revert k t. induction l as [|a l IH]; intros k t Hc Hh Hk; [done |]. injection Hh as <-.
  destruct k as [|k]; [injection Hk as <-; lia |]. cbn in Hk. destruct l as [|b l]; [done |]. destruct Hc as (Hb & _ & Hc).
  rewrite (IH k b Hc eq_refl Hk). lia.
Qed.

Lemma consecutive_epoch blockTime l i a b : consecutive blockTime l -> epochs l !! i = Some a -> epochs l !! S i = Some b -> b = a \/ b = a + 1.
Proof.
  unfold epochs. revert i. induction l as [|x l IH]; intros i Hc Ha Hb; [done |]. destruct l as [|y l]; [by destruct i |].
  destruct Hc as (_ & He & Hc). destruct i as [|i]; [injection Ha as <-; injection Hb as <-; done |]. by apply (IH i).
Qed.

(** The batches of a span, in a form that the encoding can express. *)
Record span_wf (blockTime : Z) (l : list SingularBatch) : Prop := {
  sp_some : l <> [];
  sp_count : zlen l <= MaxSpanBatchElementCount;
  sp_consecutive : consecutive blockTime l;
  sp_block : 0 <= blockTime;
  sp_time : forall s, s ∈ l -> in_range 64 (Timestamp s);
  sp_epoch : Forall (in_range 64) (epochs l);
  sp_parent : forall s, s ∈ l -> length (ParentHash s) = 32%nat /\ length (EpochHash s) = 32%nat;
  sp_txs : zlen (concat (Transactions <$> l)) <= MaxSpanBatchElementCount;
}.

Lemma counts_sum (l : list SingularBatch) : sum ((fun s => zlen (Transactions s)) <$> l) = zlen (concat (Transactions <$> l)).
Proof. unfold sum. induction l as [|s l IH]; [done |]. cbn [fmap list_fmap foldr concat]. rewrite IH. unfold zlen. rewrite length_app. lia. Qed.

Lemma last_epoch l e : list.last l = Some e -> list.last (epochs l) = Some (EpochNum e).
Proof. intros H. unfold epochs. by rewrite fmap_last, H. Qed.

Lemma span_roundtrip genesis chainID blockTime l b raw bs rest {TL : SpanTxsLaws chainID} :
  span_wf blockTime l.*1 -> append_all l (NewSpanBatch genesis chainID) = Ok b ->
  ToRawSpanBatch b = Ok raw -> raw_encode raw = Ok bs ->
  exists raw' s e, raw_decode (bs ++ rest) = Ok (raw', rest) /\ head l.*1 = Some s /\ list.last l.*1 = Some e /\
    derive raw' blockTime genesis chainID =
      Ok (mkSpanBatch (take 20 (ParentHash s)) (take 20 (EpochHash e)) (singularBatchToElement <$> l.*1)).
Proof.
  intros [S1 S2 S3 S4 S5 S6 S7 S8] Ra Rt Re.
  pose proof (append_all_built genesis chainID _ l [] b (new_built genesis chainID) Ra) as Hb. cbn [app] in Hb. set (ss := l.*1) in *.
  destruct Hb as [B1 B2 B3 B4 B5 B6 B7 B8 B9 B10].
  destruct (list.last ss) as [e |] eqn:Ee; [| by apply last_None in Ee]. destruct (head ss) as [s |] eqn:Es; [| by destruct ss].
  unfold ToRawSpanBatch in Rt. rewrite B1, fmap_last, Ee in Rt. assert (head (singularBatchToElement <$> ss) = Some (singularBatchToElement s)) as Eh.
  { destruct ss; [done |]. by injection Es as <-. }
  rewrite Eh in Rt. cbn [fmap option_fmap option_map] in Rt. apply ok_inj in Rt. rewrite (B8 s eq_refl), (B9 e eq_refl), B2 in Rt.
  assert (e ∈ ss /\ s ∈ ss) as [He Hs].
  { split; [apply list_elem_of_lookup_2 with (pred (length ss)); by rewrite <- last_lookup |].
    destruct ss; [done |]. injection Es as ->. apply list_elem_of_here. }
  destruct (S7 s Hs) as [Hps _]. destruct (S7 e He) as [_ Heh]. pose proof (S5 s Hs) as Hts.
  assert (raw_wf chainID raw (concat (Transactions <$> ss))) as Hw.
  { subst raw. split; cbn [raw_prefix raw_payload relTimestamp l1OriginNum parentCheck l1OriginCheck blockCount originBits blockTxCounts raw_txs]; try done.
    - by apply wrap_range.
    - pose proof (last_epoch ss e Ee) as Hl. rewrite last_lookup in Hl. by eapply (Forall_lookup_1 _ _ _ _ S6).
    - rewrite length_take. lia.
    - rewrite length_take. lia.
    - unfold zlen in *. rewrite length_fmap. destruct ss; [done | cbn in *; lia].
    - rewrite B7. unfold zlen. by rewrite !length_fmap.
    - rewrite B7. apply Forall_fmap, Forall_true. intros x. cbn. unfold zlen. lia.
    - rewrite B7. apply counts_sum. }
  destruct (raw_roundtrip chainID raw _ bs rest Hw Re) as (t' & Hd & Hf). exists (with_txs t' raw), s, e. split; [done |]. split; [done |]. split; [done |].
  subst raw. unfold derive, with_txs. cbn [raw_prefix raw_payload blockCount originBits blockTxCounts raw_txs l1OriginNum relTimestamp parentCheck l1OriginCheck].
  assert (zlen (singularBatchToElement <$> ss) = zlen ss) as Hz by (unfold zlen; by rewrite length_fmap). rewrite Hz.
  destruct (Z.eqb_spec (zlen ss) 0) as [E0 |]; [unfold zlen in E0; destruct ss; [done | cbn in E0; lia] |].
  rewrite Hf. cbn [mbind outcome_bind]. replace (Z.to_nat (zlen ss)) with (length (epochs ss)) by (unfold epochs, zlen; rewrite length_fmap; lia).
  rewrite (origin_nums_ok _ (epochs ss) B6); [| intros i x y; by apply consecutive_epoch with blockTime | done | by apply last_epoch].
  rewrite app_nil_r, B7, derive_blocks_ok; [done | lia |]. intros k x Hx. rewrite (consecutive_time blockTime ss k x s S3 Es Hx).
  cbn [el_Timestamp singularBatchToElement]. pose proof (S5 x ltac:(by eapply list_elem_of_lookup_2)) as Htx.
  rewrite (consecutive_time blockTime ss k x s S3 Es Hx) in Htx. unfold uadd, umul, usub. rewrite Z.add_0_l.
  rewrite (wrap_small 64 (blockTime * Z.of_nat k)) by (unfold in_range in *; nia).
  unfold wrap. rewrite Z.add_mod_idemp_r, Z.add_mod_idemp_l by lia. replace (genesis + (Timestamp s - genesis)) with (Timestamp s) by lia.
  rewrite Z.mod_small; [done |]. unfold in_range in *. lia.
Qed.

(** The origins of a derived span do not decrease, if the numbers do not run below zero. *)
Lemma origin_nums_bounded bits n number acc :
  Forall (fun e => e <= number) acc -> Z.of_nat n <= number < 2 ^ 64 ->
  forall bound, number <= bound -> Forall (fun e => e <= bound) acc -> Forall (fun e => e <= bound) (origin_nums bits n number acc).
Proof.
  intros _ Hn bound. revert number acc Hn. induction n as [|n IH]; intros number acc Hn Hb Ha; cbn [origin_nums]; [done |].
  destruct (_ && _).
  - unfold usub. rewrite wrap_small by (unfold in_range; lia). apply IH; [lia | lia | by constructor].
  - apply IH; [lia | lia | by constructor].
Qed.

End Span.
