(* ===== verification/ChannelProps.v ===== *)
(** Frames: parsing inverts marshalling in both directions, and the in-place
    loop that prunes the frame queue is a single pass with a stack. *)
From Stdlib Require Import ZArith Lia.
From stdpp Require Import base gmap list strings numbers fin_maps.
From S2P Require Import Prelude Codec Rollup Frames Channels.

Record frame_wf (f : Frame) : Prop := {
  fw_id : length (f_ID f) = 16%nat;
  fw_number : in_range 16 (FrameNumber f);
  fw_data : zlen (f_Data f) <= MaxFrameLen;
}.

(** ** Parsing *)

Lemma eof_run {A} (m : ST (list Z) A) s a s' : m s = Ok (a, s') -> eofAsUnexpectedMissing m s = Ok (a, s').
Proof. intros E. unfold eofAsUnexpectedMissing. by rewrite E. Qed.

Lemma eof_inv {A} (m : ST (list Z) A) s a s' : eofAsUnexpectedMissing m s = Ok (a, s') -> m s = Ok (a, s').
Proof. unfold eofAsUnexpectedMissing. by destruct (m s). Qed.

Lemma Unmarshal_Marshal : decodes UnmarshalBinary MarshalBinary frame_wf.
Proof.
  intros f rest [Hid Hn Hd]. unfold UnmarshalBinary, MarshalBinary. rewrite <- !app_assoc.
  assert (in_range 32 (zlen (f_Data f))) as Hl by (unfold in_range, zlen, MaxFrameLen in *; lia).
  rewrite (ST_bind_run _ _ _ _ _ (ReadFull_app ChannelIDLength (f_ID f) _ ltac:(unfold zlen; rewrite Hid; done))).
  rewrite (ST_bind_run _ _ _ _ _ (eof_run _ _ _ _ (uint_decodes 2 ltac:(lia) (FrameNumber f) _ Hn))).
  rewrite (ST_bind_run _ _ _ _ _ (eof_run _ _ _ _ (uint_decodes 4 ltac:(lia) (wrap 32 (zlen (f_Data f))) _ ltac:(by apply wrap_range)))).
  rewrite wrap_small by done. rewrite (proj2 (Z.ltb_ge _ _)) by done.
  rewrite (ST_bind_run _ _ _ _ _ (eof_run _ _ _ _ (ReadFull_app _ (f_Data f) _ eq_refl))).
  destruct f as [id n data last]. cbn [f_ID FrameNumber f_Data IsLast]. by destruct last.
Qed.

Lemma Unmarshal_inv buf f rest :
  bytes_ok buf -> UnmarshalBinary buf = Ok (f, rest) -> buf = MarshalBinary f ++ rest /\ frame_wf f /\ bytes_ok rest.
Proof.
  intros Hb R. unfold UnmarshalBinary in R.
  apply ST_bind_ok in R as (id & s1 & R1 & R). apply ReadFull_inv in R1 as [-> Hid]; [| done]. apply Forall_app in Hb as [_ Hb].
  apply ST_bind_ok in R as (n & s2 & R2%eof_inv & R). apply ReadUInt_inv in R2 as (-> & Hn & Hb2); [| done ..].
  apply ST_bind_ok in R as (len & s3 & R3%eof_inv & R). apply ReadUInt_inv in R3 as (-> & Hlen & Hb3); [| done ..].
  destruct (Z.ltb_spec MaxFrameLen len); [done |].
  apply ST_bind_ok in R as (data & s4 & R4%eof_inv & R). apply ReadFull_inv in R4 as [-> Hdata]; [| apply Hlen].
  apply Forall_app in Hb3 as [_ Hb4].
  apply ST_bind_ok in R as (b & s5 & R5%eof_inv & R). destruct s4 as [|b' s4]; [done |]. injection R5 as <- <-.
  assert (exists last, f = mkFrame id n data last /\ s4 = rest /\ [b'] = if last then [1] else [0]) as (last & -> & -> & E).
  { destruct (Z.eqb_spec b' 0) as [-> |]; [injection R as <- <-; by exists false |].
    destruct (Z.eqb_spec b' 1) as [-> |]; [injection R as <- <-; by exists true | done]. }
  split; [| split; [split; cbn [f_ID FrameNumber f_Data]; [unfold zlen, ChannelIDLength in Hid; lia | done | lia] | by inversion Hb4]].
  unfold MarshalBinary. cbn [f_ID FrameNumber f_Data IsLast]. rewrite <- E, Hdata, wrap_small by done.
  by rewrite <- !app_assoc.
Qed.

Lemma length_Marshal f : frame_wf f -> (23 <= length (MarshalBinary f))%nat.
Proof. intros [Hid _ _]. unfold MarshalBinary. rewrite !length_app, !length_be_encode, Hid. destruct (IsLast f); cbn; lia. Qed.

Lemma parse_frames_run fs acc fuel :
  Forall frame_wf fs -> (length (concat (MarshalBinary <$> fs)) <= fuel)%nat ->
  parse_frames fuel acc (concat (MarshalBinary <$> fs)) = Ok (acc ++ fs, []).
Proof.
  intros H. revert acc fuel. induction H as [|f fs Hf H IH]; intros acc fuel Hl; cbn [fmap list_fmap concat] in *.
  - rewrite app_nil_r. by destruct fuel.
  - pose proof (length_Marshal f Hf). rewrite length_app in Hl. destruct fuel as [|fuel]; [lia |].
    pose proof (Unmarshal_Marshal f (concat (MarshalBinary <$> fs)) Hf) as E.
    destruct (MarshalBinary f ++ concat (MarshalBinary <$> fs)) as [|b buf] eqn:Eb.
    + apply (f_equal length) in Eb. rewrite length_app in Eb. cbn in Eb. lia.
    + cbn [parse_frames]. rewrite E, IH by (rewrite ?length_app in Hl; lia). by rewrite <- app_assoc.
Qed.

Lemma parse_frames_inv fuel acc buf fs rest :
  bytes_ok buf -> parse_frames fuel acc buf = Ok (fs, rest) ->
  exists new, fs = acc ++ new /\ buf = concat (MarshalBinary <$> new) /\ Forall frame_wf new /\ rest = [].
Proof.
  revert acc buf. induction fuel as [|fuel IH]; intros acc buf Hb R; cbn [parse_frames] in R.
  - destruct buf; [injection R as <- <-; exists []; by rewrite app_nil_r | done].
  - destruct buf as [|b buf]; [injection R as <- <-; exists []; by rewrite app_nil_r |].
    destruct (UnmarshalBinary (b :: buf)) as [[f buf'] | |] eqn:E; [| done | done].
    destruct (Unmarshal_inv (b :: buf) f buf' Hb E) as (-> & Hf & Hb').
    destruct (IH (acc ++ [f]) buf' Hb' R) as (new & -> & -> & Hn & ->).
    exists (f :: new). rewrite <- app_assoc. split; [done |]. split; [done |]. split; [by constructor | done].
Qed.

(** Reading does not panic. *)
Definition total {A} (m : ST (list Z) A) : Prop := forall s e, m s <> Panic e.

Lemma total_bind {A B} (m : ST (list Z) A) (f : A -> ST (list Z) B) : total m -> (forall a, total (f a)) -> total (m ≫= f).
Proof.
  intros Hm Hf s e. unfold mbind, ST_bind. specialize (Hm s). destruct (m s) as [[a s'] | |]; [apply Hf | done |]. intros [= ->]. by apply (Hm e).
Qed.

Lemma total_ReadFull n : total (ReadFull n).
Proof. intros s e. unfold ReadFull. by repeat case_match. Qed.

Lemma total_eof {A} (m : ST (list Z) A) : total m -> total (eofAsUnexpectedMissing m).
Proof. intros Hm s e. specialize (Hm s). unfold eofAsUnexpectedMissing. by destruct (m s). Qed.

Lemma total_ReadUInt n : total (ReadUInt n).
Proof. apply total_bind; [apply total_ReadFull | done]. Qed.

Lemma Unmarshal_total : total UnmarshalBinary.
Proof.
  apply total_bind; [apply total_ReadFull | intros id].
  apply total_bind; [apply total_eof, total_ReadUInt | intros n].
  apply total_bind; [apply total_eof, total_ReadUInt | intros len].
  destruct (MaxFrameLen <? len); [done |].
  apply total_bind; [apply total_eof, total_ReadFull | intros data].
  apply total_bind; [apply total_eof; by intros [|] | intros b].
  destruct (b =? 0), (b =? 1); done.
Qed.

(** Parsing never runs out of fuel: every frame consumes input. *)
Lemma parse_frames_total fuel acc buf e :
  bytes_ok buf -> (length buf <= fuel)%nat -> parse_frames fuel acc buf <> Panic e.
Proof.
  revert acc buf. induction fuel as [|fuel IH]; intros acc buf Hb Hl R; cbn [parse_frames] in R; destruct buf as [|b buf]; [done | cbn in Hl; lia | done |].
  destruct (UnmarshalBinary (b :: buf)) as [[f buf'] | e' | e'] eqn:E.
  - destruct (Unmarshal_inv (b :: buf) f buf' Hb E) as (Eb & Hf & Hb'). apply (IH (acc ++ [f]) buf' Hb'); [| done].
    pose proof (length_Marshal f Hf). rewrite Eb, length_app in Hl. lia.
  - done.
  - by apply Unmarshal_total in E.
Qed.

(** ** The frame queue *)

(** The next frame meets the kept ones, the newest first. *)
Fixpoint push (kept : list Frame) (next : Frame) : list Frame :=
  match kept with
  | [] => [next]
  | current :: below =>
      if decide (f_ID current = f_ID next) then
        if IsLast current then kept
        else if negb (FrameNumber next =? uadd 16 (FrameNumber current) 1) then kept
        else next :: kept
      else if (FrameNumber next =? 0) && negb (IsLast current) then push below next
      else if negb (FrameNumber next =? 0) then kept
      else next :: kept
  end.

Lemma discard_at (l : list Frame) x r d :
  discard (l ++ x :: r) (length l) d =
    match d with O => l ++ r | _ => l ++ x :: take (d - 1) r ++ drop d r end.
Proof.
  unfold discard. destruct d as [|d].
  - rewrite Nat.add_0_r, take_app_length, (Nat.add_comm _ 1), Nat.add_0_r. f_equal.
    replace (1 + length l)%nat with (length (l ++ [x])) by (rewrite length_app; cbn; lia).
    by rewrite (app_assoc l [x] r : l ++ x :: r = _), drop_app_length.
  - rewrite take_app_add, (Nat.add_comm _ 1). replace (1 + length l + S d)%nat with (length l + S (S d))%nat by lia.
    rewrite drop_app_add. cbn [take drop]. rewrite <- app_assoc. cbn. by replace (d - 0)%nat with d by lia.
Qed.

Lemma prune_lookup (kept rest : list Frame) c next :
  (reverse (c :: kept) ++ next :: rest) !! length kept = Some c /\
  (reverse (c :: kept) ++ next :: rest) !! (length kept + 1)%nat = Some next.
Proof.
  rewrite reverse_cons, <- app_assoc. cbn. split.
  - rewrite lookup_app_r by (rewrite length_reverse; lia). by rewrite length_reverse, Nat.sub_diag.
  - rewrite lookup_app_r by (rewrite length_reverse; lia). rewrite length_reverse.
    by replace (length kept + 1 - length kept)%nat with 1%nat by lia.
Qed.

(** The loop, with the frames up to the cursor as a stack. *)
Lemma prune_loop_push fuel kept rest c :
  (2 * length rest + S (length kept) <= fuel)%nat ->
  prune_loop fuel (reverse (c :: kept) ++ rest) (length kept) = reverse (foldl push (c :: kept) rest).
Proof.
  revert kept rest c. induction fuel as [|fuel IH]; intros kept rest c Hf; [lia |].
  destruct rest as [|next rest].
  { rewrite app_nil_r. cbn [prune_loop foldl]. rewrite (lookup_ge_None_2 _ (length kept + 1)%nat); [by case_match |].
    rewrite length_reverse. cbn. lia. }
  destruct (prune_lookup kept rest c next) as [E1 E2].
  cbn [prune_loop]. rewrite E1, E2. cbn [length] in Hf.
  assert (discard (reverse (c :: kept) ++ next :: rest) (length kept) 1 = reverse (c :: kept) ++ rest) as D1.
  { rewrite reverse_cons, <- !app_assoc. cbn [app]. rewrite <- (length_reverse kept) at 1. rewrite discard_at. done. }
  assert (discard (reverse (c :: kept) ++ next :: rest) (length kept) 0 = reverse kept ++ next :: rest) as D0.
  { rewrite reverse_cons, <- app_assoc. cbn [app]. rewrite <- (length_reverse kept) at 1. by rewrite discard_at. }
  assert (prune_loop fuel (reverse (c :: kept) ++ next :: rest) (length kept + 1) = reverse (foldl push (next :: c :: kept) rest)) as F.
  { rewrite Nat.add_1_r. change (S (length kept)) with (length (c :: kept)).
    rewrite <- (IH (c :: kept) rest next) by (cbn [length]; lia). f_equal. rewrite (reverse_cons (c :: kept)), <- app_assoc. done. }
  unfold prune_step. cbn [foldl push]. destruct (decide (f_ID c = f_ID next)) as [Eid | Hid].
  - destruct (IsLast c); [rewrite D1; apply IH; lia |].
    destruct (negb _); [rewrite D1; apply IH; lia | exact F].
  - destruct ((FrameNumber next =? 0) && negb (IsLast c)) eqn:Ef.
    + rewrite D0. destruct kept as [|k kept]; cbn [length Nat.ltb Nat.leb].
      * apply (IH [] rest next). cbn in Hf |- *. lia.
      * rewrite Nat.sub_succ, Nat.sub_0_r. rewrite (IH kept (next :: rest) k) by (cbn in Hf |- *; lia). done.
    + destruct (negb (FrameNumber next =? 0)); [rewrite D1; apply IH; lia | exact F].
Qed.

Lemma prune_push fs : pruneFrameQueue fs = reverse (foldl push [] fs).
Proof.
  unfold pruneFrameQueue. destruct fs as [|f fs]; [done |].
  change (f :: fs) with (reverse [f] ++ fs) at 2. change 0%nat with (length (@nil Frame)).
  rewrite prune_loop_push by (cbn; lia). done.
Qed.

(** What follows a frame in a queue that obeys the ordering rules. *)
Definition follows (a b : Frame) : Prop :=
  if decide (f_ID a = f_ID b) then IsLast a = false /\ FrameNumber b = uadd 16 (FrameNumber a) 1
  else IsLast a = true /\ FrameNumber b = 0.

Fixpoint stacked (kept : list Frame) : Prop :=
  match kept with
  | b :: ((a :: _) as below) => follows a b /\ stacked below
  | _ => True
  end.

Lemma push_stacked kept next : stacked kept -> stacked (push kept next).
Proof.
  induction kept as [|c kept IH]; intros H; [done |]. cbn [push]. unfold follows.
  assert (stacked kept) as Hk by (destruct kept; [done | apply H]).
  destruct (decide (f_ID c = f_ID next)) as [Eid | Hid].
  - destruct (IsLast c) eqn:El; [done |]. destruct (Z.eqb_spec (FrameNumber next) (uadd 16 (FrameNumber c) 1)); [| done].
    cbn [negb]. split; [unfold follows; by rewrite decide_True | done].
  - destruct (Z.eqb_spec (FrameNumber next) 0) as [E0 | Hn]; [| done]. destruct (IsLast c) eqn:El; cbn [negb andb]; [| by apply IH].
    split; [unfold follows; by rewrite decide_False | done].
Qed.

Lemma push_follows kept c next : follows c next -> push (c :: kept) next = next :: c :: kept.
Proof.
  unfold follows. cbn [push]. destruct (decide (f_ID c = f_ID next)); intros [-> ->]; [| done].
  by rewrite Z.eqb_refl.
Qed.

Lemma push_all kept : stacked kept -> foldl push [] (reverse kept) = kept.
Proof.
  induction kept as [|b kept IH]; intros H; [done |]. rewrite reverse_cons, foldl_app.
  destruct kept as [|a kept]; [done |]. destruct H as [Hf H]. rewrite (IH H). cbn [foldl]. by rewrite push_follows.
Qed.

Lemma push_sublist kept next : sublist (push kept next) (next :: kept).
Proof.
  induction kept as [|c kept IH]; [done |]. cbn [push].
  assert (sublist (c :: kept) (next :: c :: kept)) by (by apply sublist_cons).
  destruct (decide _); repeat case_match; try done.
  etransitivity; [exact IH |]. apply sublist_skip. by apply sublist_cons.
Qed.

Lemma foldl_push_sublist kept fs : sublist (foldl push kept fs) (reverse fs ++ kept).
Proof.
  revert kept. induction fs as [|f fs IH]; intros kept; [done |]. cbn [foldl]. rewrite reverse_cons, <- app_assoc. cbn [app].
  etransitivity; [apply IH |]. apply sublist_app; [done | apply push_sublist].
Qed.

Lemma reverse_sublist {A} (l k : list A) : sublist l k -> sublist (reverse l) (reverse k).
Proof.
  induction 1; rewrite ?reverse_cons; [done | by apply sublist_app |]. by apply sublist_inserts_r.
Qed.

(** Channels: the invariant of a channel, reassembly of its data from frames in
    any order, and the stages that collect frames into channels. *)

(** ** The invariant of a channel *)

(** Frames are stored under their number, up to the highest number seen; a
    closed channel holds its last frame and nothing behind it; a channel that
    requires order holds an initial segment. *)
Record channel_ok (ch : Channel) : Prop := {
  co_number : forall i f, inputs ch !! i = Some f ->
    FrameNumber f = i /\ f_ID f = ch_id ch /\ 0 <= i <= highestFrameNumber ch;
  co_highest : highestFrameNumber ch = 0 \/ is_Some (inputs ch !! highestFrameNumber ch);
  co_end : if closed ch then exists f, inputs ch !! endFrameNumber ch = Some f /\ IsLast f = true /\
             highestFrameNumber ch <= endFrameNumber ch
           else forall i f, inputs ch !! i = Some f -> IsLast f = false;
  co_last : forall i f, inputs ch !! i = Some f -> IsLast f = true -> i = endFrameNumber ch;
  co_order : requireInOrder ch = true -> forall i, is_Some (inputs ch !! i) <-> 0 <= i < Z.of_nat (size (inputs ch));
}.

Lemma NewChannel_ok id b r : channel_ok (NewChannel id b r).
Proof.
  split; cbn; try done; [by left |].
  intros _ i. rewrite lookup_empty, map_size_empty. split; [by intros [? ?] | lia].
Qed.

Lemma lookup_prune n ins sz i :
  (prune_inputs n ins sz).1 !! i = if decide (i < n) then ins !! i else None.
Proof.
  unfold prune_inputs. cbn [fst]. destruct (decide (i < n)) as [Hi | Hi].
  - destruct (ins !! i) as [f |] eqn:E.
    + apply map_lookup_filter_Some. done.
    + apply map_lookup_filter_None. by left.
  - apply map_lookup_filter_None. right. intros f _. cbn. lia.
Qed.

Section Add.
Context (frame : Frame) (block : L1BlockRef) (ch ch' : Channel).
Context (Hok : channel_ok ch) (Hn' : requireInOrder ch = true \/ 0 <= FrameNumber frame) (R : AddFrame frame block ch = Ok ch').

(** What the checks of [AddFrame] leave. *)
Lemma AddFrame_inv :
  f_ID frame = ch_id ch /\ (IsLast frame = true -> closed ch = false) /\ inputs ch !! FrameNumber frame = None /\
  (closed ch = true -> FrameNumber frame < endFrameNumber ch) /\
  (requireInOrder ch = true -> FrameNumber frame = Z.of_nat (size (inputs ch))) /\
  let prune := IsLast frame && (FrameNumber frame <? highestFrameNumber ch) in
  ch_id ch' = ch_id ch /\ openBlock ch' = openBlock ch /\ requireInOrder ch' = requireInOrder ch /\
  closed ch' = IsLast frame || closed ch /\
  endFrameNumber ch' = (if IsLast frame then FrameNumber frame else endFrameNumber ch) /\
  highestFrameNumber ch' = (if prune then FrameNumber frame else Z.max (highestFrameNumber ch) (FrameNumber frame)) /\
  inputs ch' = <[FrameNumber frame := frame]>
    (if prune then (prune_inputs (FrameNumber frame) (inputs ch) (ch_size ch)).1 else inputs ch) /\
  ch_size ch' = uadd 64
    (if prune then (prune_inputs (FrameNumber frame) (inputs ch) (ch_size ch)).2 else ch_size ch) (frameSize frame).
Proof.
  revert R. unfold AddFrame. destruct (decide _) as [| Hid]; [done |]. apply dec_stable in Hid.
  destruct (IsLast frame && closed ch) eqn:Elc; [done |]. destruct (decide _) as [| Hd]; [done |].
  destruct (closed ch && (endFrameNumber ch <=? FrameNumber frame)) eqn:Ecl; [done |].
  destruct (requireInOrder ch && negb (FrameNumber frame =? Z.of_nat (size (inputs ch)))) eqn:Eo; [done |].
  intros E. split; [done |]. split; [intros El; by rewrite El in Elc |].
  split; [by apply eq_None_not_Some |]. split; [intros Ec; rewrite Ec in Ecl; cbn in Ecl; apply Z.leb_gt in Ecl; lia |].
  split; [intros Er; rewrite Er in Eo; cbn in Eo; apply negb_false_iff, Z.eqb_eq in Eo; done |]. cbv zeta.
  destruct (IsLast frame) eqn:El; cbn [andb orb] in E |- *.
  - destruct (FrameNumber frame <? highestFrameNumber ch) eqn:Ep; cbn in E; injection E as <-; cbn.
    + rewrite Z.ltb_irrefl. by split_and!.
    + split_and!; try done. destruct (Z.ltb_spec (highestFrameNumber ch) (FrameNumber frame)); lia.
  - injection E as <-. cbn. split_and!; try done.
    destruct (Z.ltb_spec (highestFrameNumber ch) (FrameNumber frame)); lia.
Qed.

Lemma AddFrame_ok : channel_ok ch'.
Proof.
  destruct AddFrame_inv as (Hid & Hlc & Hnew & Hend & Hord & H). cbv zeta in H.
  assert (0 <= FrameNumber frame) as Hn by (destruct Hn' as [Hr | Hn]; [specialize (Hord Hr); lia | done]).
  destruct H as (Eid & _ & Ereq & Ecl & Eend & Ehi & Ein & _). destruct Hok as [C1 C2 C3 C4 C5].
  set (prune := IsLast frame && (FrameNumber frame <? highestFrameNumber ch)) in *.
  assert (forall i f, inputs ch' !! i = Some f ->
    (i = FrameNumber frame /\ f = frame) \/
    (i <> FrameNumber frame /\ inputs ch !! i = Some f /\ (prune = true -> i < FrameNumber frame))) as Hin.
  { intros i f Hf. rewrite Ein in Hf. apply lookup_insert_Some in Hf as [[<- <-] | [Hne Hf]]; [by left | right].
    split; [done |]. destruct prune; [| done]. rewrite lookup_prune in Hf. by destruct (decide _). }
  split.
  - intros i f Hf. rewrite Eid. destruct (Hin i f Hf) as [[-> ->] | (Hne & Hf' & Hp)].
    + split; [done |]. split; [done |]. rewrite Ehi. destruct prune; lia.
    + destruct (C1 i f Hf') as (-> & -> & Hi). split; [done |]. split; [done |]. rewrite Ehi.
      destruct prune; [specialize (Hp eq_refl) |]; lia.
  - rewrite Ehi, Ein. destruct prune; [right; by rewrite lookup_insert_eq |].
    destruct (Z.max_spec (highestFrameNumber ch) (FrameNumber frame)) as [[_ ->] | [Hle ->]]; [right; by rewrite lookup_insert_eq |].
    destruct C2 as [C2 | C2]; [by left | right]. by apply lookup_insert_is_Some'; right.
  - rewrite Ecl, Eend. destruct (IsLast frame) eqn:El; cbn [orb].
    + exists frame. split; [by rewrite Ein, lookup_insert_eq |]. split; [done |]. rewrite Ehi. subst prune. cbn [andb].
      destruct (Z.ltb_spec (FrameNumber frame) (highestFrameNumber ch)); lia.
    + destruct (closed ch) eqn:Ec.
      * destruct C3 as (f & Hf & Hl & Hh). exists f. specialize (Hend eq_refl).
        split; [| split; [done | rewrite Ehi; subst prune; cbn [andb]; lia]].
        rewrite Ein. subst prune. cbn [andb]. rewrite lookup_insert_ne by lia. done.
      * intros i f Hf. destruct (Hin i f Hf) as [[-> ->] | (_ & Hf' & _)]; [done | by apply (C3 i)].
  - intros i f Hf Hl. rewrite Eend. destruct (Hin i f Hf) as [[-> ->] | (Hne & Hf' & Hp)]; [by rewrite Hl |].
    pose proof (C4 i f Hf' Hl) as E. destruct (IsLast frame) eqn:El; [| done]. specialize (Hlc eq_refl).
    rewrite Hlc in C3. specialize (C3 i f Hf'). congruence.
  - intros Hr i. rewrite Ereq in Hr. specialize (Hord Hr). specialize (C5 Hr).
    assert (prune = false) as Hp.
    { subst prune. destruct (Z.ltb_spec (FrameNumber frame) (highestFrameNumber ch)) as [Hlt |]; [| by rewrite andb_false_r].
      exfalso. destruct C2 as [C2 | C2]; [lia |]. apply C5 in C2. lia. }
    rewrite Ein, Hp, lookup_insert_is_Some', map_size_insert_None, C5 by done. lia.
Qed.

End Add.

(** ** Reading *)

Lemma elem_of_frame_numbers ch i :
  0 <= endFrameNumber ch -> i ∈ frame_numbers ch <-> 0 <= i <= endFrameNumber ch.
Proof.
  intros He. unfold frame_numbers. rewrite list_elem_of_fmap. split.
  - intros (k & -> & Hk%elem_of_seq). lia.
  - intros Hi. exists (Z.to_nat i). split; [lia |]. apply elem_of_seq. lia.
Qed.

Lemma read_frames_ok ch l :
  (forall i, i ∈ l -> is_Some (inputs ch !! i)) ->
  read_frames ch l = Ok (concat (f_Data <$> omap (fun i => inputs ch !! i) l)).
Proof.
  induction l as [|i l IH]; intros H; [done |]. cbn [read_frames].
  destruct (H i ltac:(apply list_elem_of_here)) as [f Hf]. rewrite Hf, IH; [| intros; apply H; by apply list_elem_of_further].
  cbn. by rewrite Hf.
Qed.

(** A ready channel can be read. *)
Lemma ready_reads ch : IsReady ch = true ->
  Reader ch = Ok (concat (f_Data <$> omap (fun i => inputs ch !! i) (frame_numbers ch))).
Proof.
  unfold IsReady. rewrite !andb_true_iff, forallb_forall. intros [_ H]. apply read_frames_ok.
  intros i Hi%list_elem_of_In. specialize (H i Hi). by apply bool_decide_eq_true in H.
Qed.

(** ** Channels that require order *)

(** The bytes of the frames of a channel that holds an initial segment. *)
Definition segment_data (ch : Channel) : list Z :=
  concat (f_Data <$> omap (fun i => inputs ch !! i) (Z.of_nat <$> seq 0 (size (inputs ch)))).

Lemma ordered_ready ch : channel_ok ch -> requireInOrder ch = true -> closed ch = true ->
  IsReady ch = true /\ Reader ch = Ok (segment_data ch).
Proof.
  intros [C1 _ C3 _ C5] Hr Hc. rewrite Hc in C3. destruct C3 as (f & Hf & _ & Hh). specialize (C5 Hr).
  assert (0 <= endFrameNumber ch < Z.of_nat (size (inputs ch))) as He by (apply C5; eauto).
  assert (Z.of_nat (size (inputs ch)) = endFrameNumber ch + 1) as Es.
  { assert (is_Some (inputs ch !! (Z.of_nat (size (inputs ch)) - 1))) as [x Hx] by (apply C5; lia).
    destruct (C1 _ _ Hx) as (_ & _ & Hi). clear -He Hi Hh. lia. }
  assert (IsReady ch = true) as Hready.
  { unfold IsReady. rewrite Hc, Es, Z.eqb_refl. cbn [andb]. apply forallb_forall. intros i Hi%list_elem_of_In.
    apply elem_of_frame_numbers in Hi; [| lia]. apply bool_decide_eq_true, C5. lia. }
  split; [done |]. rewrite ready_reads by done. unfold segment_data, frame_numbers.
  by replace (Z.to_nat (endFrameNumber ch) + 1)%nat with (size (inputs ch)) by lia.
Qed.

Lemma open_not_ready ch : closed ch = false -> IsReady ch = false.
Proof. intros Hc. unfold IsReady. by rewrite Hc. Qed.

(** Adding the next frame appends its data. *)
Lemma ordered_add frame block ch ch' :
  channel_ok ch -> requireInOrder ch = true -> AddFrame frame block ch = Ok ch' ->
  segment_data ch' = segment_data ch ++ f_Data frame /\ size (inputs ch') = S (size (inputs ch)).
Proof.
  intros Hok Hr R. pose proof (AddFrame_inv frame block ch ch' R) as (_ & _ & Hnew & _ & Hord & H). cbv zeta in H.
  destruct H as (_ & _ & Er & _ & _ & _ & Ein & _). specialize (Hord Hr). destruct Hok as [_ C2 _ _ C5]. specialize (C5 Hr).
  assert (IsLast frame && (FrameNumber frame <? highestFrameNumber ch) = false) as Hp.
  { destruct (Z.ltb_spec (FrameNumber frame) (highestFrameNumber ch)); [| by rewrite andb_false_r]. exfalso.
    destruct C2 as [C2 | C2]; [lia |]. apply C5 in C2. lia. }
  rewrite Hp in Ein. assert (size (inputs ch') = S (size (inputs ch))) as Es by (rewrite Ein; by apply map_size_insert_None).
  split; [| done]. unfold segment_data. rewrite Es, seq_S, fmap_app, omap_app, fmap_app, concat_app. f_equal.
  - f_equal. f_equal. apply list_omap_ext. apply Forall2_same_length_lookup_2; [done |].
    intros k x y Hx Hy. rewrite Hx in Hy. injection Hy as <-. rewrite Ein. rewrite lookup_insert_ne; [done |].
    apply list_elem_of_lookup_2, list_elem_of_fmap in Hx as (n & -> & Hn%elem_of_seq). lia.
  - cbn. rewrite Ein, Hord, lookup_insert_eq. cbn. by rewrite app_nil_r.
Qed.

(** Subtracting every size from the sum of all leaves nothing. *)
Lemma sub_fold (m : gmap Z Frame) x : in_range 64 x ->
  map_fold (fun _ f sz => usub 64 sz (frameSize f)) x m = usub 64 x (map_fold (fun _ f sz => uadd 64 sz (frameSize f)) 0 m).
Proof.
  intros Hx. induction m as [|i f m Hi IH] using map_ind.
  - unfold usub. rewrite !map_fold_empty, Z.sub_0_r. by rewrite wrap_small.
  - rewrite !map_fold_insert_L; [| | done | | done].
    + rewrite IH. unfold usub, uadd, wrap. rewrite Zminus_mod_idemp_l, Zminus_mod_idemp_r. f_equal. lia.
    + intros j1 j2 z1 z2 y _ _ _. unfold uadd, wrap. rewrite !Zplus_mod_idemp_l. f_equal. lia.
    + intros j1 j2 z1 z2 y _ _ _. unfold usub, wrap. rewrite !Zminus_mod_idemp_l. f_equal. lia.
Qed.

Lemma subtract_all (m : gmap Z Frame) :
  map_fold (fun _ f sz => usub 64 sz (frameSize f)) (map_fold (fun _ f sz => uadd 64 sz (frameSize f)) 0 m) m = 0.
Proof.
  rewrite sub_fold.
  - unfold usub. rewrite Z.sub_diag. done.
  - apply (map_fold_weak_ind (fun sz _ => in_range 64 sz)); [done |]. intros. by apply uadd_range.
Qed.
