(* ===== verification/AssemblerProps.v ===== *)
(** The channel assembler as a simple machine: it follows one open channel, a
    number of frames and their bytes. *)
From Stdlib Require Import ZArith Lia.
From stdpp Require Import base gmap list strings numbers fin_maps.
From S2P Require Import Prelude Rollup Frames Channels ChannelProps.

(** ** The abstract machine *)

Record open_channel : Type := mkOpen {
  oc_id : ChannelID;
  oc_count : Z;
  oc_bytes : list Z;
  oc_size : Z;
}.

(** A frame with number 0 opens a channel; the next frame of the open channel
    extends it; a channel above the limit is dropped; a last frame delivers. *)
Definition spec_step (limit : Z) (f : Frame) (st : option open_channel) : option (list Z) * option open_channel :=
  match (if FrameNumber f =? 0 then Some (mkOpen (f_ID f) 0 [] 0) else st) with
  | None => (None, None)
  | Some oc =>
      if bool_decide (f_ID f = oc_id oc) && (FrameNumber f =? oc_count oc) then
        let oc := mkOpen (oc_id oc) (oc_count oc + 1) (oc_bytes oc ++ f_Data f) (uadd 64 (oc_size oc) (frameSize f)) in
        if limit <? oc_size oc then (None, None)
        else if IsLast f then (Some (oc_bytes oc), None)
        else (None, Some oc)
      else (None, Some oc)
  end.

(** The machine reads frames until it delivers: the bytes, the state, and the
    frames it has not read. *)
Fixpoint spec_run (limit : Z) (fs : list Frame) (st : option open_channel)
    : option (list Z) * option open_channel * list Frame :=
  match fs with
  | [] => (None, st, [])
  | f :: fs =>
      match spec_step limit f st with
      | (Some data, st) => (Some data, st, fs)
      | (None, st) => spec_run limit fs st
      end
  end.

(** ** The frames of a channel *)

(** [pieces] as the frames number [k] and following of channel [id]. *)
Fixpoint channel_frames (id : ChannelID) (k : Z) (pieces : list (list Z)) : list Frame :=
  match pieces with
  | [] => []
  | [d] => [mkFrame id k d true]
  | d :: pieces => mkFrame id k d false :: channel_frames id (k + 1) pieces
  end.

Definition pieces_size (pieces : list (list Z)) : Z := Z.of_nat (sum_list_with (fun d => length d + 200)%nat pieces).

Lemma frameSize_eq id k d b : zlen d < 2 ^ 63 -> frameSize (mkFrame id k d b) = zlen d + 200.
Proof.
  intros Hd. unfold frameSize, uadd, frameOverhead. apply wrap_small. unfold in_range. cbn. unfold zlen in *. lia.
Qed.

(** The channel that is open once frame [k] of channel [id] has been seen. *)
Definition opened (id : ChannelID) (k : Z) (st : option open_channel) : option open_channel :=
  if k =? 0 then Some (mkOpen id 0 [] 0) else st.

Lemma spec_step_next limit id k d last st bytes sz :
  opened id k st = Some (mkOpen id k bytes sz) -> 0 <= sz -> sz + zlen d + 200 <= limit -> limit < 2 ^ 63 ->
  spec_step limit (mkFrame id k d last) st =
    if last then (Some (bytes ++ d), None) else (None, Some (mkOpen id (k + 1) (bytes ++ d) (sz + zlen d + 200))).
Proof.
  intros Ho Hsz Hl Hm. unfold spec_step. cbn [FrameNumber f_ID f_Data IsLast]. unfold opened in Ho. rewrite Ho.
  cbn [oc_id oc_count oc_bytes oc_size]. rewrite bool_decide_eq_true_2, Z.eqb_refl by done. cbn [andb].
  rewrite frameSize_eq by (unfold zlen in *; lia). unfold uadd. rewrite wrap_small by (unfold in_range, zlen in *; lia).
  rewrite Z.add_assoc, (proj2 (Z.ltb_ge _ _)) by lia. done.
Qed.

Lemma spec_run_channel limit id k d pieces st bytes sz rest :
  opened id k st = Some (mkOpen id k bytes sz) ->
  0 <= sz -> 0 <= k -> sz + pieces_size (d :: pieces) <= limit -> limit < 2 ^ 63 ->
  spec_run limit (channel_frames id k (d :: pieces) ++ rest) st = (Some (bytes ++ concat (d :: pieces)), None, rest).
Proof.
  revert k d st bytes sz. induction pieces as [|d' pieces IH]; intros k d st bytes sz Ho Hsz Hk Hl Hm.
  - cbn [channel_frames app spec_run]. unfold pieces_size in Hl. cbn in Hl.
    rewrite (spec_step_next limit id k d true st bytes sz) by (done || unfold zlen; lia). cbn. by rewrite app_nil_r.
  - change (channel_frames id k (d :: d' :: pieces)) with (mkFrame id k d false :: channel_frames id (k + 1) (d' :: pieces)).
    assert (pieces_size (d :: d' :: pieces) = zlen d + 200 + pieces_size (d' :: pieces)) as Es
      by (unfold pieces_size, zlen; cbn [sum_list_with]; lia).
    assert (0 <= pieces_size (d' :: pieces)) by (unfold pieces_size; lia).
    cbn [app spec_run]. rewrite (spec_step_next limit id k d false st bytes sz) by (done || lia).
    rewrite (IH (k + 1) d' _ (bytes ++ d) (sz + zlen d + 200)); [by rewrite <- app_assoc | | unfold zlen in *; lia ..].
    unfold opened. destruct (Z.eqb_spec (k + 1) 0); [lia | done].
Qed.

(** Whatever was open before, the frames of a channel deliver its bytes. *)
Lemma spec_run_delivers limit id d pieces st rest :
  pieces_size (d :: pieces) <= limit -> limit < 2 ^ 63 ->
  spec_run limit (channel_frames id 0 (d :: pieces) ++ rest) st = (Some (concat (d :: pieces)), None, rest).
Proof. intros Hl Hm. by apply (spec_run_channel limit id 0 d pieces st [] 0). Qed.

(** ** Refinement *)

(** The channel of the assembler is the open channel of the machine. *)
Definition refines_channel (c : option Channel) (st : option open_channel) : Prop :=
  match c, st with
  | None, None => True
  | Some ch, Some oc =>
      channel_ok ch /\ requireInOrder ch = true /\ closed ch = false /\ ch_id ch = oc_id oc /\
      Z.of_nat (size (inputs ch)) = oc_count oc /\ segment_data ch = oc_bytes oc /\ ch_size ch = oc_size oc
  | _, _ => False
  end.

(** An open channel accepts exactly its next frame. *)
Lemma AddFrame_next frame block ch oc :
  refines_channel (Some ch) (Some oc) -> f_ID frame = oc_id oc -> FrameNumber frame = oc_count oc ->
  exists ch', AddFrame frame block ch = Ok ch' /\ channel_ok ch' /\ requireInOrder ch' = true /\ closed ch' = IsLast frame /\
    ch_id ch' = oc_id oc /\ Z.of_nat (size (inputs ch')) = oc_count oc + 1 /\
    segment_data ch' = oc_bytes oc ++ f_Data frame /\ ch_size ch' = uadd 64 (oc_size oc) (frameSize frame).
Proof.
  intros (Hok & Hr & Hc & Eid & En & Eb & Es) Hid Hnum.
  assert (inputs ch !! FrameNumber frame = None) as Hnew.
  { apply eq_None_not_Some. rewrite (co_order _ Hok Hr). lia. }
  assert (exists ch', AddFrame frame block ch = Ok ch') as [ch' R].
  { unfold AddFrame. rewrite decide_False by (rewrite Eid; tauto). rewrite Hc, andb_false_r.
    rewrite decide_False by (rewrite Hnew; by intros [? ?]). cbn [andb].
    rewrite (proj2 (Z.eqb_eq (FrameNumber frame) _)) by lia. rewrite andb_false_r. by repeat case_match; eauto. }
  exists ch'. split; [done |]. destruct (ordered_add frame block ch ch' Hok Hr R) as [Ed Ez].
  pose proof (AddFrame_ok frame block ch ch' Hok (or_introl Hr) R) as Hok'.
  destruct (AddFrame_inv frame block ch ch' R) as (_ & _ & _ & _ & _ & H). cbv zeta in H.
  destruct H as (E1 & _ & E2 & E3 & _ & _ & _ & E4).
  assert (IsLast frame && (FrameNumber frame <? highestFrameNumber ch) = false) as Hp.
  { destruct (Z.ltb_spec (FrameNumber frame) (highestFrameNumber ch)); [| by rewrite andb_false_r]. exfalso.
    destruct (co_highest _ Hok) as [H0 | H0]; [lia |]. apply (co_order _ Hok Hr) in H0. lia. }
  rewrite Hp in E4. split; [done |]. split; [congruence |]. split; [by rewrite E3, Hc, orb_false_r |].
  split; [congruence |]. split; [lia |]. split; [by rewrite Ed, Eb | by rewrite E4, Es].
Qed.

Lemma AddFrame_other frame block ch oc :
  refines_channel (Some ch) (Some oc) -> ~ (f_ID frame = oc_id oc /\ FrameNumber frame = oc_count oc) ->
  exists e, AddFrame frame block ch = Err e.
Proof.
  intros (Hok & Hr & Hc & Eid & En & _) Hne. unfold AddFrame. destruct (decide _) as [| Hid]; [eauto |]. apply dec_stable in Hid.
  rewrite Hc, Hr, andb_false_r. destruct (decide _); [eauto |]. cbn [andb].
  destruct (Z.eqb_spec (FrameNumber frame) (Z.of_nat (size (inputs ch)))); [| cbn; eauto].
  exfalso. apply Hne. split; congruence.
Qed.

Section Assembler.
Context {P : Type} {FP : NextFrameProvider P}.
Implicit Types ca : ChannelAssembler P.

Definition limit_at ca : Z := MaxRLPBytesPerChannel (ca_spec ca) (l1_Time (ca_Origin ca)).

(** One frame: the assembler completes a channel exactly if the machine delivers. *)
Lemma ingest_refines origin f ca st :
  refines_channel (channel ca) st ->
  exists complete ca', ingest_frame origin f ca = (complete, ca') /\ ca_spec ca' = ca_spec ca /\ ca_prev ca' = ca_prev ca /\
  match spec_step (limit_at ca) f st with
  | (Some data, st') => complete = true /\ st' = None /\ exists ch, channel ca' = Some ch /\ IsReady ch = true /\ Reader ch = Ok data
  | (None, st') => complete = false /\ refines_channel (channel ca') st'
  end.
Proof.
  intros Hrel. unfold ingest_frame, spec_step.
  set (ca0 := if FrameNumber f =? 0 then set_channel (Some (NewChannel (f_ID f) origin true)) ca else ca).
  set (st0 := if FrameNumber f =? 0 then Some (mkOpen (f_ID f) 0 [] 0) else st).
  assert (refines_channel (channel ca0) st0 /\ ca_spec ca0 = ca_spec ca /\ ca_prev ca0 = ca_prev ca) as (H0 & Es & Ep).
  { subst ca0 st0. destruct (FrameNumber f =? 0); [| done]. split; [| done]. cbn.
    split; [apply NewChannel_ok | done]. }
  destruct (channel ca0) as [ch |] eqn:Ech, st0 as [oc |]; [| done | done |].
  2: { do 2 eexists. split; [done |]. split; [done |]. split; [done |]. split; [done |]. by rewrite Ech. }
  destruct (bool_decide (f_ID f = oc_id oc) && (FrameNumber f =? oc_count oc)) eqn:Enext.
  - apply andb_true_iff in Enext as [Hid%bool_decide_eq_true Hnum%Z.eqb_eq].
    destruct (AddFrame_next f origin ch oc H0 Hid Hnum) as (ch' & -> & Hok & Hr & Hc & Eid & En & Eb & Ez).
    change (ca_Origin (set_channel (Some ch') ca0)) with (frame_Origin (ca_prev ca0)). cbn [ca_spec set_channel]. unfold limit_at, ca_Origin, Size.
    rewrite Es, Ep, Ez. cbn [oc_size oc_bytes].
    destruct (_ <? uadd 64 (oc_size oc) (frameSize f)); [by do 2 eexists; split_and! |].
    do 2 eexists. split; [done |]. split; [done |]. split; [done |]. destruct (IsLast f) eqn:El.
    + split; [done |]. split; [done |]. exists ch'. split; [done |].
      destruct (ordered_ready ch' Hok Hr Hc) as [Hready Hread]. split; [done |]. by rewrite Hread, Eb.
    + split; [done |]. cbn [channel set_channel]. by split_and!.
  - destruct (AddFrame_other f origin ch oc H0) as [e ->].
    { intros [H1 H2]. rewrite bool_decide_eq_true_2, (proj2 (Z.eqb_eq _ _)) in Enext by done. done. }
    do 2 eexists. split; [done |]. split; [done |]. split; [done |]. split; [done |]. by rewrite Ech.
Qed.

(** The provider [p] delivers the frames [fs] of the L1 block [origin]. *)
Inductive delivers (origin : L1BlockRef) : P -> list Frame -> P -> Prop :=
| delivers_nil p : delivers origin p [] p
| delivers_cons p f p1 fs p2 :
    NextFrame p = (Ok f, p1) -> frame_Origin p1 = origin -> delivers origin p1 fs p2 -> delivers origin p (f :: fs) p2.

Lemma delivers_app origin p fs p1 gs p2 :
  delivers origin p fs p1 -> delivers origin p1 gs p2 -> delivers origin p (fs ++ gs) p2.
Proof. induction 1 as [|p f p1 fs p1' E Ho _ IH]; intros H; [done |]. cbn. econstructor; eauto. Qed.

Lemma ingest_run origin fs fuel ca st p' e p'' :
  refines_channel (channel ca) st -> delivers origin (ca_prev ca) fs p' -> NextFrame p' = (Err e, p'') ->
  (length fs < fuel)%nat ->
  match spec_run (MaxRLPBytesPerChannel (ca_spec ca) (l1_Time origin)) fs st with
  | (Some data, _, rest) => exists ca' ch, ingest_frames fuel origin ca = (Ok (), ca') /\ ca_spec ca' = ca_spec ca /\
      channel ca' = Some ch /\ IsReady ch = true /\ Reader ch = Ok data /\ delivers origin (ca_prev ca') rest p'
  | (None, st', _) => exists ca', ingest_frames fuel origin ca = (Err e, ca') /\ ca_spec ca' = ca_spec ca /\
      refines_channel (channel ca') st' /\ ca_prev ca' = p''
  end.
Proof.
  revert fuel ca st. induction fs as [|f fs IH]; intros fuel ca st Hrel Hd He Hf; (destruct fuel as [|fuel]; [lia |]);
    cbn [ingest_frames spec_run].
  - inversion Hd; subst. rewrite He. by eexists.
  - inversion Hd as [|? ? p1 ? ? E Ho Hd']; subst. rewrite E.
    set (ca1 := mkChannelAssembler (ca_spec ca) (channel ca) p1).
    destruct (ingest_refines (frame_Origin p1) f ca1 st Hrel) as (complete & ca2 & Ei & Es & Ep & Hstep). rewrite Ei.
    assert (limit_at ca1 = MaxRLPBytesPerChannel (ca_spec ca) (l1_Time (frame_Origin p1))) as El by done. rewrite El in Hstep.
    destruct (spec_step _ f st) as [[data |] st'].
    + destruct Hstep as (-> & _ & ch & Hch & Hready & Hread). exists ca2, ch. rewrite Ep. by split_and!.
    + destruct Hstep as (-> & Hrel'). cbn in Hf.
      specialize (IH fuel ca2 st' Hrel' ltac:(rewrite Ep; exact Hd') He ltac:(lia)). rewrite Es in IH. exact IH.
Qed.

(** A whole call, for a provider that delivers [fs] and then the error [e]. *)
Lemma NextRawChannel_run origin fs fuel ca st p' e p'' :
  refines_channel (channel ca) st -> ca_Origin ca = origin -> delivers origin (ca_prev ca) fs p' ->
  NextFrame p' = (Err e, p'') -> (length fs < fuel)%nat ->
  match spec_run (MaxRLPBytesPerChannel (ca_spec ca) (l1_Time origin)) fs (if channelTimedOut ca then None else st) with
  | (Some data, _, rest) => exists ca', ca_NextRawChannel fuel ca = (Ok data, ca') /\ ca_spec ca' = ca_spec ca /\
      channel ca' = None /\ delivers origin (ca_prev ca') rest p'
  | (None, st', _) => exists ca', ca_NextRawChannel fuel ca = (Err e, ca') /\ ca_spec ca' = ca_spec ca /\
      refines_channel (channel ca') st' /\ ca_prev ca' = p''
  end.
Proof.
  intros Hrel Ho Hd He Hf. unfold ca_NextRawChannel.
  set (ca0 := if channelTimedOut ca then resetChannel ca else ca).
  assert (refines_channel (channel ca0) (if channelTimedOut ca then None else st)) as H0
    by (subst ca0; by destruct (channelTimedOut ca)).
  assert (ca_spec ca0 = ca_spec ca /\ ca_prev ca0 = ca_prev ca) as [Es Ep] by (subst ca0; by destruct (channelTimedOut ca)).
  assert (match channel ca0 with Some ch => IsReady ch | None => false end = false) as ->.
  { destruct (channel ca0) as [ch |]; [| done]. destruct (if channelTimedOut ca then None else st); [| done].
    destruct H0 as (_ & _ & Hc & _). by apply open_not_ready. }
  assert (ca_Origin ca0 = origin) as -> by (unfold ca_Origin in *; by rewrite Ep).
  pose proof (ingest_run origin fs fuel ca0 _ p' e p'' H0 ltac:(by rewrite Ep) He Hf) as H. rewrite Es in H.
  destruct (spec_run _ fs _) as [[[data |] st'] rest].
  - destruct H as (ca1 & ch & -> & Es1 & Hch & Hready & Hread & Hd'). rewrite Hch, Hready, Hread. by eexists.
  - destruct H as (ca1 & -> & Hrest). by exists ca1.
Qed.

End Assembler.

(** ** The frame queue delivers what the transactions hold *)

Section Queue.
Context {P : Type} {DP : NextDataProvider P}.

(** The data of a batcher transaction with the frames [fs]. *)
Definition tx_data (fs : list Frame) : list Z := DerivationVersion0 :: concat (MarshalBinary <$> fs).

(** The provider [p] returns the data of transactions with the frames [txs]. *)
Inductive provides (origin : L1BlockRef) : P -> list (list Frame) -> P -> Prop :=
| provides_nil p : provides origin p [] p
| provides_cons p fs p1 txs p2 :
    NextData p = (Ok (tx_data fs), p1) -> data_Origin p1 = origin -> provides origin p1 txs p2 ->
    provides origin p (fs :: txs) p2.

Lemma ParseFrames_tx fs : fs <> [] -> Forall frame_wf fs -> ParseFrames (tx_data fs) = Ok fs.
Proof.
  intros Hne Hwf. unfold ParseFrames, tx_data. cbn [negb Z.eqb DerivationVersion0].
  rewrite (parse_frames_run fs [] _ Hwf (le_n _)). cbn [mbind outcome_bind app zlen length].
  destruct fs; [done |]. done.
Qed.

Lemma queue_delivers origin fs p cfg :
  data_Origin p = origin -> delivers origin (mkFrameQueue fs p cfg) fs (mkFrameQueue [] p cfg).
Proof.
  intros Ho. induction fs as [|f fs IH]; [constructor |]. econstructor; [reflexivity | exact Ho | exact IH].
Qed.

(** Frames that follow each other are not pruned. *)
Lemma load_delivers origin fs p p1 cfg :
  fs <> [] -> Forall frame_wf fs -> stacked (reverse fs) -> NextData p = (Ok (tx_data fs), p1) -> data_Origin p1 = origin ->
  delivers origin (mkFrameQueue [] p cfg) fs (mkFrameQueue [] p1 cfg).
Proof.
  intros Hne Hwf Hst E Ho. destruct fs as [|f fs]; [done |].
  apply (delivers_cons _ _ f (mkFrameQueue fs p1 cfg)); [| exact Ho | by apply queue_delivers].
  cbn [NextFrame FrameQueue_provider]. unfold fq_NextFrame. cbn [frames zlen length Z.of_nat Z.eqb].
  unfold loadNextFrames. cbn [fq_prev]. rewrite E, ParseFrames_tx by done. cbn [frames fq_cfg set_frames app].
  assert (pruneFrameQueue (f :: fs) = f :: fs) as Hp.
  { rewrite prune_push. rewrite <- (reverse_involutive (f :: fs)) at 1. rewrite push_all by done. apply reverse_involutive. }
  rewrite Hp. by destruct (IsHolocene _ _).
Qed.

Lemma provides_delivers origin p txs p' cfg :
  provides origin p txs p' -> Forall (fun fs => fs <> [] /\ Forall frame_wf fs /\ stacked (reverse fs)) txs ->
  delivers origin (mkFrameQueue [] p cfg) (concat txs) (mkFrameQueue [] p' cfg).
Proof.
  induction 1 as [|p fs p1 txs p2 E Ho _ IH]; intros Htx; [constructor |]. inversion Htx as [| ? ? (H1 & H2 & H3) Htx']; subst.
  cbn [concat]. eapply delivers_app; [by eapply load_delivers | by apply IH].
Qed.

End Queue.

(** ** Frames of one channel follow each other *)

Lemma channel_frames_lookup id k pieces i :
  channel_frames id k pieces !! i =
    (fun d => mkFrame id (k + Z.of_nat i) d (bool_decide (S i = length pieces))) <$> pieces !! i.
Proof.
  revert k i. induction pieces as [|d pieces IH]; intros k i; [done |]. destruct pieces as [|d' pieces].
  - destruct i as [|i]; [| by rewrite !lookup_cons]. cbn. by rewrite Z.add_0_r.
  - change (channel_frames id k (d :: d' :: pieces)) with (mkFrame id k d false :: channel_frames id (k + 1) (d' :: pieces)).
    destruct i as [|i]; [cbn; by rewrite Z.add_0_r |]. cbn [lookup list_lookup]. rewrite IH.
    destruct ((d' :: pieces) !! i) as [x |]; [| done]. cbn [fmap option_fmap option_map]. f_equal.
    replace (k + 1 + Z.of_nat i) with (k + Z.of_nat (S i)) by lia. f_equal. apply bool_decide_ext. cbn. lia.
Qed.

Lemma stacked_iff fs :
  (forall i a b, fs !! i = Some a -> fs !! S i = Some b -> follows a b) -> stacked (reverse fs).
Proof.
  induction fs as [|x fs IH] using rev_ind; intros H; [done |]. rewrite reverse_app. cbn [reverse rev_append app].
  assert (stacked (reverse fs)) as Hs.
  { apply IH. intros i a b Ha Hb. apply (H i); by apply lookup_app_l_Some. }
  destruct (reverse fs) as [|y l] eqn:E; [done |]. split; [| done].
  assert (fs = reverse l ++ [y]) as -> by (by rewrite <- (reverse_involutive fs), E, reverse_cons).
  apply (H (length (reverse l))).
  - rewrite <- app_assoc. by apply list_lookup_middle.
  - replace (S (length (reverse l))) with (length (reverse l ++ [y])) by (rewrite length_app; cbn; lia). by apply list_lookup_middle.
Qed.

(** A consecutive part of the frames of a channel. *)
Lemma channel_part id pieces before fs after :
  length id = 16%nat -> zlen pieces <= 65536 -> Forall (fun d => zlen d <= MaxFrameLen) pieces ->
  channel_frames id 0 pieces = before ++ fs ++ after -> Forall frame_wf fs /\ stacked (reverse fs).
Proof.
  intros Hid Hlen Hd E.
  assert (forall i a, fs !! i = Some a -> exists d, pieces !! (length before + i)%nat = Some d /\
    a = mkFrame id (Z.of_nat (length before + i)) d (bool_decide (S (length before + i) = length pieces))) as Hf.
  { intros i a Ha. pose proof (channel_frames_lookup id 0 pieces (length before + i)) as L.
    rewrite E, lookup_app_r in L by lia. replace (length before + i - length before)%nat with i in L by lia.
    rewrite (lookup_app_l_Some _ _ _ _ Ha) in L. destruct (pieces !! (length before + i)%nat) as [d |]; [| done].
    injection L as ->. by exists d. }
  split.
  - apply Forall_lookup_2. intros i a Ha. destruct (Hf i a Ha) as (d & Hp & ->).
    pose proof (lookup_lt_Some _ _ _ Hp). split; cbn [f_ID FrameNumber f_Data]; [done | unfold in_range, zlen in *; lia |].
    by apply (Forall_lookup_1 _ _ _ _ Hd Hp).
  - apply stacked_iff. intros i a b Ha Hb. destruct (Hf i a Ha) as (d & Hp & ->), (Hf (S i) b Hb) as (d' & Hp' & ->).
    pose proof (lookup_lt_Some _ _ _ Hp'). unfold follows. cbn [f_ID FrameNumber IsLast]. rewrite decide_True by done.
    split; [apply bool_decide_eq_false_2; lia |]. unfold uadd. rewrite wrap_small by (unfold in_range, zlen in *; lia). lia.
Qed.

(** The frames of a channel, however they are distributed over transactions. *)
Lemma channel_txs id pieces txs :
  length id = 16%nat -> zlen pieces <= 65536 -> Forall (fun d => zlen d <= MaxFrameLen) pieces ->
  concat txs = channel_frames id 0 pieces -> Forall (fun fs => fs <> []) txs ->
  Forall (fun fs => fs <> [] /\ Forall frame_wf fs /\ stacked (reverse fs)) txs.
Proof.
  intros Hid Hlen Hd E Hne. apply Forall_lookup_2. intros i fs Hi. split; [by apply (Forall_lookup_1 _ _ _ _ Hne Hi) |].
  apply (channel_part id pieces (concat (take i txs)) fs (concat (drop (S i) txs))); try done.
  rewrite <- E. rewrite <- (take_drop_middle txs i fs Hi) at 1. by rewrite concat_app.
Qed.

(** Channels filled in any order, and the channel bank. *)

(** ** Frames in any order *)

(** Frames are added with the L1 blocks they were found in. *)
Fixpoint add_frames (fs : list (Frame * L1BlockRef)) (ch : Channel) : outcome Channel :=
  match fs with
  | [] => Ok ch
  | (f, b) :: fs => ch ← AddFrame f b ch; add_frames fs ch
  end.

Section AnyOrder.
Context (id : ChannelID) (pieces : list (list Z)) (Hne : pieces <> []).
Let fs := channel_frames id 0 pieces.
Let N := zlen pieces.

Lemma frame_at f : f ∈ fs -> exists i d, pieces !! i = Some d /\ Z.of_nat i < N /\
  f = mkFrame id (Z.of_nat i) d (bool_decide (S i = length pieces)).
Proof.
  intros [i Hi]%list_elem_of_lookup. unfold fs in Hi. rewrite channel_frames_lookup in Hi.
  apply fmap_Some in Hi as (d & Hd & ->). exists i, d. pose proof (lookup_lt_Some _ _ _ Hd).
  split; [done |]. split; [unfold N, zlen; lia | done].
Qed.

Lemma frame_unique f g : f ∈ fs -> g ∈ fs -> FrameNumber f = FrameNumber g -> f = g.
Proof.
  intros Hf Hg E. destruct (frame_at f Hf) as (i & d & Hi & _ & ->), (frame_at g Hg) as (j & d' & Hj & _ & ->).
  cbn in E. apply Nat2Z.inj in E as ->. rewrite Hi in Hj. by injection Hj as ->.
Qed.

Lemma last_number f : f ∈ fs -> IsLast f = bool_decide (FrameNumber f = N - 1).
Proof.
  intros Hf. destruct (frame_at f Hf) as (i & d & _ & Hi & ->). cbn. apply bool_decide_ext. unfold N, zlen. lia.
Qed.

Record holds (added : list Frame) (ch : Channel) : Prop := {
  h_id : ch_id ch = id;
  h_order : requireInOrder ch = false;
  h_inputs : forall i f, inputs ch !! i = Some f <-> f ∈ added /\ FrameNumber f = i;
  h_size : size (inputs ch) = length added;
  h_closed : closed ch = existsb IsLast added;
  h_end : closed ch = true -> endFrameNumber ch = N - 1;
  h_highest : highestFrameNumber ch <= N - 1;
}.

Lemma add_one f b added ch :
  holds added ch -> f ∈ fs -> (forall g, g ∈ added -> g ∈ fs) -> f ∉ added ->
  exists ch', AddFrame f b ch = Ok ch' /\ holds (f :: added) ch'.
Proof.
  intros [H1 H2 H3 H4 H5 H6 H7] Hf Hadded Hnew.
  destruct (frame_at f Hf) as (i & d & _ & HiN & Ef).
  assert (inputs ch !! FrameNumber f = None) as Hnone.
  { destruct (inputs ch !! FrameNumber f) as [g |] eqn:E; [| done]. apply H3 in E as [Hg Eg].
    exfalso. apply Hnew. rewrite <- (frame_unique g f); [done | by apply Hadded | done | done]. }
  assert (FrameNumber f = N - 1 -> closed ch = false) as Hopen.
  { intros En. rewrite H5. apply not_true_is_false. rewrite existsb_exists. intros (g & Hg%list_elem_of_In & El).
    apply Hnew. rewrite (frame_unique f g); [done | done | by apply Hadded |].
    rewrite last_number in El by (by apply Hadded). apply bool_decide_eq_true in El. lia. }
  assert (exists ch', AddFrame f b ch = Ok ch') as [ch' R].
  { unfold AddFrame. rewrite decide_False by (rewrite H1, Ef; cbn; tauto).
    assert (IsLast f && closed ch = false) as ->.
    { rewrite last_number by done. destruct (bool_decide (FrameNumber f = N - 1)) eqn:E; [apply bool_decide_eq_true in E; by apply Hopen | done]. }
    rewrite decide_False by (rewrite Hnone; by intros [? ?]).
    assert (closed ch && (endFrameNumber ch <=? FrameNumber f) = false) as ->.
    { destruct (closed ch) eqn:Ec; [| done]. rewrite H6 by done. cbn [andb]. apply Z.leb_gt.
      rewrite Ef in Hopen |- *. cbn [FrameNumber] in *. destruct (decide (Z.of_nat i = N - 1)) as [E |]; [by specialize (Hopen E) | lia]. }
    rewrite H2. cbn [andb]. by repeat case_match; eauto. }
  exists ch'. split; [done |]. destruct (AddFrame_inv f b ch ch' R) as (_ & Hlast & _ & _ & _ & H). cbv zeta in H.
  destruct H as (E1 & _ & E2 & E3 & E4 & E5 & E6 & _).
  assert (IsLast f && (FrameNumber f <? highestFrameNumber ch) = false) as Hp.
  { rewrite last_number by done. destruct (bool_decide (FrameNumber f = N - 1)) eqn:E; [| done].
    apply bool_decide_eq_true in E. apply Z.ltb_ge. lia. }
  rewrite Hp in E5, E6. split.
  - congruence.
  - congruence.
  - intros j g. rewrite E6, lookup_insert_Some, H3, elem_of_cons. split.
    + intros [[<- <-] | [_ [Hg Eg]]]; [split; [by left | done] | split; [by right | done]].
    + intros [[-> | Hg] Eg]; [by left |]. destruct (decide (FrameNumber f = j)) as [Ej |]; [| by right].
      exfalso. apply Hnew. rewrite (frame_unique f g); [done | done | by apply Hadded | congruence].
  - rewrite E6, map_size_insert_None, H4 by done. done.
  - by rewrite E3, H5.
  - rewrite E3, E4. destruct (IsLast f) eqn:El; [| exact H6]. intros _. rewrite last_number in El by done.
    by apply bool_decide_eq_true in El.
  - rewrite E5, Ef. cbn. lia.
Qed.

Lemma add_any rest added ch :
  holds added ch -> NoDup (rest.*1 ++ added) -> (forall g, g ∈ rest.*1 ++ added -> g ∈ fs) ->
  exists ch', add_frames rest ch = Ok ch' /\ holds (reverse rest.*1 ++ added) ch'.
Proof.
  revert added ch. induction rest as [|[f b] rest IH]; intros added ch Hh Hnd Hin; cbn [fmap list_fmap app add_frames] in *.
  - by exists ch.
  - apply NoDup_cons in Hnd as [Hnew Hnd]. rewrite elem_of_app in Hnew.
    destruct (add_one f b added ch Hh) as (ch1 & -> & Hh1); [apply Hin, list_elem_of_here | | tauto |].
    { intros g Hg. apply Hin, list_elem_of_further, elem_of_app. by right. }
    cbn [mbind outcome_bind]. destruct (IH (f :: added) ch1 Hh1) as (ch2 & -> & Hh2).
    + rewrite <- Permutation_middle. apply NoDup_cons. split; [by rewrite elem_of_app | done].
    + intros g. rewrite elem_of_app, elem_of_cons. intros Hg. apply Hin. rewrite elem_of_cons, elem_of_app. tauto.
    + exists ch2. split; [done |]. by rewrite reverse_cons, <- app_assoc.
Qed.

Lemma omap_seq (m : gmap Z Frame) k l :
  (forall j f, l !! j = Some f -> m !! Z.of_nat (k + j) = Some f) ->
  omap (fun i => m !! i) (Z.of_nat <$> seq k (length l)) = l.
Proof.
  revert k. induction l as [|x l IH]; intros k H; [done |]. cbn [length seq fmap list_fmap omap list_omap].
  rewrite (H 0%nat x eq_refl : m !! Z.of_nat (k + 0) = _) || rewrite <- (Nat.add_0_r k) at 1; rewrite ?(H 0%nat x eq_refl).
  f_equal. apply IH. intros j f Hj. rewrite <- (H (S j) f Hj). f_equal. lia.
Qed.

Lemma fs_NoDup : NoDup fs.
Proof.
  apply NoDup_alt. intros i j x Hi Hj. unfold fs in *. rewrite channel_frames_lookup in Hi, Hj.
  apply fmap_Some in Hi as (d & _ & ->). apply fmap_Some in Hj as (d' & _ & E). injection E as E _ _. lia.
Qed.

Lemma length_fs : length fs = length pieces.
Proof. unfold fs. clear. generalize 0. induction pieces as [|d [|d' l] IH]; intros k; [done | done |]. cbn [channel_frames length]. f_equal. apply IH. Qed.

Lemma data_fs : f_Data <$> fs = pieces.
Proof.
  apply list_eq. intros i. unfold fs. rewrite list_lookup_fmap, channel_frames_lookup. by destruct (pieces !! i).
Qed.

Lemma any_order added b : added.*1 ≡ₚ fs -> exists ch, add_frames added (NewChannel id b false) = Ok ch /\
  IsReady ch = true /\ Reader ch = Ok (concat pieces).
Proof.
  intros Hp. destruct (add_any added [] (NewChannel id b false)) as (ch & R & [H1 H2 H3 H4 H5 H6 H7]).
  - split; try done; cbn.
    + intros i f. rewrite lookup_empty. split; [done |]. by intros [Hf%list_elem_of_In _].
    + unfold N, zlen. destruct pieces; [done |]. cbn. lia.
  - rewrite app_nil_r, Hp. apply fs_NoDup.
  - intros g. by rewrite app_nil_r, Hp.
  - rewrite app_nil_r in *. exists ch. split; [done |].
    assert (forall g, g ∈ reverse added.*1 <-> g ∈ fs) as Hin by (intros g; by rewrite reverse_Permutation, Hp).
    assert (closed ch = true) as Hc.
    { rewrite H5. apply existsb_exists. destruct (fs !! (length pieces - 1)%nat) as [f |] eqn:E.
      - exists f. apply list_elem_of_lookup_2 in E as Hf. split; [by apply list_elem_of_In, Hin |].
        unfold fs in E. rewrite channel_frames_lookup in E. apply fmap_Some in E as (d & Hd & ->). cbn.
        apply bool_decide_eq_true. apply lookup_lt_Some in Hd. lia.
      - apply lookup_ge_None in E. rewrite length_fs in E. destruct pieces; [done | cbn in E; lia]. }
    specialize (H6 Hc). pose proof length_fs as Hlen. assert (0 < N) by (unfold N, zlen; destruct pieces; [done | cbn; lia]).
    assert (frame_numbers ch = Z.of_nat <$> seq 0 (length fs)) as En.
    { unfold frame_numbers. rewrite H6, Hlen. unfold N, zlen in *. by replace (Z.to_nat (Z.of_nat (length pieces) - 1) + 1)%nat with (length pieces) by lia. }
    assert (forall j f, fs !! j = Some f -> inputs ch !! Z.of_nat j = Some f) as Hl.
    { intros j f Hj. apply H3. split; [apply Hin; by eapply list_elem_of_lookup_2 |].
      unfold fs in Hj. rewrite channel_frames_lookup in Hj. apply fmap_Some in Hj as (d & _ & ->). cbn. lia. }
    assert (IsReady ch = true) as Hready.
    { unfold IsReady. rewrite Hc, H4, length_reverse, Hp, Hlen, H6, En. unfold N, zlen.
      rewrite (proj2 (Z.eqb_eq _ _)) by lia. cbn [andb]. apply forallb_forall. intros i Hi%list_elem_of_In.
      apply list_elem_of_fmap in Hi as (j & -> & Hj%elem_of_seq). apply bool_decide_eq_true.
      destruct (lookup_lt_is_Some_2 fs j ltac:(lia)) as [f Hf]. rewrite (Hl j f Hf). eauto. }
    split; [done |]. rewrite ready_reads, En by done. rewrite omap_seq by exact Hl. by rewrite data_fs.
Qed.

End AnyOrder.

(** ** The channel bank *)

Section Bank.
Context {P : Type} {FP : NextFrameProvider P}.
Implicit Types cb : ChannelBank P.

(** The queue lists the channels, each once. *)
Definition queue_ok (q : list ChannelID) (cs : gmap ChannelID Channel) : Prop :=
  NoDup q /\ forall id, id ∈ q <-> is_Some (cs !! id).

Definition bank_ok cb : Prop := queue_ok (channelQueue cb) (channels cb).

Definition no_panic {A} (r : outcome A) : Prop := forall e, r <> Panic e.

Lemma queue_delete id q1 q2 cs :
  queue_ok (q1 ++ id :: q2) cs -> queue_ok (q1 ++ q2) (delete id cs).
Proof.
  intros [Hnd Hq]. rewrite <- Permutation_middle in Hnd. apply NoDup_cons in Hnd as [Hni Hnd]. split; [done |].
  intros x. rewrite lookup_delete_is_Some, <- Hq, !elem_of_app, elem_of_cons. rewrite elem_of_app in Hni. split.
  - intros Hx. split; [intros <-; tauto | tauto].
  - intros [Hne [? | [-> | ?]]]; [by left | done | by right].
Qed.

Lemma total_delete cs id ch :
  cs !! id = Some ch -> total_size cs = uadd 64 (total_size (delete id cs)) (ch_size ch).
Proof.
  intros Hc. unfold total_size. rewrite (map_fold_delete_L _ _ id ch cs); [done | | done].
  intros j1 j2 z1 z2 y _ _ _. unfold uadd, wrap. rewrite !Zplus_mod_idemp_l. f_equal. lia.
Qed.

Lemma total_range cs : in_range 64 (total_size cs).
Proof.
  unfold total_size. apply (map_fold_weak_ind (fun sz _ => in_range 64 sz)); [done |]. intros. by apply uadd_range.
Qed.

Lemma total_delete_sub cs id ch :
  cs !! id = Some ch -> usub 64 (total_size cs) (ch_size ch) = total_size (delete id cs).
Proof.
  intros Hc. rewrite (total_delete cs id ch Hc). unfold usub, uadd, wrap. rewrite Zminus_mod_idemp_l, Z.add_simpl_r.
  apply wrap_small, total_range.
Qed.

(** Pruning drops the oldest channels until the rest fits. *)
Lemma prune_run limit q cs :
  0 <= limit -> queue_ok q cs ->
  exists dropped q' cs', prune_channels limit q cs (total_size cs) = Ok (q', cs') /\
    q = dropped ++ q' /\ queue_ok q' cs' /\ total_size cs' <= limit /\ (forall id, id ∈ q' -> cs' !! id = cs !! id).
Proof.
  intros Hl. revert cs. induction q as [|id q IH]; intros cs [Hnd Hq]; cbn [prune_channels].
  - assert (cs = ∅) as ->.
    { apply map_empty. intros i. apply eq_None_not_Some. rewrite <- Hq. by intros Hi%list_elem_of_In. }
    change (total_size ∅) with 0. rewrite (proj2 (Z.ltb_ge _ _)) by done. by exists [], [], ∅.
  - destruct (Z.ltb_spec limit (total_size cs)) as [Hlt | Hle].
    + destruct (proj1 (Hq id) (list_elem_of_here _ _)) as [ch Hch]. rewrite Hch, (total_delete_sub cs id ch Hch).
      destruct (IH (delete id cs)) as (dropped & q' & cs' & R & -> & Hq' & Ht & Hsame);
        [by apply (queue_delete id [] q cs) |].
      exists (id :: dropped), q', cs'. rewrite R. split; [done |]. split; [done |]. split; [done |]. split; [done |].
      intros x Hx. rewrite Hsame by done. apply lookup_delete_ne. intros ->. apply NoDup_cons in Hnd as [Hni _].
      apply Hni, elem_of_app. by right.
    + exists [], (id :: q), cs. by split_and!.
Qed.

Lemma limit_nonneg s t : 0 <= MaxChannelBankSize s t.
Proof. unfold MaxChannelBankSize. by destruct (IsFjord _ _). Qed.

Definition bank_limit cb : Z := MaxChannelBankSize (cb_spec cb) (l1_Time (cb_Origin cb)).

Lemma total_new cs id ch : cs !! id = None -> ch_size ch = 0 -> total_size (<[id := ch]> cs) = total_size cs.
Proof.
  intros Hc E. rewrite (total_delete (<[id := ch]> cs) id ch), delete_insert_id, E by (done || apply lookup_insert_eq).
  unfold uadd. rewrite Z.add_0_r. apply wrap_small, total_range.
Qed.

(** Ingesting a frame never fails, keeps the queue and the map together and the
    total size below the limit. *)
Lemma ingest_ok f cb :
  bank_ok cb -> exists cb', IngestFrame f cb = Ok cb' /\ bank_ok cb' /\ cb_prev cb' = cb_prev cb /\ cb_spec cb' = cb_spec cb /\
    (total_size (channels cb) <= bank_limit cb -> total_size (channels cb') <= bank_limit cb').
Proof.
  intros Hb. unfold IngestFrame.
  assert (exists ch cb0, match channels cb !! f_ID f with
    | Some ch => (ch, cb)
    | None => (NewChannel (f_ID f) (cb_Origin cb) false, set_channels (<[f_ID f := NewChannel (f_ID f) (cb_Origin cb) false]> (channels cb))
        (channelQueue cb ++ [f_ID f]) cb)
    end = (ch, cb0) /\ bank_ok cb0 /\ channels cb0 !! f_ID f = Some ch /\ cb_prev cb0 = cb_prev cb /\ cb_spec cb0 = cb_spec cb /\
    total_size (channels cb0) = total_size (channels cb)) as (ch & cb0 & E & Hb0 & Hch & Ep & Es & Et).
  { destruct (channels cb !! f_ID f) as [ch |] eqn:E; [by exists ch, cb |].
    do 2 eexists. split; [done |]. cbn. rewrite lookup_insert_eq, total_new by done. split; [| done].
    destruct Hb as [Hnd Hq]. split; cbn.
    - rewrite Permutation_app_comm. apply NoDup_cons. split; [| done]. rewrite Hq, E. by intros [? ?].
    - intros x. rewrite elem_of_app, elem_of_cons, lookup_insert_is_Some', Hq. split.
      + intros [? | [-> | Hx%list_elem_of_In]]; [by right | by left | done].
      + intros [-> | ?]; [right; by left | by left]. }
  cbv zeta. rewrite E. assert (bank_limit cb0 = bank_limit cb) as El by (unfold bank_limit, cb_Origin; by rewrite Es, Ep).
  destruct (timed_out _ _ ch); [exists cb0; by rewrite Et, El |].
  destruct (AddFrame f (cb_Origin cb) ch) as [ch' | |]; [| exists cb0; by rewrite Et, El ..].
  set (cs := <[f_ID f := ch']> (channels cb0)).
  assert (queue_ok (channelQueue cb0) cs) as Hq.
  { destruct Hb0 as [Hnd Hq]. split; [done |]. intros x. rewrite Hq. subst cs. rewrite lookup_insert_is_Some'.
    split; [by right | intros [<- | ?]; [by rewrite Hch | done]]. }
  destruct (prune_run (bank_limit cb) (channelQueue cb0) cs (limit_nonneg _ _) Hq) as (dr & q' & cs' & R & _ & Hq' & Ht & _).
  exists (set_channels cs' q' (set_channels cs (channelQueue cb0) cb0)). split.
  2: { split; [exact Hq' |]. split; [exact Ep |]. split; [exact Es |]. intros _. unfold bank_limit, cb_Origin in *. cbn.
    rewrite Es, Ep. exact Ht. }
  unfold cb_prune. cbn [channels channelQueue set_channels cb_spec]. fold cs.
  change (cb_Origin (set_channels cs (channelQueue cb0) cb0)) with (cb_Origin cb0). change (MaxChannelBankSize _ _) with (bank_limit cb0).
  rewrite El, R. done.
Qed.

Lemma try_read_ok i cb :
  bank_ok cb -> (i < length (channelQueue cb))%nat ->
  exists r cb', tryReadChannelAtIndex i cb = (r, cb') /\ no_panic r /\ bank_ok cb' /\ cb_prev cb' = cb_prev cb /\
    cb_spec cb' = cb_spec cb /\ (forall e, r = Err e -> cb' = cb).
Proof.
  intros Hb Hi. unfold tryReadChannelAtIndex. destruct (lookup_lt_is_Some_2 _ _ Hi) as [id Hid]. rewrite Hid.
  pose proof Hb as [_ Hq]. destruct (proj1 (Hq id) ltac:(by eapply list_elem_of_lookup_2)) as [ch Hch]. rewrite Hch.
  destruct (timed_out _ _ ch || negb (IsReady ch)) eqn:E; [by do 2 eexists; split_and! |].
  apply orb_false_iff in E as [_ E%negb_false_iff]. rewrite (ready_reads ch E).
  do 2 eexists. split; [done |]. split; [done |]. split; [| done]. unfold bank_ok. cbn.
  apply (queue_delete id). by rewrite Nat.add_1_r, take_drop_middle.
Qed.

Lemma try_read_from_ok n i cb :
  bank_ok cb -> (i + n <= length (channelQueue cb))%nat ->
  exists r cb', try_read_from n i cb = (r, cb') /\ no_panic r /\ bank_ok cb' /\ cb_prev cb' = cb_prev cb /\
    cb_spec cb' = cb_spec cb /\ (forall e, r = Err e -> e = EOF /\ cb' = cb).
Proof.
  revert i. induction n as [|n IH]; intros i Hb Hi; cbn [try_read_from].
  - do 2 eexists. split; [done |]. split; [done |]. split; [done |]. split; [done |]. split; [done |]. by intros e [= <-].
  - destruct (try_read_ok i cb Hb ltac:(lia)) as (r & cb' & -> & Hp & Hb' & Ep & Es & He).
    destruct r as [data | e | e]; [| | by destruct (Hp e)].
    + by do 2 eexists; split_and!.
    + rewrite (He e eq_refl). apply IH; [done | lia].
Qed.

Lemma Read_ok cb :
  bank_ok cb -> exists r cb', cb_Read cb = (r, cb') /\ no_panic r /\ bank_ok cb' /\ cb_prev cb' = cb_prev cb /\
    cb_spec cb' = cb_spec cb /\ (forall e, r = Err e -> cb' = cb).
Proof.
  intros Hb. unfold cb_Read. destruct (channelQueue cb) as [|first rest] eqn:Eq; [by do 2 eexists; split_and! |].
  pose proof Hb as [_ Hq]. rewrite Eq in Hq. destruct (proj1 (Hq first) (list_elem_of_here _ _)) as [ch Hch]. rewrite Hch.
  destruct (timed_out _ _ ch).
  - do 2 eexists. split; [done |]. split; [done |]. split; [| done]. unfold bank_ok in *. rewrite Eq in Hb.
    exact (queue_delete first [] rest _ Hb).
  - destruct (negb _).
    + apply try_read_ok; [done | rewrite Eq; cbn; lia].
    + destruct (try_read_from_ok (length (first :: rest)) 0 cb Hb) as (r & cb' & H1 & H2 & H3 & H4 & H5 & H6); [by rewrite Eq |].
      exists r, cb'. split_and!; try done. intros e He. by apply H6 in He as [_ ?].
Qed.

(** Every call of the bank returns, with the invariant kept. *)
Lemma bank_next cb :
  bank_ok cb -> (forall p e p', NextFrame p <> (Panic e, p')) ->
  exists r cb', cb_NextRawChannel cb = (r, cb') /\ no_panic r /\ bank_ok cb' /\ cb_spec cb' = cb_spec cb.
Proof.
  intros Hb Hprov. unfold cb_NextRawChannel. destruct (Read_ok cb Hb) as (r & cb1 & -> & Hp & Hb1 & Ep & Es & He).
  destruct r as [data | e | e]; [by do 2 eexists; split_and! | | by destruct (Hp e)].
  destruct (negb (String.eqb e EOF)); [by do 2 eexists; split_and! |].
  destruct (NextFrame (cb_prev cb1)) as [[f | e' | e'] p'] eqn:En; [| by do 2 eexists; split_and! | by apply Hprov in En].
  set (cb2 := mkChannelBank (cb_spec cb1) (channels cb1) (channelQueue cb1) p').
  destruct (ingest_ok f cb2 Hb1) as (cb3 & -> & Hb3 & _ & Es3 & _). do 2 eexists. split; [done |]. split; [done |].
  split; [done |]. by rewrite Es3.
Qed.

(** The states of a bank: from a new bank, by calls, resets and whatever happens
    to the frame queue before it. *)
Inductive bank_state (spec : ChainSpec) : ChannelBank P -> Prop :=
| bank_new p : bank_state spec (NewChannelBank spec p)
| bank_call cb r cb' : bank_state spec cb -> cb_NextRawChannel cb = (r, cb') -> bank_state spec cb'
| bank_reset cb r cb' : bank_state spec cb -> cb_Reset cb = (r, cb') -> bank_state spec cb'
| bank_prev cb p : bank_state spec cb -> bank_state spec (mkChannelBank (cb_spec cb) (channels cb) (channelQueue cb) p).

Lemma empty_queue_ok : queue_ok [] ∅.
Proof. split; [constructor |]. intros id. rewrite lookup_empty. split; [by intros Hi%list_elem_of_In | by intros [? ?]]. Qed.

Lemma bank_state_ok spec cb :
  (forall p e p', NextFrame p <> (Panic e, p')) -> bank_state spec cb -> bank_ok cb /\ cb_spec cb = spec.
Proof.
  intros Hp. induction 1 as [p | cb r cb' _ [IH Es] R | cb r cb' _ [IH Es] R | cb p _ IH].
  - split; [apply empty_queue_ok | done].
  - destruct (bank_next cb IH Hp) as (r1 & cb1 & R1 & _ & Hb & E1). rewrite R in R1. injection R1 as <- <-. split; [done | congruence].
  - injection R as _ <-. split; [apply empty_queue_ok | done].
  - exact IH.
Qed.

End Bank.
