(* ===== verification/MerkleSpec.v ===== *)
(** The reference Merkle tree over a flat byte memory, and the facts about
    pages: the node cache of a page always agrees with the reference. *)
From Stdlib Require Import ZArith Lia.
From stdpp Require Import base gmap list strings numbers.
From S2P Require Import Prelude Arch Codec Memory.

(** The [n] bytes of [f] from address [a]. *)
Definition fbytes (f : Z -> Z) (a : Z) (n : nat) : list Z :=
  (fun k => f (a + Z.of_nat k)) <$> seq 0 n.

Lemma length_fbytes f a n : length (fbytes f a n) = n.
Proof. unfold fbytes. by rewrite length_fmap, length_seq. Qed.

Lemma lookup_fbytes f a n (i : nat) :
  (i < n)%nat -> fbytes f a n !! i = Some (f (a + Z.of_nat i)).
Proof. intros. unfold fbytes. by rewrite list_lookup_fmap, lookup_seq_lt. Qed.

Lemma fbytes_ext f f' a a' n :
  (forall k, 0 <= k < Z.of_nat n -> f (a + k) = f' (a' + k)) -> fbytes f a n = fbytes f' a' n.
Proof.
  intros H. apply list_eq_same_length with n; [by rewrite length_fbytes .. |].
  intros i x y Hi. rewrite !lookup_fbytes by done. rewrite H by lia. congruence.
Qed.

Lemma fbytes_zero f a n :
  (forall k, 0 <= k < Z.of_nat n -> f (a + k) = 0) -> fbytes f a n = replicate n 0.
Proof.
  intros H. apply list_eq_same_length with n; [by rewrite length_replicate | by rewrite length_fbytes |].
  intros i x y Hi. rewrite lookup_fbytes, H, lookup_replicate_2 by lia. congruence.
Qed.

Lemma fbytes_app f a n n' : fbytes f a (n + n') = fbytes f a n ++ fbytes f (a + Z.of_nat n) n'.
Proof.
  unfold fbytes. rewrite seq_app, fmap_app. f_equal. cbn.
  rewrite <- (Nat.add_0_r n) at 1.
  apply list_eq. intros i. rewrite !list_lookup_fmap.
  destruct (decide (i < n')%nat).
  - rewrite !lookup_seq_lt by done. cbn. do 2 f_equal. lia.
  - rewrite !lookup_seq_ge by lia. done.
Qed.

(** The byte function of a list. *)
Definition list_byte (d : list Z) (a : Z) : Z := default 0 (d !! Z.to_nat a).

Lemma slice_fbytes d a n :
  0 <= a -> a + Z.of_nat n <= zlen d -> slice a (a + Z.of_nat n) d = fbytes (list_byte d) a n.
Proof.
  intros Ha Hn. apply list_eq_same_length with n; [by rewrite length_fbytes | |].
  - rewrite length_slice; lia.
  - intros i x y Hi. rewrite lookup_slice, lookup_fbytes by lia. unfold list_byte.
    replace (Z.to_nat (a + Z.of_nat i)) with (Z.to_nat a + i)%nat by lia.
    intros -> [= <-]. done.
Qed.

(** [subtree f H h g]: the hash of the node with generalized index [g] and
    height [h] in the tree of height [H] over the 32-byte leaves of [f]. *)
Fixpoint subtree {K : Keccak} (f : Z -> Z) (H : Z) (h : nat) (g : Z) : hash :=
  match h with
  | O => fbytes f (32 * (g - 2 ^ H)) 32
  | S h => HashPair (subtree f H h (2 * g)) (subtree f H h (2 * g + 1))
  end.

(** The leaf of the tree that holds the byte at address [a]. *)
Definition leaf_of (H a : Z) : Z := 2 ^ H + ushr a 5.

(** [g], at height [h], is an ancestor of the leaf of [a]. *)
Definition covers (H h g a : Z) : Prop := Z.shiftr (leaf_of H a) h = g.

Section Spec.
Context {K : Keccak}.

Lemma covers_child H h g a c :
  0 <= h -> (c = 0 \/ c = 1) -> covers H h (2 * g + c) a -> covers H (h + 1) g a.
Proof.
  unfold covers. intros Hh Hc Hcov. rewrite <- Z.shiftr_shiftr, Hcov by lia.
  rewrite Z.shiftr_div_pow2 by lia. change (2 ^ 1) with 2. destruct Hc; subst; [rewrite Z.add_0_r |].
  - rewrite Z.mul_comm. by apply Z.div_mul.
  - replace (2 * g + 1) with (1 + g * 2) by ring. by rewrite Z.div_add.
Qed.

Lemma leaf_covers H g a k :
  0 <= k < 32 -> a = 32 * (g - 2 ^ H) + k -> covers H 0 g a.
Proof.
  intros Hk ->. unfold covers, leaf_of, ushr. rewrite Z.shiftr_0_r, Z.shiftr_div_pow2 by lia.
  change (2 ^ 5) with 32. replace (32 * (g - 2 ^ H) + k) with (k + (g - 2 ^ H) * 32) by ring.
  rewrite Z.div_add, Z.div_small by lia. lia.
Qed.

(** A node of the tree only covers addresses of the tree. *)
Lemma covers_bounds H h g a :
  0 < g -> 0 <= h -> Z.log2 g + h = H -> covers H h g a -> 0 <= a < 32 * 2 ^ H.
Proof.
  unfold covers, leaf_of. intros Hg Hh HH Hc. rewrite Z.shiftr_div_pow2 in Hc by lia.
  pose proof (Z.log2_spec g Hg) as [Hl1 Hl2]. pose proof (Z.log2_nonneg g).
  pose proof (pow2_pos h Hh) as Hp.
  assert (2 ^ H = 2 ^ Z.log2 g * 2 ^ h) as HpH by (rewrite <- Z.pow_add_r by lia; f_equal; lia).
  rewrite Z.pow_succ_r in Hl2 by lia.
  pose proof (Z.mul_div_le (2 ^ H + ushr a 5) (2 ^ h) Hp) as H1.
  pose proof (Z.mul_succ_div_gt (2 ^ H + ushr a 5) (2 ^ h) Hp) as H2. rewrite Hc in H1, H2.
  assert (0 <= ushr a 5 < 2 ^ H) as [H3 H4] by nia.
  rewrite ushr_div in * by lia. change (2 ^ 5) with 32 in *.
  Z.to_euclidean_division_equations. nia.
Qed.

(** A node depends only on the bytes it covers. *)
Lemma subtree_ext H f f' h g :
  (forall a, covers H (Z.of_nat h) g a -> f a = f' a) -> subtree f H h g = subtree f' H h g.
Proof.
  revert g. induction h as [|h IH]; intros g Hext; cbn [subtree].
  - apply fbytes_ext. intros k Hk. apply Hext. by eapply leaf_covers.
  - f_equal; apply IH; intros a Ha; apply Hext;
      rewrite Nat2Z.inj_succ; unfold Z.succ.
    + apply covers_child with 0; [lia | by left |]. by rewrite Z.add_0_r.
    + by apply covers_child with 1; [lia | right |].
Qed.

(** A node over zero bytes is the precomputed zero hash of its height. *)
Lemma subtree_zero H f h g :
  (forall a, covers H (Z.of_nat h) g a -> f a = 0) -> subtree f H h g = zeroHashes h.
Proof.
  revert g. induction h as [|h IH]; intros g Hz; cbn [subtree zeroHashes].
  - apply fbytes_zero. intros k Hk. apply Hz. by eapply leaf_covers.
  - cbn zeta. f_equal; apply IH; intros a Ha; apply Hz; rewrite Nat2Z.inj_succ; unfold Z.succ.
    + apply covers_child with 0; [lia | by left |]. by rewrite Z.add_0_r.
    + by apply covers_child with 1; [lia | right |].
Qed.

(** The tree of one aligned block is a subtree of the whole tree. *)
Lemma subtree_block H H' f f' base h b lo :
  0 <= H' -> 0 <= b <= H' -> b + Z.of_nat h = H' -> 0 <= lo < 2 ^ b ->
  (forall a, 0 <= a < 32 * 2 ^ H' -> f (32 * 2 ^ H' * (base - 2 ^ (H - H')) + a) = f' a) -> H' <= H ->
  subtree f H h (base * 2 ^ b + lo) = subtree f' H' h (2 ^ b + lo).
Proof.
  revert b lo. induction h as [|h IH]; intros b lo HH' Hb Hbh Hlo Hf HH; cbn [subtree].
  - assert (b = H') as -> by lia. apply fbytes_ext. intros k Hk. rewrite <- Hf by lia. f_equal.
    replace (2 ^ H) with (2 ^ (H - H') * 2 ^ H') by (rewrite <- Z.pow_add_r by lia; f_equal; lia).
    ring.
  - rewrite Nat2Z.inj_succ in Hbh.
    assert (2 ^ (b + 1) = 2 * 2 ^ b) as Hp by (rewrite Z.pow_add_r by lia; change (2 ^ 1) with 2; ring).
    f_equal.
    + replace (2 * (base * 2 ^ b + lo)) with (base * 2 ^ (b + 1) + 2 * lo) by (rewrite Hp; ring).
      replace (2 * (2 ^ b + lo)) with (2 ^ (b + 1) + 2 * lo) by (rewrite Hp; ring).
      apply IH; auto; lia.
    + replace (2 * (base * 2 ^ b + lo) + 1) with (base * 2 ^ (b + 1) + (2 * lo + 1)) by (rewrite Hp; ring).
      replace (2 * (2 ^ b + lo) + 1) with (2 ^ (b + 1) + (2 * lo + 1)) by (rewrite Hp; ring).
      apply IH; auto; lia.
Qed.

Lemma length_zeroHashes {KL : KeccakLaws K} i : length (zeroHashes i) = 32%nat.
Proof. destruct i; cbn [zeroHashes]; [done | apply keccak_length]. Qed.

Lemma length_subtree {KL : KeccakLaws K} f H h g : length (subtree f H h g) = 32%nat.
Proof. destruct h; cbn [subtree]; [apply length_fbytes | apply keccak_length]. Qed.

End Spec.

(** ** Pages *)

(** The reference hash of inner node or leaf [j] of a page. *)
Definition page_node {K : Keccak} (p : CachedPage) (j : Z) : hash :=
  subtree (list_byte (Data p)) 7 (Z.to_nat (7 - Z.log2 j)) j.

Record page_wf (p : CachedPage) : Prop := {
  pw_data : zlen (Data p) = PageSize;
  pw_bytes : bytes_ok (Data p);
  pw_cache : length (Cache p) = 128%nat;
  pw_valid : length (Valid p) = 128%nat;
}.

(** Every node marked valid holds the reference hash. *)
Definition page_coherent {K : Keccak} (p : CachedPage) : Prop :=
  forall j, 1 <= j < 128 -> valid_at p j = true -> cache_at p j = page_node p j.

Definition page_all_valid (p : CachedPage) : Prop :=
  forall j, 1 <= j < 128 -> valid_at p j = true.

(** [q] is [p] with more of the node cache filled in. *)
Definition page_filled (p q : CachedPage) : Prop :=
  Data q = Data p /\ forall j, 1 <= j < 128 -> valid_at p j = true -> valid_at q j = true.

Section PageFacts.
Context {K : Keccak}.

Lemma page_filled_refl p : page_filled p p.
Proof. done. Qed.

Lemma page_filled_trans p q r : page_filled p q -> page_filled q r -> page_filled p r.
Proof. intros [H1 H2] [H3 H4]. split; [congruence | auto]. Qed.

Lemma page_node_ext p q j : Data p = Data q -> page_node p j = page_node q j.
Proof. unfold page_node. by intros ->. Qed.

Lemma new_page_wf : page_wf new_page.
Proof.
  split; cbn.
  - unfold zlen. by rewrite length_replicate.
  - apply Forall_replicate. by vm_compute.
  - by rewrite length_replicate.
  - by rewrite length_replicate.
Qed.

Lemma new_page_invalid j : valid_at new_page j = false.
Proof.
  unfold valid_at, new_page. cbn [Valid].
  destruct (replicate _ false !! Z.to_nat j) eqn:E; [| done].
  by apply lookup_replicate_1 in E as [-> _].
Qed.

Lemma new_page_coherent : page_coherent new_page.
Proof. intros j Hj. rewrite new_page_invalid. done. Qed.

Lemma page_node_split p j :
  1 <= j < 128 -> page_node p j = HashPair (page_node p (2 * j)) (page_node p (2 * j + 1)).
Proof.
  intros Hj. unfold page_node.
  assert (0 <= Z.log2 j < 7) as Hl by (split; [apply Z.log2_nonneg | apply Z.log2_lt_pow2; lia]).
  rewrite Z.log2_double, Z.log2_succ_double by lia.
  replace (Z.to_nat (7 - Z.log2 j)) with (S (Z.to_nat (7 - Z.succ (Z.log2 j)))) by lia.
  done.
Qed.

Lemma page_node_leaf p j :
  zlen (Data p) = PageSize -> 128 <= j < 256 ->
  page_node p j = slice ((j - 128) * 32) ((j - 128) * 32 + 32) (Data p).
Proof.
  intros Hd Hj. unfold page_node.
  assert (Z.log2 j = 7) as -> by (apply Z.log2_unique; lia).
  change (Z.to_nat (7 - 7)) with O. cbn [subtree]. change (2 ^ 7) with 128.
  rewrite (Z.mul_comm 32). symmetry.
  apply (slice_fbytes (Data p) ((j - 128) * 32) 32); [lia |].
  change PageSize with 4096 in Hd. lia.
Qed.

(** The bottom cache layer hashes two adjacent leaves at once. *)
Lemma page_node_bottom p t :
  zlen (Data p) = PageSize -> 0 <= t < 64 ->
  keccak256 (slice (64 * t) (64 * t + 64) (Data p)) = page_node p (64 + t).
Proof.
  intros Hd Ht. rewrite page_node_split, !page_node_leaf by lia.
  unfold HashPair. f_equal. change PageSize with 4096 in Hd.
  change (64 * t + 64) with (64 * t + Z.of_nat (32 + 32)).
  rewrite slice_fbytes by lia. rewrite fbytes_app.
  rewrite <- (slice_fbytes (Data p) (64 * t) 32), <- (slice_fbytes (Data p) (64 * t + Z.of_nat 32) 32) by lia.
  f_equal; f_equal; lia.
Qed.

Lemma valid_fill p j k h :
  page_wf p -> 0 <= j < 128 -> 0 <= k ->
  valid_at (Page.fill p j h) k = if decide (j = k) then true else valid_at p k.
Proof.
  intros [_ _ _ Hv] Hj Hk. unfold valid_at, Page.fill. cbn [Valid].
  case_decide as E; [subst |].
  - by rewrite list_lookup_insert_eq by lia.
  - by rewrite list_lookup_insert_ne by lia.
Qed.

Lemma cache_fill p j k h :
  page_wf p -> 0 <= j < 128 -> 0 <= k ->
  cache_at (Page.fill p j h) k = if decide (j = k) then h else cache_at p k.
Proof.
  intros [_ _ Hc _] Hj Hk. unfold cache_at, Page.fill. cbn [Cache].
  case_decide as E; [subst |].
  - by rewrite list_lookup_insert_eq by lia.
  - by rewrite list_lookup_insert_ne by lia.
Qed.

Lemma fill_wf p j h : page_wf p -> page_wf (Page.fill p j h).
Proof. intros [? ? ? ?]. split; cbn; rewrite ?length_insert; done. Qed.

(** Filling a node with its reference hash keeps the page coherent. *)
Lemma fill_coherent p j :
  page_wf p -> page_coherent p -> 1 <= j < 128 ->
  page_coherent (Page.fill p j (page_node p j)).
Proof.
  intros Hw Hc Hj k Hk. rewrite valid_fill, cache_fill by (done || lia).
  rewrite (page_node_ext (Page.fill p j _) p) by done.
  case_decide; [by subst | auto].
Qed.

(** What a state of the filling loops satisfies relative to the start. *)
Definition filling (p0 p : CachedPage) : Prop :=
  page_wf p /\ page_coherent p /\ page_filled p0 p.

Lemma filling_fill p0 p j :
  filling p0 p -> 1 <= j < 128 -> filling p0 (Page.fill p j (page_node p j)).
Proof.
  intros (Hw & Hc & Hd & Hv) Hj. split; [by apply fill_wf | split; [by apply fill_coherent |]].
  split; [done |]. intros k Hk Hk0. rewrite valid_fill by (done || lia).
  case_decide; auto.
Qed.

Lemma hash_bottom_spec p0 p t :
  filling p0 p -> 0 <= t < 64 ->
  let p' := Page.hash_bottom p (64 * t) in
  filling p0 p' /\ page_filled p p' /\ valid_at p' (64 + t) = true.
Proof.
  intros Hf Ht. unfold Page.hash_bottom. change (PageSize / 32 / 2) with 64.
  replace (64 * t / 64) with t by (rewrite Z.mul_comm, Z.div_mul; lia). cbn zeta.
  destruct (valid_at p (64 + t)) eqn:E; [done |].
  destruct Hf as (Hw & Hc & Hd). rewrite page_node_bottom by (done || apply Hw).
  assert (filling p (Page.fill p (64 + t) (page_node p (64 + t)))) as Hf'
    by (apply filling_fill; [done | lia]).
  split; [apply filling_fill; [done | lia] |]. split; [apply Hf' |].
  rewrite valid_fill by (done || lia). by rewrite decide_True.
Qed.

Lemma hash_layer_spec p0 p j :
  filling p0 p -> 1 <= j < 64 ->
  valid_at p (2 * j) = true -> valid_at p (2 * j + 1) = true ->
  let p' := Page.hash_layer p (2 * j) in
  filling p0 p' /\ page_filled p p' /\ valid_at p' j = true.
Proof.
  intros Hf Hj Hl Hr. unfold Page.hash_layer.
  replace (ushr (2 * j) 1) with j
    by (unfold ushr; rewrite Z.shiftr_div_pow2, Z.mul_comm by lia; symmetry; by apply Z.div_mul).
  cbn zeta. destruct (valid_at p j) eqn:E; [done |].
  destruct Hf as (Hw & Hc & Hd).
  rewrite (Hc (2 * j)), (Hc (2 * j + 1)) by (done || lia).
  rewrite <- page_node_split by lia.
  assert (filling p (Page.fill p j (page_node p j))) as Hf'
    by (apply filling_fill; [done | lia]).
  split; [apply filling_fill; [done | lia] |]. split; [apply Hf' |].
  rewrite valid_fill by (done || lia). by rewrite decide_True.
Qed.

(** [CachedPage.MerkleRoot] returns the reference root and fills the cache. *)
Lemma page_MerkleRoot_spec p :
  page_wf p -> page_coherent p ->
  exists p', Page.MerkleRoot p = (page_node p 1, p') /\
    page_wf p' /\ page_coherent p' /\ page_filled p p' /\ page_all_valid p'.
Proof.
  intros Hw Hc. unfold Page.MerkleRoot.
  set (p1 := fold_left Page.hash_bottom _ p).
  assert (filling p p1 /\ forall j, 64 <= j < 64 + 64 -> valid_at p1 j = true) as [Hf1 Hv1].
  { pose proof (fold_zrange (fun k q => filling p q /\ forall j, 64 <= j < 64 + k -> valid_at q j = true)
             Page.hash_bottom 0 64 (Z.to_nat (PageSize / 64)) p) as Hfold. fold p1 in Hfold.
    change (Z.of_nat (Z.to_nat (PageSize / 64))) with 64 in Hfold.
    apply Hfold; [split; [done | lia] |]. clear Hfold.
    intros k q Hk [Hq Hvq]. rewrite Z.add_0_l.
    destruct (hash_bottom_spec p q k Hq Hk) as (H1 & H2 & H3). split; [done |].
    intros j Hj. destruct (decide (j = 64 + k)) as [-> | Hne]; [done |].
    apply H2; [lia |]. apply Hvq. lia. }
  set (p2 := fold_left Page.hash_layer _ p1).
  assert (filling p p2 /\ forall j, 63 - 63 < j < 128 -> valid_at p2 j = true) as [Hf2 Hv2].
  { pose proof (fold_zrange (fun k q => filling p q /\ forall j, 63 - k < j < 128 -> valid_at q j = true)
             Page.hash_layer (PageSize / 32 - 2) (-2) (Z.to_nat (PageSize / 64 - 1)) p1) as Hfold.
    fold p2 in Hfold.
    change (Z.of_nat (Z.to_nat (PageSize / 64 - 1))) with 63 in Hfold.
    apply Hfold; clear Hfold.
    - split; [done |]. intros j Hj. apply Hv1. lia.
    - intros k q Hk [Hq Hvq].
      replace (PageSize / 32 - 2 + -2 * k) with (2 * (63 - k)) by (change (PageSize / 32 - 2) with 126; ring).
      destruct (hash_layer_spec p q (63 - k)) as (H1 & H2 & H3); try done; try lia.
      1, 2: apply Hvq; lia.
      split; [done |]. intros j Hj.
      destruct (decide (j = 63 - k)) as [-> | Hne]; [done |].
      apply H2; [lia |]. apply Hvq. lia. }
  destruct Hf2 as (Hw2 & Hc2 & Hd2). exists p2. split.
  - f_equal. rewrite Hc2; [| lia |]. + apply page_node_ext, Hd2. + apply Hv2. lia.
  - repeat split; try done; try apply Hw2; try apply Hd2. intros j Hj. apply Hv2. lia.
Qed.

Lemma page_MerkleizeSubtree_spec p g :
  page_wf p -> page_coherent p -> 1 <= g < 256 ->
  exists p', Page.MerkleizeSubtree g p = Ok (page_node p g, p') /\
    page_wf p' /\ page_coherent p' /\ page_filled p p' /\ page_all_valid p'.
Proof.
  intros Hw Hc Hg. destruct (page_MerkleRoot_spec p Hw Hc) as (p' & Hr & Hw' & Hc' & Hf & Hv).
  exists p'. split; [| done]. unfold Page.MerkleizeSubtree. rewrite Hr.
  change (PageSize / 32) with 128. destruct (Z.leb_spec 128 g).
  - destruct (Z.leb_spec (128 * 2) g); [lia |].
    replace (g .& ushr PageAddrMask 5) with (g - 128).
    + rewrite <- page_node_leaf by (done || apply Hw' || lia).
      do 2 f_equal. symmetry. apply page_node_ext. symmetry. apply Hf.
    + change (ushr PageAddrMask 5) with (Z.ones 7). rewrite Z.land_ones by lia.
      change (2 ^ 7) with 128. apply (Z.mod_unique _ _ 1); lia.
  - do 2 f_equal. rewrite Hc'; [| lia | apply Hv; lia]. apply page_node_ext, Hf.
Qed.

Lemma fold_clear_valid ks p j :
  page_wf p -> 1 <= j -> (forall k, k ∈ ks -> 0 <= k) ->
  valid_at (fold_left Page.clear_valid ks p) j
  = if decide (j ∈ ks) then false else valid_at p j.
Proof.
  revert p. induction ks as [|k ks IH]; intros p Hw Hj Hks; cbn [fold_left].
  - rewrite decide_False; [done | apply not_elem_of_nil].
  - assert (0 <= k) by (apply Hks, list_elem_of_here).
    rewrite IH.
    + unfold valid_at at 1, Page.clear_valid. cbn [Valid].
      destruct (decide (j ∈ ks)) as [Hin | Hni].
      { rewrite decide_True; [done | by apply list_elem_of_further]. }
      destruct (decide (j = k)) as [-> | Hne].
      * rewrite (decide_True (P := k ∈ k :: ks)) by apply list_elem_of_here.
        destruct (decide (Z.to_nat k < length (Valid p))%nat).
        -- by rewrite list_lookup_insert_eq.
        -- rewrite lookup_ge_None_2; [done |]. rewrite length_insert. lia.
      * rewrite decide_False by (rewrite elem_of_cons; intros [? | ?]; done).
        by rewrite list_lookup_insert_ne by lia.
    + destruct Hw. split; cbn; rewrite ?length_insert; done.
    + done.
    + intros k' Hk'. by apply Hks, list_elem_of_further.
Qed.

Lemma fold_clear_data ks p :
  Data (fold_left Page.clear_valid ks p) = Data p /\
  Cache (fold_left Page.clear_valid ks p) = Cache p /\
  length (Valid (fold_left Page.clear_valid ks p)) = length (Valid p).
Proof.
  revert p. induction ks as [|k ks IH]; intros p; [done |]. cbn [fold_left].
  destruct (IH (Page.clear_valid p k)) as (-> & -> & ->). cbn. by rewrite length_insert.
Qed.

(** The loop of [invalidate] visits exactly the cached ancestors of the leaf. *)
Lemma page_path pageAddr j :
  0 <= pageAddr < PageSize ->
  j ∈ halvings (ushr (Z.shiftl 1 PageAddrSize .| pageAddr) (5 + 1)) <->
  exists h, 1 <= h /\ covers 7 h j pageAddr /\ 0 < j.
Proof.
  intros Hp. change PageSize with (2 ^ 12) in Hp. unfold PageAddrSize.
  rewrite lor_shiftl_add by (unfold in_range; lia). rewrite elem_of_halvings.
  assert (forall h, 0 <= h -> Z.shiftr (ushr (1 * 2 ^ 12 + pageAddr) (5 + 1)) h
                              = Z.shiftr (leaf_of 7 pageAddr) (h + 1)) as Heq.
  { intros h Hh. rewrite (Z.add_comm h 1), <- (Z.shiftr_shiftr (leaf_of 7 pageAddr) 1) by lia.
    f_equal. unfold leaf_of, ushr. rewrite !Z.shiftr_div_pow2 by lia.
    change (2 ^ 12) with 4096. change (2 ^ (5 + 1)) with 64. change (2 ^ 7) with 128.
    change (2 ^ 5) with 32. change (2 ^ 1) with 2. Z.to_euclidean_division_equations. lia. }
  split.
  - intros (h & Hh & -> & Hj). exists (h + 1). unfold covers. rewrite Heq by done.
    rewrite Heq in Hj by done. split; [lia | done].
  - intros (h & Hh & Hc & Hj). exists (h - 1). unfold covers in Hc.
    rewrite Heq by lia. replace (h - 1 + 1) with h by lia. split; [lia | split; [by symmetry | done]].
Qed.

(** Invalidating the path of a leaf and then writing into that leaf keeps the
    page coherent. *)
Lemma invalidate_write_spec p pageAddr src :
  page_wf p -> bytes_ok src ->
  0 <= pageAddr < PageSize -> pageAddr + zlen src <= PageSize ->
  (forall k, 0 <= k < zlen src -> ushr (pageAddr + k) 5 = ushr pageAddr 5) ->
  exists p', Page.invalidate pageAddr p = Ok p' /\ Data p' = Data p /\ page_wf p' /\
    let q := set_Data (splice pageAddr src (Data p')) p' in
    page_wf q /\ (page_coherent p -> page_coherent q) /\ valid_at q 1 = false.
Proof.
  intros Hw Hsrc Hp Hlen Hleaf. unfold Page.invalidate.
  destruct (Z.leb_spec PageSize pageAddr); [lia |].
  set (ks := halvings _). destruct (fold_clear_data ks p) as (Hd & Hca & Hva).
  eexists. split; [done |]. split; [done |]. cbn zeta. rewrite Hd. split.
  { destruct Hw. split; rewrite ?Hd, ?Hca, ?Hva; done. }
  assert (Hks : forall k, k ∈ ks -> 0 <= k)
    by (intros k Hk; apply page_path in Hk as (h & _ & _ & ?); [lia | lia]).
  set (q := set_Data _ _).
  assert (Hvq : forall j, valid_at q j = valid_at (fold_left Page.clear_valid ks p) j) by done.
  split; [| split].
  - destruct Hw as [Hd' Hb' Hc' Hv']. split; cbn.
    + unfold zlen. rewrite length_splice; [exact Hd' | lia |]. lia.
    + by apply bytes_ok_splice.
    + by rewrite Hca.
    + by rewrite Hva.
  - intros Hc j Hj Hv. rewrite Hvq, fold_clear_valid in Hv by (done || lia).
    destruct (decide (j ∈ ks)) as [|Hni]; [done |].
    unfold cache_at, q, set_Data. cbn [Cache]. rewrite Hca.
    change (cache_at p j = page_node q j). rewrite Hc by done. unfold page_node.
    apply subtree_ext. intros a Ha. unfold list_byte, q, set_Data. cbn [Data].
    rewrite lookup_splice by (destruct Hw; lia).
    destruct (decide (pageAddr <= Z.of_nat (Z.to_nat a) < pageAddr + zlen src)) as [Hin |]; [| done].
    exfalso. apply Hni, page_path; [done |].
    exists (7 - Z.log2 j).
    assert (0 <= Z.log2 j < 7) by (split; [apply Z.log2_nonneg | apply Z.log2_lt_pow2; lia]).
    split; [lia |]. split; [| lia]. rewrite Z2Nat.id in Ha by lia. unfold covers in *.
    pose proof (covers_bounds 7 (7 - Z.log2 j) j a ltac:(lia) ltac:(lia) ltac:(lia) Ha).
    rewrite <- Ha at 2. unfold leaf_of. f_equal. f_equal.
    rewrite <- (Hleaf (a - pageAddr)) by lia. f_equal. lia.
  - rewrite Hvq, fold_clear_valid by (done || lia). rewrite decide_True; [done |].
    apply page_path; [done |]. exists 7. split; [lia |]. split; [| lia].
    unfold covers, leaf_of. rewrite Z.shiftr_div_pow2 by lia.
    rewrite ushr_div by lia. change PageSize with 4096 in Hp.
    assert (0 <= pageAddr / 2 ^ 5 < 2 ^ 7) by (split; [apply Z.div_pos; lia | apply Z.div_lt_upper_bound; lia]).
    replace (2 ^ 7 + pageAddr / 2 ^ 5) with (pageAddr / 2 ^ 5 + 1 * 2 ^ 7) by ring.
    rewrite Z.div_add, Z.div_small by lia. done.
Qed.

Lemma InvalidateFull_wf p : page_wf p -> page_wf (Page.InvalidateFull p).
Proof. intros [? ? ? ?]. by split; cbn; rewrite ?length_replicate. Qed.

Lemma invalid_page_coherent p : (forall j, valid_at p j = false) -> page_coherent p.
Proof. intros H j Hj. by rewrite H. Qed.

Lemma InvalidateFull_invalid p j : valid_at (Page.InvalidateFull p) j = false.
Proof. apply new_page_invalid. Qed.

End PageFacts.
