(* ===== verification/MemoryProps.v ===== *)
(** The paged memory refines a flat byte memory: page lookups through the
    two-slot cache are exact, words read back what was written, and no other
    byte changes. *)
From Stdlib Require Import ZArith Lia.
From stdpp Require Import base gmap list strings numbers.
From S2P Require Import Prelude Arch Codec Memory MerkleSpec.

(** The abstraction: the byte at address [a]. *)
Definition mem_byte (m : Memory) (a : Z) : Z :=
  match pageTable m !! ushr a PageAddrSize ≫= (fun r => pages m !! r) with
  | Some p => list_byte (Data p) (a .& PageAddrMask)
  | None => 0
  end.

(** A last-page slot holds the pointer of the page table, or the invalid key. *)
Definition slot_ok {A : Arch} (m : Memory) (key : Z) (p : option nat) : Prop :=
  key = maxWord \/ (is_Some p /\ pageTable m !! key = p).

Record mem_wf {A : Arch} (m : Memory) : Prop := {
  wf_keys : forall k r, pageTable m !! k = Some r -> 0 <= k < MaxPageCount;
  wf_refs : forall k r, pageTable m !! k = Some r -> is_Some (pages m !! r);
  wf_inj : forall k k' r, pageTable m !! k = Some r -> pageTable m !! k' = Some r -> k = k';
  wf_pages : forall r p, pages m !! r = Some p -> page_wf p;
  wf_slot0 : slot_ok m (fst (lastPageKeys m)) (fst (lastPage m));
  wf_slot1 : slot_ok m (snd (lastPageKeys m)) (snd (lastPage m));
}.

(** Equal up to the last-page slots. *)
Definition same_store (m m' : Memory) : Prop :=
  nodes m' = nodes m /\ pages m' = pages m /\ pageTable m' = pageTable m.

Section MemoryFacts.
Context {A : Arch} {K : Keccak}.

Lemma MaxPageCount_eq : MaxPageCount = 2 ^ PageKeySize.
Proof. unfold MaxPageCount. rewrite Z.shiftl_1_l. done. Qed.

Lemma page_key_range a : is_word a -> 0 <= ushr a PageAddrSize < MaxPageCount.
Proof.
  unfold is_word, in_range. intros [H1 H2]. rewrite MaxPageCount_eq, ushr_div by done.
  unfold PageKeySize, PageAddrSize. change (2 ^ 12) with 4096.
  replace (2 ^ WordSize) with (4096 * 2 ^ (WordSize - 12)) in H2 by (destruct A; reflexivity).
  split; [apply Z.div_pos; lia | apply Z.div_lt_upper_bound; lia].
Qed.

Lemma maxWord_not_key k : 0 <= k < MaxPageCount -> k <> maxWord.
Proof. intros [H1 H2] ->. revert H2. destruct A; vm_compute; congruence. Qed.

Lemma page_offset a : a .& PageAddrMask = a mod PageSize.
Proof. apply (land_ones_mod a 12). done. Qed.

Lemma page_split a : a = PageSize * ushr a PageAddrSize + a .& PageAddrMask.
Proof. rewrite page_offset, ushr_div by done. apply Z.div_mod. done. Qed.

Lemma page_offset_range a : 0 <= a .& PageAddrMask < PageSize.
Proof. rewrite page_offset. by apply Z.mod_pos_bound. Qed.

Lemma mem_byte_same_store m m' a : same_store m m' -> mem_byte m' a = mem_byte m a.
Proof. intros (_ & Hp & Ht). unfold mem_byte. by rewrite Hp, Ht. Qed.

Lemma same_store_refl m : same_store m m.
Proof. done. Qed.

Lemma same_store_trans m m' m'' : same_store m m' -> same_store m' m'' -> same_store m m''.
Proof. intros (? & ? & ?) (? & ? & ?). split; [| split]; congruence. Qed.

Lemma NewMemory_wf : mem_wf NewMemory.
Proof. split; cbn; try (intros *; rewrite lookup_empty; done); by left || done. Qed.

Lemma NewMemory_zero a : mem_byte NewMemory a = 0.
Proof. done. Qed.

(** The two-slot cache never changes what a lookup returns. *)
Lemma PageLookup_spec m k :
  mem_wf m -> 0 <= k < MaxPageCount ->
  exists m', PageLookup k m = Ok ((pageTable m !! k, bool_decide (is_Some (pageTable m !! k))), m')
    /\ same_store m m' /\ mem_wf m'.
Proof.
  intros Hw Hk. pose proof (maxWord_not_key k Hk) as Hmax. unfold PageLookup.
  destruct (Z.eqb_spec k (fst (lastPageKeys m))) as [E0 | E0].
  { destruct (wf_slot0 m Hw) as [H | [Hs Ht]]; [congruence |]. rewrite <- E0 in Ht.
    exists m. rewrite Ht, bool_decide_true by done. done. }
  destruct (Z.eqb_spec k (snd (lastPageKeys m))) as [E1 | E1].
  { destruct (wf_slot1 m Hw) as [H | [Hs Ht]]; [congruence |]. rewrite <- E1 in Ht.
    exists m. rewrite Ht, bool_decide_true by done. done. }
  destruct (pageTable m !! k) as [r |] eqn:Er.
  - eexists. rewrite bool_decide_true by done. split; [done |]. split; [done |].
    destruct Hw as [H1 H2 H3 H4 H5 H6]. split; try done; cbn. right; eauto.
  - exists m. rewrite bool_decide_false by (intros [? ?]; done). done.
Qed.

(** Reading a page through its table entry. *)
Lemma mem_byte_page m k r p off :
  pageTable m !! k = Some r -> pages m !! r = Some p -> 0 <= off < PageSize ->
  mem_byte m (PageSize * k + off) = list_byte (Data p) off.
Proof.
  intros Hk Hr Hoff. unfold mem_byte.
  replace (ushr (PageSize * k + off) PageAddrSize) with k.
  - rewrite Hk. cbn. rewrite Hr. f_equal. rewrite page_offset, Z.add_comm, Z.mul_comm.
    rewrite Z_mod_plus_full. by apply Z.mod_small.
  - rewrite ushr_div by done. change (2 ^ PageAddrSize) with PageSize.
    rewrite Z.add_comm, Z.mul_comm, Z.div_add, Z.div_small by (done || lia). lia.
Qed.

Lemma mem_byte_no_page m a : pageTable m !! ushr a PageAddrSize = None -> mem_byte m a = 0.
Proof. unfold mem_byte. by intros ->. Qed.

Lemma mem_byte_set_page m k r p a :
  mem_wf m -> pageTable m !! k = Some r ->
  mem_byte (set_page r p m) a =
    if decide (ushr a PageAddrSize = k) then list_byte (Data p) (a .& PageAddrMask) else mem_byte m a.
Proof.
  intros Hw Hk. unfold mem_byte, set_page. cbn [pageTable pages].
  destruct (wf_refs m Hw k r Hk) as [p0 Hp0].
  case_decide as E.
  - rewrite E, Hk. cbn. rewrite list_lookup_insert_eq; [done |]. by eapply lookup_lt_Some.
  - destruct (pageTable m !! ushr a PageAddrSize) as [r' |] eqn:Er; [| done]. cbn.
    rewrite list_lookup_insert_ne; [done |]. intros ->. apply E. by eapply wf_inj.
Qed.

Lemma set_page_wf m r p : mem_wf m -> page_wf p -> mem_wf (set_page r p m).
Proof.
  intros [H1 H2 H3 H4 H5 H6] Hp. split; try done.
  - intros k r' Hk. cbn. destruct (H2 k r' Hk) as [p' Hp'].
    destruct (decide (r = r')) as [-> |].
    + rewrite list_lookup_insert_eq; [done | by eapply lookup_lt_Some].
    + by rewrite list_lookup_insert_ne.
  - intros r' p'. cbn. destruct (decide (r = r')) as [-> |].
    + intros Hl. assert (Hlt := lookup_lt_Some _ _ _ Hl). rewrite length_insert in Hlt.
      rewrite list_lookup_insert_eq in Hl by done. by injection Hl as <-.
    + rewrite list_lookup_insert_ne by done. apply H4.
Qed.

Lemma set_nodes_wf m n : mem_wf m -> mem_wf (set_nodes n m).
Proof. by intros [? ? ? ? ? ?]. Qed.

Lemma mem_byte_set_nodes m n a : mem_byte (set_nodes n m) a = mem_byte m a.
Proof. done. Qed.

(** The memory after [AllocPage k]. *)
Definition alloc_mem (k : Z) (m : Memory) : Memory :=
  mkMemory (clear_nodes (halvings (Z.shiftl 1 PageKeySize .| k)) (nodes m))
    (pages m ++ [new_page]) (<[k := length (pages m)]> (pageTable m))
    (lastPageKeys m) (lastPage m).

Lemma AllocPage_eq k m : AllocPage k m = Ok (Some (length (pages m)), alloc_mem k m).
Proof. done. Qed.

Lemma alloc_new_page k m : pages (alloc_mem k m) !! length (pages m) = Some new_page.
Proof. cbn. by rewrite lookup_app_r, Nat.sub_diag by lia. Qed.

Lemma alloc_table k m : pageTable (alloc_mem k m) !! k = Some (length (pages m)).
Proof. cbn. apply lookup_insert_eq. Qed.

Lemma alloc_wf k m :
  mem_wf m -> 0 <= k < MaxPageCount -> pageTable m !! k = None -> mem_wf (alloc_mem k m).
Proof.
  intros Hw Hk Hn. pose proof (maxWord_not_key k Hk) as Hmax.
  assert (Hold : forall k' r, pageTable m !! k' = Some r -> (r < length (pages m))%nat).
  { intros k' r Hr. destruct (wf_refs m Hw k' r Hr). by eapply lookup_lt_Some. }
  assert (Hslot : forall key p, slot_ok m key p -> slot_ok (alloc_mem k m) key p).
  { intros key p [-> | [Hs Ht]]; [by left | right]. split; [done |]. cbn.
    destruct Hs as [r ->]. rewrite lookup_insert_ne; [done | congruence]. }
  split.
  - intros k' r. cbn. rewrite lookup_insert. case_decide; [by intros; subst | apply Hw].
  - intros k' r. cbn. rewrite lookup_insert. case_decide as E.
    + intros [= <-]. rewrite lookup_app_r, Nat.sub_diag by lia. done.
    + intros Hr. rewrite lookup_app_l by eauto. by eapply wf_refs.
  - intros k1 k2 r. cbn. rewrite !lookup_insert.
    case_decide; case_decide; subst; try done.
    + intros [= <-] Hr. apply Hold in Hr. lia.
    + intros Hr [= <-]. apply Hold in Hr. lia.
    + by apply wf_inj.
  - intros r p. cbn. rewrite lookup_app. destruct (pages m !! r) eqn:E.
    + intros [= <-]. by eapply wf_pages.
    + intros [_ <-]%list_lookup_singleton_Some. apply new_page_wf.
  - apply Hslot, Hw.
  - apply Hslot, Hw.
Qed.

Lemma list_byte_zeros n a : list_byte (replicate n 0) a = 0.
Proof.
  unfold list_byte. destruct (replicate n 0 !! Z.to_nat a) eqn:E; [| done].
  by apply lookup_replicate_1 in E as [-> _].
Qed.

Lemma alloc_byte k m a :
  mem_wf m -> pageTable m !! k = None -> mem_byte (alloc_mem k m) a = mem_byte m a.
Proof.
  intros Hw Hn. unfold mem_byte, alloc_mem. cbn [pageTable pages].
  rewrite lookup_insert. case_decide as E.
  - subst. rewrite Hn. cbn. rewrite lookup_app_r, Nat.sub_diag by lia.
    apply list_byte_zeros.
  - destruct (pageTable m !! ushr a PageAddrSize) as [r |] eqn:Er; [| done]. cbn.
    destruct (wf_refs m Hw _ _ Er) as [p Hp]. rewrite lookup_app_l by (by eapply lookup_lt_Some). done.
Qed.

Lemma deref_ok m r p : pages m !! r = Some p -> deref (Some r) m = Ok ((r, p), m).
Proof. unfold deref. by intros ->. Qed.

Lemma deref_inv m r i p m' :
  deref r m = Ok ((i, p), m') -> r = Some i /\ pages m !! i = Some p /\ m' = m.
Proof.
  unfold deref. destruct r as [j |]; [| done]. destruct (pages m !! j) eqn:E; [| done].
  intros [= <- <- <-]. done.
Qed.

End MemoryFacts.

(** ** Coherence of the tree index *)

(** Height of the tree over the 32-byte leaves of the address space. *)
Definition tree_height {A : Arch} : Z := WordSize - 5.

(** [g] is the generalized index of page [k] or of a node above it. *)
Definition page_anc {A : Arch} (k g : Z) : Prop :=
  exists s, 0 <= s /\ Z.shiftr (2 ^ PageKeySize + k) s = g /\ 0 < g.

(** The reference hash of node [g] for the current contents. *)
Definition mem_node {A : Arch} {K : Keccak} (m : Memory) (g : Z) : hash :=
  subtree (mem_byte m) tree_height (Z.to_nat (tree_height - Z.log2 g)) g.

Record merkle_ok {A : Arch} {K : Keccak} (m : Memory) : Prop := {
  (* the caches of the pages are coherent *)
  mk_coh : forall k r p, pageTable m !! k = Some r -> pages m !! r = Some p -> page_coherent p;
  (* the nodes above a page exist *)
  mk_anc : forall k r g, pageTable m !! k = Some r -> page_anc k g -> is_Some (nodes m !! g);
  (* a node that holds a hash holds the reference hash *)
  mk_node : forall g v, nodes m !! g = Some (Some v) ->
    0 < g /\ Z.log2 g < PageKeySize /\ v = mem_node m g;
  (* the pages below a node that holds a hash have a computed root, so that
     [SetWord] sees [Ok[1]] and invalidates the node *)
  mk_valid : forall g v k r p, nodes m !! g = Some (Some v) -> page_anc k g ->
    pageTable m !! k = Some r -> pages m !! r = Some p -> valid_at p 1 = true;
}.

Section Coherence.
Context {A : Arch} {K : Keccak}.

Lemma NewMemory_merkle : merkle_ok NewMemory.
Proof. split; intros *; cbn; rewrite lookup_empty; done. Qed.

Lemma lookup_clear_nodes ks (n : gmap Z (option hash)) g :
  clear_nodes ks n !! g = if decide (g ∈ ks) then Some None else n !! g.
Proof.
  unfold clear_nodes. revert n. induction ks as [|k ks IH]; intros n; cbn [fold_left].
  - rewrite decide_False; [done | apply not_elem_of_nil].
  - rewrite IH, lookup_insert. destruct (decide (g ∈ ks)).
    + rewrite decide_True; [done | by apply list_elem_of_further].
    + destruct (decide (k = g)) as [-> | Hne].
      * rewrite decide_True; [done | apply list_elem_of_here].
      * rewrite decide_False; [done |]. rewrite elem_of_cons. intros [? | ?]; congruence.
Qed.

(** The loops of [Invalidate] and [AddPage] visit the nodes above the page. *)
Lemma tree_path k g :
  0 <= k < MaxPageCount ->
  g ∈ halvings (Z.shiftl 1 PageKeySize .| k) <-> page_anc k g.
Proof.
  rewrite MaxPageCount_eq. intros Hk. rewrite elem_of_halvings.
  assert (0 <= PageKeySize) by (unfold PageKeySize, PageAddrSize; destruct WordSize_cases; lia).
  rewrite lor_shiftl_add, Z.mul_1_l by done.
  unfold page_anc. split; intros (s & Hs & Hg & H0); exists s; subst; done.
Qed.

Lemma page_anc_covers g a :
  is_word a -> 0 < g -> Z.log2 g <= PageKeySize ->
  covers tree_height (tree_height - Z.log2 g) g a -> page_anc (ushr a PageAddrSize) g.
Proof.
  intros Ha Hg Hl Hc. unfold covers, leaf_of in Hc. exists (PageKeySize - Z.log2 g).
  split; [lia |]. split; [| done]. rewrite <- Hc at 2.
  replace (tree_height - Z.log2 g) with (7 + (PageKeySize - Z.log2 g))
    by (unfold tree_height, PageKeySize, PageAddrSize; lia).
  rewrite <- Z.shiftr_shiftr by lia. f_equal. unfold ushr, tree_height, PageKeySize, PageAddrSize.
  rewrite !Z.shiftr_div_pow2 by lia. change (2 ^ 12) with (2 ^ 5 * 2 ^ 7).
  rewrite <- Z.div_div by lia.
  replace (2 ^ (WordSize - 5)) with (2 ^ (WordSize - 12) * 2 ^ 7) by (destruct A; reflexivity).
  rewrite (Z.add_comm (_ * _)), Z.div_add by lia. lia.
Qed.

Lemma word_covers g a :
  0 < g -> Z.log2 g <= tree_height ->
  covers tree_height (tree_height - Z.log2 g) g a -> is_word a.
Proof.
  intros Hg Hl Hc. apply covers_bounds in Hc; [| done | lia | lia].
  unfold is_word, in_range. replace (2 ^ WordSize) with (32 * 2 ^ tree_height); [done |].
  destruct A; reflexivity.
Qed.

Lemma PageKeySize_le_height : PageKeySize <= tree_height.
Proof. unfold PageKeySize, tree_height, PageAddrSize. lia. Qed.

(** A node that is not above page [k] does not see a change of page [k]. *)
Lemma mem_node_ext m m' g :
  0 < g -> Z.log2 g <= PageKeySize ->
  (forall a, is_word a -> page_anc (ushr a PageAddrSize) g -> mem_byte m' a = mem_byte m a) ->
  mem_node m' g = mem_node m g.
Proof.
  intros Hg Hl Hb. pose proof PageKeySize_le_height. apply subtree_ext. intros a Ha.
  rewrite Z2Nat.id in Ha by lia.
  assert (is_word a) by (eapply word_covers; eauto; lia).
  apply Hb; [done |]. by apply page_anc_covers.
Qed.

Lemma merkle_ok_same_store m m' : same_store m m' -> merkle_ok m -> merkle_ok m'.
Proof.
  intros Hs. pose proof (mem_byte_same_store m m') as Hb. destruct Hs as (Hn & Hp & Ht).
  intros [H1 H2 H3 H4]. split; rewrite ?Hn, ?Hp, ?Ht; try done.
  intros g v Hg. destruct (H3 g v Hg) as (? & ? & ->). split; [done | split; [done |]].
  apply subtree_ext. intros a _. symmetry. by apply Hb.
Qed.

(** Clearing the nodes above a page keeps the index coherent. *)
Lemma merkle_invalidate m ks : merkle_ok m -> merkle_ok (set_nodes (clear_nodes ks (nodes m)) m).
Proof.
  intros [H1 H2 H3 H4]. split; cbn; try done.
  - intros k r g Hk Hg. rewrite lookup_clear_nodes. case_decide; [done | eauto].
  - intros g v. rewrite lookup_clear_nodes. case_decide; [done | eauto].
  - intros g v k r p. rewrite lookup_clear_nodes. case_decide; [done | eauto].
Qed.

(** Changing a page none of whose ancestors holds a hash. *)
Lemma merkle_write m k r p :
  mem_wf m -> merkle_ok m -> pageTable m !! k = Some r -> page_coherent p ->
  (forall g, page_anc k g -> nodes m !! g = Some None) ->
  merkle_ok (set_page r p m).
Proof.
  intros Hw [H1 H2 H3 H4] Hk Hp Hg.
  assert (Hpage : forall k' r' p', pageTable m !! k' = Some r' -> pages (set_page r p m) !! r' = Some p' ->
            (k' = k /\ p' = p) \/ (k' <> k /\ pages m !! r' = Some p')).
  { intros k' r' p' Hk'. cbn. destruct (decide (r = r')) as [<- | Hne].
    - assert (k' = k) as -> by (by eapply wf_inj). destruct (wf_refs m Hw k r Hk) as [? Hl].
      rewrite list_lookup_insert_eq by (by eapply lookup_lt_Some). intros [= <-]. by left.
    - rewrite list_lookup_insert_ne by done. intros Hl. right. split; [| done].
      intros ->. congruence. }
  split.
  - intros k' r' p' Hk' Hp'. destruct (Hpage k' r' p' Hk' Hp') as [[-> ->] | [? ?]]; eauto.
  - exact H2.
  - intros g v Hv. destruct (H3 g v Hv) as (Hg0 & Hl & ->). split; [done | split; [done |]].
    symmetry. apply mem_node_ext; [done | lia |]. intros a Ha Hanc.
    rewrite (mem_byte_set_page m k) by done. case_decide as E; [| done].
    subst k. cbn in Hv. rewrite (Hg g Hanc) in Hv. done.
  - intros g v k' r' p' Hv Hanc Hk' Hp'.
    destruct (Hpage k' r' p' Hk' Hp') as [[-> ->] | [? ?]]; [| eauto].
    cbn in Hv. rewrite (Hg g Hanc) in Hv. done.
Qed.

(** If the root of page [k] is not computed, no node above it holds a hash. *)
Lemma merkle_invalid_page m k r p g :
  merkle_ok m -> pageTable m !! k = Some r -> pages m !! r = Some p ->
  valid_at p 1 = false -> page_anc k g -> nodes m !! g = Some None.
Proof.
  intros Hm Hk Hp Hv Hg. destruct (mk_anc m Hm k r g Hk Hg) as [[v |] Hn]; [| done].
  rewrite (mk_valid m Hm g v k r p) in Hv; done.
Qed.

Lemma alloc_merkle m k :
  mem_wf m -> merkle_ok m -> 0 <= k < MaxPageCount -> pageTable m !! k = None ->
  merkle_ok (alloc_mem k m) /\ (forall g, page_anc k g -> nodes (alloc_mem k m) !! g = Some None).
Proof.
  intros Hw Hm Hk Hn.
  assert (Hcl : forall g, nodes (alloc_mem k m) !! g
                = if decide (g ∈ halvings (Z.shiftl 1 PageKeySize .| k)) then Some None else nodes m !! g)
    by (intros g; apply lookup_clear_nodes).
  assert (Hg : forall g, page_anc k g -> nodes (alloc_mem k m) !! g = Some None).
  { intros g Hg. rewrite Hcl, decide_True; [done |]. by apply tree_path. }
  split; [| done].
  assert (Hpage : forall k' r' p', pageTable (alloc_mem k m) !! k' = Some r' ->
            pages (alloc_mem k m) !! r' = Some p' ->
            (k' = k /\ p' = new_page) \/ (k' <> k /\ pageTable m !! k' = Some r' /\ pages m !! r' = Some p')).
  { intros k' r' p'. cbn. rewrite lookup_insert. case_decide as E.
    - intros [= <-]. rewrite lookup_app_r, Nat.sub_diag by lia. intros [= <-]. by left.
    - intros Hk' Hp'. right. destruct (wf_refs m Hw k' r' Hk') as [? Hl].
      rewrite lookup_app_l in Hp' by (by eapply lookup_lt_Some). done. }
  destruct Hm as [H1 H2 H3 H4]. split.
  - intros k' r' p' Hk' Hp'. destruct (Hpage k' r' p' Hk' Hp') as [[-> ->] | (? & ? & ?)]; [| eauto].
    apply new_page_coherent.
  - intros k' r' g Hk' Hanc. rewrite Hcl. case_decide; [done |].
    cbn in Hk'. rewrite lookup_insert in Hk'. case_decide; [subst | eauto].
    exfalso. by apply H, tree_path.
  - intros g v. rewrite Hcl. case_decide; [done |]. intros Hv.
    destruct (H3 g v Hv) as (Hg0 & Hl & ->). split; [done | split; [done |]].
    apply subtree_ext. intros a _. symmetry. by apply alloc_byte.
  - intros g v k' r' p'. rewrite Hcl. case_decide; [done |]. intros Hv Hanc Hk' Hp'.
    destruct (Hpage k' r' p' Hk' Hp') as [[-> ->] | (? & ? & ?)]; [| eauto].
    exfalso. by apply H, tree_path.
Qed.

End Coherence.

(** ** Word accesses *)

(** The word at address [a], big-endian. *)
Definition mem_word {A : Arch} (m : Memory) (a : Z) : Z :=
  be_decode (fbytes (mem_byte m) a (Z.to_nat WordSizeBytes)).

(** The memory [f] with the bytes of [v] at [a]. *)
Definition write_bytes (f : Z -> Z) (a : Z) (bs : list Z) (b : Z) : Z :=
  if decide (a <= b < a + zlen bs) then list_byte bs (b - a) else f b.

Section Words.
Context {A : Arch} {K : Keccak}.

Lemma ExtMask_mod a : a .& ExtMask = a mod WordSizeBytes.
Proof. destruct A; [apply (land_ones_mod a 2) | apply (land_ones_mod a 3)]; done. Qed.

(** An aligned word lies inside one page and one 32-byte leaf. *)
Lemma aligned_in_page a :
  a .& ExtMask = 0 -> a .& PageAddrMask + WordSizeBytes <= PageSize.
Proof.
  rewrite ExtMask_mod, page_offset. change PageSize with 4096.
  destruct A; [change WordSizeBytes with 4 | change WordSizeBytes with 8];
    Z.to_euclidean_division_equations; lia.
Qed.

Lemma aligned_same_page a k :
  a .& ExtMask = 0 -> 0 <= k < WordSizeBytes -> ushr (a + k) PageAddrSize = ushr a PageAddrSize.
Proof.
  rewrite ExtMask_mod, !ushr_div by done. change (2 ^ PageAddrSize) with 4096.
  destruct A; [change WordSizeBytes with 4 | change WordSizeBytes with 8];
    intros; Z.to_euclidean_division_equations; lia.
Qed.

Lemma aligned_same_leaf a k :
  a .& ExtMask = 0 -> 0 <= k < WordSizeBytes ->
  ushr (a .& PageAddrMask + k) 5 = ushr (a .& PageAddrMask) 5.
Proof.
  rewrite ExtMask_mod, page_offset, !ushr_div by done. change (2 ^ 5) with 32. change PageSize with 4096.
  destruct A; [change WordSizeBytes with 4 | change WordSizeBytes with 8];
    intros; Z.to_euclidean_division_equations; lia.
Qed.

Lemma WordSizeBytes_pos : 0 < WordSizeBytes.
Proof. destruct A; done. Qed.

Lemma page_word m a r p :
  mem_wf m -> a .& ExtMask = 0 ->
  pageTable m !! ushr a PageAddrSize = Some r -> pages m !! r = Some p ->
  slice (a .& PageAddrMask) (a .& PageAddrMask + WordSizeBytes) (Data p)
  = fbytes (mem_byte m) a (Z.to_nat WordSizeBytes).
Proof.
  intros Hw Ha Hk Hp. pose proof WordSizeBytes_pos. pose proof (page_offset_range a) as Ho.
  pose proof (aligned_in_page a Ha). pose proof (pw_data p (wf_pages m Hw r p Hp)).
  replace WordSizeBytes with (Z.of_nat (Z.to_nat WordSizeBytes)) at 1 by lia.
  rewrite slice_fbytes by lia. apply fbytes_ext. intros k Hk'.
  rewrite (page_split a) at 2. rewrite <- Z.add_assoc.
  erewrite mem_byte_page; [done | done | done | lia].
Qed.

Lemma GetWord_spec m a :
  mem_wf m -> is_word a -> a .& ExtMask = 0 ->
  exists m', GetWord a m = Ok (mem_word m a, m') /\ same_store m m' /\ mem_wf m'.
Proof.
  intros Hw Hword Ha. unfold GetWord. rewrite Ha. cbn [negb Z.eqb].
  destruct (PageLookup_spec m (ushr a PageAddrSize) Hw (page_key_range a Hword))
    as (m1 & Hl & Hs & Hw1).
  exists m1. split; [| done]. rewrite (ST_bind_run _ _ _ _ _ Hl).
  destruct (pageTable m !! ushr a PageAddrSize) as [r |] eqn:Er.
  - rewrite bool_decide_true by done. cbn [negb].
    destruct (wf_refs m Hw _ _ Er) as [p Hp].
    rewrite (ST_bind_run _ _ _ (r, p) m1) by (apply deref_ok; by rewrite (proj1 (proj2 Hs))).
    unfold mret, ST_ret, mem_word, ByteOrder_Word. do 3 f_equal. by eapply page_word.
  - rewrite bool_decide_false by (intros [? ?]; done). cbn [negb].
    unfold mret, ST_ret, mem_word. do 2 f_equal. rewrite fbytes_zero; [by destruct A |].
    intros k Hk. apply mem_byte_no_page. rewrite aligned_same_page; [done | done | lia].
Qed.

(** Writing bytes into the page of their address. *)
Lemma write_chunk_byte m a r p bs b :
  mem_wf m -> a .& PageAddrMask + zlen bs <= PageSize ->
  pageTable m !! ushr a PageAddrSize = Some r ->
  page_wf p -> (forall off, 0 <= off < PageSize ->
    list_byte (Data p) off = mem_byte m (PageSize * ushr a PageAddrSize + off)) ->
  mem_byte (set_page r (set_Data (splice (a .& PageAddrMask) bs (Data p)) p) m) b
  = write_bytes (mem_byte m) a bs b.
Proof.
  intros Hw Hpg Hk Hp Hdata. pose proof (page_offset_range a) as Ho.
  pose proof (pw_data p Hp) as Hd.
  rewrite (mem_byte_set_page m (ushr a PageAddrSize)) by done. unfold write_bytes.
  pose proof (page_split a) as Hsa. pose proof (page_split b) as Hsb.
  pose proof (page_offset_range b) as Hob.
  case_decide as E.
  - cbn [Data set_Data]. unfold list_byte at 1. rewrite lookup_splice by lia.
    rewrite Z2Nat.id by lia. rewrite E in Hsb.
    destruct (decide (a .& PageAddrMask <= b .& PageAddrMask < a .& PageAddrMask + zlen bs)).
    + rewrite decide_True by lia. unfold list_byte. do 2 f_equal. lia.
    + rewrite decide_False by lia. rewrite Hsb at 2. rewrite <- Hdata by lia. done.
  - rewrite decide_False; [done |]. intros Hin. apply E. nia.
Qed.

Lemma page_data_eq m k r p off :
  pageTable m !! k = Some r -> pages m !! r = Some p -> 0 <= off < PageSize ->
  list_byte (Data p) off = mem_byte m (PageSize * k + off).
Proof. intros. symmetry. by eapply mem_byte_page. Qed.

Lemma splice_page_wf p off bs :
  page_wf p -> bytes_ok bs -> 0 <= off -> off + zlen bs <= PageSize ->
  page_wf (set_Data (splice off bs (Data p)) p).
Proof.
  intros [Hd Hb Hc Hv] Hbs Ho Hl. split; try done.
  - unfold zlen. cbn [Data set_Data]. rewrite length_splice; [exact Hd | lia | rewrite Hd; lia].
  - by apply bytes_ok_splice.
Qed.

(** Writing into a page that was just allocated. *)
Lemma write_fresh_page m a bs :
  mem_wf m -> is_word a -> pageTable m !! ushr a PageAddrSize = None ->
  bytes_ok bs -> a .& PageAddrMask + zlen bs <= PageSize ->
  let m' := set_page (length (pages m))
              (set_Data (splice (a .& PageAddrMask) bs (Data new_page)) new_page)
              (alloc_mem (ushr a PageAddrSize) m) in
  mem_wf m' /\ (forall b, mem_byte m' b = write_bytes (mem_byte m) a bs b) /\
  (merkle_ok m -> merkle_ok m').
Proof.
  intros Hw Hword Er Hbs Hl. cbn zeta. pose proof (page_key_range a Hword) as Hkey.
  pose proof (page_offset_range a) as Ho. pose proof (alloc_wf _ _ Hw Hkey Er) as Hwa.
  split; [| split].
  - apply set_page_wf; [done |]. apply splice_page_wf; [apply new_page_wf | done | lia | done].
  - intros b. rewrite write_chunk_byte; try done.
    + unfold write_bytes. case_decide; [done |]. by apply alloc_byte.
    + apply alloc_table.
    + apply new_page_wf.
    + intros off Hoff. eapply page_data_eq; [apply alloc_table | apply alloc_new_page | done].
  - intros Hm. destruct (alloc_merkle m _ Hw Hm Hkey Er) as [Hma Hga].
    apply (merkle_write _ (ushr a PageAddrSize)); try done.
    + apply alloc_table.
    + apply invalid_page_coherent. intros j. apply new_page_invalid.
Qed.

Lemma write_bytes_ext f f' a bs b :
  (forall x, f x = f' x) -> write_bytes f a bs b = write_bytes f' a bs b.
Proof. intros H. unfold write_bytes. by rewrite H. Qed.

(** The branch of [SetWord] for a page that exists: after [invalidate], and
    [Invalidate] if the page's root had been computed, the write keeps the
    index coherent. *)
Lemma write_valid_page m a v r p p' :
  mem_wf m -> is_word a -> pageTable m !! ushr a PageAddrSize = Some r -> pages m !! r = Some p ->
  let q := set_Data (splice (a .& PageAddrMask) (ByteOrder_PutWord v) (Data p')) p' in
  page_wf q -> (page_coherent p -> page_coherent q) ->
  let gi := Z.shiftl 1 (WordSize - PageAddrSize) .| ushr a PageAddrSize in
  let n := if valid_at p 1 then clear_nodes (halvings gi) (nodes m) else nodes m in
  mem_wf (set_page r q (set_nodes n m)) /\ (merkle_ok m -> merkle_ok (set_page r q (set_nodes n m))).
Proof.
  intros Hw Hword Er Hp q Hqw Hqc gi n. pose proof (page_key_range a Hword) as Hkey.
  split; [by apply set_page_wf, Hqw; apply set_nodes_wf |]. intros Hm.
  assert (page_coherent q) by (by apply Hqc; eapply mk_coh).
  assert (merkle_ok (set_nodes n m)) as Hn.
  { unfold n. destruct (valid_at p 1); [by apply merkle_invalidate | by destruct m]. }
  apply (merkle_write _ (ushr a PageAddrSize)); try done; [by apply set_nodes_wf |].
  intros g Hg. cbn. unfold n. destruct (valid_at p 1) eqn:Hv1.
  - rewrite lookup_clear_nodes, decide_True; [done |]. by apply tree_path.
  - by eapply merkle_invalid_page; eauto.
Qed.

(** [SetWord] on an aligned address succeeds, writes exactly the bytes of the
    word, and keeps the index coherent. *)
Lemma SetWord_spec m a v :
  mem_wf m -> is_word a -> a .& ExtMask = 0 ->
  exists m', SetWord a v m = Ok ((), m') /\ mem_wf m' /\
    (forall b, mem_byte m' b = write_bytes (mem_byte m) a (ByteOrder_PutWord v) b) /\
    (merkle_ok m -> merkle_ok m').
Proof.
  intros Hw Hword Ha. unfold SetWord. rewrite Ha. cbn [negb Z.eqb].
  pose proof (page_key_range a Hword) as Hkey. pose proof (page_offset_range a) as Ho.
  pose proof (aligned_in_page a Ha) as Hpg. pose proof (length_PutWord v) as Hv.
  destruct (PageLookup_spec m (ushr a PageAddrSize) Hw Hkey) as (m1 & Hl & Hs & Hw1).
  rewrite (ST_bind_run _ _ _ _ _ Hl).
  assert (Hb1 : forall b, mem_byte m1 b = mem_byte m b) by (intros; by apply mem_byte_same_store).
  pose proof (merkle_ok_same_store m m1 Hs) as Hmk1.
  replace (pageTable m) with (pageTable m1) by apply Hs. clear Hl Hs.
  destruct (pageTable m1 !! ushr a PageAddrSize) as [r |] eqn:Er.
  - rewrite bool_decide_true by done. cbn [negb].
    destruct (wf_refs m1 Hw1 _ _ Er) as [p Hp]. pose proof (wf_pages m1 Hw1 r p Hp) as Hpw.
    rewrite (ST_bind_run _ _ _ _ _ (deref_ok m1 r p Hp)).
    destruct (invalidate_write_spec p (a .& PageAddrMask) (ByteOrder_PutWord v))
      as (p' & Hinv & Hd' & Hpw' & Hqw & Hqc & _); try done; [apply be_encode_bytes | lia | |].
    { intros k Hk. apply aligned_same_leaf; [done | lia]. }
    cbn zeta. rewrite (ST_bind_run _ _ _ p' m1) by (unfold lift; by rewrite Hinv).
    erewrite ST_bind_run; [| done].
    destruct (write_valid_page m1 a v r p p') as [Hw2 Hm2]; try done.
    eexists. split; [| split; [exact Hw2 | split; [| auto]]].
    + unfold mbind, ST_bind, modify. destruct (valid_at p 1); unfold set_page, set_nodes;
        cbn; by rewrite list_insert_insert_eq.
    + intros b. rewrite <- (write_bytes_ext (mem_byte m1)) by done.
      rewrite <- (write_chunk_byte m1 a r p'); try done; [lia |].
      intros off Hoff. rewrite Hd'. by eapply page_data_eq.
  - rewrite bool_decide_false by (intros [? ?]; done). cbn [negb].
    rewrite (ST_bind_run _ _ _ _ _ (AllocPage_eq _ _)).
    rewrite (ST_bind_run _ _ _ _ _ (deref_ok _ _ _ (alloc_new_page _ _))).
    destruct (write_fresh_page m1 a (ByteOrder_PutWord v)) as (Hw2 & Hb2 & Hm2);
      try done; [apply be_encode_bytes | lia |].
    eexists. split; [done |]. split; [exact Hw2 |]. split; [| auto].
    intros b. rewrite <- (write_bytes_ext (mem_byte m1)) by done. apply Hb2.
Qed.

End Words.
