(* ===== verification/MerkleProps.v ===== *)
(** The Merkle tree of the memory: the cached computation returns the reference
    root of the current contents, and the proofs it produces verify. *)
From Stdlib Require Import ZArith Lia.
From stdpp Require Import base gmap list strings numbers.
From S2P Require Import Prelude Arch Codec Memory MerkleSpec MemoryProps.

(** [m'] is [m] with more of its caches filled in. *)
Definition more_cached (m m' : Memory) : Prop :=
  pageTable m' = pageTable m /\ lastPageKeys m' = lastPageKeys m /\
  lastPage m' = lastPage m /\ Forall2 page_filled (pages m) (pages m').

(** The root of every page below [g] is computed. *)
Definition below_valid {A : Arch} (m : Memory) (g : Z) : Prop :=
  forall k r p, page_anc k g -> pageTable m !! k = Some r -> pages m !! r = Some p -> valid_at p 1 = true.

Section Merkle.
Context {A : Arch} {K : Keccak}.

Lemma more_cached_refl m : more_cached m m.
Proof. split; [done | split; [done | split; [done |]]]. apply Forall_Forall2_diag, Forall_true. done. Qed.

Lemma more_cached_trans m1 m2 m3 : more_cached m1 m2 -> more_cached m2 m3 -> more_cached m1 m3.
Proof.
  intros (H1 & H2 & H3 & H4) (H5 & H6 & H7 & H8).
  split; [congruence | split; [congruence | split; [congruence |]]].
  apply Forall2_same_length_lookup. split; [by rewrite (Forall2_length H4), (Forall2_length H8) |].
  intros i x z Hx Hz. destruct (Forall2_lookup_l _ _ _ _ _ H4 Hx) as (y & Hy & Hxy).
  destruct (Forall2_lookup_l _ _ _ _ _ H8 Hy) as (z' & Hz' & Hyz).
  assert (z' = z) as -> by congruence. by eapply page_filled_trans.
Qed.

Lemma more_cached_page m m' r p' :
  more_cached m m' -> pages m' !! r = Some p' ->
  exists p, pages m !! r = Some p /\ page_filled p p'.
Proof. intros (_ & _ & _ & H) Hr. by eapply Forall2_lookup_r in H as (p & ? & ?); [eauto |]. Qed.

Lemma more_cached_byte m m' a : more_cached m m' -> mem_byte m' a = mem_byte m a.
Proof.
  intros (Ht & _ & _ & Hp). unfold mem_byte. rewrite Ht.
  destruct (pageTable m !! ushr a PageAddrSize) as [r |]; [| done]. cbn.
  pose proof (proj1 (Forall2_lookup page_filled _ _) Hp r) as Hl.
  destruct Hl as [p p' [Hd _] |]; [by rewrite Hd | done].
Qed.

Lemma more_cached_node m m' g : more_cached m m' -> mem_node m' g = mem_node m g.
Proof. intros H. apply subtree_ext. intros a _. by apply more_cached_byte. Qed.

Lemma more_cached_below m m' g :
  more_cached m m' -> below_valid m g -> below_valid m' g.
Proof.
  intros H Hb k r p' Hanc Hk Hp'. destruct (more_cached_page m m' r p' H Hp') as (p & Hp & Hf).
  apply Hf; [lia |]. eapply Hb; eauto. by rewrite <- (proj1 H).
Qed.

(** Filling the cache of one page. *)
Lemma set_page_filled m k r p p' :
  mem_wf m -> merkle_ok m -> pageTable m !! k = Some r -> pages m !! r = Some p ->
  page_wf p' -> page_coherent p' -> page_filled p p' ->
  more_cached m (set_page r p' m) /\ mem_wf (set_page r p' m) /\ merkle_ok (set_page r p' m).
Proof.
  intros Hw Hm Hk Hp Hw' Hc' Hf.
  assert (Hmc : more_cached m (set_page r p' m)).
  { split; [done | split; [done | split; [done |]]]. cbn.
    rewrite <- (list_insert_id (pages m) r p) at 1 by done.
    apply Forall2_insert; [| done]. apply Forall_Forall2_diag, Forall_true. done. }
  split; [done | split; [by apply set_page_wf |]].
  destruct Hm as [H1 H2 H3 H4]. split.
  - intros k2 r2 p2 Hk2 Hp2. cbn in Hk2, Hp2. destruct (decide (r = r2)) as [<- | Hne].
    + rewrite list_lookup_insert_eq in Hp2 by (by eapply lookup_lt_Some). by injection Hp2 as <-.
    + rewrite list_lookup_insert_ne in Hp2 by done. eauto.
  - exact H2.
  - intros g v Hv. destruct (H3 g v Hv) as (? & ? & ->). split; [done | split; [done |]].
    symmetry. by apply more_cached_node.
  - intros g v k2 r2 p2 Hv Hanc Hk2 Hp2.
    destruct (more_cached_page _ _ r2 p2 Hmc Hp2) as (p0 & Hp0 & Hf0).
    apply Hf0; [lia |]. by eapply H4.
Qed.

Lemma PageKeySize_pos : 0 < PageKeySize.
Proof. destruct A; done. Qed.

(** The page a deep node lies in. *)
Lemma deep_node_split g :
  0 < g -> PageKeySize <= Z.log2 g ->
  let d := Z.log2 g - PageKeySize in
  g = Z.shiftr g d * 2 ^ d + g mod 2 ^ d /\
  2 ^ PageKeySize <= Z.shiftr g d < 2 * 2 ^ PageKeySize.
Proof.
  intros Hg Hl d. pose proof (pow2_pos d ltac:(lia)) as Hd.
  rewrite Z.shiftr_div_pow2 by lia. split; [rewrite Z.mul_comm; apply Z.div_mod; lia |].
  pose proof (Z.log2_spec g Hg) as [H1 H2].
  replace (Z.log2 g) with (PageKeySize + d) in H1 by lia.
  replace (Z.succ (Z.log2 g)) with (Z.succ PageKeySize + d) in H2 by lia.
  pose proof PageKeySize_pos. rewrite Z.pow_add_r, ?Z.pow_succ_r in * by lia.
  split; [apply Z.div_le_lower_bound; lia | apply Z.div_lt_upper_bound; lia].
Qed.

Lemma deep_covers_page g a :
  0 < g -> PageKeySize <= Z.log2 g <= tree_height ->
  covers tree_height (tree_height - Z.log2 g) g a ->
  ushr a PageAddrSize = Z.shiftr g (Z.log2 g - PageKeySize) - 2 ^ PageKeySize.
Proof.
  intros Hg Hl Hc. unfold covers, leaf_of in Hc. rewrite <- Hc at 1.
  rewrite Z.shiftr_shiftr by lia.
  replace (tree_height - Z.log2 g + (Z.log2 g - PageKeySize)) with 7
    by (unfold tree_height, PageKeySize, PageAddrSize; lia).
  unfold ushr, tree_height, PageKeySize, PageAddrSize.
  rewrite !Z.shiftr_div_pow2 by lia. change (2 ^ 12) with (2 ^ 5 * 2 ^ 7).
  rewrite <- Z.div_div by lia.
  replace (2 ^ (WordSize - 5)) with (2 ^ (WordSize - 12) * 2 ^ 7) by (destruct A; reflexivity).
  rewrite (Z.add_comm (_ * _)), Z.div_add by lia. lia.
Qed.

(** A deep node is a node of its page. *)
Lemma deep_node_page m g r p :
  0 < g -> PageKeySize <= Z.log2 g <= tree_height ->
  let d := Z.log2 g - PageKeySize in
  pageTable m !! (Z.shiftr g d - 2 ^ PageKeySize) = Some r -> pages m !! r = Some p ->
  mem_node m g = page_node p (2 ^ d + g mod 2 ^ d).
Proof.
  intros Hg Hl d Hk Hp. destruct (deep_node_split g Hg ltac:(lia)) as [Heq Hrange].
  fold d in Heq, Hrange. pose proof (pow2_pos d ltac:(lia)) as Hd.
  pose proof (Z.mod_pos_bound g (2 ^ d) Hd) as Hmod.
  assert (Z.log2 (2 ^ d + g mod 2 ^ d) = d) as Hlog.
  { apply Z.log2_unique; [lia |]. rewrite Z.pow_succ_r by lia. lia. }
  unfold mem_node, page_node. rewrite Hlog.
  replace (Z.to_nat (tree_height - Z.log2 g)) with (Z.to_nat (7 - d))
    by (unfold d, tree_height, PageKeySize, PageAddrSize; lia).
  rewrite Heq at 1.
  assert (tree_height - 7 = PageKeySize) as HT by (unfold tree_height, PageKeySize, PageAddrSize; lia).
  assert (d <= 7) as Hd7 by (unfold d, PageKeySize, tree_height, PageAddrSize in *; lia).
  apply subtree_block; [lia | lia | lia | lia | | pose proof PageKeySize_pos; lia].
  intros a Ha. rewrite HT. change (32 * 2 ^ 7) with PageSize in *. by eapply mem_byte_page.
Qed.

Lemma page_anc_child k g :
  0 <= k < MaxPageCount -> Z.log2 g < PageKeySize -> page_anc k g ->
  page_anc k (2 * g) \/ page_anc k (2 * g + 1).
Proof.
  rewrite MaxPageCount_eq. intros Hk Hl (s & Hs & Hg & H0).
  pose proof PageKeySize_pos.
  assert (Z.log2 (2 ^ PageKeySize + k) = PageKeySize) as Hlog
    by (apply Z.log2_unique; [lia |]; rewrite Z.pow_succ_r by lia; lia).
  assert (s <> 0) by (intros ->; rewrite Z.shiftr_0_r in Hg; subst g; lia).
  set (x := Z.shiftr (2 ^ PageKeySize + k) (s - 1)).
  assert (Z.shiftr x 1 = g) as Hx.
  { unfold x. rewrite Z.shiftr_shiftr by lia. by replace (s - 1 + 1) with s by lia. }
  rewrite Z.shiftr_div_pow2 in Hx by lia. change (2 ^ 1) with 2 in Hx.
  assert (x = 2 * g \/ x = 2 * g + 1) as [E | E] by (Z.to_euclidean_division_equations; lia).
  - left. exists (s - 1). split; [lia |]. split; [exact E | lia].
  - right. exists (s - 1). split; [lia |]. split; [exact E | lia].
Qed.

(** Node [g] and its two children. *)
Lemma mem_node_split m g :
  0 < g -> Z.log2 g < tree_height ->
  mem_node m g = HashPair (mem_node m (2 * g)) (mem_node m (2 * g + 1)).
Proof.
  intros Hg Hl. unfold mem_node. rewrite Z.log2_double, Z.log2_succ_double by lia.
  replace (Z.to_nat (tree_height - Z.log2 g)) with (S (Z.to_nat (tree_height - Z.succ (Z.log2 g)))) by lia.
  done.
Qed.

Lemma mem_node_zero m g :
  0 < g -> Z.log2 g <= tree_height ->
  (forall a, is_word a -> covers tree_height (tree_height - Z.log2 g) g a -> mem_byte m a = 0) ->
  mem_node m g = zeroHashes (Z.to_nat (tree_height - Z.log2 g)).
Proof.
  intros Hg Hl Hz. apply subtree_zero. intros a Ha. rewrite Z2Nat.id in Ha by lia.
  apply Hz; [by eapply word_covers | done].
Qed.

(** Storing a computed hash in its node. *)
Lemma store_node_ok m g :
  mem_wf m -> merkle_ok m -> 0 < g -> Z.log2 g < PageKeySize -> below_valid m g ->
  merkle_ok (set_nodes (<[g := Some (mem_node m g)]> (nodes m)) m).
Proof.
  intros Hw [H1 H2 H3 H4] Hg Hl Hb. split; cbn; try done.
  - intros k r g' Hk Hanc. rewrite lookup_insert. case_decide; [done | eauto].
  - intros g' v. rewrite lookup_insert. case_decide as E.
    + intros [= <-]. by subst.
    + apply H3.
  - intros g' v k r p. rewrite lookup_insert. case_decide as E.
    + subst. intros _. apply Hb.
    + apply H4.
Qed.

(** ** The cached computation *)

(** What a call for node [g] establishes. *)
Definition merkleized (m : Memory) (g : Z) (h : hash) (m' : Memory) : Prop :=
  h = mem_node m g /\ more_cached m m' /\ mem_wf m' /\ merkle_ok m' /\
  (Z.log2 g <= PageKeySize -> below_valid m' g).

Lemma Len64_pos g : 0 < g -> Len64 g = Z.log2 g + 1.
Proof. intros. unfold Len64. destruct (Z.eqb_spec g 0); lia. Qed.

Lemma gindex_child g :
  0 < g -> Z.log2 g < tree_height -> ushl 64 g 1 = 2 * g /\ ushl 64 g 1 .| 1 = 2 * g + 1.
Proof.
  intros Hg Hl. assert (ushl 64 g 1 = 2 * g) as E.
  { unfold ushl. rewrite Z.shiftl_mul_pow2 by lia. change (2 ^ 1) with 2. rewrite wrap_small; [lia |].
    pose proof (Z.log2_spec g Hg) as [_ Hu].
    assert (2 ^ Z.succ (Z.log2 g) <= 2 ^ 63)
      by (apply Z.pow_le_mono_r; [lia |]; unfold tree_height in Hl; destruct WordSize_cases; lia).
    unfold in_range. change (2 ^ 63) with 9223372036854775808 in *. change (2 ^ 64) with 18446744073709551616. lia. }
  split; [done |]. rewrite E. replace (2 * g) with (Z.shiftl g 1) by (rewrite Z.shiftl_mul_pow2 by lia; lia).
  rewrite lor_shiftl_add by done. rewrite Z.shiftl_mul_pow2 by lia. lia.
Qed.

Lemma deep_page_index g :
  0 < g -> PageKeySize <= Z.log2 g ->
  ushr g (Z.log2 g - PageKeySize) .& PageKeyMask
  = Z.shiftr g (Z.log2 g - PageKeySize) - 2 ^ PageKeySize.
Proof.
  intros Hg Hl. pose proof PageKeySize_pos.
  destruct (deep_node_split g Hg Hl) as [_ Hr]. unfold ushr.
  replace PageKeyMask with (Z.ones PageKeySize)
    by (unfold PageKeyMask; rewrite MaxPageCount_eq, Z.ones_equiv; lia).
  rewrite land_ones_mod by lia. symmetry. apply (Z.mod_unique _ _ 1); lia.
Qed.

Lemma deep_page_gindex g d :
  0 <= d -> Z.shiftl 1 d .| (g .& (Z.shiftl 1 d - 1)) = 2 ^ d + g mod 2 ^ d.
Proof.
  intros Hd. replace (Z.shiftl 1 d - 1) with (Z.ones d)
    by (rewrite Z.ones_equiv, Z.shiftl_1_l; lia).
  rewrite land_ones_mod by done. rewrite lor_shiftl_add; [lia | done |].
  apply Z.mod_pos_bound, pow2_pos. done.
Qed.

(** The only page below a page-level node is that page. *)
Lemma page_anc_level k g :
  0 <= k < MaxPageCount -> Z.log2 g = PageKeySize -> page_anc k g -> g = 2 ^ PageKeySize + k.
Proof.
  rewrite MaxPageCount_eq. intros Hk Hl (s & Hs & Hg & H0). pose proof PageKeySize_pos.
  assert (Z.log2 (2 ^ PageKeySize + k) = PageKeySize) as Hlog
    by (apply Z.log2_unique; [lia |]; rewrite Z.pow_succ_r by lia; lia).
  assert (s = 0) as ->; [| by rewrite Z.shiftr_0_r in Hg].
  rewrite <- Hg, Z.log2_shiftr in Hl by lia. lia.
Qed.

(** At or below the page level the work is done by the page. *)
Lemma merkleize_deep fuel m g :
  mem_wf m -> merkle_ok m -> 0 < g -> PageKeySize <= Z.log2 g <= tree_height ->
  exists h m', MerkleizeSubtree_fuel fuel g m = Ok (h, m') /\ merkleized m g h m'.
Proof.
  intros Hw Hm Hg Hl. set (d := Z.log2 g - PageKeySize).
  pose proof (deep_page_index g Hg ltac:(lia)) as Hidx.
  assert (0 <= d <= 7) as Hd by (unfold d, tree_height, PageKeySize, PageAddrSize in *; lia).
  assert (Hrun : MerkleizeSubtree_fuel fuel g m =
    match pageTable m !! (Z.shiftr g d - 2 ^ PageKeySize) with
    | Some r => (rp ← deref (Some r); hp ← lift (Page.MerkleizeSubtree (2 ^ d + g mod 2 ^ d) rp.2);
                 modify (set_page rp.1 hp.2) ;; mret hp.1) m
    | None => Ok (zeroHashes (Z.to_nat (tree_height - Z.log2 g)), m)
    end).
  { unfold d in *. rewrite <- Hidx, <- deep_page_gindex by lia. destruct fuel;
    cbn [MerkleizeSubtree_fuel]; rewrite Len64_pos by done;
    (destruct (Z.ltb_spec MemProofLeafCount (Z.log2 g + 1)) as [H | _];
      [unfold MemProofLeafCount, tree_height in *; lia |]);
    (destruct (Z.ltb_spec PageKeySize (Z.log2 g + 1)) as [_ | H]; [| lia]);
    replace (Z.log2 g + 1 - 1 - PageKeySize) with (Z.log2 g - PageKeySize) by lia;
    replace (MemProofLeafCount - (Z.log2 g + 1)) with (tree_height - Z.log2 g)
      by (unfold MemProofLeafCount, tree_height; lia);
    unfold mbind, ST_bind at 1, get; destruct (pageTable m !! _) as [r |]; try done;
    unfold deref, lift, mbind, outcome_bind, ST_bind; destruct (pages m !! r) as [p |]; try done;
    cbn [fst snd]; by destruct (Page.MerkleizeSubtree _ _) as [[? ?] | |]. }
  rewrite Hrun. clear Hrun. set (k := Z.shiftr g d - 2 ^ PageKeySize).
  destruct (pageTable m !! k) as [r |] eqn:Ek.
  - destruct (wf_refs m Hw k r Ek) as [p Hp].
    pose proof (Z.mod_pos_bound g (2 ^ d) (pow2_pos d ltac:(lia))) as Hmod.
    assert (2 ^ d <= 2 ^ 7) by (apply Z.pow_le_mono_r; lia). change (2 ^ 7) with 128 in *.
    pose proof (pow2_pos d ltac:(lia)).
    destruct (page_MerkleizeSubtree_spec p (2 ^ d + g mod 2 ^ d)) as (p' & Hr & Hw' & Hc' & Hf & Hv);
      [by eapply wf_pages | by eapply mk_coh | lia |].
    rewrite (ST_bind_run _ _ _ _ _ (deref_ok m r p Hp)). cbn [fst snd].
    rewrite (ST_bind_run _ _ _ (page_node p (2 ^ d + g mod 2 ^ d), p') m) by (unfold lift; by rewrite Hr).
    do 2 eexists. split; [done |].
    destruct (set_page_filled m k r p p') as (Hmc & Hw2 & Hm2); try done.
    split; [by symmetry; eapply deep_node_page |]. split; [done | split; [done | split; [done |]]].
    intros Hlv k' r' p2 Hanc Hk' Hp2. cbn in Hk', Hp2.
    assert (k' = k) as ->.
    { apply page_anc_level in Hanc; [| by eapply wf_keys | lia].
      unfold k, d. replace (Z.log2 g - PageKeySize) with 0 by lia. rewrite Z.shiftr_0_r. lia. }
    assert (r' = r) as -> by congruence. rewrite list_lookup_insert_eq in Hp2 by (by eapply lookup_lt_Some).
    injection Hp2 as <-. apply Hv. lia.
  - do 2 eexists. split; [done |].
    split; [| split; [apply more_cached_refl | split; [done | split; [done |]]]].
    + symmetry. apply mem_node_zero; [done | lia |]. intros a Ha Hc.
      apply mem_byte_no_page. rewrite (deep_covers_page g a); done.
    + intros Hlv k' r' p2 Hanc Hk' _. apply page_anc_level in Hanc; [| by eapply wf_keys | lia].
      exfalso. replace k' with k in Hk'; [congruence |].
      unfold k, d. replace (Z.log2 g - PageKeySize) with 0 by lia. rewrite Z.shiftr_0_r. lia.
Qed.

(** A node the index does not hold has no page below it. *)
Lemma missing_node_zero m g :
  mem_wf m -> merkle_ok m -> 0 < g -> Z.log2 g < PageKeySize -> nodes m !! g = None ->
  mem_node m g = zeroHashes (Z.to_nat (tree_height - Z.log2 g)) /\ below_valid m g.
Proof.
  intros Hw Hm Hg Hl Hn.
  assert (Hno : forall k r, page_anc k g -> pageTable m !! k = Some r -> False).
  { intros k r Hanc Hk. destruct (mk_anc m Hm k r g Hk Hanc). congruence. }
  pose proof PageKeySize_le_height. split.
  - apply mem_node_zero; [done | lia |]. intros a Ha Hc. apply mem_byte_no_page.
    destruct (pageTable m !! _) eqn:E; [| done]. exfalso. eapply Hno; [| done].
    apply page_anc_covers; [done | done | lia | done].
  - intros k r p Hanc Hk. exfalso. eauto.
Qed.

Lemma below_valid_split m g :
  mem_wf m -> 0 < g -> Z.log2 g < PageKeySize ->
  below_valid m (2 * g) -> below_valid m (2 * g + 1) -> below_valid m g.
Proof.
  intros Hw Hg Hl H0 H1 k r p Hanc Hk Hp.
  destruct (page_anc_child k g) as [H | H]; try done; [by eapply wf_keys | |]; eauto.
Qed.

Lemma MerkleizeSubtree_fuel_spec fuel g m :
  mem_wf m -> merkle_ok m -> 0 < g -> Z.log2 g <= tree_height ->
  PageKeySize - Z.log2 g <= Z.of_nat fuel ->
  exists h m', MerkleizeSubtree_fuel fuel g m = Ok (h, m') /\ merkleized m g h m'.
Proof.
  revert g m. induction fuel as [|fuel IH]; intros g m Hw Hm Hg Hl Hf;
    (destruct (decide (PageKeySize <= Z.log2 g)) as [Hd | Hd]; [by apply merkleize_deep |]);
    [exfalso; lia |].
  cbn [MerkleizeSubtree_fuel]. rewrite Len64_pos by done.
  destruct (Z.ltb_spec MemProofLeafCount (Z.log2 g + 1)); [unfold MemProofLeafCount, tree_height in *; lia |].
  destruct (Z.ltb_spec PageKeySize (Z.log2 g + 1)) as [? | _]; [lia |].
  rewrite (ST_bind_run _ _ _ m m) by done.
  replace (MemProofLeafCount - (Z.log2 g + 1)) with (tree_height - Z.log2 g)
    by (unfold MemProofLeafCount, tree_height; lia).
  destruct (nodes m !! g) as [[v |] |] eqn:En.
  - exists v, m. split; [done |]. destruct (mk_node m Hm g v En) as (_ & _ & ->).
    split; [done | split; [apply more_cached_refl | split; [done | split; [done |]]]].
    intros _ k r p Hanc Hk Hp. by eapply mk_valid.
  - pose proof PageKeySize_le_height. destruct (gindex_child g Hg ltac:(lia)) as [-> ->].
    pose proof (Z.log2_double g Hg) as L0. pose proof (Z.log2_succ_double g Hg) as L1.
    destruct (IH (2 * g) m Hw Hm) as (h0 & m0 & R0 & -> & C0 & W0 & M0 & B0); [lia .. |].
    destruct (IH (2 * g + 1) m0 W0 M0) as (h1 & m1 & R1 & -> & C1 & W1 & M1 & B1); [lia .. |].
    rewrite (ST_bind_run _ _ _ _ _ R0), (ST_bind_run _ _ _ _ _ R1).
    rewrite (more_cached_node m m0) by done. rewrite <- mem_node_split by lia.
    pose proof (more_cached_trans _ _ _ C0 C1) as C.
    assert (below_valid m1 g) as B.
    { apply below_valid_split; try done; [lia | | apply B1; lia].
      eapply more_cached_below; [exact C1 |]. apply B0. lia. }
    do 2 eexists. split; [done |]. split; [done |].
    split; [| split; [by apply set_nodes_wf | split; [| done]]].
    + exact C.
    + rewrite <- (more_cached_node m m1) by done. apply store_node_ok; try done; lia.
  - destruct (missing_node_zero m g) as [Hz Hb]; try done; [lia |]. rewrite <- Hz.
    exists (mem_node m g), m. split; [done |].
    split; [done | split; [apply more_cached_refl | done]].
Qed.

Lemma MerkleizeSubtree_spec g m :
  mem_wf m -> merkle_ok m -> 0 < g -> Z.log2 g <= tree_height ->
  exists h m', MerkleizeSubtree g m = Ok (h, m') /\ merkleized m g h m'.
Proof.
  intros. apply MerkleizeSubtree_fuel_spec; try done.
  pose proof (Z.log2_nonneg g). pose proof PageKeySize_pos. lia.
Qed.

(** ** Merkle proofs *)

(** The verifier's fold: from a leaf up, the bits of [path] say on which side
    the next sibling stands. *)
Fixpoint climb (path : Z) (node : hash) (siblings : list hash) : hash :=
  match siblings with
  | [] => node
  | s :: rest =>
      climb (ushr path 1) (if Z.testbit path 0 then HashPair s node else HashPair node s) rest
  end.

Fixpoint chunks (n : nat) (bs : list Z) : list hash :=
  match n with
  | O => []
  | S n => take 32 bs :: chunks n (drop 32 bs)
  end.

(** The root an encoded proof for [addr] commits to. *)
Definition proof_root (addr : Z) (proof : list Z) : hash :=
  match chunks (Z.to_nat MemProofLeafCount) proof with
  | leaf :: siblings => climb (ushr addr 5) leaf siblings
  | [] => []
  end.

Lemma climb_snoc path node l s :
  climb path node (l ++ [s]) =
  if Z.testbit path (Z.of_nat (length l)) then HashPair s (climb path node l)
  else HashPair (climb path node l) s.
Proof.
  revert path node. induction l as [|x l IH]; intros path node; cbn [climb app length]; [done |].
  rewrite IH. unfold ushr at 1. rewrite Z.shiftr_spec by lia.
  by replace (Z.of_nat (length l) + 1) with (Z.of_nat (S (length l))) by lia.
Qed.

Lemma chunks_concat l : Forall (fun h => length h = 32%nat) l -> chunks (length l) (concat l) = l.
Proof.
  induction 1 as [|h l Hh Hl IH]; cbn [length chunks concat]; [done |].
  rewrite <- Hh, take_app_length, drop_app_length, IH. done.
Qed.

(** The node at depth [depth] on the way to [addr]. *)
Definition path_node (addr depth : Z) : Z := Z.shiftr (leaf_of tree_height addr) (tree_height - depth).

Lemma leaf_of_range addr : is_word addr -> 2 ^ tree_height <= leaf_of tree_height addr < 2 * 2 ^ tree_height.
Proof.
  intros [H1 H2]. unfold leaf_of, ushr. rewrite Z.shiftr_div_pow2 by lia.
  replace (2 ^ WordSize) with (2 ^ 5 * 2 ^ tree_height) in H2 by (destruct A; reflexivity).
  assert (0 <= addr / 2 ^ 5) by (apply Z.div_pos; lia).
  assert (addr / 2 ^ 5 < 2 ^ tree_height) by (apply Z.div_lt_upper_bound; lia). lia.
Qed.

Lemma path_node_log2 addr depth :
  is_word addr -> 0 <= depth <= tree_height ->
  0 < path_node addr depth /\ Z.log2 (path_node addr depth) = depth.
Proof.
  intros Ha Hd. pose proof (leaf_of_range addr Ha) as Hr.
  assert (0 < 2 ^ tree_height) by (apply pow2_pos; lia).
  assert (Z.log2 (leaf_of tree_height addr) = tree_height) as Hl
    by (apply Z.log2_unique; [lia |]; rewrite Z.pow_succ_r by lia; lia).
  unfold path_node. rewrite Z.log2_shiftr by lia. split; [| lia].
  rewrite Z.shiftr_div_pow2 by lia. apply Z.div_str_pos. split; [by apply pow2_pos; lia |].
  apply Z.log2_le_pow2; lia.
Qed.

Lemma path_node_child addr depth :
  0 <= depth < tree_height ->
  path_node addr (depth + 1) =
    2 * path_node addr depth + (if Z.testbit (ushr addr 5) (tree_height - depth - 1) then 1 else 0).
Proof.
  intros Hd. unfold path_node. set (x := leaf_of tree_height addr).
  replace (Z.shiftr x (tree_height - depth)) with (Z.shiftr x (tree_height - (depth + 1) + 1)) by (f_equal; lia).
  rewrite <- Z.shiftr_shiftr by lia. set (y := Z.shiftr x _).
  assert (Z.testbit (ushr addr 5) (tree_height - depth - 1) = Z.testbit y 0) as ->.
  { unfold y. rewrite (Z.shiftr_spec x) by lia. unfold x, leaf_of.
    rewrite <- (Z.mod_pow2_bits_low (2 ^ tree_height + _) tree_height) by lia.
    rewrite <- (Z.mul_1_l (2 ^ tree_height)) at 1. rewrite Z.add_comm, Z_mod_plus_full.
    rewrite Z.mod_pow2_bits_low by lia. f_equal. lia. }
  rewrite Z.shiftr_div_pow2 by lia. change (2 ^ 1) with 2. rewrite Z.bit0_odd.
  pose proof (Z.div2_odd y) as H. rewrite Z.div2_div in H. unfold Z.b2z in H. done.
Qed.

Lemma addr_bit addr i :
  is_word addr -> 0 <= i < WordSize ->
  negb (addr .& ushl WordSize 1 i =? 0) = Z.testbit addr i.
Proof.
  intros Ha Hi. unfold ushl. rewrite Z.shiftl_1_l, wrap_small.
  2: { split; [apply Z.pow_nonneg; lia | apply Z.pow_lt_mono_r; lia]. }
  destruct (Z.testbit addr i) eqn:E.
  - destruct (Z.eqb_spec (addr .& 2 ^ i) 0) as [H | H]; [| done].
    assert (Z.testbit (addr .& 2 ^ i) i = true) as Hb
      by (rewrite Z.land_spec, E, Z.pow2_bits_true by lia; done).
    rewrite H, Z.bits_0 in Hb. done.
  - replace (addr .& 2 ^ i) with 0; [done |]. symmetry. apply Z.bits_inj'. intros j Hj.
    rewrite Z.land_spec, Z.bits_0. destruct (decide (i = j)) as [-> | Hne]; [by rewrite E |].
    by rewrite Z.pow2_bits_false, andb_false_r.
Qed.

(** The proof of a branch climbs from the leaf of [addr] to the branch's node. *)
Lemma traverseBranch_spec fuel m addr depth :
  mem_wf m -> merkle_ok m -> is_word addr -> 0 <= depth ->
  Z.of_nat fuel = tree_height - depth ->
  exists sibs m',
    traverseBranch fuel (path_node addr depth) addr depth m
      = Ok (mem_node m (path_node addr tree_height) :: sibs, m') /\
    length sibs = fuel /\
    climb (ushr addr 5) (mem_node m (path_node addr tree_height)) sibs = mem_node m (path_node addr depth) /\
    (exists gs, sibs = mem_node m <$> gs) /\
    more_cached m m' /\ mem_wf m' /\ merkle_ok m'.
Proof.
  intros Hw Hm Ha. revert depth. induction fuel as [|fuel IH]; intros depth Hd Hf.
  - assert (depth = tree_height) as -> by lia. cbn [traverseBranch]. unfold tree_height at 2.
    rewrite Z.eqb_refl. destruct (path_node_log2 addr tree_height Ha) as [Hp Hl]; [lia |].
    destruct (MerkleizeSubtree_spec (path_node addr tree_height) m) as (h & m' & R & -> & C & W & M & _);
      try done; [lia |].
    rewrite (ST_bind_run _ _ _ _ _ R). exists [], m'. split; [done |]. split; [done |]. split; [done |].
    split; [by exists [] | done].
  - cbn [traverseBranch]. destruct (Z.eqb_spec depth (WordSize - 5)); [unfold tree_height in *; lia |].
    destruct (Z.ltb_spec (WordSize - 5) depth); [unfold tree_height in *; lia |].
    destruct (path_node_log2 addr depth Ha) as [Hp Hl]; [lia |].
    set (b := Z.testbit (ushr addr 5) (tree_height - depth - 1)).
    assert (Hbit : negb (addr .& ushl WordSize 1 (WordSize - 1 - depth) =? 0) = b).
    { rewrite addr_bit by (unfold tree_height in *; done || lia). unfold b, ushr.
      rewrite Z.shiftr_spec by lia. f_equal. unfold tree_height. lia. }
    assert (Hch : ushl 64 (path_node addr depth) 1 = 2 * path_node addr depth /\
                  ushl 64 (path_node addr depth) 1 .| 1 = 2 * path_node addr depth + 1)
      by (apply gindex_child; lia).
    destruct Hch as [-> ->]. rewrite Hbit.
    set (sib := 2 * path_node addr depth + (if b then 0 else 1)).
    replace (if b then _ else _) with (path_node addr (depth + 1), sib)
      by (rewrite path_node_child by lia; unfold sib; fold b; destruct b; f_equal; lia).
    destruct (IH (depth + 1)) as (sibs & m1 & R1 & Hlen & Hclimb & [gs Hgs] & C1 & W1 & M1); [lia | lia |].
    rewrite (ST_bind_run _ _ _ _ _ R1).
    destruct (MerkleizeSubtree_spec sib m1) as (h & m2 & R2 & -> & C2 & W2 & M2 & _); try done.
    { unfold sib. destruct b; lia. }
    { unfold sib. destruct b; rewrite ?Z.add_0_r, ?Z.log2_succ_double, ?Z.log2_double by lia; lia. }
    rewrite (ST_bind_run _ _ _ _ _ R2), (more_cached_node m m1) by done.
    exists (sibs ++ [mem_node m sib]), m2. split; [done |].
    split; [rewrite length_app; cbn; lia |]. split.
    + rewrite climb_snoc, Hclimb, Hlen, (mem_node_split m (path_node addr depth)) by lia.
      replace (Z.of_nat fuel) with (tree_height - depth - 1) by lia. fold b.
      rewrite path_node_child by lia. fold b. unfold sib. destruct b; by rewrite ?Z.add_0_r.
    + split; [exists (gs ++ [sib]); by rewrite Hgs, fmap_app |].
      split; [by eapply more_cached_trans | done].
Qed.

End Merkle.
