(* ===== verification/MemoryRange.v ===== *)
(** Range accesses of the memory: [ReadMemoryRange] delivers the bytes of the
    range whatever buffer the caller reads with, and [SetMemoryRange] stores
    what its reader delivers, however the reader cuts it. *)
From Stdlib Require Import ZArith Lia.
From stdpp Require Import base gmap list strings numbers sorting.
From S2P Require Import Prelude Arch Codec Memory MerkleSpec MemoryProps.

Section ReadRange.
Context {A : Arch} {K : Keccak}.

Lemma WordSize_page : 2 ^ WordSize = PageSize * MaxPageCount.
Proof. destruct A; reflexivity. Qed.

Lemma page_of a k off : 0 <= off < PageSize -> a = PageSize * k + off -> ushr a PageAddrSize = k.
Proof.
  intros Ho ->. rewrite ushr_div by done. change (2 ^ PageAddrSize) with PageSize.
  symmetry. apply (Z.div_unique _ _ _ off); lia.
Qed.

(** The part of a page a read is served from. *)
Lemma page_slice m k lo hi r p :
  mem_wf m -> pageTable m !! k = Some r -> pages m !! r = Some p ->
  0 <= lo <= hi -> hi <= PageSize ->
  slice lo hi (Data p) = fbytes (mem_byte m) (PageSize * k + lo) (Z.to_nat (hi - lo)).
Proof.
  intros Hw Hk Hp Hlo Hhi. pose proof (pw_data p (wf_pages m Hw r p Hp)).
  replace hi with (lo + Z.of_nat (Z.to_nat (hi - lo))) at 1 by lia.
  rewrite slice_fbytes by lia. apply fbytes_ext. intros j Hj.
  rewrite <- Z.add_assoc. erewrite mem_byte_page; [done | done | done | lia].
Qed.

Lemma take_fbytes f a n n' : take n (fbytes f a n') = fbytes f a (Nat.min n n').
Proof.
  unfold fbytes. rewrite <- fmap_take. f_equal.
  destruct (Nat.le_ge_cases n n').
  - rewrite take_seq. f_equal.
  - rewrite take_ge by (rewrite length_seq; lia). f_equal. lia.
Qed.

(** One read: a non-empty prefix of the range, at most [destLen] bytes. *)
Lemma memReader_Read_spec m destLen addr count :
  mem_wf m -> 0 < destLen -> is_word addr -> 0 < count -> addr + count < 2 ^ WordSize ->
  exists n m', memReader_Read destLen (mkMemReader addr count) m
      = Ok (Some (fbytes (mem_byte m) addr (Z.to_nat n), mkMemReader (addr + n) (count - n)), m') /\
    0 < n <= count /\ same_store m m' /\ mem_wf m'.
Proof.
  intros Hw Hdst Ha Hc Hend. destruct Ha as [Ha0 Ha1].
  unfold memReader_Read. cbn [mr_addr mr_count].
  destruct (Z.eqb_spec count 0) as [? | _]; [lia |].
  assert (wadd addr count = addr + count) as -> by (apply wrap_small; unfold in_range; lia).
  set (k := ushr addr PageAddrSize). set (start := addr .& PageAddrMask).
  pose proof (page_split addr) as Hs1. fold k start in Hs1.
  pose proof (page_split (addr + count)) as Hs2.
  pose proof (page_offset_range addr) as Ho1. fold start in Ho1.
  pose proof (page_offset_range (addr + count)) as Ho2.
  set (k2 := ushr (addr + count) PageAddrSize) in *. set (o2 := (addr + count) .& PageAddrMask) in *.
  set (end_ := if k =? k2 then o2 else PageSize).
  assert (start < end_ <= PageSize /\ end_ - start <= count) as [He Hec].
  { unfold end_. destruct (Z.eqb_spec k k2); [lia |]. assert (k < k2) by nia. nia. }
  destruct (PageLookup_spec m k Hw (page_key_range addr (conj Ha0 Ha1))) as (m1 & Hl & Hs & Hw1).
  set (n := Z.min destLen (end_ - start)).
  exists n, m1. split; [| split; [lia | done]].
  rewrite (ST_bind_run _ _ _ _ _ Hl).
  rewrite (ST_bind_run _ _ _ (fbytes (mem_byte m) addr (Z.to_nat (end_ - start))) m1).
  - unfold mret, ST_ret. rewrite take_fbytes.
    replace (Nat.min (Z.to_nat destLen) (Z.to_nat (end_ - start))) with (Z.to_nat n) by lia.
    unfold zlen. rewrite length_fbytes, Z2Nat.id by lia. do 5 f_equal.
    + apply wrap_small. unfold in_range. lia.
    + apply wrap_small. unfold in_range. lia.
  - destruct (pageTable m !! k) as [r |] eqn:Er.
    + rewrite bool_decide_true by done. destruct (wf_refs m Hw _ _ Er) as [p Hp].
      rewrite (ST_bind_run _ _ _ (r, p) m1) by (apply deref_ok; by rewrite (proj1 (proj2 Hs))).
      destruct (Z.ltb_spec end_ start); [lia |].
      rewrite (page_slice m k start end_ r p) by (done || lia). by rewrite <- Hs1.
    + rewrite bool_decide_false by (intros [? ?]; done).
      assert (wsub end_ start = end_ - start) as ->.
      { apply wrap_small. unfold in_range. pose proof WordSize_page.
        assert (1 <= MaxPageCount) by (destruct A; done). nia. }
      destruct (Z.leb_spec (2 ^ 63) (end_ - start)) as [Hbig | _].
      { change PageSize with 4096 in *. change (2 ^ 63) with 9223372036854775808 in Hbig. lia. }
      rewrite fbytes_zero; [done |]. intros j Hj. apply mem_byte_no_page.
      rewrite (page_of _ k (start + j)); [done | lia | lia].
Qed.

Lemma ReadAll_loop_spec fuel bufLen addr count m acc :
  mem_wf m -> 0 < bufLen -> is_word addr -> 0 <= count -> addr + count < 2 ^ WordSize ->
  (Z.to_nat count < fuel)%nat ->
  exists m', ReadAll_loop fuel bufLen (mkMemReader addr count) acc m
      = Ok (acc ++ fbytes (mem_byte m) addr (Z.to_nat count), m') /\ same_store m m' /\ mem_wf m'.
Proof.
  revert addr count m acc. induction fuel as [|fuel IH]; intros addr count m acc Hw Hb Ha Hc Hend Hf; [lia |].
  cbn [ReadAll_loop]. destruct (Z.eqb_spec count 0) as [-> | Hne].
  - exists m. rewrite (ST_bind_run _ _ _ None m) by done. split; [by rewrite app_nil_r | done].
  - destruct (memReader_Read_spec m bufLen addr count Hw Hb Ha) as (n & m1 & R & Hn & Hs & Hw1);
      [lia | done |].
    rewrite (ST_bind_run _ _ _ _ _ R).
    destruct (IH (addr + n) (count - n) m1 (acc ++ fbytes (mem_byte m) addr (Z.to_nat n)))
      as (m2 & R2 & Hs2 & Hw2); try done; try lia.
    { unfold is_word, in_range in *. lia. }
    exists m2. split; [| split; [by eapply same_store_trans | done]]. rewrite R2. do 2 f_equal.
    rewrite <- app_assoc. f_equal.
    replace (Z.to_nat count) with (Z.to_nat n + Z.to_nat (count - n))%nat by lia.
    rewrite fbytes_app, Z2Nat.id by lia. f_equal. apply fbytes_ext. intros k Hk.
    by apply mem_byte_same_store.
Qed.

Lemma ReadAll_spec m bufLen addr count :
  mem_wf m -> 0 < bufLen -> is_word addr -> 0 <= count -> addr + count < 2 ^ WordSize ->
  exists m', ReadAll bufLen (ReadMemoryRange addr count) m
      = Ok (fbytes (mem_byte m) addr (Z.to_nat count), m') /\ same_store m m' /\ mem_wf m'.
Proof. intros. apply (ReadAll_loop_spec _ _ _ _ _ []); try done. cbn. lia. Qed.

End ReadRange.

(** No node of the index holds a hash, as in a memory whose root was never
    asked for. *)
Definition no_cached (m : Memory) : Prop := forall g v, nodes m !! g <> Some (Some v).

Section WriteRange.
Context {A : Arch} {K : Keccak}.

Lemma NewMemory_no_cached : no_cached NewMemory.
Proof. intros g v. cbn. by rewrite lookup_empty. Qed.

Lemma alloc_no_cached k m : no_cached m -> no_cached (alloc_mem k m).
Proof. intros H g v. cbn. rewrite lookup_clear_nodes. case_decide; [done | apply H]. Qed.

Lemma write_bytes_app f a l1 l2 b :
  write_bytes (write_bytes f a l1) (a + zlen l1) l2 b = write_bytes f a (l1 ++ l2) b.
Proof.
  unfold write_bytes, zlen, list_byte. rewrite length_app, Nat2Z.inj_add.
  repeat case_decide; try lia; try done.
  - rewrite lookup_app_r by lia. do 2 f_equal. lia.
  - by rewrite lookup_app_l by lia.
Qed.

Lemma write_bytes_nil f a b : write_bytes f a [] b = f b.
Proof. unfold write_bytes. rewrite decide_False; [done |]. unfold zlen. cbn. lia. Qed.

(** What one write of the loop establishes. *)
Definition range_written (m : Memory) (a : Z) (bs : list Z) (m' : Memory) : Prop :=
  mem_wf m' /\ (forall b, mem_byte m' b = write_bytes (mem_byte m) a bs b) /\
  (merkle_ok m -> no_cached m -> merkle_ok m' /\ no_cached m').

Lemma range_written_trans m1 m2 m3 a l1 l2 :
  range_written m1 a l1 m2 -> range_written m2 (a + zlen l1) l2 m3 ->
  range_written m1 a (l1 ++ l2) m3.
Proof.
  intros (W2 & B2 & M2) (W3 & B3 & M3). split; [done |]. split.
  - intros b. rewrite B3, <- write_bytes_app. by apply write_bytes_ext.
  - intros Hm Hn. destruct (M2 Hm Hn). auto.
Qed.

(** One round of the loop: look up or allocate the page, invalidate it, copy
    the chunk. *)
Lemma write_round {B} (k : Memory -> outcome (B * Memory)) m a bs :
  mem_wf m -> is_word a -> bytes_ok bs -> a .& PageAddrMask + zlen bs <= PageSize ->
  exists m', range_written m a bs m' /\
    (po ← PageLookup (ushr a PageAddrSize);
     p ← (if negb po.2 then AllocPage (ushr a PageAddrSize) else mret po.1);
     ip ← deref p;
     modify (set_page ip.1 (set_Data (splice (a .& PageAddrMask) bs (Data (Page.InvalidateFull ip.2)))
                              (Page.InvalidateFull ip.2))) ;; k) m = k m'.
Proof.
  intros Hw Hword Hbs Hl. pose proof (page_key_range a Hword) as Hkey.
  pose proof (page_offset_range a) as Ho.
  destruct (PageLookup_spec m (ushr a PageAddrSize) Hw Hkey) as (m1 & R & Hs & Hw1).
  rewrite (ST_bind_run _ _ _ _ _ R). cbn [fst snd].
  assert (Hb1 : forall b, mem_byte m1 b = mem_byte m b) by (intros; by apply mem_byte_same_store).
  pose proof (merkle_ok_same_store m m1 Hs) as Hmk1.
  assert (no_cached m -> no_cached m1) as Hnc by (unfold no_cached; by rewrite (proj1 Hs)).
  replace (pageTable m) with (pageTable m1) by apply Hs. clear R Hs.
  destruct (pageTable m1 !! ushr a PageAddrSize) as [r |] eqn:Er.
  - rewrite bool_decide_true by done. cbn [negb]. erewrite ST_bind_run; [| done].
    destruct (wf_refs m1 Hw1 _ _ Er) as [p Hp]. pose proof (wf_pages m1 Hw1 r p Hp) as Hpw.
    rewrite (ST_bind_run _ _ _ _ _ (deref_ok m1 r p Hp)). cbn [fst snd].
    pose proof (InvalidateFull_wf p Hpw) as Hpi.
    eexists. split; [| erewrite ST_bind_run; done]. split; [| split].
    + apply set_page_wf; [done |]. apply splice_page_wf; [done | done | lia | done].
    + intros b. rewrite <- (write_bytes_ext (mem_byte m1)) by done.
      apply write_chunk_byte; try done. intros off Hoff. by apply (page_data_eq m1 _ r p).
    + intros Hm Hn. split; [| by apply Hnc].
      apply (merkle_write _ (ushr a PageAddrSize)); try done; auto.
      * apply invalid_page_coherent. intros j. apply InvalidateFull_invalid.
      * intros g Hg. destruct (mk_anc m1 (Hmk1 Hm) _ _ g Er Hg) as [[v |] Hv]; [| done].
        by apply Hnc in Hv.
  - rewrite bool_decide_false by (intros [? ?]; done). cbn [negb].
    rewrite (ST_bind_run _ _ _ _ _ (AllocPage_eq _ _)).
    rewrite (ST_bind_run _ _ _ _ _ (deref_ok _ _ _ (alloc_new_page _ _))). cbn [fst snd].
    destruct (write_fresh_page m1 a bs) as (Hw2 & Hb2 & Hm2); try done.
    eexists. split; [| erewrite ST_bind_run; done]. split; [exact Hw2 | split].
    + intros b. rewrite <- (write_bytes_ext (mem_byte m1)) by done. apply Hb2.
    + intros Hm Hn. split; [auto |]. apply (alloc_no_cached _ m1). auto.
Qed.

(** A reader that does not join its end to its last bytes delivers a
    non-empty prefix. *)
Lemma Reader_Read_spec n r :
  0 < n -> rd_joint r = false -> rd_data r <> [] ->
  exists k, let r' := mkReader (drop k (rd_data r)) (tail (rd_sched r)) (rd_end r) false in
    Reader_Read n r = (take k (rd_data r), None, r') /\
    (0 < k)%nat /\ Z.of_nat k <= n.
Proof.
  intros Hn Hj Hd. unfold Reader_Read. rewrite Hj. destruct (rd_data r) as [|b bs]; [done |].
  eexists. split; [done |]. destruct (rd_sched r); cbn [length]; lia.
Qed.

Lemma SetMemoryRange_loop_spec fuel addr r m :
  mem_wf m -> bytes_ok (rd_data r) -> rd_joint r = false -> rd_end r = None ->
  (rd_data r <> [] -> is_word addr /\ addr + zlen (rd_data r) <= 2 ^ WordSize) ->
  (length (rd_data r) < fuel)%nat ->
  exists m', SetMemoryRange_loop fuel addr r m = Ok ((), m') /\ range_written m addr (rd_data r) m'.
Proof.
  revert addr r m. induction fuel as [|fuel IH]; intros addr r m Hw Hb Hj He Ha Hf; [lia |].
  cbn [SetMemoryRange_loop]. destruct (decide (rd_data r = [])) as [E | E].
  - unfold Reader_Read. rewrite E, He. exists m. split; [done |]. split; [done |]. split; [| done].
    intros b. by rewrite write_bytes_nil.
  - destruct (Ha E) as [Hword Hend]. pose proof (page_offset_range addr) as Ho.
    destruct (Reader_Read_spec (PageSize - addr .& PageAddrMask) r) as (k & -> & Hk & Hkn); [lia | done | done |].
    set (r' := mkReader _ _ _ _). set (chunk := take k (rd_data r)).
    assert (zlen chunk <= Z.of_nat k) as Hcl by (unfold zlen, chunk; rewrite length_take; lia).
    destruct (write_round (SetMemoryRange_loop fuel (wadd addr (zlen chunk)) r') m addr chunk)
      as (m1 & W1 & R1); try done; [by apply Forall_take | lia |].
    assert (zlen chunk + zlen (rd_data r') = zlen (rd_data r)) as Hlen
      by (unfold zlen, chunk, r'; cbn; rewrite length_take, length_drop; lia).
    destruct (IH (wadd addr (zlen chunk)) r' m1) as (m2 & R2 & W2); try done.
    + apply W1.
    + by apply Forall_drop.
    + intros Hne. assert (0 < zlen (rd_data r')) by (unfold zlen; destruct (rd_data r'); [done | cbn; lia]).
      unfold wadd, uadd. rewrite (wrap_small WordSize) by (unfold is_word, in_range, zlen in *; lia).
      unfold is_word, in_range, zlen in *. lia.
    + assert (length (rd_data r) <> 0%nat) by (by destruct (rd_data r)).
      unfold r'. cbn. rewrite length_drop. lia.
    + exists m2. split.
      { rewrite <- R2, <- R1. unfold mbind, ST_bind.
        destruct (PageLookup _ m) as [[[p ok] m'] | |]; try done. cbn [fst snd].
        destruct ((if negb ok then AllocPage (ushr addr PageAddrSize) else mret p) m') as [[p' m''] | |]; try done.
        by destruct (deref p' m'') as [[[i pg] m3] | |]. }
      replace (rd_data r) with (chunk ++ rd_data r') by apply take_drop.
      eapply range_written_trans; [done |]. destruct (decide (rd_data r' = [])) as [E' | E'].
      * rewrite E' in *. destruct W2 as (? & Hb2 & ?). split; [done | split; [| done]].
        intros b. rewrite Hb2. by rewrite !write_bytes_nil.
      * assert (0 < zlen (rd_data r')) by (unfold zlen; destruct (rd_data r'); [done | cbn; lia]).
        replace (addr + zlen chunk) with (wadd addr (zlen chunk)); [done |].
        apply wrap_small. unfold is_word, in_range, zlen in *. lia.
Qed.

Lemma SetMemoryRange_spec m addr r :
  mem_wf m -> bytes_ok (rd_data r) -> rd_joint r = false -> rd_end r = None ->
  is_word addr -> addr + zlen (rd_data r) <= 2 ^ WordSize ->
  exists m', SetMemoryRange addr r m = Ok ((), m') /\ range_written m addr (rd_data r) m'.
Proof. intros. apply SetMemoryRange_loop_spec; auto. Qed.

(** A range that stays in an existing page does not touch the node index. *)
Lemma SetMemoryRange_keeps_nodes m addr data r0 u m' :
  mem_wf m -> is_word addr -> pageTable m !! ushr addr PageAddrSize = Some r0 ->
  data <> [] -> zlen data <= PageSize - (addr .& PageAddrMask) ->
  SetMemoryRange addr (bytes_NewReader data) m = Ok (u, m') -> nodes m' = nodes m.
Proof.
  intros Hw Ha Hp Hd Hl R. unfold SetMemoryRange, bytes_NewReader in R. cbn [rd_data] in R.
  destruct data as [|x data]; [done |]. cbn [length] in R.
  cbn [SetMemoryRange_loop] in R. cbn [Reader_Read rd_data rd_sched rd_joint rd_end andb tail] in R.
  rewrite Nat.min_r, drop_ge, take_ge in R by (unfold zlen in Hl; cbn [length] in *; lia).
  destruct (PageLookup_spec m _ Hw (page_key_range _ Ha)) as (m1 & Hlk & Hs & Hw1).
  rewrite (ST_bind_run _ _ _ _ _ Hlk), Hp in R. cbn [bool_decide negb] in R.
  apply ST_bind_ok in R as (p & m2 & R1 & R).
  rewrite bool_decide_eq_true_2 in R1 by eauto. injection R1 as <- <-.
  apply ST_bind_ok in R as ([i pg] & m3 & R1 & R). apply deref_inv in R1 as (_ & _ & ->).
  apply ST_bind_ok in R as ([] & m4 & R1 & R). injection R1 as <-.
  injection R as _ <-. cbn. apply Hs.
Qed.

End WriteRange.

(** Copies and the binary format of the memory: both rebuild a memory with the
    same pages and a coherent index. *)

(** The data of page [k], if it is allocated. *)
Definition page_at (m : Memory) (k : Z) : option (list Z) :=
  Data <$> (pageTable m !! k ≫= (fun r => pages m !! r)).

(** Two memories with the same allocated pages. *)
Definition same_pages (m m' : Memory) : Prop := forall k, page_at m' k = page_at m k.

#[export] Instance same_pages_equiv : Equivalence same_pages.
Proof. split; unfold same_pages; [done | intros x y H k; by rewrite H | intros x y z H1 H2 k; by rewrite H2]. Qed.

(** The bytes of a memory are those of its pages. *)
#[export] Instance mem_byte_proper : Proper (same_pages ==> eq ==> eq) mem_byte.
Proof.
  intros m m' H a ? <-. specialize (H (ushr a PageAddrSize)). unfold page_at, mem_byte in *.
  destruct (pageTable m !! _ ≫= _), (pageTable m' !! _ ≫= _); cbn in H; congruence.
Qed.

Definition load_page {A : Arch} (m : Memory) (kd : Z * list Z) : Memory :=
  match AllocPage kd.1 m with
  | Ok (_, m') => set_page (length (pages m)) (set_Data kd.2 new_page) m'
  | _ => m
  end.

Definition load_pages {A : Arch} (l : list (Z * list Z)) (m : Memory) : Memory := fold_left load_page l m.

(** A page image that can be loaded. *)
Definition image_ok {A : Arch} (kd : Z * list Z) : Prop :=
  0 <= kd.1 < MaxPageCount /\ zlen kd.2 = PageSize /\ bytes_ok kd.2.

(** [l] lists the pages of [m], once each. *)
Definition lists_pages (m : Memory) (l : list (Z * list Z)) : Prop :=
  NoDup l.*1 /\ forall k d, (k, d) ∈ l <-> page_at m k = Some d.

Section Codec.
Context {A : Arch} {K : Keccak}.

Lemma page_at_load m k d k' :
  mem_wf m -> page_at (load_page m (k, d)) k' = if decide (k = k') then Some d else page_at m k'.
Proof.
  intros Hw. unfold load_page. rewrite AllocPage_eq. cbn [fst snd].
  unfold page_at, set_page. cbn [pageTable pages alloc_mem].
  rewrite lookup_insert. case_decide as E; cbn.
  - rewrite list_lookup_insert_eq by (rewrite length_app; cbn; lia). done.
  - destruct (pageTable m !! k') as [r |] eqn:Er; [| done]. cbn.
    destruct (wf_refs m Hw k' r Er) as [p Hp]. apply lookup_lt_Some in Hp as Hlt.
    rewrite list_lookup_insert_ne by lia. by rewrite lookup_app_l.
Qed.

Lemma page_at_None m k : mem_wf m -> page_at m k = None -> pageTable m !! k = None.
Proof.
  intros Hw. unfold page_at. destruct (pageTable m !! k) as [r |] eqn:E; [| done]. cbn.
  destruct (wf_refs m Hw k r E) as [p ->]. done.
Qed.

Lemma load_page_ok m k d :
  mem_wf m -> merkle_ok m -> image_ok (k, d) -> page_at m k = None ->
  mem_wf (load_page m (k, d)) /\ merkle_ok (load_page m (k, d)).
Proof.
  intros Hw Hm (Hk & Hl & Hb) Hn. cbn in *. apply page_at_None in Hn; [| done].
  unfold load_page. rewrite AllocPage_eq. cbn [fst snd].
  pose proof (alloc_wf k m Hw Hk Hn) as Hwa. destruct (alloc_merkle m k Hw Hm Hk Hn) as [Hma Hga].
  assert (page_wf (set_Data d new_page)) as Hp by (destruct new_page_wf; by split).
  split; [by apply set_page_wf |]. apply (merkle_write _ k); try done.
  - apply alloc_table.
  - apply invalid_page_coherent. intros j. apply new_page_invalid.
Qed.

Lemma load_pages_ok l m :
  mem_wf m -> merkle_ok m -> Forall image_ok l -> NoDup l.*1 ->
  (forall k, k ∈ l.*1 -> page_at m k = None) ->
  mem_wf (load_pages l m) /\ merkle_ok (load_pages l m) /\
  (forall k d, (k, d) ∈ l -> page_at (load_pages l m) k = Some d) /\
  (forall k, k ∉ l.*1 -> page_at (load_pages l m) k = page_at m k).
Proof.
  revert m. induction l as [|[k d] l IH]; intros m Hw Hm Hi Hd Hn; cbn [load_pages fold_left].
  { split; [done | split; [done | split; [| done]]]. intros k d []%elem_of_nil. }
  cbn in Hd. apply NoDup_cons in Hd as [Hnk Hd]. apply Forall_cons in Hi as [Hk Hi].
  destruct (load_page_ok m k d) as [Hw1 Hm1]; try done; [apply Hn, list_elem_of_here |].
  destruct (IH (load_page m (k, d))) as (Hw2 & Hm2 & H1 & H2); try done.
  { intros k' Hk'. rewrite page_at_load by done. rewrite decide_False by congruence.
    apply Hn. by apply list_elem_of_further. }
  split; [done | split; [done | split]].
  - intros k' d' [[= -> ->] | Hin]%elem_of_cons; [| by apply H1].
    rewrite H2 by done. rewrite page_at_load by done. by rewrite decide_True.
  - intros k' [Hne Hnot]%not_elem_of_cons. rewrite H2 by done. rewrite page_at_load by done.
    by rewrite decide_False.
Qed.

Lemma lists_pages_image m l : mem_wf m -> lists_pages m l -> Forall image_ok l.
Proof.
  intros Hw [_ Hl]. apply Forall_forall. intros [k d] Hin%Hl. unfold page_at in Hin.
  destruct (pageTable m !! k) as [r |] eqn:Er; [| done]. cbn in Hin.
  destruct (pages m !! r) as [p |] eqn:Ep; [| done]. injection Hin as <-.
  destruct (wf_pages m Hw r p Ep) as [Hd Hb _ _]. split; [by eapply wf_keys | done].
Qed.

(** Loading the pages of [m] into a fresh memory rebuilds them. *)
Lemma load_pages_rebuild m l :
  mem_wf m -> lists_pages m l ->
  let m' := load_pages l NewMemory in same_pages m m' /\ mem_wf m' /\ merkle_ok m'.
Proof.
  intros Hw Hl. pose proof (lists_pages_image m l Hw Hl) as Hi. destruct Hl as [Hd Hl].
  destruct (load_pages_ok l NewMemory NewMemory_wf NewMemory_merkle) as (Hw' & Hm' & H1 & H2); try done.
  split; [| done]. intros k. destruct (page_at m k) as [d |] eqn:E.
  - by apply H1, Hl.
  - rewrite H2; [done |]. intros ([k' d] & -> & Hin)%list_elem_of_fmap. apply Hl in Hin. cbn in *. congruence.
Qed.

(** *** Copy *)

Definition table_images (m : Memory) : list (Z * list Z) :=
  (fun '(k, r) => (k, from_option Data [] (pages m !! r))) <$> map_to_list (pageTable m).

Lemma table_images_lists m : mem_wf m -> lists_pages m (table_images m).
Proof.
  intros Hw. split.
  - unfold table_images. rewrite <- list_fmap_compose.
    rewrite (list_fmap_ext _ fst); [apply NoDup_fst_map_to_list | by intros ? [? ?]].
  - intros k d. unfold table_images, page_at. rewrite list_elem_of_fmap. split.
    + intros ([k' r] & [= -> ->] & Hin%elem_of_map_to_list). rewrite Hin. cbn.
      destruct (wf_refs m Hw k' r Hin) as [p ->]. done.
    + destruct (pageTable m !! k) as [r |] eqn:E; [| done]. cbn. intros H.
      exists (k, r). split; [| by apply elem_of_map_to_list].
      destruct (pages m !! r); [by injection H as <- | done].
Qed.

Lemma Copy_spec m :
  mem_wf m -> exists m', Copy m = Ok m' /\ same_pages m m' /\ mem_wf m' /\ merkle_ok m'.
Proof.
  intros Hw. pose proof (load_pages_rebuild m _ Hw (table_images_lists m Hw)) as H.
  eexists. split; [| exact H]. unfold Copy, table_images.
  assert (Hr : forall k r, (k, r) ∈ map_to_list (pageTable m) -> is_Some (pages m !! r))
    by (intros k r Hin%elem_of_map_to_list; by eapply wf_refs).
  enough (forall m0, forM (map_to_list (pageTable m))
      (fun '(k, r) => match pages m !! r with
         | Some page => alloc_with_data k (Data page)
         | None => panic "nil pointer dereference"
         end) m0 = Ok ((), load_pages (table_images m) m0)) as -> by done.
  unfold table_images. clear H. induction (map_to_list (pageTable m)) as [|[k r] l IH]; intros m0; [done |].
  cbn [forM]. destruct (Hr k r (list_elem_of_here _ _)) as [p Hp]. rewrite Hp.
  erewrite ST_bind_run.
  - rewrite IH by (intros; eapply Hr; by apply list_elem_of_further). cbn. by rewrite Hp.
  - unfold alloc_with_data. rewrite (ST_bind_run _ _ _ _ _ (AllocPage_eq _ _)).
    by rewrite (ST_bind_run _ _ _ _ _ (deref_ok _ _ _ (alloc_new_page _ _))).
Qed.

(** *** Serialization *)

Definition sorted_images (m : Memory) : list (Z * list Z) :=
  (fun k => (k, default [] (page_at m k))) <$> page_indexes m.

Definition encode_image (kd : Z * list Z) : list Z := WriteUInt WordSizeBytes kd.1 ++ kd.2.

Lemma page_indexes_perm m : page_indexes m ≡ₚ (map_to_list (pageTable m)).*1.
Proof. apply merge_sort_Permutation. Qed.

Lemma elem_of_page_indexes m k : k ∈ page_indexes m <-> is_Some (pageTable m !! k).
Proof.
  rewrite page_indexes_perm, list_elem_of_fmap. split.
  - intros ([k' r] & -> & Hin%elem_of_map_to_list). cbn. rewrite Hin. eauto.
  - intros [r Hr]. exists (k, r). split; [done | by apply elem_of_map_to_list].
Qed.

Lemma sorted_images_lists m : mem_wf m -> lists_pages m (sorted_images m).
Proof.
  intros Hw. split.
  - unfold sorted_images. rewrite <- list_fmap_compose.
    rewrite (list_fmap_ext _ id), list_fmap_id by done.
    rewrite page_indexes_perm. apply NoDup_fst_map_to_list.
  - intros k d. unfold sorted_images. rewrite list_elem_of_fmap. split.
    + intros (k' & [= <- ->] & [r Hr]%elem_of_page_indexes). unfold page_at. rewrite Hr. cbn.
      destruct (wf_refs m Hw k r Hr) as [p ->]. done.
    + intros Hp. exists k. rewrite Hp. split; [done |]. apply elem_of_page_indexes.
      unfold page_at in Hp. by destruct (pageTable m !! k).
Qed.

Lemma Serialize_images m :
  Memory_Serialize m = WriteUInt WordSizeBytes (Word (PageCount m)) ++ concat (encode_image <$> sorted_images m).
Proof.
  unfold Memory_Serialize, sorted_images. do 2 f_equal. rewrite <- list_fmap_compose.
  apply list_fmap_ext. intros _ k _. unfold serialize_page, encode_image, page_at. cbn.
  by destruct (pageTable m !! k ≫= _).
Qed.

Lemma image_word kd : image_ok kd -> in_range (8 * WordSizeBytes) kd.1.
Proof.
  intros (Hk & _). rewrite <- WordSizeBytes_eq. unfold in_range. split; [lia |].
  apply Z.lt_trans with MaxPageCount; [lia |]. destruct A; reflexivity.
Qed.

Lemma deserialize_pages_spec l m rest :
  Forall image_ok l ->
  deserialize_pages (length l) m (concat (encode_image <$> l) ++ rest) = Ok (load_pages l m, rest).
Proof.
  intros Hi. revert m. induction Hi as [|[k d] l Hk Hl IH]; intros m; [done |].
  cbn [length deserialize_pages fmap list_fmap concat]. unfold encode_image at 1. cbn [fst snd].
  rewrite <- !app_assoc. eapply decodes_bind.
  - apply uint_decodes. destruct A; vm_compute; congruence.
  - exact (image_word _ Hk).
  - erewrite ST_bind_run; [| unfold lift; by rewrite AllocPage_eq].
    cbv beta iota. erewrite ST_bind_run; [| apply ReadFull_app; apply Hk].
    erewrite ST_bind_run; [| unfold lift; by rewrite (deref_ok _ _ _ (alloc_new_page _ _))].
    apply IH.
Qed.

(** A well-formed memory has at most [MaxPageCount] pages. *)
Lemma PageCount_bound m : mem_wf m -> 0 <= PageCount m <= MaxPageCount.
Proof.
  intros Hw. unfold PageCount. split; [lia |].
  rewrite <- (length_map_to_list (pageTable m)), <- (length_fmap fst).
  assert ((map_to_list (pageTable m)).*1 ⊆+ seqZ 0 MaxPageCount) as Hs.
  { apply NoDup_submseteq; [apply NoDup_fst_map_to_list |].
    intros k ([k' r] & -> & Hin%elem_of_map_to_list)%list_elem_of_fmap.
    apply elem_of_seqZ. cbn. apply wf_keys in Hin; [lia | done]. }
  apply submseteq_length in Hs. rewrite length_seqZ in Hs.
  assert (0 <= MaxPageCount) by (destruct A; done). lia.
Qed.

Lemma length_sorted_images m : Z.of_nat (length (sorted_images m)) = PageCount m.
Proof.
  unfold sorted_images, PageCount. rewrite length_fmap, page_indexes_perm, length_fmap.
  by rewrite length_map_to_list.
Qed.

Lemma Memory_Deserialize_spec m rest :
  mem_wf m -> exists m', Memory_Deserialize NewMemory (Memory_Serialize m ++ rest) = Ok (m', rest) /\
    same_pages m m' /\ mem_wf m' /\ merkle_ok m'.
Proof.
  intros Hw. pose proof (sorted_images_lists m Hw) as Hl.
  pose proof (load_pages_rebuild m _ Hw Hl) as H. eexists. split; [| exact H].
  rewrite Serialize_images, <- app_assoc. unfold Memory_Deserialize.
  pose proof (PageCount_bound m Hw) as Hc.
  assert (is_word (PageCount m)) as Hcw.
  { unfold is_word, in_range. split; [lia |]. apply Z.le_lt_trans with MaxPageCount; [lia |].
    destruct A; reflexivity. }
  rewrite Word_id by done. eapply decodes_bind.
  - apply uint_decodes. destruct A; vm_compute; congruence.
  - rewrite <- WordSizeBytes_eq. exact Hcw.
  - rewrite <- length_sorted_images, Nat2Z.id. apply deserialize_pages_spec.
    by eapply lists_pages_image.
Qed.

End Codec.
