(* ===== verification/InsnProps.v ===== *)
(** The bit manipulation of the instruction semantics in terms of integers and
    bytes: sign extension, sub-words, unaligned accesses, leading zeros. *)
From Stdlib Require Import ZArith Lia.
From stdpp Require Import base gmap list strings numbers.
From S2P Require Import Prelude Arch Insn Codec Memory Exec.

(** ** Bit fields *)

Lemma ones_range w : 0 <= w -> in_range w (Z.ones w).
Proof. intros. rewrite Z.ones_equiv. unfold in_range. pose proof (pow2_pos w). lia. Qed.

Lemma mod_range w x : 0 <= w -> in_range w (x mod 2 ^ w).
Proof. intros. by apply Z.mod_pos_bound, pow2_pos. Qed.

(** Replacing the [l]-bit field of [x] at bit [b]. *)
Lemma insert_field x v b l :
  0 <= b -> 0 <= l -> in_range l v ->
  Z.shiftl v b .| Z.ldiff x (Z.shiftl (Z.ones l) b)
  = x / 2 ^ (b + l) * 2 ^ (b + l) + v * 2 ^ b + x mod 2 ^ b.
Proof.
  intros Hb Hl Hv.
  replace (x / 2 ^ (b + l) * 2 ^ (b + l) + v * 2 ^ b + x mod 2 ^ b)
    with ((x / 2 ^ (b + l) * 2 ^ l + v) * 2 ^ b + x mod 2 ^ b)
    by (rewrite (Z.add_comm b l), Z.pow_add_r by lia; ring).
  rewrite <- !lor_shiftl_add by (done || apply mod_range; done).
  rewrite <- Z.shiftr_div_pow2 by lia.
  apply Z.bits_inj'. intros i Hi. rewrite !Z.lor_spec, Z.ldiff_spec, !Z.shiftl_spec by lia.
  destruct (decide (i < b)) as [H1 | H1].
  - rewrite !(Z.testbit_neg_r _ (i - b)) by lia. rewrite Z.mod_pow2_bits_low by lia.
    by rewrite andb_true_r.
  - rewrite Z.mod_pow2_bits_high by lia. rewrite orb_false_r, Z.lor_spec, Z.shiftl_spec by lia.
    destruct (decide (i < b + l)) as [H2 | H2].
    + rewrite Z.ones_spec_low, andb_false_r, orb_false_r by lia.
      by rewrite (Z.testbit_neg_r _ (i - b - l)) by lia.
    + rewrite Z.ones_spec_high, andb_true_r by lia. rewrite Z.shiftr_spec by lia.
      rewrite (in_range_testbit l v (i - b)) by (done || lia). rewrite orb_false_r.
      cbn [orb]. f_equal. lia.
Qed.

Lemma ldiff_unot w x m : 0 <= w -> in_range w x -> unot w m .& x = Z.ldiff x m.
Proof.
  intros Hw Hx. apply Z.bits_inj'. intros i Hi. rewrite Z.land_spec, Z.ldiff_spec.
  unfold unot, wrap. destruct (decide (i < w)).
  - rewrite Z.mod_pow2_bits_low, Z.lnot_spec by lia. apply andb_comm.
  - rewrite (in_range_testbit w x i) by (done || lia). apply andb_false_r.
Qed.

(** ** Byte strings as big-endian numbers *)

Lemma be_decode_split (l1 l2 : list Z) :
  bytes_ok l2 ->
  be_decode (l1 ++ l2) / 2 ^ (8 * zlen l2) = be_decode l1 /\
  be_decode (l1 ++ l2) mod 2 ^ (8 * zlen l2) = be_decode l2.
Proof.
  intros Hl. rewrite be_decode_app. fold (zlen l2). pose proof (be_decode_range l2 Hl) as [H1 H2].
  fold (zlen l2) in H2. split.
  - rewrite Z.div_add_l, Z.div_small by lia. lia.
  - rewrite Z.add_comm, Z_mod_plus_full. apply Z.mod_small. lia.
Qed.

Lemma be_decode_drop (l : list Z) k :
  bytes_ok l -> 0 <= k <= zlen l -> be_decode l mod 2 ^ (8 * (zlen l - k)) = be_decode (drop (Z.to_nat k) l).
Proof.
  intros Hb Hk. pose proof (be_decode_split (take (Z.to_nat k) l) (drop (Z.to_nat k) l)) as H.
  rewrite take_drop in H. unfold zlen in *. rewrite length_drop in H.
  replace (8 * (Z.of_nat (length l) - k)) with (8 * Z.of_nat (length l - Z.to_nat k)) by lia.
  apply H. by apply Forall_drop.
Qed.

Lemma be_decode_take (l : list Z) k :
  bytes_ok l -> 0 <= k <= zlen l -> be_decode l / 2 ^ (8 * (zlen l - k)) = be_decode (take (Z.to_nat k) l).
Proof.
  intros Hb Hk. pose proof (be_decode_split (take (Z.to_nat k) l) (drop (Z.to_nat k) l)) as H.
  rewrite take_drop in H. unfold zlen in *. rewrite length_drop in H.
  replace (8 * (Z.of_nat (length l) - k)) with (8 * Z.of_nat (length l - Z.to_nat k)) by lia.
  apply H. by apply Forall_drop.
Qed.

Lemma be_decode_slice (l : list Z) lo n :
  bytes_ok l -> 0 <= lo -> 0 <= n -> lo + n <= zlen l ->
  be_decode l / 2 ^ (8 * (zlen l - lo - n)) mod 2 ^ (8 * n) = be_decode (slice lo (lo + n) l).
Proof.
  intros Hb Hlo Hn Hl. replace (zlen l - lo - n) with (zlen l - (lo + n)) by lia.
  rewrite be_decode_take by (done || lia).
  set (t := take (Z.to_nat (lo + n)) l).
  assert (zlen t = lo + n) as Ht by (unfold zlen, t in *; rewrite length_take; lia).
  replace (8 * n) with (8 * (zlen t - lo)) by lia.
  rewrite be_decode_drop by (try (by apply Forall_take); lia).
  unfold slice, t. rewrite skipn_firstn_comm. do 2 f_equal. lia.
Qed.

Lemma be_decode_splice (l : list Z) lo v n :
  bytes_ok l -> 0 <= lo -> 0 <= n -> lo + n <= zlen l ->
  let b := 8 * (zlen l - lo - n) in
  be_decode (splice lo (be_encode (Z.to_nat n) v) l)
  = be_decode l / 2 ^ (b + 8 * n) * 2 ^ (b + 8 * n) + wrap (8 * n) v * 2 ^ b + be_decode l mod 2 ^ b.
Proof.
  intros Hb Hlo Hn Hl b. unfold splice. rewrite length_be_encode.
  replace (Z.to_nat lo + Z.to_nat n)%nat with (Z.to_nat (lo + n)) by lia.
  rewrite !be_decode_app, be_decode_encode, length_app, length_be_encode, length_drop.
  rewrite Z2Nat.id by lia.
  replace (8 * Z.of_nat (length l - Z.to_nat (lo + n))) with b by (unfold b, zlen in *; lia).
  replace (8 * Z.of_nat (Z.to_nat n + (length l - Z.to_nat (lo + n)))) with (b + 8 * n)
    by (unfold b, zlen in *; lia).
  rewrite <- be_decode_take, <- be_decode_drop by (done || lia).
  replace (8 * (zlen l - lo)) with (b + 8 * n) by (unfold b; lia).
  replace (8 * (zlen l - (lo + n))) with b by (unfold b; lia). ring.
Qed.

Section InsnProps.
Context {A : Arch}.

(** ** Sign extension *)

Lemma WordSize_ge : 32 <= WordSize.
Proof. destruct WordSize_cases; lia. Qed.

Lemma wsub_small x y : 0 <= y <= x -> is_word x -> wsub x y = x - y.
Proof. intros Hy [H1 H2]. apply wrap_small. unfold in_range. lia. Qed.

Lemma small_word x : 0 <= x < 2 ^ 32 -> is_word x.
Proof.
  intros Hx. apply (in_range_weaken 32); [pose proof WordSize_ge; lia | exact Hx].
Qed.

Lemma sign_mask idx : 1 <= idx <= WordSize -> wsub (wshl 1 idx) 1 = Z.ones idx.
Proof.
  intros Hi. rewrite Z.ones_equiv. unfold wsub, wshl, usub, ushl. rewrite Z.shiftl_1_l.
  destruct (decide (idx = WordSize)) as [-> | Hne].
  - unfold wrap. rewrite Z_mod_same_full. change (0 - 1) with (-1).
    symmetry. apply (Z.mod_unique _ _ (-1)); [| lia]. pose proof (pow2_pos WordSize WordSize_nonneg). lia.
  - assert (2 ^ idx < 2 ^ WordSize) by (apply Z.pow_lt_mono_r; lia).
    pose proof (pow2_pos idx ltac:(lia)).
    rewrite (wrap_small _ (2 ^ idx)), wrap_small by (unfold in_range; lia). lia.
Qed.

Lemma sign_fill idx :
  1 <= idx <= WordSize ->
  wshl (wsub (wshl 1 (wsub WordSize idx)) 1) idx = (2 ^ (WordSize - idx) - 1) * 2 ^ idx.
Proof.
  intros Hi. pose proof WordSize_ge.
  rewrite (wsub_small WordSize) by (try apply small_word; destruct WordSize_cases; lia).
  assert (0 < 2 ^ (WordSize - idx)) by (apply pow2_pos; lia).
  assert (2 ^ (WordSize - idx) < 2 ^ WordSize) by (apply Z.pow_lt_mono_r; lia).
  unfold wshl at 2, ushl. rewrite Z.shiftl_1_l, wrap_small by (unfold in_range; lia).
  rewrite wsub_small by (unfold is_word, in_range; lia).
  unfold wshl, ushl. rewrite Z.shiftl_mul_pow2 by lia. apply wrap_small. unfold in_range.
  assert (2 ^ WordSize = 2 ^ (WordSize - idx) * 2 ^ idx) by (rewrite <- Z.pow_add_r by lia; f_equal; lia).
  pose proof (pow2_pos idx ltac:(lia)). nia.
Qed.

Lemma SignExtend_spec dat idx : 1 <= idx <= WordSize -> SignExtend dat idx = Word (signed idx dat).
Proof.
  intros Hi. unfold SignExtend. rewrite sign_mask, sign_fill, land_ones_mod by lia.
  rewrite wsub_small by (try apply small_word; destruct WordSize_cases; lia).
  pose proof (mod_range idx dat ltac:(lia)) as Hm. unfold signed. fold (wrap idx dat) in *.
  assert (2 ^ idx = 2 * 2 ^ (idx - 1)) as Hp by (rewrite <- Z.pow_succ_r by lia; f_equal; lia).
  assert (2 ^ idx <= 2 ^ WordSize) by (apply Z.pow_le_mono_r; lia).
  assert (Hbit : (wrap idx dat <? 2 ^ (idx - 1)) = (ushr dat (idx - 1) .& 1 =? 0)).
  { replace (ushr dat (idx - 1) .& 1) with ((dat / 2 ^ (idx - 1)) mod 2)
      by (rewrite ushr_div by lia; symmetry; by apply (land_ones_mod _ 1)).
    unfold wrap. rewrite Hp at 1. rewrite (Z.mul_comm 2), Z.rem_mul_r by (try apply pow2_pos; lia).
    pose proof (Z.mod_pos_bound dat (2 ^ (idx - 1)) (pow2_pos (idx - 1) ltac:(lia))).
    pose proof (Z.mod_pos_bound (dat / 2 ^ (idx - 1)) 2 ltac:(lia)).
    destruct (Z.eqb_spec ((dat / 2 ^ (idx - 1)) mod 2) 0) as [-> | Hne];
      [apply Z.ltb_lt; lia | apply Z.ltb_ge; nia]. }
  rewrite <- Hbit. unfold in_range in Hm. destruct (Z.ltb_spec (wrap idx dat) (2 ^ (idx - 1))); cbn [negb].
  - symmetry. apply wrap_small. unfold in_range, wrap in *. lia.
  - rewrite Z.lor_comm, <- Z.shiftl_mul_pow2, lor_shiftl_add by (exact Hm || lia).
    fold (wrap idx dat). unfold Word, wrap at 2.
    assert (2 ^ WordSize = 2 ^ (WordSize - idx) * 2 ^ idx) by (rewrite <- Z.pow_add_r by lia; f_equal; lia).
    apply (Z.mod_unique _ _ (-1)); unfold wrap in *; lia.
Qed.

Lemma SignExtend_word dat idx : 1 <= idx <= WordSize -> is_word (SignExtend dat idx).
Proof. intros. rewrite SignExtend_spec by done. apply Word_word. Qed.

End InsnProps.

(** ** Sub-words *)

(** The sizes a sub-word access can have. *)
Definition sub_size {A : Arch} (n : Z) : Prop := n = 1 \/ n = 2 \/ n = 4 \/ (n = 8 /\ WordSize = 64).

(** The offset in its word of the aligned sub-word that holds [vaddr]. *)
Definition sub_off {A : Arch} (vaddr n : Z) : Z := vaddr mod WordSizeBytes - vaddr mod n.

Section SubWords.
Context {A : Arch}.

Lemma land_field x a b : 0 <= b <= a -> x .& (2 ^ a - 2 ^ b) = x mod 2 ^ a - x mod 2 ^ b.
Proof.
  intros Hab. replace (2 ^ a - 2 ^ b) with (Z.ldiff (Z.ones a) (Z.ones b)).
  - transitivity (Z.ldiff (x mod 2 ^ a) (Z.ones b)).
    + rewrite <- land_ones_mod by lia. apply Z.bits_inj'. intros i Hi.
      rewrite Z.land_spec, !Z.ldiff_spec, Z.land_spec. by rewrite andb_assoc.
    + rewrite Z.ldiff_ones_r, Z.shiftl_mul_pow2, Z.shiftr_div_pow2 by lia.
      pose proof (pow2_pos b ltac:(lia)). rewrite (Z.div_mod (x mod 2 ^ a) (2 ^ b)) at 2 by lia.
      assert ((x mod 2 ^ a) mod 2 ^ b = x mod 2 ^ b) as ->; [| ring].
      apply Z.bits_inj'. intros i Hi. destruct (decide (i < b)).
      * rewrite !Z.mod_pow2_bits_low by lia. done.
      * rewrite !Z.mod_pow2_bits_high by lia. done.
  - rewrite Z.ldiff_ones_r, Z.shiftl_mul_pow2, Z.shiftr_div_pow2, !Z.ones_equiv by lia.
    pose proof (pow2_pos b ltac:(lia)).
    replace a with (b + (a - b)) by lia. rewrite Z.pow_add_r by lia.
    pose proof (pow2_pos (a - b) ltac:(lia)).
    replace (Z.pred (2 ^ b * 2 ^ (a - b))) with ((2 ^ b - 1) + (2 ^ (a - b) - 1) * 2 ^ b) by lia.
    rewrite Z.div_add, (Z.div_small (2 ^ b - 1)) by lia. ring.
Qed.

Lemma sub_off_range vaddr n :
  sub_size n -> 0 <= sub_off vaddr n /\ sub_off vaddr n + n <= WordSizeBytes.
Proof.
  unfold sub_off, sub_size. destruct A; [change WordSizeBytes with 4 | change WordSizeBytes with 8];
    intros [-> | [-> | [-> | [-> H]]]]; try discriminate H;
    Z.to_euclidean_division_equations; lia.
Qed.

Lemma sub_word_params vaddr n :
  sub_size n ->
  calculateSubWordMaskAndOffset vaddr n
  = (Z.ones (8 * n), 8 * (WordSizeBytes - sub_off vaddr n - n), 8 * n).
Proof.
  intros Hn. pose proof (sub_off_range vaddr n Hn) as Hr.
  unfold calculateSubWordMaskAndOffset.
  set (c := (vaddr .& ExtMask) .& wnot (wsub n 1)).
  assert (Hidx : vaddr .& c = sub_off vaddr n).
  { unfold c, sub_off. rewrite <- Z.land_assoc, Z.land_assoc, Z.land_diag.
    destruct A, Hn as [-> | [-> | [-> | [-> H]]]]; try discriminate H.
    all: match goal with |- _ .& ?k = _ => let v := eval vm_compute in k in change k with v end.
    all: match goal with
      | |- _ .& 3 = _ => apply (land_field vaddr 2 0)
      | |- _ .& 2 = _ => apply (land_field vaddr 2 1)
      | |- _ .& 7 = _ => apply (land_field vaddr 3 0)
      | |- _ .& 6 = _ => apply (land_field vaddr 3 1)
      | |- _ .& 4 = _ => apply (land_field vaddr 3 2)
      | |- _ .& 0 = _ => rewrite Z.land_0_r
      end; try lia.
    all: first [change WordSizeBytes with 4; lia | change WordSizeBytes with 8; lia]. }
  rewrite Hidx. clearbody c.
  assert (WordSizeBytes <= 8) by (destruct A; done).
  assert (Hoff : wshl (wsub (wsub WordSizeBytes n) (sub_off vaddr n)) 3
                 = 8 * (WordSizeBytes - sub_off vaddr n - n)).
  { assert (1 <= n) by (unfold sub_size in Hn; lia).
    rewrite !wsub_small by (first [lia | apply small_word; change (2 ^ 32) with 4294967296; lia
      | rewrite wsub_small by (first [lia | apply small_word; change (2 ^ 32) with 4294967296; lia]);
        first [lia | apply small_word; change (2 ^ 32) with 4294967296; lia]]).
    unfold wshl, ushl. rewrite Z.shiftl_mul_pow2 by lia. change (2 ^ 3) with 8. rewrite wrap_small; [lia |].
    apply small_word. change (2 ^ 32) with 4294967296. lia. }
  rewrite Hoff. f_equal; [f_equal |]; destruct A, Hn as [-> | [-> | [-> | [-> H']]]];
    try discriminate H'; reflexivity.
Qed.

Lemma word_range_bytes bs : bytes_ok bs -> zlen bs = WordSizeBytes -> is_word (be_decode bs).
Proof. apply ByteOrder_Word_word. Qed.

(** A sub-word load reads the aligned bytes around the address. *)
Lemma SelectSubWord_spec vaddr bs n :
  bytes_ok bs -> zlen bs = WordSizeBytes -> sub_size n ->
  SelectSubWord vaddr (be_decode bs) n false
  = be_decode (slice (sub_off vaddr n) (sub_off vaddr n + n) bs).
Proof.
  intros Hb Hl Hn. pose proof (sub_off_range vaddr n Hn) as Hr.
  assert (0 < n) by (unfold sub_size in Hn; lia).
  unfold SelectSubWord. rewrite sub_word_params, land_ones_mod, ushr_div by (done || lia).
  rewrite <- Hl. apply be_decode_slice; [done | lia ..].
Qed.

Lemma SelectSubWord_signed vaddr m n :
  sub_size n ->
  SelectSubWord vaddr m n true = Word (signed (8 * n) (SelectSubWord vaddr m n false)).
Proof.
  intros Hn. unfold SelectSubWord. rewrite sub_word_params by done. apply SignExtend_spec.
  unfold sub_size in Hn. pose proof WordSize_ge. lia.
Qed.

(** A sub-word store replaces exactly those bytes. *)
Lemma UpdateSubWord_spec vaddr bs n v :
  bytes_ok bs -> zlen bs = WordSizeBytes -> sub_size n ->
  UpdateSubWord vaddr (be_decode bs) n v
  = be_decode (splice (sub_off vaddr n) (be_encode (Z.to_nat n) v) bs).
Proof.
  intros Hb Hl Hn. pose proof (sub_off_range vaddr n Hn) as Hr.
  assert (0 < n) by (unfold sub_size in Hn; lia).
  unfold UpdateSubWord. rewrite sub_word_params by done.
  set (b := 8 * (WordSizeBytes - sub_off vaddr n - n)).
  rewrite be_decode_splice by (done || lia). rewrite Hl. fold b.
  rewrite <- insert_field by (try (by apply wrap_range; lia); unfold b; lia).
  rewrite Z.land_comm, land_ones_mod by lia. fold (wrap (8 * n) v).
  assert (Hfit : forall x, in_range (8 * n) x -> wshl x b = Z.shiftl x b).
  { intros x [H1 H2]. apply wrap_small. rewrite Z.shiftl_mul_pow2 by (unfold b; lia).
    unfold in_range. split; [pose proof (pow2_pos b); unfold b in *; nia |].
    apply Z.lt_le_trans with (2 ^ (8 * n) * 2 ^ b).
    - apply Z.mul_lt_mono_pos_r; [apply pow2_pos; unfold b; lia | done].
    - rewrite <- Z.pow_add_r by (unfold b; lia). apply Z.pow_le_mono_r; [lia |].
      rewrite WordSizeBytes_eq. unfold b. lia. }
  rewrite !Hfit by (try apply ones_range; try apply wrap_range; lia).
  f_equal. apply ldiff_unot; [apply WordSize_nonneg | by apply word_range_bytes].
Qed.

End SubWords.

(** ** Unaligned accesses *)

(** The two merges the unaligned instructions are made of, for [w]-bit words
    given as [N] bytes: the left instructions take the bytes from [k] on. *)
Lemma merge_left (N : Z) bs xs k :
  bytes_ok bs -> bytes_ok xs -> zlen bs = N -> zlen xs = N -> 0 <= k <= N ->
  let w := 8 * N in
  ushl w (be_decode bs) (8 * k) .| (be_decode xs .& unot w (ushl w (Z.ones w) (8 * k)))
  = be_decode (drop (Z.to_nat k) bs ++ drop (Z.to_nat (N - k)) xs).
Proof.
  intros Hb Hx Hlb Hlx Hk w. rewrite be_decode_app, length_drop.
  replace (8 * Z.of_nat (length xs - Z.to_nat (N - k))) with (8 * k) by (unfold zlen in *; lia).
  rewrite <- !be_decode_drop by (done || lia).
  rewrite Hlb, Hlx. replace (8 * (N - (N - k))) with (8 * k) by lia.
  rewrite <- lor_shiftl_add by (try apply mod_range; lia). f_equal.
  - unfold ushl. rewrite wrap_ones, land_ones_mod by lia. rewrite !Z.shiftl_mul_pow2 by lia.
    replace w with (8 * (N - k) + 8 * k) by (unfold w; lia). rewrite Z.pow_add_r by lia.
    apply Z.mul_mod_distr_r; [apply Z.pow_nonzero; lia ..].
  - rewrite <- land_ones_mod by lia. f_equal. unfold unot, ushl.
    rewrite !wrap_ones by lia. apply Z.bits_inj'. intros i Hi.
    rewrite !Z.land_spec, Z.lnot_spec, Z.land_spec, Z.shiftl_spec by lia.
    destruct (decide (i < 8 * k)).
    + rewrite (Z.testbit_neg_r _ (i - 8 * k)) by lia. rewrite !Z.ones_spec_low by lia. done.
    + rewrite (Z.ones_spec_high (8 * k)) by lia. destruct (decide (i < w)).
      * rewrite !Z.ones_spec_low by lia. done.
      * rewrite (Z.ones_spec_high w i) by lia. apply andb_false_r.
Qed.

(** The right instructions take the bytes before [N - k]. *)
Lemma merge_right (N : Z) bs xs k :
  bytes_ok bs -> bytes_ok xs -> zlen bs = N -> zlen xs = N -> 0 <= k <= N ->
  let w := 8 * N in
  ushr (be_decode bs) (8 * k) .| (be_decode xs .& unot w (ushr (Z.ones w) (8 * k)))
  = be_decode (take (Z.to_nat k) xs ++ take (Z.to_nat (N - k)) bs).
Proof.
  intros Hb Hx Hlb Hlx Hk w. rewrite be_decode_app, length_take.
  replace (8 * Z.of_nat (Nat.min (Z.to_nat (N - k)) (length bs))) with (8 * (N - k)) by (unfold zlen in *; lia).
  rewrite <- !be_decode_take by (done || lia). rewrite Hlb, Hlx.
  replace (8 * (N - (N - k))) with (8 * k) by lia.
  pose proof (be_decode_range bs Hb) as Hrb. pose proof (be_decode_range xs Hx) as Hrx.
  fold (zlen bs) in Hrb. fold (zlen xs) in Hrx. rewrite Hlb in Hrb. rewrite Hlx in Hrx.
  rewrite ushr_div by lia. set (y := be_decode bs / 2 ^ (8 * k)).
  assert (in_range (8 * (N - k)) y) as Hy.
  { unfold y, in_range in *. pose proof (pow2_pos (8 * k) ltac:(lia)).
    split; [apply Z.div_pos; lia |]. apply Z.div_lt_upper_bound; [done |].
    rewrite <- Z.pow_add_r by lia. replace (8 * k + 8 * (N - k)) with (8 * N) by lia. lia. }
  rewrite <- lor_shiftl_add by (done || lia). rewrite Z.lor_comm. f_equal.
  rewrite Z.land_comm, ldiff_unot by (exact Hrx || lia).
  replace (ushr (Z.ones w) (8 * k)) with (Z.ones (8 * (N - k))).
  - rewrite Z.ldiff_ones_r, <- Z.shiftr_div_pow2 by lia. done.
  - unfold ushr. rewrite Z.shiftr_div_pow2, !Z.ones_equiv by lia.
    replace (2 ^ w) with (2 ^ (8 * (N - k)) * 2 ^ (8 * k))
      by (rewrite <- Z.pow_add_r by lia; f_equal; unfold w; lia).
    pose proof (pow2_pos (8 * k) ltac:(lia)).
    apply (Z.div_unique _ _ _ (2 ^ (8 * k) - 1)); lia.
Qed.


Lemma unot_ushr_ones w j : 0 <= j <= w -> unot w (ushr (Z.ones w) j) = ushl w (Z.ones w) (w - j).
Proof.
  intros Hj. unfold unot, ushl, ushr. rewrite !wrap_ones by lia. apply Z.bits_inj'. intros i Hi.
  rewrite !Z.land_spec, Z.lnot_spec, Z.shiftr_spec, Z.shiftl_spec by lia.
  destruct (decide (i < w)); [| by rewrite (Z.ones_spec_high w i), !andb_false_r by lia].
  rewrite (Z.ones_spec_low w i), !andb_true_r by lia. destruct (decide (i < w - j)).
  - rewrite Z.ones_spec_low, (Z.testbit_neg_r _ (i - (w - j))) by lia. done.
  - rewrite Z.ones_spec_high, Z.ones_spec_low by lia. done.
Qed.

(** The instructions that load or store the left (right) part of a whole word:
    lwl, lwr, swl, swr on the 32-bit VM; ldl, ldr, sdl, sdr on the 64-bit VM. *)
Definition op_load_left {A : Arch} : Z := if IsMips32 then 0x22 else 0x1A.
Definition op_load_right {A : Arch} : Z := if IsMips32 then 0x26 else 0x1B.
Definition op_store_left {A : Arch} : Z := if IsMips32 then 0x2a else 0x2C.
Definition op_store_right {A : Arch} : Z := if IsMips32 then 0x2e else 0x2D.

Section Unaligned.
Context {A : Arch} (insn fun_ : Z).

Lemma land_low3 x : x .& 3 = x mod 4.
Proof. by apply (land_ones_mod x 2). Qed.
Lemma land_low7 x : x .& 7 = x mod 8.
Proof. by apply (land_ones_mod x 3). Qed.

Lemma shift_amount k : 0 <= k < 8 -> ushl 64 k 3 = 8 * k.
Proof.
  intros Hk. unfold ushl. rewrite Z.shiftl_mul_pow2 by lia. change (2 ^ 3) with 8. rewrite wrap_small; [lia |].
  unfold in_range. change (2 ^ 64) with 18446744073709551616. lia.
Qed.

(** On the 32-bit VM sign extension from bit 31 does nothing to a word. *)
Lemma SignExtend32_id x : in_range 32 x -> @SignExtend Mips32 (x .& U32Mask) 32 = x.
Proof.
  intros Hx. change U32Mask with (Z.ones 32). rewrite <- wrap_ones, wrap_small by done.
  rewrite SignExtend_spec by (vm_compute; split; discriminate). unfold Word.
  change (@WordSize (@arch_consts Mips32)) with 32. rewrite signed_wrap_eq. by apply wrap_small.
Qed.

Lemma merged_range l : bytes_ok l -> zlen l = 4 -> in_range 32 (be_decode l).
Proof. intros Hb Hl. pose proof (be_decode_range l Hb) as H. fold (zlen l) in H. by rewrite Hl in H. Qed.

Variables bs xs : list Z.
Hypothesis Hbs : bytes_ok bs.
Hypothesis Hxs : bytes_ok xs.
Hypothesis Lbs : zlen bs = WordSizeBytes.
Hypothesis Lxs : zlen xs = WordSizeBytes.

Lemma load_left_bytes rs :
  let k := rs mod WordSizeBytes in
  ExecuteMipsInstruction insn op_load_left fun_ rs (be_decode xs) (be_decode bs)
  = Ok (be_decode (drop (Z.to_nat k) bs ++ drop (Z.to_nat (WordSizeBytes - k)) xs)).
Proof.
  intros k. pose proof (Z.mod_pos_bound rs WordSizeBytes) as Hk. fold k in Hk.
  destruct A.
  - change (Ok (@load_word_left Mips32 rs (be_decode xs) (be_decode bs))
            = Ok (be_decode (drop (Z.to_nat k) bs ++ drop (Z.to_nat (4 - k)) xs))).
    change WordSizeBytes with 4 in *. specialize (Hk ltac:(lia)).
    rewrite <- (merge_left 4) by (done || lia). f_equal. unfold load_word_left.
    change (@IsMips32 Mips32) with true. cbv iota. rewrite land_low3. fold k.
    replace (k * 8) with (8 * k) by lia.
    change (@Word Mips32) with (wrap 32). change (@wshl Mips32) with (ushl 32). change (@wnot Mips32) with (unot 32).
    rewrite (wrap_small 32) by (by apply ushl_range). rewrite Z.lor_comm.
    change U32Mask with (Z.ones 32) at 1. apply SignExtend32_id.
    change 32 with (8 * 4). rewrite merge_left by (done || lia).
    apply merged_range.
    + apply Forall_app; split; by apply Forall_drop.
    + unfold zlen in *. rewrite length_app, !length_drop. lia.
  - change (Ok (@load_double_left Mips64 rs (be_decode xs) (be_decode bs))
            = Ok (be_decode (drop (Z.to_nat k) bs ++ drop (Z.to_nat (8 - k)) xs))).
    change WordSizeBytes with 8 in *. specialize (Hk ltac:(lia)).
    rewrite <- (merge_left 8) by (done || lia). unfold load_double_left.
    rewrite land_low7. fold k. change (@wshl Mips64) with (ushl 64). rewrite shift_amount by done. done.
Qed.

Lemma load_right_bytes rs :
  let j := WordSizeBytes - 1 - rs mod WordSizeBytes in
  ExecuteMipsInstruction insn op_load_right fun_ rs (be_decode xs) (be_decode bs)
  = Ok (be_decode (take (Z.to_nat j) xs ++ take (Z.to_nat (WordSizeBytes - j)) bs)).
Proof.
  pose proof (Z.mod_pos_bound rs WordSizeBytes) as Hk. intros j. destruct A.
  - change (Ok (@load_word_right Mips32 rs (be_decode xs) (be_decode bs))
            = Ok (be_decode (take (Z.to_nat j) xs ++ take (Z.to_nat (4 - j)) bs))).
    change WordSizeBytes with 4 in *. specialize (Hk ltac:(lia)).
    rewrite <- (merge_right 4) by (done || lia). f_equal. unfold load_word_right.
    change (@IsMips32 Mips32) with true. cbv iota. rewrite land_low3.
    rewrite wsub_small by (try apply small_word; change (2 ^ 32) with 4294967296; lia).
    replace (24 - rs mod 4 * 8) with (8 * j) by (unfold j; lia).
    change (@Word Mips32) with (wrap 32). change (@wnot Mips32) with (unot 32).
    change U32Mask with (Z.ones 32) at 1.
    rewrite (wrap_small 32) by (apply ushr_range; [lia | lia | by apply ones_range]). rewrite Z.lor_comm.
    apply SignExtend32_id. change 32 with (8 * 4). rewrite merge_right by (done || lia).
    apply merged_range.
    + apply Forall_app; split; by apply Forall_take.
    + unfold zlen in *. rewrite length_app, !length_take. lia.
  - change (Ok (@load_double_right Mips64 rs (be_decode xs) (be_decode bs))
            = Ok (be_decode (take (Z.to_nat j) xs ++ take (Z.to_nat (8 - j)) bs))).
    change WordSizeBytes with 8 in *. specialize (Hk ltac:(lia)).
    rewrite <- (merge_right 8) by (done || lia). unfold load_double_right.
    rewrite land_low7. change (@wshl Mips64) with (ushl 64). rewrite shift_amount by done.
    rewrite (wsub_small 56) by (try apply small_word; change (2 ^ 32) with 4294967296; lia).
    replace (56 - 8 * (rs mod 8)) with (8 * j) by (unfold j; lia).
    rewrite wsub_small by (try apply small_word; change (2 ^ 32) with 4294967296; lia).
    rewrite unot_ushr_ones by lia. done.
Qed.

Lemma store_left_bytes rs :
  let k := rs mod WordSizeBytes in
  ExecuteMipsInstruction insn op_store_left fun_ rs (be_decode xs) (be_decode bs)
  = Ok (be_decode (take (Z.to_nat k) bs ++ take (Z.to_nat (WordSizeBytes - k)) xs)).
Proof.
  pose proof (Z.mod_pos_bound rs WordSizeBytes) as Hk. intros k. fold k in Hk. destruct A.
  - change (Ok (@store_word_left Mips32 rs (be_decode xs) (be_decode bs))
            = Ok (be_decode (take (Z.to_nat k) bs ++ take (Z.to_nat (4 - k)) xs))).
    change WordSizeBytes with 4 in *. specialize (Hk ltac:(lia)).
    rewrite <- (merge_right 4) by (done || lia). f_equal. unfold store_word_left.
    change (@IsMips32 Mips32) with true. cbv iota. rewrite land_low3. fold k.
    replace (k * 8) with (8 * k) by lia. change (@Word Mips32) with (wrap 32).
    rewrite (wrap_small 32) by (by apply unot_range). by rewrite Z.lor_comm.
  - change (Ok (@store_double_left Mips64 rs (be_decode xs) (be_decode bs))
            = Ok (be_decode (take (Z.to_nat k) bs ++ take (Z.to_nat (8 - k)) xs))).
    change WordSizeBytes with 8 in *. specialize (Hk ltac:(lia)).
    rewrite <- (merge_right 8) by (done || lia). unfold store_double_left.
    rewrite land_low7. fold k. change (@wshl Mips64) with (ushl 64). rewrite shift_amount by done. done.
Qed.

Lemma store_right_bytes rs :
  let j := WordSizeBytes - 1 - rs mod WordSizeBytes in
  ExecuteMipsInstruction insn op_store_right fun_ rs (be_decode xs) (be_decode bs)
  = Ok (be_decode (drop (Z.to_nat j) xs ++ drop (Z.to_nat (WordSizeBytes - j)) bs)).
Proof.
  pose proof (Z.mod_pos_bound rs WordSizeBytes) as Hk. intros j. destruct A.
  - change (Ok (@store_word_right Mips32 rs (be_decode xs) (be_decode bs))
            = Ok (be_decode (drop (Z.to_nat j) xs ++ drop (Z.to_nat (4 - j)) bs))).
    change WordSizeBytes with 4 in *. specialize (Hk ltac:(lia)).
    rewrite <- (merge_left 4) by (done || lia). f_equal. unfold store_word_right.
    change (@IsMips32 Mips32) with true. cbv iota. rewrite land_low3.
    rewrite wsub_small by (try apply small_word; change (2 ^ 32) with 4294967296; lia).
    replace (24 - rs mod 4 * 8) with (8 * j) by (unfold j; lia).
    change (@Word Mips32) with (wrap 32). change (@wshl Mips32) with (ushl 32).
    rewrite (wrap_small 32) by (by apply unot_range). by rewrite Z.lor_comm.
  - change (Ok (@store_double_right Mips64 rs (be_decode xs) (be_decode bs))
            = Ok (be_decode (drop (Z.to_nat j) xs ++ drop (Z.to_nat (8 - j)) bs))).
    change WordSizeBytes with 8 in *. specialize (Hk ltac:(lia)).
    rewrite <- (merge_left 8) by (done || lia). unfold store_double_right.
    rewrite land_low7. change (@wshl Mips64) with (ushl 64). rewrite shift_amount by done.
    rewrite (wsub_small 56) by (try apply small_word; change (2 ^ 32) with 4294967296; lia).
    replace (56 - 8 * (rs mod 8)) with (8 * j) by (unfold j; lia). done.
Qed.

End Unaligned.

(** Multiplication, division and bit counting: what HI, LO and the destination
    register hold in terms of the integers the operands stand for. *)

(** ** Leading zeros and ones *)

(** The number of leading zeros of the low 32 bits. *)
Definition lead_zeros (x : Z) : Z :=
  if wrap 32 x =? 0 then 32 else 31 - Z.log2 (wrap 32 x).

Section Count.
Context {A : Arch}.

Lemma bit31 x : negb (x .& 0x80000000 =? 0) = Z.testbit x 31.
Proof.
  change 0x80000000 with (2 ^ 31). destruct (Z.testbit x 31) eqn:E.
  - destruct (Z.eqb_spec (x .& 2 ^ 31) 0) as [H | H]; [| done].
    assert (Z.testbit (x .& 2 ^ 31) 31 = true) as Hb by (rewrite Z.land_spec, E; done).
    rewrite H in Hb. done.
  - replace (x .& 2 ^ 31) with 0; [done |]. symmetry. apply Z.bits_inj'. intros j Hj.
    rewrite Z.land_spec, Z.bits_0. destruct (decide (31 = j)) as [<- | Hne]; [by rewrite E |].
    by rewrite Z.pow2_bits_false, andb_false_r.
Qed.

Lemma wshl1_testbit x i : 0 <= i < WordSize -> Z.testbit (wshl x 1) i = Z.testbit x (i - 1).
Proof. intros Hi. unfold wshl, ushl, wrap. by rewrite Z.mod_pow2_bits_low, Z.shiftl_spec by lia. Qed.

(** The loop stops at the first zero bit, at the latest after bit 0. *)
Lemma count_ones_spec fuel x i d :
  0 <= d <= 32 -> 32 - d < Z.of_nat fuel -> 0 <= i <= d ->
  (forall j, 0 <= j <= 31 -> Z.testbit x j = (d <=? j) && Z.testbit x j) ->
  exists c, count_ones fuel x i = i + c /\ 0 <= c <= 32 - d /\
    (forall j, 0 <= j < c -> Z.testbit x (31 - j) = true) /\
    (c < 32 - d -> Z.testbit x (31 - c) = false).
Proof.
  revert x i d. induction fuel as [|fuel IH]; intros x i d Hd Hf Hi Hlow; [lia |].
  cbn [count_ones]. rewrite bit31. destruct (Z.testbit x 31) eqn:E.
  - assert (d <= 31) by (specialize (Hlow 31 ltac:(lia)); rewrite E in Hlow;
      destruct (Z.leb_spec d 31); [lia | done]).
    pose proof WordSize_ge.
    destruct (IH (wshl x 1) (uadd 32 i 1) (d + 1)) as (c & Hc & Hr & H1 & H2).
    + lia.
    + lia.
    + unfold uadd. rewrite wrap_small by (unfold in_range; change (2 ^ 32) with 4294967296; lia). lia.
    + intros j Hj. rewrite wshl1_testbit by lia. destruct (Z.leb_spec (d + 1) j); [done |].
      destruct (decide (j = 0)) as [-> | Hne]; [by rewrite Z.testbit_neg_r by lia |].
      rewrite Hlow by lia. destruct (Z.leb_spec d (j - 1)); [lia | done].
    + exists (c + 1). split.
      { rewrite Hc. unfold uadd.
        rewrite wrap_small by (unfold in_range; change (2 ^ 32) with 4294967296; lia). lia. }
      split; [lia |]. split.
      * intros j Hj. destruct (decide (j = 0)) as [-> | Hne]; [done |].
        specialize (H1 (j - 1) ltac:(lia)). rewrite wshl1_testbit in H1 by lia.
        rewrite <- H1. f_equal. lia.
      * intros Hlt. specialize (H2 ltac:(lia)). rewrite wshl1_testbit in H2 by lia.
        rewrite <- H2. f_equal. lia.
  - exists 0. split; [lia |]. split; [lia |]. split; [lia |]. intros _. exact E.
Qed.

Lemma count_lead_zeros x y :
  (forall j, 0 <= j <= 31 -> Z.testbit y j = negb (Z.testbit x j)) ->
  count_ones 33 y 0 = lead_zeros x.
Proof.
  intros Hxy. destruct (count_ones_spec 33 y 0 0) as (c & -> & Hr & H1 & H2); [lia | lia | lia | |].
  { intros j Hj. destruct (Z.leb_spec 0 j); [done | lia]. }
  assert (Htop : forall j, 32 - c <= j <= 31 -> Z.testbit x j = false).
  { intros j Hj. specialize (H1 (31 - j) ltac:(lia)). replace (31 - (31 - j)) with j in H1 by lia.
    rewrite Hxy in H1 by lia. by apply negb_true_iff. }
  unfold lead_zeros. destruct (decide (c = 32)) as [-> | Hc].
  - assert (wrap 32 x = 0) as ->; [| done]. apply Z.bits_inj'. intros j Hj. rewrite Z.bits_0.
    unfold wrap. destruct (decide (j < 32)); [rewrite Z.mod_pow2_bits_low by lia; apply Htop; lia |].
    apply Z.mod_pow2_bits_high. lia.
  - specialize (H2 ltac:(lia)). rewrite Hxy in H2 by lia. apply negb_false_iff in H2.
    assert (Z.testbit (wrap 32 x) (31 - c) = true) as Hb
      by (unfold wrap; rewrite Z.mod_pow2_bits_low by lia; done).
    destruct (Z.eqb_spec (wrap 32 x) 0) as [E | _]; [rewrite E, Z.bits_0 in Hb; done |].
    rewrite (Z.log2_bits_unique _ (31 - c)); [lia | done |]. intros j Hj. unfold wrap.
    destruct (decide (j < 32)); [rewrite Z.mod_pow2_bits_low by lia; apply Htop; lia |].
    apply Z.mod_pow2_bits_high. lia.
Qed.

End Count.

(** ** Products *)

Section Products.
Context {A : Arch}.

Lemma SignExtend32 x : SignExtend x 32 = Word (signed 32 x).
Proof. apply SignExtend_spec. pose proof WordSize_ge. lia. Qed.

(** The low 32 bits of a sign-extended value. *)
Lemma uint32_SignExtend x : uint32 (SignExtend x 32) = uint32 x.
Proof.
  rewrite SignExtend32. unfold uint32, Word.
  transitivity (wrap 32 (signed 32 x)); [| apply signed_wrap_eq].
  unfold wrap. replace (2 ^ WordSize) with (2 ^ 32 * 2 ^ (WordSize - 32))
    by (rewrite <- Z.pow_add_r by (pose proof WordSize_ge; lia); f_equal; lia).
  rewrite Z.rem_mul_r by (apply Z.pow_nonzero || apply pow2_pos; pose proof WordSize_ge; lia).
  rewrite Z.mul_comm, Z_mod_plus_full. apply Zmod_mod.
Qed.

Lemma signed_ext w x y : wrap w x = wrap w y -> signed w x = signed w y.
Proof. unfold signed. by intros ->. Qed.

Lemma int32_SignExtend x : int32 (SignExtend x 32) = int32 x.
Proof. apply signed_ext. apply uint32_SignExtend. Qed.

Lemma uint32_Word x : uint32 (Word x) = uint32 x.
Proof.
  unfold uint32, Word, wrap. replace (2 ^ WordSize) with (2 ^ 32 * 2 ^ (WordSize - 32))
    by (rewrite <- Z.pow_add_r by (pose proof WordSize_ge; lia); f_equal; lia).
  rewrite Z.rem_mul_r by (apply Z.pow_nonzero || apply pow2_pos; pose proof WordSize_ge; lia).
  rewrite Z.mul_comm, Z_mod_plus_full. apply Zmod_mod.
Qed.

Lemma int32_Word x : int32 (Word x) = int32 x.
Proof. apply signed_ext. apply uint32_Word. Qed.

(** A 64-bit accumulator is its two sign-extended halves. *)
Lemma halves64 p :
  int32 (SignExtend (Word (ushr (wrap 64 p) 32)) 32) * 2 ^ 32
  + uint32 (SignExtend (Word (uint32 (wrap 64 p))) 32) = signed 64 p.
Proof.
  rewrite int32_SignExtend, uint32_SignExtend, int32_Word, uint32_Word, ushr_div by lia.
  unfold int32, uint32, signed, wrap. change (32 - 1) with 31. change (64 - 1) with 63.
  change (2 ^ 31) with 2147483648. change (2 ^ 63) with 9223372036854775808.
  change (2 ^ 32) with 4294967296. change (2 ^ 64) with 18446744073709551616.
  set (q := p mod 18446744073709551616).
  assert (0 <= q < 18446744073709551616) by (apply Z.mod_pos_bound; lia).
  destruct (Z.ltb_spec ((q / 4294967296) mod 4294967296) 2147483648);
    destruct (Z.ltb_spec q 9223372036854775808);
    rewrite ?Zmod_mod in *; Z.to_euclidean_division_equations; lia.
Qed.

Lemma int32_bounds x : -2147483648 <= int32 x < 2147483648.
Proof. apply (signed_range 32). lia. Qed.

Lemma int64_bounds x : -9223372036854775808 <= int64 x < 9223372036854775808.
Proof. apply (signed_range 64). lia. Qed.

End Products.

Section Products64.
Existing Instance Mips64.

(** [abs64] followed by the conversion to unsigned is the absolute value, the
    most negative value included. *)
Lemma abs64_spec x : wrap 64 (abs64 (int64 x)) = Z.abs (int64 x).
Proof.
  pose proof (int64_bounds x) as Hb. unfold abs64. destruct (Z.ltb_spec (int64 x) 0).
  - unfold int64 at 1. rewrite signed_wrap_eq. rewrite wrap_small; [lia |].
    unfold in_range. change (2 ^ 64) with 18446744073709551616. lia.
  - rewrite wrap_small; [lia |]. unfold in_range. change (2 ^ 64) with 18446744073709551616. lia.
Qed.

(** The two's complement negation of a 128-bit product in two halves. *)
Lemma negate128 p :
  0 <= p < 2 ^ 127 ->
  let hi := unot 64 (ushr p 64) in
  let lo := unot 64 (wrap 64 p) in
  signed 64 (if lo =? 0xFFFFFFFFFFFFFFFF then uadd 64 hi 1 else hi) * 2 ^ 64 + uadd 64 lo 1 = - p.
Proof.
  intros Hp. cbn zeta. rewrite ushr_div by lia. unfold unot, uadd, signed, wrap, Z.lnot.
  change (64 - 1) with 63. change (2 ^ 63) with 9223372036854775808.
  change (2 ^ 64) with 18446744073709551616.
  change (2 ^ 127) with 170141183460469231731687303715884105728 in Hp.
  change (0xFFFFFFFFFFFFFFFF) with 18446744073709551615.
  pose proof (Z.div_mod p 18446744073709551616 ltac:(lia)) as Hdm.
  assert (0 <= p mod 18446744073709551616 < 18446744073709551616) by (apply Z.mod_pos_bound; lia).
  set (q := p / 18446744073709551616) in *. set (r := p mod 18446744073709551616) in *.
  clearbody q r. subst p.
  assert (0 <= q < 9223372036854775808) by lia.
  assert (Z.pred (- r) mod 18446744073709551616 = 18446744073709551615 - r) as ->
    by (symmetry; apply (Z.mod_unique _ _ (-1)); lia).
  assert (Z.pred (- q) mod 18446744073709551616 = 18446744073709551615 - q) as ->
    by (symmetry; apply (Z.mod_unique _ _ (-1)); lia).
  destruct (Z.eqb_spec (18446744073709551615 - r) 18446744073709551615).
  - assert (r = 0) as -> by lia. destruct (decide (q = 0)) as [-> | Hq]; [reflexivity |].
    assert ((18446744073709551615 - q + 1) mod 18446744073709551616 = 18446744073709551616 - q) as ->
      by (rewrite Z.mod_small; lia).
    rewrite Z.mod_small by lia.
    destruct (Z.ltb_spec (18446744073709551616 - q) 9223372036854775808);
      [lia |]. change ((18446744073709551615 - 0 + 1) mod 18446744073709551616) with 0. lia.
  - rewrite (Z.mod_small (18446744073709551615 - q)) by lia.
    rewrite (Z.mod_small (18446744073709551615 - r + 1)) by lia.
    destruct (Z.ltb_spec (18446744073709551615 - q) 9223372036854775808); lia.
Qed.

End Products64.
