(* ===== verification/ExecProps.v ===== *)
(** Invariants of the code shared by the two VMs: every instruction keeps the
    registers, the program counters and the memory well formed, and a step
    changes at most the word it reports. *)
From Stdlib Require Import ZArith Lia.
From stdpp Require Import base gmap list strings numbers.
From S2P Require Import Prelude Arch Codec Insn Memory Exec MerkleSpec MemoryProps MerkleProps.
From S2P Require Import InsnProps.

(** ** Registers and scalars *)

Record reg_wf {A : Arch} (rs : list Z) : Prop := {
  rw_length : length rs = 32%nat;
  rw_words : Forall is_word rs;
  rw_zero : reg rs 0 = 0;
}.

Record cpu_wf {A : Arch} (c : CpuScalars) : Prop := {
  cw_PC : is_word (PC c);
  cw_NextPC : is_word (NextPC c);
  cw_LO : is_word (LO c);
  cw_HI : is_word (HI c);
}.

Section Words.
Context {A : Arch}.

Lemma word_0 : is_word 0.
Proof. apply small_word. lia. Qed.

Lemma word_1 : is_word 1.
Proof. apply small_word. lia. Qed.

Lemma reg_word rs i : reg_wf rs -> is_word (reg rs i).
Proof.
  intros [Hl Hw _]. unfold reg. destruct (rs !! Z.to_nat i) as [v |] eqn:E; [| apply word_0].
  by eapply Forall_lookup_1 in E.
Qed.

Lemma set_reg_wf rs i v : reg_wf rs -> 0 < i -> is_word v -> reg_wf (set_reg i v rs).
Proof.
  intros [Hl Hw Hz] Hi Hv. split; unfold set_reg.
  - by rewrite length_insert.
  - by apply Forall_insert.
  - unfold reg. rewrite list_lookup_insert_ne by lia. exact Hz.
Qed.

Lemma set_pcs_wf c pc next : cpu_wf c -> is_word pc -> is_word next -> cpu_wf (set_pcs pc next c).
Proof. by intros [? ? ? ?]. Qed.

Lemma nonneg_land x y : 0 <= y -> 0 <= x .& y.
Proof. intros. apply Z.land_nonneg. by right. Qed.

Lemma U32Mask_nonneg : 0 <= U32Mask.
Proof. done. Qed.

Lemma mul8_nonneg x : 0 <= x -> 0 <= x * 8.
Proof. lia. Qed.

Lemma word_nonneg x : is_word x -> 0 <= x.
Proof. by intros [? ?]. Qed.

Lemma SelectSubWord_word vaddr m n b : is_word m -> sub_size n -> is_word (SelectSubWord vaddr m n b).
Proof.
  intros Hm Hn. destruct b; [rewrite SelectSubWord_signed by done; apply Word_word |].
  unfold SelectSubWord. rewrite sub_word_params by done.
  assert (0 < n) by (unfold sub_size in Hn; lia).
  pose proof (sub_off_range vaddr n Hn).
  apply land_word; [apply ushr_word; [done | lia] | apply ones_range; lia].
Qed.

Lemma UpdateSubWord_word vaddr m n v : is_word m -> is_word (UpdateSubWord vaddr m n v).
Proof.
  intros Hm. unfold UpdateSubWord. destruct (calculateSubWordMaskAndOffset vaddr n) as [[? ?] ?].
  apply lor_word; [apply wshl_word |]. rewrite Z.land_comm. apply land_word; [done |].
  apply word_nonneg, wnot_word.
Qed.

Lemma sub_size_1 : sub_size 1. Proof. unfold sub_size; lia. Qed.
Lemma sub_size_2 : sub_size 2. Proof. unfold sub_size; lia. Qed.
Lemma sub_size_4 : sub_size 4. Proof. unfold sub_size; lia. Qed.

Lemma SignExtendImmediate_word insn : is_word (SignExtendImmediate insn).
Proof. apply SignExtend_word. pose proof WordSize_ge. lia. Qed.

Lemma SignExtend32_word x : is_word (SignExtend x 32).
Proof. apply SignExtend_word. pose proof WordSize_ge. lia. Qed.

Lemma sra_word x s : 0 <= s < 32 -> is_word (SignExtend x (wsub 32 s)).
Proof.
  intros Hs. apply SignExtend_word. pose proof WordSize_ge.
  rewrite wsub_small by (try apply small_word; lia). lia.
Qed.

Lemma low5_range x : 0 <= x .& 0x1F < 32.
Proof. change 0x1F with (Z.ones 5). rewrite land_ones_mod by lia. by apply Z.mod_pos_bound. Qed.

End Words.

Create HintDb word.
#[export] Hint Resolve word_0 word_1 wadd_word wsub_word wshl_word wnot_word Word_word land_word
  lor_word lxor_word ushr_word word_nonneg nonneg_land SignExtend32_word SignExtendImmediate_word
  SelectSubWord_word UpdateSubWord_word sub_size_1 sub_size_2 sub_size_4 sra_word low5_range mul8_nonneg U32Mask_nonneg : word.
#[export] Hint Extern 1 (0 <= _) => lia : word.

Section Alu.
Context {A : Arch}.

(** [m] returns only words. *)
Definition word_result (m : outcome Z) : Prop := forall v, m = Ok v -> is_word v.

Lemma word_result_ok v : is_word v -> word_result (Ok v).
Proof. intros Hv w [= <-]. done. Qed.

Lemma word_result_assert m v : (IsMips32 = false -> is_word v) -> word_result (assertMips64 m ;; Ok v).
Proof.
  intros Hv w. unfold assertMips64. destruct IsMips32; cbn; [done |]. intros [= <-]. by apply Hv.
Qed.

Lemma word_result_panic e : word_result (Panic e).
Proof. done. Qed.

Ltac word_cases :=
  apply switch_all;
  [repeat (apply Forall_cons_2; [cbn [snd] |]); try apply Forall_nil_2
  | try apply word_result_panic].

Lemma execute_special_word insn fun_ rs rt :
  is_word rs -> is_word rt -> word_result (execute_special insn fun_ rs rt).
Proof.
  intros Hrs Hrt. unfold execute_special. word_cases;
    first [apply word_result_ok | apply word_result_assert; intros _]; eauto 6 with word.
  1, 2: destruct (_ <? _); auto with word.
  apply ushr_word; [done |]. pose proof (low5_range (ushr insn 6)). lia.
Qed.

Lemma execute_special2_word fun_ rs rt : word_result (execute_special2 fun_ rs rt).
Proof. unfold execute_special2. word_cases; apply word_result_ok; eauto with word. Qed.

Lemma load_word_left_word rs rt mem : is_word (load_word_left rs rt mem).
Proof. unfold load_word_left. destruct IsMips32; auto with word. Qed.

Lemma load_word_right_word rs rt mem : is_word rt -> is_word (load_word_right rs rt mem).
Proof.
  intros. unfold load_word_right. destruct IsMips32; [auto with word |].
  destruct (_ =? 3); eauto 6 with word.
Qed.

Lemma store_word_left_word rs rt mem : is_word rt -> is_word mem -> is_word (store_word_left rs rt mem).
Proof. intros. unfold store_word_left. destruct IsMips32; eauto 8 with word. Qed.

Lemma store_word_right_word rs rt mem : is_word mem -> is_word (store_word_right rs rt mem).
Proof. intros. unfold store_word_right. destruct IsMips32; eauto 8 with word. Qed.

Lemma ExecuteMipsInstruction_word insn opcode fun_ rs rt mem :
  is_word rs -> is_word rt -> is_word mem ->
  word_result (ExecuteMipsInstruction insn opcode fun_ rs rt mem).
Proof.
  intros Hrs Hrt Hm. unfold ExecuteMipsInstruction.
  destruct (_ || _); [by apply execute_special_word |]. word_cases;
    first [apply execute_special2_word | apply word_result_ok | apply word_result_assert; intros _];
    auto using load_word_left_word, load_word_right_word, store_word_left_word, store_word_right_word
      with word.
  all: unfold load_double_left, load_double_right, store_double_left, store_double_right; eauto 8 with word.
Qed.

End Alu.

(** ** The core step *)

Record core_wf {A : Arch} {K : Keccak} {T} (c : Core T) : Prop := {
  co_regs : reg_wf (registers c);
  co_cpu : cpu_wf (cpu c);
  co_mem : mem_wf (memory c);
  co_merkle : merkle_ok (memory c);
}.

(** The memory [m'] holds the bytes of [m]. *)
Definition same_bytes (m m' : Memory) : Prop := forall b, mem_byte m' b = mem_byte m b.

(** The memories differ at most in the word at [addr]. *)
Definition same_but_word {A : Arch} (addr : Z) (m m' : Memory) : Prop :=
  forall b, ~ (addr <= b < addr + WordSizeBytes) -> mem_byte m' b = mem_byte m b.

Section CoreStep.
Context {A : Arch} {K : Keccak} {T : Type} {TR : StackTracker T}.
Implicit Types c : Core T.

(** What a computation that does not write memory guarantees. *)
Definition keeps (c c' : Core T) : Prop := core_wf c' /\ same_bytes (memory c) (memory c').

Lemma keeps_refl c : core_wf c -> keeps c c.
Proof. done. Qed.

Lemma keeps_trans c1 c2 c3 : keeps c1 c2 -> keeps c2 c3 -> keeps c1 c3.
Proof. intros [_ H1] [H2 H3]. split; [done |]. intros b. by rewrite H3. Qed.

Lemma aligned_word x : is_word x -> is_word (x .& AddressMask) /\ (x .& AddressMask) .& ExtMask = 0.
Proof.
  intros Hx. split; [apply land_word; [done |]; by destruct A |].
  rewrite <- Z.land_assoc. replace (AddressMask .& ExtMask) with 0 by (by destruct A). apply Z.land_0_r.
Qed.

Lemma MerkleProof_run addr m :
  mem_wf m -> merkle_ok m -> is_word addr ->
  exists proof m', MerkleProof addr m = Ok (proof, m') /\ mem_wf m' /\ merkle_ok m' /\ same_bytes m m'.
Proof.
  intros Hw Hm Ha. unfold MerkleProof.
  destruct (traverseBranch_spec (Z.to_nat tree_height) m addr 0 Hw Hm Ha) as (sibs & m' & R & _ & _ & _ & C & W & M);
    [lia | unfold tree_height; destruct WordSize_cases; lia |].
  assert (path_node addr 0 = 1) as E.
  { destruct (path_node_log2 addr 0 Ha) as [Hp Hl]; [unfold tree_height; destruct WordSize_cases; lia |].
    apply Z.log2_null in Hl. lia. }
  rewrite E in R. do 2 eexists. split; [by rewrite (ST_bind_run _ _ _ _ _ R) |].
  split; [done | split; [done |]]. intros b. by apply more_cached_byte.
Qed.

Lemma GetWord_run a m :
  mem_wf m -> merkle_ok m -> is_word a -> a .& ExtMask = 0 ->
  exists m', GetWord a m = Ok (mem_word m a, m') /\ mem_wf m' /\ merkle_ok m' /\ same_bytes m m'.
Proof.
  intros Hw Hm Ha Hal. destruct (GetWord_spec m a Hw Ha Hal) as (m' & R & Hs & W).
  exists m'. split; [done | split; [done | split; [by eapply merkle_ok_same_store |]]].
  intros b. by apply mem_byte_same_store.
Qed.

Lemma SetWord_run a v m :
  mem_wf m -> merkle_ok m -> is_word a -> a .& ExtMask = 0 ->
  exists m', SetWord a v m = Ok ((), m') /\ mem_wf m' /\ merkle_ok m' /\
    (forall b, mem_byte m' b = write_bytes (mem_byte m) a (ByteOrder_PutWord v) b).
Proof.
  intros Hw Hm Ha Hal. destruct (SetWord_spec m a v Hw Ha Hal) as (m' & R & W & B & M).
  exists m'. auto.
Qed.

Lemma mem_byte_is_byte m b : mem_wf m -> is_byte (mem_byte m b).
Proof.
  intros Hw. unfold mem_byte. destruct (pageTable m !! _) as [r |]; cbn; [| done].
  destruct (pages m !! r) as [p |] eqn:Ep; [| done].
  unfold list_byte. destruct (Data p !! _) as [v |] eqn:Ev; [| done]. cbn.
  eapply Forall_lookup_1; [apply (pw_bytes p), (wf_pages m Hw r p Ep) | exact Ev].
Qed.

Lemma mem_bytes_ok m a n : mem_wf m -> bytes_ok (fbytes (mem_byte m) a n).
Proof.
  intros Hw. apply Forall_fmap, Forall_forall. intros k _. by apply mem_byte_is_byte.
Qed.

Lemma zlen_fbytes f a : zlen (fbytes f a (Z.to_nat WordSizeBytes)) = WordSizeBytes.
Proof. unfold zlen. rewrite length_fbytes. destruct A; reflexivity. Qed.

Lemma mem_word_word m a : mem_wf m -> is_word (mem_word m a).
Proof. intros Hw. apply word_range_bytes; [by apply mem_bytes_ok | apply zlen_fbytes]. Qed.

(** *** Memory operations *)

Lemma track_keeps c addr u c' :
  core_wf c -> is_word addr -> on_tracker (TrackMemAccess addr) c = Ok (u, c') ->
  keeps c c' /\ cpu c' = cpu c /\ registers c' = registers c.
Proof.
  intros [Hr Hc Hw Hm] Ha ([mem t] & R & ->)%zoom_ok. unfold TrackMemAccess in R.
  destruct (memProofEnabled _ && _).
  - destruct (negb _); [done |].
    destruct (MerkleProof_run addr (memory c) Hw Hm Ha) as (p & m' & RP & W & M & B).
    rewrite RP in R. injection R as <- <- <-. split; [| done]. split; [by split | exact B].
  - injection R as <- <- <-. split; [| done]. split; [by split | done].
Qed.

Lemma get_keeps c addr v c' :
  core_wf c -> is_word addr -> addr .& ExtMask = 0 -> on_memory (GetWord addr) c = Ok (v, c') ->
  keeps c c' /\ v = mem_word (memory c) addr /\ cpu c' = cpu c /\ registers c' = registers c.
Proof.
  intros [Hr Hc Hw Hm] Ha Hal (m & R & ->)%zoom_ok.
  destruct (GetWord_run addr (memory c) Hw Hm Ha Hal) as (m' & RP & W & M & B).
  rewrite RP in R. injection R as <- <-. split; [| done]. split; [by split | exact B].
Qed.

Lemma set_writes c addr v u c' :
  core_wf c -> is_word addr -> addr .& ExtMask = 0 -> on_memory (SetWord addr v) c = Ok (u, c') ->
  core_wf c' /\ same_but_word addr (memory c) (memory c') /\ cpu c' = cpu c /\ registers c' = registers c.
Proof.
  intros [Hr Hc Hw Hm] Ha Hal (m & R & ->)%zoom_ok.
  destruct (SetWord_run addr v (memory c) Hw Hm Ha Hal) as (m' & RP & W & M & B).
  rewrite RP in R. injection R as <- <-. split; [by split |]. split; [| done].
  intros b Hb. cbn. rewrite B. unfold write_bytes. rewrite decide_False; [done |].
  by rewrite length_PutWord.
Qed.

Lemma write_reg_keeps c i v : core_wf c -> 0 < i -> is_word v -> keeps c (set_registers (set_reg i v (registers c)) c).
Proof. intros [Hr Hc Hw Hm] Hi Hv. split; [| done]. split; try done. by apply set_reg_wf. Qed.

Lemma write_pcs_keeps c pc next :
  core_wf c -> is_word pc -> is_word next -> keeps c (set_cpu (set_pcs pc next (cpu c)) c).
Proof. intros [Hr Hc Hw Hm] Hp Hn. split; [| done]. split; try done. by apply set_pcs_wf. Qed.

Lemma stack_keeps c t : core_wf c -> keeps c (set_stackTracker t c).
Proof. intros [Hr Hc Hw Hm]. split; [| done]. by split. Qed.

Lemma advance_keeps c u c' : core_wf c -> advance c = Ok (u, c') -> keeps c c'.
Proof.
  intros Hc R. unfold advance, write_pcs in R. st_inv. apply write_pcs_keeps; [done | | apply wadd_word].
  apply Hc.
Qed.

Lemma HandleRd_keeps storeReg val b c u c' :
  core_wf c -> 0 <= storeReg -> is_word val -> HandleRd storeReg val b c = Ok (u, c') -> keeps c c'.
Proof.
  intros Hc Hs Hv R. unfold HandleRd, write_reg in R. st_inv.
  - pose proof (write_reg_keeps c storeReg val Hc) as Hk. bool_lia.
    destruct Hk as [Hk1 Hk2]; [lia | done |].
    eapply keeps_trans; [exact (conj Hk1 Hk2) |]. by eapply advance_keeps.
  - by eapply advance_keeps.
Qed.

Lemma HandleJump_keeps linkReg dest c u c' :
  core_wf c -> 0 <= linkReg -> is_word dest -> HandleJump linkReg dest c = Ok (u, c') -> keeps c c'.
Proof.
  intros Hc Hl Hd R. unfold HandleJump, write_reg, write_pcs in R. st_inv.
  - destruct (write_pcs_keeps c (NextPC (cpu c)) dest Hc) as [H1 H2]; [apply Hc | done |].
    eapply keeps_trans; [exact (conj H1 H2) |].
    apply (write_reg_keeps (set_cpu _ c)); [done | bool_lia | apply wadd_word].
  - apply write_pcs_keeps; [done | apply Hc | done].
Qed.

Lemma hilo_wf fun_ rs rt (cs : CpuScalars) val cs' :
  is_word rs -> is_word rt -> cpu_wf cs -> hilo fun_ rs rt cs = Ok (val, cs') ->
  is_word val /\ cpu_wf cs'.
Proof.
  intros Hrs Hrt Hc.
  set (P := fun m : outcome (Z * CpuScalars) => forall v k2, m = Ok (v, k2) -> is_word v /\ cpu_wf k2).
  enough (P (hilo fun_ rs rt cs)) by (subst P; auto). unfold hilo.
  assert (HP : forall v k2, is_word v -> cpu_wf k2 -> P (Ok (v, k2))) by (intros v k2 ? ? ? ? [= <- <-]; done).
  assert (HPa : forall f m, P m -> P (assertMips64Fun f ;; m))
    by (intros f m Hm; unfold assertMips64Fun; destruct IsMips32; [done | exact Hm]).
  assert (Hset : forall lo hi, is_word lo -> is_word hi -> cpu_wf (set_LO lo (set_HI hi cs)))
    by (intros; destruct Hc; by split).
  assert (Hdiv : is_word (rs / rt) /\ is_word (rs mod rt) \/ rt = 0).
  { destruct (decide (rt = 0)) as [| Hne]; [by right | left]. unfold is_word, in_range in *.
    assert (rs / rt <= rs) by (apply Z.div_le_upper_bound; nia).
    pose proof (Z.mod_pos_bound rs rt ltac:(lia)). split; [split; [apply Z.div_pos; lia | lia] | lia]. }
  apply switch_all; [repeat (apply Forall_cons_2; [cbn [snd] |]); try apply Forall_nil_2 | apply HP; auto with word];
    try apply HPa; try (destruct (_ =? 0) eqn:E0; [done |]); unfold Mul64;
    try (destruct (xorb _ _)); apply HP; auto with word; try apply Hc; try apply Hset; auto with word;
    try (destruct Hdiv as [[? ?] | ->]; [done | discriminate E0]).
  all: apply Hc.
Qed.

Lemma HandleHiLo_keeps fun_ rs rt storeReg c u c' :
  core_wf c -> is_word rs -> is_word rt -> 0 <= storeReg ->
  HandleHiLo fun_ rs rt storeReg c = Ok (u, c') -> keeps c c'.
Proof.
  intros Hc Hrs Hrt Hs R. unfold HandleHiLo, write_reg in R. st_inv.
  all: destruct (hilo_wf _ _ _ _ _ _ Hrs Hrt (co_cpu c Hc) R1) as [Hv Hcpu].
  all: assert (keeps c (set_cpu c0 c)) as Hk1 by (destruct Hc; split; [by split | done]).
  all: eapply keeps_trans; [exact Hk1 |].
  - assert (keeps (set_cpu c0 c) (set_registers (set_reg storeReg z (registers c)) (set_cpu c0 c))) as Hk2
      by (apply (write_reg_keeps (set_cpu c0 c)); [apply Hk1 | bool_lia | done]).
    eapply keeps_trans; [exact Hk2 |]. eapply advance_keeps; [apply Hk2 | exact R].
  - eapply advance_keeps; [apply Hk1 | exact R].
Qed.

Lemma branch_condition_keeps opcode insn rtReg rs c r c' :
  core_wf c -> branch_condition opcode insn rtReg rs c = Ok (r, c') -> keeps c c'.
Proof.
  intros Hc R. unfold branch_condition, write_reg in R. st_inv;
    first [by apply keeps_refl | apply write_reg_keeps; [done | done | apply wadd_word]].
Qed.

Lemma HandleBranch_keeps opcode insn rtReg rs c u c' :
  core_wf c -> HandleBranch opcode insn rtReg rs c = Ok (u, c') -> keeps c c'.
Proof.
  intros Hc R. assert (is_word (NextPC (cpu c))) by apply Hc.
  unfold HandleBranch, write_pcs, push_stack in R. st_inv;
    (eapply keeps_trans; [by eapply branch_condition_keeps |]);
    (match goal with R : branch_condition _ _ _ _ _ = _ |- _ =>
       apply branch_condition_keeps in R as [Hk _]; [| done] end).
  - eapply keeps_trans; [apply write_pcs_keeps; [done | done | apply wadd_word] |].
    apply stack_keeps, write_pcs_keeps; [done | done | apply wadd_word].
  - apply write_pcs_keeps; [done | done | apply wadd_word].
  - apply write_pcs_keeps; [done | done | apply wadd_word].
Qed.

Lemma fetch_operands_wf opcode insn regs rt rdReg :
  reg_wf regs -> fetch_operands opcode insn regs = Ok (rt, rdReg) -> is_word rt /\ 0 <= rdReg.
Proof.
  intros Hr. unfold fetch_operands, assertMips64.
  assert (is_word (insn .& 0xFFFF)).
  { change 0xFFFF with (Z.ones 16). rewrite land_ones_mod by lia. apply small_word.
    pose proof (Z.mod_pos_bound insn (2 ^ 16) ltac:(lia)). change (2 ^ 16) with 65536 in *. lia. }
  repeat (match goal with |- (if ?b then _ else _) = _ -> _ => destruct b end);
    try (destruct IsMips32); try discriminate; intros [= <- <-];
    auto using reg_word, SignExtendImmediate_word with word.
Qed.

Lemma special_op_keeps fun_ rs rt rdReg op c u c' :
  core_wf c -> is_word rs -> is_word rt -> 0 <= rdReg ->
  special_op fun_ rs rt rdReg = Some op -> op c = Ok (u, c') -> keeps c c'.
Proof.
  intros Hc Hrs Hrt Hrd. unfold special_op. destruct ((8 <=? fun_) && _); [| done].
  repeat (match goal with |- (if ?b then _ else _) = _ -> _ => destruct b end);
    intros [= <-] R.
  - unfold push_stack, pop_stack in R. st_inv;
      (apply HandleJump_keeps in R; [| by apply stack_keeps | done | done]);
      (eapply keeps_trans; [| exact R]); by apply stack_keeps.
  - eapply HandleRd_keeps; [.. | exact R]; done.
  - eapply HandleRd_keeps; [.. | exact R]; done.
  - eapply HandleHiLo_keeps; [.. | exact R]; done.
Qed.

Lemma fetch_memory_keeps opcode insn rs c rs' mem addr st c' :
  core_wf c -> is_word rs -> fetch_memory opcode insn rs c = Ok ((rs', mem, addr, st), c') ->
  keeps c c' /\ is_word rs' /\ is_word mem /\ (st = true -> is_word addr /\ addr .& ExtMask = 0).
Proof.
  intros Hc Hrs R. unfold fetch_memory in R. destruct (_ || _); st_inv; subst.
  - destruct (aligned_word (wadd rs (SignExtendImmediate insn))) as [Ha Hal]; [apply wadd_word |].
    destruct (track_keeps _ _ _ _ Hc Ha R0) as [Hk1 _].
    destruct (get_keeps _ _ _ _ (proj1 Hk1) Ha Hal R1) as [Hk2 [-> _]].
    split; [exact (keeps_trans _ _ _ Hk1 Hk2) |]. split; [apply wadd_word |]. split; [| done].
    apply mem_word_word, Hk1.
  - split; [by apply keeps_refl |]. split; [done |]. split; [apply word_0 | done].
Qed.

(** What a step reports about memory. *)
Definition reported (upd : bool) (addr : Z) (m m' : Memory) : Prop :=
  if upd then is_word addr /\ addr .& ExtMask = 0 /\ same_but_word addr m m'
  else same_bytes m m'.

Lemma keeps_reported c c' : keeps c c' -> core_wf c' /\ reported false 0 (memory c) (memory c').
Proof. done. Qed.

Lemma maxWord_unaligned : wnot 0 .& ExtMask <> 0.
Proof. destruct A; vm_compute; discriminate. Qed.

Lemma ExecMipsCoreStepLogic_wf insn opcode fun_ c upd addr c' :
  core_wf c -> in_range 32 insn ->
  ExecMipsCoreStepLogic insn opcode fun_ c = Ok ((upd, addr), c') ->
  core_wf c' /\ reported upd addr (memory c) (memory c').
Proof.
  intros Hc Hi R. unfold ExecMipsCoreStepLogic in R. destruct ((opcode =? 2) || _).
  { st_inv. apply keeps_reported. unfold push_stack in R1. st_inv.
    apply HandleJump_keeps in R2; [| by apply stack_keeps | by destruct (opcode =? 3) |].
    { eapply keeps_trans; [| exact R2]. by apply stack_keeps. }
    apply lor_word; [apply land_word; [apply Hc | apply word_nonneg; auto with word] | apply Word_word]. }
  apply ST_bind_ok in R as (regs & c0 & R0 & R). injection R0 as <- <-.
  apply ST_bind_ok in R as ([rt rdReg] & c0 & R0 & R). apply lift_ok in R0 as [R0 ->].
  destruct (fetch_operands_wf _ _ _ _ _ (co_regs c Hc) R0) as [Hrt Hrd].
  destruct (_ || (opcode =? 1)).
  { st_inv. apply keeps_reported. by eapply HandleBranch_keeps. }
  apply ST_bind_ok in R as ([[[rs mem] a] st] & c1 & R1 & R).
  destruct (fetch_memory_keeps _ _ _ _ _ _ _ _ _ Hc (reg_word _ _ (co_regs c Hc)) R1)
    as (Hk1 & Hrs & Hmem & Hst).
  apply ST_bind_ok in R as (val & c2 & R2 & R). apply lift_ok in R2 as [R2 ->].
  assert (is_word val) as Hval by (eapply ExecuteMipsInstruction_word; [exact Hrs | exact Hrt | exact Hmem | exact R2]).
  assert (0 <= (if st then 0 else rdReg)) as Hrd' by (by destruct st).
  destruct (if opcode =? 0 then _ else _) as [op |] eqn:Eop.
  { apply ST_bind_ok in R as ([] & c3 & R3 & R). injection R as <- <- <-.
    apply keeps_reported. eapply keeps_trans; [exact Hk1 |].
    destruct (opcode =? 0); [| done]. eapply special_op_keeps; [apply Hk1 | .. | exact Eop | exact R3]; done. }
  apply ST_bind_ok in R as ([upd' addr'] & c3 & R3 & R).
  apply ST_bind_ok in R as ([] & c4 & R4 & R). injection R as <- <- <-.
  destruct (negb _) eqn:Est in R3; st_inv.
  - destruct st; [| rewrite Z.eqb_refl in Est; done].
    destruct (Hst eq_refl) as [Ha Hal].
    destruct (track_keeps _ _ _ _ (proj1 Hk1) Ha R) as [Hk3 _].
    destruct (set_writes _ _ _ _ _ (proj1 Hk3) Ha Hal R5) as (Hc5 & Hm5 & _).
    destruct (HandleRd_keeps _ _ _ _ _ _ Hc5 Hrd' Hval R4) as [Hc6 Hm6].
    split; [done |]. split; [done | split; [done |]]. intros b Hb.
    rewrite Hm6, Hm5 by done. destruct Hk3 as [_ ->]. apply Hk1.
  - apply keeps_reported. eapply keeps_trans; [exact Hk1 |]. by eapply HandleRd_keeps; [apply Hk1 | .. | exact R4].
Qed.

End CoreStep.
