(* ===== verification/SyscallProps.v ===== *)
(** The syscall handlers shared by the two VMs: mmap, reads and writes on the
    pre-image and hint channels. *)
From Stdlib Require Import ZArith Lia.
From stdpp Require Import base gmap list strings numbers.
From S2P Require Import Prelude Arch Codec Insn Memory Exec MerkleSpec MemoryProps MerkleProps.
From S2P Require Import MemoryRange InsnProps ExecProps.

(** ** Heap growth *)

Definition page_aligned (x : Z) : Prop := x mod PageSize = 0.

Section Mmap.
Context {A : Arch}.

Lemma HeapEnd_word : is_word HeapEnd /\ page_aligned HeapEnd.
Proof. destruct A; by vm_compute. Qed.

(** [sz] rounded up to a multiple of the page size. *)
Definition round_up (sz : Z) : Z := (sz + PageSize - 1) / PageSize * PageSize.

Lemma mmap_size sz :
  is_word sz ->
  (if negb (sz .& PageAddrMask =? 0) then wadd sz (wsub PageSize (sz .& PageAddrMask)) else sz)
  = Word (round_up sz).
Proof.
  intros [H1 H2]. rewrite page_offset. unfold round_up.
  assert (PageSize < 2 ^ WordSize) by (by destruct A).
  pose proof (Z.mod_pos_bound sz PageSize ltac:(done)) as Hm. pose proof (Z.div_mod sz PageSize ltac:(done)) as Hd.
  destruct (Z.eqb_spec (sz mod PageSize) 0) as [E | E]; cbn [negb].
  - assert ((sz + PageSize - 1) / PageSize = sz / PageSize) as ->.
    { symmetry. apply (Z.div_unique _ _ _ (PageSize - 1)); lia. }
    rewrite Word_id; [lia |]. unfold is_word, in_range. lia.
  - assert ((sz + PageSize - 1) / PageSize = sz / PageSize + 1) as ->.
    { symmetry. apply (Z.div_unique _ _ _ (sz mod PageSize - 1)); lia. }
    rewrite wsub_small by (unfold is_word, in_range; lia). unfold wadd, uadd, Word. f_equal. lia.
Qed.

Lemma HandleSysMmap_grow a1 heap v0 v1 heap' :
  is_word a1 -> is_word heap -> HandleSysMmap 0 a1 heap = (v0, v1, heap') ->
  (v0 = heap /\ v1 = 0 /\ heap' = heap + round_up a1 /\ heap' <= HeapEnd)
  \/ (v0 = SysErrorSignal /\ v1 = MipsEINVAL /\ heap' = heap /\ HeapEnd < heap + round_up a1).
Proof.
  intros Ha Hh. unfold HandleSysMmap. rewrite mmap_size by done. change (0 =? 0) with true. cbv iota.
  destruct Ha as [Ha1 Ha2]. destruct Hh as [Hh1 Hh2]. destruct HeapEnd_word as [[He1 He2] _].
  assert (Hr : a1 <= round_up a1 < a1 + PageSize).
  { unfold round_up. change PageSize with 4096. Z.to_euclidean_division_equations; lia. }
  assert (PageSize < 2 ^ WordSize) by (by destruct A).
  set (r := round_up a1) in *. set (W := 2 ^ WordSize) in *.
  assert (HW : forall x, 0 <= x < 2 * W -> wrap WordSize x = if x <? W then x else x - W).
  { intros x Hx. unfold wrap. fold W. destruct (Z.ltb_spec x W); [apply Z.mod_small; lia |].
    symmetry. apply (Z.mod_unique _ _ 1); lia. }
  assert (HeapEnd + PageSize < W) by (by destruct A).
  assert (Word r = if r <? W then r else r - W) as -> by (apply HW; lia).
  destruct (Z.ltb_spec r W) as [Hr2 | Hr2].
  - assert (wadd heap r = if heap + r <? W then heap + r else heap + r - W) as -> by (apply HW; lia).
    destruct (Z.ltb_spec (heap + r) W);
      destruct (_ || _) eqn:E; intros [= <- <- <-]; bool_lia;
      try (apply orb_true_iff in E as [E | E]; [apply orb_true_iff in E as [E | E] |]; bool_lia).
    all: first [right; split; [done | split; [done | split; [done | lia]]]
               | left; split; [done | split; [done | split; [done | lia]]]].
  - assert (E : (r - W <? a1) = true) by (apply Z.ltb_lt; lia). rewrite E, orb_true_r.
    intros [= <- <- <-]. right. split; [done | split; [done | split; [done | lia]]].
Qed.

End Mmap.

(** ** The pre-image oracle reader *)

(** A pre-image as the program reads it: with its length in front. *)
Definition prefixed (data : list Z) : list Z := be_encode 8 (wrap 64 (zlen data)) ++ data.

(** The cached pre-image, if it is that of [key], is right. *)
Definition oracle_ok {PO : PreimageOracle} (key : list Z) (p : TrackingPreimageOracleReader) : Prop :=
  key = lastPreimageKey p -> lastPreimage p = prefixed (po_GetPreimage key).

Section Oracle.
Context {A : Arch} {PO : PreimageOracle}.

(** A read delivers up to 32 bytes from the offset and leaves the cache right. *)
Lemma ReadPreimage_spec key off p :
  oracle_ok key p -> 0 <= off < zlen (prefixed (po_GetPreimage key)) ->
  is_word (zlen (prefixed (po_GetPreimage key))) ->
  let chunk := take 32 (drop (Z.to_nat off) (prefixed (po_GetPreimage key))) in
  exists p', ReadPreimage key off p
      = Ok ((chunk ++ replicate (32 - length chunk) 0, zlen chunk), p') /\
    lastPreimageKey p' = key /\ lastPreimage p' = prefixed (po_GetPreimage key) /\
    lastPreimageOffset p' = off /\ hints p' = hints p.
Proof.
  intros Hok Hoff Hw chunk. unfold ReadPreimage, GetPreimage. set (pre := prefixed _) in *.
  rewrite (ST_bind_run _ _ _ p p) by done.
  assert (Hin : (Word (zlen pre) <=? off) = false) by (rewrite Word_id by done; apply Z.leb_gt; lia).
  destruct (bool_decide_reflect (key = lastPreimageKey p)) as [E | E]; cbn [negb].
  - erewrite ST_bind_run; [| done]. erewrite ST_bind_run; [| done].
    rewrite (Hok E). fold pre. rewrite Hin. eexists. split; [done |]. cbn. auto.
  - erewrite ST_bind_run; [| done]. erewrite ST_bind_run; [| done].
    change (be_encode 8 (wrap 64 (zlen (po_GetPreimage key))) ++ po_GetPreimage key) with pre.
    rewrite Hin. eexists. split; [done |]. done.
Qed.

Lemma ReadPreimage_out_of_bounds key off p :
  oracle_ok key p -> is_word (zlen (prefixed (po_GetPreimage key))) ->
  zlen (prefixed (po_GetPreimage key)) <= off -> exists e, ReadPreimage key off p = Panic e.
Proof.
  intros Hok Hw Hoff. unfold ReadPreimage, GetPreimage. set (pre := prefixed _) in *.
  rewrite (ST_bind_run _ _ _ p p) by done.
  assert (Hin : (Word (zlen pre) <=? off) = true) by (rewrite Word_id by done; apply Z.leb_le; lia).
  destruct (bool_decide_reflect (key = lastPreimageKey p)) as [E | E]; cbn [negb].
  - erewrite ST_bind_run; [| done]. erewrite ST_bind_run; [| done].
    rewrite (Hok E). fold pre. rewrite Hin. eexists. done.
  - erewrite ST_bind_run; [| done]. erewrite ST_bind_run; [| done].
    change (be_encode 8 (wrap 64 (zlen (po_GetPreimage key))) ++ po_GetPreimage key) with pre.
    rewrite Hin. eexists. done.
Qed.

(** Any read that returns leaves the hints alone and delivers at most 32
    bytes. *)
Lemma ReadPreimage_bound key off p dat n p' :
  0 <= off -> ReadPreimage key off p = Ok ((dat, n), p') ->
  0 <= n <= 32 /\ length dat = 32%nat /\ n = zlen (take (Z.to_nat n) dat).
Proof.
  intros Hoff R. unfold ReadPreimage in R.
  apply ST_bind_ok in R as (p1 & s1 & _ & R). apply ST_bind_ok in R as (pre & s2 & _ & R).
  apply ST_bind_ok in R as (u & s3 & _ & R). destruct (_ <=? off); [done |].
  injection R as <- <- <-. set (chunk := take 32 _).
  assert (length chunk <= 32)%nat by (unfold chunk; rewrite length_take; lia).
  unfold zlen. rewrite length_app, length_replicate, length_take, length_app, length_replicate. lia.
Qed.

End Oracle.

(** ** I/O syscalls *)

Record io_wf {A : Arch} {K : Keccak} (i : IO) : Prop := {
  iw_mem : mem_wf (io_memory i);
  iw_merkle : merkle_ok (io_memory i);
}.

Section IO.
Context {A : Arch} {K : Keccak} {PO : PreimageOracle}.

Lemma io_track i addr u i' :
  io_wf i -> is_word addr -> io_tracker (TrackMemAccess addr) i = Ok (u, i') ->
  io_wf i' /\ same_bytes (io_memory i) (io_memory i') /\ io_oracle i' = io_oracle i.
Proof.
  intros [Hw Hm] Ha ([mem t] & R & ->)%zoom_ok. unfold TrackMemAccess in R.
  destruct (memProofEnabled _ && _).
  - destruct (negb _); [done |].
    destruct (MerkleProof_run addr (io_memory i) Hw Hm Ha) as (p & m' & RP & W & M & B).
    rewrite RP in R. injection R as <- <- <-. split; [by split | split; [exact B | done]].
  - injection R as <- <- <-. by split.
Qed.

Lemma io_track2 i addr u i' :
  io_wf i -> is_word addr -> io_tracker (TrackMemAccess2 addr) i = Ok (u, i') ->
  io_wf i' /\ same_bytes (io_memory i) (io_memory i') /\ io_oracle i' = io_oracle i.
Proof.
  intros [Hw Hm] Ha ([mem t] & R & ->)%zoom_ok. unfold TrackMemAccess2 in R.
  destruct (memProofEnabled _ && _); [done |].
  destruct (MerkleProof_run addr (io_memory i) Hw Hm Ha) as (p & m' & RP & W & M & B).
  rewrite RP in R. injection R as <- <- <-. split; [by split | split; [exact B | done]].
Qed.

Lemma io_get i addr v i' :
  io_wf i -> is_word addr -> addr .& ExtMask = 0 -> io_mem (GetWord addr) i = Ok (v, i') ->
  io_wf i' /\ same_bytes (io_memory i) (io_memory i') /\ v = mem_word (io_memory i) addr /\
  io_oracle i' = io_oracle i.
Proof.
  intros [Hw Hm] Ha Hal (m & R & ->)%zoom_ok.
  destruct (GetWord_run addr (io_memory i) Hw Hm Ha Hal) as (m' & RP & W & M & B).
  rewrite RP in R. injection R as <- <-. split; [by split | split; [exact B | done]].
Qed.

Lemma io_set i addr v u i' :
  io_wf i -> is_word addr -> addr .& ExtMask = 0 -> io_mem (SetWord addr v) i = Ok (u, i') ->
  io_wf i' /\ io_oracle i' = io_oracle i /\
  (forall b, mem_byte (io_memory i') b = write_bytes (mem_byte (io_memory i)) addr (ByteOrder_PutWord v) b).
Proof.
  intros [Hw Hm] Ha Hal (m & R & ->)%zoom_ok.
  destruct (SetWord_run addr v (io_memory i) Hw Hm Ha Hal) as (m' & RP & W & M & B).
  rewrite RP in R. injection R as <- <-. split; [by split | done].
Qed.

Lemma write_word_same_but addr v (m m' : Memory) :
  (forall b, mem_byte m' b = write_bytes (mem_byte m) addr (ByteOrder_PutWord v) b) ->
  same_but_word addr m m'.
Proof.
  intros Hb b Hn. rewrite Hb. unfold write_bytes. rewrite decide_False; [done |].
  by rewrite length_PutWord.
Qed.

Lemma same_but_trans addr (m1 m2 m3 : Memory) :
  same_bytes m1 m2 -> same_but_word addr m2 m3 -> same_but_word addr m1 m3.
Proof. intros H1 H2 b Hb. by rewrite H2, H1. Qed.

Lemma error_word : is_word (wnot 0) /\ is_word MipsEBADF.
Proof. split; [apply wnot_word | apply small_word; done]. Qed.

Lemma reported_refl addr (m : Memory) : reported false addr m m.
Proof. done. Qed.

Lemma HandleSysRead_wf a0 a1 a2 key off i v0 v1 off' upd addr i' :
  io_wf i -> is_word a1 -> is_word a2 -> is_word off ->
  HandleSysRead a0 a1 a2 key off i = Ok ((v0, v1, off', upd, addr), i') ->
  io_wf i' /\ is_word v0 /\ is_word v1 /\ is_word off' /\
  reported upd addr (io_memory i) (io_memory i').
Proof.
  intros Hi Ha1 Ha2 Hoff.
  set (P := fun m : ST IO (Z * Z * Z * bool * Z) => forall r i2, m i = Ok (r, i2) ->
    let '(v0, v1, off', upd, addr) := r in
    io_wf i2 /\ is_word v0 /\ is_word v1 /\ is_word off' /\ reported upd addr (io_memory i) (io_memory i2)).
  enough (P (HandleSysRead a0 a1 a2 key off)) as HP by (intros R; exact (HP _ _ R)).
  unfold HandleSysRead. apply switch_all.
  - repeat (apply Forall_cons_2; [cbn [snd] |]); try apply Forall_nil_2.
    + intros r i2 [= <- <-]. split; [done |]. auto 6 using reported_refl with word.
    + intros r i2 R. destruct (aligned_word a1 Ha1) as [Hw Hal].
      apply ST_bind_ok in R as (u & i3 & R1 & R). apply io_track in R1 as (Hi3 & B3 & _); [| done ..].
      apply ST_bind_ok in R as (mem & i4 & R1 & R). apply io_get in R1 as (Hi4 & B4 & _); [| done ..].
      apply ST_bind_ok in R as ([dat n] & i5 & R1 & R).
      apply zoom_ok in R1 as (o & R1 & ->). destruct (ReadPreimage_bound _ _ _ _ _ _ (proj1 Hoff) R1) as (Hn & _).
      apply ST_bind_ok in R as ([] & i6 & R2 & R). injection R as <- <-.
      apply io_set in R2 as (Hi6 & _ & B6); [| by split; apply Hi4 | done | done].
      split; [done |]. split; [| split; [apply word_0 | split; [apply wadd_word |]]].
      * assert (is_word n) by (apply small_word; change (2 ^ 32) with 4294967296; lia).
        repeat match goal with |- context [if ?b then _ else _] => destruct b end;
          first [done | apply wsub_word].
      * split; [done | split; [done |]]. eapply same_but_trans; [| by eapply write_word_same_but].
        intros b. cbn. by rewrite B4, B3.
    + intros r i2 [= <- <-]. split; [done |]. auto 6 using reported_refl with word.
  - intros r i2 [= <- <-]. split; [done |]. destruct error_word. auto 6 using reported_refl.
Qed.

(** Any read that returns leaves the store alone, also one whose range wraps
    around the address space. *)
Lemma memReader_Read_any m d r x m' :
  mem_wf m -> is_word (mr_addr r) -> memReader_Read d r m = Ok (x, m') ->
  mem_wf m' /\ same_store m m' /\
  match x with Some (out, r') => bytes_ok out /\ is_word (mr_addr r') | None => True end.
Proof.
  intros Hw Ha R. unfold memReader_Read in R. destruct (_ =? 0); [by injection R as <- <- |].
  destruct (PageLookup_spec m _ Hw (page_key_range _ Ha)) as (m1 & Hl & Hs & Hw1).
  rewrite (ST_bind_run _ _ _ _ _ Hl) in R. apply ST_bind_ok in R as (src & m2 & R2 & R).
  assert (m2 = m1 /\ bytes_ok src) as [-> Hsrc].
  { destruct (bool_decide _); st_inv.
    - apply deref_inv in R0 as (_ & Hp & ->). st_inv.
      split; [done |]. apply bytes_ok_slice. eapply pw_bytes, wf_pages; done.
    - split; [done |]. by apply Forall_replicate. }
  injection R as <- <-. split; [done | split; [done |]]. split; [by apply Forall_take | apply wadd_word].
Qed.

Lemma ReadAll_loop_any fuel b r acc m out m' :
  mem_wf m -> is_word (mr_addr r) -> bytes_ok acc -> ReadAll_loop fuel b r acc m = Ok (out, m') ->
  mem_wf m' /\ same_store m m' /\ bytes_ok out.
Proof.
  revert r acc m. induction fuel as [|fuel IH]; intros r acc m Hw Ha Hacc R; [done |].
  cbn [ReadAll_loop] in R. apply ST_bind_ok in R as (x & m1 & R1 & R).
  destruct (memReader_Read_any _ _ _ _ _ Hw Ha R1) as (Hw1 & Hs1 & Hx).
  destruct x as [[o r'] |]; [| by injection R as <- <-].
  destruct (IH r' (acc ++ o) m1) as (Hw2 & Hs2 & Ho); try done; [apply Hx | apply Forall_app; split; [done | apply Hx] |].
  split; [done | split; [by eapply same_store_trans | done]].
Qed.

Lemma io_read_all b a1 a2 i out i' :
  io_wf i -> is_word a1 -> io_mem (ReadAll b (ReadMemoryRange a1 a2)) i = Ok (out, i') ->
  io_wf i' /\ same_bytes (io_memory i) (io_memory i') /\ bytes_ok out.
Proof.
  intros [Hw Hm] Ha (m & R & ->)%zoom_ok. apply ReadAll_loop_any in R as (W & Hs & Ho); [| done | done | by constructor].
  split; [split; [done | by eapply merkle_ok_same_store] | split; [| done]].
  intros b0. by apply mem_byte_same_store.
Qed.

Lemma process_hints_wf fuel h i h' i' :
  io_wf i -> bytes_ok h -> process_hints fuel h i = Ok (h', i') ->
  io_wf i' /\ io_memory i' = io_memory i /\ bytes_ok h'.
Proof.
  revert h i. induction fuel as [|fuel IH]; intros h i Hi Hh R; cbn [process_hints] in R;
    (destruct (4 <=? zlen h); [| by injection R as <- <-]);
    (destruct (_ <=? _); [| by injection R as <- <-]); (destruct (_ <? 4); [done |]).
  - apply ST_bind_ok in R as (u & i1 & R1 & R). done.
  - apply ST_bind_ok in R as (u & i1 & R1 & R). apply zoom_ok in R1 as (o & R1 & ->).
    apply IH in R as (H1 & H2 & H3); [done | by destruct Hi | by apply Forall_drop].
Qed.

Definition key_ok (key : list Z) : Prop := length key = 32%nat /\ bytes_ok key.

(** Shifting [n] bytes [tmp] into a 32-byte key. *)
Lemma shift_key key n tmp :
  key_ok key -> 0 <= n <= 32 -> zlen tmp = n ->
  splice (32 - n) tmp (splice 0 (drop (Z.to_nat n) key) key) = drop (Z.to_nat n) key ++ tmp.
Proof.
  intros [Hl _] Hn Ht. unfold splice, zlen in *. rewrite take_0, app_nil_l, Nat.add_0_l.
  rewrite take_app_le by (rewrite length_drop; lia).
  rewrite (take_ge (drop _ key)) by (rewrite length_drop; lia). f_equal.
  rewrite drop_ge; [by rewrite app_nil_r |]. rewrite length_app, !length_drop. lia.
Qed.

Lemma preimage_write_len a1 a2 :
  is_word a1 -> is_word a2 ->
  let space := wsub WordSizeBytes (a1 .& ExtMask) in
  let n := if space <? a2 then space else a2 in
  n = Z.min (WordSizeBytes - a1 mod WordSizeBytes) a2 /\ 0 <= n <= WordSizeBytes - a1 mod WordSizeBytes.
Proof.
  intros H1 [H2 _]. rewrite ExtMask_mod. pose proof (Z.mod_pos_bound a1 WordSizeBytes WordSizeBytes_pos).
  rewrite wsub_small by (first [lia | apply small_word; split; [lia | by destruct A]]).
  cbn zeta. destruct (Z.ltb_spec (WordSizeBytes - a1 mod WordSizeBytes) a2); lia.
Qed.

Lemma write_key_eq a1 a2 key mem :
  is_word a1 -> is_word a2 -> key_ok key ->
  let space := wsub WordSizeBytes (a1 .& ExtMask) in
  let n := if space <? a2 then space else a2 in
  let tmp := ByteOrder_PutWord mem in
  splice (32 - n) (take (Z.to_nat n) (drop (Z.to_nat (a1 .& ExtMask)) tmp))
    (splice 0 (drop (Z.to_nat n) key) key)
  = drop (Z.to_nat n) key ++ take (Z.to_nat n) (drop (Z.to_nat (a1 .& ExtMask)) tmp).
Proof.
  intros H1 H2 Hk space n tmp. destruct (preimage_write_len a1 a2 H1 H2) as [_ Hn]. fold space n in Hn.
  pose proof (Z.mod_pos_bound a1 WordSizeBytes WordSizeBytes_pos).
  assert (WordSizeBytes <= 8) by (by destruct A).
  apply shift_key; [done | lia |]. pose proof (length_PutWord mem) as Hl. fold tmp in Hl.
  unfold zlen in *. rewrite length_take, length_drop, ExtMask_mod. lia.
Qed.

Lemma HandleSysWrite_wf a0 a1 a2 hint key off i v0 v1 hint' key' off' i' :
  io_wf i -> is_word a1 -> is_word a2 -> is_word off -> bytes_ok hint -> key_ok key ->
  HandleSysWrite a0 a1 a2 hint key off i = Ok ((v0, v1, hint', key', off'), i') ->
  io_wf i' /\ is_word v0 /\ is_word v1 /\ bytes_ok hint' /\ key_ok key' /\ is_word off' /\
  same_bytes (io_memory i) (io_memory i').
Proof.
  intros Hi Ha1 Ha2 Hoff Hh Hk.
  set (P := fun m : ST IO (Z * Z * list Z * list Z * Z) => forall r i2, m i = Ok (r, i2) ->
    let '(v0, v1, hint', key', off') := r in
    io_wf i2 /\ is_word v0 /\ is_word v1 /\ bytes_ok hint' /\ key_ok key' /\ is_word off' /\
    same_bytes (io_memory i) (io_memory i2)).
  enough (P (HandleSysWrite a0 a1 a2 hint key off)) as HP by (intros R; exact (HP _ _ R)).
  unfold HandleSysWrite. apply switch_all.
  - repeat (apply Forall_cons_2; [cbn [snd] |]); try apply Forall_nil_2.
    + intros r i2 R. apply ST_bind_ok in R as (out & i3 & R1 & R).
      apply io_read_all in R1 as ([H1 H2] & B & _); [| done ..].
      injection R as <- <-. split; [by split |]. auto 8 with word.
    + intros r i2 R. apply ST_bind_ok in R as (out & i3 & R1 & R).
      apply io_read_all in R1 as ([H1 H2] & B & _); [| done ..].
      injection R as <- <-. split; [by split |]. auto 8 with word.
    + intros r i2 R. apply ST_bind_ok in R as (out & i3 & R1 & R).
      apply io_read_all in R1 as (H1 & B & Ho); [| done ..].
      apply ST_bind_ok in R as (h & i4 & R1 & R). injection R as <- <-.
      apply process_hints_wf in R1 as (H2 & E & Hh2); [| done | by apply Forall_app].
      split; [done |]. rewrite E. auto 8 with word.
    + intros r i2 R. destruct (aligned_word a1 Ha1) as [Hw Hal].
      apply ST_bind_ok in R as (u & i3 & R1 & R). apply io_track in R1 as (Hi3 & B3 & _); [| done ..].
      apply ST_bind_ok in R as (mem & i4 & R1 & R). apply io_get in R1 as (Hi4 & B4 & -> & _); [| done ..].
      injection R as <- <-. rewrite write_key_eq by done.
      set (n := if _ <? a2 then _ else _).
      destruct (preimage_write_len a1 a2 Ha1 Ha2) as [_ Hn]. fold n in Hn.
      assert (WordSizeBytes <= 8) by (by destruct A).
      pose proof (Z.mod_pos_bound a1 WordSizeBytes WordSizeBytes_pos).
      split; [done |]. split; [unfold n; destruct (_ <? a2); auto with word |].
      split; [apply word_0 |]. split; [done |].
      split; [| split; [apply word_0 | intros b; by rewrite B4, B3]].
      pose proof (length_PutWord (mem_word (io_memory i3) (a1 .& AddressMask))) as Hl.
      destruct Hk as [Hk1 Hk2]. split.
      * unfold zlen in Hl. rewrite length_app, length_take, !length_drop, ExtMask_mod. lia.
      * apply Forall_app; split; [by apply Forall_drop | apply Forall_take, Forall_drop, be_encode_bytes].
  - intros r i2 [= <- <-]. split; [done |]. destruct error_word. split; [done | split; [done |]].
    by split; [| split; [| split]].
Qed.

End IO.
