(* ===== verification/SyscallSpec.v ===== *)
(** What the loads and stores of the VM do to the memory, byte by byte:
    sub-word accesses of [LoadSubWord] and [StoreSubWord], and the pairs of
    instructions that access a word at an unaligned address. *)
From Stdlib Require Import ZArith Lia.
From stdpp Require Import base gmap list strings numbers.
From S2P Require Import Prelude Arch Codec Insn Memory Exec MerkleSpec MemoryProps MerkleProps.
From S2P Require Import MemoryRange InsnProps ExecProps SyscallProps.

Lemma AddressMask_sub {A : Arch} a : is_word a -> a .& AddressMask = a - a mod WordSizeBytes.
Proof.
  intros Ha. assert (a .& AddressMask = a - a .& ExtMask) as ->; [| by rewrite ExtMask_mod].
  assert (a = (a .& AddressMask) + (a .& ExtMask)) as E; [| lia].
  rewrite Z.add_nocarry_lxor.
  - rewrite Z.lxor_lor.
    + rewrite <- Z.land_lor_distr_r. replace (AddressMask .| ExtMask) with (Z.ones WordSize) by (by destruct A).
      rewrite land_ones_mod by apply WordSize_nonneg. symmetry. by apply wrap_small.
    + rewrite Z.land_assoc, (Z.land_comm _ a), Z.land_assoc, Z.land_diag, <- Z.land_assoc.
      replace (AddressMask .& ExtMask) with 0 by (by destruct A). apply Z.land_0_r.
  - rewrite Z.land_assoc, (Z.land_comm _ a), Z.land_assoc, Z.land_diag, <- Z.land_assoc.
    replace (AddressMask .& ExtMask) with 0 by (by destruct A). apply Z.land_0_r.
Qed.

(** ** Byte ranges of a function *)

Lemma fbytes_slice f a n lo hi :
  0 <= lo <= hi -> hi <= Z.of_nat n -> slice lo hi (fbytes f a n) = fbytes f (a + lo) (Z.to_nat (hi - lo)).
Proof.
  intros H1 H2. assert (length (slice lo hi (fbytes f a n)) = Z.to_nat (hi - lo)) as Hl.
  { rewrite length_slice; unfold zlen; rewrite ?length_fbytes; lia. }
  apply list_eq_same_length with (Z.to_nat (hi - lo)); [by rewrite length_fbytes | done |].
  intros i x y Hi. rewrite lookup_slice by lia. rewrite !lookup_fbytes by lia.
  intros [= <-] [= <-]. f_equal. lia.
Qed.

Lemma fbytes_take f a n k : (k <= n)%nat -> take k (fbytes f a n) = fbytes f a k.
Proof.
  intros Hk. replace n with (k + (n - k))%nat by lia. rewrite fbytes_app, take_app_le by (rewrite length_fbytes; lia).
  apply take_ge. by rewrite length_fbytes.
Qed.

Lemma fbytes_drop f a n k : (k <= n)%nat -> drop k (fbytes f a n) = fbytes f (a + Z.of_nat k) (n - k).
Proof.
  intros Hk. replace n with (k + (n - k))%nat at 1 by lia. rewrite fbytes_app, drop_app_ge by (rewrite length_fbytes; lia).
  by rewrite length_fbytes, Nat.sub_diag, drop_0.
Qed.

Lemma list_byte_fbytes f a n k : 0 <= k < Z.of_nat n -> list_byte (fbytes f a n) k = f (a + k).
Proof. intros Hk. unfold list_byte. rewrite lookup_fbytes by lia. cbn. f_equal. lia. Qed.

(** Writing back a range with some bytes replaced. *)
Lemma write_bytes_splice f a n off bs b :
  0 <= off -> off + zlen bs <= Z.of_nat n ->
  write_bytes f a (splice off bs (fbytes f a n)) b = write_bytes f (a + off) bs b.
Proof.
  intros Ho Hl. unfold write_bytes.
  assert (zlen (splice off bs (fbytes f a n)) = Z.of_nat n) as El.
  { unfold zlen. rewrite length_splice; unfold zlen in *; rewrite ?length_fbytes; lia. }
  rewrite El. case_decide as H1.
  - unfold list_byte at 1. rewrite lookup_splice by (unfold zlen in *; rewrite ?length_fbytes; lia).
    repeat case_decide; unfold zlen in *; try lia.
    + unfold list_byte. do 2 f_equal. lia.
    + rewrite lookup_fbytes by lia. cbn. f_equal. lia.
  - rewrite decide_False; [done |]. unfold zlen in *. lia.
Qed.

(** Writing back what is there. *)
Lemma write_bytes_tail f a l c n b : c = a + zlen l -> write_bytes f a (l ++ fbytes f c n) b = write_bytes f a l b.
Proof.
  intros ->. rewrite <- write_bytes_app. unfold write_bytes at 1. case_decide as H; [| done].
  unfold zlen in H. rewrite length_fbytes in H. rewrite list_byte_fbytes by (unfold zlen in *; lia).
  unfold write_bytes, zlen in *. rewrite decide_False by lia. f_equal. lia.
Qed.

Lemma write_bytes_head f a n l b : write_bytes f a (fbytes f a n ++ l) b = write_bytes f (a + Z.of_nat n) l b.
Proof.
  rewrite <- write_bytes_app. unfold zlen. rewrite length_fbytes. apply write_bytes_ext. intros x.
  unfold write_bytes, zlen. rewrite length_fbytes. case_decide; [| done].
  rewrite list_byte_fbytes by lia. f_equal. lia.
Qed.

Section SubWordMemory.
Context {A : Arch} {K : Keccak}.

Definition sub_addr (vaddr n : Z) : Z := vaddr - vaddr mod n.

Lemma sub_addr_eq vaddr n : is_word vaddr -> vaddr .& AddressMask + sub_off vaddr n = sub_addr vaddr n.
Proof. intros Hv. rewrite AddressMask_sub by done. unfold sub_off, sub_addr. lia. Qed.

Lemma word_len : Z.of_nat (Z.to_nat WordSizeBytes) = WordSizeBytes.
Proof. pose proof WordSizeBytes_pos. lia. Qed.

(** A load reads the [n] bytes of the aligned sub-word that holds [vaddr]. *)
Lemma select_mem m vaddr n :
  mem_wf m -> is_word vaddr -> sub_size n ->
  SelectSubWord vaddr (mem_word m (vaddr .& AddressMask)) n false
  = be_decode (fbytes (mem_byte m) (sub_addr vaddr n) (Z.to_nat n)).
Proof.
  intros Hw Hv Hn. pose proof (sub_off_range vaddr n Hn) as Hr. pose proof word_len.
  unfold mem_word. rewrite SelectSubWord_spec.
  - rewrite fbytes_slice by (unfold sub_size in Hn; lia). rewrite sub_addr_eq by done. do 2 f_equal. lia.
  - by apply mem_bytes_ok.
  - unfold zlen. by rewrite length_fbytes.
  - done.
Qed.

(** A store replaces them and nothing else. *)
Lemma update_mem m vaddr n v b :
  mem_wf m -> is_word vaddr -> sub_size n ->
  let eff := vaddr .& AddressMask in
  write_bytes (mem_byte m) eff (ByteOrder_PutWord (UpdateSubWord vaddr (mem_word m eff) n v)) b
  = write_bytes (mem_byte m) (sub_addr vaddr n) (be_encode (Z.to_nat n) v) b.
Proof.
  intros Hw Hv Hn eff. pose proof (sub_off_range vaddr n Hn) as Hr. pose proof word_len.
  assert (0 < n) by (unfold sub_size in Hn; lia).
  assert (zlen (be_encode (Z.to_nat n) v) = n) as Ln by (unfold zlen; rewrite length_be_encode; lia).
  unfold mem_word. rewrite UpdateSubWord_spec.
  2: by apply mem_bytes_ok. 2: unfold zlen; by rewrite length_fbytes. 2: done.
  set (l := splice _ _ _). assert (zlen l = WordSizeBytes) as Ll.
  { unfold l, zlen. rewrite length_splice; unfold zlen in *; rewrite ?length_fbytes; lia. }
  change (be_decode l) with (ByteOrder_Word l). rewrite Word_PutWord; [| | done].
  - unfold l. rewrite write_bytes_splice by lia. unfold eff. by rewrite sub_addr_eq.
  - apply bytes_ok_splice; [apply be_encode_bytes | by apply mem_bytes_ok].
Qed.

Lemma LoadSubWord_value {T} {ST : StackTracker T} vaddr n sign (c c' : Core T) v :
  core_wf c -> is_word vaddr -> sub_size n -> LoadSubWord vaddr n sign c = Ok (v, c') ->
  let x := be_decode (fbytes (mem_byte (memory c)) (sub_addr vaddr n) (Z.to_nat n)) in
  v = (if sign then Word (signed (8 * n) x) else x) /\ keeps c c'.
Proof.
  intros Hc Hv Hn R x. unfold LoadSubWord in R. destruct (aligned_word vaddr Hv) as [Ha Hal].
  apply ST_bind_ok in R as (u1 & c1 & R1 & R). apply track_keeps in R1 as [[Hc1 Hb1] _]; [| done ..].
  apply ST_bind_ok in R as (w & c2 & R1 & R).
  apply get_keeps in R1 as [[Hc2 Hb2] [-> _]]; [| done ..]. injection R as <- <-.
  assert (forall n, fbytes (mem_byte (memory c1)) (sub_addr vaddr n) (Z.to_nat n)
    = fbytes (mem_byte (memory c)) (sub_addr vaddr n) (Z.to_nat n)) as Eb
    by (intros; apply fbytes_ext; intros; apply Hb1).
  split; [| split; [done | by intros b; rewrite Hb2]].
  destruct sign; rewrite ?SelectSubWord_signed, select_mem, Eb by (done || apply Hc1); done.
Qed.

Lemma StoreSubWord_value {T} {ST : StackTracker T} vaddr n v (c c' : Core T) u :
  core_wf c -> is_word vaddr -> sub_size n -> StoreSubWord vaddr n v c = Ok (u, c') ->
  core_wf c' /\ registers c' = registers c /\ cpu c' = cpu c /\
  forall b, mem_byte (memory c') b
    = write_bytes (mem_byte (memory c)) (sub_addr vaddr n) (be_encode (Z.to_nat n) v) b.
Proof.
  intros Hc Hv Hn R. unfold StoreSubWord in R. destruct (aligned_word vaddr Hv) as [Ha Hal].
  apply ST_bind_ok in R as (u1 & c1 & R1 & R).
  apply track_keeps in R1 as [[Hc1 Hb1] [Er1 Ec1]]; [| done ..].
  apply ST_bind_ok in R as (w & c2 & R1 & R).
  apply get_keeps in R1 as [[Hc2 Hb2] [-> [Er2 Ec2]]]; [| done ..].
  pose proof R as R0. apply set_writes in R0 as (Hc3 & _ & Er3 & Ec3); [| done ..].
  split; [done |]. split; [congruence |]. split; [congruence |].
  apply zoom_ok in R as (mem & R & ->).
  set (w := UpdateSubWord _ _ _ _) in R.
  destruct (SetWord_run _ w _ (co_mem _ Hc2) (co_merkle _ Hc2) Ha Hal) as (mem' & R' & _ & _ & B).
  rewrite R' in R. injection R as _ <-. intros b. cbn [memory]. rewrite B. unfold w.
  rewrite (write_bytes_ext _ (mem_byte (memory c1))) by (intros; apply Hb2).
  rewrite update_mem by (done || apply Hc1). apply write_bytes_ext. apply Hb1.
Qed.

End SubWordMemory.

(** ** Words at unaligned addresses *)

Section UnalignedMemory.
Context {A : Arch}.
Implicit Types (f : Z -> Z) (a : Z).

Let W := WordSizeBytes.
Let w := Z.to_nat WordSizeBytes.

(** The aligned word that holds the byte at [a]. *)
Definition aligned (a : Z) : Z := a - a mod WordSizeBytes.

Lemma far_end a :
  (a mod WordSizeBytes = 0 /\ aligned (a + WordSizeBytes - 1) = a /\
   (a + WordSizeBytes - 1) mod WordSizeBytes = WordSizeBytes - 1) \/
  (0 < a mod WordSizeBytes < WordSizeBytes /\
   aligned (a + WordSizeBytes - 1) = a - a mod WordSizeBytes + WordSizeBytes /\
   (a + WordSizeBytes - 1) mod WordSizeBytes = a mod WordSizeBytes - 1).
Proof.
  unfold aligned. pose proof WordSizeBytes_pos. set (V := WordSizeBytes) in *.
  pose proof (Z.mod_pos_bound a V ltac:(lia)) as Hk.
  assert (a + V - 1 = V * (a / V + 1) + (a mod V - 1)) as E by (pose proof (Z.div_mod a V ltac:(lia)); lia).
  pose proof (Z.div_mod a V ltac:(lia)).
  destruct (Z.eq_dec (a mod V) 0) as [E0 | E0]; [left | right].
  - assert ((a + V - 1) mod V = V - 1) as Em.
    { symmetry. apply (Z.mod_unique _ _ (a / V)); lia. }
    rewrite Em. lia.
  - assert ((a + V - 1) mod V = a mod V - 1) as Em.
    { symmetry. apply (Z.mod_unique _ _ (a / V + 1)); lia. }
    rewrite Em. lia.
Qed.

Lemma fbytes_join f a n n' b :
  b = a + Z.of_nat n -> fbytes f a n ++ fbytes f b n' = fbytes f a (n + n').
Proof. intros ->. by rewrite fbytes_app. Qed.

(** Loading the left part at [a] and the right part at [a + W - 1]. *)
Lemma unaligned_load_bytes f a xs :
  zlen xs = WordSizeBytes ->
  let k := a mod WordSizeBytes in
  let a' := a + WordSizeBytes - 1 in
  let j := WordSizeBytes - 1 - a' mod WordSizeBytes in
  let l1 := drop (Z.to_nat k) (fbytes f (aligned a) w) ++ drop (Z.to_nat (WordSizeBytes - k)) xs in
  take (Z.to_nat j) l1 ++ take (Z.to_nat (WordSizeBytes - j)) (fbytes f (aligned a') w) = fbytes f a w.
Proof.
  intros Hx k a' j l1. pose proof WordSizeBytes_pos as Hp.
  assert (Z.of_nat w = WordSizeBytes) as Hw by (unfold w; lia).
  destruct (far_end a) as [(Ek & Ea & Em) | (Hk & Ea & Em)]; fold a' in Ea, Em.
  - unfold j. rewrite Em, Ea. rewrite Z.sub_diag. cbn [Z.to_nat take app]. rewrite Z.sub_0_r. fold w.
    by rewrite fbytes_take.
  - fold k in Hk, Ea, Em. unfold j. rewrite Em, Ea. unfold l1.
    replace (WordSizeBytes - 1 - (k - 1)) with (WordSizeBytes - k) by lia.
    rewrite fbytes_drop, fbytes_take by lia.
    rewrite take_app_le by (rewrite length_fbytes; lia).
    rewrite fbytes_take by lia.
    unfold aligned. fold k. rewrite fbytes_join by lia. f_equal; lia.
Qed.

(** Storing them writes the word at [a]. *)
Lemma unaligned_store_bytes f a bs b :
  zlen bs = WordSizeBytes ->
  let k := a mod WordSizeBytes in
  let a' := a + WordSizeBytes - 1 in
  let j := WordSizeBytes - 1 - a' mod WordSizeBytes in
  let f1 := write_bytes f (aligned a)
    (take (Z.to_nat k) (fbytes f (aligned a) w) ++ take (Z.to_nat (WordSizeBytes - k)) bs) in
  write_bytes f1 (aligned a')
    (drop (Z.to_nat j) bs ++ drop (Z.to_nat (WordSizeBytes - j)) (fbytes f1 (aligned a') w)) b
  = write_bytes f a bs b.
Proof.
  intros Hb k a' j f1. pose proof WordSizeBytes_pos as Hp.
  assert (Z.of_nat w = WordSizeBytes) as Hw by (unfold w; lia).
  destruct (far_end a) as [(Ek & Ea & Em) | (Hk & Ea & Em)]; fold a' in Ea, Em.
  - unfold j. rewrite Em, Ea, Z.sub_diag. cbn [Z.to_nat drop]. rewrite Z.sub_0_r. fold w.
    rewrite fbytes_drop, Nat.sub_diag by lia. cbn [fbytes seq fmap list_fmap]. rewrite app_nil_r.
    unfold f1, aligned, k. rewrite Ek, Z.sub_0_r, Z.sub_0_r. cbn [Z.to_nat take app].
    rewrite (take_ge bs) by (unfold zlen in Hb; fold w; lia).
    unfold write_bytes. by repeat case_decide.
  - fold k in Hk, Ea, Em. unfold j. rewrite Em, Ea. replace (WordSizeBytes - 1 - (k - 1)) with (WordSizeBytes - k) by lia.
    replace (WordSizeBytes - (WordSizeBytes - k)) with k by lia.
    assert (length (take (Z.to_nat (WordSizeBytes - k)) bs) = Z.to_nat (WordSizeBytes - k)) as L1
      by (rewrite length_take; unfold zlen in Hb; lia).
    assert (length (drop (Z.to_nat (WordSizeBytes - k)) bs) = Z.to_nat k) as L2
      by (rewrite length_drop; unfold zlen in Hb; lia).
    rewrite fbytes_drop, write_bytes_tail by (unfold zlen; lia).
    rewrite (write_bytes_ext _ (write_bytes f a (take (Z.to_nat (WordSizeBytes - k)) bs))).
    + replace (a - k + WordSizeBytes) with (a + zlen (take (Z.to_nat (WordSizeBytes - k)) bs))
        by (unfold zlen; lia).
      by rewrite write_bytes_app, take_drop.
    + intros x. unfold f1, aligned. fold k. rewrite fbytes_take, write_bytes_head by lia. f_equal. lia.
Qed.

End UnalignedMemory.

(** The functional behaviour of the oracle system calls: reading a pre-image
    copies its bytes into memory, and the hint stream is split into hints
    independently of the writes that carry it. *)

Section Preimage.
Context {A : Arch} {K : Keccak} {PO : PreimageOracle}.

(** How many bytes a read of at most [a2] bytes to [a1] delivers when [avail]
    are left: it does not cross the word of [a1]. *)
Definition read_len (avail a1 a2 : Z) : Z :=
  Z.min a2 (Z.min (WordSizeBytes - a1 mod WordSizeBytes) (Z.min 32 avail)).

Lemma clamp_len avail a1 a2 :
  is_word a1 ->
  let space := wsub WordSizeBytes (a1 .& ExtMask) in
  let n := Z.min 32 avail in
  let n := if space <? n then space else n in
  (if a2 <? n then a2 else n) = read_len avail a1 a2.
Proof.
  intros Ha. cbn zeta. rewrite ExtMask_mod. pose proof (Z.mod_pos_bound a1 WordSizeBytes WordSizeBytes_pos).
  rewrite wsub_small by (first [lia | apply small_word; split; [lia | by destruct A]]).
  unfold read_len. repeat case_match; lia.
Qed.

Lemma zlen_chunk (l : list Z) off :
  0 <= off <= zlen l -> zlen (take 32 (drop (Z.to_nat off) l)) = Z.min 32 (zlen l - off).
Proof. intros H. unfold zlen in *. rewrite length_take, length_drop. lia. Qed.

(** Reading [a2] bytes of the pre-image of [key] from [off] to address [a1]. *)
Lemma HandleSysRead_preimage a1 a2 key off i r i' :
  io_wf i -> is_word a1 -> is_word a2 -> oracle_ok key (io_oracle i) ->
  let pre := prefixed (po_GetPreimage key) in
  0 <= off < zlen pre -> is_word (zlen pre) -> bytes_ok pre ->
  HandleSysRead FdPreimageRead a1 a2 key off i = Ok (r, i') ->
  let n := read_len (zlen pre - off) a1 a2 in
  r = (n, 0, wadd off n, true, a1 .& AddressMask) /\ oracle_ok key (io_oracle i') /\
  forall b, mem_byte (io_memory i') b
    = write_bytes (mem_byte (io_memory i)) a1 (slice off (off + n) pre) b.
Proof.
  intros Hi Ha1 Ha2 Hok pre Hoff Hpw Hpb R n. destruct (aligned_word a1 Ha1) as [Hw Hal].
  cbv [HandleSysRead switch existsb orb Z.eqb Pos.eqb FdStdin FdPreimageRead FdHintRead] in R.
  apply ST_bind_ok in R as (u & i3 & R1 & R). apply io_track in R1 as (Hi3 & B3 & O3); [| done ..].
  apply ST_bind_ok in R as (mem & i4 & R1 & R). apply io_get in R1 as (Hi4 & B4 & Em & O4); [| done ..].
  rewrite <- O3, <- O4 in Hok.
  destruct (ReadPreimage_spec key off (io_oracle i4) Hok Hoff Hpw) as (o & Ro & Ko & Po & _).
  fold pre in Ro, Po. set (chunk := take 32 (drop (Z.to_nat off) pre)) in *.
  erewrite ST_bind_run in R; [| apply zoom_run; exact Ro]. cbv beta iota zeta in R.
  assert (zlen chunk = Z.min 32 (zlen pre - off)) as Hc by (apply zlen_chunk; lia).
  rewrite Hc, clamp_len in R by done. fold n in R.
  apply ST_bind_ok in R as ([] & i6 & R2 & R). injection R as <- <-.
  apply io_set in R2 as (Hi6 & O6 & B6); [| by split; apply Hi4 | done | done].
  pose proof (Z.mod_pos_bound a1 WordSizeBytes WordSizeBytes_pos) as Hm.
  assert (0 <= n <= zlen chunk /\ n <= WordSizeBytes - a1 mod WordSizeBytes) as [Hn1 Hn2].
  { rewrite Hc. unfold n, read_len. destruct Ha2. lia. }
  split; [done |]. split; [rewrite O6; intros _; exact Po |]. intros b. rewrite B6. cbn [io_memory].
  assert (take (Z.to_nat n) (chunk ++ replicate (32 - length chunk) 0) = slice off (off + n) pre) as Es.
  { rewrite take_app_le by (unfold zlen in *; lia). unfold chunk, slice. rewrite take_take.
    f_equal. unfold zlen in *. lia. }
  rewrite Es, ExtMask_mod. assert (zlen (slice off (off + n) pre) = n) as Ln.
  { rewrite <- Es. unfold zlen in *. rewrite length_take, length_app. lia. }
  subst mem. unfold mem_word. rewrite (write_bytes_ext _ (mem_byte (io_memory i3))) by (intros; apply B4).
  assert (ByteOrder_PutWord (be_decode (fbytes (mem_byte (io_memory i3)) (a1 .& AddressMask) (Z.to_nat WordSizeBytes)))
    = fbytes (mem_byte (io_memory i3)) (a1 .& AddressMask) (Z.to_nat WordSizeBytes)) as ->.
  { apply Word_PutWord; [apply mem_bytes_ok, Hi3 |]. unfold zlen. rewrite length_fbytes. apply word_len. }
  rewrite Word_PutWord.
  - rewrite write_bytes_splice by (rewrite ?word_len; lia). rewrite AddressMask_sub by done.
    replace (a1 - a1 mod WordSizeBytes + a1 mod WordSizeBytes) with a1 by lia.
    apply write_bytes_ext. intros. apply B3.
  - apply bytes_ok_splice; [apply bytes_ok_slice, Hpb | apply mem_bytes_ok, Hi3].
  - unfold zlen. rewrite length_splice; unfold zlen in *; rewrite ?length_fbytes; pose proof word_len; lia.
Qed.

End Preimage.

(** ** The hint stream *)

Section Hints.
Context {A : Arch} {PO : PreimageOracle}.
Implicit Types (l h : list Z) (i : IO).

Definition add_hint h i : IO :=
  mkIO (io_memory i) (io_memTracker i) (Hint h (io_oracle i)) (io_stdOut i) (io_stdErr i).

(** The buffer starts with a complete hint of [n] bytes. *)
Definition complete l : bool := (4 <=? zlen l) && (be_decode (take 4 l) <=? zlen l - 4).
Definition hint_end l : Z := 4 + be_decode (take 4 l).

Definition fits l : Prop := bytes_ok l /\ zlen l < 2 ^ 32.

Lemma fits_drop n l : fits l -> fits (drop n l).
Proof.
  intros [Hb Hl]. split; [by apply Forall_drop |]. unfold zlen in *. rewrite length_drop. lia.
Qed.

Lemma complete_bounds l : fits l -> complete l = true -> 4 <= hint_end l <= zlen l.
Proof.
  intros [Hb _] Hc. unfold complete, hint_end in *. bool_lia.
  pose proof (be_decode_range (take 4 l) ltac:(by apply Forall_take)) as [? _]. lia.
Qed.

(** One round of the loop. *)
Lemma process_hints_round fuel l i :
  fits l ->
  process_hints (S fuel) l i =
  if complete l then process_hints fuel (drop (Z.to_nat (hint_end l)) l) (add_hint (slice 4 (hint_end l) l) i)
  else Ok (l, i).
Proof.
  intros Hf. pose proof (complete_bounds l Hf) as Hcb. destruct Hf as [Hb Hl].
  cbn [process_hints]. unfold complete in *. destruct (Z.leb_spec 4 (zlen l)) as [H4 | H4]; [| done]. cbn [andb] in *.
  assert (zlen (drop 4 l) = zlen l - 4) as Hd by (unfold zlen in *; rewrite length_drop; lia).
  rewrite Hd, wrap_small by (unfold in_range; lia).
  destruct (_ <=? zlen l - 4) eqn:E; [| done]. specialize (Hcb eq_refl). unfold hint_end in *.
  assert (uadd 32 4 (be_decode (take 4 l)) = 4 + be_decode (take 4 l)) as ->
    by (unfold uadd; apply wrap_small; unfold in_range; lia).
  destruct (Z.ltb_spec (4 + be_decode (take 4 l)) 4); [lia |]. done.
Qed.

Lemma process_hints_0 l i : fits l -> complete l = false -> process_hints 0 l i = Ok (l, i).
Proof.
  intros [Hb Hl] Hc. cbn [process_hints]. unfold complete in *.
  destruct (Z.leb_spec 4 (zlen l)) as [H4 | H4]; [| done]. cbn [andb] in *.
  assert (zlen (drop 4 l) = zlen l - 4) as Hd by (unfold zlen in *; rewrite length_drop; lia).
  rewrite Hd, wrap_small by (unfold in_range; lia). by rewrite Hc.
Qed.

Lemma complete_nonempty l : complete l = true -> (4 <= length l)%nat.
Proof. unfold complete, zlen. intros H. bool_lia. Qed.

(** With as much fuel as there are bytes the loop ends, and more fuel does not
    change the result. *)
Lemma process_hints_fuel fuel l i :
  fits l -> (length l <= fuel)%nat ->
  process_hints fuel l i = process_hints (length l) l i /\
  exists r i', process_hints fuel l i = Ok (r, i') /\ complete r = false /\ fits r.
Proof.
  revert l i. induction fuel as [fuel IH] using lt_wf_ind. intros l i Hf Hle.
  destruct (complete l) eqn:Hc.
  - pose proof (complete_nonempty l Hc). pose proof (complete_bounds l Hf Hc) as Hcb.
    set (l' := drop (Z.to_nat (hint_end l)) l).
    assert (length l' < length l)%nat as Hlt by (unfold l', zlen in *; rewrite length_drop; lia).
    destruct fuel as [|fuel]; [lia |]. destruct (length l) as [|n] eqn:El; [lia |].
    rewrite !process_hints_round, Hc by done. fold l'.
    destruct (IH fuel ltac:(lia) l' (add_hint (slice 4 (hint_end l) l) i)) as [E1 E2];
      [by apply fits_drop | lia |].
    destruct (IH n ltac:(lia) l' (add_hint (slice 4 (hint_end l) l) i)) as [E3 _];
      [by apply fits_drop | lia |].
    rewrite E3. done.
  - assert (forall f, process_hints f l i = Ok (l, i)) as E
      by (intros [|f]; [by apply process_hints_0 | by rewrite process_hints_round, Hc]).
    rewrite !E. split; [done |]. exists l, i. done.
Qed.

Lemma complete_app l l2 : complete l = true ->
  complete (l ++ l2) = true /\ hint_end (l ++ l2) = hint_end l.
Proof.
  intros Hc. pose proof (complete_nonempty l Hc). unfold complete, hint_end in *.
  rewrite take_app_le by lia. split; [| done]. bool_lia.
  apply andb_true_iff. unfold zlen in *. rewrite length_app. split; apply Z.leb_le; lia.
Qed.

(** Hints come out the same however the stream is cut into writes. *)
Lemma process_hints_chunks l1 l2 i :
  fits (l1 ++ l2) ->
  exists r1 i1 r2 i2,
    process_hints (length l1) l1 i = Ok (r1, i1) /\
    process_hints (length (r1 ++ l2)) (r1 ++ l2) i1 = Ok (r2, i2) /\
    process_hints (length (l1 ++ l2)) (l1 ++ l2) i = Ok (r2, i2).
Proof.
  remember (length l1) as n eqn:En. revert l1 i En. induction n as [n IH] using lt_wf_ind. intros l1 i -> Hf.
  assert (fits l1) as Hf1.
  { destruct Hf as [Hb Hl]. apply Forall_app in Hb as [Hb _]. split; [done |].
    unfold zlen in *. rewrite length_app in Hl. lia. }
  destruct (complete l1) eqn:Hc.
  - pose proof (complete_nonempty l1 Hc). pose proof (complete_bounds l1 Hf1 Hc) as Hcb.
    destruct (complete_app l1 l2 Hc) as [Hc' He'].
    set (l1' := drop (Z.to_nat (hint_end l1)) l1).
    assert (length l1' < length l1)%nat as Hlt by (unfold l1', zlen in *; rewrite length_drop; lia).
    assert (drop (Z.to_nat (hint_end l1)) (l1 ++ l2) = l1' ++ l2) as Ed
      by (unfold l1'; rewrite drop_app_le by (unfold zlen in *; lia); done).
    assert (slice 4 (hint_end l1) (l1 ++ l2) = slice 4 (hint_end l1) l1) as Es.
    { unfold slice, zlen in *. rewrite drop_app_le by lia. rewrite take_app_le; [done |]. rewrite length_drop. lia. }
    set (i0 := add_hint (slice 4 (hint_end l1) l1) i).
    assert (fits (l1' ++ l2)) as Hf' by (rewrite <- Ed; by apply fits_drop).
    destruct (IH _ Hlt l1' i0 eq_refl Hf') as (r1 & i1 & r2 & i2 & E1 & E2 & E3).
    exists r1, i1, r2, i2. split; [| split; [done |]].
    + destruct (length l1) as [|k] eqn:Ek; [lia |]. rewrite process_hints_round, Hc by done. fold l1' i0.
      destruct (process_hints_fuel k l1' i0) as [-> _]; [by apply fits_drop | lia | done].
    + destruct (length (l1 ++ l2)) as [|k] eqn:Ek; [rewrite length_app in Ek; lia |].
      rewrite process_hints_round, Hc', He', Ed, Es by done. fold i0.
      destruct (process_hints_fuel k (l1' ++ l2) i0) as [-> _]; [done | rewrite length_app in *; lia | done].
  - destruct (process_hints_fuel (length (l1 ++ l2)) (l1 ++ l2) i Hf ltac:(lia)) as [_ (r2 & i2 & E & _)].
    exists l1, i, r2, i2. split; [| done].
    destruct (length l1) as [|k] eqn:Ek; [by apply process_hints_0 |]. by rewrite process_hints_round, Hc.
Qed.

(** A hint as the program writes it. *)
Definition encode_hint h : list Z := be_encode 4 (zlen h) ++ h.

Lemma encode_hint_complete h l :
  fits (encode_hint h ++ l) ->
  complete (encode_hint h ++ l) = true /\ hint_end (encode_hint h ++ l) = 4 + zlen h.
Proof.
  intros [_ Hl]. unfold complete, hint_end, encode_hint in *. rewrite <- app_assoc in *.
  assert (in_range 32 (zlen h)) as Hr.
  { unfold zlen, in_range in *. rewrite !length_app, length_be_encode in Hl. lia. }
  rewrite take_app_le by (rewrite length_be_encode; lia).
  rewrite (take_ge (be_encode 4 _)) by (rewrite length_be_encode; lia).
  rewrite be_decode_encode. change (8 * Z.of_nat 4) with 32. rewrite wrap_small by done. split; [| done].
  unfold zlen. rewrite !length_app, length_be_encode. apply andb_true_iff. split; apply Z.leb_le; lia.
Qed.

(** Written hints reach the oracle, each once and in order; an incomplete tail
    stays in the buffer. *)
Lemma process_hints_stream hs rest i :
  fits (concat (encode_hint <$> hs) ++ rest) -> complete rest = false ->
  let l := concat (encode_hint <$> hs) ++ rest in
  process_hints (length l) l i = Ok (rest, foldl (fun i h => add_hint h i) i hs).
Proof.
  revert i. induction hs as [|h hs IH]; intros i Hf Hr l.
  - subst l. cbn [fmap list_fmap concat app foldl] in *.
    destruct (length rest); [by apply process_hints_0 | by rewrite process_hints_round, Hr].
  - subst l. cbn [fmap list_fmap concat foldl] in *. rewrite <- app_assoc in *.
    set (l := concat (encode_hint <$> hs) ++ rest) in *.
    destruct (encode_hint_complete h l Hf) as [Hc He].
    destruct (length (encode_hint h ++ l)) as [|k] eqn:Ek; [by rewrite length_app in Ek |].
    rewrite process_hints_round, Hc, He by done.
    assert (length (encode_hint h) = Z.to_nat (4 + zlen h)) as Eh
      by (unfold encode_hint, zlen; rewrite length_app, length_be_encode; lia).
    rewrite <- Eh, drop_app_length.
    assert (slice 4 (4 + zlen h) (encode_hint h ++ l) = h) as ->.
    { unfold slice, encode_hint. rewrite <- app_assoc, drop_app_ge by (rewrite length_be_encode; lia).
      rewrite length_be_encode. change (Z.to_nat 4 - 4)%nat with 0%nat. rewrite drop_0.
      replace (Z.to_nat (4 + zlen h - 4)) with (length h) by (unfold zlen; lia). apply take_app_length. }
    assert (fits l) as Hfl.
    { replace l with (drop (length (encode_hint h)) (encode_hint h ++ l)) by apply drop_app_length.
      by apply fits_drop. }
    destruct (process_hints_fuel k l (add_hint h i) Hfl) as [-> _]; [rewrite length_app in Ek; unfold zlen in Eh; lia |].
    by apply IH.
Qed.

End Hints.
