(* ===== verification/MTProps.v ===== *)
(** Invariants of the multithreaded VM: the state stays well formed, the active
    stack is never empty, thread ids are unique, and a step that changes the
    reserved word drops the reservation. *)
From Stdlib Require Import ZArith Lia.
From stdpp Require Import base gmap list strings numbers.
From S2P Require Import Prelude Arch Codec Insn Memory Exec Threads Multithreaded MerkleSpec.
From S2P Require Import MemoryProps MerkleProps MemoryRange InsnProps ExecProps SyscallProps.

Import MT.

(** ** The two stacks *)

Definition active (s : State) : list ThreadState := getActiveThreadStack s.
Definition inactive (s : State) : list ThreadState :=
  if TraverseRight s then LeftThreadStack s else RightThreadStack s.
Definition threads (s : State) : list ThreadState := active s ++ inactive s.

Definition running (t : ThreadState) : Prop := ThreadExited t = false.

Record thread_wf {A : Arch} (t : ThreadState) : Prop := {
  tw_id : is_word (ThreadId t);
  tw_exit : in_range 8 (ThreadExitCode t);
  tw_cpu : cpu_wf (Cpu t);
  tw_regs : reg_wf (Registers t);
}.

Record state_ok {A : Arch} {K : Keccak} (s : State) : Prop := {
  so_mem : mem_wf (Mem s);
  so_merkle : merkle_ok (Mem s);
  so_key : key_ok (PreimageKey s);
  so_off : is_word (PreimageOffset s);
  so_heap : is_word (Heap s);
  so_ll : is_word (LLAddress s) /\ is_word (LLOwnerThread s) /\ in_range 8 (LLReservationStatus s);
  so_exit : in_range 8 (ExitCode s);
  so_step : in_range 64 (Step s);
  so_since : 0 <= StepsSinceLastContextSwitch s <= SchedQuantum;
  so_next : is_word (NextThreadId s);
  so_hint : bytes_ok (LastHint s);
  so_threads : Forall thread_wf (threads s);
  so_active : active s <> [];
  (* a thread that has exited is the current one, *)
  so_others : Forall running (pop (active s) ++ inactive s);
  (* and the VM has exited or another thread can go on *)
  so_current : forall t, top (active s) = Some t -> ThreadExited t = true ->
    Exited s = true \/ (2 <= length (threads s))%nat;
}.

(** Thread ids are unique and below the next one. *)
Definition ids_ok (s : State) : Prop :=
  NoDup (ThreadId <$> threads s) /\ Forall (fun i => i < NextThreadId s) (ThreadId <$> threads s).

Section Stacks.
Context {A : Arch} {K : Keccak}.
Implicit Types s : State.

Lemma GetCurrentThread_top s t : GetCurrentThread s = Ok t <-> top (active s) = Some t.
Proof.
  unfold GetCurrentThread, active. destruct (top _); split; intros H; try done; congruence.
Qed.

Lemma active_set_active l s : active (set_active l s) = l /\ inactive (set_active l s) = inactive s.
Proof.
  unfold active, inactive, set_active, getActiveThreadStack. destruct (TraverseRight s) eqn:E; cbn; by rewrite E.
Qed.

Lemma active_set_current t s :
  active (set_current t s) = pop (active s) ++ [t] /\ inactive (set_current t s) = inactive s.
Proof. apply active_set_active. Qed.

Lemma set_current_top t s : top (active (set_current t s)) = Some t.
Proof. destruct (active_set_current t s) as [-> _]. apply top_snoc. Qed.

Lemma current_threads s t : top (active s) = Some t -> threads s = pop (active s) ++ [t] ++ inactive s.
Proof. intros Ht. unfold threads. rewrite (top_pop _ _ Ht) at 1. by rewrite <- app_assoc. Qed.

Lemma current_wf s t : state_ok s -> top (active s) = Some t -> thread_wf t.
Proof.
  intros Hs Ht. pose proof (so_threads s Hs) as H. rewrite (current_threads s t Ht) in H.
  apply Forall_app in H as [_ H]. apply Forall_app in H as [H _]. by inversion H.
Qed.

(** Changing the current thread's program counters and registers, and the
    memory. *)
Lemma set_current_ok s t t' m :
  state_ok s -> top (active s) = Some t -> thread_wf t' ->
  ThreadExited t' = ThreadExited t -> mem_wf m -> merkle_ok m ->
  state_ok (set_current t' (set_Mem m s)).
Proof.
  intros Hs Ht Hw He Hm Hmk. destruct (active_set_current t' (set_Mem m s)) as [Ea Ei].
  assert (active (set_Mem m s) = active s /\ inactive (set_Mem m s) = inactive s) as [Ea' Ei'] by done.
  rewrite Ea' in Ea. rewrite Ei' in Ei.
  assert (threads (set_current t' (set_Mem m s)) = pop (active s) ++ [t'] ++ inactive s) as Eth
    by (unfold threads; rewrite Ea, Ei; by rewrite <- app_assoc).
  pose proof (current_threads s t Ht) as Eth0.
  assert (Hfields : forall f : State -> Prop, (forall l r, f (set_Stacks l r (set_Mem m s))) ->
            f (set_current t' (set_Mem m s)))
    by (intros f Hf; unfold set_current, set_active; destruct (TraverseRight _); apply Hf).
  destruct Hs. split; try (apply Hfields; intros; cbn; done).
  - rewrite Eth. rewrite Eth0 in so_threads0. apply Forall_app in so_threads0 as [H1 H2].
    apply Forall_app in H2 as [_ H2]. apply Forall_app; split; [done |]. apply Forall_app; split; [by constructor | done].
  - rewrite Ea. by destruct (pop (active s)).
  - rewrite Ea, Ei, pop_snoc. done.
  - intros t2. rewrite Ea, top_snoc. intros [= <-] Hex. rewrite He in Hex.
    destruct (so_current0 t Ht Hex) as [H | H].
    + left. by apply Hfields.
    + right. rewrite Eth. rewrite Eth0 in H. rewrite !length_app in *. cbn in *. lia.
Qed.

Lemma ids_set_current s t t' m :
  top (active s) = Some t -> ThreadId t' = ThreadId t ->
  ThreadId <$> threads (set_current t' (set_Mem m s)) = ThreadId <$> threads s.
Proof.
  intros Ht He. destruct (active_set_current t' (set_Mem m s)) as [Ea Ei].
  rewrite (current_threads s t Ht). unfold threads. rewrite Ea, Ei. rewrite !fmap_app. cbn. rewrite He.
  by rewrite <- app_assoc.
Qed.

End Stacks.

(** ** Relations between the states before and after *)

(** Everything but the memory, the heap, the pre-image position, the hint
    buffer and the current thread's registers stays as it is. *)
Record steady {A : Arch} {K : Keccak} (s s' : State) : Prop := {
  sy_ok : state_ok s';
  sy_tids : ThreadId <$> threads s' = ThreadId <$> threads s;
  sy_next : NextThreadId s' = NextThreadId s;
  sy_step : Step s' = Step s;
  sy_exited : Exited s' = Exited s;
  sy_ll : LLReservationStatus s' = LLReservationStatus s /\ LLAddress s' = LLAddress s /\
    LLOwnerThread s' = LLOwnerThread s;
  sy_current : forall t, top (active s) = Some t -> exists t', top (active s') = Some t' /\
    ThreadId t' = ThreadId t /\ ThreadExited t' = ThreadExited t;
}.

(** If [s'] holds a reservation, its word was not changed. *)
Definition ll_ok {A : Arch} (s s' : State) : Prop :=
  LLReservationStatus s' <> LLStatusNone ->
  forall b, LLAddress s' .& AddressMask <= b < LLAddress s' .& AddressMask + WordSizeBytes ->
  mem_byte (Mem s') b = mem_byte (Mem s) b.

Section Relations.
Context {A : Arch} {K : Keccak}.
Implicit Types s : State.

Lemma steady_refl s : state_ok s -> steady s s.
Proof. intros Hs. split; try done. eauto. Qed.

Lemma steady_trans s1 s2 s3 : steady s1 s2 -> steady s2 s3 -> steady s1 s3.
Proof.
  intros [O1 I1 N1 S1 E1 (L1 & L1' & L1'') C1] [O2 I2 N2 S2 E2 (L2 & L2' & L2'') C2].
  split; try done; try congruence; auto.
  - split; [congruence | split; congruence].
  - intros t Ht. destruct (C1 t Ht) as (t1 & Ht1 & Hi1 & He1).
    destruct (C2 t1 Ht1) as (t2 & Ht2 & Hi2 & He2). exists t2. split; [done | split; congruence].
Qed.

Lemma sy_ids s s' : steady s s' -> ids_ok s -> ids_ok s'.
Proof. intros H. unfold ids_ok. by rewrite (sy_tids _ _ H), (sy_next _ _ H). Qed.

Lemma same_bytes_refl m : same_bytes m m.
Proof. done. Qed.

Lemma same_bytes_trans m1 m2 m3 : same_bytes m1 m2 -> same_bytes m2 m3 -> same_bytes m1 m3.
Proof. intros H1 H2 b. by rewrite H2. Qed.

Lemma ll_same_bytes s s' : same_bytes (Mem s) (Mem s') -> ll_ok s s'.
Proof. intros H _ b _. apply H. Qed.

Lemma ll_then_steady s1 s2 s3 : ll_ok s1 s2 -> steady s2 s3 -> same_bytes (Mem s2) (Mem s3) -> ll_ok s1 s3.
Proof.
  intros H1 H2 H3 Hl b. destruct (sy_ll _ _ H2) as (El & Ea & _). rewrite Ea. rewrite El in Hl.
  intros Hb. rewrite H3. by apply H1.
Qed.

Lemma same_bytes_then_ll s1 s2 s3 : same_bytes (Mem s1) (Mem s2) -> ll_ok s2 s3 -> ll_ok s1 s3.
Proof. intros H1 H2 Hl b Hb. rewrite (H2 Hl b Hb). apply H1. Qed.

(** Fields that the invariant constrains only by their range. *)
Lemma steady_upd s f :
  state_ok s -> state_ok (f s) ->
  (forall x, threads (f x) = threads x) -> (forall x, active (f x) = active x) ->
  (forall x, NextThreadId (f x) = NextThreadId x) -> Step (f s) = Step s -> Exited (f s) = Exited s ->
  (LLReservationStatus (f s) = LLReservationStatus s /\ LLAddress (f s) = LLAddress s /\
    LLOwnerThread (f s) = LLOwnerThread s) -> steady s (f s).
Proof.
  intros Hs Hf Ht Ha Hn Hst He Hl. split; try done.
  - by rewrite Ht.
  - intros t Htop. exists t. by rewrite Ha.
Qed.

Lemma aligned_disjoint x y b :
  x .& ExtMask = 0 -> y .& ExtMask = 0 -> x <> y ->
  x <= b < x + WordSizeBytes -> ~ (y <= b < y + WordSizeBytes).
Proof.
  rewrite !ExtMask_mod. intros Hx Hy Hne Hb. pose proof WordSizeBytes_pos.
  destruct A; [change WordSizeBytes with 4 in * | change WordSizeBytes with 8 in *];
    Z.to_euclidean_division_equations; lia.
Qed.

End Relations.

(** ** Operations of the VM *)

Section VM.
Context {A : Arch} {K : Keccak} {PO : PreimageOracle} {MD : Metadata} {L : LRU}.
Implicit Types m : InstrumentedState L.

Lemma current_inv m t m' : MTVM.current m = Ok (t, m') -> top (active (state m)) = Some t /\ m' = m.
Proof. intros R. unfold MTVM.current in R. st_inv. split; [by apply GetCurrentThread_top | done]. Qed.

Lemma on_core_inv {X} (op : ST (Core (Z * ThreadedStackTracker)) X) m x m' :
  MTVM.on_core op m = Ok (x, m') ->
  exists t c, top (active (state m)) = Some t /\
    op (mkCore (Cpu t) (Registers t) (Mem (state m)) (memoryTracker m) (ThreadId t, vmStackTracker m)) = Ok (x, c) /\
    state m' = set_current (mkThread (ThreadId t) (ThreadExitCode t) (ThreadExited t) (cpu c) (registers c))
                 (set_Mem (memory c) (state m)).
Proof.
  unfold MTVM.on_core. destruct (GetCurrentThread (state m)) as [t | |] eqn:Et; cbn; [| done | done].
  destruct (op _) as [[x' c] | |] eqn:Ec; cbn; [| done | done]. intros [= <- <-].
  exists t, c. split; [by apply GetCurrentThread_top | done].
Qed.

Lemma current_core_wf m t (mt : MemoryTrackerImpl) (st : Z * ThreadedStackTracker) :
  state_ok (state m) -> top (active (state m)) = Some t ->
  core_wf (mkCore (Cpu t) (Registers t) (Mem (state m)) mt st).
Proof.
  intros Hs Ht. destruct (current_wf _ t Hs Ht) as [_ _ Hc Hr]. split; try done; apply Hs.
Qed.

Lemma set_current_steady s t c rs mem :
  state_ok s -> top (active s) = Some t -> cpu_wf c -> reg_wf rs -> mem_wf mem -> merkle_ok mem ->
  let t' := mkThread (ThreadId t) (ThreadExitCode t) (ThreadExited t) c rs in
  steady s (set_current t' (set_Mem mem s)).
Proof.
  intros Hs Ht Hc Hr Hm Hmk t'. assert (thread_wf t') as Hw by (destruct (current_wf s t Hs Ht); by split).
  destruct (active_set_current t' (set_Mem mem s)) as [Ea Ei].
  change (active (set_Mem mem s)) with (active s) in Ea. change (inactive (set_Mem mem s)) with (inactive s) in Ei.
  split.
  - by eapply set_current_ok.
  - by eapply ids_set_current.
  - unfold set_current, set_active. by destruct (TraverseRight _).
  - unfold set_current, set_active. by destruct (TraverseRight _).
  - unfold set_current, set_active. by destruct (TraverseRight _).
  - unfold set_current, set_active. by destruct (TraverseRight _).
  - intros t2 Ht2. exists t'. rewrite Ea, top_snoc. assert (t2 = t) as -> by congruence. done.
Qed.

Lemma Mem_set_current t mem s : Mem (set_current t (set_Mem mem s)) = mem.
Proof. unfold set_current, set_active. by destruct (TraverseRight _). Qed.

(** A call of package exec that returns [core_wf] states. *)
Lemma on_core_steady {X} (op : ST (Core (Z * ThreadedStackTracker)) X) (Q : X -> Memory -> Memory -> Prop) m x m' :
  state_ok (state m) ->
  (forall c c', core_wf c -> op c = Ok (x, c') -> core_wf c' /\ Q x (memory c) (memory c')) ->
  MTVM.on_core op m = Ok (x, m') ->
  steady (state m) (state m') /\ Q x (Mem (state m)) (Mem (state m')).
Proof.
  intros Hs Hop R. destruct (on_core_inv op m x m' R) as (t & c & Ht & Ro & Es).
  destruct (Hop _ _ (current_core_wf m t _ _ Hs Ht) Ro) as [Hc HQ].
  rewrite Es. destruct Hc as [Hr Hcpu Hm Hmk]. split; [by apply set_current_steady |].
  rewrite Mem_set_current. exact HQ.
Qed.

Lemma set_Mem_ok s mem : state_ok s -> mem_wf mem -> merkle_ok mem -> state_ok (set_Mem mem s).
Proof. intros [] Hm Hmk. by split. Qed.

Lemma set_Mem_steady s mem : state_ok s -> mem_wf mem -> merkle_ok mem -> steady s (set_Mem mem s).
Proof. intros. apply (steady_upd s (set_Mem mem)); try done. by apply set_Mem_ok. Qed.

Lemma on_io_steady {X} (op : ST IO X) (Q : X -> Memory -> Memory -> Prop) m x m' :
  state_ok (state m) ->
  (forall i i', io_wf i -> op i = Ok (x, i') -> io_wf i' /\ Q x (io_memory i) (io_memory i')) ->
  MTVM.on_io op m = Ok (x, m') ->
  steady (state m) (state m') /\ Q x (Mem (state m)) (Mem (state m')).
Proof.
  intros Hs Hop (i & R & ->)%zoom_ok. destruct (Hop _ _ (Build_io_wf _ _ (mkIO _ _ _ _ _) (so_mem _ Hs) (so_merkle _ Hs)) R)
    as [[Hm Hmk] HQ]. split; [by apply set_Mem_steady | exact HQ].
Qed.

Lemma syscall_updates_steady v0 v1 m u m' :
  state_ok (state m) -> is_word v0 -> is_word v1 -> MTVM.syscall_updates v0 v1 m = Ok (u, m') ->
  steady (state m) (state m') /\ same_bytes (Mem (state m)) (Mem (state m')).
Proof.
  intros Hs H0 H1 R. unfold MTVM.syscall_updates, MTVM.upd in R.
  apply ST_bind_ok in R as (t & m1 & R1 & R). apply current_inv in R1 as [Ht ->]. injection R as <- <-. cbn [state MTVM.set_state].
  destruct (current_wf _ t Hs Ht) as [_ _ Hc Hr].
  assert (state m = set_Mem (Mem (state m)) (state m)) as E by (by destruct (state m)).
  rewrite E at 2. split.
  - apply set_current_steady; try done; [| | apply Hs | apply Hs].
    + apply set_pcs_wf; [done | apply Hc | apply wadd_word].
    + apply set_reg_wf; [apply set_reg_wf |..]; done.
  - rewrite E at 2. rewrite Mem_set_current. done.
Qed.

Lemma stats_state f m u m' : MTVM.stats f m = Ok (u, m') -> state m' = state m.
Proof. by intros [= _ <-]. Qed.

Lemma stack_state f m u m' : MTVM.stack f m = Ok (u, m') -> state m' = state m.
Proof. by intros [= _ <-]. Qed.

(** Clearing a reservation. *)
Lemma clear_LL_ok s : state_ok s -> state_ok (set_LL LLStatusNone 0 0 s).
Proof. intros []. split; try done. split; [apply word_0 | split; [apply word_0 | done]]. Qed.

End VM.

(** ** What a step establishes *)

Definition reservation (s : State) : Z * Z * Z :=
  (LLReservationStatus s, LLAddress s, LLOwnerThread s).

Record stepped {A : Arch} {K : Keccak} (s s' : State) : Prop := {
  sd_ok : state_ok s';
  sd_ids : ids_ok s -> NextThreadId s < maxWord -> ids_ok s';
  sd_step : Step s' = Step s;
  sd_ll : ll_ok s s';
  (* ids are handed out one at a time, *)
  sd_next : NextThreadId s' = NextThreadId s \/ NextThreadId s' = wadd (NextThreadId s) 1;
  (* and a reservation is kept, dropped, or taken by the current thread *)
  sd_res : reservation s' = reservation s \/ LLReservationStatus s' = LLStatusNone \/
    exists t, top (active s) = Some t /\ LLOwnerThread s' = ThreadId t;
}.

(** The threads of [s'] are those of [s] with the current one moved to the end
    of the other stack; when the active stack runs empty the roles change. *)
Definition rotated (s s' : State) : Prop :=
  exists t, top (active s) = Some t /\
    if decide (pop (active s) = [])
    then active s' = inactive s ++ [t] /\ inactive s' = []
    else active s' = pop (active s) /\ inactive s' = inactive s ++ [t].

(** All but the stacks, their direction and the quantum counter. *)
Definition same_scalars (s s' : State) : Prop :=
  s' = set_TraverseRight (TraverseRight s')
         (set_StepsSince (StepsSinceLastContextSwitch s')
            (set_Stacks (LeftThreadStack s') (RightThreadStack s') s)).

Section Steps.
Context {A : Arch} {K : Keccak} {PO : PreimageOracle} {MD : Metadata} {L : LRU}.
Implicit Types m : InstrumentedState L.

Lemma steady_reservation s s' : steady s s' -> reservation s' = reservation s.
Proof. intros H. destruct (sy_ll _ _ H) as (E1 & E2 & E3). unfold reservation. congruence. Qed.

Lemma steady_stepped s s' : steady s s' -> same_bytes (Mem s) (Mem s') -> stepped s s'.
Proof.
  intros H Hb. split; try apply H; [by intros Hi _; eapply sy_ids | by apply ll_same_bytes | |].
  - left. apply H.
  - left. by apply steady_reservation.
Qed.

Lemma stepped_steady s1 s2 s3 :
  stepped s1 s2 -> steady s2 s3 -> same_bytes (Mem s2) (Mem s3) -> stepped s1 s3.
Proof.
  intros [O I S Hl Hn Hr] H Hb. split; [apply H | | rewrite <- S; apply H | by eapply ll_then_steady | |].
  - intros Hi Hn'. eapply sy_ids; eauto.
  - by rewrite (sy_next _ _ H).
  - rewrite (steady_reservation _ _ H). destruct (sy_ll _ _ H) as (-> & _ & ->). done.
Qed.

Lemma steady_then_stepped s1 s2 s3 :
  steady s1 s2 -> same_bytes (Mem s1) (Mem s2) -> state_ok s1 -> stepped s2 s3 -> stepped s1 s3.
Proof.
  intros H Hb Ha [O I S Hl Hn Hr]. split; [done | | | by eapply same_bytes_then_ll | |].
  - intros Hi Hn'. apply I; [by eapply sy_ids | by rewrite (sy_next _ _ H)].
  - rewrite S. apply H.
  - by rewrite <- (sy_next _ _ H).
  - rewrite <- (steady_reservation _ _ H). destruct Hr as [Hr | [Hr | (t & Ht & Ho)]]; [by left | by right; left |].
    right; right. destruct (top_is_Some (active s1)) as [t1 Ht1]; [apply Ha |].
    destruct (sy_current _ _ H t1 Ht1) as (t2 & Ht2 & Hi & _). exists t1. split; [done |]. congruence.
Qed.

Lemma same_scalars_fields s s' :
  same_scalars s s' ->
  Mem s' = Mem s /\ PreimageKey s' = PreimageKey s /\ PreimageOffset s' = PreimageOffset s /\
  Heap s' = Heap s /\ LLReservationStatus s' = LLReservationStatus s /\ LLAddress s' = LLAddress s /\
  LLOwnerThread s' = LLOwnerThread s /\ ExitCode s' = ExitCode s /\ Exited s' = Exited s /\
  Step s' = Step s /\ NextThreadId s' = NextThreadId s /\ LastHint s' = LastHint s.
Proof. intros ->. done. Qed.

(** A state with the same scalars and well-formed running threads. *)
Lemma rescheduled s s' :
  state_ok s -> same_scalars s s' -> StepsSinceLastContextSwitch s' = 0 ->
  Forall thread_wf (threads s') -> active s' <> [] -> Forall running (threads s') -> state_ok s'.
Proof.
  intros [] Hsc H0 Hw Hne Hrun.
  destruct (same_scalars_fields s s' Hsc) as (E1 & E2 & E3 & E4 & E5 & E6 & E7 & E8 & E9 & E10 & E11 & E12).
  split; rewrite ?E1, ?E2, ?E3, ?E4, ?E5, ?E6, ?E7, ?E8, ?E10, ?E11, ?E12, ?H0; try done.
  - apply Forall_app in Hrun as [Ha Hi]. apply Forall_app; split; [by apply Forall_take | done].
  - intros t Ht He. destruct (Forall_app running (active s') (inactive s')) as [Hr _].
    destruct (Hr Hrun) as [Ha _]. rewrite (top_pop _ _ Ht) in Ha. apply Forall_app in Ha as [_ Ha].
    inversion Ha as [| ? ? Hx]; subst. unfold running in Hx. congruence.
Qed.

Lemma rotated_perm s s' : rotated s s' -> threads s' ≡ₚ threads s /\ (active s' <> []).
Proof.
  intros (t & Ht & H). rewrite (current_threads s t Ht). unfold threads.
  case_decide as E; destruct H as [-> ->].
  - rewrite E. cbn. rewrite app_nil_r. split; [by rewrite Permutation_app_comm |]. by destruct (inactive s).
  - split; [| done]. by rewrite (Permutation_app_comm [t]).
Qed.

Lemma preemptThread_inv t m b m' :
  top (active (state m)) = Some t -> MTVM.preemptThread t m = Ok (b, m') ->
  same_scalars (state m) (state m') /\ rotated (state m) (state m') /\
  StepsSinceLastContextSwitch (state m') = 0.
Proof.
  intros Ht R. unfold MTVM.preemptThread, MTVM.upd in R.
  apply ST_bind_ok in R as (m0 & m1 & R1 & R). injection R1 as <- <-.
  apply ST_bind_ok in R as (u & m1 & R1 & R).
  set (l := pop (active (state m))). set (i := inactive (state m) ++ [t]).
  assert (same_scalars (state m) (state m1) /\ active (state m1) = l /\ inactive (state m1) = i /\
          TraverseRight (state m1) = TraverseRight (state m)) as (Hsc & Ea & Ei & Etr).
  { unfold l, i, active, inactive, getActiveThreadStack.
    destruct (TraverseRight (state m)) eqn:Etr; (destruct (_ =? 0) in R1; [done |]); injection R1 as <- <-;
      unfold same_scalars; cbn; rewrite ?Etr; destruct (state m); cbn in Etr |- *; by subst. }
  apply ST_bind_ok in R as (m2 & m3 & R2 & R). injection R2 as <- <-.
  apply ST_bind_ok in R as (u' & m3 & R2 & R).
  apply ST_bind_ok in R as (u2 & m4 & R3 & R). injection R3 as <- <-.
  apply ST_bind_ok in R as (t2 & m5 & R3 & R). apply current_inv in R3 as [_ ->].
  apply ST_bind_ok in R as (m5 & m6 & R3 & R). injection R3 as <- <-.
  apply ST_bind_ok in R as (u3 & m6 & R3 & R). apply stats_state in R3. injection R as <- <-.
  rewrite R3. cbn [state MTVM.set_state].
  change (getActiveThreadStack (state m1)) with (active (state m1)) in R2. rewrite Ea in R2.
  destruct (Z.eqb_spec (zlen l) 0) as [E0 | E0]; injection R2 as <- <-.
  - assert (l = []) as El by (destruct l; [done | unfold zlen in E0; cbn in E0; lia]). split; [| split; [| done]].
    + rewrite Hsc. unfold same_scalars. cbn. done.
    + exists t. split; [done |]. fold l. rewrite decide_True by done.
      change (inactive (state m) ++ [t]) with i. rewrite <- Ei, <- El, <- Ea.
      unfold active, inactive, getActiveThreadStack. cbn. by destruct (TraverseRight (state m1)).
  - split; [| split; [| done]].
    + rewrite Hsc. unfold same_scalars. cbn. done.
    + exists t. split; [done |]. fold l. rewrite decide_False by (intros ->; done).
      rewrite <- Ea. split; [done | exact Ei].
Qed.

Lemma preemptThread_stepped t m b m' :
  state_ok (state m) -> top (active (state m)) = Some t -> running t ->
  MTVM.preemptThread t m = Ok (b, m') -> stepped (state m) (state m').
Proof.
  intros Hs Ht Hr R. destruct (preemptThread_inv t m b m' Ht R) as (Hsc & Hrot & H0).
  destruct (rotated_perm _ _ Hrot) as [Hp Hne].
  destruct (same_scalars_fields _ _ Hsc) as (E1 & E2 & E3 & E4 & E5 & E6 & E7 & E8 & E9 & E10 & E11 & E12).
  split.
  - apply (rescheduled (state m)); try done.
    + rewrite Hp. apply Hs.
    + rewrite Hp, (current_threads _ _ Ht). pose proof (so_others _ Hs) as H. apply Forall_app in H as [H1 H2].
      apply Forall_app; split; [done |]. by apply Forall_app; split; [constructor |].
  - intros [Hn Hf] _. split; [by rewrite Hp | by rewrite E11, Hp].
  - done.
  - apply ll_same_bytes. by rewrite E1.
  - by left.
  - left. unfold reservation. congruence.
Qed.

(** Dropping the current thread. *)
Lemma popThread_inv t m u m' :
  top (active (state m)) = Some t -> MTVM.popThread m = Ok (u, m') ->
  same_scalars (state m) (state m') /\ StepsSinceLastContextSwitch (state m') = 0 /\
  threads (state m') = pop (active (state m)) ++ inactive (state m) /\
  (threads (state m') <> [] -> active (state m') <> []).
Proof.
  intros Ht R. unfold MTVM.popThread, MTVM.upd in R.
  apply ST_bind_ok in R as (m0 & m1 & R1 & R). injection R1 as <- <-.
  apply ST_bind_ok in R as ([] & m1 & R1 & R). destruct (_ =? 0) in R1; [done |]. injection R1 as <-.
  apply ST_bind_ok in R as (m2 & m3 & R2 & R). injection R2 as <- <-.
  apply ST_bind_ok in R as ([] & m3 & R2 & R). injection R as <- <-. cbn [state MTVM.set_state] in *.
  set (l := pop (active (state m))) in *. change (pop (getActiveThreadStack (state m))) with l in *.
  destruct (active_set_active l (state m)) as [Ea Ei]. set (s1 := set_active l (state m)) in *.
  assert (same_scalars (state m) s1) as Hsc
    by (unfold s1, same_scalars, set_active; destruct (state m) as [? ? ? ? ? ? ? ? ? ? ? [] ? ? ? ?]; done).
  change (getActiveThreadStack s1) with (active s1) in R2. rewrite Ea in R2.
  destruct (Z.eqb_spec (zlen l) 0) as [E0 | E0]; injection R2 as <-; cbn [state MTVM.set_state].
  - assert (l = []) as El by (destruct l; [done | unfold zlen in E0; cbn in E0; lia]).
    split; [rewrite Hsc; unfold same_scalars; done |]. split; [done |].
    unfold threads, active, inactive, getActiveThreadStack in *. cbn. rewrite El in *.
    destruct (TraverseRight s1); cbn; rewrite Ea, Ei, app_nil_r; done.
  - split; [rewrite Hsc; unfold same_scalars; done |]. split; [done |].
    unfold threads. change (active (set_StepsSince 0 s1)) with (active s1).
    change (inactive (set_StepsSince 0 s1)) with (inactive s1). rewrite Ea, Ei. split; [done |].
    intros _ ->. done.
Qed.

Lemma popThread_stepped t m u m' :
  state_ok (state m) -> top (active (state m)) = Some t -> ThreadExited t = true ->
  Exited (state m) = false -> MTVM.popThread m = Ok (u, m') -> stepped (state m) (state m').
Proof.
  intros Hs Ht Hex Hne R. destruct (popThread_inv t m u m' Ht R) as (Hsc & H0 & Hth & Hact).
  destruct (same_scalars_fields _ _ Hsc) as (E1 & E2 & E3 & E4 & E5 & E6 & E7 & E8 & E9 & E10 & E11 & E12).
  pose proof (current_threads _ _ Ht) as Ec. split.
  - apply (rescheduled (state m)); try done.
    + rewrite Hth. pose proof (so_threads _ Hs) as H. rewrite Ec in H.
      apply Forall_app in H as [H1 H2]. apply Forall_app in H2 as [_ H2]. apply Forall_app; by split.
    + apply Hact. rewrite Hth. destruct (so_current _ Hs t Ht Hex) as [H | H]; [congruence |].
      rewrite Ec, !length_app in H. cbn in H. intros Hnil. apply (f_equal length) in Hnil.
      rewrite length_app in Hnil. cbn in Hnil. lia.
    + rewrite Hth. apply Hs.
  - assert (threads (state m) ≡ₚ t :: threads (state m')) as Hp
      by (rewrite Ec, Hth; symmetry; apply Permutation_middle).
    unfold ids_ok. rewrite Hp. cbn. intros [Hn Hf] _. rewrite E11.
    split; [by inversion Hn | by inversion Hf].
  - done.
  - apply ll_same_bytes. by rewrite E1.
  - by left.
  - left. unfold reservation. congruence.
Qed.

Lemma stepped_same_state s m m' : stepped s (state m) -> state m' = state m -> stepped s (state m').
Proof. by intros H ->. Qed.

Lemma syscallYield_stepped t m u m' :
  state_ok (state m) -> top (active (state m)) = Some t -> running t ->
  MTVM.syscallYield m = Ok (u, m') -> stepped (state m) (state m').
Proof.
  intros Hs Ht Hr R. unfold MTVM.syscallYield in R.
  apply ST_bind_ok in R as ([] & m1 & R1 & R).
  apply syscall_updates_steady in R1 as [Hst Hb]; [| done | apply word_0 | apply word_0].
  apply ST_bind_ok in R as (t1 & m2 & R1 & R). apply current_inv in R1 as [Ht1 ->].
  apply ST_bind_ok in R as (b & m2 & R1 & R). injection R as <- <-.
  eapply steady_then_stepped; [exact Hst | exact Hb | done |].
  eapply preemptThread_stepped; [apply Hst | exact Ht1 | | exact R1].
  destruct (sy_current _ _ Hst t Ht) as (t2 & Ht2 & _ & He). unfold running in *. congruence.
Qed.

(** A store, then the check of the reservation. *)
Lemma handleMemoryUpdate_stepped s0 s1 addr m u m' :
  stepped s0 s1 -> steady s1 (state m) -> same_but_word addr (Mem s1) (Mem (state m)) ->
  addr .& ExtMask = 0 -> MTVM.handleMemoryUpdate addr m = Ok (u, m') -> stepped s0 (state m').
Proof.
  intros H1 H2 Hb Hal R. unfold MTVM.handleMemoryUpdate, MTVM.clearLLMemoryReservation, MTVM.upd in R.
  apply ST_bind_ok in R as (m0 & m1 & R1 & R). injection R1 as <- <-.
  assert (ids_ok s0 -> NextThreadId s0 < maxWord -> ids_ok (state m)) as Hi
    by (intros; eapply sy_ids; [exact H2 | by apply H1]).
  assert (MT.Step (state m) = MT.Step s0) as Hst by (rewrite (sy_step _ _ H2); apply H1).
  destruct (Z.eqb_spec addr (AddressMask .& LLAddress (state m))) as [E | E].
  - apply ST_bind_ok in R as ([] & m1 & R1 & R). injection R1 as <-. apply stats_state in R. rewrite R.
    split; [apply clear_LL_ok, H2 | done | done | intros Hn; done | | by right; left].
    cbn. rewrite (sy_next _ _ H2). apply H1.
  - injection R as <- <-. destruct (sy_ll _ _ H2) as (El & Ea & Eo).
    split; [apply H2 | done | done | | rewrite (sy_next _ _ H2); apply H1
           | rewrite (steady_reservation _ _ H2), El, Eo; apply H1].
    intros Hn b Hbb. rewrite Hb.
    + apply H1; congruence.
    + rewrite Z.land_comm in E.
      apply (aligned_disjoint (LLAddress (state m) .& AddressMask)); [| done | congruence | done].
      by apply aligned_word, H2.
Qed.

Lemma stepped_refl s : state_ok s -> stepped s s.
Proof. intros Hs. by apply steady_stepped; [apply steady_refl |]. Qed.

(** *** Instructions *)

Lemma core_step_stepped insn opcode fun_ m u m' :
  state_ok (state m) -> in_range 32 insn ->
  (r ← MTVM.on_core (ExecMipsCoreStepLogic insn opcode fun_);
   let '(upd, addr) := r in if (upd : bool) then MTVM.handleMemoryUpdate addr else mret ()) m = Ok (u, m') ->
  stepped (state m) (state m').
Proof.
  intros Hs Hi R. apply ST_bind_ok in R as ([upd addr] & m1 & R1 & R).
  apply (on_core_steady _ (fun r => reported r.1 r.2)) in R1 as [Hst Hrep]; [| done |].
  2: { intros c c' Hc Rc. by eapply ExecMipsCoreStepLogic_wf. }
  cbn [fst snd] in *. destruct upd.
  - destruct Hrep as (Ha & Hal & Hb).
    eapply handleMemoryUpdate_stepped; [by apply stepped_refl | exact Hst | exact Hb | exact Hal | exact R].
  - injection R as <- <-. by apply steady_stepped.
Qed.

Lemma LoadSubWord_keeps vaddr n b (c c' : Core (Z * ThreadedStackTracker)) v :
  core_wf c -> is_word vaddr -> sub_size n -> LoadSubWord vaddr n b c = Ok (v, c') ->
  core_wf c' /\ (same_bytes (memory c) (memory c') /\ is_word v).
Proof.
  intros Hc Hv Hn R. unfold LoadSubWord in R. destruct (aligned_word vaddr Hv) as [Ha Hal].
  apply ST_bind_ok in R as (u1 & c1 & R1 & R). apply track_keeps in R1 as [[Hc1 Hb1] _]; [| done ..].
  apply ST_bind_ok in R as (w & c2 & R1 & R).
  apply get_keeps in R1 as [[Hc2 Hb2] [-> _]]; [| done ..]. injection R as <- <-.
  split; [done |]. split; [by eapply same_bytes_trans |].
  apply SelectSubWord_word; [apply mem_word_word, Hc1 | done].
Qed.

Lemma StoreSubWord_writes vaddr n v (c c' : Core (Z * ThreadedStackTracker)) u :
  core_wf c -> is_word vaddr -> StoreSubWord vaddr n v c = Ok (u, c') ->
  core_wf c' /\ same_but_word (vaddr .& AddressMask) (memory c) (memory c').
Proof.
  intros Hc Hv R. unfold StoreSubWord in R. destruct (aligned_word vaddr Hv) as [Ha Hal].
  apply ST_bind_ok in R as (u1 & c1 & R1 & R). apply track_keeps in R1 as [[Hc1 Hb1] _]; [| done ..].
  apply ST_bind_ok in R as (w & c2 & R1 & R).
  apply get_keeps in R1 as [[Hc2 Hb2] [-> _]]; [| done ..].
  apply set_writes in R as (Hc3 & Hb3 & _); [| done ..]. split; [done |].
  eapply same_but_trans; [| exact Hb3]. by eapply same_bytes_trans.
Qed.

Lemma HandleRd_core r v b (c c' : Core (Z * ThreadedStackTracker)) u :
  0 <= r -> is_word v -> core_wf c -> HandleRd r v b c = Ok (u, c') ->
  core_wf c' /\ same_bytes (memory c) (memory c').
Proof. intros Hr Hv Hc R. by eapply HandleRd_keeps in R. Qed.

Lemma set_LL_ok s st a o :
  state_ok s -> in_range 8 st -> is_word a -> is_word o -> state_ok (set_LL st a o s).
Proof. intros [] H1 H2 H3. by split. Qed.

Lemma set_LL_ids s st a o : ids_ok s -> ids_ok (set_LL st a o s).
Proof. done. Qed.

Lemma rmw_size opcode :
  (opcode = OpLoadLinked64 \/ opcode = OpStoreConditional64 -> IsMips32 = false) ->
  sub_size (if (opcode =? OpLoadLinked64) || (opcode =? OpStoreConditional64) then 8 else 4).
Proof.
  intros H. destruct (Z.eqb_spec opcode OpLoadLinked64), (Z.eqb_spec opcode OpStoreConditional64); cbn [orb];
    unfold sub_size; try (by right; right; left); right; right; right; split; try done;
    specialize (H ltac:(auto)); by destruct A.
Qed.

Lemma load_linked_stepped addr n status t m v m' :
  let owner := ThreadId t in
  state_ok (state m) -> top (active (state m)) = Some t -> is_word addr -> sub_size n -> in_range 8 status ->
  (retVal ← MTVM.on_core (LoadSubWord addr n true);
   MTVM.upd (set_LL status addr owner) ;;
   m ← get;
   MTVM.stats (Stats.trackLL owner (MT.Step (state m))) ;;
   mret retVal) m = Ok (v, m') ->
  stepped (state m) (state m') /\ is_word v.
Proof.
  intros owner Hs Ht Ha Hn Hst R. apply ST_bind_ok in R as (x & m1 & R1 & R).
  apply (on_core_steady _ (fun x mem mem' => same_bytes mem mem' /\ is_word x)) in R1 as [H1 [Hb Hx]]; [| done |].
  2: { intros c c' Hc Rc. exact (LoadSubWord_keeps _ _ _ _ _ _ Hc Ha Hn Rc). }
  unfold MTVM.upd in R. st_inv. match goal with Hst : MTVM.stats _ _ = _ |- _ => apply stats_state in Hst as -> end.
  cbn [state MTVM.set_state]. split; [| done]. split.
  - apply set_LL_ok; try done; [apply H1 | by apply (current_wf _ t Hs Ht)].
  - intros Hi _. apply set_LL_ids. by eapply sy_ids.
  - apply H1.
  - by apply ll_same_bytes.
  - left. apply H1.
  - right; right. by exists t.
Qed.

Lemma store_conditional_stepped addr n val (f : statsTrackerImpl L -> statsTrackerImpl L) m v m' :
  state_ok (state m) -> is_word addr ->
  (MTVM.clearLLMemoryReservation ;;
   MTVM.on_core (StoreSubWord addr n val) ;;
   MTVM.stats f ;;
   mret 1) m = Ok (v, m') ->
  stepped (state m) (state m') /\ is_word v.
Proof.
  intros Hs Ha R. unfold MTVM.clearLLMemoryReservation, MTVM.upd in R.
  apply ST_bind_ok in R as ([] & m1 & R1 & R). injection R1 as <-.
  apply ST_bind_ok in R as ([] & m2 & R1 & R).
  apply (on_core_steady _ (fun _ => same_but_word (addr .& AddressMask))) in R1 as [H1 Hb];
    [| by apply clear_LL_ok |].
  2: { intros c c' Hc Rc. exact (StoreSubWord_writes _ _ _ _ _ _ Hc Ha Rc). }
  st_inv. match goal with Hst : MTVM.stats _ _ = _ |- _ => apply stats_state in Hst as -> end.
  split; [| apply word_1]. split.
  - apply H1.
  - intros Hi _. eapply sy_ids; [exact H1 | exact Hi].
  - apply (sy_step _ _ H1).
  - intros Hn. destruct (sy_ll _ _ H1) as [El _]. done.
  - left. apply (sy_next _ _ H1).
  - right; left. apply (sy_ll _ _ H1).
Qed.

Lemma handleRMWOps_stepped insn opcode m u m' :
  state_ok (state m) -> in_range 32 insn ->
  (opcode = OpLoadLinked64 \/ opcode = OpStoreConditional64 -> IsMips32 = false) ->
  MTVM.handleRMWOps insn opcode m = Ok (u, m') -> stepped (state m) (state m').
Proof.
  intros Hs Hi H32 R. unfold MTVM.handleRMWOps in R.
  apply ST_bind_ok in R as (t & m1 & R1 & R). apply current_inv in R1 as [Ht ->].
  pose proof (current_wf _ t Hs Ht) as Hw. pose proof (rmw_size opcode H32) as Hsz.
  set (n := if _ || _ then 8 else 4) in *.
  set (st := if _ || _ then LLStatusActive64bit else LLStatusActive32bit) in *.
  assert (in_range 8 st) as Hst by (unfold st; by destruct (_ || _)).
  apply ST_bind_ok in R as (v & m1 & R1 & R).
  assert (stepped (state m) (state m1) /\ is_word v) as [H1 Hv].
  { revert R1. apply (switch_all (fun c : ST (InstrumentedState L) Z => c m = Ok (v, m1) -> _)).
    - repeat (apply Forall_cons_2; [cbn [snd] |]); try apply Forall_nil_2.
      + apply (load_linked_stepped _ _ _ t); try done. apply wadd_word.
      + intros R1. apply ST_bind_ok in R1 as (m0 & m2 & Rg & R1). injection Rg as <- <-.
        destruct (_ && _); [eapply store_conditional_stepped; [done | apply wadd_word | exact R1] |].
        st_inv. match goal with Hf : MTVM.stats _ _ = _ |- _ => apply stats_state in Hf as -> end. split; [by apply stepped_refl | apply word_0].
    - done. }
  apply (on_core_steady _ (fun _ => same_bytes)) in R as [H2 Hb]; [| apply H1 |].
  2: { intros c c' Hc Rc. eapply HandleRd_core; [| exact Hv | exact Hc | exact Rc].
       apply Z.land_nonneg; right; lia. }
  by eapply stepped_steady.
Qed.

End Steps.
