(* ===== verification/MTStep.v ===== *)
(** The step of the multithreaded VM preserves its invariants: the system
    calls, the scheduler and [Step] with and without proof generation. *)
From Stdlib Require Import ZArith Lia.
From stdpp Require Import base gmap list strings numbers.
From S2P Require Import Prelude Arch Codec Insn Memory Exec Threads Multithreaded MerkleSpec.
From S2P Require Import MemoryProps MerkleProps MemoryRange InsnProps ExecProps SyscallProps MTProps.

Import MT.

Ltac drop_stats :=
  match goal with
  | H : MTVM.stats _ _ = _ |- _ => apply stats_state in H as ->
  | H : MTVM.stack _ _ = _ |- _ => apply stack_state in H as ->
  end.

Section Syscalls.
Context {A : Arch} {K : Keccak} {PO : PreimageOracle} {MD : Metadata} {L : LRU}.
Implicit Types m : InstrumentedState L.

(** What a system call returns for the register update. *)
Definition result_wf (r : option (Z * Z)) : Prop :=
  match r with Some (v0, v1) => is_word v0 /\ is_word v1 | None => True end.

Lemma set_Exit_ok s c : state_ok s -> in_range 8 c -> state_ok (set_Exit c true s).
Proof. intros [] Hc. split; try done. intros t Ht He. by left. Qed.

Lemma set_Exit_stepped s c : state_ok s -> in_range 8 c -> stepped s (set_Exit c true s).
Proof. intros Hs Hc. split; try done; [by apply set_Exit_ok | by left | by left]. Qed.

Lemma set_Preimage_steady s key off hint :
  state_ok s -> key_ok key -> is_word off -> bytes_ok hint ->
  steady s (set_Preimage key off (set_LastHint hint s)).
Proof. intros Hs Hk Ho Hh. apply (steady_upd s (fun s => set_Preimage key off (set_LastHint hint s))); try done.
  destruct Hs. by split. Qed.

Lemma set_Heap_steady s h : state_ok s -> is_word h -> steady s (set_Heap h s).
Proof. intros Hs Hh. apply (steady_upd s (set_Heap h)); try done. destruct Hs. by split. Qed.

Lemma wrap8_range x : in_range 8 (wrap 8 x).
Proof. apply wrap_range; lia. Qed.

Lemma sys_read_stepped a0 a1 a2 m r m' :
  state_ok (state m) -> is_word a1 -> is_word a2 -> MTVM.sys_read a0 a1 a2 m = Ok (r, m') ->
  stepped (state m) (state m') /\ result_wf r.
Proof.
  intros Hs H1 H2 R. unfold MTVM.sys_read in R.
  apply ST_bind_ok in R as (m0 & m1 & Rg & R). injection Rg as <- <-.
  apply ST_bind_ok in R as ([[[[v0 v1] off'] upd] addr] & m1 & R1 & R).
  apply (on_io_steady _ (fun r mem mem' => is_word v0 /\ is_word v1 /\ is_word off' /\ reported upd addr mem mem'))
    in R1 as (Hst & Hv0 & Hv1 & Hoff & Hrep); [| done |].
  2: { intros i i' Hi Ri. eapply HandleSysRead_wf; [exact Hi | exact H1 | exact H2 | apply Hs | exact Ri]. }
  apply ST_bind_ok in R as ([] & m2 & R1 & R). injection R1 as <-.
  apply ST_bind_ok in R as ([] & m3 & R1 & R). injection R as <- <-. split; [| by split].
  pose proof (sy_ok _ _ Hst) as Hs1.
  assert (steady (state m) (set_Preimage (PreimageKey (state m1)) off' (state m1))) as Hst2.
  { eapply steady_trans; [exact Hst |].
    assert (state m1 = set_LastHint (LastHint (state m1)) (state m1)) as E by (by destruct (state m1)).
    rewrite E at 3. apply set_Preimage_steady; [done | apply Hs1 | done | apply Hs1]. }
  destruct upd.
  - destruct Hrep as (Ha & Hal & Hb).
    eapply handleMemoryUpdate_stepped in R1; [exact R1 | by apply stepped_refl | exact Hst2 | exact Hb | exact Hal].
  - injection R1 as <-. by apply steady_stepped.
Qed.

Lemma sys_write_stepped a0 a1 a2 m r m' :
  state_ok (state m) -> is_word a1 -> is_word a2 -> MTVM.sys_write a0 a1 a2 m = Ok (r, m') ->
  stepped (state m) (state m') /\ result_wf r.
Proof.
  intros Hs H1 H2 R. unfold MTVM.sys_write in R.
  apply ST_bind_ok in R as (m0 & m1 & Rg & R). injection Rg as <- <-.
  apply ST_bind_ok in R as ([[[[v0 v1] hint'] key'] off'] & m1 & R1 & R).
  apply (on_io_steady _ (fun r mem mem' => is_word v0 /\ is_word v1 /\ bytes_ok hint' /\ key_ok key' /\
    is_word off' /\ same_bytes mem mem')) in R1 as (Hst & Hv0 & Hv1 & Hh & Hk & Hoff & Hb); [| done |].
  2: { intros i i' Hi Ri.
       eapply HandleSysWrite_wf in Ri; [exact Ri | exact Hi | exact H1 | exact H2 | apply Hs ..]. }
  apply ST_bind_ok in R as ([] & m2 & R1 & R). injection R1 as <-. injection R as <- <-. split; [| by split].
  eapply stepped_steady; [by apply steady_stepped | | done].
  apply set_Preimage_steady; try done. apply Hst.
Qed.

(** A new thread on top of the active stack. *)
Lemma push_ok s s' t :
  state_ok s -> same_scalars s s' -> StepsSinceLastContextSwitch s' = 0 ->
  active s' = active s ++ [t] -> inactive s' = inactive s ->
  thread_wf t -> running t -> Forall running (threads s) -> state_ok s'.
Proof.
  intros Hs Hsc H0 Ea Ei Ht Hr Hall. apply (rescheduled s); try done.
  - unfold threads. rewrite Ea, Ei. pose proof (so_threads _ Hs) as H. apply Forall_app in H as [H1 H2].
    apply Forall_app; split; [| done]. by apply Forall_app; split; [| constructor].
  - rewrite Ea. by destruct (active s).
  - unfold threads. rewrite Ea, Ei. apply Forall_app in Hall as [H1 H2].
    apply Forall_app; split; [| done]. by apply Forall_app; split; [| constructor].
Qed.

Lemma all_running s t : state_ok s -> top (active s) = Some t -> running t -> Forall running (threads s).
Proof.
  intros Hs Ht Hr. rewrite (current_threads _ _ Ht). pose proof (so_others _ Hs) as H.
  apply Forall_app in H as [H1 H2]. apply Forall_app; split; [done |]. by apply Forall_app; split; [constructor |].
Qed.

Lemma set_NextThreadId_ok s n : state_ok s -> is_word n -> state_ok (set_NextThreadId n s).
Proof. intros [] Hn. by split. Qed.

(** The thread that clone creates. *)
Definition clone_thread (tid sp : Z) (t : ThreadState) : ThreadState :=
  mkThread tid 0 false
    (mkCpu (NextPC (Cpu t)) (wadd (NextPC (Cpu t)) 4) (LO (Cpu t)) (HI (Cpu t)))
    (set_reg RegSyscallErrno 0 (set_reg RegSyscallRet1 0 (set_reg RegSP sp (Registers t)))).

Lemma clone_thread_wf tid sp t : thread_wf t -> is_word tid -> is_word sp -> thread_wf (clone_thread tid sp t).
Proof.
  intros [Hi He Hc Hr] Htid Hsp. split; cbn; [done | done | |].
  - destruct Hc. split; cbn; try done. apply wadd_word.
  - repeat (apply set_reg_wf; [| done | first [done | apply word_0]]). done.
Qed.

Lemma pushThread_inv t m u m' :
  MTVM.pushThread t m = Ok (u, m') ->
  same_scalars (state m) (state m') /\ StepsSinceLastContextSwitch (state m') = 0 /\
  active (state m') = active (state m) ++ [t] /\ inactive (state m') = inactive (state m).
Proof.
  intros R. unfold MTVM.pushThread, MTVM.upd in R. st_inv. cbn [state MTVM.set_state].
  destruct (active_set_active (getActiveThreadStack (state m) ++ [t]) (state m)) as [Ea Ei].
  split; [| split; [done |]].
  - unfold same_scalars, set_active. destruct (state m) as [? ? ? ? ? ? ? ? ? ? ? [] ? ? ? ?]; done.
  - split; [exact Ea | exact Ei].
Qed.

Lemma wsucc n : is_word n -> n < maxWord -> wadd n 1 = n + 1.
Proof.
  rewrite maxWord_eq. intros [H1 H2] Hn. apply wrap_small. split; lia.
Qed.

Lemma sys_clone_stepped a0 a1 t m r m' :
  state_ok (state m) -> top (active (state m)) = Some t -> running t -> is_word a1 ->
  MTVM.sys_clone a0 a1 m = Ok (r, m') -> stepped (state m) (state m') /\ r = None.
Proof.
  intros Hs Ht Hr Ha R. unfold MTVM.sys_clone in R. destruct (negb _).
  { unfold MTVM.upd in R. st_inv. split; [| done]. apply set_Exit_stepped; [done | split; done]. }
  apply ST_bind_ok in R as (t1 & m1 & R1 & R). apply current_inv in R1 as [Ht1 ->].
  assert (t1 = t) as -> by congruence. clear Ht1.
  apply ST_bind_ok in R as (m0 & m1 & R1 & R). injection R1 as <- <-.
  apply ST_bind_ok in R as ([] & m1 & R1 & R). injection R1 as <-.
  apply ST_bind_ok in R as ([] & m2 & R1 & R).
  pose proof (so_next _ Hs) as Htid. set (tid := NextThreadId (state m)) in *.
  apply syscall_updates_steady in R1 as [Hst Hb]; [| | done | apply word_0].
  2: { apply set_NextThreadId_ok; [done | apply wadd_word]. }
  cbn [state MTVM.set_state] in *.
  apply ST_bind_ok in R as ([] & m3 & R1 & R). apply pushThread_inv in R1 as (Hsc & H0 & Ea & Ei).
  apply ST_bind_ok in R as ([] & m4 & R1 & R). injection R as <- <-. drop_stats. split; [| done].
  destruct (same_scalars_fields _ _ Hsc) as (E1 & _ & _ & _ & E5 & E6 & E7 & _ & _ & E10 & E11 & _).
  destruct (sy_current _ _ Hst t Ht) as (t2 & Ht2 & Hi2 & He2).
  split.
  - eapply push_ok; [apply Hst | exact Hsc | exact H0 | exact Ea | exact Ei | | done |].
    + apply (clone_thread_wf tid a1 t); [by eapply current_wf | done | done].
    + eapply all_running; [apply Hst | exact Ht2 | unfold running in *; congruence].
  - intros Hids Hlt. assert (wadd tid 1 = tid + 1) as Ew by (by apply wsucc).
    destruct (sy_ids _ _ Hst) as [Hn Hf].
    { destruct Hids as [Hn Hf]. split; [exact Hn |]. cbn. rewrite Ew. eapply Forall_impl; [| exact Hf].
      cbn. fold tid. intros; lia. }
    rewrite (sy_next _ _ Hst) in Hf. cbn in Hf.
    assert (ThreadId <$> threads (state m3) ≡ₚ tid :: (ThreadId <$> threads (state m2))) as Hp.
    { unfold threads. rewrite Ea, Ei, !fmap_app. cbn. rewrite <- app_assoc. cbn. by rewrite <- Permutation_middle. }
    split.
    + rewrite Hp. constructor; [| done]. intros Hin%list_elem_of_In.
      rewrite (sy_tids _ _ Hst) in Hin. destruct Hids as [_ Hf0]. rewrite Forall_forall in Hf0.
      specialize (Hf0 tid Hin). cbn in Hf0. fold tid in Hf0. lia.
    + rewrite E11, Hp, (sy_next _ _ Hst). cbn. constructor; [lia | done].
  - rewrite E10, (sy_step _ _ Hst). done.
  - apply ll_same_bytes. rewrite E1. exact Hb.
  - right. rewrite E11. apply (sy_next _ _ Hst).
  - left. unfold reservation. rewrite E5, E6, E7. apply (steady_reservation _ _ Hst).
Qed.
Lemma thread_count s : ThreadCount s = Z.of_nat (length (threads s)).
Proof.
  unfold ThreadCount, threads, active, inactive, getActiveThreadStack, zlen. rewrite length_app.
  destruct (TraverseRight s); lia.
Qed.

(** A state that differs in the current thread, which has exited, and perhaps
    in the exit status of the VM. *)
Lemma exit_thread_ok s t t' c ex :
  state_ok s -> top (active s) = Some t -> thread_wf t' -> in_range 8 c ->
  (ex = true \/ (2 <= length (threads s))%nat) ->
  state_ok (set_Exit c ex (set_current t' s)).
Proof.
  intros Hs Ht Hw Hc Hex. destruct (active_set_current t' s) as [Ea Ei].
  set (s1 := set_current t' s) in *. set (s2 := set_Exit c ex s1).
  change (active s1) with (active s2) in Ea. change (inactive s1) with (inactive s2) in Ei.
  assert (threads s2 = pop (active s) ++ [t'] ++ inactive s) as Eth
    by (unfold threads; rewrite Ea, Ei; by rewrite <- app_assoc).
  pose proof (current_threads s t Ht) as Eth0.
  assert (Hfields : forall f : State -> Prop, (forall l r, f (set_Exit c ex (set_Stacks l r s))) -> f s2)
    by (intros f Hf; unfold s2, s1, set_current, set_active; destruct (TraverseRight _); apply Hf).
  destruct Hs. split; try (apply Hfields; intros; cbn; done).
  - rewrite Eth. rewrite Eth0 in so_threads. apply Forall_app in so_threads as [F1 F2].
    apply Forall_app in F2 as [_ F3]. apply Forall_app; split; [done |].
    by apply Forall_app; split; [constructor |].
  - rewrite Ea. by destruct (pop _).
  - by rewrite Ea, Ei, pop_snoc.
  - intros t2 _ _. destruct Hex as [-> | H2]; [by left | right].
    rewrite Eth. rewrite Eth0 in H2. rewrite !length_app in *. cbn in *. lia.
Qed.

(** The current thread is marked as exited; unless it is the last one, the
    others go on. *)
Lemma sys_exit_stepped a0 t m r m' :
  state_ok (state m) -> top (active (state m)) = Some t ->
  MTVM.sys_exit a0 m = Ok (r, m') -> stepped (state m) (state m') /\ r = None.
Proof.
  intros Hs Ht R. unfold MTVM.sys_exit in R.
  apply ST_bind_ok in R as (t1 & m1 & R1 & R). apply current_inv in R1 as [Ht1 ->].
  assert (t1 = t) as -> by congruence. clear Ht1.
  apply ST_bind_ok in R as ([] & m1 & R1 & R). injection R1 as <-.
  apply ST_bind_ok in R as (m0 & m1 & R1 & R). injection R1 as <- <-. cbn [state MTVM.set_state] in R.
  set (t' := mkThread _ _ _ _ _) in R. set (s1 := set_current t' (state m)) in R.
  assert (thread_wf t') as Hw by (destruct (current_wf _ t Hs Ht); split; try done; apply wrap8_range).
  assert (forall c ex, in_range 8 c -> ex = true \/ (2 <= length (threads (state m)))%nat ->
            stepped (state m) (set_Exit c ex s1)) as Hstep.
  { intros c ex Hc Hex. split.
    - by eapply exit_thread_ok.
    - intros Hi _. unfold ids_ok. assert (NextThreadId s1 = NextThreadId (state m)) as En
        by (unfold s1, set_current, set_active; by destruct (TraverseRight _)).
      change (threads (set_Exit c ex s1)) with (threads s1). cbn [NextThreadId set_Exit]. rewrite En.
      assert (state m = set_Mem (Mem (state m)) (state m)) as E by (by destruct (state m)).
      assert (ThreadId <$> threads s1 = ThreadId <$> threads (state m)) as ->; [| exact Hi].
      unfold s1. rewrite E at 1. by apply (ids_set_current _ t).
    - unfold s1, set_current, set_active. by destruct (TraverseRight _).
    - apply ll_same_bytes. unfold s1, set_current, set_active. by destruct (TraverseRight _).
    - left. unfold s1, set_current, set_active. by destruct (TraverseRight _).
    - left. unfold s1, set_current, set_active. by destruct (TraverseRight _). }
  assert (s1 = set_Exit (ExitCode s1) (Exited s1) s1) as Es1 by (by destruct s1).
  assert (length (threads s1) = length (threads (state m))) as El.
  { rewrite (current_threads _ _ Ht). unfold threads, s1. destruct (active_set_current t' (state m)) as [-> ->].
    rewrite !length_app. cbn. lia. }
  unfold MTVM.lastThreadRemaining in R. rewrite thread_count, El in R.
  destruct (Z.eqb_spec (Z.of_nat (length (threads (state m)))) 1) as [E1' | E1'].
  - unfold MTVM.upd in R. st_inv. split; [| done]. apply Hstep; [apply wrap8_range | by left].
  - st_inv. split; [| done]. cbn [state MTVM.set_state]. fold t'. fold s1. rewrite Es1. apply Hstep.
    + replace (ExitCode s1) with (ExitCode (state m)); [apply Hs |].
      unfold s1, set_current, set_active. by destruct (TraverseRight _).
    + right. rewrite (current_threads _ _ Ht) in E1' |- *. rewrite !length_app in *. cbn in *. lia.
Qed.

Lemma getFutexValue_steady a m v m' :
  state_ok (state m) -> is_word a -> MTVM.getFutexValue a m = Ok (v, m') ->
  steady (state m) (state m') /\ same_bytes (Mem (state m)) (Mem (state m')).
Proof.
  intros Hs Ha R. unfold MTVM.getFutexValue in R. apply ST_bind_ok in R as (x & m1 & R1 & R). injection R as _ <-.
  apply (on_core_steady _ (fun x mem mem' => same_bytes mem mem' /\ is_word x)) in R1 as [H1 [Hb Hx]]; [done | done |].
  intros c c' Hc Rc. refine (LoadSubWord_keeps _ _ _ _ _ _ Hc Ha _ Rc). by right; right; left.
Qed.

Lemma yield_stepped t m r m' :
  state_ok (state m) -> top (active (state m)) = Some t -> running t ->
  (MTVM.syscallYield ;; mret None) m = Ok (r, m') -> stepped (state m) (state m') /\ result_wf r.
Proof.
  intros Hs Ht Hr R. apply ST_bind_ok in R as ([] & m1 & R1 & R). injection R as <- <-.
  split; [by eapply syscallYield_stepped | done].
Qed.

Lemma errno_wf e : in_range 8 e -> result_wf (Some (SysErrorSignal, e)).
Proof.
  intros [He1 He2]. split; [apply wnot_word |]. apply small_word. change (2 ^ 8) with 256 in He2. lia.
Qed.

Lemma sys_futex_stepped a0 a1 a2 t m r m' :
  state_ok (state m) -> top (active (state m)) = Some t -> running t -> is_word a0 ->
  MTVM.sys_futex a0 a1 a2 m = Ok (r, m') -> stepped (state m) (state m') /\ result_wf r.
Proof.
  intros Hs Ht Hr Ha. unfold MTVM.sys_futex.
  apply (switch_all (fun c : ST (InstrumentedState L) _ => c m = Ok (r, m') -> _)).
  - repeat (apply Forall_cons_2; [cbn [snd] |]); try apply Forall_nil_2.
    + intros R. apply ST_bind_ok in R as (v & m1 & R1 & R).
      apply getFutexValue_steady in R1 as [Hst Hb]; [| done |].
      2: { apply land_word; [done |]. apply word_nonneg, wnot_word. }
      destruct (negb _).
      * injection R as <- <-. split; [by apply steady_stepped | by apply errno_wf].
      * destruct (sy_current _ _ Hst t Ht) as (t2 & Ht2 & _ & He).
        apply (yield_stepped t2) in R as [HS HR]; [| apply Hst | done | unfold running in *; congruence].
        split; [| done]. eapply steady_then_stepped; done.
    + intros R. by eapply yield_stepped.
  - intros [= <- <-]. split; [by apply stepped_refl | by apply errno_wf].
Qed.

(** Tracking an access, a store and the check of the reservation. *)
Lemma store_word_stepped s0 (track : ST IO unit) addr v m1 m2 m3 m4 u1 u2 u3 :
  stepped s0 (state m1) -> is_word addr -> addr .& ExtMask = 0 ->
  (forall i i' u, io_wf i -> track i = Ok (u, i') -> io_wf i' /\ same_bytes (io_memory i) (io_memory i')) ->
  MTVM.on_io track m1 = Ok (u1, m2) ->
  MTVM.on_io (io_mem (SetWord addr v)) m2 = Ok (u2, m3) ->
  MTVM.handleMemoryUpdate addr m3 = Ok (u3, m4) -> stepped s0 (state m4).
Proof.
  intros H0 Ha Hal Ht R1 R2 R3.
  apply (on_io_steady _ (fun _ => same_bytes)) in R1 as [S1 B1]; [| apply H0 | intros i i'; apply Ht].
  apply (on_io_steady _ (fun _ => same_but_word addr)) in R2 as [S2 B2]; [| apply S1 |].
  2: { intros i i' Hi Ri. apply io_set in Ri as (W & _ & B); [| done ..]. split; [done |].
       by eapply write_word_same_but. }
  eapply handleMemoryUpdate_stepped in R3; [exact R3 | exact H0 | by eapply steady_trans | | done].
  by eapply same_but_trans.
Qed.

Lemma next_word_aligned a : is_word a -> a .& ExtMask = 0 -> wadd a WordSizeBytes .& ExtMask = 0.
Proof.
  intros [H1 H2]. rewrite !ExtMask_mod. unfold wadd, uadd, wrap. intros Hal.
  destruct A; [change WordSizeBytes with 4 in *; change (2 ^ WordSize) with (2 ^ 32) in *
    | change WordSizeBytes with 8 in *; change (2 ^ WordSize) with (2 ^ 64) in *];
  cbn [Z.pow Z.pow_pos Pos.iter] in *; Z.to_euclidean_division_equations; lia.
Qed.

Lemma sys_clock_gettime_stepped a0 a1 m r m' :
  state_ok (state m) -> is_word a1 ->
  MTVM.sys_clock_gettime a0 a1 m = Ok (r, m') -> stepped (state m) (state m') /\ result_wf r.
Proof.
  intros Hs Ha. unfold MTVM.sys_clock_gettime. destruct (aligned_word a1 Ha) as [Hw Hal].
  apply (switch_all (fun c : ST (InstrumentedState L) _ => c m = Ok (r, m') -> _)).
  - repeat (apply Forall_cons_2; [cbn [snd] |]); try apply Forall_nil_2. intros R.
    apply ST_bind_ok in R as (m0 & m1 & Rg & R). injection Rg as <- <-.
    destruct (if a0 =? ClockGettimeMonotonicFlag then _ else _) as [secs nsecs].
    apply ST_bind_ok in R as (u1 & m1 & R1 & R). apply ST_bind_ok in R as (u2 & m2 & R2 & R).
    apply ST_bind_ok in R as (u3 & m3 & R3 & R). apply ST_bind_ok in R as (u4 & m4 & R4 & R).
    apply ST_bind_ok in R as (u5 & m5 & R5 & R). apply ST_bind_ok in R as (u6 & m6 & R6 & R).
    injection R as <- <-. split; [| split; apply word_0].
    eapply store_word_stepped in R3; [| by apply stepped_refl | done | done | | exact R1 | exact R2].
    2: { intros i i' u Hi Ri. apply io_track in Ri as (? & ? & _); done. }
    eapply store_word_stepped; [exact R3 | | | | exact R4 | exact R5 | exact R6].
    + apply wadd_word.
    + by apply next_word_aligned.
    + intros i i' u Hi Ri. apply io_track2 in Ri as (? & ? & _); try done. apply wadd_word.
  - intros [= <- <-]. split; [by apply stepped_refl | by apply errno_wf].
Qed.

Lemma HandleSysMmap_wf a0 a1 h v0 v1 h' :
  is_word a0 -> is_word h -> HandleSysMmap a0 a1 h = (v0, v1, h') -> is_word v0 /\ is_word v1 /\ is_word h'.
Proof.
  intros Ha Hh. unfold HandleSysMmap. destruct (a0 =? 0); [destruct (_ || _) |]; intros [= <- <- <-];
    (split; [| split]); try done; try apply wnot_word; try apply wadd_word; apply small_word; done.
Qed.

Lemma HandleSysFcntl_wf a0 a1 : result_wf (Some (HandleSysFcntl a0 a1)).
Proof.
  assert (forall e, 0 <= e < 256 -> result_wf (Some (wnot 0, e))) as He
    by (intros e H; split; [apply wnot_word | apply small_word; lia]).
  unfold HandleSysFcntl. destruct (a1 =? 1); [| destruct (a1 =? 3); [| by apply He]];
    apply (switch_all (fun r => result_wf (Some r))); repeat (apply Forall_cons_2; [cbn [snd] |]);
    try apply Forall_nil_2; try (by apply He); split; first [apply word_0 | apply word_1].
Qed.

Lemma handleSyscall_stepped t m u m' :
  state_ok (state m) -> top (active (state m)) = Some t -> running t ->
  MTVM.handleSyscall m = Ok (u, m') -> stepped (state m) (state m').
Proof.
  intros Hs Ht Hr R. unfold MTVM.handleSyscall in R.
  apply ST_bind_ok in R as (t1 & m1 & R1 & R). apply current_inv in R1 as [Ht1 ->].
  assert (t1 = t) as -> by congruence. clear Ht1.
  pose proof (current_wf _ t Hs Ht) as Hw.
  assert (forall i, is_word (reg (Registers t) i)) as Hreg by (intros i; apply reg_word, Hw).
  unfold GetSyscallArgs in R. cbv zeta beta iota in R.
  set (num := reg _ RegSyscallNum) in R. set (a0 := reg _ RegSyscallParam1) in R.
  set (a1 := reg _ RegSyscallParam2) in R. set (a2 := reg _ RegSyscallParam3) in R.
  apply ST_bind_ok in R as (r & m1 & R1 & R).
  assert (stepped (state m) (state m1) /\ result_wf r) as [H1 Hres].
  { assert (Hconst : forall v0 v1, is_word v0 -> is_word v1 ->
      (mret (Some (v0, v1)) : ST (InstrumentedState L) _) m = Ok (r, m1) -> stepped (state m) (state m1) /\ result_wf r)
      by (intros v0 v1 H0 H1 [= <- <-]; split; [by apply stepped_refl | done]).
    assert (Hnone : forall x : ST (InstrumentedState L) (option (Z * Z)), x m = Ok (r, m1) ->
      (x m = Ok (r, m1) -> stepped (state m) (state m1) /\ r = None) ->
      stepped (state m) (state m1) /\ result_wf r) by (intros x Rx Hx; destruct (Hx Rx) as [? ->]; done).
    revert R1. apply (switch_all (fun c : ST (InstrumentedState L) _ => c m = Ok (r, m1) -> _)).
    2: { destruct (_ && _); [apply Hconst; apply word_0 | done]. }
    repeat (apply Forall_cons_2; [cbn [snd] |]); try apply Forall_nil_2;
      try (by apply Hconst; first [apply word_0 | apply Hw]).
    - intros R1. apply ST_bind_ok in R1 as (m0 & m2 & Rg & R1). injection Rg as <- <-.
      destruct (HandleSysMmap a0 a1 (Heap (state m))) as [[v0 v1] h'] eqn:E. unfold MTVM.upd in R1. st_inv.
      apply HandleSysMmap_wf in E as (W0 & W1 & Wh); [| apply Hreg | apply Hs]. split; [| done].
      apply steady_stepped; [by apply set_Heap_steady | done].
    - apply Hconst; [by destruct A | apply word_0].
    - intros Rx. eapply Hnone; [exact Rx | apply (sys_clone_stepped a0 a1 t); first [done | apply Hreg]].
    - intros R1. unfold MTVM.upd in R1. st_inv. split; [| done]. apply set_Exit_stepped; [done | apply wrap8_range].
    - apply sys_read_stepped; first [done | apply Hreg].
    - apply sys_write_stepped; first [done | apply Hreg].
    - intros [= <- <-]. split; [by apply stepped_refl | apply HandleSysFcntl_wf].
    - intros Rx. eapply Hnone; [exact Rx | apply (sys_exit_stepped a0 t); done].
    - apply (sys_futex_stepped _ _ _ t); first [done | apply Hreg].
    - by apply (yield_stepped t).
    - intros [= <- <-]. split; [by apply stepped_refl | by apply errno_wf].
    - apply sys_clock_gettime_stepped; first [done | apply Hreg]. }
  destruct r as [[v0 v1] |].
  - destruct Hres as [W0 W1]. apply syscall_updates_steady in R as [Hst Hb]; [| apply H1 | done | done].
    by eapply stepped_steady.
  - injection R as <- <-. done.
Qed.

Lemma GetInstructionDetails_steady pc m insn opcode fun_ m' :
  state_ok (state m) -> is_word pc ->
  MTVM.on_io (io_mem (GetInstructionDetails pc)) m = Ok ((insn, opcode, fun_), m') ->
  steady (state m) (state m') /\ same_bytes (Mem (state m)) (Mem (state m')) /\ in_range 32 insn.
Proof.
  intros Hs Hpc R.
  apply (on_io_steady _ (fun r mem mem' => same_bytes mem mem' /\ in_range 32 r.1.1)) in R; [done | done |].
  intros i i' [Hw Hm] (mem & R' & ->)%zoom_ok. unfold GetInstructionDetails in R'.
  destruct (negb _); [done |]. destruct (aligned_word pc Hpc) as [Ha Hal].
  destruct (GetWord_run _ _ Hw Hm Ha Hal) as (m2 & RG & W & M & B).
  rewrite (ST_bind_run _ _ _ _ _ RG) in R'. injection R' as <- <- <- <-.
  split; [by split |]. split; [exact B | apply wrap_range; lia].
Qed.

End Syscalls.

Section Step.
Context {A : Arch} {K : Keccak} {PO : PreimageOracle} {MD : Metadata} {L : LRU}.
Implicit Types m : InstrumentedState L.

(** The state after the step counter went up. *)
Definition next_step (s : State) : State := set_Step (uadd 64 (MT.Step s) 1) s.

Lemma next_step_ok s : state_ok s -> state_ok (next_step s).
Proof. intros []. split; try done. apply wrap_range; lia. Qed.

Lemma set_StepsSince_ok s n : state_ok s -> 0 <= n <= SchedQuantum -> state_ok (set_StepsSince n s).
Proof. intros [] Hn. by split. Qed.

(** Executing an instruction of the current thread. *)
Definition exec_instruction (thread : ThreadState) : ST (InstrumentedState L) unit :=
  '(insn, opcode, fun_) ← MTVM.on_io (io_mem (GetInstructionDetails (PC (Cpu thread))));
  if (opcode =? 0) && (fun_ =? 0xC) then MTVM.handleSyscall
  else if (opcode =? OpLoadLinked) || (opcode =? OpStoreConditional) then MTVM.handleRMWOps insn opcode
  else if (opcode =? OpLoadLinked64) || (opcode =? OpStoreConditional64) then
    if IsMips32 then panic "invalid instruction" else MTVM.handleRMWOps insn opcode
  else
    '(memUpdated, effMemAddr) ← MTVM.on_core (ExecMipsCoreStepLogic insn opcode fun_);
    if (memUpdated : bool) then MTVM.handleMemoryUpdate effMemAddr else mret ().

Lemma exec_instruction_stepped t m u m' :
  state_ok (state m) -> top (active (state m)) = Some t -> running t ->
  exec_instruction t m = Ok (u, m') -> stepped (state m) (state m').
Proof.
  intros Hs Ht Hr R. unfold exec_instruction in R.
  apply ST_bind_ok in R as ([[insn opcode] fun_] & m1 & R1 & R).
  apply GetInstructionDetails_steady in R1 as (Hst & Hb & Hi); [| done | by apply (current_wf _ t Hs Ht)].
  eapply steady_then_stepped; [exact Hst | exact Hb | done |]. pose proof (sy_ok _ _ Hst) as Hs1.
  destruct (sy_current _ _ Hst t Ht) as (t1 & Ht1 & _ & He).
  destruct (_ && (fun_ =? 12)).
  { eapply handleSyscall_stepped; [done | exact Ht1 | unfold running in *; congruence | exact R]. }
  destruct ((opcode =? OpLoadLinked) || (opcode =? OpStoreConditional)) eqn:E1.
  { eapply handleRMWOps_stepped; [exact Hs1 | exact Hi | | exact R]. by intros [-> | ->]. }
  destruct ((opcode =? OpLoadLinked64) || (opcode =? OpStoreConditional64)).
  { destruct IsMips32 eqn:E32; [done |].
    eapply handleRMWOps_stepped; [exact Hs1 | exact Hi | by intros _ | exact R]. }
  eapply core_step_stepped; [exact Hs1 | exact Hi | exact R].
Qed.

(** A step of a VM that has not exited counts up and preserves the invariant. *)
Lemma doMipsStep_stepped m u m' :
  state_ok (state m) -> Exited (state m) = false -> MTVM.doMipsStep m = Ok (u, m') ->
  stepped (next_step (state m)) (state m').
Proof.
  intros Hs Hne R. unfold MTVM.doMipsStep in R.
  apply ST_bind_ok in R as (m0 & m1 & Rg & R). injection Rg as <- <-. rewrite Hne in R.
  apply ST_bind_ok in R as ([] & m1 & Rg & R). injection Rg as <-. fold (next_step (state m)) in R.
  pose proof (next_step_ok _ Hs) as Hs1.
  apply ST_bind_ok in R as (t & m1 & Rg & R). apply current_inv in Rg as [Ht ->].
  cbn [state MTVM.set_state] in Ht. destruct (ThreadExited t) eqn:Hex.
  { apply ST_bind_ok in R as ([] & m1 & R1 & R). drop_stats.
    eapply popThread_stepped in R1; [exact R1 | done | exact Ht | done | done]. }
  destruct (Z.leb_spec SchedQuantum (StepsSinceLastContextSwitch (state m))).
  { apply ST_bind_ok in R as (b & m1 & R1 & R). drop_stats.
    eapply preemptThread_stepped in R1; [exact R1 | done | exact Ht | done]. }
  apply ST_bind_ok in R as ([] & m1 & Rg & R). injection Rg as <-.
  fold (exec_instruction t) in R.
  apply (exec_instruction_stepped t) in R; [| | exact Ht | done].
  - destruct R as [Ok' Hi Hst Hll Hn Hr]. split; done.
  - cbn [state MTVM.set_state]. apply set_StepsSince_ok; [done |].
    change (StepsSinceLastContextSwitch (next_step (state m))) with (StepsSinceLastContextSwitch (state m)).
    pose proof (so_since _ Hs). unfold uadd. rewrite wrap_small; [lia |].
    unfold SchedQuantum in *. split; [lia |]. change (2 ^ 64) with 18446744073709551616. lia.
Qed.

(** The post-state check passes. *)
Lemma mipsStep_check m u m' :
  state_ok (state m') -> MTVM.doMipsStep m = Ok (u, m') -> MTVM.mipsStep m = Ok ((), m').
Proof.
  intros Hs R. unfold MTVM.mipsStep. rewrite (ST_bind_run _ _ _ _ _ R).
  unfold MTVM.assertPostStateChecks. rewrite (ST_bind_run get _ m' m' m' eq_refl).
  pose proof (so_active _ Hs) as Ha. change (getActiveThreadStack (state m')) with (active (state m')).
  by destruct (active (state m')).
Qed.

(** An exited VM stays as it is. *)
Lemma doMipsStep_exited m : Exited (state m) = true -> MTVM.doMipsStep m = Ok ((), m).
Proof.
  intros He. unfold MTVM.doMipsStep. rewrite (ST_bind_run get _ m m m eq_refl). by rewrite He.
Qed.

Lemma mipsStep_inv m u m' : MTVM.mipsStep m = Ok (u, m') -> MTVM.doMipsStep m = Ok ((), m').
Proof.
  unfold MTVM.mipsStep, MTVM.assertPostStateChecks. intros R. apply ST_bind_ok in R as ([] & m1 & R1 & R).
  apply ST_bind_ok in R as (m2 & m3 & Rg & R). injection Rg as <- <-. destruct (_ =? 0); [done |].
  injection R as _ <-. done.
Qed.

End Step.

(** Witnesses of the multithreaded VM: the layout and size of the encoded
    state, the status byte of its hash, the commitment to the two thread
    stacks, and steps that record a proof. *)

Import MT.

Lemma AppendBool_app l b : AppendBoolToWitness l b = l ++ [if b then 1 else 0].
Proof. by destruct b. Qed.

(** The encoded state, field by field. *)
Definition witness_fields {A : Arch} {K : Keccak} (memRoot : hash) (s : State) : list (list Z) :=
  [ memRoot; PreimageKey s; ByteOrder_PutWord (PreimageOffset s); ByteOrder_PutWord (Heap s);
    [LLReservationStatus s]; ByteOrder_PutWord (LLAddress s); ByteOrder_PutWord (LLOwnerThread s);
    [ExitCode s]; [if Exited s then 1 else 0]; be_encode 8 (MT.Step s);
    be_encode 8 (StepsSinceLastContextSwitch s); [if TraverseRight s then 1 else 0];
    getLeftThreadStackRoot s; getRightThreadStackRoot s; ByteOrder_PutWord (NextThreadId s) ].

(** The lengths of the fields. *)
Definition field_lengths {A : Arch} : list nat :=
  let w := Z.to_nat WordSizeBytes in [32; 32; w; w; 1; w; w; 1; 1; 8; 8; 1; 32; 32; w]%nat.

(** They add up to the offsets of state.go. *)
Lemma field_offsets {A : Arch} :
  Z.of_nat (sum_list field_lengths) = STATE_WITNESS_SIZE /\
  Z.to_nat EXITCODE_WITNESS_OFFSET = sum_list (take 7 field_lengths) /\
  Z.to_nat EXITED_WITNESS_OFFSET = sum_list (take 8 field_lengths).
Proof. destruct A; done. Qed.

(** Where a field of a concatenation starts. *)
Lemma concat_lookup (ls : list (list Z)) i l x :
  ls !! i = Some l -> l !! 0%nat = Some x -> concat ls !! length (concat (take i ls)) = Some x.
Proof.
  intros Hi Hx. assert (concat ls = concat (take i ls) ++ l ++ concat (drop (S i) ls)) as ->.
  { transitivity (concat (take i ls ++ l :: drop (S i) ls)); [by rewrite take_drop_middle | by rewrite concat_app]. }
  rewrite lookup_app_r by lia. rewrite Nat.sub_diag. by destruct l.
Qed.

Section Witness.
Context {A : Arch} {K : Keccak}.

Lemma encode_state_fields r s : encode_state r s = concat (witness_fields r s).
Proof.
  unfold encode_state, witness_fields, ByteOrder_AppendWord. rewrite !AppendBool_app. cbn [concat].
  rewrite app_nil_r. by rewrite <- !app_assoc.
Qed.

Context {KL : KeccakLaws K}.

Lemma length_stack_root l : length (calculateThreadStackRoot l) = 32%nat.
Proof.
  unfold calculateThreadStackRoot. destruct l as [| t l] using rev_ind; [done |].
  rewrite fold_left_app. apply keccak_length.
Qed.

Lemma witness_field_lengths r s :
  length r = 32%nat -> length (PreimageKey s) = 32%nat -> length <$> witness_fields r s = field_lengths.
Proof.
  intros Hr Hk. cbn [witness_fields fmap list_fmap]. unfold getLeftThreadStackRoot, getRightThreadStackRoot.
  rewrite Hr, Hk, !length_stack_root. unfold ByteOrder_PutWord. by rewrite !length_be_encode.
Qed.

Lemma length_concat_fmap (ls : list (list Z)) : length (concat ls) = sum_list (length <$> ls).
Proof. induction ls as [|l ls IH]; cbn; [done |]. by rewrite length_app, IH. Qed.

Lemma encode_state_size r s :
  length r = 32%nat -> length (PreimageKey s) = 32%nat -> zlen (encode_state r s) = STATE_WITNESS_SIZE.
Proof.
  intros Hr Hk. rewrite encode_state_fields. unfold zlen.
  rewrite length_concat_fmap, witness_field_lengths by done. apply field_offsets.
Qed.

Lemma encode_state_field r s i l x :
  length r = 32%nat -> length (PreimageKey s) = 32%nat -> witness_fields r s !! i = Some l -> l !! 0%nat = Some x ->
  encode_state r s !! sum_list (take i field_lengths) = Some x.
Proof.
  intros Hr Hk Hi Hx. rewrite encode_state_fields.
  replace (sum_list (take i field_lengths)) with (length (concat (take i (witness_fields r s)))).
  - by eapply concat_lookup.
  - by rewrite length_concat_fmap, fmap_take, witness_field_lengths.
Qed.

(** The status byte is that of the state. *)
Lemma encode_state_status r s :
  length r = 32%nat -> length (PreimageKey s) = 32%nat ->
  stateHashFromWitness (encode_state r s) =
    Ok (<[0%nat := VMStatus s]> (keccak256 (encode_state r s))).
Proof.
  intros Hr Hk. unfold stateHashFromWitness. rewrite encode_state_size, Z.eqb_refl by done. cbn [negb].
  destruct field_offsets as (_ & -> & ->).
  assert (encode_state r s !! sum_list (take 7 field_lengths) = Some (ExitCode s)) as ->.
  { by eapply encode_state_field. }
  assert (encode_state r s !! sum_list (take 8 field_lengths) = Some (if Exited s then 1 else 0)) as ->.
  { by eapply encode_state_field. }
  cbn [default]. unfold VMStatus. by destruct (Exited s).
Qed.

Lemma MerkleRoot_run m :
  mem_wf m -> merkle_ok m ->
  exists m', MerkleRoot m = Ok (mem_node m 1, m') /\ mem_wf m' /\ merkle_ok m' /\ same_bytes m m'.
Proof.
  intros Hw Hm. destruct (MerkleizeSubtree_spec 1 m Hw Hm) as (h & m' & R & -> & C & W & M & _);
    [lia | by destruct A |].
  exists m'. split; [exact R | split; [done | split; [done |]]]. intros b. by apply more_cached_byte.
Qed.

Lemma length_mem_node m g : length (mem_node m g) = 32%nat.
Proof. apply length_subtree. Qed.

(** [EncodeWitness] never fails and changes only the caches of the memory. *)
Lemma EncodeWitness_run s :
  state_ok s ->
  exists mem', let out := encode_state (mem_node (Mem s) 1) s in
    EncodeWitness s = Ok ((out, <[0%nat := VMStatus s]> (keccak256 out)), set_Mem mem' s) /\
    mem_wf mem' /\ merkle_ok mem' /\ same_bytes (Mem s) mem'.
Proof.
  intros Hs. destruct (MerkleRoot_run (Mem s) (so_mem _ Hs) (so_merkle _ Hs)) as (m' & R & W & M & B).
  exists m'. cbn zeta. split; [| done]. unfold EncodeWitness.
  rewrite (ST_bind_run _ _ _ _ _ (zoom_run Mem set_Mem _ _ _ _ R)).
  rewrite (ST_bind_run get _ _ _ _ eq_refl). cbv zeta.
  change (encode_state (mem_node (Mem s) 1) (set_Mem m' s)) with (encode_state (mem_node (Mem s) 1) s).
  unfold lift. rewrite encode_state_status; [done | apply length_mem_node | apply Hs].
Qed.

End Witness.

(** ** [Step] *)

Section Step.
Context {A : Arch} {K : Keccak} {KL : KeccakLaws K} {PO : PreimageOracle} {MD : Metadata} {L : LRU}.
Implicit Types m : InstrumentedState L.

(** Only the caches of the memory differ. *)
Definition recached (s s' : State) : Prop :=
  exists mem', s' = set_Mem mem' s /\ mem_wf mem' /\ merkle_ok mem' /\ same_bytes (Mem s) mem'.

Lemma recached_refl s : state_ok s -> recached s s.
Proof. intros Hs. exists (Mem s). split; [by destruct s |]. split; [apply Hs |]. split; [apply Hs | done]. Qed.

Lemma recached_steady s s' : state_ok s -> recached s s' -> steady s s' /\ same_bytes (Mem s) (Mem s').
Proof. intros Hs (mem' & -> & W & M & B). split; [by apply set_Mem_steady | done]. Qed.

(** Recording the pre-state never fails and changes only caches. *)
Lemma pre_witness_run m :
  state_ok (state m) ->
  exists w m', MTVM.pre_witness m = Ok (w, m') /\ recached (state m) (state m').
Proof.
  intros Hs. destruct (top_is_Some (active (state m)) (so_active _ Hs)) as [t Ht].
  unfold MTVM.pre_witness. rewrite (ST_bind_run get _ m m m eq_refl).
  assert (exists p, EncodeThreadProof (state m) = Ok p) as [p Hp].
  { unfold EncodeThreadProof. change (getActiveThreadStack (state m)) with (active (state m)). rewrite Ht. eauto. }
  assert (GetPC (state m) = Ok (PC (Cpu t))) as Hpc.
  { unfold GetPC. by rewrite (proj2 (GetCurrentThread_top (state m) t) Ht). }
  erewrite ST_bind_run; [| unfold lift; by rewrite Hp].
  erewrite ST_bind_run; [| unfold lift; by rewrite Hpc].
  destruct (current_wf _ t Hs Ht) as [_ _ [Hw _ _ _] _].
  destruct (MerkleProof_run (PC (Cpu t)) (Mem (state m)) (so_mem _ Hs) (so_merkle _ Hs) Hw)
    as (proof & mem1 & R1 & W1 & M1 & B1).
  erewrite ST_bind_run; [| apply zoom_run, zoom_run; exact R1]. cbn.
  set (s1 := set_Mem mem1 (state m)).
  assert (state_ok s1) as Hs1 by (by apply set_Mem_ok).
  destruct (EncodeWitness_run s1 Hs1) as (mem2 & R2 & W2 & M2 & B2).
  erewrite ST_bind_run; [| apply zoom_run; cbn; exact R2].
  do 2 eexists. split; [done |]. cbn [state MTVM.set_state].
  exists mem2. split; [done |]. split; [done |]. split; [done | by eapply same_bytes_trans].
Qed.

Lemma steady_next_step s s' : steady s s' -> steady (next_step s) (next_step s').
Proof.
  intros [O I N S E Ll C]. split; try done.
  - by apply next_step_ok.
  - cbn. by rewrite S.
Qed.

(** A call of [Step] is, up to the caches of the memory, a step of the VM. *)
Lemma Step_inv proof m w m' :
  state_ok (state m) -> MTVM.Step proof m = Ok (w, m') ->
  exists m1, MTVM.doMipsStep m1 = Ok ((), m') /\ recached (state m) (state m1).
Proof.
  intros Hs R. unfold MTVM.Step in R.
  apply ST_bind_ok in R as (u & m0 & R0 & R). injection R0 as _ <-.
  apply ST_bind_ok in R as (wit & m1 & R1 & R). apply ST_bind_ok in R as ([] & m2 & R2 & R).
  apply mipsStep_inv in R2.
  assert (m' = m2) as ->.
  { destruct wit as [[[ew h] pd] |]; [| by injection R as _ <-].
    apply ST_bind_ok in R as (m3 & m4 & Rg & R). injection Rg as <- <-.
    destruct (negb _); by injection R as _ <-. }
  exists m1. split; [done |]. destruct proof.
  - apply ST_bind_ok in R1 as (w1 & m3 & R1 & Rw). injection Rw as _ <-.
    set (m0 := mkVM _ _ _ _ _ _ _ _) in R1.
    destruct (pre_witness_run m0 Hs) as (w2 & m4 & R4 & Hst).
    rewrite R4 in R1. by injection R1 as _ <-.
  - injection R1 as _ <-. by apply recached_refl.
Qed.

Lemma Step_stepped proof m w m' :
  state_ok (state m) -> MTVM.Step proof m = Ok (w, m') ->
  if Exited (state m) then steady (state m) (state m') /\ same_bytes (Mem (state m)) (Mem (state m'))
  else stepped (next_step (state m)) (state m').
Proof.
  intros Hs R. destruct (Step_inv proof m w m' Hs R) as (m1 & R1 & Hrc).
  destruct (recached_steady _ _ Hs Hrc) as [Hst Hb]. destruct (Exited (state m)) eqn:He.
  - rewrite doMipsStep_exited in R1 by (rewrite (sy_exited _ _ Hst); done). by injection R1 as <-.
  - apply doMipsStep_stepped in R1; [| apply Hst | by rewrite (sy_exited _ _ Hst)].
    eapply steady_then_stepped; [by apply steady_next_step | done | by apply next_step_ok | done].
Qed.

(** *** Runs *)

Inductive steps : nat -> InstrumentedState L -> InstrumentedState L -> Prop :=
| steps_refl m : steps 0 m m
| steps_step n m1 m2 m3 proof w :
    steps n m1 m2 -> MTVM.Step proof m2 = Ok (w, m3) -> steps (S n) m1 m3.

Lemma steps_ok n m m' : steps n m m' -> state_ok (state m) -> state_ok (state m').
Proof.
  induction 1 as [| n m1 m2 m3 proof w H IH R]; [done |]. intros Hs.
  pose proof (Step_stepped proof m2 w m3 (IH Hs) R) as H2.
  destruct (Exited (state m2)); apply H2.
Qed.

(** Thread ids stay unique while the counter does not wrap. *)
Lemma steps_ids n m m' :
  steps n m m' -> state_ok (state m) -> ids_ok (state m) ->
  NextThreadId (state m) + Z.of_nat n <= maxWord ->
  ids_ok (state m') /\ NextThreadId (state m') <= NextThreadId (state m) + Z.of_nat n.
Proof.
  induction 1 as [| n m1 m2 m3 proof w H IH R]; [intros; split; [done | lia] |]. intros Hs Hi Hn.
  destruct IH as [Hi2 Hn2]; [done | done | lia |].
  pose proof (steps_ok n _ _ H Hs) as Hs2.
  pose proof (Step_stepped proof m2 w m3 Hs2 R) as H3.
  destruct (Exited (state m2)).
  - destruct H3 as [H3 _]. split; [by eapply sy_ids |]. rewrite (sy_next _ _ H3). lia.
  - assert (NextThreadId (state m2) < maxWord) as Hlt by lia.
    split; [by apply H3 |]. destruct (sd_next _ _ H3) as [-> | ->]; cbn; [lia |].
    rewrite wsucc; [lia | apply Hs2 | done].
Qed.

End Step.
