(* ===== verification/Sched.v ===== *)
(** Scheduling and atomicity of the multithreaded VM: forced preemption, the
    fairness of the two-stack rotation, and load-linked / store-conditional. *)
From Stdlib Require Import ZArith Lia.
From stdpp Require Import base gmap list strings numbers.
From S2P Require Import Prelude Arch Codec Insn Memory Exec Threads Multithreaded MerkleSpec.
From S2P Require Import MemoryProps MerkleProps MemoryRange InsnProps ExecProps SyscallProps SyscallSpec MTProps MTStep.

Import MT.

(** ** The rotation of the two stacks *)

Definition rot {X} (a i : list X) : list X * list X :=
  match top a with
  | None => (a, i)
  | Some t => if decide (pop a = []) then (i ++ [t], []) else (pop a, i ++ [t])
  end.

Fixpoint rot_n {X} (n : nat) (a i : list X) : list X * list X :=
  match n with
  | O => (a, i)
  | S n => let '(a, i) := rot a i in rot_n n a i
  end.

Section Rotation.
Context {X : Type}.
Implicit Types a i : list X.

Lemma rot_n_add n k a i : rot_n (n + k) a i = let '(a', i') := rot_n n a i in rot_n k a' i'.
Proof.
  revert a i. induction n as [|n IH]; intros a i; cbn [rot_n Nat.add]; [done |].
  destruct (rot a i) as [a' i']. apply IH.
Qed.

(** Before the active stack is empty, its top threads move over one by one. *)
Lemma rot_n_app n a b i : a <> [] -> length b = n -> rot_n n (a ++ b) i = (a, i ++ rev b).
Proof.
  revert b i. induction n as [|n IH]; intros b i Ha Hn.
  - destruct b; [| done]. cbn. by rewrite !app_nil_r.
  - destruct b as [| x b _] using rev_ind; [done |]. rewrite length_app in Hn. cbn in Hn.
    cbn [rot_n]. unfold rot. rewrite app_assoc, top_snoc, pop_snoc.
    rewrite decide_False by (destruct a; done). rewrite IH by (done || lia).
    by rewrite rev_app_distr, <- app_assoc.
Qed.

(** Then the roles of the stacks are swapped. *)
Lemma rot_n_all a i : a <> [] -> rot_n (length a) a i = (i ++ rev a, []).
Proof.
  destruct a as [| x a] ; [done |]. intros _. cbn [length].
  rewrite <- Nat.add_1_r, rot_n_add. change (x :: a) with ([x] ++ a).
  rewrite rot_n_app by done. cbn [rot_n]. unfold rot. change [x] with ([] ++ [x]).
  rewrite top_snoc, pop_snoc, decide_True by done. rewrite rev_app_distr. by rewrite <- app_assoc.
Qed.

(** Every thread comes to the top within two sweeps. *)
Lemma rot_fair a i t :
  a <> [] -> t ∈ a ++ i ->
  exists n, (n < 2 * length (a ++ i))%nat /\ top (rot_n n a i).1 = Some t.
Proof.
  intros Ha Ht. set (l := i ++ rev a).
  assert (l ≡ₚ a ++ i) as Hp by (unfold l; rewrite <- Permutation_rev; apply Permutation_app_comm).
  assert (t ∈ l) as Hin by (by rewrite Hp).
  apply list_elem_of_split in Hin as (l1 & l2 & El).
  assert (length l = length (a ++ i)) as Hlen by (by rewrite Hp).
  exists (length a + length l2)%nat. split.
  - assert (length a <= length (a ++ i))%nat by (rewrite length_app; lia).
    rewrite El, length_app in Hlen. cbn in Hlen. lia.
  - rewrite rot_n_add, rot_n_all by done. fold l. rewrite El.
    change (t :: l2) with ([t] ++ l2). rewrite app_assoc.
    rewrite rot_n_app by (done || by destruct l1). cbn [fst]. apply top_snoc.
Qed.

End Rotation.

(** ** Preemption *)

Section Preempt.
Context {A : Arch} {K : Keccak} {PO : PreimageOracle} {MD : Metadata} {L : LRU}.
Implicit Types m : InstrumentedState L.

Lemma rotated_rot s s' : rotated s s' <-> active s <> [] /\ (active s', inactive s') = rot (active s) (inactive s).
Proof.
  unfold rotated, rot. split.
  - intros (t & Ht & H). rewrite Ht. split; [by intros E; rewrite E in Ht |].
    case_decide; destruct H as [-> ->]; done.
  - intros [Ha E]. destruct (top_is_Some _ Ha) as [t Ht]. rewrite Ht in E. exists t. split; [done |].
    case_decide; injection E as -> ->; done.
Qed.

(** The running thread gives way, [n] times. *)
Fixpoint preempt_n (n : nat) : ST (InstrumentedState L) unit :=
  match n with
  | O => mret ()
  | S n => t ← MTVM.current; MTVM.preemptThread t ;; preempt_n n
  end.

(** Moving the current thread over, and turning around at the end. *)
Definition moved (t : ThreadState) (s : State) : State :=
  if TraverseRight s then set_Stacks (LeftThreadStack s ++ [t]) (pop (RightThreadStack s)) s
  else set_Stacks (pop (LeftThreadStack s)) (RightThreadStack s ++ [t]) s.
Definition turned (s : State) : State :=
  if zlen (getActiveThreadStack s) =? 0 then set_TraverseRight (negb (TraverseRight s)) s else s.

Lemma turned_nonempty t s : active (set_StepsSince 0 (turned (moved t s))) <> [].
Proof.
  unfold turned, moved, active, getActiveThreadStack.
  destruct s as [? ? ? ? ? ? ? ? ? ? ? [] l r ? ?]; cbn;
    (destruct (_ =? 0) eqn:E; cbn; [apply snoc_nonnil |]);
    intros Hp; rewrite Hp in E; done.
Qed.

(** [preemptThread] succeeds on any state with a current thread. *)
Lemma preemptThread_run t m :
  top (active (state m)) = Some t -> exists b m', MTVM.preemptThread t m = Ok (b, m').
Proof.
  intros Ht. unfold MTVM.preemptThread, MTVM.upd. rewrite (ST_bind_run get _ m m m eq_refl).
  assert (active (state m) <> []) as Ha by (by intros E; rewrite E in Ht).
  set (s1 := moved t (state m)).
  erewrite (ST_bind_run _ _ _ tt (MTVM.set_state s1 m)).
  2: { unfold s1, moved, active, getActiveThreadStack in *. destruct (TraverseRight (state m));
         (destruct (_ =? 0) eqn:E; [apply Z.eqb_eq, zlen_0 in E; done | done]). }
  rewrite (ST_bind_run get _ _ _ _ eq_refl). cbn [state MTVM.set_state].
  erewrite (ST_bind_run _ _ _ tt (MTVM.set_state (turned s1) m)); [| unfold turned; by destruct (_ =? 0)].
  erewrite ST_bind_run; [| done].
  destruct (top_is_Some _ (turned_nonempty t (state m))) as [t2 Ht2%GetCurrentThread_top].
  fold s1 in Ht2. erewrite ST_bind_run.
  2: { unfold MTVM.current. erewrite ST_bind_run; [| done]. unfold lift. cbn [state MTVM.set_state]. by rewrite Ht2. }
  eauto.
Qed.

(** [n] preemptions rotate the stacks [n] times. *)
Lemma preempt_n_run n m :
  active (state m) <> [] ->
  exists m', preempt_n n m = Ok ((), m') /\ same_scalars (state m) (state m') /\
    (active (state m'), inactive (state m')) = rot_n n (active (state m)) (inactive (state m)).
Proof.
  revert m. induction n as [|n IH]; intros m Ha.
  - exists m. split; [done |]. split; [| done]. unfold same_scalars. by destruct (state m).
  - destruct (top_is_Some _ Ha) as [t Ht]. destruct (preemptThread_run t m Ht) as (b & m1 & R).
    destruct (preemptThread_inv t m b m1 Ht R) as (Hsc & Hrot & _).
    destruct (rotated_perm _ _ Hrot) as [_ Ha1]. destruct (IH m1 Ha1) as (m' & R' & Hsc' & E').
    exists m'. cbn [preempt_n rot_n]. apply rotated_rot in Hrot as [_ Erot]. rewrite <- Erot. split; [| split].
    + erewrite ST_bind_run.
      2: { unfold MTVM.current. erewrite ST_bind_run; [| done]. unfold lift.
           by rewrite (proj2 (GetCurrentThread_top _ t) Ht). }
      by rewrite (ST_bind_run _ _ _ _ _ R).
    + rewrite Hsc', Hsc. unfold same_scalars. done.
    + done.
Qed.

(** At the end of its quantum a thread is preempted, and nothing else happens
    but the step count. *)
Lemma doMipsStep_quantum m u m' t :
  Exited (state m) = false -> top (active (state m)) = Some t -> running t ->
  SchedQuantum <= StepsSinceLastContextSwitch (state m) -> MTVM.doMipsStep m = Ok (u, m') ->
  same_scalars (next_step (state m)) (state m') /\ rotated (state m) (state m') /\
  StepsSinceLastContextSwitch (state m') = 0.
Proof.
  intros Hne Ht Hr Hq R. unfold MTVM.doMipsStep in R.
  apply ST_bind_ok in R as (m0 & m1 & Rg & R). injection Rg as <- <-. rewrite Hne in R.
  apply ST_bind_ok in R as ([] & m1 & Rg & R). injection Rg as <-. fold (next_step (state m)) in R.
  apply ST_bind_ok in R as (t1 & m1 & Rg & R). apply current_inv in Rg as [Ht1 ->].
  change (top (active (state m)) = Some t1) in Ht1. assert (t1 = t) as -> by congruence.
  rewrite Hr in R. apply Z.leb_le in Hq. rewrite Hq in R.
  apply ST_bind_ok in R as (b & m1 & R1 & R). drop_stats.
  exact (preemptThread_inv t (MTVM.set_state (next_step (state m)) m) b m1 Ht1 R1).
Qed.

End Preempt.

(** ** Load-linked / store-conditional *)

Section LLSC.
Context {A : Arch} {K : Keccak} {PO : PreimageOracle} {MD : Metadata} {L : LRU}.
Implicit Types m : InstrumentedState L.

(** The operands of an instruction of [handleRMWOps]. *)
Definition rmw_addr (t : ThreadState) (insn : Z) : Z :=
  wadd (reg (Registers t) (ushr insn 21 .& 0x1F)) (SignExtendImmediate insn).
Definition rmw_reg (insn : Z) : Z := ushr insn 16 .& 0x1F.
Definition rmw_64 (opcode : Z) : bool := (opcode =? OpLoadLinked64) || (opcode =? OpStoreConditional64).
Definition rmw_status (opcode : Z) : Z := if rmw_64 opcode then LLStatusActive64bit else LLStatusActive32bit.
Definition rmw_len (opcode : Z) : Z := if rmw_64 opcode then 8 else 4.

(** The registers after a result [v] was written to register [r]. *)
Definition with_result (r v : Z) (regs : list Z) : list Z := if r =? 0 then regs else set_reg r v regs.

Lemma HandleRd_value r v m u m' t :
  top (active (state m)) = Some t -> MTVM.on_core (HandleRd r v true) m = Ok (u, m') ->
  exists t', top (active (state m')) = Some t' /\ ThreadId t' = ThreadId t /\
    Registers t' = with_result r v (Registers t) /\
    Mem (state m') = Mem (state m) /\ reservation (state m') = reservation (state m).
Proof.
  intros Ht R. destruct (on_core_inv _ m u m' R) as (t1 & c & Ht1 & Rc & Es).
  assert (t1 = t) as -> by congruence. rewrite Es. eexists. split; [apply set_current_top |]. split; [done |].
  unfold HandleRd in Rc. destruct (32 <=? r); [done |].
  assert (registers c = with_result r v (Registers t) /\ memory c = Mem (state m)) as [Er Em].
  { unfold with_result. destruct (r =? 0); cbn [negb andb] in Rc;
      unfold write_reg, advance, write_pcs in Rc; st_inv; done. }
  split; [exact Er |]. rewrite Mem_set_current. split; [exact Em |].
  unfold reservation, set_current, set_active. by destruct (TraverseRight _).
Qed.

(** The store of a successful store-conditional. *)
Lemma reserved_store_value addr n val (f : statsTrackerImpl L -> statsTrackerImpl L) m v m' t :
  state_ok (state m) -> top (active (state m)) = Some t -> is_word addr -> sub_size n ->
  (MTVM.clearLLMemoryReservation ;;
   MTVM.on_core (StoreSubWord addr n val) ;;
   MTVM.stats f ;;
   mret 1) m = Ok (v, m') ->
  v = 1 /\ LLReservationStatus (state m') = LLStatusNone /\
  (exists t', top (active (state m')) = Some t' /\ ThreadId t' = ThreadId t /\ Registers t' = Registers t) /\
  forall b, mem_byte (Mem (state m')) b
    = write_bytes (mem_byte (Mem (state m))) (sub_addr addr n) (be_encode (Z.to_nat n) val) b.
Proof.
  intros Hs Ht Ha Hn R. unfold MTVM.clearLLMemoryReservation, MTVM.upd in R.
  apply ST_bind_ok in R as ([] & m1 & R1 & R). injection R1 as <-.
  apply ST_bind_ok in R as ([] & m2 & R1 & R).
  apply ST_bind_ok in R as ([] & m3 & R2 & R). injection R as <- <-. drop_stats.
  destruct (on_core_inv _ _ _ _ R1) as (t1 & c & Ht1 & Rc & Es).
  change (top (active (state m)) = Some t1) in Ht1. assert (t1 = t) as -> by congruence.
  apply StoreSubWord_value in Rc as (_ & Er & _ & Hb); [| | done | done].
  2: { apply (current_core_wf (MTVM.set_state (set_LL LLStatusNone 0 0 (state m)) m)); [by apply clear_LL_ok | done]. }
  split; [done |]. rewrite Es. split; [unfold set_current, set_active; by destruct (TraverseRight _) |]. split.
  - eexists. split; [apply set_current_top |]. split; [done | exact Er].
  - rewrite Mem_set_current. exact Hb.
Qed.

(** A store-conditional writes its operand and returns 1 if the running thread
    holds a matching reservation, which it gives up; otherwise it returns 0 and
    changes neither the memory nor the reservation. *)
Lemma store_conditional_value insn opcode m u m' t :
  opcode = OpStoreConditional \/ (opcode = OpStoreConditional64 /\ IsMips32 = false) ->
  state_ok (state m) -> top (active (state m)) = Some t ->
  MTVM.handleRMWOps insn opcode m = Ok (u, m') ->
  let addr := rmw_addr t insn in
  let n := rmw_len opcode in
  let won := bool_decide (reservation (state m) = (rmw_status opcode, addr, ThreadId t)) in
  (exists t', top (active (state m')) = Some t' /\ ThreadId t' = ThreadId t /\
     Registers t' = with_result (rmw_reg insn) (if won then 1 else 0) (Registers t)) /\
  if won
  then LLReservationStatus (state m') = LLStatusNone /\
       forall b, mem_byte (Mem (state m')) b
         = write_bytes (mem_byte (Mem (state m))) (sub_addr addr n)
             (be_encode (Z.to_nat n) (reg (Registers t) (rmw_reg insn))) b
  else Mem (state m') = Mem (state m) /\ reservation (state m') = reservation (state m).
Proof.
  intros Hop Hs Ht R addr n won. unfold MTVM.handleRMWOps in R.
  apply ST_bind_ok in R as (t1 & m1 & R1 & R). apply current_inv in R1 as [Ht1 ->].
  assert (t1 = t) as -> by congruence. clear Ht1.
  change (wadd _ _) with addr in R. change (if (opcode =? OpLoadLinked64) || _ then 8 else 4) with n in R.
  change (if _ || _ then LLStatusActive64bit else LLStatusActive32bit) with (rmw_status opcode) in R.
  change (ushr insn 16 .& 0x1F) with (rmw_reg insn) in R.
  apply ST_bind_ok in R as (v & m1 & R1 & R).
  match type of R1 with switch _ ?l ?d m = _ => assert (switch opcode l d = default d (l !! 1%nat ≫= fun c => Some c.2)) as E end.
  { destruct Hop as [-> | [-> _]]; done. }
  rewrite E in R1. clear E. cbn [default lookup list_lookup mbind option_bind snd id] in R1.
  apply ST_bind_ok in R1 as (m0 & m2 & Rg & R1). injection Rg as <- <-.
  assert (sub_size n) as Hn.
  { destruct Hop as [E | [E H32]]; [| apply rmw_size; by rewrite H32]. unfold n, rmw_len, rmw_64. subst opcode.
    by right; right; left. }
  destruct ((LLReservationStatus (state m) =? _) && _ && _) eqn:Ec.
  - apply (reserved_store_value _ _ _ _ _ _ _ t) in R1 as (-> & Hll & (t1 & Ht1 & Hi1 & Hr1) & Hb);
      [| done | done | apply wadd_word | done].
    assert (won = true) as ->.
    { apply bool_decide_eq_true. unfold reservation. bool_lia. congruence. }
    destruct (HandleRd_value _ _ _ _ _ _ Ht1 R) as (t2 & Ht2 & Hi2 & Hr2 & Em & Er). split.
    + exists t2. split; [done |]. split; congruence.
    + rewrite Em. split; [| done]. unfold reservation in Er. congruence.
  - apply ST_bind_ok in R1 as ([] & m2 & R1 & Rv). injection Rv as <- <-. apply stats_state in R1.
    assert (won = false) as ->.
    { apply bool_decide_eq_false. unfold reservation. intros [= E1 E2 E3]. rewrite E1, E2, E3 in Ec.
      by rewrite !Z.eqb_refl in Ec. }
    rewrite <- R1 in Ht. destruct (HandleRd_value _ _ _ _ _ _ Ht R) as (t2 & Ht2 & Hi2 & Hr2 & Em & Er).
    rewrite R1 in Em, Er. split; [exists t2; done | done].
Qed.

Context {KL : KeccakLaws K}.

(** Steps during which the reservation is [r]. *)
Inductive holds (r : Z * Z * Z) : InstrumentedState L -> InstrumentedState L -> Prop :=
| holds_refl m : reservation (state m) = r -> holds r m m
| holds_step m1 m2 m3 proof w :
    holds r m1 m2 -> MTVM.Step proof m2 = Ok (w, m3) -> reservation (state m3) = r -> holds r m1 m3.

Lemma Step_ll proof m w m' :
  state_ok (state m) -> MTVM.Step proof m = Ok (w, m') -> state_ok (state m') /\ ll_ok (state m) (state m').
Proof.
  intros Hs R. pose proof (Step_stepped proof m w m' Hs R) as H. destruct (Exited (state m)).
  - destruct H as [H Hb]. split; [apply H | by apply ll_same_bytes].
  - split; [apply H | apply H].
Qed.

(** While a reservation is held, its word does not change. *)
Lemma holds_word r m m' :
  holds r m m' -> state_ok (state m) ->
  state_ok (state m') /\ reservation (state m') = r /\
  (r.1.1 <> LLStatusNone ->
   forall b, r.1.2 .& AddressMask <= b < r.1.2 .& AddressMask + WordSizeBytes ->
   mem_byte (Mem (state m')) b = mem_byte (Mem (state m)) b).
Proof.
  induction 1 as [m Hr | m1 m2 m3 proof w H IH R Hr]; intros Hs; [done |].
  destruct (IH Hs) as (Hs2 & Hr2 & Hb). destruct (Step_ll proof m2 w m3 Hs2 R) as [Hs3 Hll].
  split; [done |]. split; [done |]. intros Hn b Hbb. rewrite <- Hb by done.
  unfold reservation in Hr. subst r. cbn in *. by apply Hll.
Qed.

(** Only the running thread takes a reservation, for itself. *)
Lemma Step_reservation proof m w m' :
  state_ok (state m) -> MTVM.Step proof m = Ok (w, m') ->
  reservation (state m') = reservation (state m) \/ LLReservationStatus (state m') = LLStatusNone \/
  exists t, top (active (state m)) = Some t /\ LLOwnerThread (state m') = ThreadId t.
Proof.
  intros Hs R. pose proof (Step_stepped proof m w m' Hs R) as H. destruct (Exited (state m)).
  - left. destruct H as [H _]. by apply steady_reservation.
  - exact (sd_res _ _ H).
Qed.

(** ** The initial state *)

Lemma initial_ok pc heap s :
  is_word pc -> is_word heap -> CreateInitialState pc heap = Ok s -> state_ok s /\ ids_ok s.
Proof.
  intros Hpc Hh [= <-]. split.
  - split; cbn; try done; try apply word_0; try apply NewMemory_wf; try apply NewMemory_merkle.
    + split; [done |]. by apply (Forall_replicate _ 32).
    + split; [apply word_0 | split; [apply word_0 | done]].
    + apply wadd_word.
    + by constructor.
    + constructor; [| done]. split; cbn; [apply word_0 | done | |].
      * split; cbn; try done; try apply word_0. apply wadd_word.
      * split; [done | | done]. apply (Forall_replicate _ 32), word_0.
    + by intros t [= <-].
  - split; cbn.
    + constructor; [by apply not_elem_of_nil | constructor].
    + constructor; [| done]. by destruct A.
Qed.

End LLSC.
