(* ===== verification/Commit.v ===== *)
(** Round trips of the serialized states: threads, the states of the two VMs
    and the versioned state. *)
From Stdlib Require Import ZArith Lia.
From stdpp Require Import base gmap list strings numbers.
From S2P Require Import Prelude Arch Codec Insn Memory Exec Threads Multithreaded Singlethreaded.
From S2P Require Import Program MerkleSpec MemoryProps MerkleProps MemoryRange ExecProps SyscallProps MTProps MTStep.

(** ** Words and threads *)

Section Threads.
Context {A : Arch} {K : Keccak}.

Lemma word_decodes : decodes (ReadUInt WordSizeBytes) (WriteUInt WordSizeBytes) is_word.
Proof.
  intros v rest Hv. apply uint_decodes; [pose proof WordSizeBytes_pos; lia |].
  rewrite <- WordSizeBytes_eq. exact Hv.
Qed.

Lemma byte_decodes : decodes (ReadUInt 1) (WriteUInt 1) (in_range 8).
Proof. apply (uint_decodes 1). lia. Qed.

Lemma u64_decodes : decodes (ReadUInt 8) (WriteUInt 8) (in_range 64).
Proof. apply (uint_decodes 8). lia. Qed.

Lemma append_words l out : fold_left ByteOrder_AppendWord l out = out ++ concat (WriteUInt WordSizeBytes <$> l).
Proof.
  revert out. induction l as [|x l IH]; intros out; cbn [fold_left fmap list_fmap concat]; [by rewrite app_nil_r |].
  rewrite IH. unfold ByteOrder_AppendWord. by rewrite <- app_assoc.
Qed.

(** The serialized thread, field by field. *)
Lemma byte_encode v : in_range 8 v -> WriteUInt 1 v = [v].
Proof.
  intros Hv. unfold WriteUInt. change (be_encode (Z.to_nat 1) v) with [wrap 8 (ushr v 0)].
  unfold ushr. by rewrite Z.shiftr_0_r, wrap_small.
Qed.

Lemma serializeThread_fields t :
  in_range 8 (ThreadExitCode t) ->
  serializeThread t =
  WriteUInt WordSizeBytes (ThreadId t) ++ WriteUInt 1 (ThreadExitCode t) ++ WriteBool (ThreadExited t) ++
  WriteUInt WordSizeBytes (PC (Cpu t)) ++ WriteUInt WordSizeBytes (NextPC (Cpu t)) ++
  WriteUInt WordSizeBytes (LO (Cpu t)) ++ WriteUInt WordSizeBytes (HI (Cpu t)) ++
  concat (WriteUInt WordSizeBytes <$> Registers t).
Proof.
  intros He. unfold serializeThread. rewrite append_words. unfold AppendBoolToWitness, ByteOrder_AppendWord.
  rewrite (byte_encode (ThreadExitCode t)) by done. unfold WriteBool, WriteUInt.
  destruct (ThreadExited t); by rewrite <- !app_assoc.
Qed.

Lemma thread_decodes : decodes Thread_Deserialize Thread_Serialize thread_wf.
Proof.
  intros t rest [Hid Hex [Hpc Hnpc Hlo Hhi] [Hlen Hregs _]]. unfold Thread_Serialize.
  rewrite serializeThread_fields, <- !app_assoc by done. unfold Thread_Deserialize.
  eapply decodes_bind; [exact word_decodes | done |].
  eapply decodes_bind; [exact byte_decodes | done |].
  replace (WriteBool (ThreadExited t)) with (WriteUInt 1 (if ThreadExited t then 1 else 0))
    by (by destruct (ThreadExited t)).
  eapply decodes_bind; [exact byte_decodes | by destruct (ThreadExited t) |].
  eapply decodes_bind; [exact word_decodes | done |].
  eapply decodes_bind; [exact word_decodes | done |].
  eapply decodes_bind; [exact word_decodes | done |].
  eapply decodes_bind; [exact word_decodes | done |].
  rewrite <- Hlen. erewrite ST_bind_run; [| eapply list_decodes; [exact word_decodes | exact Hregs]].
  destruct t as [? ? [] [] ?]; done.
Qed.

#[export] Instance Thread_Serializable : Serializable ThreadState := {
  Serialize := Thread_Serialize;
  Deserialize := Thread_Deserialize;
  serializable := thread_wf;
  Deserialize_Serialize := thread_decodes;
}.

End Threads.

(** ** The states of the VMs *)

(** One field of a compound format. *)
Ltac field D := eapply decodes_bind; [exact D | done |].

Section States.
Context {A : Arch} {K : Keccak}.

Lemma threads_of s : Forall thread_wf (threads s) ->
  Forall thread_wf (MT.LeftThreadStack s) /\ Forall thread_wf (MT.RightThreadStack s).
Proof.
  unfold threads, active, inactive, MT.getActiveThreadStack. intros H. apply Forall_app in H as [H1 H2].
  by destruct (MT.TraverseRight s).
Qed.

(** A counted list of serializable things. *)
Lemma counted_decodes {X} `{Serializable X} {Y} (l : list X) (k : list X -> ST (list Z) Y) rest res :
  zlen l < 2 ^ WordSize -> Forall serializable l -> k l rest = res ->
  (n ← ReadUInt WordSizeBytes; x ← read_list (Z.to_nat n) Deserialize; k x)
    (WriteUInt WordSizeBytes (Word (zlen l)) ++ concat (Serialize <$> l) ++ rest) = res.
Proof.
  intros Hn Hl Hk. assert (is_word (zlen l)) as Hw by (split; [unfold zlen |]; lia).
  rewrite Word_id by done. eapply decodes_bind; [exact word_decodes | done |].
  unfold zlen. rewrite Nat2Z.id.
  rewrite (ST_bind_run _ _ _ _ _ (list_decodes _ _ _ l rest Deserialize_Serialize Hl)). exact Hk.
Qed.

Lemma MT_roundtrip s rest :
  state_ok s -> zlen (MT.LastHint s) < 2 ^ 32 -> MT.ThreadCount s < 2 ^ WordSize ->
  exists mem', MT.State_Deserialize (MT.State_Serialize s ++ rest) = Ok (MT.set_Mem mem' s, rest) /\
    same_pages (MT.Mem s) mem' /\ mem_wf mem' /\ merkle_ok mem'.
Proof.
  intros Hs Hh Hc. destruct (Memory_Deserialize_spec (MT.Mem s)
    (drop (length (Memory_Serialize (MT.Mem s))) (MT.State_Serialize s) ++ rest) (so_mem _ Hs)) as (mem' & R & HM).
  exists mem'. split; [| exact HM]. unfold MT.State_Serialize in *.
  rewrite drop_app_length in R. rewrite <- app_assoc.
  unfold MT.State_Deserialize. rewrite (ST_bind_run _ _ _ _ _ R). clear R HM.
  destruct Hs as [_ _ [Hk _] Ho Hheap (Hla & Hlo & Hls) He Hst Hsi Hn _ Ht _ _ _].
  apply threads_of in Ht as [HL HR].
  assert (in_range 64 (MT.StepsSinceLastContextSwitch s)) as Hsi'.
  { unfold in_range, SchedQuantum in *. change (2 ^ 64) with 18446744073709551616. lia. }
  unfold MT.ThreadCount, zlen in Hc. rewrite <- !app_assoc.
  field hash_decodes. field word_decodes. field word_decodes. field byte_decodes. field word_decodes.
  field word_decodes. field byte_decodes. eapply decodes_bind; [exact bool_decodes | done |].
  field u64_decodes. field u64_decodes. eapply decodes_bind; [exact bool_decodes | done |].
  field word_decodes.
  change Thread_Deserialize with (@Deserialize ThreadState _). change Thread_Serialize with (@Serialize ThreadState _).
  apply counted_decodes; [unfold zlen; lia | done |].
  apply counted_decodes; [unfold zlen; lia | done |].
  eapply decodes_bind; [exact bytes_decodes | done |]. by destruct s.
Qed.

(** The single-threaded state. *)
Record single_ok (s : Single.State) : Prop := {
  sg_mem : mem_wf (Single.Mem s);
  sg_merkle : merkle_ok (Single.Mem s);
  sg_key : key_ok (Single.PreimageKey s);
  sg_off : is_word (Single.PreimageOffset s);
  sg_cpu : cpu_wf (Single.SCpu s);
  sg_heap : is_word (Single.Heap s);
  sg_exit : in_range 8 (Single.ExitCode s);
  sg_step : in_range 64 (Single.Step s);
  sg_regs : reg_wf (Single.SRegisters s);
  sg_hint : bytes_ok (Single.LastHint s);
}.

Lemma Single_roundtrip s rest :
  single_ok s -> zlen (Single.LastHint s) < 2 ^ 32 ->
  exists mem', Single.State_Deserialize (Single.State_Serialize s ++ rest) = Ok (Single.set_Mem mem' s, rest) /\
    same_pages (Single.Mem s) mem' /\ mem_wf mem' /\ merkle_ok mem'.
Proof.
  intros Hs Hh. destruct (Memory_Deserialize_spec (Single.Mem s)
    (drop (length (Memory_Serialize (Single.Mem s))) (Single.State_Serialize s) ++ rest) (sg_mem _ Hs))
    as (mem' & R & HM).
  exists mem'. split; [| exact HM]. unfold Single.State_Serialize in *.
  rewrite drop_app_length in R. rewrite <- app_assoc.
  unfold Single.State_Deserialize. rewrite (ST_bind_run _ _ _ _ _ R). clear R HM.
  destruct Hs as [_ _ [Hk _] Ho [Hpc Hnpc Hlo Hhi] Hheap He Hst [Hlen Hregs _] _]. rewrite <- !app_assoc.
  field hash_decodes. do 6 field word_decodes. field byte_decodes.
  eapply decodes_bind; [exact bool_decodes | done |]. field u64_decodes.
  rewrite <- Hlen. erewrite ST_bind_run; [| eapply list_decodes; [exact word_decodes | exact Hregs]].
  eapply decodes_bind; [exact bytes_decodes | done |]. by destruct s as [? ? ? [] ? ? ? ? ? ?].
Qed.

(** *** Versions *)

Definition FPVM_ok (s : FPVMState) : Prop :=
  match s with
  | Singlethreaded_State s => single_ok s /\ zlen (Single.LastHint s) < 2 ^ 32
  | Multithreaded_State s => state_ok s /\ zlen (MT.LastHint s) < 2 ^ 32 /\ MT.ThreadCount s < 2 ^ WordSize
  end.

(** Equal up to the layout of the pages in memory. *)
Definition same_state (s s' : FPVMState) : Prop :=
  match s, s' with
  | Singlethreaded_State s, Singlethreaded_State s' =>
      same_pages (Single.Mem s) (Single.Mem s') /\ s' = Single.set_Mem (Single.Mem s') s
  | Multithreaded_State s, Multithreaded_State s' =>
      same_pages (MT.Mem s) (MT.Mem s') /\ s' = MT.set_Mem (MT.Mem s') s
  | _, _ => False
  end.

Lemma Versioned_roundtrip s v rest :
  FPVM_ok s -> NewFromState s = Ok v ->
  exists s', VersionedState_Deserialize (VersionedState_Serialize v ++ rest) = Ok (mkVersioned (Version v) s', rest) /\
    same_state s s'.
Proof.
  intros Hs Hv. unfold VersionedState_Serialize. rewrite <- app_assoc. unfold VersionedState_Deserialize.
  assert (in_range 8 (Version v) /\ VState v = s) as [Hr ->].
  { unfold NewFromState in Hv. destruct s, IsMips32; cbn in Hv; try done; by injection Hv as <-. }
  destruct s as [s | s]; unfold NewFromState in Hv; destruct IsMips32 eqn:E32; cbn [negb] in Hv; try done;
    injection Hv as <-; cbn [Version] in *.
  - destruct Hs as [H1 H2]. destruct (Single_roundtrip s rest H1 H2) as (mem' & R & HM & _).
    exists (Singlethreaded_State (Single.set_Mem mem' s)). split; [| done].
    eapply decodes_bind; [exact byte_decodes | done |].
    exact (ST_bind_run _ (fun st => mret (mkVersioned _ (Singlethreaded_State st))) _ _ _ R).
  - destruct Hs as (H1 & H2 & H3). destruct (MT_roundtrip s rest H1 H2 H3) as (mem' & R & HM & _).
    exists (Multithreaded_State (MT.set_Mem mem' s)). split; [| done].
    eapply decodes_bind; [exact byte_decodes | done |].
    exact (ST_bind_run _ (fun st => mret (mkVersioned _ (Multithreaded_State st))) _ _ _ R).
  - destruct Hs as (H1 & H2 & H3). destruct (MT_roundtrip s rest H1 H2 H3) as (mem' & R & HM & _).
    exists (Multithreaded_State (MT.set_Mem mem' s)). split; [| done].
    eapply decodes_bind; [exact byte_decodes | done |].
    exact (ST_bind_run _ (fun st => mret (mkVersioned _ (Multithreaded_State st))) _ _ _ R).
Qed.

End States.

(** What the witness commits to: unless the hash function has a collision, two
    states with the same witness are the same state up to the layout of their
    pages, the memory proof of a leaf fits only that leaf, and the thread
    witness fits only the current thread. *)

Import MT.

(** A break of the hash function on given inputs: a collision between an input
    in [P] and one in [Q], or one of them with the zero hash. The sets are those
    of the strings that are hashed on the two sides. *)
Definition broken {K : Keccak} (P Q : list Z -> Prop) : Prop :=
  (exists x y, P x /\ Q y /\ x <> y /\ keccak256 x = keccak256 y) \/
  (exists x, (P x \/ Q x) /\ keccak256 x = replicate 32 0).

Section Commit.
Context {A : Arch} {K : Keccak} {KL : KeccakLaws K}.

Lemma keccak_inj (P Q : list Z -> Prop) x y : P x -> Q y -> keccak256 x = keccak256 y -> x = y \/ broken P Q.
Proof. intros Hx Hy E. destruct (decide (x = y)); [by left | right; left; by exists x, y]. Qed.

Lemma broken_mono (P Q P' Q' : list Z -> Prop) :
  (forall x, P x -> P' x) -> (forall x, Q x -> Q' x) -> broken P Q -> broken P' Q'.
Proof.
  intros HP HQ [(x & y & Hx & Hy & H) | (x & Hx & H)].
  - left. exists x, y. split; [by apply HP |]. by split; [apply HQ |].
  - right. exists x. split; [destruct Hx as [Hx | Hx]; [left; by apply HP | right; by apply HQ] | done].
Qed.

Lemma app_inj_32 (a b c d : list Z) : length a = 32%nat -> length c = 32%nat -> a ++ b = c ++ d -> a = c /\ b = d.
Proof. intros Ha Hc E. apply app_inj_1 in E; [done | congruence]. Qed.

(** *** Memory *)

(** What is hashed in a subtree. *)
Fixpoint sub_inputs (f : Z -> Z) (H : Z) (h : nat) (g : Z) (x : list Z) : Prop :=
  match h with
  | O => False
  | S h => x = subtree f H h (2 * g) ++ subtree f H h (2 * g + 1) \/
           sub_inputs f H h (2 * g) x \/ sub_inputs f H h (2 * g + 1) x
  end.

Definition mem_inputs (m : Memory) : list Z -> Prop := sub_inputs (mem_byte m) tree_height (Z.to_nat tree_height) 1.

Lemma subtree_binding f f' h g H :
  subtree f H h g = subtree f' H h g -> broken (sub_inputs f H h g) (sub_inputs f' H h g) \/ forall a, covers H (Z.of_nat h) g a -> f a = f' a.
Proof.
  revert g. induction h as [|h IH]; intros g E; cbn [subtree] in E.
  - right. intros a Hc. unfold covers, leaf_of in Hc. rewrite Z.shiftr_0_r in Hc.
    unfold ushr in Hc. rewrite Z.shiftr_div_pow2 in Hc by lia. change (2 ^ 5) with 32 in Hc.
    pose proof (Z.div_mod a 32 ltac:(lia)). pose proof (Z.mod_pos_bound a 32 ltac:(lia)).
    assert (fbytes f (32 * (g - 2 ^ H)) 32 !! Z.to_nat (a mod 32) = Some (f a)) as E1
      by (rewrite lookup_fbytes by lia; do 2 f_equal; lia).
    assert (fbytes f' (32 * (g - 2 ^ H)) 32 !! Z.to_nat (a mod 32) = Some (f' a)) as E2
      by (rewrite lookup_fbytes by lia; do 2 f_equal; lia).
    congruence.
  - unfold HashPair in E. apply (keccak_inj (sub_inputs f H (S h) g) (sub_inputs f' H (S h) g)) in E as [E | E];
      [| by left | by left | by left].
    apply app_inj_32 in E as [E1 E2]; [| apply length_subtree ..].
    destruct (IH _ E1) as [B | H1]; [left; eapply broken_mono; [| | exact B]; cbn; auto |].
    destruct (IH _ E2) as [B | H2]; [left; eapply broken_mono; [| | exact B]; cbn; auto |]. right.
    intros a Hc. unfold covers in Hc. rewrite Nat2Z.inj_succ in Hc. unfold Z.succ in Hc.
    rewrite <- Z.shiftr_shiftr in Hc by lia. set (y := Z.shiftr (leaf_of H a) (Z.of_nat h)) in Hc.
    pose proof (Z.div2_odd y) as Ho. rewrite Z.div2_spec, Hc in Ho.
    destruct (Z.odd y); cbn [Z.b2z] in Ho; [apply H2 | apply H1]; unfold covers; fold y; lia.
Qed.

Lemma memory_binding m m' :
  mem_node m 1 = mem_node m' 1 -> broken (mem_inputs m) (mem_inputs m') \/ forall a, is_word a -> mem_byte m a = mem_byte m' a.
Proof.
  intros E. unfold mem_node in E. cbn [Z.log2] in E. rewrite Z.sub_0_r in E. apply subtree_binding in E as [B | E]; [by left | right].
  intros a Ha. apply E. unfold covers. rewrite Z2Nat.id by (unfold tree_height; destruct WordSize_cases; lia).
  pose proof (leaf_of_range a Ha) as Hr. rewrite Z.shiftr_div_pow2 by (unfold tree_height; destruct WordSize_cases; lia).
  symmetry. apply (Z.div_unique _ _ _ (leaf_of tree_height a - 2 ^ tree_height)); lia.
Qed.

(** *** Thread stacks *)

Lemma thread_binding t t' :
  thread_wf t -> thread_wf t' -> serializeThread t = serializeThread t' -> t = t'.
Proof.
  intros H H' E. pose proof (thread_decodes t [] H) as D. pose proof (thread_decodes t' [] H') as D'.
  unfold Thread_Serialize in *. rewrite E, D' in D. by injection D.
Qed.

Lemma stack_root_snoc l t :
  calculateThreadStackRoot (l ++ [t]) =
  keccak256 (calculateThreadStackRoot l ++ keccak256 (serializeThread t)).
Proof. unfold calculateThreadStackRoot. by rewrite fold_left_app. Qed.

(** The documented value of the empty root: keccak256(bytes32(0) ++ bytes32(0)). *)
Context (empty_root : EmptyThreadsRoot = keccak256 (replicate 64 0)).

(** What is hashed for a thread on top of a stack with root [rest], and for a
    whole stack. *)
Definition thread_inputs (rest : hash) (t : ThreadState) (x : list Z) : Prop :=
  x = serializeThread t \/ x = rest ++ keccak256 (serializeThread t).

Definition stack_inputs (l : list ThreadState) (x : list Z) : Prop :=
  x = replicate 64 0 \/ exists l1 t l2, l = l1 ++ t :: l2 /\ thread_inputs (calculateThreadStackRoot l1) t x.

Lemma stack_inputs_snoc l t x : stack_inputs l x -> stack_inputs (l ++ [t]) x.
Proof.
  intros [? | (l1 & u & l2 & -> & H)]; [by left | right]. exists l1, u, (l2 ++ [t]). by rewrite <- app_assoc.
Qed.

Lemma stack_inputs_last l t x : thread_inputs (calculateThreadStackRoot l) t x -> stack_inputs (l ++ [t]) x.
Proof. intros H. right. by exists l, t, []. Qed.

Lemma snoc_not_empty l t (Q : list Z -> Prop) :
  Q (replicate 64 0) ->
  calculateThreadStackRoot (l ++ [t]) = EmptyThreadsRoot -> broken (stack_inputs (l ++ [t])) Q.
Proof.
  rewrite stack_root_snoc, empty_root. intros HQ E.
  apply (keccak_inj (stack_inputs (l ++ [t])) Q) in E as [E | E]; [| done | apply stack_inputs_last; by right | done].
  change (replicate 64 0) with (replicate 32 0 ++ replicate 32 0) in E.
  apply app_inj_32 in E as [_ E]; [| apply length_stack_root | done].
  right. exists (serializeThread t). split; [left; apply stack_inputs_last; by left | done].
Qed.

Lemma broken_sym P Q : broken P Q -> broken Q P.
Proof.
  intros [(x & y & Hx & Hy & Hne & E) | (x & Hx & H)]; [left; exists y, x; by split_and! | right; exists x].
  split; [destruct Hx; auto | done].
Qed.

Lemma stack_binding l l' :
  Forall thread_wf l -> Forall thread_wf l' ->
  calculateThreadStackRoot l = calculateThreadStackRoot l' -> broken (stack_inputs l) (stack_inputs l') \/ l = l'.
Proof.
  revert l'. induction l as [| t l IH] using rev_ind; intros l' Hl Hl' E;
    destruct l' as [| t' l' _] using rev_ind.
  - by right.
  - left. apply broken_sym, snoc_not_empty; [by left | done].
  - left. apply snoc_not_empty; [by left | done].
  - apply Forall_app in Hl as [Hl Ht]. apply Forall_app in Hl' as [Hl' Ht']. inversion Ht. inversion Ht'. subst.
    rewrite !stack_root_snoc in E.
    apply (keccak_inj (stack_inputs (l ++ [t])) (stack_inputs (l' ++ [t']))) in E as [E | E];
      [| by left | apply stack_inputs_last; by right ..].
    apply app_inj_32 in E as [E1 E2]; [| apply length_stack_root ..].
    apply (keccak_inj (stack_inputs (l ++ [t])) (stack_inputs (l' ++ [t']))) in E2 as [E2 | E2];
      [| by left | apply stack_inputs_last; by left ..].
    destruct (IH l' Hl Hl' E1) as [B | ->]; [left; eapply broken_mono; [| | exact B]; intros x; apply stack_inputs_snoc | right]. f_equal. f_equal. by apply thread_binding.
Qed.

(** *** The whole state *)

Lemma concat_inj (ls ls' : list (list Z)) :
  length <$> ls = length <$> ls' -> concat ls = concat ls' -> ls = ls'.
Proof.
  revert ls'. induction ls as [|l ls IH]; intros [|l' ls'] Hl E; try done.
  injection Hl as Hl1 Hl2. cbn [concat] in E. apply app_inj_1 in E as [-> E]; [| done]. f_equal. by apply IH.
Qed.

Lemma word_inj x y : is_word x -> is_word y -> ByteOrder_PutWord x = ByteOrder_PutWord y -> x = y.
Proof.
  intros Hx Hy E. rewrite <- (PutWord_Word x), <- (PutWord_Word y) by done. by rewrite E.
Qed.

Lemma u64_inj x y : in_range 64 x -> in_range 64 y -> be_encode 8 x = be_encode 8 y -> x = y.
Proof. intros Hx Hy. by apply (be_encode_inj 8). Qed.

Lemma bool_inj (x y : bool) : [if x then 1 else 0] = [if y then 1 else 0] -> x = y.
Proof. by destruct x, y. Qed.

Lemma since_range s : state_ok s -> in_range 64 (StepsSinceLastContextSwitch s).
Proof.
  intros Hs. pose proof (so_since _ Hs). unfold in_range, SchedQuantum in *.
  change (2 ^ 64) with 18446744073709551616. lia.
Qed.

(** The equation of field [i] of two equal witnesses. *)
Ltac field_eq E i H :=
  pose proof (f_equal (fun l => default [] (l !! i)) E) as H;
  cbn [witness_fields lookup list_lookup default id] in H.

(** What is hashed for the witness of a state. *)
Definition state_inputs (s : State) (x : list Z) : Prop :=
  mem_inputs (Mem s) x \/ stack_inputs (LeftThreadStack s) x \/ stack_inputs (RightThreadStack s) x.

Lemma witness_binding s s' :
  state_ok s -> state_ok s' ->
  encode_state (mem_node (Mem s) 1) s = encode_state (mem_node (Mem s') 1) s' ->
  broken (state_inputs s) (state_inputs s') \/
  (s' = set_LastHint (LastHint s') (set_Mem (Mem s') s) /\
   forall a, is_word a -> mem_byte (Mem s) a = mem_byte (Mem s') a).
Proof.
  intros Hs Hs' E. rewrite !encode_state_fields in E. apply concat_inj in E.
  2: { rewrite !witness_field_lengths; try done; try apply length_mem_node; [apply Hs' | apply Hs]. }
  pose proof (since_range s Hs). pose proof (since_range s' Hs').
  field_eq E 0%nat E1. field_eq E 1%nat E2. field_eq E 2%nat E3. field_eq E 3%nat E4. field_eq E 4%nat E5.
  field_eq E 5%nat E6. field_eq E 6%nat E7. field_eq E 7%nat E8. field_eq E 8%nat E9. field_eq E 9%nat E10.
  field_eq E 10%nat E11. field_eq E 11%nat E12. field_eq E 12%nat E13. field_eq E 13%nat E14.
  field_eq E 14%nat E15.
  apply memory_binding in E1 as [B | E1]; [left; eapply broken_mono; [| | exact B]; intros x; by left |].
  destruct (threads_of s (so_threads _ Hs)) as [TL TR]. destruct (threads_of s' (so_threads _ Hs')) as [TL' TR'].
  apply stack_binding in E13 as [B | E13]; [left; eapply broken_mono; [| | exact B]; intros x; right; by left | | done | done].
  apply stack_binding in E14 as [B | E14]; [left; eapply broken_mono; [| | exact B]; intros x; right; by right | | done | done].
  right. split; [| done].
  destruct (so_ll _ Hs) as (W1 & W2 & _), (so_ll _ Hs') as (W1' & W2' & _).
  apply word_inj in E3; [| apply Hs | apply Hs']. apply word_inj in E4; [| apply Hs | apply Hs'].
  apply word_inj in E6; [| done | done]. apply word_inj in E7; [| done | done].
  apply word_inj in E15; [| apply Hs | apply Hs'].
  apply u64_inj in E10; [| apply Hs | apply Hs']. apply u64_inj in E11; [| done | done].
  apply bool_inj in E9. apply bool_inj in E12. injection E5 as E5. injection E8 as E8. clear E.
  unfold set_LastHint, set_Mem. cbn.
  rewrite E2, E3, E4, E5, E6, E7, E8, E9, E10, E11, E12, E13, E14, E15. by destruct s'.
Qed.

(** *** Memory proofs *)

(** What the verifier of a proof hashes. *)
Fixpoint climb_inputs (path : Z) (node : hash) (siblings : list hash) (x : list Z) : Prop :=
  match siblings with
  | [] => False
  | s :: rest =>
      x = (if Z.testbit path 0 then s ++ node else node ++ s) \/
      climb_inputs (ushr path 1) (if Z.testbit path 0 then HashPair s node else HashPair node s) rest x
  end.

Definition proof_inputs (addr : Z) (proof : list Z) : list Z -> Prop :=
  match chunks (Z.to_nat MemProofLeafCount) proof with
  | leaf :: siblings => climb_inputs (ushr addr 5) leaf siblings
  | [] => fun _ => False
  end.

Lemma climb_binding sibs sibs' path n n' :
  length sibs = length sibs' -> Forall (fun h => length h = 32%nat) sibs ->
  Forall (fun h => length h = 32%nat) sibs' -> length n = 32%nat -> length n' = 32%nat ->
  climb path n sibs = climb path n' sibs' -> broken (climb_inputs path n sibs) (climb_inputs path n' sibs') \/ n = n'.
Proof.
  revert path n n' sibs'. induction sibs as [|x sibs IH]; intros path n n' [|x' sibs'] Hl Hs Hs' Hn Hn' E; try done.
  { by right. }
  inversion Hs; inversion Hs'; subst. cbn [climb] in E. injection Hl as Hl.
  apply IH in E as [B | E]; try done; [left; eapply broken_mono; [| | exact B]; cbn; auto | |
    destruct (Z.testbit path 0); apply keccak_length ..].
  cbn [climb_inputs]. unfold HashPair in E. set (P := fun x => _ \/ _). set (Q := fun x => _ \/ climb_inputs _ _ sibs' x).
  destruct (Z.testbit path 0);
    (apply (keccak_inj P Q) in E as [E | E]; [| by left | by left | by left]);
    apply app_inj_32 in E as [E1 E2]; try done; by right.
Qed.

Lemma chunks_lengths n bs : (32 * n <= length bs)%nat -> Forall (fun h => length h = 32%nat) (chunks n bs).
Proof.
  revert bs. induction n as [|n IH]; intros bs Hn; cbn [chunks]; [done |]. constructor.
  - rewrite length_take. lia.
  - apply IH. rewrite length_drop. lia.
Qed.

Lemma length_chunks n bs : length (chunks n bs) = n.
Proof. revert bs. induction n as [|n IH]; intros bs; cbn [chunks length]; [done |]. by rewrite IH. Qed.

(** The 32-byte leaf that holds [addr]. *)
Definition leaf_bytes (m : Memory) (addr : Z) : list Z := fbytes (mem_byte m) (32 * (addr / 32)) 32.

Lemma leaf_node m addr : is_word addr -> mem_node m (path_node addr tree_height) = leaf_bytes m addr.
Proof.
  intros Ha. unfold mem_node. destruct (path_node_log2 addr tree_height Ha) as [_ ->].
  { unfold tree_height. destruct WordSize_cases; lia. }
  rewrite Z.sub_diag. unfold path_node. rewrite Z.sub_diag, Z.shiftr_0_r.
  unfold leaf_of, leaf_bytes, ushr. rewrite Z.shiftr_div_pow2 by lia. change (2 ^ 5) with 32. change (Z.to_nat 0) with 0%nat. cbn [subtree].
  f_equal. lia.
Qed.

Lemma path_node_root addr : is_word addr -> path_node addr 0 = 1.
Proof.
  intros Ha. destruct (path_node_log2 addr 0 Ha) as [Hp Hl].
  { unfold tree_height. destruct WordSize_cases; lia. }
  pose proof (Z.log2_spec _ Hp) as H. rewrite Hl in H. change (1 <= path_node addr 0 < 2) in H. lia.
Qed.

(** A generated proof has the fixed size, starts with the leaf and leads to the root. *)
Lemma MerkleProof_complete m addr :
  mem_wf m -> merkle_ok m -> is_word addr ->
  exists proof m', MerkleProof addr m = Ok (proof, m') /\
    zlen proof = MemProofSize /\ take 32 proof = leaf_bytes m addr /\
    proof_root addr proof = mem_node m 1 /\ mem_wf m' /\ merkle_ok m' /\ same_bytes m m'.
Proof.
  intros Hw Hm Ha. assert (0 <= tree_height) as Ht by (unfold tree_height; destruct WordSize_cases; lia).
  destruct (traverseBranch_spec (Z.to_nat tree_height) m addr 0 Hw Hm Ha)
    as (sibs & m' & R & Hlen & Hclimb & [gs Hgs] & C & W & M); [lia | lia |].
  rewrite path_node_root in R, Hclimb by done. rewrite leaf_node in R, Hclimb by done.
  set (l := leaf_bytes m addr :: sibs) in *.
  assert (Forall (fun h => length h = 32%nat) l) as Hl.
  { constructor; [apply length_fbytes |]. rewrite Hgs. apply Forall_fmap, Forall_forall. intros g _.
    apply length_mem_node. }
  assert (length l = Z.to_nat MemProofLeafCount) as Hll.
  { unfold l. cbn [length]. rewrite Hlen. unfold MemProofLeafCount, tree_height in *. lia. }
  exists (concat l), m'. unfold MerkleProof. change (WordSize - 5) with tree_height.
  rewrite (ST_bind_run _ _ _ _ _ R). split; [done |]. split; [| split; [| split; [| split; [done | split; [done |]]]]].
  - unfold zlen, MemProofSize. rewrite length_concat_fmap.
    assert (length <$> l = replicate (length l) 32%nat) as ->.
    { clear -Hl. induction Hl; cbn; [done |]. by f_equal. }
    rewrite Hll. rewrite sum_list_replicate. unfold MemProofLeafCount, tree_height in *. lia.
  - unfold l. cbn [concat]. rewrite <- (length_fbytes (mem_byte m) (32 * (addr / 32)) 32) at 1.
    apply take_app_length.
  - unfold proof_root. rewrite <- Hll, chunks_concat by done. exact Hclimb.
  - intros b. by apply more_cached_byte.
Qed.

(** A proof of the right size that leads to the root starts with the leaf. *)
Lemma MerkleProof_sound m addr proof :
  mem_wf m -> merkle_ok m -> is_word addr -> zlen proof = MemProofSize ->
  proof_root addr proof = mem_node m 1 ->
  exists proof' m', MerkleProof addr m = Ok (proof', m') /\
    (broken (proof_inputs addr proof) (proof_inputs addr proof') \/ take 32 proof = leaf_bytes m addr).
Proof.
  intros Hw Hm Ha Hsz Hr.
  destruct (MerkleProof_complete m addr Hw Hm Ha) as (p' & m' & R & Hsz' & Hleaf & Hr' & _).
  exists p', m'. split; [done |]. rewrite <- Hleaf. rewrite <- Hr' in Hr. unfold proof_root in Hr. unfold proof_inputs.
  assert (exists n, Z.to_nat MemProofLeafCount = S n) as [n Hn].
  { exists (Z.to_nat tree_height). unfold MemProofLeafCount, tree_height. destruct WordSize_cases; lia. }
  assert (length proof = 32 * S n /\ length p' = 32 * S n)%nat as [L1 L2].
  { unfold zlen, MemProofSize in *. rewrite <- Hn. lia. }
  rewrite Hn in *. cbn [chunks] in *.
  eapply climb_binding; [..| exact Hr].
  - by rewrite !length_chunks.
  - apply chunks_lengths. rewrite length_drop. lia.
  - apply chunks_lengths. rewrite length_drop. lia.
  - rewrite length_take. lia.
  - rewrite length_take. lia.
Qed.

(** *** Thread proofs *)

(** The thread witness is the serialized current thread and the root of the
    rest of its stack; hashing them gives the root of the active stack. *)
Lemma thread_proof_root s t :
  top (active s) = Some t ->
  EncodeThreadProof s = Ok (serializeThread t ++ calculateThreadStackRoot (pop (active s))) /\
  keccak256 (calculateThreadStackRoot (pop (active s)) ++ keccak256 (serializeThread t))
  = calculateThreadStackRoot (active s).
Proof.
  intros Ht. split.
  - unfold EncodeThreadProof. change (getActiveThreadStack s) with (active s). by rewrite Ht.
  - rewrite <- stack_root_snoc. by rewrite <- (top_pop _ _ Ht).
Qed.

Lemma length_serializeThread t : thread_wf t -> zlen (serializeThread t) = SERIALIZED_THREAD_SIZE.
Proof.
  intros [_ He _ [Hl _ _]]. rewrite serializeThread_fields by done. unfold zlen.
  rewrite !length_app, length_concat_fmap.
  assert (length <$> (WriteUInt WordSizeBytes <$> Registers t) = replicate 32 (Z.to_nat WordSizeBytes)) as ->.
  { rewrite <- Hl. clear. induction (Registers t) as [|x l IH]; cbn; [done |]. rewrite IH. f_equal.
    apply length_be_encode. }
  rewrite sum_list_replicate. unfold WriteBool, WriteUInt.
  destruct (ThreadExited t); rewrite !length_be_encode; unfold SERIALIZED_THREAD_SIZE; pose proof WordSizeBytes_pos; lia.
Qed.

End Commit.
