(* ===== verification/Toy.v ===== *)
(** Concrete instances of the parameters of the model - a cheap digest, an
    oracle, an LRU cache and symbol metadata - and a small program, on which
    the theorems are exercised. *)
From Stdlib Require Import ZArith Lia.
From stdpp Require Import base gmap list strings numbers.
From S2P Require Import Prelude Arch Codec Insn Memory Exec Threads Multithreaded MerkleSpec.
From S2P Require Import MemoryProps InsnProps ExecProps MTProps MTStep Sched.

Module Toy.

(** A digest with the two documented properties the VM relies on. *)
Definition digest : Keccak := fun bs =>
  if bool_decide (bs = replicate 64 0) then EmptyThreadsRoot
  else be_encode 32 (foldl (fun acc b => (acc * 31 + b + 7) mod 1000003) 5 bs).

Lemma digest_laws : KeccakLaws digest.
Proof.
  split; intros bs; unfold keccak256, digest; destruct (bool_decide _);
    try apply length_be_encode; try done; apply be_encode_bytes.
Qed.

Lemma digest_empty : EmptyThreadsRoot = @keccak256 digest (replicate 64 0).
Proof. reflexivity. Qed.

(** Every key has its first four bytes as pre-image. *)
Definition oracle : PreimageOracle := fun key => take 4 key.

Definition metadata : Metadata := fun _ => "main"%string.

(** A cache that never evicts. *)
Definition cache : LRU := {|
  lru := gmap Z Z;
  lru_New := fun _ => ∅;
  lru_Add := fun k v c => <[k := v]> c;
  lru_Get := fun k c => (c !! k, c);
  lru_Remove := fun k c => delete k c;
|}.

#[local] Existing Instances digest oracle metadata cache.
#[local] Existing Instance digest_laws.

(** The initial state at the bottom of an empty memory: it runs no-ops. *)
Definition state0 {A : Arch} : MT.State :=
  match MT.CreateInitialState 0x1000 0x20000000 with Ok s => s | _ => MT.CreateEmptyState end.

Lemma state0_eq {A : Arch} : MT.CreateInitialState 0x1000 0x20000000 = Ok state0.
Proof. reflexivity. Qed.

Lemma state0_ok {A : Arch} : state_ok state0 /\ ids_ok state0.
Proof. eapply initial_ok; [| | exact state0_eq]; apply small_word; split; done. Qed.

Definition vm0 {A : Arch} : InstrumentedState cache := MTVM.NewInstrumentedState state0.

(** A memory after some aligned stores. *)
Fixpoint stored {A : Arch} (ws : list (Z * Z)) : Memory :=
  match ws with
  | [] => NewMemory
  | (a, v) :: ws => match SetWord a v (stored ws) with Ok (_, m) => m | _ => stored ws end
  end.

Definition aligned_pair {A : Arch} (w : Z * Z) : Prop := is_word w.1 /\ w.1 .& ExtMask = 0.

Lemma stored_ok {A : Arch} ws : Forall aligned_pair ws -> mem_wf (stored ws) /\ merkle_ok (stored ws).
Proof.
  induction 1 as [|[a v] ws [Ha Hal] _ [IHw IHm]]; cbn [stored].
  - split; [apply NewMemory_wf | apply NewMemory_merkle].
  - destruct (SetWord_run a v (stored ws) IHw IHm Ha Hal) as (m' & -> & W & M & _). done.
Qed.

(** Two words in two pages of the 32-bit VM. *)
Definition words : list (Z * Z) := [(0x1004, 0x01020304); (0x2ffc, 0xdeadbeef)].

Lemma words_aligned : Forall (@aligned_pair Mips32) words.
Proof. repeat constructor; done. Qed.

(** The state after a step. *)
Definition after {A : Arch} (proof : bool) (m : InstrumentedState cache) : InstrumentedState cache :=
  match MTVM.Step proof m with Ok (_, m') => m' | _ => m end.

End Toy.
