(* ===== verification/ToyGame.v ===== *)
(** Concrete games: a decision procedure for their structure, a trace that is
    given by a function, and the games on which the theorems are exercised. *)
From Stdlib Require Import ZArith Lia.
From stdpp Require Import base gmap list strings numbers.
From S2P Require Import Prelude Position Claims Trace Solver GameProps Honest ResolutionProps.

Import Game.

#[export] Instance Position_eq_dec : EqDecision Position.
Proof. solve_decision. Defined.

(** ** Deciding the structure of a game *)

Definition reply_check (p c : Claim) : bool :=
  bool_decide (position c = Attack (position p)) ||
  bool_decide (position c = Defend (position p)) && negb (depth (position p) =? 0).

Definition parent_check (D : Z) (cs : list Claim) (i : nat) (c : Claim) : bool :=
  match i with
  | O => bool_decide (position c = RootPosition)
  | S i =>
      let j := Z.to_nat (ParentContractIndex c) in
      (0 <=? ParentContractIndex c) && bool_decide (j <= i)%nat &&
      match cs !! j with
      | Some p => (depth (position p) <? D) && reply_check p c
      | None => false
      end
  end.

Fixpoint claims_check (D : Z) (cs : list Claim) (i : nat) (l : list Claim) : bool :=
  match l with
  | [] => true
  | c :: l => (ContractIndex c =? Z.of_nat i) && parent_check D cs i c && claims_check D cs (S i) l
  end.

Definition game_check (D : Z) (cs : list Claim) : bool :=
  (1 <=? D) && (D <? 2 ^ 63 - 1) && bool_decide (cs <> []) && claims_check D cs 0 cs &&
  bool_decide (NoDup (key <$> cs)).

Lemma claims_check_at D cs k l i c :
  claims_check D cs k l = true -> l !! i = Some c ->
  ContractIndex c = Z.of_nat (k + i) /\ parent_check D cs (k + i) c = true.
Proof.
  revert k i. induction l as [|x l IH]; intros k i H Hi; [done |].
  cbn [claims_check] in H. rewrite !andb_true_iff, Z.eqb_eq in H. destruct H as [[H1 H2] H3]. destruct i as [|i].
  - injection Hi as <-. by rewrite Nat.add_0_r.
  - destruct (IH (S k) i H3 Hi). by replace (k + S i)%nat with (S k + i)%nat by lia.
Qed.

Lemma game_check_ok D cs : game_check D cs = true -> game_ok D cs.
Proof.
  unfold game_check. rewrite !andb_true_iff, !bool_decide_eq_true, Z.leb_le, Z.ltb_lt. intros [[[[H1 H2] Hne] Hc] Hnd].
  split.
  - done.
  - destruct cs as [|r cs]; [done |]. exists r. split; [done |].
    destruct (claims_check_at D _ 0 _ 0 r Hc eq_refl) as [_ H]. by apply bool_decide_eq_true in H.
  - intros i c Hi. by destruct (claims_check_at D cs 0 cs i c Hc Hi).
  - intros i c Hi. destruct (claims_check_at D cs 0 cs (S i) c Hc Hi) as [_ H]. cbn [parent_check Nat.add] in H.
    rewrite !andb_true_iff, Z.leb_le, bool_decide_eq_true in H. destruct H as [[Hp Hj] H].
    destruct (cs !! Z.to_nat (ParentContractIndex c)) as [p |] eqn:E; [| done].
    rewrite andb_true_iff, Z.ltb_lt in H. destruct H as [Hd Hr]. exists (Z.to_nat (ParentContractIndex c)), p.
    split; [done |]. split; [done |]. split; [lia |]. split; [done |]. unfold reply_check in Hr.
    apply orb_true_iff in Hr as [Hr | Hr]; [left; by apply bool_decide_eq_true in Hr | right].
    apply andb_true_iff in Hr as [Hr H0]. apply bool_decide_eq_true in Hr. apply negb_true_iff, Z.eqb_neq in H0. done.
  - intros i j a b Ha Hb E. eapply NoDup_lookup; [exact Hnd | rewrite list_lookup_fmap, Ha; reflexivity |].
    rewrite list_lookup_fmap, Hb. cbn. by rewrite E.
Qed.

(** ** Deciding that ids are distinct *)

Definition ids_check {K : Keccak} (l : list Claim) : bool :=
  forallb (fun a => forallb (fun b => bool_decide (ID a <> ID b) || bool_decide (key a = key b)) l) l.

Lemma ids_check_ok {K : Keccak} l : ids_check l = true -> ids_distinct l.
Proof.
  unfold ids_check. rewrite forallb_forall. intros H a b Ha%list_elem_of_In Hb%list_elem_of_In E.
  specialize (H a Ha). rewrite forallb_forall in H. specialize (H b Hb).
  apply orb_true_iff in H as [H | H]; apply bool_decide_eq_true in H; done.
Qed.

Module ToyGame.

#[export] Instance l2 : L2Types := {| OutputResponse := unit; Header := unit |}.

(** A digest without collisions. *)
Definition plain : Keccak := fun bs => bs.

(** The claim [i] with parent [p] at the generalized index [gi]. *)
Definition claim (i p gi : Z) (v : hash) (claimant : list Z) : Claim :=
  mkClaim (mkClaimData v None (NewPositionFromGIndex gi)) Address0 claimant (mkClock 0 0) i p.

Definition addr (b : Z) : list Z := replicate 20 b.

(** The trace of a game of depth 12: state [i] holds [i + 1]. *)
Definition T (i : Z) : hash := 0 :: be_encode 31 (i + 1).

Definition provider (D : Z) : TraceProvider := {|
  AbsolutePreStateCommitment := Ok (T (-1));
  Get p := i ← TraceIndex D p; Ok (T i);
  GetStepData p := i ← TraceIndex D p; Ok (T (i - 1), [], None);
  GetL2BlockNumberChallenge := Err ErrL2BlockNumberValid;
|}.

Lemma provider_laws D : 1 <= D < 2 ^ 63 -> TraceLaws (K := plain) D T (provider D).
Proof.
  intros HD. split.
  - intros pos Hp Hd. cbn [Get provider]. by rewrite TraceIndex_ok by (done || lia).
  - intros i Hi. do 3 eexists. split; [| done]. cbn [GetStepData provider].
    rewrite TraceIndex_ok by (try (apply NewPosition_ok; lia); cbn; lia). cbn [mbind outcome_bind].
    unfold ti. cbn [depth NewPosition IndexAtDepth indexAtDepth]. rewrite Z.sub_diag. do 3 f_equal. f_equal. lia.
  - done.
Qed.

(** *** A game in which two claims have the same id

    Claims 0 to 3 are the wrong root claim, its honest answer, another reply at
    the same place and the honest answer to that. Claims 4 to 12 descend from
    claim 2 on the side the honest strategy ignores; claim 13 replies to claim
    12 with a value made for the collision, and claims 14 to 267 fill the game.
    Claim 268 is a wrong reply to the honest claim 1. *)
Definition bad (i : Z) : hash := replicate 24 0xee ++ be_encode 8 i.

Definition honest_value (gi : Z) : hash :=
  match Get (provider 12) (NewPositionFromGIndex gi) with Ok v => v | _ => [] end.

Definition chain : list Claim :=
  (fun i : Z => claim i (i - 1) (12 * 2 ^ (i - 5)) (bad i) (addr 2)) <$> [5; 6; 7; 8; 9; 10; 11; 12].

Definition filler : list Claim :=
  (fun i : nat => claim (Z.of_nat i) 4 12 (bad (Z.of_nat i)) (addr 2)) <$> seq 14 254.

Definition collision : list Claim :=
  [claim 0 root_parent 1 (bad 0) (addr 2);
   claim 1 0 2 (honest_value 2) (addr 1);
   claim 2 0 2 (bad 2) (addr 2);
   claim 3 2 4 (honest_value 4) (addr 1);
   claim 4 2 6 (bad 4) (addr 2)] ++
  chain ++
  [claim 13 12 3072 (drop 1 (honest_value 12) ++ [1]) (addr 2)] ++
  filler ++
  [claim 268 1 6 (bad 268) (addr 2)].

(** *** A game of depth 3 in which the solver moves and steps

    The honest player 1 has answered the wrong root claim and the reply 2; reply
    4 is not answered yet, and leaf 5 is wrong. *)
Definition T_value (gi : Z) : hash :=
  match Get (provider 3) (NewPositionFromGIndex gi) with Ok v => v | _ => [] end.

Definition small : list Claim :=
  [claim 0 root_parent 1 (bad 0) (addr 2);
   claim 1 0 2 (T_value 2) (addr 1);
   claim 2 1 4 (bad 2) (addr 2);
   claim 3 2 8 (T_value 8) (addr 1);
   claim 4 1 6 (bad 4) (addr 3);
   claim 5 2 8 (bad 5) (addr 3)].

Definition small_actions : list Action :=
  match @CalculateNextActions plain _ (@solver_of plain _ 3 (provider 3)) (@NewGameState plain small 3) with
  | Ok (l, None) => l
  | _ => []
  end.

(** The game after these actions. *)
Definition small' : list Claim :=
  take 5 small ++ [mkClaim (Data_ (claim 5 2 8 (bad 5) [])) (addr 1) (addr 3) (mkClock 0 0) 5 2;
                   claim 6 4 12 (T_value 12) (addr 1)].

(** A machine that runs through the trace. *)
Definition vm (pre post : hash) : Prop := exists i, -1 <= i < 2 ^ 62 /\ pre = T i /\ post = T (i + 1).

Lemma T_inj i j : -1 <= i < 2 ^ 62 -> -1 <= j < 2 ^ 62 -> T i = T j -> i = j.
Proof.
  intros Hi Hj E. assert (be_encode 31 (i + 1) = be_encode 31 (j + 1)) as E' by exact (f_equal (drop 1) E).
  apply (f_equal be_decode) in E'. rewrite !be_decode_encode, !wrap_small in E' by (unfold in_range; lia). lia.
Qed.

Lemma vm_ok D : 0 <= D <= 62 -> vm_runs D T vm (T (-1)).
Proof.
  intros HD. assert (2 ^ D <= 2 ^ 62) by (apply Z.pow_le_mono_r; lia). split.
  - intros h (i & Hi & E & ->). apply T_inj in E as <-; [done | lia | done].
  - intros i h Hi (j & Hj & E & ->). apply T_inj in E as <-; [done | lia | done].
Qed.

End ToyGame.
