(* ===== verification/ToyDerive.v ===== *)
(** A small chain for the instances of the properties of the derivation pipeline:
    a configuration that passes [Check] with Holocene active from time 100 on,
    and stages that hand out a list of transactions or frames of one L1 block. *)
From Stdlib Require Import ZArith Lia.
From stdpp Require Import base gmap list strings numbers.
From S2P Require Import Prelude Codec Rollup Frames Channels L1Info DepositLog Batches BatchStages.
From S2P Require Import Attributes AssemblerProps L1InfoProps DepositProps StageProps SpanBatch SpanProps Toy.

Definition toy_hash (b : Z) : hash := replicate 32 b.

Definition toy_system : SystemConfig :=
  mkSystemConfig (replicate 20 1) zero_hash (1 :: replicate 23 0 ++ be_encode 4 5 ++ be_encode 4 6) 30000000 (replicate 8 0) zero_hash false.

Definition toy_config : Config :=
  mkConfig (mkGenesis (mkBlockID (toy_hash 7) 10) (mkBlockID (toy_hash 8) 0) 20 toy_system)
    2 600 4 300 (Some 1) (Some 2)
    (Some 0) (Some 0) (Some 0) (Some 0) (Some 50) (Some 50) (Some 100) None None None
    (replicate 20 2) (replicate 20 3) (replicate 20 4) (replicate 20 5) None None.

Definition toy_spec : ChainSpec := NewChainSpec toy_config.

(** The L1 block number [n], every 12 seconds. *)
Definition toy_block (n : Z) : L1BlockRef := mkL1BlockRef (toy_hash n) n (toy_hash (n - 1)) (12 * n).

(** Transactions, then frames, of one L1 block. *)
Record toy_txs : Type := mkToyTxs { tt_origin : L1BlockRef; tt_data : list (list Z) }.

#[export] Instance toy_txs_provider : NextDataProvider toy_txs := {|
  NextData := fun p =>
    match tt_data p with
    | [] => (Err EOF, p)
    | d :: l => (Ok d, mkToyTxs (tt_origin p) l)
    end;
  data_Origin := tt_origin;
|}.

Record toy_frames : Type := mkToyFrames { tf_origin : L1BlockRef; tf_frames : list Frame }.

#[export] Instance toy_frames_provider : NextFrameProvider toy_frames := {|
  NextFrame := fun p =>
    match tf_frames p with
    | [] => (Err EOF, p)
    | f :: l => (Ok f, mkToyFrames (tf_origin p) l)
    end;
  frame_Origin := tf_origin;
|}.

(** Two channels, of two frames and of one. *)
Definition toy_id (b : Z) : ChannelID := replicate 16 b.
Definition toy_pieces : list (list Z) := [[1; 2; 3]; [4; 5]].
Definition toy_fs : list Frame := channel_frames (toy_id 9) 0 toy_pieces.

(** ** Batches *)

Record toy_batches : Type := mkToyBatches { tb_origin : L1BlockRef; tb_batches : list Batch }.

#[export] Instance toy_batches_provider : NextBatchProvider toy_batches := {|
  NextBatch := fun p =>
    match tb_batches p with
    | [] => (Err EOF, p)
    | b :: l => (Ok b, mkToyBatches (tb_origin p) l)
    end;
  batch_Origin := tb_origin;
  FlushChannel := fun p => (Ok (), mkToyBatches (tb_origin p) []);
|}.

#[export] Instance toy_batches_laws : BatchProviderLaws toy_batches.
Proof.
  split.
  - intros [o [|b l]] r p' [= _ <-]; done.
  - by intros [o l] r p' [= _ <-].
Qed.

#[local] Instance toy_digest : Keccak := Toy.digest.
#[local] Instance toy_digest_laws : KeccakLaws toy_digest := Toy.digest_laws.

(** A deposit is written as its type and data. *)
#[local] Instance toy_geth : Geth := {|
  CalcBlobFee := fun x => x mod 2 ^ 256;
  tx_MarshalBinary := fun dep => Ok (DepositTxType :: dt_Data dep);
  tx_UnmarshalBinary := fun bs => match bs with t :: data => Ok (t, data) | [] => Err "empty typed transaction bytes" end;
  ValidateHoloceneExtraData := fun bs => if decide (length bs = 9%nat) then Ok () else Err "holocene extraData should be 9 bytes";
  DecodeHoloceneExtraData := fun bs => (be_decode (slice 1 5 bs), be_decode (slice 5 9 bs));
  EncodeHolocene1559Params := fun p => be_encode 4 p.1 ++ be_encode 4 p.2;
|}.

#[local] Instance toy_geth_laws : GethLaws toy_geth.
Proof. split; intros dep bs [= <-]; [done | by eexists]. Qed.

#[local] Instance toy_upgrades : UpgradeTransactions := {|
  EcotoneNetworkUpgradeTransactions := Ok [];
  FjordNetworkUpgradeTransactions := Ok [[DepositTxType; 1]];
  IsthmusNetworkUpgradeTransactions := Ok [];
|}.

(** The chain of all blocks, and an engine that knows no safe blocks. *)
Definition toy_chain (n : Z) : option L1BlockRef := if (0 <=? n) && (n <? 2 ^ 63) then Some (toy_block n) else None.

Definition toy_l2 : SafeBlockFetcher := mkSafeBlockFetcher (fun _ => Err "not found") (fun _ => Err "not found").

(** A safe head at a time, with an origin. *)
Definition toy_head (time origin : Z) : L2BlockRef :=
  mkL2BlockRef (toy_hash 60) 200 (toy_hash 61) time (L1BlockRef_ID (toy_block origin)) 3.

(** The stage after a reset at a block, then with the next blocks and no batches. *)
Definition toy_reset (n : Z) : baseBatchStage toy_batches :=
  (bs_Reset (toy_block n) (newBaseBatchStage toy_config (mkToyBatches (toy_block n) []))).2.

Fixpoint toy_run (parent : L2BlockRef) (n : Z) (k : nat) (bs : baseBatchStage toy_batches) : baseBatchStage toy_batches :=
  match k with
  | O => bs
  | S k => toy_run parent (n + 1) k (bs_NextBatch toy_l2 parent (set_prev (mkToyBatches (toy_block (n + 1)) []) bs)).2
  end.

Lemma toy_numbered n b : toy_chain n = Some b -> l1_Number b = n /\ 0 <= n < 2 ^ 63.
Proof.
  unfold toy_chain. destruct (Z.leb_spec 0 n); [| done]. destruct (Z.ltb_spec n (2 ^ 63)); [| done]. intros [= <-]. by cbn.
Qed.

Lemma toy_canonical n : 0 <= n < 2 ^ 63 -> canonical toy_chain (toy_block n).
Proof.
  intros H. unfold canonical, toy_chain. cbn [l1_Number toy_block].
  destruct (Z.leb_spec 0 n); [| lia]. by destruct (Z.ltb_spec n (2 ^ 63)); [| lia].
Qed.

Lemma toy_head_ok time n : 0 <= n < 2 ^ 63 -> 12 * n <= time < 2 ^ 63 -> head_ok toy_chain toy_config (toy_head time n).
Proof. intros Hn Ht. split; cbn; [| lia | lia]. exists (toy_block n). split; [by apply toy_canonical | by split; [| cbn; lia]]. Qed.

Lemma toy_reset_run time n : 0 <= n < 2 ^ 63 -> 12 * n <= time < 2 ^ 63 ->
  stage_run toy_chain toy_config (toy_reset n) (toy_head time n).
Proof.
  intros Hn Ht.
  apply run_reset with (bs := newBaseBatchStage toy_config (mkToyBatches (toy_block n) [])) (base := toy_block n) (r := Err EOF);
    [done | by apply toy_canonical | done | by apply toy_head_ok | cbn; lia | done].
Qed.

(** The runs of the toy stage are runs. *)
Lemma toy_run_ok parent n k bs :
  stage_run toy_chain toy_config bs parent -> base_Origin bs = toy_block n -> origin bs = toy_block n ->
  0 <= n -> n + Z.of_nat k < 2 ^ 63 ->
  stage_run toy_chain toy_config (toy_run parent n k bs) parent /\
  base_Origin (toy_run parent n k bs) = toy_block (n + Z.of_nat k) /\ origin (toy_run parent n k bs) = toy_block (n + Z.of_nat k).
Proof.
  revert n bs. induction k as [|k IH]; intros n bs Hr Hb Ho Hn Hk; cbn [toy_run].
  - rewrite Z.add_0_r. done.
  - replace (n + Z.of_nat (S k)) with (n + 1 + Z.of_nat k) by lia.
    set (bs1 := set_prev (mkToyBatches (toy_block (n + 1)) []) bs).
    assert (stage_run toy_chain toy_config bs1 parent) as Hr1.
    { apply run_advance; [done | by rewrite Hb, Ho | apply toy_canonical; lia | cbn; by rewrite Ho]. }
    destruct (bs_NextBatch toy_l2 parent bs1) as [r bs2] eqn:R. cbn [snd].
    destruct (stage_run_inv toy_chain toy_numbered toy_config bs1 parent) as [Hp Hi]; [done | done |].
    destruct (stage_call toy_chain toy_numbered toy_config toy_l2 parent bs1 r bs2) as (_ & H1 & H2 & _); [done .. |].
    apply IH; [by eapply run_call | by rewrite H1 | by rewrite H2 | lia | lia].
Qed.

(** ** L1 *)

Definition toy_info (n : Z) : BlockInfo :=
  mkBlockInfo (toy_hash n) (toy_hash (n - 1)) n (12 * n) (toy_hash 0) (Some 7) (Some 1) None None.

(** A deposit of 5 wei to an account, and the receipts that hold its event. *)
Definition toy_deposit : DepositTx :=
  mkDepositTx zero_hash (replicate 20 77) (Some (replicate 20 78)) (Some 5) 5 21000 false [1; 2].

Definition toy_receipts (cfg : Config) : list Receipt :=
  match MarshalDepositLogEvent (DepositContractAddress cfg) toy_deposit with
  | Ok l => [mkReceipt ReceiptStatusSuccessful [logged_at (toy_hash 21) 4 l]]
  | _ => []
  end.

(** The block is found by the byte its hash is made of; the deposit is in block 21. *)
Definition toy_l1 : L1ReceiptsFetcher :=
  let find {A} (h : hash) (r : A) : outcome A :=
    match h with
    | n :: _ => if decide (h = toy_hash n /\ 1 <= n < 200) then Ok r else Err NotFound
    | [] => Err NotFound
    end in
  mkL1ReceiptsFetcher
    (fun h => find h (toy_info (hd 0 h)))
    (fun h => find h (toy_info (hd 0 h), if decide (h = toy_hash 21) then toy_receipts toy_config else [])).

Definition toy_system_by_hash (h : hash) : outcome SystemConfig := Ok toy_system.

Lemma toy_fixed n b : 0 <= b < 256 -> fixed n (replicate n b).
Proof. intros H. split; [apply length_replicate |]. by apply Forall_replicate. Qed.

Lemma toy_system_wf : system_wf toy_system.
Proof.
  split; [by apply toy_fixed | by apply toy_fixed | | by apply toy_fixed]. split; [done |].
  apply (bool_decide_unpack (Forall (fun b => 0 <= b < 256) (Scalar toy_system))). by vm_compute.
Qed.

Lemma toy_info_wf n : 1 <= n < 200 -> block_wf toy_config (toy_info n).
Proof.
  intros H. split; cbn -[Z.pow toy_hash]; try (unfold in_range; lia).
  - exists 7. split; [done | unfold in_range; lia].
  - apply toy_fixed. lia.
Qed.

Lemma toy_receipts_wf : receipts_wf (toy_receipts toy_config).
Proof.
  apply (bool_decide_unpack (Forall (fun rec => Forall (fun l => Forall (fun b => 0 <= b < 256) (log_Data l)) (Logs rec)) (toy_receipts toy_config))).
  by vm_compute.
Qed.

Lemma toy_knows n : 1 <= n < 200 -> l1_knows toy_config toy_l1 (L1BlockRef_ID (toy_block n)).
Proof.
  intros H. pose proof (toy_info_wf n H) as Hw.
  split; cbn [InfoByHash FetchReceipts toy_l1 b_Hash b_Number L1BlockRef_ID toy_block l1_Hash l1_Number]; unfold toy_hash at 1; cbn [replicate].
  - intros info. destruct (decide _); [| done]. by intros [= <-].
  - intros info receipts. destruct (decide _); [| done]. intros [= <- <-]. split; [done |]. split; [done |]. split; [done |].
    destruct (decide _); [apply toy_receipts_wf | constructor].
Qed.

(** ** Transactions of a span batch: each behind a byte with its length *)

Fixpoint toy_encode (l : list (list Z)) : outcome (list Z) :=
  match l with
  | [] => Ok []
  | tx :: l =>
      if zlen tx <? 256 then bs ← toy_encode l; Ok (zlen tx :: tx ++ bs) else Err "transaction too long"
  end.

Fixpoint toy_decode (n : nat) (bs : list Z) : outcome (list (list Z) * list Z) :=
  match n, bs with
  | O, _ => Ok ([], bs)
  | S n, [] => Err EOF
  | S n, k :: bs => '(l, rest) ← toy_decode n (drop (Z.to_nat k) bs); Ok (take (Z.to_nat k) bs :: l, rest)
  end.

#[local] Instance toy_span_txs : SpanBatchTxs := {|
  spanBatchTxs := list (list Z);
  newSpanBatchTxs := [];
  AddTxs := fun new chainID t => Ok (t ++ new);
  txs_encode := toy_encode;
  txs_decode := fun n => toy_decode (Z.to_nat n);
  txs_fullTxs := fun chainID t => Ok t;
|}.

Lemma toy_span_laws chainID : SpanTxsLaws (T := toy_span_txs) chainID.
Proof.
  split.
  - done.
  - intros new t t' l [= <-] [= <-]. done.
  - intros t l bs rest [= <-] E. exists t. split; [| done]. cbn [txs_encode txs_decode toy_span_txs] in *.
    unfold zlen. rewrite Nat2Z.id. revert bs E. induction t as [|tx t IH]; cbn [toy_encode length toy_decode].
    + by intros bs [= <-].
    + intros bs. destruct (_ <? _); [| done]. destruct (toy_encode t) as [bs' | |]; [| done | done]. cbn [mbind outcome_bind].
      intros [= <-]. cbn [app]. unfold zlen. rewrite Nat2Z.id, <- app_assoc, drop_app_length, take_app_length.
      by rewrite (IH bs' eq_refl).
Qed.
