(* ===== verification/ToyInterop.v ===== *)
(** Two chains of one dependency set for the instances of the properties of
    op-supervisor: blocks every two seconds, with the messages between them, a
    database of logs in memory and derivation databases in files. *)
From Stdlib Require Import ZArith Lia.
From stdpp Require Import base gmap list strings numbers relations.
From S2P Require Import Prelude Codec Rollup Frames Interop Cross EntryDB FromDA ChainsDB.
From S2P Require Import CycleProps HazardProps FromDAProps ChainsProps Toy.

Module ToyInterop.

Definition toy_hash (b : Z) : hash := replicate 32 b.

(** The block number [n] of chain [c] (3 is L1); its hash names both. *)
Definition block (c n : Z) : BlockRef := mkL1BlockRef (toy_hash (16 * c + n)) n (toy_hash (16 * c + n - 1)) (100 + 2 * n).
Definition seal (c n : Z) : BlockSeal := BlockSealFromRef (block c n).
Definition num_of (h : hash) : Z := byte_at 0 h mod 16.

(** The message of log [i] of block [n] of chain [c]. *)
Definition message (c n i : Z) : ExecutingMessage := mkExecutingMessage c n i (100 + 2 * n) (toy_hash 200).

(** ** Dependency set *)

Definition dependencies : gmap Z StaticConfigDependency :=
  {[901 := mkDependency 1 0 0; 902 := mkDependency 2 0 0]}.

Definition first_choice : choices := fun _ => 0%nat.

Definition depset : StaticConfigDependencySet :=
  match NewStaticConfigDependencySet first_choice dependencies with
  | Ok ds => ds
  | _ => mkDependencySet ∅ ∅ [] 0
  end.

Lemma depset_hydrated : hydrated depset.
Proof. exists first_choice, dependencies, 0. reflexivity. Qed.

Definition all_first : orders := mkOrders (fun _ => first_choice) first_choice (fun _ => first_choice) first_choice.

(** ** Two blocks with two logs each, the first one executing a message *)

Definition two_blocks (m1 m2 : ExecutingMessage) (c n : Z) : outcome (BlockRef * Z * gmap Z ExecutingMessage) :=
  if negb (n =? 1) then Err ErrFuture
  else if c =? 901 then Ok (block 1 1, 2, {[0 := m1]})
  else if c =? 902 then Ok (block 2 1, 2, {[0 := m2]})
  else Err ErrUnknownChain.

Lemma two_blocks_typed m1 m2 : open_typed (two_blocks m1 m2).
Proof.
  intros c n bl k msgs. unfold two_blocks. repeat case_match; intros ?; simplify_eq; (split; [lia |]);
    intros i m [<- _]%lookup_singleton_Some; lia.
Qed.

Definition two_deps (m1 m2 : ExecutingMessage) : HazardDeps StaticConfigDependencySet :=
  mkHazardDeps (fun c q => b ← two_blocks m1 m2 c (q_BlockNum q); Ok (BlockSealFromRef b.1.1))
    depset (fun _ _ => Ok ()) (two_blocks m1 m2).

Definition both_blocks : HazardSet := mkHazardSet {[1 := seal 1 1; 2 := seal 2 1]}.

(** ** Logs *)

(** Sealed blocks, and the logs of the block to seal. *)
Record logs_db : Type := mkLogsDB {
  sealed : list (BlockRef * Z * gmap Z ExecutingMessage);
  open_logs : Z * gmap Z ExecutingMessage;
}.

Definition find_block (l : logs_db) (n : Z) : outcome (BlockRef * Z * gmap Z ExecutingMessage) :=
  match list_find (fun b => l1_Number b.1.1 = n) (sealed l) with
  | Some (_, b) => Ok b
  | None => Err ErrFuture
  end.

#[export] Instance logs_storage : LogStorage logs_db := {|
  log_AddLog := fun _ _ i m l =>
    (Ok (), mkLogsDB (sealed l) (i + 1, match m with Some m => <[i := m]> (open_logs l).2 | None => (open_logs l).2 end));
  log_SealBlock := fun parent b t l =>
    (Ok (), mkLogsDB (sealed l ++ [(mkL1BlockRef (b_Hash b) (b_Number b) parent t, (open_logs l).1, (open_logs l).2)]) (0, ∅));
  log_Rewind := fun head l => (Ok (), mkLogsDB (filter (fun b => l1_Number b.1.1 <= b_Number head) (sealed l)) (0, ∅));
  log_LatestSealedBlock := fun l => (fun b => L1BlockRef_ID b.1.1) <$> top (sealed l);
  log_FindSealedBlock := fun l n => b ← find_block l n; Ok (BlockSealFromRef b.1.1);
  log_Contains := fun l q =>
    b ← find_block l (q_BlockNum q);
    if (l1_Time b.1.1 =? q_Timestamp q) && (q_LogIdx q <? b.1.2) then Ok (BlockSealFromRef b.1.1) else Err ErrConflict;
  log_OpenBlock := find_block;
|}.

(** ** Derivation databases in files *)

#[export] Instance links_file : EntryStore (list Z) File.EntryDB := File.file_store fromda_EntrySize.

#[export] Instance links_laws :
  EntryStoreLaws (list Z) File.EntryDB (fun e => zlen e = fromda_EntrySize) (db_contents fromda_EntrySize)
    (db_good fromda_EntrySize).
Proof. apply file_store_laws. done. Qed.

(** An empty file whose writes fail as in the script. *)
Definition empty_file (faults : list (option Z)) : File.EntryDB := File.mkEntryDB (File.mkFile [] faults) (-1) false.

Abbreviation Supervisor := (ChainsDB StaticConfigDependencySet logs_db File.EntryDB) (only parsing).

Definition add_chain (c : Z) (db : Supervisor) : Supervisor :=
  AddCrossUnsafeTracker c (AddCrossDerivationDB c (empty_file [])
    (AddLocalDerivationDB c (empty_file []) (AddLogDB c (mkLogsDB [] (0, ∅)) db))).

Definition fresh : Supervisor := add_chain 902 (add_chain 901 (NewChainsDB depset)).

(** ** Histories of both chains *)

Definition run {A} (op : stage Supervisor A) (db : Supervisor) : Supervisor := (op db).2.

(** The L2 block [n] of chain [c], derived from the L1 block [s]. *)
Definition from (c n s : Z) : DerivedBlockRefPair := mkRefPair (block 3 s) (block c n).

(** A chain that is derived up to block 2 from L1 block 1. *)
Definition derive_chain (c : Z) (db : Supervisor) : Supervisor :=
  run (OnEvent (LocalDerivedEvent (900 + c) (from c 2 1) "node"))
    (run (OnEvent (LocalDerivedEvent (900 + c) (from c 1 1) "node"))
      (run (OnEvent (LocalDerivedEvent (900 + c) (from c 0 1) "node"))
        (run (OnEvent (AnchorEvent (900 + c) (from c 0 0))) db))).

(** A block with one log, executing a message or not. *)
Definition add_sealed (c n : Z) (m : option ExecutingMessage) (db : Supervisor) : Supervisor :=
  run (SealBlock (900 + c) (block c n))
    (run (AddLog (900 + c) (toy_hash 200) (L1BlockRef_ID (block c (n - 1))) 0 m) db).

(** Block 2 of chain 1 executes a message of block 2 of chain 2, whose block 1
    executes a message that was never sent. *)
Definition history : Supervisor :=
  add_sealed 2 2 None (add_sealed 2 1 (Some (message 1 1 5))
    (add_sealed 1 2 (Some (message 2 2 0)) (add_sealed 1 1 None (derive_chain 1 (derive_chain 2 fresh))))).

(** *** They are histories of the database *)

#[local] Existing Instance Toy.digest.

Definition reached (db : Supervisor) : Prop := rtc (db_step num_of) fresh db.

Lemma reached_run {A} (op : stage Supervisor A) db :
  (forall r db', op db = (r, db') -> db_step num_of db db') -> reached db -> reached (run op db).
Proof. intros Hop Hr. apply rtc_r with db; [done |]. apply (Hop (op db).1), surjective_pairing. Qed.

Lemma reached_event ev db : event_ok num_of ev -> reached db -> reached (run (OnEvent ev) db).
Proof. intros He. apply reached_run. intros r db' Hr. by apply (step_event _ ev r). Qed.

Lemma reached_safe c db : reached db -> reached (run (CrossSafeUpdate all_first c) db).
Proof. apply reached_run. intros r db' Hr. by apply (step_safe _ all_first c r). Qed.

Lemma reached_add_sealed c n m db : reached db -> reached (add_sealed c n m db).
Proof.
  intros Hr. apply reached_run; [intros r db'; apply step_seal |].
  apply reached_run; [intros r db'; apply step_add_log | done].
Qed.

Lemma from_ok c n s : c ∈ [1; 2] -> n ∈ [0; 1; 2] -> s ∈ [0; 1] -> src_ok (rp_Source (from c n s)) /\ drv_ok num_of (rp_Derived (from c n s)).
Proof. intros Hc Hn Hs. set_unfold in Hc. set_unfold in Hn. set_unfold in Hs. destruct_or!; subst; by repeat split. Qed.

Lemma reached_derive_chain c db : c ∈ [1; 2] -> reached db -> reached (derive_chain c db).
Proof. intros Hc Hr. unfold derive_chain. repeat (apply reached_event; [apply from_ok; set_solver |]). exact Hr. Qed.

Lemma reached_history : reached history.
Proof. unfold history. do 4 apply reached_add_sealed. do 2 (apply reached_derive_chain; [set_solver |]). apply rtc_refl. Qed.

(** What the files hold. *)
Abbreviation links := (db_contents fromda_EntrySize) (only parsing).
Abbreviation file_ok := (db_good fromda_EntrySize) (only parsing).

Lemma fresh_ok : chains_ok (contents := links) (good := file_ok) num_of fresh.
Proof.
  assert (sane (contents := links) (good := file_ok) num_of (empty_file [])) as Hs by (exists []; split; [split; [| by split] | apply db_ok_nil]; by repeat split).
  assert (~ started (empty_file [])) as Hn by (intros H; by apply H).
  assert (forall c s, localDBs fresh !! c = Some s \/ crossDBs fresh !! c = Some s -> s = empty_file []) as He.
  { intros c s. cbn. rewrite !lookup_insert_Some, !lookup_empty. intuition congruence. }
  intros c. split.
  - intros s H. by rewrite (He c s) by auto.
  - intros s H. by rewrite (He c s) by auto.
  - intros l x H _ Hl. rewrite (He c l) in Hl by auto. done.
  - intros H. cbn in H. set_solver.
Qed.

(** The logs of both chains have indexes that are not negative. *)
Definition logs_typed (db : Supervisor) : Prop :=
  map_Forall (fun _ l => Forall (fun b => 0 <= b.1.2 /\ map_Forall (fun i _ => 0 <= i) b.2) (sealed l)) (logDBs db).

#[export] Instance logs_typed_dec db : Decision (logs_typed db).
Proof. unfold logs_typed. apply _. Defined.

Lemma logs_typed_open db : logs_typed db -> open_typed (OpenBlock db).
Proof.
  intros Hd c n bl k msgs Ho. apply bind_ok in Ho as (l & Hl & Ho). unfold get_db in Hl. cbn in Ho. unfold find_block in Ho.
  destruct (logDBs db !! c) as [l' |] eqn:E; [| done]. injection Hl as ->. specialize (Hd c l E). cbn in Hd.
  destruct (list_find _ (sealed l)) as [[i b] |] eqn:Ef; [| done]. injection Ho as ->.
  apply list_find_Some in Ef as (Hi & _). rewrite Forall_lookup in Hd. exact (Hd i _ Hi).
Qed.

End ToyInterop.
