(* ===== verification/GameTheorems.v ===== *)
(** The properties of dispute games (op-challenger/game/fault and the
    resolution of op-dispute-mon), each with an instance. *)
From Stdlib Require Import ZArith Lia.
From stdpp Require Import base gmap list strings numbers.
From S2P Require Import Prelude Exec Position Claims Trace Solver Rules Resolution GameProps.
From S2P Require Import Honest SolverProps ResolutionProps Extend TraceProps ToyGame.

Import Game.


(** The status a game should have. *)
Definition right_status (D : Z) (T : Z -> hash) (cs : list Claim) : GameStatus :=
  match cs with
  | r :: _ => if correct D T r then GameStatusDefenderWon else GameStatusChallengerWon
  | [] => GameStatusDefenderWon
  end.

Section Play.
Context {K : Keccak} {L2 : L2Types} (D : Z) (T : Z -> hash) (prov : TraceProvider) {TL : TraceLaws D T prov}.
Context (vm : hash -> hash -> Prop) (abs : hash) (VR : vm_runs D T vm abs).






End Play.

(** ** Ids of claims *)

Section Ids.
Context {K : Keccak} (D : Z) (T : Z -> hash) (cs : list Claim).
Context (G : game_ok D cs) (Hlen : (length cs <= 255)%nat).
Context (Hroot : forall r, cs !! 0%nat = Some r -> ParentContractIndex r = root_parent).
Context (Hval : forall c, c ∈ cs -> length (value c) = 32%nat) (HT : forall i, length (T i) = 32%nat).

Lemma child_short p c : child D cs p c -> length (value c) = 32%nat -> short_ids c.
Proof.
  intros Hch Hv. destruct (child_node D cs G p c Hch) as [Hp _ _]. pose proof (child_depth D cs G p c Hch).
  destruct Hch as (j & Hj & E & _). pose proof (lookup_lt_Some _ _ _ Hj). split; [done | done |]. right. rewrite E.
  split; [lia |]. intros E0. assert (j = 0%nat) as -> by lia. destruct (root_at D cs G p Hj) as [Er _].
  rewrite Er, RootPosition_eq in *. done.
Qed.

Lemma claim_short i c : cs !! i = Some c -> short_ids c.
Proof.
  intros Hc. pose proof (Hval c ltac:(by eapply list_elem_of_lookup_2)) as Hv. destruct i as [|i].
  - split; [done | by apply (claim_node D cs G 0) |]. left. split; [by apply (root_at D cs G) | by apply Hroot].
  - destruct (claim_child D cs G i c Hc) as (j & p & _ & _ & _ & Hch). by apply (child_short p).
Qed.

Lemma compared_short a : a ∈ compared D T cs -> short_ids a.
Proof.
  intros [[[i Hi]%list_elem_of_lookup | Ha]%elem_of_app | Ha]%elem_of_app; [by apply (claim_short i) | |].
  - apply list_elem_of_fmap in Ha as (c & -> & Ho). pose proof Ho as [_ [i Hi]%list_elem_of_lookup]%list_elem_of_filter.
    apply (child_short c); [by apply (hmove_child D cs G T c i) | apply HT].
  - apply list_elem_of_fmap in Ha as (c & -> & [Hd [i Hi]%list_elem_of_lookup]%list_elem_of_filter).
    destruct (claim_node D cs G i c Hi) as [Hp _ _]. pose proof (go_depth D cs G). pose proof (lookup_lt_Some _ _ _ Hi).
    split; [done | done |]. right. cbn [step_probe ParentContractIndex Data_ Pos]. rewrite (go_index D cs G i c Hi).
    split; [lia |]. intros E0. assert (i = 0%nat) as -> by lia. destruct (root_at D cs G c Hi) as [Er _].
    rewrite Er, RootPosition_eq in Hd. cbn in Hd. lia.
Qed.

(** In a game of at most 255 claims the id of a claim identifies it among
    all claims that are compared while the game is played, unless the hash has
    a collision on the encodings of two of these claims. *)
Theorem claim_ids_small_games :
  (forall a b, a ∈ compared D T cs -> b ∈ compared D T cs -> ID a = ID b -> id_bytes a = id_bytes b) ->
  ids_distinct (compared D T cs).
Proof. intros H a b Ha Hb E. apply id_bytes_inj; [by apply compared_short .. | by apply H]. Qed.

End Ids.

(** C33. The id of a claim is ambiguous, because its three parts are concatenated
    without padding: even with a digest that has no collision there is a valid
    game of 269 claims, with a wrong root claim, in which the honest answer to
    the last claim has the id of another claim. The solver takes the answer for
    a duplicate and has nothing to do, and the wrong root claim wins. *)
Theorem claim_id_collision :
  exists (K : Keccak) (L2 : L2Types) D T (prov : TraceProvider) cs,
    (forall a b, keccak256 a = keccak256 b -> a = b) /\ TraceLaws D T prov /\ game_ok D cs /\ length cs = 269%nat /\
    Forall (fun c => length (value c) = 32%nat /\ CounteredBy c = Address0) cs /\
    CalculateNextActions (solver_of D prov) (NewGameState cs D) = Ok ([], None) /\
    right_status D T cs = GameStatusChallengerWon /\
    exists tree, CreateBidirectionalTree cs = Ok tree /\ fst (Resolve tree) = GameStatusDefenderWon.
Proof.
  exists ToyGame.plain, ToyGame.l2, 12, ToyGame.T, (ToyGame.provider 12), ToyGame.collision.
  split; [done |]. split; [by apply ToyGame.provider_laws |]. split; [by apply game_check_ok; vm_compute |].
  split; [by vm_compute |]. split.
  { apply (bool_decide_eq_true_1 _). by vm_compute. }
  split; [by vm_compute |]. split; [by vm_compute |].
  destruct (CreateBidirectionalTree ToyGame.collision) as [t | |] eqn:E; [| by vm_compute in E ..].
  exists t. split; [done |]. assert (match CreateBidirectionalTree ToyGame.collision with
    Ok t => fst (Resolve t) | _ => GameStatusInProgress end = GameStatusDefenderWon) as R by (by vm_compute).
  by rewrite E in R.
Qed.

(** ** Positions and traces *)

(** Generalized indexes and positions are in bijection: the generalized index
    of a position is decoded to the position, and every positive index whose
    depth fits is the index of its decoding, a well-formed position. *)
Theorem gindex_roundtrip p x :
  pos_ok p -> 0 < x -> Z.log2 x < 2 ^ 63 ->
  NewPositionFromGIndex (ToGIndex p) = p /\
  pos_ok (NewPositionFromGIndex x) /\ ToGIndex (NewPositionFromGIndex x) = x.
Proof. intros Hp Hx Hl. split; [by apply FromGIndex_ToGIndex |]. split; [by apply FromGIndex_ok | by apply ToGIndex_FromGIndex]. Qed.

(** Moves bisect the trace: an attack moves to the middle of the range on the
    left of the claim and a defence to the middle of the range on its right, the
    new range being half as long; [RightOf] tells the two apart. *)
Theorem moves_bisect D p :
  node_ok D p -> depth p < D < 2 ^ 63 ->
  node_ok D (Attack p) /\ TraceIndex D (Attack p) = Ok (ti D p - 2 ^ (D - depth p - 1)) /\ RightOf p (Attack p) = false /\
  (depth p <> 0 ->
    node_ok D (Defend p) /\ TraceIndex D (Defend p) = Ok (ti D p + 2 ^ (D - depth p - 1)) /\ RightOf p (Defend p) = true).
Proof.
  intros Hn HD. pose proof Hn as [Hp Hd He]. pose proof (node_Attack D p Hn HD) as Ha.
  split; [done |]. split; [rewrite TraceIndex_ok by (try apply Ha; pose proof (no_depth _ _ Ha); lia); f_equal; apply ti_Attack; (done || lia) |].
  split; [by apply RightOf_Attack |]. intros H0. pose proof (node_Defend D p Hn H0 HD) as Hdf.
  split; [done |]. split; [rewrite TraceIndex_ok by (try apply Hdf; pose proof (no_depth _ _ Hdf); lia); f_equal; apply ti_Defend; (done || lia) |].
  by apply RightOf_Defend.
Qed.

(** The provider of a split game, for a claim at or below the split and a
    position the solver asks about when it answers the claim: the bottom trace
    is created between two claims of the top game whose trace indexes are
    adjacent (or before the first state of the top trace), the position lies
    strictly between them, and the bottom trace has the depth that is left. *)
Theorem split_game_claims_adjacent {K : Keccak} {L2 : L2Types} D cs top i ref pos
    (topProvider : TraceProvider) (creator : ProviderCreator) :
  game_ok D cs -> 1 <= top < D ->
  cs !! i = Some ref -> top <= depth (position ref) -> asked D cs ref pos -> top < depth pos ->
  exists pre post,
    NewSplitProviderSelector topProvider top creator (NewGameState cs D) ref pos =
      (provider ← creator (D - top - 1) pre post; Ok (Translate provider (top + 1))) /\
    (exists j, cs !! j = Some post) /\ depth (position post) <= top /\ ti D pos < ti D (position post) /\
    if ti top (position post) =? 0 then pre = Claim0
    else (exists j, cs !! j = Some pre) /\ depth (position pre) <= top /\
      ti top (position pre) + 1 = ti top (position post) /\ ti D (position pre) < ti D pos.
Proof. intros G Ht Hi Hd Ha Hp. by apply (split_selects D cs G top Ht i). Qed.

(** A translated provider asks the inner provider for the position relative
    to the root of the bottom game: its trace index in the bottom game is the
    index in the whole game modulo the length of the bottom trace. *)
Theorem translate_relative {L2 : L2Types} D root pos (prov : TraceProvider) :
  pos_ok pos -> 0 <= root <= depth pos -> depth pos <= D < 2 ^ 63 -> depth pos - root < 64 ->
  exists rel, pos_ok rel /\ depth rel = depth pos - root /\
    TraceIndex (D - root) rel = Ok (ti D pos mod 2 ^ (D - root)) /\
    Get (Translate prov root) pos = Get prov rel /\ GetStepData (Translate prov root) pos = GetStepData prov rel.
Proof.
  intros Hp Hr HD H64. pose proof (Relative_eq root pos Hp Hr H64) as E.
  set (rel := NewPosition (depth pos - root) (IndexAtDepth pos mod 2 ^ (depth pos - root))) in E. assert (pos_ok rel) as Hrel.
  { pose proof (po_depth _ Hp). apply NewPosition_ok; [lia |]. apply Z.mod_pos_bound, pow2_pos. lia. }
  exists rel. split; [done |]. split; [done |]. split; [| cbn [Get GetStepData Translate]; rewrite E; done].
  rewrite TraceIndex_ok by (try exact Hrel; cbn; lia). f_equal. subst rel. unfold ti.
  cbn [depth NewPosition IndexAtDepth indexAtDepth]. replace (D - root - (depth pos - root)) with (D - depth pos) by lia.
  set (a := 2 ^ (D - depth pos)). set (b := 2 ^ (depth pos - root)).
  assert (2 ^ (D - root) = a * b) as -> by (unfold a, b; rewrite <- Z.pow_add_r by lia; f_equal; lia).
  assert (0 < a) by (apply pow2_pos; lia). assert (0 < b) by (apply pow2_pos; lia).
  pose proof (Z.div_mod (IndexAtDepth pos) b ltac:(lia)). pose proof (Z.mod_pos_bound (IndexAtDepth pos) b ltac:(lia)).
  apply (Z.mod_unique_pos _ _ (IndexAtDepth pos / b)); nia.
Qed.

(** The alphabet trace satisfies the laws the solver relies on: its values
    are the state hashes of the alphabet VM one step later, step data hold the
    pre-image of the previous value, and its L2 block number is never disputed. *)
Theorem alphabet_trace_laws {K : Keccak} {L2 : L2Types} start D :
  0 <= start < 2 ^ 250 -> 1 <= D < 64 ->
  TraceLaws D (alphabet_trace start) (Alphabet.provider (Alphabet.NewTraceProvider start D)).
Proof. apply alphabet_laws. Qed.

(** ** Instances *)

Module GameInstances.
Import ToyGame.
#[local] Existing Instances plain l2.

#[local] Instance laws3 : TraceLaws 3 T (provider 3).
Proof. by apply provider_laws. Qed.







Lemma claim_ids_small_games_witness : ids_distinct (compared 3 T small).
Proof.
  apply (claim_ids_small_games 3 T small).
  - apply game_check_ok. by vm_compute.
  - cbn. lia.
  - intros r Hr. by injection Hr as <-.
  - assert (Forall (fun c => length (value c) = 32%nat) small) as H by (apply (bool_decide_eq_true_1 _); by vm_compute).
    intros c Hc. by apply (proj1 (Forall_forall _ _) H), list_elem_of_In.
  - intros i. unfold T. cbn [length]. by rewrite length_be_encode.
  - intros a b _ _ E. exact E.
Defined.

Lemma gindex_roundtrip_witness :
  NewPositionFromGIndex (ToGIndex (NewPosition 3 4)) = NewPosition 3 4 /\
  pos_ok (NewPositionFromGIndex 12) /\ ToGIndex (NewPositionFromGIndex 12) = 12.
Proof. apply gindex_roundtrip; [by apply NewPosition_ok | done | done]. Defined.

Lemma moves_bisect_witness :
  TraceIndex 4 (Attack (NewPosition 1 0)) = Ok 3 /\ TraceIndex 4 (Defend (NewPosition 1 0)) = Ok 11.
Proof.
  destruct (moves_bisect 4 (NewPosition 1 0)) as (_ & E1 & _ & H); [split; [by apply NewPosition_ok | done | done] | done |].
  destruct H as (_ & E2 & _); [done |]. split; [exact E1 | exact E2].
Defined.

Lemma split_game_claims_adjacent_witness :
  exists pre post,
    NewSplitProviderSelector (provider 3) 1 (fun _ _ _ => Ok (provider 1)) (NewGameState small 3)
      (claim 2 1 4 (bad 2) (addr 2)) (NewPosition 3 0) =
      (provider ← Ok (provider 1); Ok (Translate provider (1 + 1))) /\
    (exists j, small !! j = Some post) /\ depth (position post) <= 1 /\ ti 3 (NewPosition 3 0) < ti 3 (position post) /\
    if ti 1 (position post) =? 0 then pre = Claim0
    else (exists j, small !! j = Some pre) /\ depth (position pre) <= 1 /\
      ti 1 (position pre) + 1 = ti 1 (position post) /\ ti 3 (position pre) < ti 3 (NewPosition 3 0).
Proof.
  apply (split_game_claims_adjacent 3 small 1 2); [apply game_check_ok; by vm_compute | done | by vm_compute | done | | done].
  right. exists (claim 3 2 8 (T_value 8) (addr 1)). split; [| done].
  exists 2%nat. split; [by vm_compute |]. split; [done |]. split; [done |]. by left.
Defined.

Lemma translate_relative_witness :
  exists rel, pos_ok rel /\ depth rel = 5 - 2 /\ TraceIndex (6 - 2) rel = Ok (ti 6 (NewPosition 5 20) mod 2 ^ (6 - 2)) /\
    Get (Translate (provider 4) 2) (NewPosition 5 20) = Get (provider 4) rel /\
    GetStepData (Translate (provider 4) 2) (NewPosition 5 20) = GetStepData (provider 4) rel.
Proof. apply (translate_relative 6 2 (NewPosition 5 20)); [by apply NewPosition_ok | done | done | done]. Defined.

Lemma alphabet_trace_laws_witness :
  TraceLaws 4 (alphabet_trace 100) (Alphabet.provider (Alphabet.NewTraceProvider 100 4)).
Proof. apply (alphabet_trace_laws 100 4); done. Defined.

End GameInstances.
