(* ===== verification/InteropTheorems.v ===== *)
(** The properties of the promotion of blocks across chains
    (op-supervisor/supervisor/backend/cross) and of access lists
    (supervisor/types), each with an instance. *)
From Stdlib Require Import ZArith Lia.
From stdpp Require Import base gmap list strings numbers relations.
From S2P Require Import Prelude Codec Rollup Frames Interop Cross EntryDB FromDA ChainsDB.
From S2P Require Import CycleProps HazardProps AccessProps Toy ToyInterop.

(** ** Cycles *)

Section Cross.
Context {K : Keccak} {D : Type} `{DependencySet D}.

(** C12. The cycle check decides, in whatever order the maps are visited: once the
    logs of the hazard blocks are gathered, an executing message of a chain
    outside of the set or of itself is refused, and otherwise the check succeeds
    exactly if no log depends on itself through the previous log of its block and
    through executing messages that are executed by others in turn. *)
Theorem cycle_check_decides (depSet : D) open t (sch : Z -> choices) (ch : choices) (hazards : HazardSet) (l : logs) :
  open_typed open -> gatherLogs depSet open t (sch 0) hazards = Ok l ->
  gathered depSet open t hazards l /\
  let r := HazardCycleChecks depSet open t sch ch hazards in
  (messages_ok hazards l /\
     (r = Ok () /\ (forall a, ~ tc (dep_edge l) a a) \/ r = Err ErrCycle /\ exists a, tc (dep_edge l) a a)) \/
  (~ messages_ok hazards l /\ (r = Err ErrExecMsgUnknownChain \/ r = Err ErrConflict)).
Proof. intros Ht Hl. split; [by eapply gatherLogs_ok | by apply HazardCycleChecks_decides]. Qed.

(** ** Hazards *)

(** C13. The hazards of a block are found after at most one round per chain of the
    dependency set and one for the block, whatever messages the blocks hold: the
    search ends with a set or an error; the set has every block of the timestamp
    that the block depends on, directly or through others, and all their messages
    were checked. *)
Theorem hazard_set_terminates {good : D -> Prop} {DL : DependencySetLaws D good} (sch : nat -> choices)
    (deps : HazardDeps D) (c : ChainID) (b : BlockSeal) :
  deps_total deps -> good (hd_DependencySet deps) ->
  (exists e, NewHazardSet sch deps c b = Err e) \/
  exists h, NewHazardSet sch deps c b = Ok h /\ block_checked deps h c b /\
    forall i b', Entries h !! i = Some b' ->
      exists c', ChainIDFromIndex (hd_DependencySet deps) i = Ok c' /\ block_checked deps h c' b'.
Proof.
  intros Ht Hg. pose proof (NewHazardSet_total deps sch c b Ht Hg) as Hn.
  destruct (NewHazardSet sch deps c b) as [h | e | e] eqn:E; [right | left; eauto | by destruct (Hn e)].
  exists h. split; [done |]. by eapply NewHazardSet_closed.
Qed.

(** ** Promotion *)


(** An update of the cross-unsafe head changes nothing, or it hands the block on
    top of the head to the database after its checks: messages and cycles as for
    cross-safe blocks, and every block it depends on in its timestamp is
    cross-unsafe or the known child of a cross-unsafe block. *)
Theorem cross_unsafe_promotion {S : Type} `{LD : !LogDeps D S} `{CD : !CrossUnsafeDeps D S} (o : orders) (c : ChainID)
    (s : S) (r : outcome unit) (s' : S) :
  open_typed (OpenBlock s) -> CrossUnsafeUpdate o c s = (r, s') ->
  s' = s \/
  exists head b ref n msgs, CrossUnsafe s c = Ok head /\
    OpenBlock s c (uadd 64 (s_Number head) 1) = Ok (ref, n, msgs) /\ l1_ParentHash ref = s_Hash head /\ b = BlockSealFromRef ref /\
    promotable (UnsafeHazardDeps s) (unsafe_frontier s) c b /\ UpdateCrossUnsafe c b s = (r, s').
Proof. apply cross_unsafe_cases. Qed.

End Cross.

(** ** Access lists *)

(** An access list that is encoded and parsed again is the same list: accesses
    whose fields fit their widths, with any 256-bit chain id and a checksum with
    its version byte. *)
Theorem access_list_parses (accs : list Access) :
  Forall access_ok accs ->
  exists es, EncodeAccessList accs = Ok es /\ parse_access_list (length accs) es = Ok accs.
Proof. intros Hok. by apply access_list_roundtrip. Qed.

(** C40. An executing descriptor is accepted exactly if the message is older than the
    execution and the whole span of the execution is within the expiry window,
    without a wrap-around of 64-bit arithmetic anywhere. *)
Theorem access_window (ed : ExecutingDescriptor) (window init : Z) :
  in_range 64 (ed_Timestamp ed) -> in_range 64 (ed_Timeout ed) -> in_range 64 window -> in_range 64 init ->
  AccessCheck ed window init = Ok () <->
  init < ed_Timestamp ed /\ ed_Timestamp ed + ed_Timeout ed <= init + window < 2 ^ 64.
Proof. apply AccessCheck_spec. Qed.

(** ** Instances *)

Import ToyInterop.
#[local] Existing Instance Toy.digest.

Lemma cycle_check_decides_witness :
  let open := two_blocks (message 2 1 0) (message 1 1 0) in
  HazardCycleChecks depset open 102 (fun _ => first_choice) first_choice both_blocks = Err ErrCycle /\
  exists l, gathered depset open 102 both_blocks l /\ exists a, tc (dep_edge l) a a.
Proof.
  intros open. assert (exists l, gatherLogs depset open 102 first_choice both_blocks = Ok l) as [l E] by (eexists; vm_compute; reflexivity).
  assert (Hr : HazardCycleChecks depset open 102 (fun _ => first_choice) first_choice both_blocks = Err ErrCycle) by (vm_compute; reflexivity).
  destruct (cycle_check_decides depset open 102 (fun _ => first_choice) first_choice both_blocks l (two_blocks_typed _ _) E)
    as [Hg Hd]. rewrite Hr in Hd. split; [exact Hr |]. exists l. split; [exact Hg |].
  destruct Hd as [[_ [[Hx _] | [_ Hc]]] | [_ [Hx | Hx]]]; [discriminate Hx | exact Hc | discriminate Hx | discriminate Hx].
Defined.

Lemma hazard_set_terminates_witness :
  let deps := two_deps (message 2 1 0) (message 1 1 0) in
  exists h, NewHazardSet (fun _ => first_choice) deps 901 (seal 1 1) = Ok h /\ block_checked deps h 901 (seal 1 1).
Proof.
  intros deps. assert (Ht : deps_total deps) by (split_and!; intros; cbn; unfold two_blocks; repeat case_match; done).
  destruct (hazard_set_terminates (fun _ => first_choice) deps 901 (seal 1 1) Ht depset_hydrated) as [[e He] | (h & Hh & Hb & _)].
  - vm_compute in He. discriminate He.
  - exists h. by split.
Defined.

(** Chain 1 advances to its block 1, then to block 2. *)
Definition advanced : Supervisor :=
  run (CrossSafeUpdate all_first 901) (run (CrossSafeUpdate all_first 901) (run (CrossSafeUpdate all_first 902) history)).

Definition ahead : Supervisor := run (CrossSafeUpdate all_first 901) advanced.

Lemma history_typed : logs_typed history.
Proof. apply (bool_decide_unpack (logs_typed history)). vm_compute. exact I. Qed.



Lemma cross_unsafe_promotion_witness :
  (CrossUnsafeUpdate all_first 901 history).1 = Ok () /\
  promotable (UnsafeHazardDeps history) (unsafe_frontier history) 901 (seal 1 1).
Proof.
  split; [vm_compute; reflexivity |].
  destruct (cross_unsafe_promotion all_first 901 history _ _ (logs_typed_open _ history_typed)
    (surjective_pairing _)) as [He | (head & b & ref & n & msgs & Hh & Ho & _ & -> & Hp & _)].
  - apply (f_equal (fun db => crossUnsafe db !! 901)) in He. vm_compute in He. discriminate He.
  - vm_compute in Hh. injection Hh as <-. vm_compute in Ho. injection Ho as <- _ _. exact Hp.
Defined.

Definition an_access : Access :=
  mkAccess 7 102 3 (2 ^ 200 + 5) (PrefixChecksum :: replicate 31 9).

Lemma access_list_parses_witness :
  exists es, EncodeAccessList [an_access; an_access] = Ok es /\ parse_access_list 2 es = Ok [an_access; an_access].
Proof. apply access_list_parses. by repeat constructor. Defined.

Lemma access_window_witness :
  AccessCheck (mkExecutingDescriptor 110 5) 20 100 = Ok () /\ AccessCheck (mkExecutingDescriptor 110 (2 ^ 64 - 1)) 20 100 <> Ok ().
Proof.
  split.
  - apply access_window; [done.. |]. cbn. lia.
  - intros H. apply access_window in H; [| done..]. cbn in H. lia.
Defined.

(** ** Gaps *)

(** C34. The edges of the graph are fewer than the messages: an executing message is
    skipped when the message it executes is not itself an executing one. Two
    blocks of one timestamp whose first logs execute each other's second log
    depend on themselves - the first log of chain 1 precedes its second, which
    the first log of chain 2 executes, which precedes the log that the first log
    of chain 1 executes - and pass the check, although the blocks are exactly the
    hazards of the candidate. *)
Theorem cycle_missed :
  let deps := two_deps (message 2 1 1) (message 1 1 1) in
  exists hazards l,
    NewHazardSet (fun _ => first_choice) deps 901 (seal 1 1) = Ok hazards /\
    gatherLogs depset (hd_OpenBlock deps) 102 first_choice hazards = Ok l /\
    HazardCycleChecks depset (hd_OpenBlock deps) 102 (fun _ => first_choice) first_choice hazards = Ok () /\
    tc (fun a b => next_log (fun c => logCounts l !! c) a b \/ executes l a b) (mkNode 1 0) (mkNode 1 0).
Proof.
  intros deps. do 2 eexists. split; [vm_compute; reflexivity |]. split; [vm_compute; reflexivity |].
  split; [vm_compute; reflexivity |].
  apply tc_l with (mkNode 1 1); [left; split_and!; try done; exists 2; done |].
  apply tc_l with (mkNode 2 0); [right; by exists (message 1 1 1) |].
  apply tc_l with (mkNode 2 1); [left; split_and!; try done; exists 2; done |].
  apply tc_once. right. by exists (message 2 1 1).
Qed.

(** The message that block 2 of chain 1 executes. *)
Definition late_message : ExecutingMessage := message 2 2 0.

(** C25. A block can become cross-safe before the blocks below those it depends on: the frontier check compares
    a hazard block with the candidate of its chain only when both have the same
    height, so block 2 of chain 1 becomes cross-safe while it executes a message of
    block 2 of chain 2, whose block 1 is not cross-safe. Block 1 of chain 2 executes
    a message that does not exist; the next update invalidates it, the message is
    gone, and block 2 of chain 1 is still cross-safe. *)
Theorem promotion_skips_parents :
  reached advanced /\
  (exists ref, q_OpenBlock advanced 901 2 = Ok (ref, 1, {[0 := late_message]})) /\
  let db := run (CrossSafeUpdate all_first 901) advanced in
  q_CrossSafe db 901 = Ok (mkSealPair (seal 3 1) (seal 1 2)) /\
  q_CrossSafe db 902 = Ok (mkSealPair (seal 3 1) (seal 2 0)) /\
  safe_checks all_first 902 db (CandidateCrossSafe db 902).1 = Err ErrConflict /\
  let db := run (CrossSafeUpdate all_first 902) db in
  q_CrossSafe db 901 = Ok (mkSealPair (seal 3 1) (seal 1 2)) /\
  q_Contains db 902 (message_query 902 late_message) = Err ErrFuture.
Proof.
  split; [do 3 apply reached_safe; apply reached_history |].
  split; [eexists; vm_compute; reflexivity |]. cbv zeta. split_and!; vm_compute; reflexivity.
Qed.
