(* ===== verification/SupervisorTheorems.v ===== *)
(** The properties of the databases of op-supervisor
    (supervisor/backend/db: entrydb, fromda and the databases of all chains), each
    with an instance. *)
From Stdlib Require Import ZArith Lia.
From stdpp Require Import base gmap list strings numbers relations.
From S2P Require Import Prelude Codec Rollup Frames Interop Cross EntryDB FromDA Locks.
From S2P Require Import ChainsDB FromDAProps ChainsProps Toy ToyInterop.

(** ** The store of entries *)

(** C22. A file of entries implements a list of entries although writes can stop
    after any number of bytes and truncations can fail: reading, appending and
    truncating do what they do on the list, or return an error and leave the list
    as it is. *)
Theorem entry_file_refines_list (EntrySize : Z) :
  0 < EntrySize ->
  @EntryStoreLaws (list Z) File.EntryDB (File.file_store EntrySize) (fun e => zlen e = EntrySize)
    (db_contents EntrySize) (db_good EntrySize).
Proof. apply file_store_laws. Qed.

(** ** The derivation database *)

Section Derivation.
Variable num_of : hash -> Z.
Context {St : Type} `{ES : !EntryStore (list Z) St} {contents : St -> list (list Z)} {good : St -> Prop}.
Context `{SL : !EntryStoreLaws (list Z) St (fun e => zlen e = fromda_EntrySize) contents good}.

(** C14. Whatever is added, invalidated, replaced and rewound, with operations that
    fail in between, the entries stay in order: every entry follows the one before
    it by one L2 block of the same L1 block or by one L1 block, only the last one
    can be invalidated, revisions never decrease, and within a revision neither do
    the L2 blocks. *)
Theorem derivation_db_ordered (s : St) :
  db_reach num_of (contents := contents) (good := good) s ->
  exists L, holds (contents := contents) (good := good) s L /\
    (forall i a b, L !! i = Some a -> L !! S i = Some b -> link_step a b) /\
    forall i j a b, (i <= j)%nat -> L !! i = Some a -> L !! j = Some b ->
      s_Number (source a) <= s_Number (source b) /\ revision a <= revision b /\
      (revision a = revision b -> s_Number (derived a) <= s_Number (derived b)).
Proof using SL.
  intros Hr. destruct (db_reach_ok num_of s Hr) as (L & Hh & Hd). exists L. split_and!; [done | apply (ok_step _ _ Hd) |].
  intros i j a b Hij Ha Hb. by destruct (db_order num_of L i j a b Hd Hij Ha Hb) as (? & ? & ? & _).
Qed.


(** The L2 block that is reported for an L1 block is the one of its last entry,
    unless that is invalidated, and the L1 block that is reported for an L2 block
    of a revision is the one of its first entry in that revision. *)
Theorem derivation_queries (s : St) (L : list LinkEntry) (id : BlockID) (b : BlockSeal) (r : Revision) :
  holds (contents := contents) (good := good) s L -> db_ok num_of L -> 0 <= r < 2 ^ 63 ->
  (SourceToLastDerived s id = Ok b <->
   exists i e, L !! i = Some e /\ seal_ID (source e) = id /\ derived e = b /\ invalidated e = false /\
               forall j x, (i < j)%nat -> L !! j = Some x -> b_Number id < s_Number (source x)) /\
  (DerivedToFirstSource s id r = Ok b <->
   exists i e, L !! i = Some e /\ seal_ID (derived e) = id /\ revision e = r /\ source e = b /\
               forall j x, (j < i)%nat -> L !! j = Some x ->
                 revision x < r \/ revision x = r /\ s_Number (derived x) < b_Number id).
Proof using SL. intros Hh Hd Hr. split; [by eapply SourceToLastDerived_spec | by eapply DerivedToFirstSource_spec]. Qed.

(** C20. A block that is invalidated is the last entry of the database, with a new
    revision of its height, on top of entries that were there before; until it is
    replaced, the head is not available and nothing can be added; and a replacement
    of the same height takes its place, with its source and revision. *)
Theorem invalidation_protocol (s s' : St) (L : list LinkEntry) (inv : DerivedBlockRefPair) :
  holds (contents := contents) (good := good) s L -> db_ok num_of L -> src_ok (rp_Source inv) ->
  drv_ok num_of (rp_Derived inv) -> l1_Hash (rp_Derived inv) <> zero_hash -> RewindAndInvalidate inv s = (Ok (), s') ->
  exists L0 d, L0 `prefix_of` L /\ holds (contents := contents) (good := good) s' (L0 ++ [d]) /\
    d = mkLink (BlockSealFromRef (rp_Source inv)) (BlockSealFromRef (rp_Derived inv)) (l1_Number (rp_Derived inv)) true /\
    Last s' = Err ErrAwaitReplacementBlock /\ Invalidated s' = Ok (mkSealPair (source d) (derived d)) /\
    (forall src drv rev, AddDerived src drv rev s' = (Err ErrAwaitReplacementBlock, s')) /\
    forall drv pair s'', drv_ok num_of drv -> l1_Hash drv <> s_Hash (derived d) -> l1_Number drv = s_Number (derived d) ->
      ReplaceInvalidatedBlock drv (s_Hash (derived d)) s' = (Ok pair, s'') ->
      holds (contents := contents) (good := good) s'' (L0 ++ [mkLink (source d) (BlockSealFromRef drv) (revision d) false]) /\
      Last s'' = Ok (mkSealPair (source d) (BlockSealFromRef drv)).
Proof using SL.
  intros Hh Hd Hs Hv Hz Hr.
  destruct (invalidate_marks num_of s L inv s' Hh Hd Hs Hv Hz Hr) as (L0 & d & Hp & Hh' & Hd' & Es & Ed & Ei & Er).
  exists L0, d. assert (top (L0 ++ [d]) = Some d) as Ht by apply top_snoc.
  split_and!; [done.. | | | | |].
  - destruct d; cbn in *; by subst.
  - by eapply (invalidated_blocks s' _ d zero_ref zero_ref 0).
  - by eapply (invalidated_blocks s' _ d zero_ref zero_ref 0).
  - intros src drv rev. by eapply invalidated_blocks.
  - intros drv pair s'' Hdr Hn Hh2 Hrep. assert (s_Hash (derived d) <> zero_hash) as Hz' by by rewrite Ed.
    destruct (replacement_takes_place num_of s' L0 d drv _ s'' pair Hh' Hd' Hdr Hz' Hn Hh2 Hrep) as (H1 & H2 & _). done.
Qed.

End Derivation.

(** ** The databases of all chains *)

Section Chains.
Variable num_of : hash -> Z.
Context {K : Keccak} {D Lg St : Type} `{DependencySet D} `{LS : !LogStorage Lg} `{ES : !EntryStore (list Z) St}.
Context {contents : St -> list (list Z)} {good : St -> Prop}.
Context `{SL : !EntryStoreLaws (list Z) St (fun e => zlen e = fromda_EntrySize) contents good}.

(** C19. Whatever events the databases of the chains react to and whichever updates of
    the cross-safe and cross-unsafe heads, logs and rewinds happen between them,
    in any order and with failing writes, the local-safe and the cross-safe
    database of every chain stay in order, and the cross-safe database of a chain
    with a local-safe block is not empty. *)
Theorem chains_db_ordered (db db' : ChainsDB D Lg St) (c : ChainID) :
  num_of zero_hash = 0 -> chains_ok num_of (contents := contents) (good := good) db -> rtc (db_step num_of) db db' ->
  (forall s, localDBs db' !! c = Some s \/ crossDBs db' !! c = Some s ->
     exists L, holds (contents := contents) (good := good) s L /\ db_ok num_of L) /\
  forall l x, localDBs db' !! c = Some l -> crossDBs db' !! c = Some x -> store_Size l <> 0 -> store_Size x <> 0.
Proof using SL.
  intros Hz Hok Hr. pose proof (db_steps_ok num_of Hz db db' Hr Hok c) as [Hl Hx Hp _]. split; [| done].
  intros s [Hs | Hs]; [by apply Hl | by apply Hx].
Qed.

End Chains.

(** ** Locks *)

(** C35. Methods that lock once never block each other for good. [Candidate] is not one
    of them: it holds the lock for reading and calls [PreviousSource], which asks
    for it again; when a writer arrives in between, both wait for ever. *)
Theorem candidate_deadlock :
  (forall ms s, simple ms -> rtc lock_step (start ms) s -> ~ deadlocked s) /\
  exists s, rtc lock_step (start [Candidate_method; writer_method]) s /\ deadlocked s.
Proof. split; [apply simple_no_deadlock |]. exists stuck_state. split; [apply stuck_reachable | apply stuck_deadlocked]. Qed.

(** ** Instances *)

Import ToyInterop.
#[local] Existing Instance Toy.digest.

Lemma entry_file_refines_list_witness :
  exists s, @store_Append (list Z) _ (File.file_store 2) [[1; 2]; [3; 4]] (empty_file [Some 3]) = (Err "failed write", s) /\
    db_contents 2 s = [] /\
    exists s', @store_Append (list Z) _ (File.file_store 2) [[5; 6]] s = (Ok (), s') /\ db_contents 2 s' = [[5; 6]].
Proof.
  pose proof (@append_law _ _ _ _ _ _ (entry_file_refines_list 2 eq_refl) (empty_file [Some 3]) [[1; 2]; [3; 4]]) as Ha.
  eexists. split; [vm_compute; reflexivity |]. destruct Ha as [_ [[Hr _] | [_ Hc]]]; [by repeat split | by repeat constructor | |].
  - vm_compute in Hr. discriminate Hr.
  - split; [vm_compute; reflexivity |]. eexists. split; vm_compute; reflexivity.
Defined.

(** Three blocks of chain 1, the second write of which fails. *)
Definition ops : list db_op :=
  [OpAdd (block 3 0) (block 1 0) RevisionAny; OpAdd (block 3 1) (block 1 0) RevisionAny;
   OpAdd (block 3 1) (block 1 0) RevisionAny; OpAdd (block 3 1) (block 1 1) RevisionAny;
   OpAdd (block 3 1) (block 1 2) RevisionAny].

Fixpoint run_ops (l : list db_op) (s : File.EntryDB) : File.EntryDB :=
  match l with [] => s | op :: l => run_ops l (run_op op s).2 end.

Definition file0 : File.EntryDB := empty_file [None; Some 7].
Definition file1 : File.EntryDB := run_ops ops file0.

Definition toy_links : list LinkEntry :=
  [mkLink (seal 3 0) (seal 1 0) 0 false; mkLink (seal 3 1) (seal 1 0) 0 false;
   mkLink (seal 3 1) (seal 1 1) 0 false; mkLink (seal 3 1) (seal 1 2) 0 false].

Lemma file0_reach : db_reach num_of (contents := links) (good := file_ok) file0.
Proof. apply reach_empty; [| reflexivity]. by repeat split. Qed.

Lemma run_ops_reach l s :
  (forall op s, op ∈ l -> op_ok num_of s op) -> db_reach num_of (contents := links) (good := file_ok) s ->
  db_reach num_of (contents := links) (good := file_ok) (run_ops l s).
Proof.
  revert s. induction l as [|op l IH]; intros s Hop Hs; [done |]. cbn [run_ops]. apply IH.
  - intros op' s' Hin. apply Hop, elem_of_cons. by right.
  - eapply reach_op; [exact Hs | apply (Hop op), elem_of_cons; by left | apply surjective_pairing].
Qed.

Lemma file1_reach : db_reach num_of (contents := links) (good := file_ok) file1.
Proof.
  apply run_ops_reach; [| apply file0_reach]. intros op s Hin. unfold ops in Hin.
  repeat (apply elem_of_cons in Hin as [-> | Hin]; [split; [by repeat split |]; split; [by repeat split |]; split; by left |]).
  by apply not_elem_of_nil in Hin.
Qed.

Lemma derivation_db_ordered_witness :
  exists L, holds (contents := links) (good := file_ok) file1 L /\ forall i a b, L !! i = Some a -> L !! S i = Some b -> link_step a b.
Proof. destruct (derivation_db_ordered num_of file1 file1_reach) as (L & Hh & Hs & _). by exists L. Defined.

Lemma file1_holds : holds (contents := links) (good := file_ok) file1 toy_links /\ db_ok num_of toy_links.
Proof.
  destruct (db_reach_ok num_of file1 file1_reach) as (L & Hh & Hd). assert (L = toy_links) as ->; [| done].
  apply list_eq. intros i. destruct (decide (i < 4)%nat) as [Hi | Hi].
  - pose proof (readAt_holds file1 L (Z.of_nat i) Hh ltac:(lia)) as Hr. rewrite Nat2Z.id in Hr.
    destruct (L !! i) as [x |]; destruct i as [|[|[|[|i]]]]; try lia; vm_compute in Hr; try discriminate Hr; by injection Hr as <-.
  - pose proof (holds_size file1 L Hh) as Hs. assert (store_Size file1 = 4) as E by (vm_compute; reflexivity).
    rewrite E in Hs. unfold zlen in Hs. rewrite !lookup_ge_None_2; [done | cbn; lia | lia].
Qed.


Lemma derivation_queries_witness :
  exists i e, toy_links !! i = Some e /\ seal_ID (source e) = L1BlockRef_ID (block 3 1) /\ derived e = seal 1 2.
Proof.
  destruct file1_holds as [Hh Hd].
  destruct (derivation_queries num_of file1 toy_links (L1BlockRef_ID (block 3 1)) (seal 1 2) 0 Hh Hd ltac:(lia)) as [[H _] _].
  destruct H as (i & e & Hi & Hs & He & _); [vm_compute; reflexivity |]. by exists i, e.
Defined.

Lemma invalidation_protocol_witness :
  exists L0 d, holds (contents := links) (good := file_ok) (RewindAndInvalidate (from 1 1 1) file1).2 (L0 ++ [d]) /\
    derived d = seal 1 1 /\ invalidated d = true.
Proof.
  destruct file1_holds as [Hh Hd]. destruct (from_ok 1 1 1) as [Hs Hv]; [set_solver.. |].
  assert (E : RewindAndInvalidate (from 1 1 1) file1 = (Ok (), (RewindAndInvalidate (from 1 1 1) file1).2)) by (vm_compute; reflexivity).
  destruct (invalidation_protocol num_of file1 _ toy_links (from 1 1 1) Hh Hd Hs Hv ltac:(done) E)
    as (L0 & d & _ & Hh' & Ed & _). exists L0, d. split; [exact Hh' |]. rewrite Ed. split; reflexivity.
Defined.

Lemma chains_db_ordered_witness :
  exists s L, localDBs history !! 901 = Some s /\ holds (contents := links) (good := file_ok) s L /\ db_ok num_of L.
Proof.
  destruct (chains_db_ordered num_of fresh history 901 eq_refl fresh_ok reached_history) as [H _].
  destruct (localDBs history !! 901) as [s |] eqn:E; [| vm_compute in E; discriminate E].
  destruct (H s (or_introl eq_refl)) as (L & Hh & Hd). exists s, L. split; [reflexivity | exact (conj Hh Hd)].
Defined.
