(* ===== verification/LogTheorems.v ===== *)
(** Properties of the database of logs of op-supervisor and of its use by the
    cross-safety checks, each with an instance. *)
From Stdlib Require Import ZArith Lia.
From stdpp Require Import base gmap list strings numbers.
From S2P Require Import Prelude Codec Rollup Frames Interop Cross EntryDB FromDA ChainsDB.
From S2P Require Import LogDB CycleProps HazardProps FromDAProps ChainsProps LogProps LogQueries LogWrites.
From S2P Require Import Toy ToyInterop.

#[local] Existing Instance Logs.log_storage.

Section Logs.
Context {St : Type} `{ES : !EntryStore (list Z) St} {contents : St -> list (list Z)} {good : St -> Prop}.
Context `{SL : !EntryStoreLaws (list Z) St (fun e => zlen e = Logs.EntrySize) contents good}.
Abbreviation state := (log_state (contents := contents) (good := good)).


(** C21. When the process stops while entries are written and the store is left with any
    prefix of them, opening it again keeps everything up to the last complete seal
    or checkpoint of that prefix and drops the rest, unless the store cannot be
    truncated. *)
Theorem log_db_recovers (db : Logs.DB St) (kept seen : history) (s : St) (n : Z) (chain : ChainID) :
  state db kept seen -> good s ->
  let written := contents (Logs.store db) ++ Logs.out (Logs.lastEntryContext db) in
  0 <= n <= zlen written -> contents s = take (Z.to_nat n) written ->
  (exists j e, Logs.NewFromEntryStore chain s true = Err e /\ (store_Truncate j s).1 = Err e) \/
  exists db' cs dn, Logs.NewFromEntryStore chain s true = Ok db' /\ written = entries v0 cs /\ hist cs = seen /\ last_check n cs dn /\
    state db' (hist dn) (hist dn).
Proof using SL. apply state_recovers. Qed.
End Logs.

Section Recorded.
Context {K : Keccak} {D LSt St : Type} `{DependencySet D} `{ES : !EntryStore (list Z) St} `{LES : !EntryStore (list Z) LSt}.
Context {contents : LSt -> list (list Z)} {good : LSt -> Prop}.
Context `{SL : !EntryStoreLaws (list Z) LSt (fun e => zlen e = Logs.EntrySize) contents good}.
Abbreviation state := (log_state (contents := contents) (good := good)).

(** C10. A block that becomes cross-safe is in the recorded history of its chain, and for
    every message that it executes the recorded history of the initiating chain has
    a block of that number and timestamp with a log at that index whose checksum is
    the one of the message. *)
Theorem executed_messages_logged (o : orders) (c : ChainID) (db db' : ChainsDB D (Logs.DB LSt) St) (candidate : DerivedBlockRefPair) :
  recorded (contents := contents) (good := good) db -> scopedCrossSafeUpdate o c db = (candidate, Ok (), db') ->
  exists l kept seen ref k msgs, logDBs db !! c = Some l /\ state l kept seen /\
    hist_block kept (l1_Number (rp_Derived candidate)) = Ok (ref, k, msgs) /\ L1BlockRef_ID ref = L1BlockRef_ID (rp_Derived candidate) /\
    forall i m, msgs !! i = Some m ->
      exists src l' kept' seen' b lh, ChainIDFromIndex (db_depSet db) (m_Chain m) = Ok src /\ logDBs db !! src = Some l' /\
        state l' kept' seen' /\ logged_at src kept' (message_query src m) b lh.
Proof using SL.
  intros Hrec Hu. assert (open_typed (OpenBlock db)) as Ht by exact (recorded_typed db Hrec).
  destruct (scoped_update_cases o c db candidate (Ok ()) db' Ht Hu) as [-> [Hp | [Hne _]]]; [| done].
  destruct Hp as (cand & Hc & (hazards & l0 & (ref & k & msgs & Ho & Hid & _ & Hm) & _) & _). rewrite Hc. cbn [fst].
  destruct (recorded_open db c _ ref k msgs Hrec Ho) as (l & kept & seen & Hl & Hst & Hb & _ & Hok).
  exists l, kept, seen, ref, k, msgs. split_and!; try done. intros i m Hi. destruct (Hm i m Hi) as (src & incl & Hsrc & _ & Hcon & _).
  destruct (Hok i m Hi) as (_ & _ & _ & Hidx & _).
  destruct (recorded_contains db src (message_query src m) incl Hrec ltac:(cbn; lia) Hcon) as (l' & kept' & seen' & b & lh & Hl' & Hst' & Hat & _).
  by exists src, l', kept', seen', b, lh.
Qed.
End Recorded.

(** ** Instances *)

(** A file of logs. *)
Record log_file : Type := mkLogFile { log_data : File.EntryDB }.

Definition on_log_file {A} (op : stage File.EntryDB A) : stage log_file A := fun s => let '(r, f) := op (log_data s) in (r, mkLogFile f).

#[local] Instance log_file_store : EntryStore (list Z) log_file := {|
  store_Size := fun s => File.db_Size (log_data s);
  store_LastEntryIdx := fun s => File.db_LastEntryIdx (log_data s);
  store_Read := fun s => File.db_Read Logs.EntrySize (log_data s);
  store_Append := fun es => on_log_file (File.db_Append Logs.EntrySize es);
  store_Truncate := fun i => on_log_file (File.db_Truncate Logs.EntrySize i);
|}.

Definition log_contents (s : log_file) : list (list Z) := db_contents Logs.EntrySize (log_data s).
Definition log_good (s : log_file) : Prop := db_good Logs.EntrySize (log_data s).

#[local] Instance log_file_laws : EntryStoreLaws (list Z) log_file (fun e => zlen e = Logs.EntrySize) log_contents log_good.
Proof.
  pose proof (file_store_laws Logs.EntrySize ltac:(done)) as L. split; unfold log_contents, log_good; cbn [store_Size store_LastEntryIdx store_Read store_Append store_Truncate log_file_store].
  - intros s. apply (@size_law _ _ _ _ _ _ L).
  - intros s. apply (@last_law _ _ _ _ _ _ L).
  - intros s i. apply (@read_law _ _ _ _ _ _ L).
  - intros s. apply (@contents_ok _ _ _ _ _ _ L).
  - intros s es Hg Hes. pose proof (@append_law _ _ _ _ _ _ L (log_data s) es Hg Hes) as Ha. unfold on_log_file.
    change (@store_Append (list Z) File.EntryDB (File.file_store Logs.EntrySize) es (log_data s)) with (File.db_Append Logs.EntrySize es (log_data s)) in Ha.
    destruct (File.db_Append Logs.EntrySize es (log_data s)) as [r f]. exact Ha.
  - intros s i Hg Hi. pose proof (@truncate_law _ _ _ _ _ _ L (log_data s) i Hg Hi) as Ha. unfold on_log_file.
    change (@store_Truncate (list Z) File.EntryDB (File.file_store Logs.EntrySize) i (log_data s)) with (File.db_Truncate Logs.EntrySize i (log_data s)) in Ha.
    destruct (File.db_Truncate Logs.EntrySize i (log_data s)) as [r f]. exact Ha.
Qed.

Import ToyInterop.
#[local] Existing Instance Toy.digest.

Abbreviation logged_state := (log_state (contents := log_contents) (good := log_good)) (only parsing).

Definition new_logs (chain : ChainID) (faults : list (option Z)) : Logs.DB log_file :=
  Logs.mkDB (mkLogFile (empty_file faults)) chain (Logs.context_at 0).

(** Block [n] of chain [c] with a log. *)
Definition seal_op (c n : Z) : log_op := OpSeal (toy_hash (16 * c + n - 1)) (L1BlockRef_ID (block c n)) (100 + 2 * n).
Definition add_op (c n i : Z) (m : option ExecutingMessage) : log_op := OpLog (toy_hash 200) (L1BlockRef_ID (block c (n - 1))) i m.

Fixpoint run_logs (ops : list log_op) (db : Logs.DB log_file) : Logs.DB log_file :=
  match ops with [] => db | op :: ops => run_logs ops (run_log op db).2 end.

Abbreviation LSupervisor := (ChainsDB StaticConfigDependencySet (Logs.DB log_file) File.EntryDB) (only parsing).

Definition add_logged (c : Z) (db : LSupervisor) : LSupervisor :=
  AddCrossUnsafeTracker c (AddCrossDerivationDB c (empty_file [])
    (AddLocalDerivationDB c (empty_file []) (AddLogDB c (new_logs c []) db))).

Definition lrun {A} (op : stage LSupervisor A) (db : LSupervisor) : LSupervisor := (op db).2.

Definition derive_logged (c : Z) (db : LSupervisor) : LSupervisor :=
  lrun (OnEvent (LocalDerivedEvent (900 + c) (from c 2 1) "node"))
    (lrun (OnEvent (LocalDerivedEvent (900 + c) (from c 1 1) "node"))
      (lrun (OnEvent (LocalDerivedEvent (900 + c) (from c 0 1) "node"))
        (lrun (OnEvent (AnchorEvent (900 + c) (from c 0 0))) db))).

Definition seal_logged (c n : Z) (m : option ExecutingMessage) (db : LSupervisor) : LSupervisor :=
  lrun (SealBlock (900 + c) (block c n))
    (lrun (AddLog (900 + c) (toy_hash 200) (L1BlockRef_ID (block c (n - 1))) 0 m) db).

(** Block 2 of chain 1 executes the log of block 1 of chain 2. *)
Definition two_chains : LSupervisor :=
  seal_logged 2 1 None (seal_logged 1 2 (Some (message 2 1 0)) (seal_logged 1 1 None
    (derive_logged 1 (derive_logged 2 (add_logged 902 (add_logged 901 (NewChainsDB depset))))))).

(** ** Where the entries do not hold a history *)

Definition big_message (i : Z) : ExecutingMessage := mkExecutingMessage 2 1 i 102 (toy_hash 200).

(** A block, and a message of the log [i] on top of it. *)
Definition one_block : Logs.DB log_file := run_logs [seal_op 1 0] (new_logs 901 []).
Definition with_message (i : Z) : Logs.DB log_file := (run_log (add_op 1 1 0 (Some (big_message i))) one_block).2.

Definition too_large : string := "log idx is too large".

(** C26. A message of the log 2^24 is accepted and read back as a message of log 0. A
    message of a later log is refused with its first entry written to the context,
    and from then on every block and every log is refused with the same error. A
    log before the first block is refused and leaves a checkpoint in the context,
    on top of which a first block other than one with a zero parent is refused. *)
Theorem log_db_traps :
  Logs.OpenBlock (run_logs [add_op 1 1 0 (Some (big_message (2 ^ 24))); seal_op 1 1] one_block) 1 =
    Ok (block 1 1, 1, {[0 := big_message 0]}) /\
  (forall op, match op with OpSeal _ _ _ => True | OpLog _ p _ _ => p <> zero_id | OpRewindLogs _ => False end ->
     run_log op (with_message (2 ^ 24 + 1)) = (Err too_large, with_message (2 ^ 24 + 1))) /\
  (run_log (seal_op 1 1) (new_logs 901 [])).1 = Ok () /\
  (run_log (seal_op 1 1) (run_log (add_op 1 1 0 None) (new_logs 901 [])).2).1 = Err ErrConflict.
Proof.
  split_and!; [vm_compute; reflexivity | | vm_compute; reflexivity | vm_compute; reflexivity].
  assert (Logs.inferFull (Logs.lastEntryContext (with_message (2 ^ 24 + 1))) = (Err too_large, Logs.lastEntryContext (with_message (2 ^ 24 + 1)))) as Hi
    by (vm_compute; reflexivity).
  assert ((Logs.nextEntryIndex (Logs.lastEntryContext (with_message (2 ^ 24 + 1))) =? 0) = false) as H0 by (vm_compute; reflexivity).
  revert Hi H0. generalize (with_message (2 ^ 24 + 1)). intros db Hi H0 [p b t | lh p i m | h] Hop; [| | done].
  - cbn [run_log]. unfold Logs.SealBlock, Logs.apply_context, Logs.ctx_SealBlock. rewrite H0, Hi. by destruct db.
  - cbn [run_log]. unfold Logs.AddLog, Logs.apply_context, Logs.ApplyLog. rewrite bool_decide_false, Hi by done. by destruct db.
Qed.

(** *** They are databases of histories *)

Lemma logged_step (op : log_op) (db : Logs.DB log_file) (H H' : LogProps.history) :
  logged_state db H H -> log_op_ok H op -> log_spec op H H = Ok H' -> (run_log op db).1 = Ok () -> logged_state (run_log op db).2 H' H'.
Proof.
  intros Hst Hop Hs Hr. pose proof (run_log_refines op db H H Hst Hop) as Hw. destruct (run_log op db) as [r db']. destruct Hw as [_ Hw]. unfold log_step_ok in Hw.
  rewrite Hs in Hw. cbn in Hr. subst r. destruct Hw as [[_ Hw] | [[e He] _]]; [exact Hw | done].
Qed.

Lemma new_logs_state chain faults : logged_state (new_logs chain faults) no_history no_history.
Proof. apply empty_state; [by repeat split | done]. Qed.

Definition ops1 : list log_op := [seal_op 1 0; add_op 1 1 0 None; seal_op 1 1; add_op 1 2 0 (Some (message 2 1 0)); seal_op 1 2].
Definition ops2 : list log_op := [seal_op 2 0; add_op 2 1 0 None; seal_op 2 1].

Fixpoint spec_logs (ops : list log_op) (H : LogProps.history) : LogProps.history :=
  match ops with
  | [] => H
  | op :: ops => match log_spec op H H with Ok H' => spec_logs ops H' | _ => H end
  end.

#[local] Instance message_ok_dec m : Decision (message_ok m).
Proof. unfold message_ok, in_range. apply _. Defined.
#[local] Instance log_op_ok_dec H op : Decision (log_op_ok H op).
Proof. destruct op as [p b t | lh p i [m |] | h]; unfold log_op_ok, block_ok, in_range; apply _. Defined.

Fixpoint all_ok (ops : list log_op) (db : Logs.DB log_file) (H : LogProps.history) : bool :=
  match ops with
  | [] => true
  | op :: ops =>
      bool_decide (log_op_ok H op) &&
      match log_spec op H H, run_log op db with Ok H', (Ok _, db') => all_ok ops db' H' | _, _ => false end
  end.

Lemma run_logs_state ops db H :
  logged_state db H H -> all_ok ops db H = true -> logged_state (run_logs ops db) (spec_logs ops H) (spec_logs ops H).
Proof.
  revert db H. induction ops as [|op ops IH]; intros db H Hst Hall; [done |]. cbn [run_logs spec_logs all_ok] in *.
  apply andb_true_iff in Hall as [Hop%bool_decide_eq_true Hall]. destruct (log_spec op H H) as [H' | e | e] eqn:Es; [| done | done].
  apply IH; [| by destruct (run_log op db) as [[] db']]. apply (logged_step op db H H'); try done. by destruct (run_log op db) as [[[] | |] db'].
Qed.

Lemma ops1_state : logged_state (run_logs ops1 (new_logs 901 [])) (spec_logs ops1 no_history) (spec_logs ops1 no_history).
Proof. apply run_logs_state; [apply new_logs_state | vm_compute; reflexivity]. Qed.
Lemma ops2_state : logged_state (run_logs ops2 (new_logs 902 [])) (spec_logs ops2 no_history) (spec_logs ops2 no_history).
Proof. apply run_logs_state; [apply new_logs_state | vm_compute; reflexivity]. Qed.

(** Both chains after two rounds of updates. *)
Definition updated : LSupervisor :=
  let round := fun db => lrun (CrossSafeUpdate all_first 901) (lrun (CrossSafeUpdate all_first 902) db) in round (round two_chains).

Lemma updated_logs :
  logDBs updated = {[901 := run_logs ops1 (new_logs 901 []); 902 := run_logs ops2 (new_logs 902 [])]}.
Proof. vm_compute. reflexivity. Qed.

Lemma updated_recorded : recorded (contents := log_contents) (good := log_good) updated.
Proof.
  intros c l Hl. rewrite updated_logs, lookup_insert_Some, lookup_singleton_Some in Hl.
  destruct Hl as [[<- <-] | [_ [<- <-]]]; split; [vm_compute; reflexivity | | vm_compute; reflexivity |].
  - eexists _, _. exact ops1_state.
  - eexists _, _. exact ops2_state.
Qed.

Lemma executed_messages_logged_witness :
  exists kept' seen' b lh, logged_state (run_logs ops2 (new_logs 902 [])) kept' seen' /\
    logged_at 902 kept' (message_query 902 (message 2 1 0)) b lh.
Proof.
  assert (scopedCrossSafeUpdate all_first 901 updated = (from 1 2 1, Ok (), lrun (fun db => let '(_, r, db') := scopedCrossSafeUpdate all_first 901 db in (r, db')) updated)) as Hu
    by (vm_compute; reflexivity).
  destruct (executed_messages_logged (contents := log_contents) (good := log_good) all_first 901 updated _ _ updated_recorded Hu)
    as (l & kept & seen & ref & k & msgs & Hl & Hst & Hb & _ & Hm).
  destruct (state_queries _ _ _ Hst) as (_ & Hq & _). cbn [rp_Derived from block l1_Number] in Hb. rewrite <- Hq in Hb.
  rewrite updated_logs, lookup_insert_eq in Hl. apply (inj Some) in Hl. subst l. vm_compute in Hb. injection Hb as _ _ <-.
  destruct (Hm 0 (message 2 1 0)) as (src & l' & kept' & seen' & b & lh & Hsrc & Hl' & Hst' & Hat); [vm_compute; reflexivity |].
  vm_compute in Hsrc. injection Hsrc as <-. rewrite updated_logs, lookup_insert_ne, lookup_singleton_eq in Hl' by done. apply (inj Some) in Hl'. subst l'.
  exists kept', seen', b, lh. split; [exact Hst' | exact Hat].
Defined.


(** The file of [ops1] cut after nine entries, in the middle of a log. *)
Lemma log_db_recovers_witness :
  exists db cs dn, Logs.NewFromEntryStore 901 (mkLogFile (File.mkEntryDB (File.mkFile (take (9 * 34)
      (File.f_bytes (File.data (log_data (Logs.store (run_logs ops1 (new_logs 901 []))))))) []) 8 false)) true = Ok db /\
    last_check 9 cs dn /\ logged_state db (hist dn) (hist dn).
Proof.
  set (s := mkLogFile _).
  destruct (log_db_recovers (contents := log_contents) (good := log_good) _ _ _ s 9 901 ops1_state) as [(j & e & He & _) | (db & cs & dn & Hn & _ & _ & Hd & Hst)].
  - by repeat split.
  - vm_compute. split; discriminate.
  - vm_compute. reflexivity.
  - vm_compute in He. discriminate He.
  - exists db, cs, dn. by split_and!.
Defined.
