(* ===== verification/DeriveTheorems.v ===== *)
(** The properties of the derivation pipeline (op-node/rollup and
    op-node/rollup/derive), each with an instance. *)
From Stdlib Require Import ZArith Lia.
From stdpp Require Import base gmap list strings numbers fin_maps.
From S2P Require Import Prelude Codec Rollup Frames Channels L1InfoProps ChannelProps AssemblerProps ToyDerive.

(** ** Frames *)

(** [ParseFrames] accepts exactly the concatenations of one or more marshalled
    frames behind a version byte 0, and returns these frames: parsing and
    marshalling are inverse to each other, and parsing never panics. *)
Theorem frames_roundtrip (data : list Z) :
  bytes_ok data ->
  (forall fs, ParseFrames data = Ok fs <-> fs <> [] /\ Forall frame_wf fs /\ data = tx_data fs) /\
  (forall e, ParseFrames data <> Panic e).
Proof.
  intros Hb. split.
  - intros fs. split.
    + unfold ParseFrames. destruct data as [|v rest]; [done |]. destruct (Z.eqb_spec v DerivationVersion0) as [-> |]; [| done].
      cbn [negb]. inversion Hb as [| ? ? _ Hr]; subst.
      destruct (parse_frames (length rest) [] rest) as [[fs' buf] | |] eqn:E; [| done | done]. cbn [mbind outcome_bind].
      destruct (parse_frames_inv _ _ _ _ _ Hr E) as (new & Efs & -> & Hwf & ->). cbn in Efs. subst fs'.
      destruct new as [|f new]; [done |]. intros [= <-]. done.
    + intros (Hne & Hwf & ->). by apply ParseFrames_tx.
  - intros e. unfold ParseFrames. destruct data as [|v rest]; [done |]. destruct (negb _); [done |].
    inversion Hb as [| ? ? _ Hr]; subst. pose proof (parse_frames_total (length rest) [] rest e Hr (le_n _)) as H.
    destruct (parse_frames (length rest) [] rest) as [[fs buf] | |]; cbn [mbind outcome_bind]; [| done |].
    + destruct (negb _); [done |]. by destruct (zlen fs =? 0).
    + intros E. apply H. by injection E as ->.
Qed.

(** The loop of [pruneFrameQueue], which deletes frames in place and moves its
    cursor back, computes in one pass with a stack: its result is a subsequence
    of the queue in which every frame follows its predecessor - the next number
    of the same unfinished channel, or frame 0 of another channel behind a last
    frame - and a queue that already is so is left as it is. *)
Theorem prune_one_pass (fs : list Frame) :
  pruneFrameQueue fs = reverse (foldl push [] fs) /\
  sublist (pruneFrameQueue fs) fs /\ stacked (reverse (pruneFrameQueue fs)) /\
  (stacked (reverse fs) -> pruneFrameQueue fs = fs).
Proof.
  assert (stacked (foldl push [] fs)) as Hst.
  { assert (forall kept, stacked kept -> stacked (foldl push kept fs)) as H; [| by apply H].
    induction fs as [|f l IH]; intros kept Hk; [done |]. by apply IH, push_stacked. }
  rewrite prune_push. split; [done |]. split; [| split; [by rewrite reverse_involutive |]].
  - rewrite <- (reverse_involutive fs) at 2. apply reverse_sublist.
    pose proof (foldl_push_sublist [] fs) as H. by rewrite app_nil_r in H.
  - intros H. rewrite <- (reverse_involutive fs) at 1. rewrite push_all by done. apply reverse_involutive.
Qed.

(** ** Channels *)

(** The frames of a channel can arrive in any order and in any L1 blocks: every
    one is accepted, the channel is then ready, and reading it gives the
    concatenation of the data. *)
Theorem channel_any_order (id : ChannelID) (pieces : list (list Z)) (added : list (Frame * L1BlockRef)) (b : L1BlockRef) :
  pieces <> [] -> added.*1 ≡ₚ channel_frames id 0 pieces ->
  exists ch, add_frames added (NewChannel id b false) = Ok ch /\ IsReady ch = true /\ Reader ch = Ok (concat pieces).
Proof. intros Hne Hp. by apply any_order. Qed.

(** The sum of the sizes of the frames of a channel. *)
Definition frames_size (ch : Channel) : Z := map_fold (fun _ f sz => uadd 64 sz (frameSize f)) 0 (inputs ch).

(** When a closing frame arrives behind frames with higher numbers, the size of
    the channel is set to that of the closing frame alone: the sizes of the
    frames that are kept are subtracted along with those that are pruned. *)
Theorem closing_frame_forgets_sizes (ch ch' : Channel) (frame : Frame) (block : L1BlockRef) :
  ch_size ch = frames_size ch -> IsLast frame = true -> FrameNumber frame < highestFrameNumber ch ->
  AddFrame frame block ch = Ok ch' -> Size ch' = frameSize frame.
Proof.
  intros Hs Hl Hn R. destruct (AddFrame_inv frame block ch ch' R) as (_ & _ & _ & _ & _ & H). cbv zeta in H.
  destruct H as (_ & _ & _ & _ & _ & _ & _ & E). rewrite Hl, (proj2 (Z.ltb_lt _ _) Hn) in E. cbn [andb] in E.
  unfold Size. rewrite E, Hs. unfold frames_size, prune_inputs. cbn [snd]. rewrite subtract_all.
  unfold uadd. rewrite Z.add_0_l. apply wrap_small, uadd_range. lia.
Qed.

(** C24. The channel assembler refines a machine that keeps one open channel - its
    id, the number of its frames, their bytes and its size. If the frame queue
    delivers the frames [fs] and then an error, a call returns the bytes the
    machine delivers first, with the frames behind them still unread, or else
    the error, with the machine's state; the critical errors of the code are
    never returned. *)
Theorem assembler_refines {P : Type} {FP : NextFrameProvider P} origin fs fuel (ca : ChannelAssembler P) st p' e p'' :
  refines_channel (channel ca) st -> ca_Origin ca = origin -> delivers origin (ca_prev ca) fs p' ->
  NextFrame p' = (Err e, p'') -> (length fs < fuel)%nat ->
  match spec_run (MaxRLPBytesPerChannel (ca_spec ca) (l1_Time origin)) fs (if channelTimedOut ca then None else st) with
  | (Some data, _, rest) => exists ca', ca_NextRawChannel fuel ca = (Ok data, ca') /\ ca_spec ca' = ca_spec ca /\
      channel ca' = None /\ delivers origin (ca_prev ca') rest p'
  | (None, st', _) => exists ca', ca_NextRawChannel fuel ca = (Err e, ca') /\ ca_spec ca' = ca_spec ca /\
      refines_channel (channel ca') st' /\ ca_prev ca' = p''
  end.
Proof. apply NextRawChannel_run. Qed.


(** The channel bank stays consistent: in every state that calls, resets and
    changes of the frame queue lead to, its queue lists exactly the channels of
    its map, each once; every call returns without panicking; and ingesting a
    frame keeps the total size within the limit. *)
Theorem bank_consistent {P : Type} {FP : NextFrameProvider P} (spec : ChainSpec) (cb : ChannelBank P) (f : Frame) :
  (forall p e p', NextFrame p <> (Panic e, p')) -> bank_state spec cb ->
  NoDup (channelQueue cb) /\ (forall id, id ∈ channelQueue cb <-> is_Some (channels cb !! id)) /\
  (exists r cb', cb_NextRawChannel cb = (r, cb') /\ no_panic r) /\
  (exists cb', IngestFrame f cb = Ok cb' /\
     (total_size (channels cb) <= bank_limit cb -> total_size (channels cb') <= bank_limit cb')).
Proof.
  intros Hp Hst. destruct (bank_state_ok spec cb Hp Hst) as [Hb _]. pose proof Hb as [H1 H2]. split; [done |]. split; [done |]. split.
  - destruct (bank_next cb Hb Hp) as (r & cb' & R & Hr & _). eauto.
  - destruct (ingest_ok f cb Hb) as (cb' & R & _ & _ & _ & Ht). eauto.
Qed.

(** ** The configuration *)

(** In a configuration that passes [Check] the network upgrades up to Isthmus
    are ordered: at every time, an upgrade is only active if all earlier ones
    are, the sequencing window has at least two blocks and blocks take time. *)
Theorem checked_forks_ordered (cfg : Config) (t : Z) :
  Check cfg = Ok () ->
  2 <= SeqWindowSize cfg /\ BlockTime cfg <> 0 /\
  (IsIsthmus cfg t = true -> IsHolocene cfg t = true) /\ (IsHolocene cfg t = true -> IsGranite cfg t = true) /\
  (IsGranite cfg t = true -> IsFjord cfg t = true) /\ (IsFjord cfg t = true -> IsEcotone cfg t = true) /\
  (IsEcotone cfg t = true -> IsDelta cfg t = true) /\ (IsDelta cfg t = true -> IsCanyon cfg t = true) /\
  (IsCanyon cfg t = true -> IsRegolith cfg t = true).
Proof.
  intros (H1 & _ & H2 & _ & H)%check_ok. split; [done |]. split; [done |]. by apply check_forks_ok with (u := ()).
Qed.

Module DeriveInstances.

Lemma frames_roundtrip_witness :
  bytes_ok (tx_data toy_fs) /\
  (forall fs, ParseFrames (tx_data toy_fs) = Ok fs <-> fs <> [] /\ Forall frame_wf fs /\ tx_data toy_fs = tx_data fs).
Proof.
  assert (bytes_ok (tx_data toy_fs)) as H.
  { apply (bool_decide_unpack (Forall (fun b => 0 <= b < 256) (tx_data toy_fs))). by vm_compute. }
  split; [exact H |]. apply (frames_roundtrip _ H).
Defined.

Lemma channel_any_order_witness :
  exists ch, add_frames ((., toy_block 11) <$> reverse toy_fs) (NewChannel (toy_id 9) (toy_block 11) false) = Ok ch /\
    IsReady ch = true /\ Reader ch = Ok (concat toy_pieces).
Proof.
  apply channel_any_order; [done |]. rewrite <- list_fmap_compose. change (id <$> reverse toy_fs ≡ₚ toy_fs).
  rewrite list_fmap_id. apply reverse_Permutation.
Defined.

Definition gap_channel : outcome Channel :=
  add_frames [(mkFrame (toy_id 9) 0 [1; 2] false, toy_block 11); (mkFrame (toy_id 9) 2 [3] false, toy_block 11)]
    (NewChannel (toy_id 9) (toy_block 11) false).

(** Of the frames 0 and 2 the first one is kept when frame 1 closes the channel. *)
Lemma closing_frame_forgets_sizes_witness :
  exists ch ch', gap_channel = Ok ch /\ AddFrame (mkFrame (toy_id 9) 1 [] true) (toy_block 11) ch = Ok ch' /\
    bool_decide (is_Some (inputs ch' !! 0)) = true /\ Size ch' = 200.
Proof.
  destruct gap_channel as [ch | |] eqn:E; [| by vm_compute in E | by vm_compute in E].
  destruct (AddFrame (mkFrame (toy_id 9) 1 [] true) (toy_block 11) ch) as [ch' | |] eqn:R.
  2, 3: vm_compute in E; injection E as <-; by vm_compute in R.
  exists ch, ch'. split; [done |]. split; [done |].
  assert (Size ch' = frameSize (mkFrame (toy_id 9) 1 [] true)) as ->.
  { apply (closing_frame_forgets_sizes ch ch' (mkFrame (toy_id 9) 1 [] true) (toy_block 11)); [| done | | exact R];
      vm_compute in E; injection E as <-; by vm_compute. }
  vm_compute in E. injection E as <-. vm_compute in R. injection R as <-. by vm_compute.
Defined.

Lemma assembler_refines_witness :
  exists ca', ca_NextRawChannel 3 (NewChannelAssembler toy_spec (mkToyFrames (toy_block 11) toy_fs)) = (Ok (concat toy_pieces), ca').
Proof.
  pose proof (assembler_refines (toy_block 11) toy_fs 3 (NewChannelAssembler toy_spec (mkToyFrames (toy_block 11) toy_fs)) None
    (mkToyFrames (toy_block 11) []) EOF (mkToyFrames (toy_block 11) []) I eq_refl) as H.
  destruct H as (ca' & R & _); [| done | cbn; lia |].
  - eapply delivers_cons; [done | done |]. eapply delivers_cons; [done | done |]. apply delivers_nil.
  - exists ca'. exact R.
Defined.


(** The bank after the first frame. *)
Lemma bank_consistent_witness :
  exists cb : ChannelBank toy_frames, bank_state toy_spec cb /\ channelQueue cb = [toy_id 9] /\
    exists cb', IngestFrame (mkFrame (toy_id 9) 1 [4] true) cb = Ok cb' /\ total_size (channels cb') <= bank_limit cb'.
Proof.
  assert (forall (p : toy_frames) e p', NextFrame p <> (Panic e, p')) as Hp.
  { intros [o [|f l]] e p'; by cbn. }
  destruct (cb_NextRawChannel (NewChannelBank toy_spec (mkToyFrames (toy_block 11) toy_fs))) as [r cb] eqn:E.
  assert (bank_state toy_spec cb) as Hst by (eapply bank_call; [apply bank_new | exact E]).
  exists cb. split; [exact Hst |].
  destruct (bank_consistent toy_spec cb (mkFrame (toy_id 9) 1 [4] true) Hp Hst) as (_ & _ & _ & cb' & R & Ht).
  vm_compute in E. injection E as _ <-. split; [done |].
  exists cb'. split; [exact R |]. apply Ht. by vm_compute.
Defined.

Lemma checked_forks_ordered_witness :
  Check toy_config = Ok () /\ IsHolocene toy_config 120 = true /\ IsGranite toy_config 120 = true.
Proof.
  assert (Check toy_config = Ok ()) as H by by vm_compute.
  split; [exact H |]. split; [by vm_compute |].
  destruct (checked_forks_ordered toy_config 120 H) as (_ & _ & _ & Hg & _). apply Hg. by vm_compute.
Defined.

End DeriveInstances.
