(* ===== verification/BlockTheorems.v ===== *)
(** The properties of the second half of the derivation pipeline - deposits, the
    information about the L1 origin, batches and payload attributes
    (op-node/rollup/derive) - each with an instance. *)
From Stdlib Require Import ZArith Lia.
From stdpp Require Import base gmap list strings numbers.
From S2P Require Import Prelude Codec Rollup Frames L1Info DepositLog Batches SpanBatch BatchStages.
From S2P Require Import Attributes L1InfoProps DepositProps BatchProps StageProps SpanProps Toy ToyDerive.

(** ** The L1 origin *)

Section Blocks.
Context {K : Keccak} {KL : KeccakLaws K} {G : Geth} {GL : GethLaws G} {U : UpgradeTransactions}.

(** C38. The three formats of the L1 block information are canonical: at any L2
    time, the bytes that are accepted are exactly the marshalled forms of the
    information that fits the format of that time, and each is read back as the
    information it was made from. *)
Theorem l1_info_canonical (cfg : Config) (t : Z) (data : list Z) (info : L1BlockInfo) :
  Check cfg = Ok () -> bytes_ok data ->
  (L1BlockInfoFromBytes cfg t data = Ok info <-> info_form cfg t info /\ marshal_info cfg t info = Ok data).
Proof using KL. intros Hc. by apply info_format with (u := ()). Qed.

(** C17. A block that is built from the attributes that [PreparePayloadAttributes]
    returns, with any transactions behind them, is understood by the node that
    reads it back: its reference names the epoch the attributes were made for,
    the sequence number within the epoch and the time of the slot. *)
Theorem attributes_name_origin (cfg : Config) (l1 : L1ReceiptsFetcher) (sysByHash : hash -> outcome SystemConfig)
    (parent : L2BlockRef) (epoch : BlockID) (attrs : PayloadAttributes) (payload : ExecutionPayload) (rest : list (list Z)) :
  Check cfg = Ok () -> l1_knows cfg l1 epoch -> (forall c, sysByHash (l2_Hash parent) = Ok c -> system_wf c) ->
  in_range 64 (SequenceNumber parent) -> PreparePayloadAttributes cfg l1 sysByHash parent epoch = Ok attrs ->
  ep_Transactions payload = pa_Transactions attrs ++ rest -> ep_Timestamp payload = pa_Timestamp attrs ->
  ep_BlockNumber payload <> b_Number (g_L2 (Genesis_ cfg)) ->
  PayloadToBlockRef cfg payload = Ok (mkL2BlockRef (ep_BlockHash payload) (ep_BlockNumber payload) (ep_ParentHash payload)
    (uadd 64 (l2_Time parent) (BlockTime cfg)) epoch (next_sequence parent epoch)).
Proof using KL GL. intros. by eapply prepared_origin. Qed.

(** The system configuration that is recovered from a block agrees with the one
    its L1 information was made from: the batcher, the fee scalars in the format
    of the block, the operator fee after Isthmus, and the gas limit of the block. *)
Theorem system_config_recovered (cfg : Config) (sysCfg : SystemConfig) (seq t : Z) (block : BlockInfo) (tx : list Z)
    (payload : ExecutionPayload) (rest : list (list Z)) (r : SystemConfig) :
  Check cfg = Ok () -> block_wf cfg block -> system_wf sysCfg -> in_range 64 seq ->
  L1InfoDepositBytes cfg sysCfg seq block t = Ok tx -> ep_Transactions payload = tx :: rest -> ep_Timestamp payload = t ->
  ep_BlockNumber payload <> b_Number (g_L2 (Genesis_ cfg)) -> PayloadToSystemConfig cfg payload = Ok r ->
  same_system cfg t r sysCfg /\ GasLimit r = ep_GasLimit payload.
Proof using KL GL.
  intros Hc Hb Hs Hq Ht Hx He Hn R. destruct (payload_deposit cfg sysCfg seq block t () tx payload rest) as (info & Hi & Hp); [done .. |].
  unfold PayloadToSystemConfig in R. apply Z.eqb_neq in Hn. rewrite Hn, Hp, He in R. cbn [mbind outcome_bind] in R.
  destruct (if IsHolocene cfg t then _ else _) as [params | e | e]; [| done | done]. apply ok_inj in R. subst r. split; [| done].
  apply info_system with seq block () info; [done | done | done | done | done | done |]. intros Hf. cbn. by rewrite Hf.
Qed.

(** ** Deposits *)

(** A deposit that is written as a log event and read back from a block is the
    same deposit, with the source hash of its place in that block. *)
Theorem deposit_log_roundtrip (addr : list Z) (dep : DepositTx) (l : Log) (blockHash : hash) (idx : Z) :
  deposit_wf dep -> MarshalDepositLogEvent addr dep = Ok l ->
  UnmarshalDepositLogEvent (logged_at blockHash idx l) =
    Ok (mkDepositTx (UserDepositSource_SourceHash blockHash idx) (dt_From dep) (dt_To dep) (dt_Mint dep) (dt_Value dep)
          (dt_Gas dep) false (dt_Data dep)).
Proof using KL. apply deposit_event_roundtrip. Qed.

(** Two well-formed sources of deposits - user deposits, L1 information,
    upgrades, forced inclusion, invalidated blocks - with the same source hash are
    the same source, unless the hash function collides on what was hashed. *)
Theorem source_hashes_unique (s1 s2 : source) :
  source_wf s1 -> source_wf s2 -> SourceHash s1 = SourceHash s2 ->
  s1 = s2 \/ collision (source_inputs s1) (source_inputs s2).
Proof using KL. apply source_unique. Qed.

(** C18. The attributes hold the L1 information, then one transaction for every
    deposit event in the receipts of a new origin - all of them, in their order,
    and none in a block that keeps the origin of its parent - and then the
    transactions of the upgrades of this block; a new origin is the child of the
    old one. *)
Theorem deposits_included (cfg : Config) (l1 : L1ReceiptsFetcher) (sysByHash : hash -> outcome SystemConfig)
    (parent : L2BlockRef) (epoch : BlockID) (attrs : PayloadAttributes) :
  l1_knows cfg l1 epoch -> (forall c, sysByHash (l2_Hash parent) = Ok c -> system_wf c) ->
  PreparePayloadAttributes cfg l1 sysByHash parent epoch = Ok attrs ->
  exists tx deposits upgrades, pa_Transactions attrs = tx :: deposits ++ upgrades /\
    upgrade_transactions cfg (pa_Timestamp attrs) = Ok upgrades /\
    (L1Origin parent = epoch /\ deposits = [] \/
     exists info receipts, FetchReceipts l1 (b_Hash epoch) = Ok (info, receipts) /\ bi_ParentHash info = b_Hash (L1Origin parent) /\
       Forall2 derives (event_logs (DepositContractAddress cfg) DepositEventABIHash receipts) deposits).
Proof using KL. apply prepared_deposits. Qed.

(** An event changes the system configuration exactly if it has the topics of an
    update and its data is the encoding of a value for that update; the value is
    then applied, and nothing else. *)
Theorem config_updates (c c' : SystemConfig) (ev : Log) (cfg : Config) (l1Time : Z) :
  bytes_ok (log_Data ev) ->
  (ProcessSystemConfigUpdateLogEvent c ev cfg l1Time = Ok c' <->
   exists u, Topics ev = [ConfigUpdateEventABIHash; zero_hash; kind u] /\ encodes u (log_Data ev) /\
             c' = apply_update cfg l1Time u c).
Proof using KL. apply update_event. Qed.

End Blocks.

(** ** Batches *)

(** C36. [checkSingularBatch] accepts a batch exactly if it satisfies the rules: the
    next slot, on the safe head, included within the sequencing window, with the
    current or the next known epoch and its hash, not before its origin, not
    drifting too far from it unless it is empty and cannot adopt the next origin,
    and with transactions of allowed types only. *)
Theorem accepted_singular_rules (cfg : Config) (l1Blocks : list L1BlockRef) (safe : L2BlockRef) (batch : SingularBatch)
    (inclusion : L1BlockRef) :
  checkSingularBatch cfg l1Blocks safe batch inclusion = BatchAccept <->
  exists epoch more origin, l1Blocks = epoch :: more /\ valid_singular cfg epoch more safe batch inclusion origin.
Proof. apply singular_accept. Qed.

(** C28. A decision about a batch, singular or span, that is not [BatchUndecided] is
    final: it stays the same when more L1 blocks are known. *)
Theorem early_decisions_final {K : Keccak} {G : Geth} (cfg : Config) (l more : list L1BlockRef) (safe : L2BlockRef)
    (batch : BatchWithL1InclusionBlock) (l2 : SafeBlockFetcher) (v : BatchValidity) :
  sorted_blocks (l ++ more) -> (forall b, bw_Batch batch = Span b -> epochs_bounded b) ->
  CheckBatch cfg l safe batch l2 = Ok v -> v <> BatchUndecided -> CheckBatch cfg (l ++ more) safe batch l2 = Ok v.
Proof. apply batch_stable. Qed.


(** ** The batch stage *)

Section Stage.
Context {K : Keccak} {G : Geth} {P : Type} {BP : NextBatchProvider P} {BL : BatchProviderLaws P}.

(** The canonical L1 chain, by number. *)
Definition numbered (chain : Z -> option L1BlockRef) : Prop :=
  forall n b, chain n = Some b -> l1_Number b = n /\ 0 <= n < 2 ^ 63.

(** C5. However the stage was reset, called and fed with L1 blocks: a batch it
    returns is a block on top of the safe head, one slot later, whose origin is on
    the canonical chain, not before the origin of the head and not after the
    block, and which only has transactions within the sequencer drift. *)
Theorem derived_blocks_extend (chain : Z -> option L1BlockRef) (cfg : Config) (bs bs' : baseBatchStage P) (parent : L2BlockRef)
    (l2 : SafeBlockFetcher) (b : SingularBatch) (concluding : bool) :
  numbered chain -> 0 <= BlockTime cfg -> stage_run chain cfg bs parent ->
  bs_NextBatch l2 parent bs = (Ok (b, concluding), bs') -> extends chain cfg parent b.
Proof using BL.
  intros Hc Hbt Hr R. destruct (stage_run_inv chain Hc cfg bs parent Hbt Hr) as [Hp Hi].
  destruct (stage_call chain Hc cfg l2 parent bs _ bs' Hbt Hp Hi R) as (_ & _ & _ & H). by destruct (H b concluding eq_refl).
Qed.

(** C6. The chain goes on without the sequencer: once there are no batches left and
    the sequencing windows of the origin of the safe head and of the next L1 block
    have passed, at most two calls produce an empty block. *)
Theorem silence_forces_blocks (chain : Z -> option L1BlockRef) (cfg : Config) (bs : baseBatchStage P) (parent : L2BlockRef)
    (l2 l2' : SafeBlockFetcher) :
  numbered chain -> 0 <= BlockTime cfg -> stage_run chain cfg bs parent -> silent cfg parent bs ->
  exists r bs1 b bs2, bs_NextBatch l2 parent bs = (r, bs1) /\
    (r = Ok (b, true) \/ r = Err EOF /\ bs_NextBatch l2' parent bs1 = (Ok (b, true), bs2)) /\ Transactions b = [].
Proof using BL.
  intros Hc Hbt Hr Hs. destruct (stage_run_inv chain Hc cfg bs parent Hbt Hr) as [Hp Hi].
  by apply (silence_ends chain Hc cfg l2 l2').
Qed.

End Stage.

(** ** Attributes *)

Section AttributesQueue.
Context {K : Keccak} {KL : KeccakLaws K} {G : Geth} {GL : GethLaws G} {U : UpgradeTransactions}.
Context {P : Type} {SP : SingularProvider P}.

(** C30. When the engine rejects attributes that were derived from a batch, the queue
    offers the attributes of the same block again with exactly the transactions
    that [PreparePayloadAttributes] put there - the L1 information, the deposits
    and the upgrades - and drops the channel of the batch. *)
Theorem deposits_only_block (cfg : Config) (l1 : L1ReceiptsFetcher) (sysByHash : hash -> outcome SystemConfig)
    (aq aq' : AttributesQueue P) (parent : L2BlockRef) (attr : AttributesWithParent) (prev' : P) :
  let builder := PreparePayloadAttributes cfg l1 sysByHash in
  upgrades_are_deposits cfg -> (forall h c, sysByHash h = Ok c -> system_wf c) ->
  NextAttributes builder parent aq = (Ok attr, aq') ->
  (forall b, (aq_batch aq = Some b \/ exists c prev, NextSingularBatch parent (aq_prev aq) = (Ok (b, c), prev)) ->
     l1_knows cfg l1 (Epoch b) /\ Forall (tx_allowed (IsIsthmus cfg (Timestamp b))) (Transactions b)) ->
  singular_Flush (aq_prev aq') = (Ok (), prev') ->
  exists attr' aq'' b attrs, DepositsOnlyAttributes (L2BlockRef_ID parent) (DerivedFrom attr) aq' = (Ok attr', aq'') /\
    builder parent (Epoch b) = Ok attrs /\ pa_Transactions (aw_Attributes attr) = pa_Transactions attrs ++ Transactions b /\
    pa_Transactions (aw_Attributes attr') = pa_Transactions attrs /\ pa_Timestamp (aw_Attributes attr') = pa_Timestamp (aw_Attributes attr) /\
    aw_Parent attr' = parent /\ IsDepositsOnly (aw_Attributes attr') = true /\ aq_prev aq'' = prev'.
Proof using KL GL.
  intros builder Hu Hs R Hb Hf.
  destruct (next_attributes_ok builder aq aq' parent attr R) as (b & attrs & B1 & _ & _ & B4 & B5 & B6 & _ & B8 & B9 & B10).
  destruct (Hb b) as [Hk Ha]; [destruct B10 as [B10 | [_ B10]]; [by left | by right] |].
  destruct (deposits_only_ok aq' attr prev' B8 B9 Hf) as (aq'' & D1 & _ & D3). rewrite B6 in D1.
  pose proof (prepared_all_deposits cfg l1 sysByHash parent (Epoch b) attrs Hu Hk (Hs _) B1) as Hd.
  exists (aw_WithDepositsOnly attr), aq'', b, attrs. split; [done |]. split; [done |]. split; [done |].
  assert (pa_Transactions (aw_Attributes (aw_WithDepositsOnly attr)) = pa_Transactions attrs) as Ht.
  { cbn. rewrite B4. by apply filter_deposits with (IsIsthmus cfg (Timestamp b)). }
  split; [done |]. split; [done |]. split; [done |]. split; [| done].
  unfold IsDepositsOnly. rewrite Ht. apply forallb_forall. intros x Hx. rewrite List.Forall_forall in Hd. by apply Hd.
Qed.

End AttributesQueue.

(** ** An origin can be skipped *)

#[local] Existing Instances toy_digest toy_digest_laws toy_geth toy_geth_laws toy_upgrades toy_span_txs.

(** The stage at block 24, four blocks after the origin 20 of the head, without any
    batches: it has given up epoch 20. *)
Definition waiting : baseBatchStage toy_batches := toy_run (toy_head 290 20) 20 4 (toy_reset 20).

Definition skipping_batch : SingularBatch := mkSingularBatch (toy_hash 60) 22 (toy_hash 22) 292 [].

(** C27. The rule that a block has the origin of its parent or the next one is not
    enforced on singular batches: once the stage has given up an epoch, without
    having produced a block in the next one, it accepts a batch whose origin is two
    blocks after the origin of the safe head. The attributes for that batch are
    then refused with an error that asks for a reset. *)
Theorem origin_skipped :
  stage_run toy_chain toy_config waiting (toy_head 290 20) /\
  (exists bs', bs_NextBatch toy_l2 (toy_head 290 20) (set_prev (mkToyBatches (toy_block 25) [Singular skipping_batch]) waiting) =
     (Ok (skipping_batch, true), bs')) /\
  EpochNum skipping_batch = b_Number (L1Origin (toy_head 290 20)) + 2 /\
  PreparePayloadAttributes toy_config toy_l1 toy_system_by_hash (toy_head 290 20) (Epoch skipping_batch) =
    Err (NewResetError "cannot create new block with L1 origin on top of L1 origin").
Proof.
  split; [| split; [eexists; by vm_compute | split; [done | by vm_compute]]].
  apply (toy_run_ok (toy_head 290 20) 20 4 (toy_reset 20)); [apply toy_reset_run; lia | done | done | lia | lia].
Qed.

Module BlockInstances.

(** The L1 information of block 21, in the block at time 292. *)
Definition info_data : list Z :=
  match L1InfoDeposit toy_config toy_system 0 (toy_info 21) 292 with Ok dep => dt_Data dep | _ => [] end.

Lemma l1_info_canonical_witness :
  exists info, L1BlockInfoFromBytes toy_config 292 info_data = Ok info /\ info_Number info = 21 /\
    marshal_info toy_config 292 info = Ok info_data.
Proof.
  assert (bytes_ok info_data) as Hb.
  { apply (bool_decide_unpack (Forall (fun b => 0 <= b < 256) info_data)). by vm_compute. }
  destruct (L1BlockInfoFromBytes toy_config 292 info_data) as [info | |] eqn:E; [| by vm_compute in E ..].
  exists info. split; [done |].
  destruct (proj1 (l1_info_canonical toy_config 292 info_data info ltac:(by vm_compute) Hb) E) as [_ Hm].
  split; [| exact Hm]. vm_compute in E. injection E as <-. done.
Defined.

Definition attributes_21 : outcome PayloadAttributes :=
  PreparePayloadAttributes toy_config toy_l1 toy_system_by_hash (toy_head 290 20) (L1BlockRef_ID (toy_block 21)).

(** A block with these transactions and one more. *)
Definition payload_of (attrs : PayloadAttributes) : ExecutionPayload :=
  mkExecutionPayload (toy_hash 60) 201 30000000 (pa_Timestamp attrs) [0; 0; 0; 0; 250; 0; 0; 0; 6] (toy_hash 62)
    (pa_Transactions attrs ++ [[2; 9]]).

Lemma attributes_name_origin_witness :
  exists attrs, attributes_21 = Ok attrs /\
    PayloadToBlockRef toy_config (payload_of attrs) =
      Ok (mkL2BlockRef (toy_hash 62) 201 (toy_hash 60) 292 (L1BlockRef_ID (toy_block 21)) 0).
Proof.
  destruct attributes_21 as [attrs | |] eqn:E; [| by vm_compute in E ..]. exists attrs. split; [done |].
  apply (attributes_name_origin toy_config toy_l1 toy_system_by_hash (toy_head 290 20) (L1BlockRef_ID (toy_block 21)) attrs
    (payload_of attrs) [[2; 9]]); [by vm_compute | apply (toy_knows 21); lia | intros c [= <-]; apply toy_system_wf | cbn; unfold in_range; lia | exact E | reflexivity | reflexivity | done].
Defined.

Definition payload_with (tx : list Z) : ExecutionPayload :=
  mkExecutionPayload (toy_hash 60) 201 30000000 292 [0; 0; 0; 0; 250; 0; 0; 0; 6] (toy_hash 62) [tx].

Lemma system_config_recovered_witness :
  exists tx r, L1InfoDepositBytes toy_config toy_system 0 (toy_info 21) 292 = Ok tx /\
    PayloadToSystemConfig toy_config (payload_with tx) = Ok r /\
    same_system toy_config 292 r toy_system /\ GasLimit r = 30000000.
Proof.
  destruct (L1InfoDepositBytes toy_config toy_system 0 (toy_info 21) 292) as [tx | |] eqn:E; [| by vm_compute in E ..].
  destruct (PayloadToSystemConfig toy_config (payload_with tx)) as [r | |] eqn:R.
  2, 3: vm_compute in E; injection E as <-; by vm_compute in R.
  exists tx, r. split; [done |]. split; [done |].
  apply (system_config_recovered toy_config toy_system 0 292 (toy_info 21) tx (payload_with tx) [] r);
    [by vm_compute | by apply toy_info_wf | apply toy_system_wf | by vm_compute | done ..].
Defined.

Lemma toy_deposit_wf : deposit_wf toy_deposit.
Proof.
  split; cbn; try done.
  - by intros to [= <-].
  - by intros m [= <-].
Qed.

Lemma deposit_log_roundtrip_witness :
  exists l dep, MarshalDepositLogEvent (replicate 20 4) toy_deposit = Ok l /\
    UnmarshalDepositLogEvent (logged_at (toy_hash 21) 4 l) = Ok dep /\ dt_Mint dep = Some 5 /\ dt_To dep = Some (replicate 20 78).
Proof.
  destruct (MarshalDepositLogEvent (replicate 20 4) toy_deposit) as [l | |] eqn:E; [| by vm_compute in E ..].
  eexists l, _. split; [done |]. split; [apply (deposit_log_roundtrip (replicate 20 4) toy_deposit l (toy_hash 21) 4 toy_deposit_wf E) | done].
Defined.

Lemma source_hashes_unique_witness :
  SourceHash (UserDeposit (toy_hash 21) 4) = SourceHash (UserDeposit (toy_hash 21) 4) /\
  (SourceHash (UserDeposit (toy_hash 21) 4) = SourceHash (L1InfoDeposited (toy_hash 21) 4) ->
   collision (source_inputs (UserDeposit (toy_hash 21) 4)) (source_inputs (L1InfoDeposited (toy_hash 21) 4))).
Proof.
  split; [reflexivity |]. intros E. assert (length (toy_hash 21) = 32%nat /\ in_range 64 4) as Hw by (split; [reflexivity | unfold in_range; lia]).
  destruct (source_hashes_unique (UserDeposit (toy_hash 21) 4) (L1InfoDeposited (toy_hash 21) 4) Hw Hw E) as [? | H]; [discriminate | exact H].
Defined.

Lemma deposits_included_witness :
  exists attrs tx deposits upgrades, attributes_21 = Ok attrs /\ pa_Transactions attrs = tx :: deposits ++ upgrades /\
    upgrade_transactions toy_config 292 = Ok upgrades /\ length (pa_Transactions attrs) = 2%nat.
Proof.
  destruct attributes_21 as [attrs | |] eqn:E; [| by vm_compute in E ..].
  destruct (deposits_included toy_config toy_l1 toy_system_by_hash (toy_head 290 20) (L1BlockRef_ID (toy_block 21)) attrs)
    as (tx & deposits & upgrades & Ht & Hu & _); [apply (toy_knows 21); lia | intros c [= <-]; apply toy_system_wf | exact E |].
  exists attrs, tx, deposits, upgrades. split; [reflexivity |]. split; [exact Ht |]. vm_compute in E. injection E as <-. split; [exact Hu | reflexivity].
Defined.

(** A new gas limit. *)
Definition gas_event : Log :=
  mkLog (replicate 20 5) [ConfigUpdateEventABIHash; zero_hash; SystemConfigUpdateGasLimit] (abi 32 (Solabi.WriteUint64 60000000))
    (toy_hash 21) 5.

Lemma config_updates_witness :
  ProcessSystemConfigUpdateLogEvent toy_system gas_event toy_config 252 = Ok (set_gas_limit 60000000 toy_system).
Proof.
  apply (config_updates toy_system (set_gas_limit 60000000 toy_system) gas_event toy_config 252).
  - apply (bool_decide_unpack (Forall (fun b => 0 <= b < 256) (log_Data gas_event))). by vm_compute.
  - exists (NewGasLimit 60000000). split; [reflexivity |]. split; [split; [unfold in_range; lia | reflexivity] | reflexivity].
Defined.

(** The batch for the next slot, with the next epoch. *)
Definition next_batch : BatchWithL1InclusionBlock :=
  mkBatchWithL1 (Singular (mkSingularBatch (toy_hash 60) 21 (toy_hash 21) 292 [[2; 9]])) (toy_block 22).

Lemma early_decisions_final_witness :
  CheckBatch toy_config [toy_block 20; toy_block 21] (toy_head 290 20) next_batch toy_l2 = Ok BatchAccept /\
  CheckBatch toy_config [toy_block 20; toy_block 21; toy_block 22; toy_block 23] (toy_head 290 20) next_batch toy_l2 = Ok BatchAccept.
Proof.
  assert (CheckBatch toy_config [toy_block 20; toy_block 21] (toy_head 290 20) next_batch toy_l2 = Ok BatchAccept) as H by by vm_compute.
  split; [exact H |].
  apply (early_decisions_final toy_config [toy_block 20; toy_block 21] [toy_block 22; toy_block 23]); [| done | exact H | done].
  repeat constructor.
Defined.




(** The stage at block 22, after a batch for block 21 has arrived. *)
Definition stage_22 : baseBatchStage toy_batches :=
  set_prev (mkToyBatches (toy_block 22) [bw_Batch next_batch]) (toy_run (toy_head 290 20) 20 1 (toy_reset 20)).

Lemma stage_22_run : stage_run toy_chain toy_config stage_22 (toy_head 290 20).
Proof.
  destruct (toy_run_ok (toy_head 290 20) 20 1 (toy_reset 20)) as (Hr & Hb & Ho); [apply toy_reset_run; lia | done | done | lia | lia |].
  apply run_advance; [exact Hr | by rewrite Hb, Ho | apply toy_canonical; lia | by rewrite Ho].
Qed.

Lemma derived_blocks_extend_witness :
  exists b bs', bs_NextBatch toy_l2 (toy_head 290 20) stage_22 = (Ok (b, true), bs') /\ Transactions b = [[2; 9]] /\
    extends toy_chain toy_config (toy_head 290 20) b.
Proof.
  destruct (bs_NextBatch toy_l2 (toy_head 290 20) stage_22) as [[[b c] | |] bs'] eqn:R; [| by vm_compute in R ..].
  assert (extends toy_chain toy_config (toy_head 290 20) b) as H.
  { apply (derived_blocks_extend toy_chain toy_config stage_22 bs' (toy_head 290 20) toy_l2 b c); [exact toy_numbered | done | apply stage_22_run | exact R]. }
  exists b, bs'. vm_compute in R. injection R as <- <- <-. split; [reflexivity |]. split; [reflexivity | exact H].
Defined.

(** Block 26, without any batches since block 20. *)
Definition silent_stage : baseBatchStage toy_batches := toy_run (toy_head 250 20) 20 6 (toy_reset 20).

Lemma silence_forces_blocks_witness :
  exists r bs1 b bs2, bs_NextBatch toy_l2 (toy_head 250 20) silent_stage = (r, bs1) /\
    (r = Ok (b, true) \/ r = Err EOF /\ bs_NextBatch toy_l2 (toy_head 250 20) bs1 = (Ok (b, true), bs2)) /\ Transactions b = [].
Proof.
  destruct (toy_run_ok (toy_head 250 20) 20 6 (toy_reset 20)) as (Hr & Hb & _); [apply toy_reset_run; lia | done | done | lia | lia |].
  apply (silence_forces_blocks toy_chain toy_config silent_stage (toy_head 250 20) toy_l2 toy_l2); [exact toy_numbered | done | exact Hr |].
  split; [vm_compute; reflexivity | vm_compute; reflexivity | cbn; lia |]. unfold silent_stage. rewrite Hb. cbn. lia.
Defined.

(** The queue on top of that stage. *)
#[local] Instance stage_provider : SingularProvider (baseBatchStage toy_batches) := {|
  NextSingularBatch := bs_NextBatch toy_l2;
  singular_Origin := base_Origin;
  singular_Flush := bs_FlushChannel;
|}.

Definition queue_22 : AttributesQueue (baseBatchStage toy_batches) := NewAttributesQueue toy_config stage_22.

Lemma toy_upgrades_deposits : upgrades_are_deposits toy_config.
Proof.
  intros t upgrades. unfold upgrade_transactions. cbn [EcotoneNetworkUpgradeTransactions FjordNetworkUpgradeTransactions IsthmusNetworkUpgradeTransactions toy_upgrades wrap_error].
  destruct (IsEcotoneActivationBlock _ _), (IsFjordActivationBlock _ _), (IsIsthmusActivationBlock _ _); intros [= <-]; repeat constructor.
Qed.

Lemma deposits_only_block_witness :
  exists attr aq' attr' aq'',
    NextAttributes (PreparePayloadAttributes toy_config toy_l1 toy_system_by_hash) (toy_head 290 20) queue_22 = (Ok attr, aq') /\
    length (pa_Transactions (aw_Attributes attr)) = 3%nat /\
    DepositsOnlyAttributes (L2BlockRef_ID (toy_head 290 20)) (DerivedFrom attr) aq' = (Ok attr', aq'') /\
    IsDepositsOnly (aw_Attributes attr') = true.
Proof.
  destruct (NextAttributes (PreparePayloadAttributes toy_config toy_l1 toy_system_by_hash) (toy_head 290 20) queue_22) as [r aq'] eqn:R.
  destruct r as [attr | |]; [| vm_compute in R; discriminate R ..].
  destruct (singular_Flush (aq_prev aq')) as [f prev'] eqn:F.
  assert (f = Ok ()) as ->. { clear -F. destruct aq' as [c [c2 p o l n] b q la]. injection F as <- _. reflexivity. }
  destruct (deposits_only_block toy_config toy_l1 toy_system_by_hash queue_22 aq' (toy_head 290 20) attr prev')
    as (attr' & aq'' & b & attrs & D1 & _ & _ & _ & _ & _ & D2 & _).
  - exact toy_upgrades_deposits.
  - intros h c [= <-]. apply toy_system_wf.
  - exact R.
  - intros b [E | (c & prev & E)]; [discriminate E |]. vm_compute in E. injection E as <- _ _. split; [apply (toy_knows 21); lia |].
    constructor; [| constructor]. exists 2, [9]. split; [reflexivity |]. split; [discriminate | right; discriminate].
  - exact F.
  - exists attr, aq', attr', aq''. split; [reflexivity |]. split; [| split; [exact D1 | exact D2]].
    vm_compute in R. injection R as <- _. reflexivity.
Defined.

End BlockInstances.
