(* ===== verification/MemoryTheorems.v ===== *)
(** The memory refines a plain map from addresses to bytes: whatever the order
    of loads, stores, root computations and proofs, the page table, its two-slot
    cache, the page caches and the node index are not observable. *)
From Stdlib Require Import ZArith Lia.
From stdpp Require Import base gmap list strings numbers.
From S2P Require Import Prelude Arch Codec Memory MerkleSpec MemoryProps MerkleProps ExecProps MTStep.
From S2P Require Import Insn Exec Threads MemoryRange InsnProps MTProps Commit Toy.



Section Refine.
Context {A : Arch} {K : Keccak}.

(** *** The abstract memory: a function from addresses to bytes *)



(** *** The memory of the VM *)








End Refine.

(** The properties of the memory of the VM (cannon/mipsevm/memory) and of its
    commitments, each with an instance. *)

Section Theorems.
Context {A : Arch} {K : Keccak}.


(** [MerkleProof] never fails: the encoded proof has the fixed size, starts
    with the 32-byte leaf that holds the address, and hashing the leaf with the
    siblings along the bits of the address gives the root of the memory, whose
    contents do not change. *)
Theorem merkle_proof_verifies {KL : KeccakLaws K} (m : Memory) (addr : Z) :
  mem_wf m -> merkle_ok m -> is_word addr ->
  exists proof m', MerkleProof addr m = Ok (proof, m') /\
    zlen proof = MemProofSize /\ take 32 proof = leaf_bytes m addr /\
    proof_root addr proof = mem_node m 1 /\
    (exists m'', MerkleRoot m = Ok (mem_node m 1, m'')) /\ same_bytes m m'.
Proof.
  intros Hw Hm Ha. destruct (MerkleProof_complete m addr Hw Hm Ha) as (p & m' & R & H1 & H2 & H3 & _ & _ & B).
  destruct (MerkleRoot_run m Hw Hm) as (m'' & R' & _). eauto 9.
Qed.

(** C16. A memory proof is binding: bytes of the size of a proof that lead from
    an address to the root returned by [MerkleRoot] start with the leaf that is
    in memory, unless they exhibit a break of the hash function: a collision with
    what is hashed for the proof the code generates, or a zero hash. *)
Theorem merkle_proof_binding {KL : KeccakLaws K} (m m' : Memory) (addr : Z) (root : hash) (proof : list Z) :
  mem_wf m -> merkle_ok m -> is_word addr -> MerkleRoot m = Ok (root, m') ->
  zlen proof = MemProofSize -> proof_root addr proof = root ->
  exists proof' m2, MerkleProof addr m = Ok (proof', m2) /\
    (broken (proof_inputs addr proof) (proof_inputs addr proof') \/ take 32 proof = leaf_bytes m addr).
Proof.
  intros Hw Hm Ha R Hs Hr. destruct (MerkleRoot_run m Hw Hm) as (m2 & R2 & _).
  rewrite R2 in R. injection R as <- _. by apply MerkleProof_sound.
Qed.

(** Reading a range through [ReadMemoryRange] delivers the bytes of the
    memory at those addresses, zero where no page was allocated, whatever the
    size of the buffer the reader is called with, and across page borders. *)
Theorem read_range_bytes (m : Memory) (bufLen addr count : Z) :
  mem_wf m -> 0 < bufLen -> is_word addr -> 0 <= count -> addr + count < 2 ^ WordSize ->
  exists m', ReadAll bufLen (ReadMemoryRange addr count) m
      = Ok (fbytes (mem_byte m) addr (Z.to_nat count), m') /\ same_store m m'.
Proof.
  intros Hw Hb Ha Hc Hr. destruct (ReadAll_spec m bufLen addr count Hw Hb Ha Hc Hr) as (m' & R & Hs & _). eauto.
Qed.

(** [SetMemoryRange] writes the bytes a reader delivers from the address
    on, allocating the pages it needs, and nothing else, whatever the sizes of
    the reader's chunks; as long as no node hash was computed before, the next
    root is that of the new contents. *)
Theorem set_range_bytes (m : Memory) (addr : Z) (r : Reader) :
  mem_wf m -> bytes_ok (rd_data r) -> rd_joint r = false -> rd_end r = None ->
  is_word addr -> addr + zlen (rd_data r) <= 2 ^ WordSize ->
  exists m', SetMemoryRange addr r m = Ok ((), m') /\
    (forall b, mem_byte m' b = write_bytes (mem_byte m) addr (rd_data r) b) /\
    (merkle_ok m -> no_cached m -> exists m'', MerkleRoot m' = Ok (mem_node m' 1, m'')).
Proof.
  intros Hw Hb Hj He Ha Hl. destruct (SetMemoryRange_spec m addr r Hw Hb Hj He Ha Hl) as (m' & R & W & B & M).
  exists m'. split; [done | split; [done |]]. intros Hm Hn. destruct (M Hm Hn) as [Hm' _].
  destruct (MerkleRoot_run m' W Hm') as (m'' & R' & _). eauto.
Qed.

(** Writing a memory and reading it back into an empty one gives a memory
    with the same pages, hence the same bytes and the same root, and consumes
    exactly the bytes that were written. *)
Theorem memory_roundtrip (m : Memory) (rest : list Z) :
  mem_wf m ->
  exists m', Memory_Deserialize NewMemory (Memory_Serialize m ++ rest) = Ok (m', rest) /\
    same_pages m m' /\ (forall a, mem_byte m' a = mem_byte m a) /\
    exists m'', MerkleRoot m' = Ok (mem_node m 1, m'').
Proof.
  intros Hw. destruct (Memory_Deserialize_spec m rest Hw) as (m' & R & Hs & W & M).
  exists m'. split; [done | split; [done |]].
  assert (forall a, mem_byte m' a = mem_byte m a) as Hb by (intros a; by rewrite Hs).
  split; [done |]. destruct (MerkleRoot_run m' W M) as (m'' & R' & _). exists m''. rewrite R'. do 2 f_equal.
  apply subtree_ext. intros a _. apply Hb.
Qed.

Lemma page_anc_root m k r : mem_wf m -> pageTable m !! k = Some r -> page_anc k 1.
Proof.
  intros Hw Hp. pose proof (wf_keys m Hw k r Hp) as Hk. pose proof PageKeySize_pos.
  exists PageKeySize. split; [lia |]. split; [| lia]. rewrite Z.shiftr_div_pow2 by lia.
  symmetry. apply (Z.div_unique _ _ _ k); [| lia]. left.
  replace (2 ^ PageKeySize) with MaxPageCount by (by destruct A). lia.
Qed.

(** A computed root is cached in the node index. *)
Lemma root_cached m h m1 :
  is_Some (nodes m !! 1) -> MerkleRoot m = Ok (h, m1) -> nodes m1 !! 1 = Some (Some h).
Proof.
  intros [o Ho] R. unfold MerkleRoot, MerkleizeSubtree in R.
  destruct (Z.to_nat PageKeySize) as [|n] eqn:En; [by destruct A |].
  cbn [MerkleizeSubtree_fuel] in R. change (Len64 1) with 1 in R.
  replace (MemProofLeafCount <? 1) with false in R by (by destruct A).
  replace (PageKeySize <? 1) with false in R by (by destruct A).
  apply ST_bind_ok in R as (m0 & m2 & Rg & R). injection Rg as <- <-. rewrite Ho in R.
  destruct o as [v |]; [by injection R as <- <- |].
  apply ST_bind_ok in R as (l & m2 & _ & R). apply ST_bind_ok in R as (r & m3 & _ & R).
  apply ST_bind_ok in R as ([] & m4 & R1 & R). injection R1 as <-. injection R as <- <-.
  cbn. by rewrite lookup_insert_eq.
Qed.

Lemma cached_root m h : nodes m !! 1 = Some (Some h) -> MerkleRoot m = Ok (h, m).
Proof.
  intros Ho. unfold MerkleRoot, MerkleizeSubtree.
  destruct (Z.to_nat PageKeySize) as [|n] eqn:En; [by destruct A |].
  cbn [MerkleizeSubtree_fuel]. change (Len64 1) with 1.
  replace (MemProofLeafCount <? 1) with false by (by destruct A).
  replace (PageKeySize <? 1) with false by (by destruct A).
  rewrite (ST_bind_run get _ m m m eq_refl). by rewrite Ho.
Qed.

(** [SetMemoryRange] invalidates the cache of a page but not the nodes above
    it: once a root has been computed, writing a range within an existing page
    leaves the old root in place, whatever the bytes written. *)
Theorem set_range_stale_root (m m1 m2 : Memory) (addr : Z) (data : list Z) (h : hash) (r0 : nat) :
  mem_wf m -> merkle_ok m -> is_word addr -> pageTable m !! ushr addr PageAddrSize = Some r0 ->
  data <> [] -> zlen data <= PageSize - (addr .& PageAddrMask) ->
  MerkleRoot m = Ok (h, m1) -> SetMemoryRange addr (bytes_NewReader data) m1 = Ok ((), m2) ->
  MerkleRoot m2 = Ok (h, m2).
Proof.
  intros Hw Hm Ha Hp Hd Hl R1 R2. apply cached_root.
  destruct (MerkleizeSubtree_spec 1 m Hw Hm) as (h' & m1' & R & _ & C & W & _); [lia | by destruct A |].
  unfold MerkleRoot in R1. rewrite R in R1. injection R1 as -> ->.
  erewrite SetMemoryRange_keeps_nodes; [| exact W | exact Ha | | exact Hd | exact Hl | exact R2].
  - eapply root_cached; [| exact R]. eapply mk_anc; [done | exact Hp |]. exact (page_anc_root m _ r0 Hw Hp).
  - destruct C as (-> & _). exact Hp.
Qed.

End Theorems.

(** ** Instances *)

Module MemoryInstances.
Import Toy.
#[local] Existing Instances digest oracle metadata cache digest_laws.
#[local] Existing Instance Mips32.

Lemma small32 x : 0 <= x < 2 ^ 32 -> is_word x.
Proof. done. Qed.



Lemma merkle_proof_verifies_witness :
  exists proof m', MerkleProof 0x1006 (stored words) = Ok (proof, m') /\
    zlen proof = MemProofSize /\ take 32 proof = leaf_bytes (stored words) 0x1006 /\
    proof_root 0x1006 proof = mem_node (stored words) 1 /\
    (exists m'', MerkleRoot (stored words) = Ok (mem_node (stored words) 1, m'')) /\
    same_bytes (stored words) m'.
Proof.
  apply (merkle_proof_verifies (stored words) 0x1006); [apply stored_ok, words_aligned .. | done].
Defined.

Definition run {X} (op : ST Memory X) (m : Memory) (d : X) : X * Memory :=
  match op m with Ok p => p | _ => (d, m) end.

Definition root1 : hash * Memory := run MerkleRoot (stored words) [].
Definition proof1 : list Z := (run (MerkleProof 0x1006) (stored words) []).1.

Lemma merkle_proof_binding_witness :
  exists proof' m2, MerkleProof 0x1006 (stored words) = Ok (proof', m2) /\
    (broken (proof_inputs 0x1006 proof1) (proof_inputs 0x1006 proof') \/
     take 32 proof1 = leaf_bytes (stored words) 0x1006).
Proof.
  apply (merkle_proof_binding (stored words) root1.2 0x1006 root1.1 proof1);
    [apply stored_ok, words_aligned .. | done | | |]; vm_compute; reflexivity.
Defined.

Lemma read_range_bytes_witness :
  exists m', ReadAll 3 (ReadMemoryRange 0x1ffe 8) (stored words)
      = Ok (fbytes (mem_byte (stored words)) 0x1ffe 8, m') /\ same_store (stored words) m'.
Proof.
  apply (read_range_bytes (stored words) 3 0x1ffe 8); [apply stored_ok, words_aligned | done ..].
Defined.

(** A reader that delivers its bytes in pieces. *)
Definition reader : Reader := mkReader [1; 2; 3; 4; 5] [0%nat; 1%nat] None false.

Lemma set_range_bytes_witness :
  exists m', SetMemoryRange 0x3ffe reader (stored words) = Ok ((), m') /\
    (forall b, mem_byte m' b = write_bytes (mem_byte (stored words)) 0x3ffe [1; 2; 3; 4; 5] b) /\
    (merkle_ok (stored words) -> no_cached (stored words) ->
     exists m'', MerkleRoot m' = Ok (mem_node m' 1, m'')).
Proof.
  apply (set_range_bytes (stored words) 0x3ffe reader); try done; [apply stored_ok, words_aligned |].
  repeat constructor; done.
Defined.

Lemma memory_roundtrip_witness :
  exists m', Memory_Deserialize NewMemory (Memory_Serialize (stored words) ++ [9]) = Ok (m', [9]) /\
    same_pages (stored words) m' /\ (forall a, mem_byte m' a = mem_byte (stored words) a) /\
    exists m'', MerkleRoot m' = Ok (mem_node (stored words) 1, m'').
Proof. apply (memory_roundtrip (stored words) [9]). apply stored_ok, words_aligned. Defined.

Definition range1 : unit * Memory := run (SetMemoryRange 0x1004 (bytes_NewReader [9; 9])) root1.2 ().

Lemma set_range_stale_root_witness : MerkleRoot range1.2 = Ok (root1.1, range1.2).
Proof.
  apply (set_range_stale_root (stored words) root1.2 range1.2 0x1004 [9; 9] root1.1 1);
    [apply stored_ok, words_aligned .. | done | vm_compute; reflexivity | done | vm_compute; discriminate
    | vm_compute; reflexivity | vm_compute; reflexivity].
Defined.

End MemoryInstances.
