(* ===== verification/InsnTheorems.v ===== *)
(** The properties of the instruction set (cannon/mipsevm/exec/mips_instructions.go),
    each with an instance. *)
From Stdlib Require Import ZArith Lia.
From stdpp Require Import base gmap list strings numbers.
From S2P Require Import Prelude Arch Codec Insn Memory Exec MerkleSpec MemoryProps MerkleProps.
From S2P Require Import MemoryRange InsnProps ExecProps SyscallProps SyscallSpec Toy.

(** A word of the memory [f]. *)
Definition fword {A : Arch} (f : Z -> Z) (a : Z) : Z := be_decode (fbytes f a (Z.to_nat WordSizeBytes)).

Section Unaligned.
Context {A : Arch}.

Lemma fbytes_ok f a n : (forall b, is_byte (f b)) -> bytes_ok (fbytes f a n).
Proof. intros H. apply Forall_fmap, Forall_forall. intros k _. apply H. Qed.

Lemma zlen_word f a : zlen (fbytes f a (Z.to_nat WordSizeBytes)) = WordSizeBytes.
Proof. unfold zlen. rewrite length_fbytes. apply word_len. Qed.

Lemma word_bytes x : is_word x ->
  exists bs, x = be_decode bs /\ bytes_ok bs /\ zlen bs = WordSizeBytes /\ bs = ByteOrder_PutWord x.
Proof.
  intros Hx. exists (ByteOrder_PutWord x). split; [symmetry; by apply PutWord_Word |].
  split; [apply be_encode_bytes | split; [apply length_PutWord | done]].
Qed.

(** A word at any address [a], aligned or not, is loaded by the left
    instruction at [a] followed by the right instruction at the last byte of the
    word (lwl and lwr on the 32-bit VM, ldl and ldr on the 64-bit VM), each
    seeing only the aligned memory word that holds its address: whatever the
    register held before, it ends up with the bytes at [a] in big-endian order. *)
Theorem unaligned_load (f : Z -> Z) (a x insn fun_ : Z) :
  (forall b, is_byte (f b)) -> is_word x ->
  exists y, ExecuteMipsInstruction insn op_load_left fun_ a x (fword f (aligned a)) = Ok y /\
    let a' := a + WordSizeBytes - 1 in
    ExecuteMipsInstruction insn op_load_right fun_ a' y (fword f (aligned a')) = Ok (fword f a).
Proof.
  intros Hf Hx. destruct (word_bytes x Hx) as (xs & -> & Hxs & Lxs & _).
  pose proof (fbytes_ok f (aligned a) (Z.to_nat WordSizeBytes) Hf) as Hb.
  unfold fword at 1. rewrite load_left_bytes by (done || apply zlen_word). eexists. split; [done |]. cbn zeta.
  pose proof (Z.mod_pos_bound a WordSizeBytes WordSizeBytes_pos) as Hk.
  unfold fword. rewrite load_right_bytes.
  - do 2 f_equal. by apply unaligned_load_bytes.
  - by apply fbytes_ok.
  - apply Forall_app; split; by apply Forall_drop.
  - apply zlen_word.
  - unfold zlen in *. rewrite length_app, !length_drop, length_fbytes. lia.
Qed.

(** A word is stored at any address by the left and the right store
    instruction (swl and swr, sdl and sdr): writing back the aligned words they
    compute leaves exactly the bytes of the register at [a], and every other
    byte of the memory as it was. *)
Theorem unaligned_store (f : Z -> Z) (a x insn fun_ b : Z) :
  (forall b, is_byte (f b)) -> is_word x ->
  exists w1, ExecuteMipsInstruction insn op_store_left fun_ a x (fword f (aligned a)) = Ok w1 /\
    let f1 := write_bytes f (aligned a) (ByteOrder_PutWord w1) in
    let a' := a + WordSizeBytes - 1 in
    exists w2, ExecuteMipsInstruction insn op_store_right fun_ a' x (fword f1 (aligned a')) = Ok w2 /\
      write_bytes f1 (aligned a') (ByteOrder_PutWord w2) b = write_bytes f a (ByteOrder_PutWord x) b.
Proof.
  intros Hf Hx. destruct (word_bytes x Hx) as (xs & Ex & Hxs & Lxs & <-). rewrite Ex.
  pose proof (Z.mod_pos_bound a WordSizeBytes WordSizeBytes_pos) as Hk.
  pose proof (fbytes_ok f (aligned a) (Z.to_nat WordSizeBytes) Hf) as Hb.
  unfold fword at 1. rewrite store_left_bytes by (done || apply zlen_word). eexists. split; [done |].
  set (l1 := take _ _ ++ take _ xs). assert (bytes_ok l1 /\ zlen l1 = WordSizeBytes) as [Hl1 Ll1].
  { split; [apply Forall_app; split; by apply Forall_take |].
    unfold l1, zlen in *. rewrite length_app, !length_take, length_fbytes. lia. }
  change (be_decode l1) with (ByteOrder_Word l1). rewrite Word_PutWord by done. cbn zeta.
  set (f1 := write_bytes f (aligned a) l1). set (a' := a + WordSizeBytes - 1).
  assert (forall b, is_byte (f1 b)) as Hf1.
  { intros y. unfold f1, write_bytes, list_byte. case_decide; [| apply Hf].
    destruct (l1 !! _) as [z |] eqn:E; cbn; [by eapply Forall_lookup_1 | done]. }
  unfold fword. rewrite store_right_bytes by (try apply zlen_word; try apply fbytes_ok; done).
  eexists. split; [done |].
  pose proof (Z.mod_pos_bound a' WordSizeBytes WordSizeBytes_pos) as Hk'.
  set (l2 := drop _ xs ++ _). assert (bytes_ok l2 /\ zlen l2 = WordSizeBytes) as [Hl2 Ll2].
  { split; [apply Forall_app; split; apply Forall_drop; [done | by apply fbytes_ok] |].
    unfold l2, zlen in *. rewrite length_app, !length_drop, length_fbytes. lia. }
  change (be_decode l2) with (ByteOrder_Word l2). rewrite Word_PutWord by done.
  by apply unaligned_store_bytes.
Qed.

End Unaligned.

Section Aligned.
Context {A : Arch} {K : Keccak}.

(** The loads of a part of a word: opcode, size, sign extension. *)
Definition load_ops : list (Z * Z * bool) :=
  [(0x20, 1, true); (0x21, 2, true); (0x23, 4, true); (0x24, 1, false); (0x25, 2, false)].

(** The stores of a part of a word: opcode and size. *)
Definition store_ops : list (Z * Z) := [(0x28, 1); (0x29, 2); (0x2b, 4)].

(** lb, lh, lw, lbu and lhu return the 1, 2 or 4 bytes of the naturally
    aligned unit that holds the address, in big-endian order, sign-extended to
    the width of a register or not as the opcode says, on both architectures. *)
Theorem aligned_load (m : Memory) (op n : Z) (sign : bool) (insn fun_ rs rt : Z) :
  mem_wf m -> is_word rs -> (op, n, sign) ∈ load_ops ->
  let x := be_decode (fbytes (mem_byte m) (rs - rs mod n) (Z.to_nat n)) in
  ExecuteMipsInstruction insn op fun_ rs rt (mem_word m (rs .& AddressMask))
  = Ok (if sign then Word (signed (8 * n) x) else x).
Proof.
  intros Hw Hr Hin x.
  assert (ExecuteMipsInstruction insn op fun_ rs rt (mem_word m (rs .& AddressMask))
    = Ok (SelectSubWord rs (mem_word m (rs .& AddressMask)) n sign) /\ sub_size n) as [-> Hn].
  { unfold load_ops in Hin. rewrite !elem_of_cons, elem_of_nil in Hin.
    destruct Hin as [[= -> -> ->] | [[= -> -> ->] | [[= -> -> ->] | [[= -> -> ->] | [[= -> -> ->] | []]]]]];
      (split; [by destruct A | unfold sub_size; lia]). }
  f_equal. pose proof (select_mem m rs n Hw Hr Hn) as E. unfold sub_addr in E. fold x in E.
  destruct sign; [by rewrite SelectSubWord_signed, E | done].
Qed.

(** sb, sh and sw compute the memory word that, written back, puts the low
    1, 2 or 4 bytes of the register at the naturally aligned unit that holds the
    address and leaves every other byte of the memory as it was. *)
Theorem aligned_store (m : Memory) (op n insn fun_ rs rt b : Z) :
  mem_wf m -> is_word rs -> (op, n) ∈ store_ops ->
  exists w, ExecuteMipsInstruction insn op fun_ rs rt (mem_word m (rs .& AddressMask)) = Ok w /\
    write_bytes (mem_byte m) (rs .& AddressMask) (ByteOrder_PutWord w) b
    = write_bytes (mem_byte m) (rs - rs mod n) (be_encode (Z.to_nat n) rt) b.
Proof.
  intros Hw Hr Hin.
  assert (ExecuteMipsInstruction insn op fun_ rs rt (mem_word m (rs .& AddressMask))
    = Ok (UpdateSubWord rs (mem_word m (rs .& AddressMask)) n rt) /\ sub_size n) as [-> Hn].
  { unfold store_ops in Hin. rewrite !elem_of_cons, elem_of_nil in Hin.
    destruct Hin as [[= -> ->] | [[= -> ->] | [[= -> ->] | []]]]; (split; [by destruct A | unfold sub_size; lia]). }
  eexists. split; [done |]. by apply update_mem.
Qed.

End Aligned.

Section Alu.
Context {A : Arch}.

Lemma wnot_testbit x j : 0 <= j <= 31 -> Z.testbit (wnot x) j = negb (Z.testbit x j).
Proof.
  intros Hj. unfold wnot, unot, wrap. rewrite Z.mod_pow2_bits_low, Z.lnot_spec by (pose proof WordSize_ge; lia). done.
Qed.

(** clz and clo count the leading zeros, respectively ones, of the low 32
    bits of the register: the counting loop terminates within 33 rounds and
    returns 32 when all bits agree. *)
Theorem clz_clo (insn rs rt mem : Z) :
  ExecuteMipsInstruction insn 0x1C 0x20 rs rt mem = Ok (lead_zeros rs) /\
  ExecuteMipsInstruction insn 0x1C 0x21 rs rt mem = Ok (lead_zeros (wnot rs)).
Proof.
  assert (forall x, Word (lead_zeros x) = lead_zeros x) as Hw.
  { intros x. apply Word_id, small_word. unfold lead_zeros. destruct (Z.eqb_spec (wrap 32 x) 0); [done |].
    pose proof (wrap_range 32 x ltac:(lia)) as [H1 H2]. pose proof (Z.log2_nonneg (wrap 32 x)).
    assert (Z.log2 (wrap 32 x) < 32) by (apply Z.log2_lt_pow2; lia). lia. }
  split.
  - transitivity (Ok (Word (count_ones 33 (wnot rs) 0))); [by destruct A |].
    rewrite (count_lead_zeros rs), Hw; [done |]. intros j Hj. by apply wnot_testbit.
  - transitivity (Ok (Word (count_ones 33 rs 0))); [by destruct A |].
    rewrite (count_lead_zeros (wnot rs)), Hw; [done |]. intros j Hj.
    by rewrite wnot_testbit, negb_involutive.
Qed.

(** mult and multu leave the exact 64-bit product in HI:LO - the signed
    product of the low 32 bits of the registers for mult, the unsigned one for
    multu - with both halves sign-extended to the width of a register. *)
Theorem mult_product (rs rt : Z) (c : CpuScalars) :
  (exists c', hilo 0x18 rs rt c = Ok (0, c') /\ PC c' = PC c /\ NextPC c' = NextPC c /\
     int32 (HI c') * 2 ^ 32 + uint32 (LO c') = int32 rs * int32 rt) /\
  (exists c', hilo 0x19 rs rt c = Ok (0, c') /\ PC c' = PC c /\ NextPC c' = NextPC c /\
     uint32 (HI c') * 2 ^ 32 + uint32 (LO c') = uint32 rs * uint32 rt).
Proof.
  split; (eexists; split; [reflexivity |]; split; [done |]; split; [done |]); cbn [HI LO set_HI set_LO].
  - pose proof (int32_bounds rs). pose proof (int32_bounds rt). rewrite halves64. unfold int64.
    assert (- 2 ^ (64 - 1) <= int32 rs * int32 rt < 2 ^ (64 - 1)) as Hb
      by (change (2 ^ (64 - 1)) with 9223372036854775808; nia).
    by rewrite !signed_small by (done || lia || by rewrite signed_small).
  - rewrite !uint32_SignExtend, !uint32_Word. unfold umul, uint32.
    pose proof (wrap_range 32 rs ltac:(lia)) as Hr. pose proof (wrap_range 32 rt ltac:(lia)) as Ht.
    unfold in_range in *. change (2 ^ 32) with 4294967296 in *.
    rewrite (wrap_small 64) by (unfold in_range; change (2 ^ 64) with 18446744073709551616; nia).
    set (p := wrap 32 rs * wrap 32 rt). assert (0 <= p < 18446744073709551616) by (unfold p; nia).
    rewrite ushr_div by lia. unfold wrap. change (2 ^ 32) with 4294967296.
    Z.to_euclidean_division_equations. lia.
Qed.

End Alu.

Section Alu64.
Existing Instance Mips64.

(** The case of dmult. *)
Definition dmult_result (rs rt : Z) (c : CpuScalars) : outcome (Z * CpuScalars) :=
  let '(hi, lo) := Mul64 (wrap 64 (abs64 (int64 rs))) (wrap 64 (abs64 (int64 rt))) in
  let '(hi, lo) :=
    if xorb (int64 rs <? 0) (int64 rt <? 0) then
      let hi := unot 64 hi in
      let lo := unot 64 lo in
      (if lo =? 0xFFFFFFFFFFFFFFFF then uadd 64 hi 1 else hi, uadd 64 lo 1)
    else (hi, lo) in
  Ok (0, set_LO (Word lo) (set_HI (Word hi) c)).

(** The signed product: a 128-bit magnitude, negated when the signs differ. *)
Lemma dmult_signed (rs rt : Z) (c : CpuScalars) :
  exists c', hilo 0x1c rs rt c = Ok (0, c') /\ int64 (HI c') * 2 ^ 64 + LO c' = int64 rs * int64 rt.
Proof.
  pose proof (int64_bounds rs) as Ba. pose proof (int64_bounds rt) as Bb.
  set (p := Z.abs (int64 rs) * Z.abs (int64 rt)).
  assert (0 <= p < 2 ^ 127) as Hp by (unfold p; change (2 ^ 127) with 170141183460469231731687303715884105728; nia).
  set (q := wrap 64 (abs64 (int64 rs)) * wrap 64 (abs64 (int64 rt))).
  assert (q = p) as Eq by (unfold q, p; by rewrite !abs64_spec).
  destruct (xorb (int64 rs <? 0) (int64 rt <? 0)) eqn:Es.
  + exists (set_LO (Word (uadd 64 (unot 64 (wrap 64 q)) 1))
      (set_HI (Word (if unot 64 (wrap 64 q) =? 0xFFFFFFFFFFFFFFFF then uadd 64 (unot 64 (ushr q 64)) 1
                     else unot 64 (ushr q 64))) c)).
    split; [transitivity (dmult_result rs rt c); [reflexivity |]; unfold dmult_result; by rewrite Es |].
    rewrite Eq. cbn [HI LO set_HI set_LO].
    pose proof (negate128 p Hp) as N. cbv zeta in N. unfold int64 in *.
    rewrite (signed_ext 64 (Word _) (if unot 64 (wrap 64 p) =? 0xFFFFFFFFFFFFFFFF then uadd 64 (unot 64 (ushr p 64)) 1
       else unot 64 (ushr p 64))) by apply Zmod_mod.
    rewrite (Word_id (uadd 64 _ 1)) by (apply wrap_range; lia). rewrite N.
    unfold p. destruct (Z.ltb_spec (signed 64 rs) 0), (Z.ltb_spec (signed 64 rt) 0); try done; nia.
  + exists (set_LO (Word (wrap 64 q)) (set_HI (Word (ushr q 64)) c)).
    split; [transitivity (dmult_result rs rt c); [reflexivity |]; unfold dmult_result; by rewrite Es |].
    rewrite Eq. cbn [HI LO set_HI set_LO].
    assert (int64 rs * int64 rt = p) as ->.
    { unfold p. destruct (Z.ltb_spec (int64 rs) 0), (Z.ltb_spec (int64 rt) 0); try done; nia. }
    change (2 ^ 127) with 170141183460469231731687303715884105728 in Hp. rewrite ushr_div by lia.
    assert (0 <= p / 2 ^ 64 < 2 ^ 63) as Hq
      by (change (2 ^ 64) with 18446744073709551616; change (2 ^ 63) with 9223372036854775808;
          Z.to_euclidean_division_equations; lia).
    change (2 ^ 63) with 9223372036854775808 in Hq.
    rewrite !Word_id.
    * unfold int64. rewrite signed_small by (try lia; change (2 ^ (64 - 1)) with 9223372036854775808; lia).
      unfold wrap. pose proof (Z.div_mod p (2 ^ 64) ltac:(lia)). lia.
    * apply wrap_range; lia.
    * split; [lia |]. change (2 ^ WordSize) with 18446744073709551616. lia.
Qed.

Lemma dmult_unsigned (rs rt : Z) (c : CpuScalars) :
  is_word rs -> is_word rt ->
  exists c', hilo 0x1d rs rt c = Ok (0, c') /\ HI c' * 2 ^ 64 + LO c' = rs * rt.
Proof.
  intros Hrs Hrt.
  exists (set_LO (Word (wrap 64 (rs * rt))) (set_HI (Word (ushr (rs * rt) 64)) c)). split; [reflexivity |].
  cbn [HI LO set_HI set_LO]. destruct Hrs as [H1 H2], Hrt as [H3 H4].
  change (2 ^ WordSize) with 18446744073709551616 in *. rewrite ushr_div by lia.
  assert (0 <= rs * rt < 2 ^ 64 * 18446744073709551616) as Hp by (change (2 ^ 64) with 18446744073709551616; nia).
  rewrite !Word_id.
  + unfold wrap. pose proof (Z.div_mod (rs * rt) (2 ^ 64) ltac:(lia)). lia.
  + apply wrap_range; lia.
  + split; [apply Z.div_pos; lia |]. change (2 ^ WordSize) with 18446744073709551616.
    apply Z.div_lt_upper_bound; lia.
Qed.

(** On the 64-bit VM dmult and dmultu leave the exact 128-bit product in
    HI:LO; dmult, which multiplies absolute values and negates, is right for
    every pair of signed operands, the most negative one included. *)
Theorem dmult_product (rs rt : Z) (c : CpuScalars) :
  is_word rs -> is_word rt ->
  (exists c', hilo 0x1c rs rt c = Ok (0, c') /\ int64 (HI c') * 2 ^ 64 + LO c' = int64 rs * int64 rt) /\
  (exists c', hilo 0x1d rs rt c = Ok (0, c') /\ HI c' * 2 ^ 64 + LO c' = rs * rt).
Proof.
  intros Hrs Hrt. split; [apply dmult_signed | by apply dmult_unsigned].
Qed.

End Alu64.

(** ** Instances *)

Module InsnInstances.
Import Toy.
#[local] Existing Instances digest Mips32.

(** A memory of consecutive bytes. *)
Definition counting (b : Z) : Z := wrap 8 b.

Lemma counting_bytes b : is_byte (counting b).
Proof. apply wrap_range. lia. Qed.

Lemma unaligned_load_witness :
  exists y, ExecuteMipsInstruction 0 op_load_left 0 0x1003 0xffffffff (fword counting (aligned 0x1003)) = Ok y /\
    ExecuteMipsInstruction 0 op_load_right 0 0x1006 y (fword counting (aligned 0x1006)) = Ok 0x03040506.
Proof.
  destruct (unaligned_load counting 0x1003 0xffffffff 0 0 counting_bytes ltac:(done)) as (y & R1 & R2).
  exists y. split; [exact R1 | exact R2].
Defined.

Lemma unaligned_store_witness :
  exists w1, ExecuteMipsInstruction 0 op_store_left 0 0x1002 0xa1b2c3d4 (fword counting (aligned 0x1002)) = Ok w1 /\
    let f1 := write_bytes counting (aligned 0x1002) (ByteOrder_PutWord w1) in
    exists w2, ExecuteMipsInstruction 0 op_store_right 0 0x1005 0xa1b2c3d4 (fword f1 (aligned 0x1005)) = Ok w2 /\
      write_bytes f1 (aligned 0x1005) (ByteOrder_PutWord w2) 0x1003
      = write_bytes counting 0x1002 (ByteOrder_PutWord 0xa1b2c3d4) 0x1003.
Proof. exact (unaligned_store counting 0x1002 0xa1b2c3d4 0 0 0x1003 counting_bytes ltac:(done)). Defined.

Lemma aligned_load_witness :
  ExecuteMipsInstruction 0 0x21 0 0x2ffe 0 (mem_word (stored words) (0x2ffe .& AddressMask)) = Ok 0xffffbeef.
Proof.
  rewrite (aligned_load (stored words) 0x21 2 true 0 0 0x2ffe 0); [vm_compute; reflexivity | | done |].
  - apply stored_ok, words_aligned.
  - apply elem_of_cons. right. apply elem_of_cons. by left.
Defined.

Lemma aligned_store_witness :
  exists w, ExecuteMipsInstruction 0 0x29 0 0x1006 0xabcd (mem_word (stored words) (0x1006 .& AddressMask)) = Ok w /\
    write_bytes (mem_byte (stored words)) (0x1006 .& AddressMask) (ByteOrder_PutWord w) 0x1007 = 0xcd.
Proof.
  destruct (aligned_store (stored words) 0x29 2 0 0 0x1006 0xabcd 0x1007) as (w & R & E).
  - apply stored_ok, words_aligned.
  - done.
  - apply elem_of_cons. right. apply elem_of_cons. by left.
  - exists w. split; [exact R |]. rewrite E. vm_compute. reflexivity.
Defined.

Lemma dmult_product_witness :
  (exists c', @hilo Mips64 0x1c (2 ^ 63) (2 ^ 64 - 1) (mkCpu 0 4 0 0) = Ok (0, c') /\
     int64 (HI c') * 2 ^ 64 + LO c' = 2 ^ 63) /\
  (exists c', @hilo Mips64 0x1d (2 ^ 63) (2 ^ 64 - 1) (mkCpu 0 4 0 0) = Ok (0, c') /\
     HI c' * 2 ^ 64 + LO c' = 2 ^ 63 * (2 ^ 64 - 1)).
Proof. exact (dmult_product (2 ^ 63) (2 ^ 64 - 1) (mkCpu 0 4 0 0) ltac:(done) ltac:(done)). Defined.

End InsnInstances.
