(* ===== verification/VMTheorems.v ===== *)
(** The properties of the multithreaded VM (cannon/mipsevm/multithreaded, with
    the system calls of cannon/mipsevm/exec), each with an instance. *)
From Stdlib Require Import ZArith Lia.
From stdpp Require Import base gmap list strings numbers.
From S2P Require Import Prelude Arch Codec Insn Memory Exec Threads Multithreaded Singlethreaded.
From S2P Require Import Program MerkleSpec MemoryProps MerkleProps MemoryRange InsnProps ExecProps SyscallProps SyscallSpec.
From S2P Require Import MTProps MTStep Sched Commit Toy.

Import MT.

Section Theorems.
Context {A : Arch} {K : Keccak} {KL : KeccakLaws K} {PO : PreimageOracle} {MD : Metadata} {L : LRU}.
Implicit Types m : InstrumentedState L.


(** Thread ids are never reused: in every state reached in [n] steps the
    ids of all threads on both stacks are distinct and below the id counter, as
    long as the counter cannot have wrapped around. *)
Theorem thread_ids_unique (pc heap : Z) (s0 : State) (n : nat) (m : InstrumentedState L) :
  is_word pc -> is_word heap -> CreateInitialState pc heap = Ok s0 ->
  NextThreadId s0 + Z.of_nat n <= maxWord -> steps n (MTVM.NewInstrumentedState s0) m ->
  NoDup (ThreadId <$> threads (state m)) /\
  Forall (fun i => i < NextThreadId (state m)) (ThreadId <$> threads (state m)).
Proof.
  intros Hpc Hh E Hn H. destruct (initial_ok pc heap s0 Hpc Hh E) as [Hs Hi].
  by destruct (steps_ids n _ m H Hs Hi Hn).
Qed.

(** A call of [Step] either finds the VM exited, and then changes nothing
    but caches of the memory, or advances the step counter by exactly one
    (modulo 2^64). *)
Theorem step_counts (proof : bool) m w m' :
  state_ok (state m) -> MTVM.Step proof m = Ok (w, m') ->
  if Exited (state m)
  then Step (state m') = Step (state m) /\ Exited (state m') = true /\
       threads (state m') = threads (state m) /\ same_bytes (Mem (state m)) (Mem (state m'))
  else Step (state m') = wrap 64 (Step (state m) + 1).
Proof.
  intros Hs R. destruct (Exited (state m)) eqn:He.
  - destruct (Step_inv proof m w m' Hs R) as (m1 & R1 & mem' & Em & _ & _ & Hb).
    rewrite doMipsStep_exited in R1 by (by rewrite Em). injection R1 as ->. by rewrite Em.
  - pose proof (Step_stepped proof m w m' Hs R) as H. rewrite He in H. by rewrite (sd_step _ _ H).
Qed.

(** The check [assertPostStateChecks] that ends every step can never fire:
    a step that executes its instruction without panicking returns, so the
    active thread stack is never left empty. *)
Theorem post_state_check_passes m m' :
  state_ok (state m) -> MTVM.doMipsStep m = Ok ((), m') -> MTVM.mipsStep m = Ok ((), m').
Proof.
  intros Hs R. eapply mipsStep_check; [| exact R]. destruct (Exited (state m)) eqn:He.
  - rewrite doMipsStep_exited in R by done. by injection R as <-.
  - by apply (doMipsStep_stepped m () m' Hs He R).
Qed.

(** [EncodeWitness] never panics: its output has exactly
    STATE_WITNESS_SIZE bytes, starts with the Merkle root of the memory, and
    the state hash is the digest of the witness with its first byte replaced by
    the status of the VM, which [StateHash] recomputes from the witness alone. *)
Theorem encode_witness_ok (s : State) :
  state_ok s ->
  exists out h s', EncodeWitness s = Ok ((out, h), s') /\ recached s s' /\
    zlen out = STATE_WITNESS_SIZE /\ take 32 out = mem_node (Mem s) 1 /\
    h = <[0%nat := VMStatus s]> (keccak256 out) /\ StateHash out = Ok h.
Proof.
  intros Hs. destruct (EncodeWitness_run s Hs) as (mem' & R & W & M & B). cbn zeta in R.
  assert (zlen (encode_state (mem_node (Mem s) 1) s) = STATE_WITNESS_SIZE) as Hz
    by (apply encode_state_size; [apply length_mem_node | apply Hs]).
  do 3 eexists. split; [exact R |]. split; [by exists mem' |]. split; [done |]. split; [| split; [done |]].
  - rewrite encode_state_fields. cbn [witness_fields concat].
    rewrite <- (length_mem_node (Mem s) 1) at 1. apply take_app_length.
  - unfold StateHash. rewrite Hz, Z.eqb_refl. cbn [negb]. apply encode_state_status; [apply length_mem_node | apply Hs].
Qed.

(** C8. The witness commits to the state: two well-formed states with the same
    witness have the same scalars, the same threads in the same order on both
    stacks and the same memory contents - all but the buffered hint, which is
    not part of the witness - unless the strings hashed for the two witnesses
    break the hash function: two of them collide or one has the zero hash. The
    hypothesis is the documented value of the root of the empty stack. *)
Theorem witness_commits (s s' : State) :
  EmptyThreadsRoot = keccak256 (replicate 64 0) -> state_ok s -> state_ok s' ->
  encode_state (mem_node (Mem s) 1) s = encode_state (mem_node (Mem s') 1) s' ->
  broken (state_inputs s) (state_inputs s') \/
  (s' = set_LastHint (LastHint s') (set_Mem (Mem s') s) /\
   forall a, is_word a -> mem_byte (Mem s) a = mem_byte (Mem s') a).
Proof. intros E. by apply witness_binding. Qed.

(** The thread witness proves the current thread: it is the serialized
    thread followed by the root of the rest of its stack, of THREAD_WITNESS_SIZE
    bytes, hashing the two parts gives the root of the active stack that is part
    of the state witness, and another well-formed thread that hashes with some
    32-byte root to the same stack root is the same thread, unless the strings
    hashed on the way break the hash function. *)
Theorem thread_witness (s : State) (t : ThreadState) :
  state_ok s -> top (getActiveThreadStack s) = Some t ->
  exists rest, EncodeThreadProof s = Ok (serializeThread t ++ rest) /\
    zlen (serializeThread t ++ rest) = THREAD_WITNESS_SIZE /\
    computeThreadRoot rest t = calculateThreadStackRoot (getActiveThreadStack s) /\
    forall t' rest', thread_wf t' -> length rest' = 32%nat ->
      computeThreadRoot rest' t' = calculateThreadStackRoot (getActiveThreadStack s) ->
      broken (thread_inputs rest' t') (thread_inputs rest t) \/ (t' = t /\ rest' = rest).
Proof.
  intros Hs Ht. destruct (thread_proof_root s t Ht) as [Hp Hr]. pose proof (current_wf s t Hs Ht) as Hw.
  eexists. split; [exact Hp |]. split; [| split; [exact Hr |]].
  - unfold zlen. rewrite length_app, length_stack_root. pose proof (length_serializeThread t Hw) as Hl.
    unfold zlen in Hl. unfold THREAD_WITNESS_SIZE. lia.
  - intros t' rest' Hw' Hl' E. change (getActiveThreadStack s) with (active s) in E. rewrite <- Hr in E. unfold computeThreadRoot in E. cbv zeta in E.
    set (rest := calculateThreadStackRoot (pop (active s))) in *.
    apply (keccak_inj (thread_inputs rest' t') (thread_inputs rest t)) in E as [E | E]; [| by left | by right | by right].
    apply app_inj_32 in E as [-> E]; [| done | apply length_stack_root].
    apply (keccak_inj (thread_inputs rest t') (thread_inputs rest t)) in E as [E | E]; [| by left | by left | by left].
    right. split; [by apply thread_binding | done].
Qed.

(** *** Scheduling *)

(** C32. Preemption is fair: if the running thread keeps being preempted (or
    yields), every thread of either stack becomes the running one before the two
    stacks have been swept twice. *)
Theorem preemption_fair m t :
  state_ok (state m) -> t ∈ threads (state m) ->
  exists n m', Z.of_nat n < 2 * ThreadCount (state m) /\ preempt_n n m = Ok ((), m') /\
    GetCurrentThread (state m') = Ok t.
Proof.
  intros Hs Ht. destruct (rot_fair _ _ t (so_active _ Hs) Ht) as (n & Hn & Htop).
  destruct (preempt_n_run n m (so_active _ Hs)) as (m' & R & _ & E).
  exists n, m'. split; [rewrite thread_count; unfold threads; lia |]. split; [done |].
  apply GetCurrentThread_top. by rewrite <- Htop, <- E.
Qed.

(** A thread runs for at most [SchedQuantum] steps in a row: at the end of
    its quantum a step executes no instruction but moves the running thread to
    the other stack and resets the counter; memory, registers and every other
    field but the step counter stay as they are. *)
Theorem quantum_preempts (proof : bool) m w m' t :
  state_ok (state m) -> Exited (state m) = false -> top (getActiveThreadStack (state m)) = Some t ->
  ThreadExited t = false -> StepsSinceLastContextSwitch (state m) = SchedQuantum ->
  MTVM.Step proof m = Ok (w, m') ->
  rotated (state m) (state m') /\ StepsSinceLastContextSwitch (state m') = 0 /\
  Step (state m') = wrap 64 (Step (state m) + 1) /\ same_bytes (Mem (state m)) (Mem (state m')) /\
  threads (state m') ≡ₚ threads (state m).
Proof.
  intros Hs He Ht Hr Hq R. destruct (Step_inv proof m w m' Hs R) as (m1 & R1 & mem' & Em & _ & _ & Hb).
  assert (top (active (state m1)) = Some t) as Ht1 by (rewrite Em; exact Ht).
  destruct (doMipsStep_quantum m1 () m' t) as (Hsc & Hrot & H0); try done; [by rewrite Em | rewrite Em; cbn; lia |].
  destruct (same_scalars_fields _ _ Hsc) as (E1 & _ & _ & _ & _ & _ & _ & _ & _ & E10 & _).
  assert (rotated (state m) (state m')) as Hrot' by (by rewrite Em in Hrot).
  split; [done |]. split; [done |]. split; [by rewrite E10, Em |]. split; [by rewrite E1, Em |].
  by apply rotated_perm.
Qed.

(** *** Load-linked / store-conditional *)

(** C15. A reservation protects its word: during any number of steps, of any
    threads and any instructions and system calls, in which the reservation
    stays the same, the bytes of the reserved word do not change. *)
Theorem reservation_protects (r : Z * Z * Z) m m' :
  state_ok (state m) -> holds r m m' -> r.1.1 <> LLStatusNone ->
  forall b, r.1.2 .& AddressMask <= b < r.1.2 .& AddressMask + WordSizeBytes ->
  mem_byte (Mem (state m')) b = mem_byte (Mem (state m)) b.
Proof. intros Hs H Hn. by apply (holds_word r m m' H Hs). Qed.

(** A step can only keep the reservation, drop it, or take one for the
    running thread. *)
Theorem reservation_owner (proof : bool) m w m' :
  state_ok (state m) -> MTVM.Step proof m = Ok (w, m') ->
  reservation (state m') = reservation (state m) \/ LLReservationStatus (state m') = LLStatusNone \/
  exists t, GetCurrentThread (state m) = Ok t /\ LLOwnerThread (state m') = ThreadId t.
Proof.
  intros Hs R. destruct (Step_reservation proof m w m' Hs R) as [H | [H | (t & Ht & H)]]; [by left | by right; left |].
  right; right. exists t. split; [by apply GetCurrentThread_top | done].
Qed.

(** C31. A store-conditional (sc on both VMs, scd on the 64-bit VM) succeeds
    exactly if the running thread holds a reservation for the same address and
    size: then it stores its operand, gives the reservation up and returns 1;
    otherwise it returns 0 and changes neither memory nor reservation. *)
Theorem store_conditional_outcome (insn opcode : Z) m u m' t :
  opcode = OpStoreConditional \/ (opcode = OpStoreConditional64 /\ IsMips32 = false) ->
  state_ok (state m) -> top (getActiveThreadStack (state m)) = Some t ->
  MTVM.handleRMWOps insn opcode m = Ok (u, m') ->
  let addr := rmw_addr t insn in
  let n := rmw_len opcode in
  let won := bool_decide (reservation (state m) = (rmw_status opcode, addr, ThreadId t)) in
  (exists t', top (getActiveThreadStack (state m')) = Some t' /\ ThreadId t' = ThreadId t /\
     Registers t' = with_result (rmw_reg insn) (if won then 1 else 0) (Registers t)) /\
  if won
  then LLReservationStatus (state m') = LLStatusNone /\
       forall b, mem_byte (Mem (state m')) b
         = write_bytes (mem_byte (Mem (state m))) (addr - addr mod n)
             (be_encode (Z.to_nat n) (reg (Registers t) (rmw_reg insn))) b
  else Mem (state m') = Mem (state m) /\ reservation (state m') = reservation (state m).
Proof. apply store_conditional_value. Qed.

(** *** Serialized states *)

(** C39. A well-formed state that is written and read back is the same state, up
    to the order in which its pages are laid out, and exactly the bytes written
    are consumed. *)
Theorem state_roundtrip (s : State) (rest : list Z) :
  state_ok s -> zlen (LastHint s) < 2 ^ 32 -> ThreadCount s < 2 ^ WordSize ->
  exists mem', State_Deserialize (State_Serialize s ++ rest) = Ok (set_Mem mem' s, rest) /\
    same_pages (Mem s) mem'.
Proof. intros H1 H2 H3. destruct (MT_roundtrip s rest H1 H2 H3) as (mem' & R & HM & _). eauto. Qed.

(** A state of either VM wrapped in the version that fits the architecture
    is read back as the same state with the same version. *)
Theorem versioned_roundtrip (s : FPVMState) (v : VersionedState) (rest : list Z) :
  FPVM_ok s -> NewFromState s = Ok v ->
  exists s', VersionedState_Deserialize (VersionedState_Serialize v ++ rest)
      = Ok (mkVersioned (Version v) s', rest) /\ same_state s s'.
Proof. apply Versioned_roundtrip. Qed.

(** *** System calls *)

(** Reading the pre-image of the current key copies the bytes from the
    current offset on - the length prefix first - to the requested address, as
    many as are left, were asked for, and fit in the memory word of the address;
    it returns and advances the offset by exactly that number, and no other
    byte of the memory changes. *)
Theorem preimage_read (a1 a2 : Z) (key : list Z) (off : Z) (i i' : IO) r :
  let pre := be_encode 8 (wrap 64 (zlen (po_GetPreimage key))) ++ po_GetPreimage key in
  io_wf i -> is_word a1 -> is_word a2 -> oracle_ok key (io_oracle i) ->
  0 <= off < zlen pre -> is_word (zlen pre) -> bytes_ok pre ->
  HandleSysRead FdPreimageRead a1 a2 key off i = Ok (r, i') ->
  let n := read_len (zlen pre - off) a1 a2 in
  r = (n, 0, wadd off n, true, a1 .& AddressMask) /\ oracle_ok key (io_oracle i') /\
  forall b, mem_byte (io_memory i') b = write_bytes (mem_byte (io_memory i)) a1 (slice off (off + n) pre) b.
Proof. intros pre Hi H1 H2 Ho. by apply HandleSysRead_preimage. Qed.

(** Hints that a program writes, each with its length in front, reach the
    oracle once each and in order, and an incomplete hint at the end of the
    stream stays in the buffer. *)
Theorem hints_delivered (hs : list (list Z)) (rest : list Z) (i : IO) :
  let l := concat (encode_hint <$> hs) ++ rest in
  bytes_ok l -> zlen l < 2 ^ 32 -> complete rest = false ->
  exists i', process_hints (length l) l i = Ok (rest, i') /\
    hints (io_oracle i') = hints (io_oracle i) ++ hs /\ io_memory i' = io_memory i.
Proof.
  intros l Hb Hl Hr. eexists. split; [by apply process_hints_stream |].
  clear. revert i. induction hs as [|h hs IH]; intros i; cbn [foldl]; [by rewrite app_nil_r |].
  destruct (IH (add_hint h i)) as [-> ->]. cbn. by rewrite <- app_assoc.
Qed.

(** Hints do not depend on how the stream is cut into writes: processing one
    part and then the rest behind what was left in the buffer gives the same
    hints, in the same order, and the same buffer as processing it at once. *)
Theorem hints_chunked (l1 l2 : list Z) (i : IO) :
  bytes_ok (l1 ++ l2) -> zlen (l1 ++ l2) < 2 ^ 32 ->
  exists r1 i1 r2 i2,
    process_hints (length l1) l1 i = Ok (r1, i1) /\
    process_hints (length (r1 ++ l2)) (r1 ++ l2) i1 = Ok (r2, i2) /\
    process_hints (length (l1 ++ l2)) (l1 ++ l2) i = Ok (r2, i2).
Proof. intros Hb Hl. by apply process_hints_chunks. Qed.

(** An anonymous mmap returns the old end of the heap and moves it up by
    the requested size rounded up to whole pages, or fails with EINVAL and
    leaves the heap alone if that would pass the end of the heap; no request,
    however large, wraps around. *)
Theorem mmap_bounds (a1 heap v0 v1 heap' : Z) :
  is_word a1 -> is_word heap -> HandleSysMmap 0 a1 heap = (v0, v1, heap') ->
  (v0 = heap /\ v1 = 0 /\ heap' = heap + round_up a1 /\ heap' <= HeapEnd)
  \/ (v0 = SysErrorSignal /\ v1 = MipsEINVAL /\ heap' = heap /\ HeapEnd < heap + round_up a1).
Proof. apply HandleSysMmap_grow. Qed.

End Theorems.

(** ** Instances, on the 32-bit VM *)

Module VMInstances.
Import Toy.
#[local] Existing Instances digest oracle metadata cache digest_laws.
#[local] Existing Instance Mips32.

Lemma start_words : is_word 0x1000 /\ is_word 0x20000000.
Proof. done. Qed.

(** Two no-ops, the first with a proof. *)
Definition vm1 : InstrumentedState cache := after true vm0.
Definition vm2 : InstrumentedState cache := after false vm1.

Definition wit (proof : bool) (m : InstrumentedState cache) : option StepWitness :=
  match MTVM.Step proof m with Ok (w, _) => w | _ => None end.

Lemma step1 : MTVM.Step true vm0 = Ok (wit true vm0, vm1).
Proof. vm_compute. reflexivity. Qed.

Lemma run2 : steps 2 (MTVM.NewInstrumentedState state0) vm2.
Proof.
  apply (steps_step 1 _ vm1 vm2 false (wit false vm1)); [| vm_compute; reflexivity].
  apply (steps_step 0 _ vm0 vm1 true (wit true vm0)); [constructor | exact step1].
Qed.


Lemma thread_ids_unique_witness :
  NoDup (ThreadId <$> threads (state vm2)) /\
  Forall (fun i => i < NextThreadId (state vm2)) (ThreadId <$> threads (state vm2)).
Proof.
  apply (thread_ids_unique 0x1000 0x20000000 state0 2 vm2);
    [done | done | reflexivity | vm_compute; discriminate | exact run2].
Defined.

Lemma step_counts_witness : MT.Step (state vm1) = wrap 64 (MT.Step (state vm0) + 1).
Proof. exact (step_counts true vm0 (wit true vm0) vm1 (proj1 state0_ok) step1). Defined.

Definition do1 : InstrumentedState cache := match MTVM.doMipsStep vm0 with Ok (_, m) => m | _ => vm0 end.

Lemma post_state_check_passes_witness : MTVM.mipsStep vm0 = Ok ((), do1).
Proof.
  apply (post_state_check_passes vm0 do1); [exact (proj1 state0_ok) | vm_compute; reflexivity].
Defined.

Lemma encode_witness_ok_witness :
  exists out h s', EncodeWitness state0 = Ok ((out, h), s') /\ recached state0 s' /\
    zlen out = STATE_WITNESS_SIZE /\ take 32 out = mem_node (Mem state0) 1 /\
    h = <[0%nat := VMStatus state0]> (keccak256 out) /\ StateHash out = Ok h.
Proof. exact (encode_witness_ok state0 (proj1 state0_ok)). Defined.

Lemma hint_ok h : bytes_ok h -> state_ok (set_LastHint h state0).
Proof.
  intros Hh. assert (steady state0 (set_Preimage (PreimageKey state0) (PreimageOffset state0) (set_LastHint h state0))) as H.
  { apply set_Preimage_steady; [apply state0_ok | | | done]; apply state0_ok. }
  apply H.
Qed.

Lemma encode_hint_free h (s : State) :
  encode_state (mem_node (Mem s) 1) s = encode_state (mem_node (Mem (set_LastHint h s)) 1) (set_LastHint h s).
Proof. done. Qed.

Definition state_hint : State := set_LastHint [1] state0.

Lemma witness_commits_witness :
  broken (state_inputs state0) (state_inputs state_hint) \/
  (state_hint = set_LastHint (LastHint state_hint) (set_Mem (Mem state_hint) state0) /\
   forall a, is_word a -> mem_byte (Mem state0) a = mem_byte (Mem state_hint) a).
Proof.
  apply (witness_commits state0 state_hint digest_empty); [apply state0_ok | | exact (encode_hint_free [1] state0)].
  apply hint_ok. repeat constructor; done.
Defined.

Definition thread0 : ThreadState := mkThread 0 0 false (mkCpu 0x1000 0x1004 0 0) (replicate 32 0).

Lemma thread_witness_witness :
  exists rest, EncodeThreadProof state0 = Ok (serializeThread thread0 ++ rest) /\
    zlen (serializeThread thread0 ++ rest) = THREAD_WITNESS_SIZE /\
    computeThreadRoot rest thread0 = calculateThreadStackRoot (getActiveThreadStack state0) /\
    forall t' rest', thread_wf t' -> length rest' = 32%nat ->
      computeThreadRoot rest' t' = calculateThreadStackRoot (getActiveThreadStack state0) ->
      broken (thread_inputs rest' t') (thread_inputs rest thread0) \/ (t' = thread0 /\ rest' = rest).
Proof. exact (thread_witness state0 thread0 (proj1 state0_ok) eq_refl). Defined.

(** A second thread on top of the first. *)
Definition thread1 : ThreadState := clone_thread 1 0x7000 thread0.
Definition state2 : State := set_Stacks [thread0; thread1] [] state0.
Definition vm_two : InstrumentedState cache := MTVM.NewInstrumentedState state2.

Lemma state2_ok : state_ok state2.
Proof.
  assert (thread_wf thread0) as H0 by (apply (current_wf state0); [apply state0_ok | done]).
  apply (push_ok state0 state2 thread1); try done; [apply state0_ok | |].
  - by apply clone_thread_wf.
  - by constructor.
Qed.

Lemma preemption_fair_witness :
  exists n m', Z.of_nat n < 2 * ThreadCount state2 /\ preempt_n n vm_two = Ok ((), m') /\
    GetCurrentThread (state m') = Ok thread0.
Proof.
  apply (preemption_fair vm_two thread0); [exact state2_ok |]. apply elem_of_cons. by left.
Defined.

Definition vm_quantum : InstrumentedState cache :=
  MTVM.NewInstrumentedState (set_StepsSince SchedQuantum state2).
Definition vm_switched : InstrumentedState cache := after false vm_quantum.

Lemma quantum_preempts_witness :
  rotated (state vm_quantum) (state vm_switched) /\ StepsSinceLastContextSwitch (state vm_switched) = 0 /\
  MT.Step (state vm_switched) = 1 /\ same_bytes (Mem (state vm_quantum)) (Mem (state vm_switched)) /\
  threads (state vm_switched) ≡ₚ threads (state vm_quantum).
Proof.
  apply (quantum_preempts false vm_quantum (wit false vm_quantum) vm_switched thread1);
    [| reflexivity .. | vm_compute; reflexivity].
  apply set_StepsSince_ok; [exact state2_ok | vm_compute; split; discriminate].
Defined.

(** The first thread holds a reservation for the word at 0x40. *)
Definition state_ll : State := set_LL LLStatusActive32bit 0x40 0 state0.
Definition vm_ll : InstrumentedState cache := MTVM.NewInstrumentedState state_ll.

Lemma state_ll_ok : state_ok state_ll.
Proof. apply set_LL_ok; [apply state0_ok | done | done | done]. Qed.

Lemma reservation_protects_witness :
  mem_byte (Mem (state (after false vm_ll))) 0x42 = mem_byte (Mem (state vm_ll)) 0x42.
Proof.
  apply (reservation_protects (LLStatusActive32bit, 0x40, 0) vm_ll (after false vm_ll) state_ll_ok); [| done | by vm_compute].
  apply (holds_step _ vm_ll vm_ll _ false (wit false vm_ll)); [by constructor | |]; vm_compute; reflexivity.
Defined.

Lemma reservation_owner_witness :
  reservation (state vm1) = reservation (state vm0) \/ LLReservationStatus (state vm1) = LLStatusNone \/
  exists t, GetCurrentThread (state vm0) = Ok t /\ LLOwnerThread (state vm1) = ThreadId t.
Proof.
  exact (reservation_owner true vm0 (wit true vm0) vm1 (proj1 state0_ok) step1).
Defined.

(** sc $8, 0x40($0) *)
Definition insn_sc : Z := 0xe0080040.
Definition vm_sc : InstrumentedState cache :=
  match MTVM.handleRMWOps insn_sc OpStoreConditional vm_ll with Ok (_, m) => m | _ => vm_ll end.

Lemma store_conditional_outcome_witness :
  (exists t', top (getActiveThreadStack (state vm_sc)) = Some t' /\ ThreadId t' = 0 /\
     Registers t' = set_reg 8 1 (replicate 32 0)) /\
  LLReservationStatus (state vm_sc) = LLStatusNone /\
  forall b, mem_byte (Mem (state vm_sc)) b = write_bytes (mem_byte NewMemory) 0x40 [0; 0; 0; 0] b.
Proof.
  exact (store_conditional_outcome insn_sc OpStoreConditional vm_ll () vm_sc thread0
    (or_introl eq_refl) state_ll_ok eq_refl ltac:(vm_compute; reflexivity)).
Defined.

Lemma state_roundtrip_witness :
  exists mem', State_Deserialize (State_Serialize state2 ++ [7]) = Ok (set_Mem mem' state2, [7]) /\
    same_pages (Mem state2) mem'.
Proof. apply (state_roundtrip state2 [7]); [exact state2_ok | done | done]. Defined.

Lemma versioned_roundtrip_witness :
  exists s', VersionedState_Deserialize
      (VersionedState_Serialize (mkVersioned VersionMultiThreaded_v2 (Multithreaded_State state2)) ++ [])
    = Ok (mkVersioned VersionMultiThreaded_v2 s', []) /\ same_state (Multithreaded_State state2) s'.
Proof.
  apply (versioned_roundtrip (Multithreaded_State state2)
    (mkVersioned VersionMultiThreaded_v2 (Multithreaded_State state2)) []); [| reflexivity].
  split; [exact state2_ok | done].
Defined.

Definition key1 : list Z := replicate 32 1.
Definition io0 : IO := mkIO NewMemory NewMemoryTracker NewTrackingPreimageOracleReader [] [].
Definition io1 : IO :=
  match HandleSysRead FdPreimageRead 0x1002 100 key1 6 io0 with Ok (_, i) => i | _ => io0 end.

Lemma preimage_read_witness :
  oracle_ok key1 (io_oracle io1) /\
  forall b, mem_byte (io_memory io1) b = write_bytes (mem_byte NewMemory) 0x1002 [0; 4] b.
Proof.
  refine (proj2 (preimage_read 0x1002 100 key1 6 io0 io1 (2, 0, 8, true, 0x1000) _ _ _ _ _ _ _ _));
    try done.
  - split; [apply NewMemory_wf | apply NewMemory_merkle].
  - repeat constructor; done.
Defined.

Lemma hints_delivered_witness :
  exists i', process_hints 13 [0; 0; 0; 2; 8; 9; 0; 0; 0; 1; 7; 0; 0] io0 = Ok ([0; 0], i') /\
    hints (io_oracle i') = [[8; 9]; [7]] /\ io_memory i' = NewMemory.
Proof.
  apply (hints_delivered [[8; 9]; [7]] [0; 0] io0); [| done | done]. repeat constructor; done.
Defined.

Lemma hints_chunked_witness :
  exists r1 i1 r2 i2,
    process_hints 3 [0; 0; 0] io0 = Ok (r1, i1) /\
    process_hints (length (r1 ++ [1; 7; 0])) (r1 ++ [1; 7; 0]) i1 = Ok (r2, i2) /\
    process_hints 6 [0; 0; 0; 1; 7; 0] io0 = Ok (r2, i2).
Proof. apply (hints_chunked [0; 0; 0] [1; 7; 0] io0); [repeat constructor; done | done]. Defined.

Lemma mmap_bounds_witness :
  (0x20000000 = 0x20000000 /\ 0 = 0 /\ 0x20002000 = 0x20000000 + round_up 0x1001 /\ 0x20002000 <= HeapEnd)
  \/ (0x20000000 = SysErrorSignal /\ 0 = MipsEINVAL /\ 0x20002000 = 0x20000000 /\ HeapEnd < 0x20000000 + round_up 0x1001).
Proof. apply (mmap_bounds 0x1001 0x20000000 0x20000000 0 0x20002000); [done | done | reflexivity]. Defined.

End VMInstances.
